(* ===== verification/_CoqProject ===== *)
-Q . S2P
Prelude.v
Wire.v
ListHeap.v
Queue.v
Trie.v
TrieSpec.v
Slots.v
Hash.v
Priolist.v
Sched.v
Pipe.v
Lb.v
Fq.v
Timerset.v
Fsm.v
Timer.v
Sock.v
SockFsm.v
Message.v
Chunk.v
ChunkSpec.v
Inbox.v
SockBase.v
Xreq.v
Req.v
FqInbox.v
Excl.v
Pipeline.v
Dist.v
Pubsub.v
Bus.v
Xrep.v
Rep.v
Xsurveyor.v
Respondent.v
Surveyor.v
Protocols.v
Base64.v
Backoff.v
MsgQueue.v
Sha1.v
WsHandshake.v
WsHandshakeSpec.v
Sinproc.v
SinprocSpec.v
Update.v
Utf8.v
Cmsg.v
Sws.v
SwsSpec.v
SwsTrip.v
Poller.v
Usock.v
UsockData.v
Streamhdr.v
StreamhdrSpec.v
Stcp.v
StcpTrip.v
Sipc.v
Efd.v
SockIo.v
SockIoSpec.v
SockCalls.v
SockResults.v
Api.v
CmsgSpec.v
ApiSpec.v
ApiSend.v
ApiRecv.v
Device.v
DeviceSpec.v
