(* ===== verification/Prelude.v ===== *)
(** * nanomsg: the messaging library of the nitro programs

    The repository holds several programs; the one modelled here is the C
    library nanomsg, under src/nitro_nanomsg/nanomsg/src (paths below are
    relative to it).  An application opens sockets of a socket type (PAIR,
    REQ/REP, PUB/SUB, PUSH/PULL, SURVEYOR/RESPONDENT, BUS), each raw or cooked,
    and binds or connects them over transports.  A connection is a pipe; the
    socket type decides which pipe a message goes to or is taken from.

    ** How to read the models

    C functions are Rocq functions with the C names.  Objects reached through
    pointers live in explicit heaps ([gmap] from locations), so that aliasing,
    dangling pointers and leaks can be stated; records of which there is one
    copy are passed as values.  The result type [outcome] below separates
    returning ([Ret]) from a failed assertion ([Abort]), an undefined step
    ([Undef]) and an exhausted loop bound of the model ([NoFuel]); a theorem
    that says [= Ret ...] therefore also says that nothing aborts, no bad pointer
    is followed and the loop ends.  Integers are [Z] with [u8], [u32], [u64] and
    so on where C wraps around; a [size_t] or a count that cannot overflow in
    the range of the hypotheses keeps its wrap-around all the same.  What other
    threads, transports, the clock, the allocator or the application do is an
    argument of the function or a label of a step relation.

    Loops over linked structures take fuel bounded by the number of allocated
    objects (list, queue, hash table, distributor), by the length of the data
    (trie, backtrace), or by the messages the transports hold (receiving loops);
    the specification lemmas show that this is always enough.

    ** Data structures

    - Prelude.v: [outcome], machine integers, tactics and the lemmas all files
      share.  Wire.v: utils/wire.c.
    - ListHeap.v: utils/list.c over a heap of items; [list_rep] relates a list
      to the sequence it holds.  Slots.v: arrays of such lists.  Hash.v:
      utils/hash.c, a finite map.  Queue.v: utils/queue.c, a FIFO queue.
    - Trie.v, TrieSpec.v: protocols/pubsub/trie.c, a multiset of strings;
      three theorems say exactly what subscribing, unsubscribing and matching
      do, including the nodes whose reference count the conversions lose.
    - Chunk.v, ChunkSpec.v: utils/chunk.c, chunkref.c, msg.c, at the level of
      bytes; ownership of references, no use after free, no leak.  Message.v is
      the simpler view of a message, two byte strings, that the protocol files
      use.
    - Priolist.v: protocols/utils/priolist.c, a round robin per priority.
      Timerset.v: aio/timerset.c, a list sorted by due time.  MsgQueue.v:
      transports/inproc/msgqueue.c, a bounded FIFO queue.
    - Base64.v, Backoff.v: transports/utils/base64.c and backoff.c.  Sha1.v:
      transports/ws/sha1.c, with the words of the structure seen as bytes.
      Utf8.v: the UTF-8 decoder of transports/ws/sws.c.  Cmsg.v: the walk over
      control messages of nn.h and core/global.c.
    - Update.v: the notation for records with some fields replaced.

    ** Machinery

    - Fsm.v: aio/fsm.c, the state machine every asynchronous object embeds; the
      class [FsmObject] is its virtual functions.  Timer.v: aio/timer.c with the
      part of aio/worker_posix.inc it uses, owner and worker interleaved.
    - Pipe.v: core/pipe.c, the two directions of a pipe; what the transport does
      is the argument [answer].  Inbox.v: the transports as message boxes.
    - Sched.v: the class [Scheduler] of a priority list and its laws
      [SchedulerLaws]; Priolist.v is an instance.  Lb.v, Fq.v, FqInbox.v:
      protocols/utils/lb.c and fq.c, written and proved against that class.
      Dist.v: protocols/utils/dist.c.
    - Sock.v: options and statistics of core/sock.c.  SockFsm.v: the life of a
      socket in core/sock.c with nn_close of core/global.c: holds, endpoints,
      the stages of the shutdown.

    ** Blocking calls

    - Efd.v: utils/efd.c over eventfd, the descriptors an application can poll.
      SockIo.v: nn_sock_send, nn_sock_recv and nn_sock_onleave of core/sock.c and
      nn_ctx_leave of aio/ctx.c, for any protocol of the class below, with the
      steps of all other threads.  SockIoSpec.v: what the results of a protocol
      must be (the class [SockBaseResults]) and, from it, that the descriptors
      say what the socket can do; SockCalls.v: what the calls return and how long
      they wait; SockResults.v: the instances.

    ** Public interface and devices

    - Api.v: nn_sendmsg, nn_recvmsg, nn_send, nn_recv and nn_get_statistic of
      core/global.c over the memory of Chunk.v, with what the socket returns as
      an argument.  CmsgSpec.v: the walk over well-formed control messages finds
      the first property it looks for.  ApiSpec.v: the ownership of a message,
      the allocator as the class [Malloc], and the body built out of the
      caller's buffers; ApiSend.v and ApiRecv.v: what becomes of everything a
      sender hands over, and what a receiver gets.
    - Device.v, DeviceSpec.v: devices/device.c, with the options of Sock.v and the
      calls of Api.v: which pairs of sockets a device accepts, and that messages
      pass it unchanged.  Sizes in these theorems stay below 2^38 bytes, so that the
      sums of the code cannot wrap around, and below 2^31 where the code returns
      an int.

    ** Socket types

    - SockBase.v: the class [SockBase] is [struct nn_sockbase_vfptr] of
      protocol.h, [SockBaseLaws] what the core relies on.  [bstep] runs a
      protocol with its pipes, the queue of events and the messages of the
      transports; [base_never_fails] is proved once, from the laws.
    - Excl.v (PAIR), Pipeline.v (PUSH, PULL), Pubsub.v (PUB, SUB), Bus.v (BUS,
      raw and cooked), Xrep.v and Rep.v (REP, raw and cooked), Respondent.v (the
      same code under other names), Xsurveyor.v (raw SURVEYOR): the protocol
      files of protocols/, each with its instance of the class and the theorem
      that is its own: whom a message goes to, what a receive returns, that a
      reply finds its way back.  Protocols.v collects the safety theorem.
    - Xreq.v, Req.v (REQ) and Surveyor.v (cooked SURVEYOR) run their own step
      relations, as they have timers: safety in every interleaving, matching of
      replies to requests, and that closing them terminates.

    ** Transports

    - Sinproc.v, SinprocSpec.v: transports/inproc/sinproc.c, two sessions that
      run in lockstep through each other's pointers, with the part of binproc.c
      and cinproc.c that connects them.  The message queue between them is the
      class [MsgQueueOps], with the laws [MsgQueueLaws]; MsgQueue.v is the
      implementation.
    - WsHandshake.v, WsHandshakeSpec.v: transports/ws/ws_handshake.c, the opening
      handshake of WebSocket on both sides, with its parser, buffers and timer.
    - Sws.v: transports/ws/sws.c, a WebSocket session: frames out of messages and
      messages out of frames, masking, fragments, the closing handshake.
      SwsSpec.v shows that no input leads to an undefined step; SwsTrip.v that
      what one side sends the other receives.
    - Poller.v: aio/poller_epoll.inc over the kernel's table of descriptors, the
      class [Epoll] with the laws [EpollLaws].  Usock.v: aio/usock_posix.inc and
      aio/worker_posix.inc, the asynchronous sockets with the tasks and the thread
      of their worker; what the system calls return is an argument.  UsockData.v:
      no byte is lost, repeated or moved between kernel and owner.
    - Streamhdr.v, StreamhdrSpec.v: transports/utils/streamhdr.c, the exchange of
      the protocol headers, interleaved with its socket and its timer.
    - Stcp.v: transports/tcp/stcp.c, a session over a stream, written for both
      flavours of it; Sipc.v: transports/ipc/sipc.c, the other flavour.  StcpTrip.v
      puts a session on a socket of Usock.v and two such nodes at the ends of a
      connection.

    ** Theorems

    Refinement: list, queue, hash table, priority list, timer set and message
    queue implement their abstract data types for every history of operations.
    Safety: no assertion of the socket types, timers and the socket's life cycle
    fails in any interleaving the step relations allow; no bytes of a WebSocket
    peer lead to an undefined step; a poller hands out no event of a handle that
    was removed.  Liveness and termination: what was asked to
    stop stops.  Functional: routing, filtering, matching of replies, delivery
    in order over inproc, TCP and IPC, the handshakes.  Equivalence: SHA-1 with the
    standard's definition, base64 with RFC 4648, the UTF-8 decoder with the
    standard's table.  Round trips: wire encoding, base64, a message over
    WebSocket, through the public interface and through a device.  Bounds: reconnection delays, the
    timeouts of blocking calls.  Error: where the code does not do
    what it means to, a theorem exhibits it (stale replies, lost subscriptions,
    reallocation of trimmed messages, races in the teardown of inproc, weak points
    of the handshakes and of WebSocket and IPC sessions, a late endpoint,
    negative intervals).

    ** Not modelled

    - The endpoints of tcp, ipc and ws that open and accept connections (btcp.c,
      ctcp.c, atcp.c and their counterparts); of inproc, the table of endpoints
      (ins.c); of the transports' helpers, dns, iface, port and literal.
    - Of the operating system layer, the sockets of Windows, the pollers for poll
      and kqueue, the variants of efd.c without eventfd, and semaphores, mutexes
      and threads: wrappers of system calls.  A full run of the sockets' state machines is proved for connected
      sockets only (StcpTrip.v); the functions that connect, listen and accept are
      modelled, but the races among them are not settled by a theorem.
    - core/global.c apart from nn_close and the calls of Api.v: initialisation, the
      table of sockets and the argument checking of the other calls.  core/poll.c
      and core/symbol.c.  Of a device, the two threads that run it both ways: each is
      the loop of Device.v.
    - Memory allocation succeeds, except in Chunk.v; locks are not modelled, a
      step of a step relation is what runs under one lock.
    - The other programs of the repository: libuv, the copies of nanomsg's
      Windows build, SWIG and the Boost-based server prototypes are third-party
      code or thin programs around these libraries. *)

From stdpp Require Import base gmap list.
From Stdlib Require Import ZArith Lia.

Open Scope Z_scope.

(** ** Outcomes of C code

    [Ret a] is a normal return, [Abort] a failed [nn_assert], [alloc_assert],
    [errnum_assert] or [assert] (the process is aborted), [Undef] a step the C
    standard leaves undefined (null or wild pointer, read or write outside an
    object), [NoFuel] an exhausted loop bound of the model. *)

Inductive outcome (A : Type) : Type :=
| Ret (a : A)
| Abort
| Undef
| NoFuel.
Arguments Ret {A} a.
Arguments Abort {A}.
Arguments Undef {A}.
Arguments NoFuel {A}.

#[export] Instance outcome_ret : MRet outcome := @Ret.

#[export] Instance outcome_fmap : FMap outcome := fun A B f m =>
  match m with
  | Ret a => Ret (f a)
  | Abort => Abort
  | Undef => Undef
  | NoFuel => NoFuel
  end.

#[export] Instance outcome_bind : MBind outcome := fun A B f m =>
  match m with
  | Ret a => f a
  | Abort => Abort
  | Undef => Undef
  | NoFuel => NoFuel
  end.

(** [nn_assert (b)]. *)
Definition check (b : bool) : outcome unit := if b then Ret tt else Abort.

(** Access through a pointer: a location that is not allocated is undefined. *)
Definition deref {V} (m : gmap positive V) (p : positive) : outcome V :=
  match m !! p with Some v => Ret v | None => Undef end.

(** Array access; an index out of range is undefined. *)
Definition nth_c {A} (l : list A) (i : Z) : outcome A :=
  if 0 <=? i then
    match l !! Z.to_nat i with Some a => Ret a | None => Undef end
  else Undef.

(** Array update; an index out of range is undefined. *)
Definition upd_c {A} (l : list A) (i : Z) (a : A) : outcome (list A) :=
  if (0 <=? i) && (i <? Z.of_nat (length l))
  then Ret (<[Z.to_nat i := a]> l) else Undef.

(** ** Machine integers *)

Definition u8 (z : Z) : Z := z mod 256.
Definition u16 (z : Z) : Z := z mod 2 ^ 16.
Definition u32 (z : Z) : Z := z mod 2 ^ 32.
Definition u64 (z : Z) : Z := z mod 2 ^ 64.

(** Conversion of a 64-bit value to a 32-bit [int] (two's complement). *)
Definition s32 (z : Z) : Z :=
  let w := u32 z in if decide (w < 2 ^ 31) then w else w - 2 ^ 32.

Definition is_byte (b : Z) : Prop := 0 <= b < 256.
Abbreviation bytes := (Forall is_byte).

(** C's truth value of a condition. *)
Definition c_bool (b : bool) : Z := if b then 1 else 0.

(** ** Error numbers, returned negated *)

Definition EAGAIN : Z := 11.
Definition ENOMEM : Z := 12.
Definition EINVAL : Z := 22.
Definition ENOPROTOOPT : Z := 92.
Definition ENOBUFS : Z := 105.
Definition EISCONN : Z := 106.
Definition EFSM : Z := 156384766.

(** ** Monad laws and tactics *)

Lemma bind_Ret {A B} (m : outcome A) (f : A -> outcome B) b :
  (m ≫= f) = Ret b <-> exists a, m = Ret a /\ f a = Ret b.
Proof.
  split.
  - destruct m as [a| | |]; cbn; intros H; try discriminate. by exists a.
  - by intros (a & -> & H).
Qed.

Lemma bind_of_Ret {A B} (a : A) (f : A -> outcome B) : (Ret a ≫= f) = f a.
Proof. reflexivity. Qed.

Lemma check_Ret b u : check b = Ret u <-> b = true.
Proof. destruct b, u; cbn; naive_solver. Qed.

Lemma deref_Ret {V} (m : gmap positive V) p v : deref m p = Ret v <-> m !! p = Some v.
Proof. unfold deref; destruct (m !! p); naive_solver. Qed.

Lemma deref_Some {V} (m : gmap positive V) p v : m !! p = Some v -> deref m p = Ret v.
Proof. apply deref_Ret. Qed.

Lemma nth_c_Some {A} (l : list A) (n : nat) a : l !! n = Some a -> nth_c l (Z.of_nat n) = Ret a.
Proof.
  intros Hl. unfold nth_c. rewrite (proj2 (Z.leb_le _ _)) by lia. by rewrite Nat2Z.id, Hl.
Qed.

Lemma nth_c_Z {A} (l : list A) (i : Z) a :
  0 <= i -> l !! Z.to_nat i = Some a -> nth_c l i = Ret a.
Proof. intros ? Hl. unfold nth_c. rewrite (proj2 (Z.leb_le _ _)) by lia. by rewrite Hl. Qed.

Lemma nth_c_Ret {A} (l : list A) (i : Z) a :
  nth_c l i = Ret a -> 0 <= i /\ l !! Z.to_nat i = Some a.
Proof.
  unfold nth_c. destruct (Z.leb_spec 0 i); [|done].
  destruct (_ !! _) eqn:E; [|done]. intros H'. injection H' as ->. auto.
Qed.

Lemma upd_c_ok {A} (l : list A) (i : Z) a :
  0 <= i < Z.of_nat (length l) -> upd_c l i a = Ret (<[Z.to_nat i := a]> l).
Proof.
  intros. unfold upd_c.
  by rewrite (proj2 (Z.leb_le _ _)), (proj2 (Z.ltb_lt _ _)) by lia.
Qed.

Lemma upd_c_nat {A} (l : list A) (i : nat) a :
  (i < length l)%nat -> upd_c l (Z.of_nat i) a = Ret (<[i := a]> l).
Proof. intros. rewrite upd_c_ok by lia. by rewrite Nat2Z.id. Qed.

Lemma u32_small z : 0 <= z < 2 ^ 32 -> u32 z = z.
Proof. apply Z.mod_small. Qed.

Lemma u32_range z : 0 <= u32 z < 2 ^ 32.
Proof. apply Z.mod_pos_bound. lia. Qed.

Lemma u64_small z : 0 <= z < 2 ^ 64 -> u64 z = z.
Proof. apply Z.mod_small. Qed.

Lemma u8_small z : 0 <= z < 256 -> u8 z = z.
Proof. apply Z.mod_small. Qed.

Lemma u8_range z : is_byte (u8 z).
Proof. apply Z.mod_pos_bound. lia. Qed.

Create HintDb nn discriminated.
Create Rewrite HintDb nn.
#[export] Hint Resolve deref_Some nth_c_Some u8_range u32_range : nn.
#[export] Hint Rewrite @bind_of_Ret : nn.

(** [inv_ret] takes a hypothesis [m ≫= f = Ret b] apart, step by step. *)
Ltac inv_ret :=
  repeat match goal with
  | H : (_ ≫= _) = Ret _ |- _ => apply bind_Ret in H as (? & ? & ?)
  | H : check _ = Ret _ |- _ => apply check_Ret in H
  | H : deref _ _ = Ret _ |- _ => apply deref_Ret in H
  | H : mret _ = Ret _ |- _ => injection H as H; try subst
  | H : Ret _ = Ret _ |- _ => injection H as H; try subst
  | H : Abort = Ret _ |- _ => discriminate H
  | H : Undef = Ret _ |- _ => discriminate H
  | H : NoFuel = Ret _ |- _ => discriminate H
  end.

(** [load H] runs the memory access that [H : m !! p = Some v] describes. *)
Ltac load H := rewrite (deref_Some _ _ _ H); cbn [mbind outcome_bind].

(** [run_nth] runs the array reads at constant indices of a concrete prefix. *)
Ltac run_nth :=
  repeat (erewrite nth_c_Z; [|lia|reflexivity]; cbn [mbind outcome_bind]).

(** Every goal of the form [b1 && b2 = true]. *)
Ltac bsolve :=
  repeat match goal with
  | |- (_ && _)%bool = true => apply andb_true_intro; split
  | |- bool_decide _ = true => apply bool_decide_eq_true; trivial
  end.

(** ** Lists *)

(** First and last element of a non-empty segment, or the given default. *)
Definition hd_or {A} (d : A) (l : list A) : A :=
  match l with [] => d | x :: _ => x end.

Fixpoint last_or {A} (d : A) (l : list A) : A :=
  match l with [] => d | x :: l' => last_or x l' end.

Lemma hd_or_app {A} (d : A) l1 l2 : hd_or d (l1 ++ l2) = hd_or (hd_or d l2) l1.
Proof. by destruct l1. Qed.

Lemma last_or_app {A} (d : A) l1 l2 : last_or d (l1 ++ l2) = last_or (last_or d l1) l2.
Proof. revert d; induction l1; cbn; auto. Qed.

#[export] Hint Rewrite @hd_or_app @last_or_app : nn.

Lemma delete_insert_list {A} (l : list A) i x : delete i (<[i := x]> l) = delete i l.
Proof.
  revert i; induction l as [|y l IH]; intros [|i]; [done..|].
  change (y :: delete i (<[i := x]> l) = y :: delete i l). by rewrite IH.
Qed.

(** An element occurs only once in a list without duplicates. *)
Lemma NoDup_split_eq {A} (b f l r : list A) x :
  NoDup (b ++ x :: f) -> b ++ x :: f = l ++ x :: r -> b = l /\ f = r.
Proof.
  revert l; induction b as [|y b IH]; intros [|z l] Hnd Heq; cbn in *.
  - by injection Heq as ->.
  - injection Heq as <- ->. apply NoDup_cons in Hnd as [Hx _]. destruct Hx.
    apply elem_of_app. right. by left.
  - injection Heq as <- <-. apply NoDup_cons in Hnd as [Hx _]. destruct Hx.
    apply elem_of_app. right. by left.
  - injection Heq as <- Heq. apply NoDup_cons in Hnd as [_ Hnd].
    destruct (IH l Hnd Heq) as [-> ->]. done.
Qed.
