(* ===== verification/Wire.v ===== *)
(** * Wire: big-endian integers in byte buffers (src/utils/wire.c)

    [nn_gets], [nn_getl], [nn_getll] read an integer of 16, 32, 64 bits from
    the front of a byte buffer and [nn_puts], [nn_putl], [nn_putll] overwrite
    the front of one.  A buffer that is too short is read or written out of
    bounds, which is [Undef].  The theorems: what is put is what is got, what
    is got is in range and put back gives the same bytes, and a put changes
    nothing behind the bytes it owns. *)

From stdpp Require Import base list.
From Stdlib Require Import ZArith Lia.
From S2P Require Import Prelude.

Open Scope Z_scope.

(** ** Readers *)

Definition nn_gets (buf : list Z) : outcome Z :=
  b0 ← nth_c buf 0; b1 ← nth_c buf 1;
  Ret (Z.lor (Z.shiftl b0 8) b1).

Definition nn_getl (buf : list Z) : outcome Z :=
  b0 ← nth_c buf 0; b1 ← nth_c buf 1; b2 ← nth_c buf 2; b3 ← nth_c buf 3;
  Ret (Z.lor (Z.lor (Z.lor (Z.shiftl b0 24) (Z.shiftl b1 16))
         (Z.shiftl b2 8)) b3).

Definition nn_getll (buf : list Z) : outcome Z :=
  b0 ← nth_c buf 0; b1 ← nth_c buf 1; b2 ← nth_c buf 2; b3 ← nth_c buf 3;
  b4 ← nth_c buf 4; b5 ← nth_c buf 5; b6 ← nth_c buf 6; b7 ← nth_c buf 7;
  Ret (Z.lor (Z.lor (Z.lor (Z.lor (Z.lor (Z.lor (Z.lor
         (Z.shiftl b0 56) (Z.shiftl b1 48)) (Z.shiftl b2 40))
         (Z.shiftl b3 32)) (Z.shiftl b4 24)) (Z.shiftl b5 16))
         (Z.shiftl b6 8)) b7).

(** ** Writers: the buffer after the call *)

Definition nn_puts (buf : list Z) (val : Z) : outcome (list Z) :=
  buf ← upd_c buf 0 (u8 (Z.land (Z.shiftr val 8) 255));
  upd_c buf 1 (u8 (Z.land val 255)).

Definition nn_putl (buf : list Z) (val : Z) : outcome (list Z) :=
  buf ← upd_c buf 0 (u8 (Z.land (Z.shiftr val 24) 255));
  buf ← upd_c buf 1 (u8 (Z.land (Z.shiftr val 16) 255));
  buf ← upd_c buf 2 (u8 (Z.land (Z.shiftr val 8) 255));
  upd_c buf 3 (u8 (Z.land val 255)).

Definition nn_putll (buf : list Z) (val : Z) : outcome (list Z) :=
  buf ← upd_c buf 0 (u8 (Z.land (Z.shiftr val 56) 255));
  buf ← upd_c buf 1 (u8 (Z.land (Z.shiftr val 48) 255));
  buf ← upd_c buf 2 (u8 (Z.land (Z.shiftr val 40) 255));
  buf ← upd_c buf 3 (u8 (Z.land (Z.shiftr val 32) 255));
  buf ← upd_c buf 4 (u8 (Z.land (Z.shiftr val 24) 255));
  buf ← upd_c buf 5 (u8 (Z.land (Z.shiftr val 16) 255));
  buf ← upd_c buf 6 (u8 (Z.land (Z.shiftr val 8) 255));
  upd_c buf 7 (u8 (Z.land val 255)).

(** ** The common arithmetic: base-256 digits *)

(** Value of a big-endian digit string. *)
Fixpoint be (acc : Z) (ds : list Z) : Z :=
  match ds with [] => acc | d :: ds' => be (acc * 256 + d) ds' end.

Lemma digit v k : 0 <= k -> u8 (Z.land (Z.shiftr v k) 255) = (v / 2 ^ k) mod 256.
Proof.
  intros. change 255 with (Z.ones 8). rewrite Z.land_ones by lia.
  rewrite Z.shiftr_div_pow2 by lia. unfold u8. change (2 ^ 8) with 256.
  by rewrite Zmod_mod.
Qed.

Lemma digit0 v : u8 (Z.land v 255) = v mod 256.
Proof. rewrite <-(Z.shiftr_0_r v) at 1. rewrite digit by lia. by rewrite Z.div_1_r. Qed.

(** Disjoint bits are added. *)
Lemma lor_add a b k : 0 <= k -> 0 <= b < 2 ^ k -> Z.lor (Z.shiftl a k) b = a * 2 ^ k + b.
Proof.
  intros Hk Hb. rewrite Z.shiftl_mul_pow2 by lia.
  rewrite <-Z.add_lor_land. rewrite Z.land_comm.
  replace (Z.land b (a * 2 ^ k)) with 0; [lia|].
  apply Z.bits_inj'. intros n Hn. rewrite Z.land_spec, Z.bits_0.
  destruct (decide (n < k)).
  - rewrite (Z.mul_pow2_bits_low a k n) by lia. by rewrite andb_false_r.
  - replace (Z.testbit b n) with false; [done|]. symmetry.
    apply Z.testbit_false; [lia|].
    rewrite Z.div_small; [done|]. split; [lia|].
    apply Z.lt_le_trans with (2 ^ k); [lia|]. apply Z.pow_le_mono_r; lia.
Qed.

Lemma shiftl_shift a k j : 0 <= k -> 0 <= j -> Z.shiftl a (k + j) = Z.shiftl (Z.shiftl a k) j.
Proof. intros. by rewrite Z.shiftl_shiftl. Qed.

(** Two big-endian digits in one step of Horner's rule. *)
Lemma lor_digit a b m k :
  m = 8 + k -> 0 <= k -> is_byte b ->
  Z.lor (Z.shiftl a m) (Z.shiftl b k) = Z.shiftl (a * 256 + b) k.
Proof.
  intros -> Hk Hb. rewrite (shiftl_shift a 8 k) by lia.
  rewrite <-Z.shiftl_lor. f_equal. by rewrite lor_add by (unfold is_byte in Hb; lia).
Qed.

Lemma getl_be b0 b1 b2 b3 rest :
  bytes [b0; b1; b2; b3] ->
  nn_getl (b0 :: b1 :: b2 :: b3 :: rest) = Ret (be 0 [b0; b1; b2; b3]).
Proof.
  intros H. rewrite !Forall_cons in H. destruct H as (?&?&?&?&_).
  unfold nn_getl. run_nth.
  rewrite (lor_digit b0 b1 24 16), (lor_digit _ b2 16 8) by (auto; lia).
  rewrite lor_add by (unfold is_byte in *; lia). f_equal; cbn; lia.
Qed.

Lemma gets_be b0 b1 rest :
  bytes [b0; b1] -> nn_gets (b0 :: b1 :: rest) = Ret (be 0 [b0; b1]).
Proof.
  intros H. rewrite !Forall_cons in H. destruct H as (?&?&_).
  unfold nn_gets. run_nth.
  rewrite lor_add by (unfold is_byte in *; lia). f_equal; cbn; lia.
Qed.

Lemma getll_be b0 b1 b2 b3 b4 b5 b6 b7 rest :
  bytes [b0; b1; b2; b3; b4; b5; b6; b7] ->
  nn_getll (b0 :: b1 :: b2 :: b3 :: b4 :: b5 :: b6 :: b7 :: rest)
    = Ret (be 0 [b0; b1; b2; b3; b4; b5; b6; b7]).
Proof.
  intros H. rewrite !Forall_cons in H. destruct H as (?&?&?&?&?&?&?&?&_).
  unfold nn_getll. run_nth.
  rewrite (lor_digit b0 b1 56 48), (lor_digit _ b2 48 40), (lor_digit _ b3 40 32),
    (lor_digit _ b4 32 24), (lor_digit _ b5 24 16), (lor_digit _ b6 16 8) by (auto; lia).
  rewrite lor_add by (unfold is_byte in *; lia). f_equal; cbn; lia.
Qed.

(** The digits a writer stores. *)
Definition be_digits (n : nat) (v : Z) : list Z :=
  map (fun i => (v / 2 ^ (8 * Z.of_nat i)) mod 256) (rev (seq 0 n)).

Lemma be_digits_bytes n v : bytes (be_digits n v).
Proof.
  unfold be_digits. apply List.Forall_map, List.Forall_forall. intros. apply Z.mod_pos_bound. lia.
Qed.

Lemma puts_digits b0 b1 rest v :
  nn_puts (b0 :: b1 :: rest) v = Ret (be_digits 2 v ++ rest).
Proof.
  unfold nn_puts. rewrite upd_c_ok by (rewrite ?length_insert; cbn; lia). cbn [mbind outcome_bind].
  rewrite upd_c_ok by (rewrite ?length_insert; cbn; lia). rewrite digit, digit0 by lia.
  unfold be_digits. cbn -[Z.div Z.modulo Z.pow]. by rewrite Z.div_1_r.
Qed.

Lemma putl_digits b0 b1 b2 b3 rest v :
  nn_putl (b0 :: b1 :: b2 :: b3 :: rest) v = Ret (be_digits 4 v ++ rest).
Proof.
  unfold nn_putl.
  do 3 (rewrite upd_c_ok by (rewrite ?length_insert; cbn; lia); cbn [mbind outcome_bind]).
  rewrite upd_c_ok by (rewrite ?length_insert; cbn; lia). rewrite !digit, digit0 by lia.
  unfold be_digits. cbn -[Z.div Z.modulo Z.pow]. by rewrite Z.div_1_r.
Qed.

Lemma putll_digits b0 b1 b2 b3 b4 b5 b6 b7 rest v :
  nn_putll (b0 :: b1 :: b2 :: b3 :: b4 :: b5 :: b6 :: b7 :: rest) v
    = Ret (be_digits 8 v ++ rest).
Proof.
  unfold nn_putll.
  do 7 (rewrite upd_c_ok by (rewrite ?length_insert; cbn; lia); cbn [mbind outcome_bind]).
  rewrite upd_c_ok by (rewrite ?length_insert; cbn; lia). rewrite !digit, digit0 by lia.
  unfold be_digits. cbn -[Z.div Z.modulo Z.pow]. by rewrite Z.div_1_r.
Qed.

Lemma be_app acc ds d : be acc (ds ++ [d]) = be acc ds * 256 + d.
Proof. revert acc; induction ds as [|x ds IH]; intros acc; cbn; auto. Qed.

Lemma be_digits_S n v : be_digits (S n) v = be_digits n (v / 256) ++ [v mod 256].
Proof.
  unfold be_digits. cbn [seq]. rewrite <-seq_shift. cbn [rev].
  rewrite <-map_rev, map_app, map_map. f_equal.
  - apply map_ext. intros i. f_equal. rewrite Z.div_div by lia.
    f_equal. rewrite <-(Z.pow_1_r 256) at 1. change 256 with (2 ^ 8).
    rewrite <-Z.pow_mul_r, <-Z.pow_add_r by lia. f_equal. lia.
  - cbn. by rewrite Z.div_1_r.
Qed.

Lemma be_of_digits n v : 0 <= v < 2 ^ (8 * Z.of_nat n) -> be 0 (be_digits n v) = v.
Proof.
  revert v; induction n as [|n IH]; intros v Hv; [cbn in *; lia|].
  rewrite be_digits_S, be_app, IH.
  - pose proof (Z.div_mod v 256). lia.
  - replace (8 * Z.of_nat (S n)) with (8 * Z.of_nat n + 8) in Hv by lia.
    rewrite Z.pow_add_r in Hv by lia. change (2 ^ 8) with 256 in Hv.
    split; [apply Z.div_pos; lia|]. apply Z.div_lt_upper_bound; lia.
Qed.

Lemma be_range ds acc n :
  bytes ds -> 0 <= acc < 2 ^ (8 * Z.of_nat n) ->
  0 <= be acc ds < 2 ^ (8 * Z.of_nat (n + length ds)).
Proof.
  revert acc n; induction ds as [|d ds IH]; intros acc n Hds Hacc; cbn [be length].
  - by rewrite Nat.add_0_r.
  - apply Forall_cons in Hds as [Hd Hds]. unfold is_byte in Hd.
    replace (n + S (length ds))%nat with (S n + length ds)%nat by lia.
    apply IH; [done|].
    replace (8 * Z.of_nat (S n)) with (8 * Z.of_nat n + 8) by lia.
    rewrite Z.pow_add_r by lia. change (2 ^ 8) with 256. lia.
Qed.

Lemma digits_of_be ds : bytes ds -> be_digits (length ds) (be 0 ds) = ds.
Proof.
  induction ds as [|d ds IH] using rev_ind; [done|].
  rewrite Forall_app, Forall_singleton. intros [Hds Hd]. unfold is_byte in Hd.
  rewrite length_app, Nat.add_comm. cbn [length Nat.add].
  rewrite be_digits_S, be_app, Z.div_add_l, (Z.div_small d) by lia.
  rewrite Z.add_0_r, IH by done.
  by rewrite Z.add_comm, Z.mod_add, Z.mod_small by lia.
Qed.

(** ** Round trips *)

(** The front of a long enough buffer, taken apart. *)
Lemma split_buf {A} (n : nat) (buf : list A) :
  (n <= length buf)%nat -> exists ds rest, buf = ds ++ rest /\ length ds = n.
Proof. intros. exists (take n buf), (drop n buf). split; [by rewrite take_drop|]. rewrite length_take. lia. Qed.

Ltac digits_of ds :=
  repeat (destruct ds as [|? ds]; [discriminate|]); destruct ds; [|discriminate].

(** [nn_getl] of a big-endian string of four bytes. *)
Lemma getl_digits v rest :
  0 <= v < 2 ^ 32 -> nn_getl (be_digits 4 v ++ rest) = Ret v.
Proof.
  intros Hv. pose proof (be_digits_bytes 4 v) as Hb.
  rewrite <-(be_of_digits 4 v) at 2 by (change (8 * Z.of_nat 4) with 32; lia).
  by apply getl_be.
Qed.

(** A value written with [nn_puts], [nn_putl] or [nn_putll] is read back
    by the matching getter, and the bytes behind the two, four or eight that
    the writer owns are unchanged. *)
Theorem wire_put_get (buf : list Z) (s l ll : Z) :
  (8 <= length buf)%nat ->
  0 <= s < 2 ^ 16 -> 0 <= l < 2 ^ 32 -> 0 <= ll < 2 ^ 64 ->
  (exists b, nn_puts buf s = Ret b /\ nn_gets b = Ret s /\ drop 2 b = drop 2 buf) /\
  (exists b, nn_putl buf l = Ret b /\ nn_getl b = Ret l /\ drop 4 b = drop 4 buf) /\
  (exists b, nn_putll buf ll = Ret b /\ nn_getll b = Ret ll /\ drop 8 b = drop 8 buf).
Proof.
  intros Hlen Hs Hl Hll. destruct (split_buf 8 buf Hlen) as (ds & rest & -> & Hds).
  digits_of ds. cbn [app]. rewrite puts_digits, putl_digits, putll_digits.
  split_and!; (eexists; split; [reflexivity|]; split; [|reflexivity]).
  - rewrite <-(be_of_digits 2 s) at 2 by (change (8 * Z.of_nat 2) with 16; lia). apply gets_be, (be_digits_bytes 2).
  - by apply getl_digits.
  - rewrite <-(be_of_digits 8 ll) at 2 by (change (8 * Z.of_nat 8) with 64; lia). apply getll_be, (be_digits_bytes 8).
Qed.

Lemma wire_put_get_witness :
  exists b, nn_putl [1; 2; 3; 4; 5; 6; 7; 8] 3735931646 = Ret b /\
    nn_getl b = Ret 3735931646 /\ drop 4 b = [5; 6; 7; 8].
Proof.
  destruct (wire_put_get [1; 2; 3; 4; 5; 6; 7; 8] 513 3735931646 1) as (_ & H & _).
  all: try (cbn; lia). exact H.
Defined.

(** Reading four or eight bytes gives a value in range, and writing that
    value back leaves the buffer as it was: the getters are injective on the
    bytes they read. *)
Theorem wire_get_put (buf : list Z) :
  bytes buf -> (8 <= length buf)%nat ->
  (exists v, nn_gets buf = Ret v /\ 0 <= v < 2 ^ 16 /\ nn_puts buf v = Ret buf) /\
  (exists v, nn_getl buf = Ret v /\ 0 <= v < 2 ^ 32 /\ nn_putl buf v = Ret buf) /\
  (exists v, nn_getll buf = Ret v /\ 0 <= v < 2 ^ 64 /\ nn_putll buf v = Ret buf).
Proof.
  intros Hb Hlen. destruct (split_buf 8 buf Hlen) as (ds & rest & -> & Hds).
  digits_of ds. apply Forall_app in Hb as [Hb _]. cbn [app].
  assert (H2 := Forall_take _ 2 _ Hb). assert (H4 := Forall_take _ 4 _ Hb).
  cbn [take] in H2, H4.
  split_and!; eexists.
  - rewrite gets_be, puts_digits by done. split; [done|].
    split; [exact (be_range _ 0 0 H2 ltac:(lia))|].
    exact (f_equal (fun d => Ret (d ++ _)) (digits_of_be _ H2)).
  - rewrite getl_be, putl_digits by done. split; [done|].
    split; [exact (be_range _ 0 0 H4 ltac:(lia))|].
    exact (f_equal (fun d => Ret (d ++ _)) (digits_of_be _ H4)).
  - rewrite getll_be, putll_digits by done. split; [done|].
    split; [exact (be_range _ 0 0 Hb ltac:(lia))|].
    exact (f_equal (fun d => Ret (d ++ _)) (digits_of_be _ Hb)).
Qed.

Lemma wire_get_put_witness :
  exists v, nn_getl [222; 173; 202; 254; 0; 0; 0; 0] = Ret v /\ 0 <= v < 2 ^ 32 /\
    nn_putl [222; 173; 202; 254; 0; 0; 0; 0] v = Ret [222; 173; 202; 254; 0; 0; 0; 0].
Proof.
  destruct (wire_get_put [222; 173; 202; 254; 0; 0; 0; 0]) as (_ & H & _).
  - repeat constructor; unfold is_byte; lia.
  - cbn; lia.
  - exact H.
Defined.
