(* ===== verification/ListHeap.v ===== *)
(** * ListHeap: the intrusive doubly-linked list (src/utils/list.c)

    List items live in a heap: a finite map from locations to [item] records
    with a [prev] and a [next] link.  A link is [Null], the C constant
    [NN_LIST_NOTINLIST] ([NotIn]) or the address of an item ([At p]).  Every
    function of list.c is a definition over that heap; following a wild link is
    [Undef] and a failed [nn_assert] is [Abort].

    [list_rep h L xs] says that in heap [h] the list header [L] represents the
    sequence [xs] of items.  The specification lemmas ([insert_spec],
    [erase_spec], ...) show that on represented lists the functions never
    abort, implement insertion and removal in a sequence, and touch no item
    outside the list; they are the interface the hash table, the priority
    lists and the timer set are verified against. *)

From stdpp Require Import base gmap list.
From Stdlib Require Import ZArith Lia.
From S2P Require Import Prelude.

Open Scope Z_scope.

(** ** Data *)

Abbreviation loc := positive.

Inductive link : Type := Null | NotIn | At (p : loc).

#[export] Instance link_eq_dec : EqDecision link.
Proof. intros x y; unfold Decision; decide equality; apply Pos.eq_dec. Defined.

Record item : Type := Item { prev : link; next : link }.
Record nn_list : Type := List { first : link; last : link }.

Abbreviation heap := (gmap positive item).

Definition is_null (l : link) : bool := match l with Null => true | _ => false end.

(** Updates through a pointer. *)
Definition set_next (h : heap) (l v : link) : outcome heap :=
  match l with
  | At p => i ← deref h p; Ret (<[p := Item (prev i) v]> h)
  | _ => Undef
  end.

Definition set_prev (h : heap) (l v : link) : outcome heap :=
  match l with
  | At p => i ← deref h p; Ret (<[p := Item v (next i)]> h)
  | _ => Undef
  end.

(** ** Operations *)

Definition nn_list_init : nn_list := List Null Null.

Definition nn_list_term (self : nn_list) : outcome unit :=
  _ ← check (is_null (first self));
  check (is_null (last self)).

Definition nn_list_empty (self : nn_list) : bool :=
  match first self with Null => true | _ => false end.

Definition nn_list_begin (self : nn_list) : link := first self.

Definition nn_list_end (self : nn_list) : link := Null.

Definition nn_list_prev (h : heap) (self : nn_list) (it : link) : outcome link :=
  match it with
  | Null => Ret (last self)
  | At p => i ← deref h p; _ ← check (bool_decide (prev i ≠ NotIn)); Ret (prev i)
  | NotIn => Undef
  end.

Definition nn_list_next (h : heap) (self : nn_list) (it : link) : outcome link :=
  match it with
  | At p => i ← deref h p; _ ← check (bool_decide (next i ≠ NotIn)); Ret (next i)
  | _ => Undef
  end.

Definition nn_list_item_init : item := Item NotIn NotIn.

Definition nn_list_item_isinlist (h : heap) (self : loc) : outcome bool :=
  i ← deref h self; Ret (bool_decide (prev i ≠ NotIn)).

Definition nn_list_item_term (h : heap) (self : loc) : outcome unit :=
  b ← nn_list_item_isinlist h self; check (negb b).

Definition nn_list_insert (h : heap) (self : nn_list) (x : loc) (it : link)
    : outcome (heap * nn_list) :=
  b ← nn_list_item_isinlist h x;
  _ ← check (negb b);
  pv ← match it with
       | Null => Ret (last self)
       | At p => i ← deref h p; Ret (prev i)
       | NotIn => Undef
       end;
  let h := <[x := Item pv it]> h in
  h ← (if is_null pv then Ret h else set_next h pv (At x));
  h ← (if is_null it then Ret h else set_prev h it (At x));
  let fst := if is_null (first self) || bool_decide (first self = it)
             then At x else first self in
  let lst := if is_null it then At x else last self in
  Ret (h, List fst lst).

Definition nn_list_erase (h : heap) (self : nn_list) (x : loc)
    : outcome (heap * nn_list * link) :=
  b ← nn_list_item_isinlist h x;
  _ ← check b;
  i ← deref h x;
  '(h, self) ← (if is_null (prev i)
                then Ret (h, List (next i) (last self))
                else h ← set_next h (prev i) (next i); Ret (h, self));
  i ← deref h x;
  '(h, self) ← (if is_null (next i)
                then Ret (h, List (first self) (prev i))
                else h ← set_prev h (next i) (prev i); Ret (h, self));
  i ← deref h x;
  Ret (<[x := Item NotIn NotIn]> h, self, next i).

(** ** Representation *)

(** Items [xs] chained between the links [p] (before) and [n] (after). *)
Fixpoint seg (h : heap) (p : link) (xs : list loc) (n : link) : Prop :=
  match xs with
  | [] => True
  | x :: xs' => h !! x = Some (Item p (hd_or n (At <$> xs'))) /\ seg h (At x) xs' n
  end.

Definition list_rep (h : heap) (L : nn_list) (xs : list loc) : Prop :=
  NoDup xs /\ seg h Null xs Null /\
  first L = hd_or Null (At <$> xs) /\ last L = last_or Null (At <$> xs).

(** The two heaps agree on a set of items. *)
Definition agree (xs : list loc) (h h' : heap) : Prop :=
  forall y, y ∈ xs -> h' !! y = h !! y.

(** The two heaps agree outside a set of items. *)
Definition frame (xs : list loc) (h h' : heap) : Prop :=
  forall y, y ∉ xs -> h' !! y = h !! y.

Definition detached (h : heap) (x : loc) : Prop := h !! x = Some nn_list_item_init.

Lemma seg_app h p xs ys n :
  seg h p (xs ++ ys) n <->
  seg h p xs (hd_or n (At <$> ys)) /\ seg h (last_or p (At <$> xs)) ys n.
Proof.
  revert p; induction xs as [|x xs IH]; intros p; cbn; [tauto|].
  rewrite IH, fmap_app, hd_or_app. tauto.
Qed.

Lemma seg_agree h h' p xs n : agree xs h h' -> seg h p xs n -> seg h' p xs n.
Proof.
  revert p; induction xs as [|x xs IH]; intros p Ha; cbn; [done|].
  intros [Hx Hs]. split; [rewrite Ha; [done|set_solver]|].
  apply IH; [|done]. intros y Hy. apply Ha. set_solver.
Qed.

Lemma frame_agree xs ys h h' : frame xs h h' -> xs ## ys -> agree ys h h'.
Proof. intros Hf Hd y Hy. apply Hf. set_solver. Qed.

Lemma frame_weaken xs ys h h' : frame xs h h' -> xs ⊆ ys -> frame ys h h'.
Proof. intros Hf Hd y Hy. apply Hf. set_solver. Qed.

Lemma frame_trans xs h1 h2 h3 : frame xs h1 h2 -> frame xs h2 h3 -> frame xs h1 h3.
Proof. intros H1 H2 y Hy. rewrite H2, H1; done. Qed.

Lemma list_rep_agree h h' L xs : agree xs h h' -> list_rep h L xs -> list_rep h' L xs.
Proof. intros Ha (?&?&?&?). split_and!; eauto using seg_agree. Qed.

Lemma list_rep_nil h L : list_rep h L [] <-> L = nn_list_init.
Proof.
  unfold list_rep, nn_list_init; destruct L as [f l]; cbn. split.
  - intros (_&_&->&->); done.
  - intros [= -> ->]. split_and!; auto using NoDup_nil_2.
Qed.

(** An item of the list is linked. *)
Lemma seg_lookup h p l x r n :
  seg h p (l ++ x :: r) n ->
  h !! x = Some (Item (last_or p (At <$> l)) (hd_or n (At <$> r))).
Proof. rewrite seg_app. cbn. tauto. Qed.

Lemma last_or_not_NotIn p xs : p ≠ NotIn -> last_or p (At <$> xs) ≠ NotIn.
Proof. revert p; induction xs as [|x xs IH]; intros p Hp; cbn; auto. Qed.

Lemma hd_or_not_NotIn n xs : n ≠ NotIn -> hd_or n (At <$> xs) ≠ NotIn.
Proof. by destruct xs. Qed.

Lemma list_rep_lookup h L xs x :
  list_rep h L xs -> x ∈ xs ->
  exists i, h !! x = Some i /\ prev i ≠ NotIn /\ next i ≠ NotIn.
Proof.
  intros (_&Hs&_) Hx. apply list_elem_of_split in Hx as (l & r & ->).
  rewrite (seg_lookup _ _ _ _ _ _ Hs). eexists; split; [done|]. cbn.
  split; [by apply last_or_not_NotIn | by apply hd_or_not_NotIn].
Qed.

Lemma list_rep_size h L xs : list_rep h L xs -> (length xs <= size h)%nat.
Proof.
  intros Hl. destruct (Hl) as (Hnd & _).
  rewrite <-(size_list_to_set (C := gset positive)) by done. rewrite <-size_dom. apply subseteq_size.
  intros x Hx%elem_of_list_to_set. destruct (list_rep_lookup _ _ _ _ Hl Hx) as (i & Hi & _).
  apply elem_of_dom. by exists i.
Qed.

Lemma isinlist_in h L xs x :
  list_rep h L xs -> x ∈ xs -> nn_list_item_isinlist h x = Ret true.
Proof.
  intros Hl Hx. destruct (list_rep_lookup _ _ _ _ Hl Hx) as (i & Hi & Hp & _).
  unfold nn_list_item_isinlist. load Hi. by rewrite bool_decide_eq_true_2.
Qed.

Lemma isinlist_detached h x : detached h x -> nn_list_item_isinlist h x = Ret false.
Proof. intros Hd. unfold nn_list_item_isinlist. by load Hd. Qed.

Lemma detached_not_in h L xs x : list_rep h L xs -> detached h x -> x ∉ xs.
Proof.
  intros Hl Hd Hx. destruct (list_rep_lookup _ _ _ _ Hl Hx) as (i & Hi & Hp & _).
  rewrite Hd in Hi. by injection Hi as <-.
Qed.

Lemma item_term_ok h x : detached h x -> nn_list_item_term h x = Ret tt.
Proof. intros Hd. unfold nn_list_item_term. by rewrite (isinlist_detached _ _ Hd). Qed.

(** ** Reading a represented list *)

Lemma empty_spec h L xs : list_rep h L xs -> nn_list_empty L = bool_decide (xs = []).
Proof.
  intros (_&_&Hf&_). unfold nn_list_empty. rewrite Hf.
  by destruct xs.
Qed.

Lemma begin_spec h L xs : list_rep h L xs -> nn_list_begin L = hd_or Null (At <$> xs).
Proof. by intros (_&_&Hf&_). Qed.

Lemma next_spec h L l x r :
  list_rep h L (l ++ x :: r) -> nn_list_next h L (At x) = Ret (hd_or Null (At <$> r)).
Proof.
  intros (_&Hs&_). pose proof (seg_lookup _ _ _ _ _ _ Hs) as Hx.
  unfold nn_list_next. load Hx. cbn [next].
  rewrite bool_decide_eq_true_2 by by apply hd_or_not_NotIn. done.
Qed.

Lemma prev_spec h L l x r :
  list_rep h L (l ++ x :: r) -> nn_list_prev h L (At x) = Ret (last_or Null (At <$> l)).
Proof.
  intros (_&Hs&_). pose proof (seg_lookup _ _ _ _ _ _ Hs) as Hx.
  unfold nn_list_prev. load Hx. cbn [prev].
  rewrite bool_decide_eq_true_2 by by apply last_or_not_NotIn. done.
Qed.

Lemma term_spec h L xs : list_rep h L xs -> nn_list_term L = Ret tt <-> xs = [].
Proof.
  intros (_&_&Hf&Hl). unfold nn_list_term, is_null. rewrite Hf, Hl. split; [|by intros ->].
  destruct xs; [done|]. cbn. discriminate.
Qed.

(** ** Relinking one end of a segment *)

Lemma seg_relink_next h p xs n n' h' :
  seg h p xs n -> NoDup xs ->
  (if is_null (last_or Null (At <$> xs)) then Ret h
   else set_next h (last_or Null (At <$> xs)) n') = Ret h' ->
  seg h' p xs n' /\ frame xs h h'.
Proof.
  destruct xs as [|y l _] using rev_ind; [cbn; intros _ _ [= <-]; done|].
  rewrite fmap_app, last_or_app. cbn [fmap list_fmap last_or is_null].
  cbn [is_null set_next].
  rewrite NoDup_app. intros Hs (_ & Hyl & _) Hset.
  assert (Hy := seg_lookup _ _ _ _ _ _ Hs). revert Hset. load Hy. intros [= <-].
  apply seg_app in Hs as [Hl _]. split.
  - apply seg_app. cbn. split_and!; [|by rewrite lookup_insert_eq|done].
    apply (seg_agree h); [|done]. intros z Hz. rewrite lookup_insert_ne; [done|].
    intros <-. apply (Hyl _ Hz). set_solver.
  - intros z Hz. rewrite lookup_insert_ne; [done|]. set_solver.
Qed.

Lemma seg_relink_prev h p p' xs n h' :
  seg h p xs n -> NoDup xs ->
  (if is_null (hd_or Null (At <$> xs)) then Ret h
   else set_prev h (hd_or Null (At <$> xs)) p') = Ret h' ->
  seg h' p' xs n /\ frame xs h h'.
Proof.
  destruct xs as [|y r]; [cbn; intros _ _ [= <-]; done|].
  cbn [fmap list_fmap hd_or is_null set_prev seg].
  intros [Hy Hr] [Hyr _]%NoDup_cons Hset. revert Hset. load Hy. intros [= <-]. split.
  - split; [by rewrite lookup_insert_eq|].
    apply (seg_agree h); [|done]. intros z Hz. rewrite lookup_insert_ne; set_solver.
  - intros z Hz. rewrite lookup_insert_ne; [done|]. set_solver.
Qed.

Lemma relink_next_ok h p xs n n' :
  seg h p xs n -> exists h',
  (if is_null (last_or Null (At <$> xs)) then Ret h
   else set_next h (last_or Null (At <$> xs)) n') = Ret h'.
Proof.
  destruct xs as [|y l _] using rev_ind; [cbn; eauto|].
  intros Hs. assert (Hy := seg_lookup _ _ _ _ _ _ Hs).
  rewrite fmap_app, last_or_app. cbn [fmap list_fmap last_or].
  cbn [is_null set_next]. load Hy. eauto.
Qed.

Lemma relink_prev_ok h p xs n p' :
  seg h p xs n -> exists h',
  (if is_null (hd_or Null (At <$> xs)) then Ret h
   else set_prev h (hd_or Null (At <$> xs)) p') = Ret h'.
Proof.
  destruct xs as [|y r]; [cbn; eauto|]. cbn. intros [Hy _].
  load Hy. eauto.
Qed.

(** ** Insertion and removal *)

Lemma insert_prev_ok h L l r :
  list_rep h L (l ++ r) ->
  match hd_or Null (At <$> r) with
  | Null => Ret (last L)
  | At p => i ← deref h p; Ret (prev i)
  | NotIn => Undef
  end = Ret (last_or Null (At <$> l)).
Proof.
  intros (_&Hs&_&Hl). destruct r as [|y r]; cbn.
  - by rewrite Hl, app_nil_r.
  - assert (Hy := seg_lookup _ _ _ _ _ _ Hs). by load Hy.
Qed.

Lemma insert_first L l x r :
  NoDup (l ++ r) -> first L = hd_or Null (At <$> (l ++ r)) ->
  (if is_null (first L) || bool_decide (first L = hd_or Null (At <$> r))
   then At x else first L) = hd_or Null (At <$> (l ++ x :: r)).
Proof.
  intros Hnd ->. destruct l as [|y l]; cbn.
  - rewrite bool_decide_eq_true_2 by done. by rewrite orb_true_r.
  - rewrite bool_decide_eq_false_2; [done|].
    destruct r as [|z r]; cbn; [done|]. intros [= ->].
    apply NoDup_cons in Hnd as [Hz _]. apply Hz. set_solver.
Qed.

Lemma insert_spec h L l r x :
  list_rep h L (l ++ r) -> detached h x ->
  exists h' L', nn_list_insert h L x (hd_or Null (At <$> r)) = Ret (h', L') /\
    list_rep h' L' (l ++ x :: r) /\ frame (x :: l ++ r) h h'.
Proof.
  intros Hrep Hx. pose proof (detached_not_in _ _ _ _ Hrep Hx) as Hxlr.
  unfold nn_list_insert. rewrite (isinlist_detached _ _ Hx). cbn [mbind outcome_bind negb check].
  rewrite (insert_prev_ok _ _ _ _ Hrep). cbn [mbind outcome_bind].
  destruct Hrep as (Hnd & Hs & Hf & Hl).
  apply seg_app in Hs as [Hsl Hsr]. pose proof Hnd as (Hndl & Hdis & Hndr)%NoDup_app.
  set (h1 := <[x:=_]> h).
  assert (Hag : forall ys, x ∉ ys -> agree ys h h1).
  { intros ys Hy z Hz. unfold h1. rewrite lookup_insert_ne; [done|]. by intros <-. }
  assert (Hsl1 := seg_agree _ _ _ _ _ (Hag l ltac:(set_solver)) Hsl).
  assert (Hsr1 := seg_agree _ _ _ _ _ (Hag r ltac:(set_solver)) Hsr).
  destruct (relink_next_ok _ _ _ _ (At x) Hsl1) as (h2 & E2). rewrite E2. cbn [mbind outcome_bind].
  destruct (seg_relink_next _ _ _ _ _ _ Hsl1 Hndl E2) as [Hsl2 Hf2].
  assert (Hsr2 : seg h2 (last_or Null (At <$> l)) r Null).
  { apply (seg_agree h1); [|done]. eapply frame_agree; [done|]. set_solver. }
  destruct (relink_prev_ok _ _ _ _ (At x) Hsr2) as (h3 & E3). rewrite E3. cbn [mbind outcome_bind].
  destruct (seg_relink_prev _ _ _ _ _ _ Hsr2 Hndr E3) as [Hsr3 Hf3].
  eexists _, _. split; [reflexivity|]. unfold list_rep. split_and!.
  - rewrite NoDup_app, NoDup_cons. set_solver.
  - apply seg_app. cbn [hd_or fmap list_fmap seg]. split_and!.
    + apply (seg_agree h2); [|done]. eapply frame_agree; [done|]. set_solver.
    + rewrite Hf3, Hf2 by set_solver. unfold h1. by rewrite lookup_insert_eq.
    + done.
  - by apply insert_first.
  - cbn [last]. rewrite fmap_app, last_or_app. rewrite fmap_app, last_or_app in Hl.
    destruct r; done.
  - intros y Hy. rewrite Hf3, Hf2 by set_solver. unfold h1.
    rewrite lookup_insert_ne; [done|]. set_solver.
Qed.

(** Insertion at [nn_list_end], the only position most callers use. *)
Lemma insert_end_spec h L xs x :
  list_rep h L xs -> detached h x ->
  exists h' L', nn_list_insert h L x (nn_list_end L) = Ret (h', L') /\
    list_rep h' L' (xs ++ [x]) /\ frame (x :: xs) h h'.
Proof.
  intros Hrep Hx. destruct (insert_spec h L xs [] x) as (h' & L' & E & Hr & Hf).
  - by rewrite app_nil_r.
  - done.
  - exists h', L'. rewrite app_nil_r in Hf. done.
Qed.

Lemma erase_spec h L l x r :
  list_rep h L (l ++ x :: r) ->
  exists h' L', nn_list_erase h L x = Ret (h', L', hd_or Null (At <$> r)) /\
    list_rep h' L' (l ++ r) /\ detached h' x /\ frame (x :: l ++ r) h h'.
Proof.
  intros Hrep. unfold nn_list_erase.
  rewrite (isinlist_in _ _ _ _ Hrep) by set_solver. cbn [mbind outcome_bind check].
  destruct Hrep as (Hnd & Hs & Hf & Hl).
  assert (Hx := seg_lookup _ _ _ _ _ _ Hs). load Hx. cbn [prev next].
  apply seg_app in Hs as [Hsl Hsr]. cbn in Hsr. destruct Hsr as [_ Hsr].
  apply NoDup_app in Hnd as (Hndl & Hdis & [Hxr Hndr]%NoDup_cons).
  assert (Hxl : x ∉ l) by (intros H; apply (Hdis x H); set_solver).
  assert (E : exists h2, (if is_null (last_or Null (At <$> l)) then Ret h
     else set_next h (last_or Null (At <$> l)) (hd_or Null (At <$> r))) = Ret h2)
    by eauto using relink_next_ok.
  destruct E as (h2 & E2). destruct (seg_relink_next _ _ _ _ _ _ Hsl Hndl E2) as [Hsl2 Hf2].
  assert (Hstep1 : (if is_null (last_or Null (At <$> l))
      then Ret (h, List (hd_or Null (At <$> r)) (last L))
      else h ← set_next h (last_or Null (At <$> l)) (hd_or Null (At <$> r)); Ret (h, L))
    = Ret (h2, List (hd_or Null (At <$> (l ++ r))) (last L))).
  { revert E2. destruct l as [|y l'] eqn:El using rev_ind; [cbn; by intros [= ->]|].
    rewrite fmap_app, last_or_app. cbn [fmap list_fmap last_or is_null].
    intros ->. cbn. destruct L as [f t]. cbn in Hf. rewrite Hf. by destruct l'. }
  rewrite Hstep1. cbn [mbind outcome_bind].
  assert (Hx2 : h2 !! x = h !! x) by by apply Hf2. rewrite Hx in Hx2.
  load Hx2. cbn [prev next].
  assert (Hsr2 : seg h2 (At x) r Null).
  { apply (seg_agree h); [|done]. eapply frame_agree; [done|]. set_solver. }
  destruct (relink_prev_ok _ _ _ _ (last_or Null (At <$> l)) Hsr2) as (h3 & E3).
  destruct (seg_relink_prev _ _ _ _ _ _ Hsr2 Hndr E3) as [Hsr3 Hf3].
  assert (Hstep2 : forall f, (if is_null (hd_or Null (At <$> r))
      then Ret (h2, List f (last_or Null (At <$> l)))
      else h ← set_prev h2 (hd_or Null (At <$> r)) (last_or Null (At <$> l));
           Ret (h, List f (last L)))
    = Ret (h3, List f (last_or Null (At <$> (l ++ r))))).
  { intros f. revert E3. destruct r as [|y r']; cbn [fmap list_fmap hd_or is_null].
    - intros [= ->]. by rewrite app_nil_r.
    - intros ->. cbn [mbind outcome_bind]. rewrite Hl.
      rewrite !fmap_app, !last_or_app. done. }
  cbn [first last]. rewrite Hstep2. cbn [mbind outcome_bind].
  assert (Hx3 : h3 !! x = h2 !! x) by by apply Hf3. rewrite Hx2 in Hx3.
  load Hx3. cbn [next]. eexists _, _. split; [reflexivity|].
  assert (Hag : agree (l ++ r) h3 (<[x:=Item NotIn NotIn]> h3)).
  { intros y Hy. rewrite lookup_insert_ne; set_solver. }
  unfold list_rep. split_and!.
  - rewrite NoDup_app. set_solver.
  - apply (seg_agree h3); [done|]. apply seg_app. split; [|done].
    apply (seg_agree h2); [|done]. eapply frame_agree; [done|]. set_solver.
  - done.
  - done.
  - apply lookup_insert_eq.
  - intros y Hy. rewrite lookup_insert_ne, Hf3, Hf2; set_solver.
Qed.

(** ** Refinement of sequences by the linked list

    The abstract machine keeps a sequence of items; an operation is legal when
    the item it inserts is in the pool and not in the sequence, and the item it
    erases, or inserts before, is in the sequence. *)

Inductive list_op : Type :=
| InsertBefore (x y : loc)
| InsertEnd (x : loc)
| Erase (x : loc).

Fixpoint insert_before (x y : loc) (xs : list loc) : list loc :=
  match xs with
  | [] => [x]
  | z :: xs' => if decide (z = y) then x :: z :: xs' else z :: insert_before x y xs'
  end.

Definition abs_op (xs : list loc) (op : list_op) : list loc :=
  match op with
  | InsertBefore x y => insert_before x y xs
  | InsertEnd x => xs ++ [x]
  | Erase x => filter (fun z => z ≠ x) xs
  end.

Definition legal (pool xs : list loc) (op : list_op) : Prop :=
  match op with
  | InsertBefore x y => (x ∈ pool) /\ (x ∉ xs) /\ (y ∈ xs)
  | InsertEnd x => (x ∈ pool) /\ (x ∉ xs)
  | Erase x => x ∈ xs
  end.

Definition run_op (s : heap * nn_list) (op : list_op) : outcome (heap * nn_list) :=
  let '(h, L) := s in
  match op with
  | InsertBefore x y => nn_list_insert h L x (At y)
  | InsertEnd x => nn_list_insert h L x (nn_list_end L)
  | Erase x => r ← nn_list_erase h L x; Ret (fst r)
  end.

Fixpoint run_ops (s : heap * nn_list) (ops : list list_op) : outcome (heap * nn_list) :=
  match ops with
  | [] => Ret s
  | op :: ops' => s' ← run_op s op; run_ops s' ops'
  end.

Fixpoint legals (pool xs : list loc) (ops : list list_op) : Prop :=
  match ops with
  | [] => True
  | op :: ops' => legal pool xs op /\ legals pool (abs_op xs op) ops'
  end.

(** The list holds [xs] and every other item of the pool is detached. *)
Definition pool_rep (pool : list loc) (h : heap) (L : nn_list) (xs : list loc) : Prop :=
  list_rep h L xs /\ forall x, x ∈ pool -> x ∉ xs -> detached h x.

Lemma insert_before_split x y l r :
  y ∉ l -> insert_before x y (l ++ y :: r) = l ++ x :: y :: r.
Proof.
  induction l as [|z l IH]; cbn; intros Hy; [by rewrite decide_True|].
  rewrite decide_False by set_solver. rewrite IH; set_solver.
Qed.

Lemma filter_ne_id (x : loc) (l : list loc) : x ∉ l -> filter (fun z => z ≠ x) l = l.
Proof.
  induction l as [|z l IH]; intros Hx; [done|].
  rewrite filter_cons_True by set_solver. rewrite IH; set_solver.
Qed.

Lemma filter_ne_split (x : loc) (l r : list loc) :
  NoDup (l ++ x :: r) -> filter (fun z => z ≠ x) (l ++ x :: r) = l ++ r.
Proof.
  intros (_ & Hd & [Hxr _]%NoDup_cons)%NoDup_app.
  rewrite filter_app, filter_cons_False by tauto.
  rewrite !filter_ne_id; [done..|done|]. intros Hx. apply (Hd x Hx). set_solver.
Qed.

Lemma op_refines pool h L xs op :
  pool_rep pool h L xs -> legal pool xs op ->
  exists h' L', run_op (h, L) op = Ret (h', L') /\ pool_rep pool h' L' (abs_op xs op).
Proof.
  intros [Hrep Hpool]. destruct op as [x y|x|x]; cbn.
  - intros (Hx & Hxs & Hy). apply list_elem_of_split in Hy as (l & r & ->).
    assert (Hyl : y ∉ l). { destruct Hrep as [(_ & Hd & _)%NoDup_app _]. set_solver. }
    destruct (insert_spec h L l (y :: r) x Hrep) as (h' & L' & E & Hr & Hf); [by apply Hpool|].
    exists h', L'. rewrite insert_before_split by done. split; [done|]. split; [done|].
    intros z Hz Hzn. unfold detached. rewrite Hf by set_solver. apply Hpool; set_solver.
  - intros (Hx & Hxs). destruct (insert_end_spec h L xs x Hrep) as (h' & L' & E & Hr & Hf);
      [by apply Hpool|].
    exists h', L'. split; [done|]. split; [done|].
    intros z Hz Hzn. unfold detached. rewrite Hf by set_solver. apply Hpool; set_solver.
  - intros (l & r & ->)%list_elem_of_split.
    rewrite filter_ne_split by by destruct Hrep.
    destruct (erase_spec h L l x r Hrep) as (h' & L' & E & Hr & Hd & Hf).
    exists h', L'. rewrite E. split; [done|]. split; [done|].
    intros z Hz Hzn. destruct (decide (z = x)) as [->|Hne]; [done|].
    unfold detached. rewrite Hf by set_solver. apply Hpool; set_solver.
Qed.

(** Started on an empty list and a pool of detached items, any sequence of
    legal insertions and removals runs without a failed assertion and without a
    wild access, leaves the linked list representing exactly the sequence the
    abstract machine computes (forward and backward links, [first], [last]),
    and leaves every item outside it detached. *)
Theorem list_refines_sequence (pool : list loc) (h : heap) (ops : list list_op) :
  (forall x, x ∈ pool -> detached h x) -> legals pool [] ops ->
  exists h' L', run_ops (h, nn_list_init) ops = Ret (h', L') /\
    pool_rep pool h' L' (fold_left abs_op ops []).
Proof.
  intros Hpool. assert (Hrep : pool_rep pool h nn_list_init []).
  { split; [by apply list_rep_nil|]. auto. }
  clear Hpool. revert Hrep. generalize nn_list_init as L, (@nil loc) as xs. revert h.
  induction ops as [|op ops IH]; intros h L xs Hrep Hlegal;
    cbn [run_ops fold_left legals] in *; [eauto|].
  destruct Hlegal as [Hop Hops].
  destruct (op_refines _ _ _ _ _ Hrep Hop) as (h' & L' & E & Hrep'). rewrite E. by apply IH.
Qed.

Lemma list_refines_sequence_witness :
  exists h' L', run_ops
      (<[1%positive := nn_list_item_init]> (<[2%positive := nn_list_item_init]> ∅), nn_list_init)
      [InsertEnd 1%positive; InsertBefore 2%positive 1%positive; Erase 1%positive] = Ret (h', L') /\
    pool_rep [1; 2]%positive h' L' [2%positive].
Proof.
  apply (list_refines_sequence [1; 2]%positive _
           [InsertEnd 1%positive; InsertBefore 2%positive 1%positive; Erase 1%positive]).
  - intros x Hx. unfold detached.
    apply elem_of_cons in Hx as [->|Hx]; [reflexivity|].
    apply list_elem_of_singleton in Hx as ->. reflexivity.
  - cbn. set_solver.
Defined.
