(* ===== verification/Queue.v ===== *)
(** * Queue: the intrusive FIFO queue (src/utils/queue.c)

    Queue items are [next] links in a heap; [NotIn] is the C constant
    [NN_QUEUE_NOTINQUEUE].  [queue_rep h q xs] says that the queue header [q]
    represents the sequence [xs].  [nn_queue_remove] is a loop over the queue;
    its fuel is one more than the number of items in the heap, which
    [remove_spec] shows is always enough. *)

From stdpp Require Import base gmap list.
From Stdlib Require Import ZArith Lia.
From S2P Require Import Prelude.
From S2P Require Import ListHeap.

(** ** Data and operations *)

Record nn_queue : Type := Queue { head : link; tail : link }.

Abbreviation qheap := (gmap positive link).

Definition nn_queue_init : nn_queue := Queue Null Null.

Definition nn_queue_term (self : nn_queue) : nn_queue := Queue Null Null.

Definition nn_queue_empty (self : nn_queue) : bool := is_null (head self).

Definition nn_queue_push (h : qheap) (self : nn_queue) (x : loc)
    : outcome (qheap * nn_queue) :=
  n ← deref h x;
  _ ← check (bool_decide (n = NotIn));
  let h := <[x := Null]> h in
  let hd := if is_null (head self) then At x else head self in
  h ← match tail self with
      | Null => Ret h
      | At t => _ ← deref h t; Ret (<[t := At x]> h)
      | NotIn => Undef
      end;
  Ret (h, Queue hd (At x)).

(** The loop of [nn_queue_remove], at position [it] with predecessor [prev]. *)
Fixpoint remove_loop (fuel : nat) (h : qheap) (self : nn_queue) (x : loc)
    (prev it : link) : outcome (qheap * nn_queue) :=
  match fuel with
  | O => NoFuel
  | S fuel =>
    match it with
    | Null => Ret (h, self)
    | NotIn => Undef
    | At i =>
      n ← deref h i;
      if decide (i = x) then
        let hd := if bool_decide (head self = it) then n else head self in
        let tl := if bool_decide (tail self = it) then prev else tail self in
        h ← match prev with
            | Null => Ret h
            | At p => _ ← deref h p; Ret (<[p := n]> h)
            | NotIn => Undef
            end;
        Ret (<[x := NotIn]> h, Queue hd tl)
      else remove_loop fuel h self x it n
    end
  end.

Definition nn_queue_remove (h : qheap) (self : nn_queue) (x : loc)
    : outcome (qheap * nn_queue) :=
  n ← deref h x;
  if decide (n = NotIn) then Ret (h, self)
  else remove_loop (S (size h)) h self x Null (head self).

Definition nn_queue_pop (h : qheap) (self : nn_queue)
    : outcome (qheap * nn_queue * link) :=
  match head self with
  | Null => Ret (h, self, Null)
  | NotIn => Undef
  | At r =>
    n ← deref h r;
    let tl := if is_null n then Null else tail self in
    Ret (<[r := NotIn]> h, Queue n tl, At r)
  end.

Definition nn_queue_item_init : link := NotIn.

Definition nn_queue_item_isinqueue (h : qheap) (self : loc) : outcome bool :=
  n ← deref h self; Ret (bool_decide (n ≠ NotIn)).

Definition nn_queue_item_term (h : qheap) (self : loc) : outcome unit :=
  n ← deref h self; check (bool_decide (n = NotIn)).

(** ** Representation *)

Fixpoint chain (h : qheap) (xs : list loc) : Prop :=
  match xs with
  | [] => True
  | x :: xs' => h !! x = Some (hd_or Null (At <$> xs')) /\ chain h xs'
  end.

Definition queue_rep (h : qheap) (q : nn_queue) (xs : list loc) : Prop :=
  NoDup xs /\ chain h xs /\
  head q = hd_or Null (At <$> xs) /\ tail q = last_or Null (At <$> xs).

Lemma chain_agree (h h' : qheap) xs :
  (forall y, y ∈ xs -> h' !! y = h !! y) -> chain h xs -> chain h' xs.
Proof.
  induction xs as [|x xs IH]; intros Ha; cbn; [done|]. intros [Hx Hs].
  split; [rewrite Ha; [done|set_solver]|]. apply IH; [|done]. intros. apply Ha. set_solver.
Qed.

Lemma chain_lookup h l x r : chain h (l ++ x :: r) -> h !! x = Some (hd_or Null (At <$> r)).
Proof. induction l as [|y l IH]; cbn; [tauto|]. intros [_ ?]. auto. Qed.

Lemma chain_tail h l r : chain h (l ++ r) -> chain h r.
Proof. induction l as [|y l IH]; cbn; [done|]. intros [_ ?]. auto. Qed.

Lemma chain_dom h xs : chain h xs -> forall y, y ∈ xs -> y ∈ dom h.
Proof.
  intros Hc y (l & r & ->)%list_elem_of_split. apply elem_of_dom.
  rewrite (chain_lookup _ _ _ _ Hc). eauto.
Qed.

Lemma chain_length h xs : NoDup xs -> chain h xs -> (length xs <= size h)%nat.
Proof.
  intros Hnd Hc. rewrite <-(size_list_to_set (C := gset positive)) by done.
  rewrite <-size_dom. apply subseteq_size. intros y Hy%elem_of_list_to_set.
  by apply (chain_dom _ _ Hc).
Qed.

(** Redirecting the last item of a prefix [l] to the head of [r']. *)
Lemma chain_relink h l p r r' :
  chain h ((l ++ [p]) ++ r) -> NoDup ((l ++ [p]) ++ r') -> chain h r' ->
  chain (<[p := hd_or Null (At <$> r')]> h) ((l ++ [p]) ++ r').
Proof.
  rewrite <-!app_assoc. cbn [app]. induction l as [|y l IH]; cbn [app chain].
  - intros _ [Hp _]%NoDup_cons Hr'. split; [apply lookup_insert_eq|].
    apply (chain_agree h); [|done]. intros y Hy. rewrite lookup_insert_ne; set_solver.
  - intros [Hy Hc] [Hyn Hnd]%NoDup_cons Hr'. split; [|by apply IH].
    rewrite lookup_insert_ne by set_solver. rewrite Hy. by destruct l.
Qed.

Lemma push_spec h q xs x :
  queue_rep h q xs -> h !! x = Some NotIn ->
  exists h' q', nn_queue_push h q x = Ret (h', q') /\ queue_rep h' q' (xs ++ [x]) /\
    forall y, y ∉ x :: xs -> h' !! y = h !! y.
Proof.
  intros (Hnd & Hc & Hh & Ht) Hx.
  assert (Hxs : x ∉ xs).
  { intros (l & r & ->)%list_elem_of_split. rewrite (chain_lookup _ _ _ _ Hc) in Hx.
    injection Hx. by apply hd_or_not_NotIn. }
  unfold nn_queue_push. load Hx. cbn [check mbind outcome_bind bool_decide].
  rewrite bool_decide_eq_true_2 by done. cbn [check mbind outcome_bind].
  assert (Hc1 : chain (<[x := Null]> h) xs).
  { apply (chain_agree h); [|done]. intros y Hy. rewrite lookup_insert_ne; set_solver. }
  rewrite Ht, Hh. destruct xs as [|t l _] using rev_ind; cbn.
  - eexists _, _. split; [reflexivity|]. split.
    + split_and!; cbn; auto using NoDup_singleton. split; [apply lookup_insert_eq|done].
    + intros y Hy. rewrite lookup_insert_ne; set_solver.
  - rewrite fmap_app, last_or_app. cbn [fmap list_fmap last_or].
    assert (Hl : <[x := Null]> h !! t = Some Null) by apply (chain_lookup _ _ _ _ Hc1).
    load Hl. eexists _, _. split; [reflexivity|]. split.
    + assert (Hnd' : NoDup ((l ++ [t]) ++ [x])).
      { apply NoDup_app. split_and!; [done|set_solver|apply NoDup_singleton]. }
      split_and!; [done| |by destruct l|cbn; by rewrite !fmap_app, !last_or_app].
      apply (chain_relink _ _ _ [] [x]); [by rewrite app_nil_r|done|].
      cbn. split; [apply lookup_insert_eq|done].
    + intros y Hy. rewrite !lookup_insert_ne; set_solver.
Qed.

Lemma pop_spec h q xs :
  queue_rep h q xs -> exists h' q', nn_queue_pop h q = Ret (h', q', hd_or Null (At <$> xs)) /\
    queue_rep h' q' (List.tl xs) /\
    (forall y, y ∉ xs -> h' !! y = h !! y) /\
    (forall x r, xs = x :: r -> h' !! x = Some NotIn).
Proof.
  intros (Hnd & Hc & Hh & Ht). unfold nn_queue_pop. rewrite Hh.
  destruct xs as [|x r]; cbn [hd_or fmap list_fmap List.tl].
  - eexists _, _. split; [reflexivity|]. split_and!; done.
  - cbn in Hc. destruct Hc as [Hx Hr]. load Hx. apply NoDup_cons in Hnd as [Hxr Hndr].
    eexists _, _. split; [reflexivity|]. split_and!.
    + split_and!; [done| |done|cbn; rewrite Ht; by destruct r].
      apply (chain_agree h); [|done]. intros y Hy. rewrite lookup_insert_ne; set_solver.
    + intros y Hy. rewrite lookup_insert_ne; set_solver.
    + intros ? ? [= <- <-]. apply lookup_insert_eq.
Qed.

(** The removal proper: position [x] found behind the prefix [l]. *)
Lemma remove_hit h q l x r :
  queue_rep h q (l ++ x :: r) ->
  let it := At x in
  let n := hd_or Null (At <$> r) in
  let pv := last_or Null (At <$> l) in
  let hd := if bool_decide (head q = it) then n else head q in
  let tl := if bool_decide (tail q = it) then pv else tail q in
  exists h', match pv with
             | Null => Ret h
             | At p => _ ← deref h p; Ret (<[p := n]> h)
             | NotIn => Undef
             end = Ret h' /\
    queue_rep (<[x := NotIn]> h') (Queue hd tl) (l ++ r) /\
    forall y, y ∉ l ++ x :: r -> h' !! y = h !! y.
Proof.
  intros (Hnd & Hc & Hh & Ht) it n pv hd tl.
  pose proof Hnd as (Hndl & Hdis & [Hxr Hndr]%NoDup_cons)%NoDup_app.
  assert (Hxl : x ∉ l) by (intros H; apply (Hdis x H); set_solver).
  assert (Hndlr : NoDup (l ++ r)) by (apply NoDup_app; set_solver).
  pose proof (chain_tail _ _ _ Hc) as Hcr. cbn in Hcr. destruct Hcr as [Hx Hcr].
  assert (Hhd : hd = hd_or Null (At <$> (l ++ r))).
  { unfold hd. rewrite Hh. destruct l as [|y l]; cbn.
    - by rewrite bool_decide_eq_true_2.
    - rewrite bool_decide_eq_false_2; [done|]. intros [= ->]. set_solver. }
  assert (Htl : tl = last_or Null (At <$> (l ++ r))).
  { unfold tl, pv. rewrite Ht. rewrite !fmap_app, !last_or_app. cbn.
    destruct r as [|z r _] using rev_ind; cbn; [by rewrite bool_decide_eq_true_2|].
    rewrite !fmap_app, !last_or_app. cbn. rewrite bool_decide_eq_false_2; [done|].
    intros [= ->]. set_solver. }
  assert (Hfin : forall h', chain h' (l ++ r) -> x ∉ l ++ r ->
    queue_rep (<[x := NotIn]> h') (Queue hd tl) (l ++ r)).
  { intros h' Hc' Hx'. split_and!; [done| |done..].
    apply (chain_agree h'); [|done]. intros y Hy. rewrite lookup_insert_ne; set_solver. }
  unfold pv. destruct l as [|p l _] using rev_ind.
  - cbn. exists h. split; [done|]. split; [apply Hfin; set_solver|done].
  - rewrite fmap_app, last_or_app. cbn [fmap list_fmap last_or].
    assert (Hp : h !! p = Some (hd_or Null (At <$> (x :: r)))).
    { rewrite <-app_assoc in Hc. apply (chain_lookup _ _ _ _ Hc). }
    load Hp. eexists. split; [reflexivity|]. split.
    + apply Hfin; [|set_solver]. by apply (chain_relink h l p (x :: r) r).
    + intros y Hy. rewrite lookup_insert_ne; set_solver.
Qed.

Lemma remove_loop_spec h q l r1 x r2 fuel :
  queue_rep h q (l ++ r1 ++ x :: r2) -> (length r1 < fuel)%nat ->
  exists h' q', remove_loop fuel h q x (last_or Null (At <$> l))
                  (hd_or Null (At <$> (r1 ++ x :: r2))) = Ret (h', q') /\
    queue_rep h' q' (l ++ r1 ++ r2) /\ h' !! x = Some NotIn /\
    forall y, y ∉ l ++ r1 ++ x :: r2 -> h' !! y = h !! y.
Proof.
  revert l fuel; induction r1 as [|y r1 IH]; intros l fuel Hq Hfuel;
    (destruct fuel as [|fuel]; [lia|]); cbn [app fmap list_fmap hd_or remove_loop].
  - pose proof Hq as (_ & Hc & _). pose proof (chain_lookup _ _ _ _ Hc) as Hx.
    load Hx. rewrite decide_True by done.
    destruct (remove_hit h q l x r2 Hq) as (h' & -> & Hrep & Hf). cbn [mbind outcome_bind].
    eexists _, _. split; [reflexivity|]. split_and!; [done|apply lookup_insert_eq|].
    intros y Hy. rewrite lookup_insert_ne by set_solver. apply Hf. set_solver.
  - pose proof Hq as (Hnd & Hc & _). pose proof (chain_lookup _ _ _ _ Hc) as Hy.
    load Hy. rewrite decide_False.
    + specialize (IH (l ++ [y]) fuel). rewrite fmap_app, last_or_app in IH.
      cbn [fmap list_fmap last_or] in IH. rewrite <-!app_assoc in IH. cbn [app] in IH.
      apply IH; [done|]. cbn in Hfuel. lia.
    + intros ->. cbn in Hnd. rewrite NoDup_app, NoDup_cons in Hnd. set_solver.
Qed.

Lemma remove_spec h q l x r :
  queue_rep h q (l ++ x :: r) ->
  exists h' q', nn_queue_remove h q x = Ret (h', q') /\ queue_rep h' q' (l ++ r) /\
    h' !! x = Some NotIn /\ forall y, y ∉ l ++ x :: r -> h' !! y = h !! y.
Proof.
  intros Hq. pose proof Hq as (Hnd & Hc & Hh & _).
  assert (Hx := chain_lookup _ _ _ _ Hc). unfold nn_queue_remove. load Hx.
  rewrite decide_False by by apply hd_or_not_NotIn.
  rewrite Hh. apply (remove_loop_spec h q [] l x r); [done|].
  pose proof (chain_length _ _ Hnd Hc) as Hlen. rewrite length_app in Hlen. cbn in Hlen. lia.
Qed.

(** ** Refinement of a FIFO by the linked queue *)

Inductive queue_op : Type := QPush (x : loc) | QPop | QRemove (x : loc).

(** The abstract FIFO; [QPop] delivers its oldest element. *)
Definition fifo_op (xs : list loc) (op : queue_op) : list loc * link :=
  match op with
  | QPush x => (xs ++ [x], Null)
  | QPop => (List.tl xs, hd_or Null (At <$> xs))
  | QRemove x => (filter (fun z => z ≠ x) xs, Null)
  end.

Definition run_qop (s : qheap * nn_queue) (op : queue_op)
    : outcome (qheap * nn_queue * link) :=
  let '(h, q) := s in
  match op with
  | QPush x => r ← nn_queue_push h q x; Ret (r, Null)
  | QPop => nn_queue_pop h q
  | QRemove x => r ← nn_queue_remove h q x; Ret (r, Null)
  end.

(** The items popped by a run, oldest first. *)
Fixpoint run_qops (s : qheap * nn_queue) (ops : list queue_op)
    : outcome (qheap * nn_queue * list link) :=
  match ops with
  | [] => Ret (s, [])
  | op :: ops' =>
    '(s, o) ← run_qop s op;
    '(s, os) ← run_qops s ops';
    Ret (s, o :: os)
  end.

Fixpoint fifo_ops (xs : list loc) (ops : list queue_op) : list loc * list link :=
  match ops with
  | [] => (xs, [])
  | op :: ops' =>
    let '(xs, o) := fifo_op xs op in
    let '(xs, os) := fifo_ops xs ops' in (xs, o :: os)
  end.

(** A push takes an item of the pool that is not queued; a removal any item of
    the pool, queued or not. *)
Definition qlegal (pool xs : list loc) (op : queue_op) : Prop :=
  match op with
  | QPush x => (x ∈ pool) /\ (x ∉ xs)
  | QPop => True
  | QRemove x => x ∈ pool
  end.

Fixpoint qlegals (pool xs : list loc) (ops : list queue_op) : Prop :=
  match ops with
  | [] => True
  | op :: ops' => qlegal pool xs op /\ qlegals pool (fst (fifo_op xs op)) ops'
  end.

Definition qpool_rep (pool : list loc) (h : qheap) (q : nn_queue) (xs : list loc) : Prop :=
  queue_rep h q xs /\ (forall x, x ∈ xs -> x ∈ pool) /\
  forall x, x ∈ pool -> x ∉ xs -> h !! x = Some NotIn.

Lemma qop_refines pool h q xs op :
  qpool_rep pool h q xs -> qlegal pool xs op ->
  exists h' q', run_qop (h, q) op = Ret (h', q', snd (fifo_op xs op)) /\
    qpool_rep pool h' q' (fst (fifo_op xs op)).
Proof.
  intros (Hrep & Hin & Hout). destruct op as [x| |x]; cbn.
  - intros (Hx & Hxs). destruct (push_spec h q xs x Hrep) as (h' & q' & E & Hr & Hf);
      [by apply Hout|].
    exists h', q'. rewrite E. split; [done|]. split_and!; [done|set_solver|].
    intros z Hz Hzn. rewrite Hf by set_solver. apply Hout; set_solver.
  - intros _. destruct (pop_spec h q xs Hrep) as (h' & q' & E & Hr & Hf & Hp).
    exists h', q'. split; [done|]. destruct xs as [|x r].
    + cbn in *. split_and!; [done|set_solver|]. intros z Hz _. rewrite Hf; set_solver.
    + cbn in *. split_and!; [done|set_solver|]. intros z Hz Hzn.
      destruct (decide (z = x)) as [->|Hne]; [by apply (Hp x r)|].
      rewrite Hf by set_solver. apply Hout; set_solver.
  - intros Hx. destruct (decide (x ∈ xs)) as [Hxs|Hxs].
    + apply list_elem_of_split in Hxs as (l & r & ->).
      rewrite filter_ne_split by by destruct Hrep.
      destruct (remove_spec h q l x r Hrep) as (h' & q' & E & Hr & Hd & Hf).
      exists h', q'. rewrite E. split; [done|]. split_and!; [done|set_solver|].
      intros z Hz Hzn. destruct (decide (z = x)) as [->|Hne]; [done|].
      rewrite Hf by set_solver. apply Hout; set_solver.
    + rewrite filter_ne_id by done. exists h, q. unfold nn_queue_remove.
      load (Hout x Hx Hxs). split; [done|]. by split_and!.
Qed.

(** Any sequence of pushes of unqueued items, pops and removals by address
    on an initially empty queue terminates normally (the loop of
    [nn_queue_remove] included), pops exactly the items a FIFO list pops, in
    the same order, and ends representing the FIFO's content. *)
Theorem queue_refines_fifo (pool : list loc) (h : qheap) (ops : list queue_op) :
  (forall x, x ∈ pool -> h !! x = Some NotIn) -> qlegals pool [] ops ->
  exists h' q', run_qops (h, nn_queue_init) ops = Ret (h', q', snd (fifo_ops [] ops)) /\
    qpool_rep pool h' q' (fst (fifo_ops [] ops)).
Proof.
  intros Hpool. assert (Hrep : qpool_rep pool h nn_queue_init []).
  { split_and!; [|set_solver|auto]. split_and!; cbn; auto using NoDup_nil_2. }
  clear Hpool. revert Hrep. generalize nn_queue_init as q, (@nil loc) as xs. revert h.
  induction ops as [|op ops IH]; intros h q xs Hrep Hlegal;
    cbn [run_qops fifo_ops qlegals] in *; [eauto|].
  destruct Hlegal as [Hop Hops].
  destruct (qop_refines _ _ _ _ _ Hrep Hop) as (h1 & q1 & -> & Hrep1). cbn [mbind outcome_bind].
  destruct (fifo_op xs op) as [xs1 o]. cbn [fst snd] in *.
  destruct (IH h1 q1 xs1 Hrep1 Hops) as (h2 & q2 & -> & Hrep2). cbn [mbind outcome_bind].
  destruct (fifo_ops xs1 ops) as [xs2 os]. eauto.
Qed.

Lemma queue_refines_fifo_witness :
  exists h' q', run_qops
      (<[1%positive := NotIn]> (<[2%positive := NotIn]> (<[3%positive := NotIn]> ∅)), nn_queue_init)
      [QPush 1%positive; QPush 2%positive; QPush 3%positive; QRemove 2%positive; QPop; QPop]
      = Ret (h', q', [Null; Null; Null; Null; At 1%positive; At 3%positive]) /\
    qpool_rep [1; 2; 3]%positive h' q' [].
Proof.
  apply (queue_refines_fifo [1; 2; 3]%positive _
    [QPush 1%positive; QPush 2%positive; QPush 3%positive; QRemove 2%positive; QPop; QPop]).
  - intros x Hx.
    repeat (apply elem_of_cons in Hx as [->|Hx]; [reflexivity|]). set_solver.
  - cbn. set_solver.
Defined.
