(* ===== verification/Trie.v ===== *)
(** * Trie: the subscription trie (src/protocols/pubsub/trie.c, trie.h)

    A SUB socket keeps its subscriptions in a patricia trie.  [node] is
    [struct nn_trie_node] with the pointer array behind it: the reference
    count, the prefix, and the children, either [Sparse] (an unordered array of
    characters) or [Dense] (a window [min..max] of characters with holes, [nbr]
    of them occupied).  A null child pointer is [None].  The C functions walk
    the trie with pointers into the child arrays; here they return the
    rewritten subtree.  Each call consumes at least one character per level, so
    the fuel [S (length data)] used by the entry points always suffices.

    Memory allocation is taken to succeed. *)

From stdpp Require Import base list sets.
From Stdlib Require Import ZArith Lia.
From S2P Require Import Prelude.

Open Scope Z_scope.

(** ** Data *)

Definition NN_TRIE_PREFIX_MAX : nat := 10.
Definition NN_TRIE_SPARSE_MAX : nat := 8.

(** The [type] field and the union [u] of a node. *)
Inductive kind : Type :=
| Sparse (children : list Z)
| Dense (min max nbr : Z).

Inductive node : Type :=
  Node (refcount : Z) (prefix : list Z) (u : kind) (ptrs : list (option node)).

Definition refcount (n : node) : Z := let 'Node r _ _ _ := n in r.
Definition prefix (n : node) : list Z := let 'Node _ p _ _ := n in p.
Definition node_kind (n : node) : kind := let 'Node _ _ k _ := n in k.
Definition ptrs (n : node) : list (option node) := let 'Node _ _ _ cs := n in cs.

(** A trie is its root pointer. *)
Abbreviation nn_trie := (option node).

Definition nn_trie_init : nn_trie := None.

(** ** Node helpers *)

(** Number of characters of [data] that match the prefix. *)
Fixpoint nn_node_check_prefix (prefix data : list Z) : nat :=
  match prefix, data with
  | p :: prefix', d :: data' =>
      if decide (p = d) then S (nn_node_check_prefix prefix' data') else O
  | _, _ => O
  end.

(** Index of the child for character [c]; [None] is the null pointer. *)
Fixpoint index_of (c : Z) (l : list Z) : option nat :=
  match l with
  | [] => None
  | x :: l' => if decide (x = c) then Some O else S <$> index_of c l'
  end.

Definition nn_node_next (n : node) (c : Z) : option nat :=
  match node_kind n with
  | Sparse l => index_of c l
  | Dense min max _ =>
      if (c <? min) || (c >? max) then None else Some (Z.to_nat (c - min))
  end.

(** [*nn_node_child (n, i)] and its assignment. *)
Definition nn_node_child (n : node) (i : nat) : outcome (option node) :=
  match ptrs n !! i with Some p => Ret p | None => Undef end.

Definition set_child (n : node) (i : nat) (p : option node) : node :=
  let 'Node r pf k cs := n in Node r pf k (<[i := p]> cs).

Definition nn_node_has_subscribers (n : node) : bool := negb (refcount n =? 0).

(** Merges a node that is no subscription with its only child. *)
Definition nn_node_compact (n : node) : outcome node :=
  if nn_node_has_subscribers n then Ret n else
  match node_kind n with
  | Sparse [c] =>
      ch ← nn_node_child n 0;
      match ch with
      | None => Undef
      | Some (Node r' pf' k' cs') =>
          if (NN_TRIE_PREFIX_MAX <? length (prefix n) + length pf' + 1)%nat
          then Ret n
          else Ret (Node r' (prefix n ++ c :: pf') k' cs')
      end
  | _ => Ret n
  end.

(** ** Subscribe *)

(** Step 5: count the subscription; 1 for a fresh one. *)
Definition nn_trie_subscribe_step5 (n : node) : node * Z :=
  let 'Node r pf k cs := n in
  let r := u32 (r + 1) in
  (Node r pf k cs, if r =? 1 then 1 else 0).

(** Step 4: a chain of new nodes for the rest of the subscription, its last
    node counted by step 5. *)
Fixpoint nn_trie_subscribe_step4 (fuel : nat) (data : list Z) : outcome (node * Z) :=
  match fuel with
  | O => NoFuel
  | S fuel =>
    match drop NN_TRIE_PREFIX_MAX data with
    | [] => Ret (nn_trie_subscribe_step5 (Node 0 data (Sparse []) []))
    | c :: rest =>
        '(ch, rc) ← nn_trie_subscribe_step4 fuel rest;
        Ret (Node 0 (take NN_TRIE_PREFIX_MAX data) (Sparse [c]) [Some ch], rc)
    end
  end.

(** The step-3 cases: append to a sparse array, ... *)
Definition append_sparse (n : node) (l : list Z) (c : Z) (ch : node) : node :=
  Node (refcount n) (prefix n) (Sparse (l ++ [c])) (ptrs n ++ [Some ch]).

(** ... widen the window of a dense array to [new_min..new_max], ... *)
Definition widen_dense (n : node) (min max nbr c : Z) : node :=
  let new_min := Z.min min c in
  let new_max := Z.max max c in
  let cs :=
    if negb (min =? new_min)
    then replicate (Z.to_nat (min - new_min)) None ++ ptrs n
    else ptrs n ++ replicate (Z.to_nat (new_max - max)) None in
  Node (refcount n) (prefix n) (Dense new_min new_max nbr) cs.

(** ... or convert a full sparse array into a dense one. *)
Definition fill_dense (new_min : Z) (l : list Z) (cs acc : list (option node))
    : list (option node) :=
  fold_left (fun acc cp => <[Z.to_nat (fst cp - new_min) := snd cp]> acc)
            (zip l cs) acc.

Definition sparse_to_dense (n : node) (l : list Z) (c : Z) : node :=
  let new_min := Z.min (foldr Z.min 255 l) c in
  let new_max := Z.max (foldr Z.max 0 l) c in
  Node 0 (prefix n) (Dense new_min new_max (Z.of_nat (length l) + 1))
    (fill_dense new_min l (ptrs n)
       (replicate (Z.to_nat (new_max - new_min + 1)) None)).

(** Step 4 for the child slot of [c], which must be a null pointer. *)
Definition plant (n : node) (c : Z) (rest : list Z) : outcome (node * Z) :=
  match nn_node_next n c with
  | None => Undef
  | Some i =>
      p ← nn_node_child n i;
      _ ← check (match p with None => true | Some _ => false end);
      '(ch, rc) ← nn_trie_subscribe_step4 (S (length rest)) rest;
      Ret (set_child n i (Some ch), rc)
  end.

Definition nn_trie_subscribe_step3 (n : node) (data : list Z) : outcome (node * Z) :=
  match data with
  | [] => Ret (nn_trie_subscribe_step5 n)
  | c :: rest =>
    match node_kind n with
    | Sparse l =>
        if (length l <? NN_TRIE_SPARSE_MAX)%nat then
          '(ch, rc) ← nn_trie_subscribe_step4 (S (length rest)) rest;
          Ret (append_sparse n l c ch, rc)
        else plant (sparse_to_dense n l c) c rest
    | Dense min max nbr =>
        plant (widen_dense n min max (nbr + 1) c) c rest
    end
  end.

(** Step 2: split the prefix at [pos]; [data] is what follows the common part. *)
Definition nn_trie_subscribe_step2 (n : node) (pos : nat) (data : list Z)
    : outcome (node * Z) :=
  let 'Node r pf k cs := n in
  match drop pos pf with
  | [] => Undef
  | c :: pf' =>
      ch ← nn_node_compact (Node r pf' k cs);
      nn_trie_subscribe_step3 (Node 0 (take pos pf) (Sparse [c]) [Some ch]) data
  end.

(** Step 1, the traversal; the result is the new content of the pointer. *)
Fixpoint nn_trie_subscribe_at (fuel : nat) (slot : option node) (data : list Z)
    : outcome (node * Z) :=
  match fuel with
  | O => NoFuel
  | S fuel =>
    match slot with
    | None => nn_trie_subscribe_step4 (S (length data)) data
    | Some n =>
      let pos := nn_node_check_prefix (prefix n) data in
      let data := drop pos data in
      if (pos <? length (prefix n))%nat then nn_trie_subscribe_step2 n pos data else
      match data with
      | [] => Ret (nn_trie_subscribe_step5 n)
      | c :: rest =>
        match nn_node_next n c with
        | None => nn_trie_subscribe_step3 n data
        | Some i =>
          p ← nn_node_child n i;
          match p with
          | None => nn_trie_subscribe_step3 n data
          | Some ch =>
              '(ch, rc) ← nn_trie_subscribe_at fuel (Some ch) rest;
              Ret (set_child n i (Some ch), rc)
          end
        end
      end
    end
  end.

Definition nn_trie_subscribe (self : nn_trie) (data : list Z) : outcome (nn_trie * Z) :=
  '(n, rc) ← nn_trie_subscribe_at (S (length data)) self data;
  Ret (Some n, rc).

(** ** Match

    The loop reads the character behind the current node even when no data is
    left; that read is out of the message's bounds, hence [Undef]. *)

Fixpoint nn_trie_match_at (fuel : nat) (slot : option node) (data : list Z) : outcome Z :=
  match fuel with
  | O => NoFuel
  | S fuel =>
    match slot with
    | None => Ret 0
    | Some n =>
      if negb (nn_node_check_prefix (prefix n) data =? length (prefix n))%nat then Ret 0 else
      let data := drop (length (prefix n)) data in
      if nn_node_has_subscribers n then Ret 1 else
      match data with
      | [] => Undef
      | c :: rest =>
        match nn_node_next n c with
        | None => nn_trie_match_at fuel None rest
        | Some i => p ← nn_node_child n i; nn_trie_match_at fuel p rest
        end
      end
    end
  end.

Definition nn_trie_match (self : nn_trie) (data : list Z) : outcome Z :=
  nn_trie_match_at (S (S (length data))) self data.

(** ** Unsubscribe *)

(** The [found] label: the end of the subscription is at this pointer. *)
Definition nn_node_unsubscribe_found (slot : option node) : outcome (option node * Z) :=
  match slot with
  | None => Ret (None, - EINVAL)
  | Some n =>
    if negb (nn_node_has_subscribers n) then Ret (Some n, - EINVAL) else
    let 'Node r pf k cs := n in
    let r := u32 (r - 1) in
    let n := Node r pf k cs in
    if r =? 0 then
      match k with
      | Sparse [] => Ret (None, 1)
      | _ => n ← nn_node_compact n; Ret (Some n, 1)
      end
    else Ret (Some n, 0)
  end.

(** Removal of child [index] of a sparse array. *)
Definition remove_sparse (n : node) (l : list Z) (index : nat) : outcome (option node * Z) :=
  let n := Node (refcount n) (prefix n) (Sparse (delete index l)) (delete index (ptrs n)) in
  match delete index l with
  | [] => if nn_node_has_subscribers n then n ← nn_node_compact n; Ret (Some n, 1)
          else Ret (None, 1)
  | _ => n ← nn_node_compact n; Ret (Some n, 1)
  end.

Definition is_hole (p : option node) : bool :=
  match p with None => true | Some _ => false end.

(** Number of null pointers at the front of an array. *)
Fixpoint leading_holes (cs : list (option node)) : nat :=
  match cs with
  | None :: cs' => S (leading_holes cs')
  | _ => O
  end.

(** The removed child was the leftmost, the rightmost, or in the middle. *)
Definition trim_dense (n : node) (min max nbr c : Z) : node :=
  let cs := ptrs n in
  if c =? min then
    let i := leading_holes cs in
    Node (refcount n) (prefix n) (Dense (u8 (min + Z.of_nat i)) max (u16 (nbr - 1))) (drop i cs)
  else if c =? max then
    let i := (length cs - 1 - leading_holes (rev (tail cs)))%nat in
    Node (refcount n) (prefix n) (Dense min (u8 (min + Z.of_nat i)) (u16 (nbr - 1))) (take (S i) cs)
  else Node (refcount n) (prefix n) (Dense min max (u16 (nbr - 1))) cs.

(** Occupied characters and children of a dense array, in order. *)
Fixpoint occupied (c : Z) (cs : list (option node)) : list (Z * node) :=
  match cs with
  | [] => []
  | Some ch :: cs' => (c, ch) :: occupied (c + 1) cs'
  | None :: cs' => occupied (c + 1) cs'
  end.

(** The new node has room for [NN_TRIE_SPARSE_MAX] children; more are written
    behind its end. *)
Definition dense_to_sparse (n : node) (min : Z) : outcome node :=
  let kids := occupied min (ptrs n) in
  if (NN_TRIE_SPARSE_MAX <? length kids)%nat then Undef else
  _ ← check (length kids =? NN_TRIE_SPARSE_MAX)%nat;
  Ret (Node 0 (prefix n) (Sparse (u8 <$> (fst <$> kids))) (Some <$> (snd <$> kids))).

(** What follows the recursive call when it emptied child [i] (character [c]). *)
Definition nn_node_unsubscribe_prune (n : node) (i : nat) (c : Z) : outcome (option node * Z) :=
  match node_kind n with
  | Sparse l => remove_sparse n l i
  | Dense min max nbr =>
      if nbr >? Z.of_nat NN_TRIE_SPARSE_MAX + 1
      then Ret (Some (trim_dense n min max nbr c), 1)
      else n ← dense_to_sparse n min; Ret (Some n, 1)
  end.

Fixpoint nn_node_unsubscribe (fuel : nat) (slot : option node) (data : list Z)
    : outcome (option node * Z) :=
  match fuel with
  | O => NoFuel
  | S fuel =>
    match data with
    | [] => nn_node_unsubscribe_found slot
    | _ =>
      match slot with
      | None => Undef
      | Some n =>
        if negb (nn_node_check_prefix (prefix n) data =? length (prefix n))%nat
        then Ret (slot, 0) else
        match drop (length (prefix n)) data with
        | [] => nn_node_unsubscribe_found slot
        | c :: rest =>
          match nn_node_next n c with
          | None => Ret (slot, 0)
          | Some i =>
            p ← nn_node_child n i;
            '(p, rc) ← nn_node_unsubscribe fuel p rest;
            let n := set_child n i p in
            if rc =? 0 then Ret (Some n, 0) else
            match p with
            | Some _ => Ret (Some n, 1)
            | None => nn_node_unsubscribe_prune n i c
            end
          end
        end
      end
    end
  end.

Definition nn_trie_unsubscribe (self : nn_trie) (data : list Z) : outcome (nn_trie * Z) :=
  nn_node_unsubscribe (S (length data)) self data.

(** ** Release: the nodes [nn_trie_term] frees, children first *)

Fixpoint nn_node_term (n : node) : list node :=
  let 'Node _ _ _ cs := n in
  concat (map (fun p => match p with Some ch => nn_node_term ch | None => [] end) cs) ++ [n].

Definition nn_trie_term (self : nn_trie) : list node :=
  match self with Some n => nn_node_term n | None => [] end.
