(* ===== verification/TrieSpec.v ===== *)
(** * TrieSpec: what the subscription trie promises

    [subs t s] is the number of subscriptions to the string [s] stored in trie
    [t], read off the structure by following characters; [wf] is the invariant
    of a node.  The theorems relate [nn_trie_subscribe], [nn_trie_unsubscribe]
    and [nn_trie_match] of Trie.v to this multiset of strings on every branch,
    including the two conversions that reset a node's reference count. *)

From stdpp Require Import base list sets.
From Stdlib Require Import ZArith Lia.
From S2P Require Import Prelude.
From S2P Require Import Trie.

Open Scope Z_scope.

(** ** The multiset of subscriptions *)

Definition child (n : node) (c : Z) : option node :=
  match nn_node_next n c with
  | Some i => match ptrs n !! i with Some p => p | None => None end
  | None => None
  end.

(** Subscriptions to [s] at node [n] when [pf] of its prefix is still ahead. *)
Fixpoint find (pf : list Z) (n : node) (s : list Z) {struct s} : Z :=
  match s with
  | [] => match pf with [] => refcount n | _ => 0 end
  | c :: s' =>
    match pf with
    | p :: pf' => if decide (p = c) then find pf' n s' else 0
    | [] => match child n c with Some ch => find (prefix ch) ch s' | None => 0 end
    end
  end.

Definition subs (t : option node) (s : list Z) : Z :=
  match t with Some n => find (prefix n) n s | None => 0 end.

(** ** Invariant *)

Definition occ (p : option node) : Z := if is_hole p then 0 else 1.

Definition occupancy (cs : list (option node)) : Z := foldr (fun p n => occ p + n) 0 cs.

Definition kind_ok (k : kind) (cs : list (option node)) : Prop :=
  match k with
  | Sparse l =>
      NoDup l /\ bytes l /\ (length l <= NN_TRIE_SPARSE_MAX)%nat /\
      length cs = length l /\ Forall (fun p => is_hole p = false) cs
  | Dense min max nbr =>
      is_byte min /\ is_byte max /\ min <= max /\
      Z.of_nat (length cs) = max - min + 1 /\
      nbr = occupancy cs /\ nbr > Z.of_nat NN_TRIE_SPARSE_MAX
  end.

(** A node without children is a subscription. *)
Definition alive (n : node) : Prop :=
  match node_kind n with Sparse [] => refcount n <> 0 | _ => True end.

Inductive wf : node -> Prop :=
  wf_node r pf k cs :
    0 <= r < 2 ^ 32 -> bytes pf -> (length pf <= NN_TRIE_PREFIX_MAX)%nat ->
    kind_ok k cs -> alive (Node r pf k cs) ->
    (forall i ch, cs !! i = Some (Some ch) -> wf ch) ->
    wf (Node r pf k cs).

Definition wf_slot (t : option node) : Prop := forall n, t = Some n -> wf n.

(** ** Strings and prefixes *)

(** What is left of [s] behind the prefix [pf]. *)
Fixpoint strip (pf s : list Z) : option (list Z) :=
  match pf, s with
  | [], _ => Some s
  | p :: pf', c :: s' => if decide (p = c) then strip pf' s' else None
  | _ :: _, [] => None
  end.

Lemma strip_Some pf s t : strip pf s = Some t <-> s = pf ++ t.
Proof.
  revert s; induction pf as [|p pf IH]; intros s; cbn.
  - split; [by intros [= ->]|by intros ->].
  - destruct s as [|c s]; [split; intros H; discriminate H|].
    case_decide as Hd; [subst|split; [intros H; discriminate H|intros [= ->]; done]].
    rewrite IH. split; [by intros ->|by intros [= ->]].
Qed.

Lemma strip_app pf t : strip pf (pf ++ t) = Some t.
Proof. by apply strip_Some. Qed.

Lemma find_strip pf n s :
  find pf n s = match strip pf s with Some t => find [] n t | None => 0 end.
Proof.
  revert pf; induction s as [|c s IH]; intros [|p pf]; [done..|].
  cbn [find strip]. case_decide; [apply IH|done].
Qed.

Lemma find_app p q n s :
  find (p ++ q) n s = match strip p s with Some t => find q n t | None => 0 end.
Proof.
  revert s; induction p as [|x p IH]; intros s; cbn [app strip]; [done|].
  destruct s as [|c s]; cbn [find]; [done|]. case_decide; [apply IH|done].
Qed.

Lemma find_nil n s :
  find [] n s = match s with
                | [] => refcount n
                | c :: s' => subs (child n c) s'
                end.
Proof. by destruct s. Qed.

(** The common part of a prefix and a string, and why it ends. *)
Lemma check_prefix_split pf s :
  exists p q r, pf = p ++ q /\ s = p ++ r /\
    nn_node_check_prefix pf s = length p /\
    match q, r with x :: _, y :: _ => x <> y | _, _ => True end.
Proof.
  revert s; induction pf as [|x pf IH]; intros s.
  - by exists [], [], s.
  - destruct s as [|y s]; [by exists [], (x :: pf), []|].
    cbn [nn_node_check_prefix]. case_decide as Hd.
    + subst. destruct (IH s) as (p & q & r & -> & -> & E & Hqr). exists (y :: p), q, r.
      cbn. rewrite E. done.
    + by exists [], (x :: pf), (y :: s).
Qed.

Lemma check_prefix_full pf s :
  nn_node_check_prefix pf s = length pf <-> exists t, s = pf ++ t.
Proof.
  destruct (check_prefix_split pf s) as (p & q & r & -> & -> & E & Hqr).
  rewrite E, length_app. split.
  - intros Hl. destruct q; cbn in Hl; [|lia]. exists r. by rewrite app_nil_r.
  - intros [t Ht]. rewrite <-app_assoc in Ht. apply app_inv_head in Ht. subst r.
    destruct q; cbn in *; [lia|congruence].
Qed.

(** ** Well-formed nodes *)

Lemma index_of_Some c l i : index_of c l = Some i -> l !! i = Some c.
Proof.
  revert i; induction l as [|x l IH]; intros i; cbn; [done|].
  case_decide as Hd; [intros [= <-]; by subst|].
  destruct (index_of c l) as [j|]; cbn; [|done]. intros [= <-]. by apply IH.
Qed.

Lemma index_of_None c l : index_of c l = None <-> c ∉ l.
Proof.
  induction l as [|x l IH]; cbn; [split; [intros _; apply not_elem_of_nil|done]|].
  case_decide as Hd; [subst; split; [done|intros H; destruct H; left]|].
  rewrite not_elem_of_cons, <-IH. destruct (index_of c l); cbn; naive_solver.
Qed.

Lemma index_of_lookup c l i : NoDup l -> l !! i = Some c -> index_of c l = Some i.
Proof.
  intros Hnd Hi. destruct (index_of c l) as [j|] eqn:E.
  - apply index_of_Some in E. f_equal. by eapply NoDup_lookup.
  - apply index_of_None in E. destruct E. by eapply list_elem_of_lookup_2.
Qed.

Lemma wf_inv r pf k cs : wf (Node r pf k cs) ->
  0 <= r < 2 ^ 32 /\ bytes pf /\ (length pf <= NN_TRIE_PREFIX_MAX)%nat /\
  kind_ok k cs /\ alive (Node r pf k cs) /\ (forall i ch, cs !! i = Some (Some ch) -> wf ch).
Proof. by inversion_clear 1. Qed.

Lemma wf_child n c ch : wf n -> child n c = Some ch -> wf ch.
Proof.
  destruct n as [r pf k cs]. intros (_&_&_&_&_&Hc)%wf_inv. unfold child. cbn [ptrs].
  destruct (nn_node_next _ _) as [i|]; [|done].
  destruct (cs !! i) as [p|] eqn:E; [|done]. intros ->. by eapply Hc.
Qed.

(** What array indexing needs of a node. *)
Definition shape (k : kind) (cs : list (option node)) : Prop :=
  match k with
  | Sparse l => NoDup l /\ length cs = length l
  | Dense min max _ => Z.of_nat (length cs) = max - min + 1
  end.

Lemma kind_ok_shape k cs : kind_ok k cs -> shape k cs.
Proof. destruct k; cbn; tauto. Qed.

Lemma wf_shape n : wf n -> shape (node_kind n) (ptrs n).
Proof. destruct n. intros (_&_&_&Hk&_&_)%wf_inv. by apply kind_ok_shape. Qed.

(** The pointer found by [nn_node_next] exists. *)
Lemma next_in_range n c i :
  shape (node_kind n) (ptrs n) -> nn_node_next n c = Some i -> (i < length (ptrs n))%nat.
Proof.
  unfold nn_node_next. destruct (node_kind n) as [l|min max nbr]; cbn.
  - intros [_ ->] Hi%index_of_Some%lookup_lt_Some. done.
  - intros Hlen. destruct ((c <? min) || (c >? max)) eqn:E; [done|].
    intros [= <-]. lia.
Qed.

Lemma child_next n c i p :
  nn_node_next n c = Some i -> ptrs n !! i = Some p -> child n c = p.
Proof. intros Hn Hp. unfold child. by rewrite Hn, Hp. Qed.

Lemma nn_node_child_ok n i p : ptrs n !! i = Some p -> nn_node_child n i = Ret p.
Proof. intros H. unfold nn_node_child. by rewrite H. Qed.

(** Different characters have different indices. *)
Lemma next_inj n c c' i :
  shape (node_kind n) (ptrs n) ->
  nn_node_next n c = Some i -> nn_node_next n c' = Some i -> c = c'.
Proof.
  unfold nn_node_next. destruct (node_kind n) as [l|min max nbr]; cbn.
  - intros _ Hi%index_of_Some Hj%index_of_Some. congruence.
  - intros Hlen. destruct ((c <? min) || (c >? max)) eqn:E; [done|].
    destruct ((c' <? min) || (c' >? max)) eqn:E'; [done|]. intros [= <-] [= Heq]. lia.
Qed.

Lemma child_set_child n c i p c' :
  shape (node_kind n) (ptrs n) -> nn_node_next n c = Some i ->
  child (set_child n i p) c' = if decide (c' = c) then p else child n c'.
Proof.
  intros Hs Hi. pose proof (next_in_range _ _ _ Hs Hi) as Hlt.
  destruct n as [r pf k cs]. unfold child.
  change (nn_node_next (set_child (Node r pf k cs) i p) c')
    with (nn_node_next (Node r pf k cs) c'). cbn [set_child ptrs] in *.
  case_decide as Hd.
  - subst c'. rewrite Hi. by rewrite list_lookup_insert_eq.
  - destruct (nn_node_next _ c') as [j|] eqn:Hj; [|done].
    rewrite list_lookup_insert_ne; [done|]. intros <-. apply Hd.
    by eapply (next_inj (Node r pf k cs)).
Qed.

(** The effect of replacing one child on the multiset. *)
Lemma find_update n n' c p s :
  refcount n' = refcount n ->
  (forall c', child n' c' = if decide (c' = c) then p else child n c') ->
  find [] n' s = match s with
                 | [] => refcount n
                 | c' :: t => if decide (c' = c) then subs p t else find [] n s
                 end.
Proof.
  intros Hr Hc. destruct s as [|c' t]; [done|]. rewrite !find_nil, Hc. by case_decide.
Qed.

Lemma occupancy_cons p cs : occupancy (p :: cs) = occ p + occupancy cs.
Proof. done. Qed.

Lemma occupancy_app cs1 cs2 : occupancy (cs1 ++ cs2) = occupancy cs1 + occupancy cs2.
Proof. unfold occupancy. induction cs1 as [|p cs1 IH]; cbn; [done|]. rewrite IH. lia. Qed.

Lemma occupancy_insert cs i p q :
  cs !! i = Some p -> occupancy (<[i := q]> cs) = occupancy cs - occ p + occ q.
Proof.
  revert i; induction cs as [|x cs IH]; intros [|i]; [done..| |].
  - intros [= ->]. change (<[0%nat := q]> (p :: cs)) with (q :: cs).
    rewrite !occupancy_cons. lia.
  - intros Hi. change (<[S i := q]> (x :: cs)) with (x :: <[i := q]> cs).
    rewrite !occupancy_cons, (IH _ Hi). lia.
Qed.

Lemma occupancy_holes k : occupancy (replicate k None) = 0.
Proof. induction k; cbn; done. Qed.

Lemma occupancy_full cs :
  Forall (fun p => is_hole p = false) cs -> occupancy cs = Z.of_nat (length cs).
Proof.
  unfold occupancy, occ. induction 1 as [|p cs Hp _ IH]; [done|].
  cbn [foldr length]. rewrite Hp, IH. lia.
Qed.

(** Replacing a child that is there by another node keeps the invariant. *)
Lemma wf_set_child n c i p ch :
  wf n -> nn_node_next n c = Some i -> ptrs n !! i = Some (Some p) -> wf ch ->
  wf (set_child n i (Some ch)).
Proof.
  destruct n as [r pf k cs]. intros (?&?&?&Hk&Ha&Hc)%wf_inv Hn Hp Hch. cbn [ptrs set_child] in *.
  constructor; [done..| |done|].
  - destruct k as [l|min max nbr]; cbn in *.
    + destruct Hk as (?&?&?&?&Hf). split_and!; [done..|by rewrite length_insert|].
      by apply Forall_insert.
    + destruct Hk as (?&?&?&?&->&?). split_and!; [done..|by rewrite length_insert| |done].
      rewrite (occupancy_insert _ _ _ _ Hp). unfold occ. cbn. lia.
  - intros j ch' Hj. destruct (decide (j = i)) as [->|Hne].
    + rewrite list_lookup_insert_eq in Hj by by eapply lookup_lt_Some. by injection Hj as <-.
    + rewrite list_lookup_insert_ne in Hj by done. by eapply Hc.
Qed.

(** The invariant without liveness: a node under construction. *)
Definition core (n : node) : Prop :=
  0 <= refcount n < 2 ^ 32 /\ bytes (prefix n) /\
  (length (prefix n) <= NN_TRIE_PREFIX_MAX)%nat /\ kind_ok (node_kind n) (ptrs n) /\
  (forall i ch, ptrs n !! i = Some (Some ch) -> wf ch).

Lemma wf_core n : wf n <-> core n /\ alive n.
Proof.
  destruct n as [r pf k cs]. unfold core. cbn [refcount prefix node_kind ptrs]. split.
  - intros (?&?&?&?&?&?)%wf_inv. tauto.
  - intros [(?&?&?&?&?) ?]. by constructor.
Qed.

(** A count changed at one string. *)
Definition upd (f : list Z -> Z) (k : list Z) (v : Z) (s : list Z) : Z :=
  if decide (s = k) then v else f s.

Lemma strip_self_iff pf s : strip pf s = Some [] <-> s = pf.
Proof. rewrite strip_Some, app_nil_r. done. Qed.

(** ** Steps 4 and 5 *)

Lemma step5_spec n :
  core n -> refcount n + 1 < 2 ^ 32 ->
  let '(n', rc) := nn_trie_subscribe_step5 n in
  wf n' /\ prefix n' = prefix n /\ rc = (if decide (refcount n = 0) then 1 else 0) /\
  forall s, find [] n' s = upd (find [] n) [] (refcount n + 1) s.
Proof.
  destruct n as [r pf k cs]. unfold core. cbn [refcount prefix node_kind ptrs nn_trie_subscribe_step5].
  intros (Hr&?&?&?&?) Hlt. rewrite u32_small by lia. split_and!.
  - constructor; try done; [lia|]. unfold alive. cbn. destruct k as [[|]|]; try done. lia.
  - done.
  - case_decide; destruct (Z.eqb_spec (r + 1) 1); lia.
  - intros s. unfold upd. destruct s; [done|]. by rewrite decide_False.
Qed.

Lemma fresh_core data :
  bytes data -> (length data <= NN_TRIE_PREFIX_MAX)%nat -> core (Node 0 data (Sparse []) []).
Proof.
  intros. unfold core. cbn. split_and!; try done; try lia. all: by constructor.
Qed.

Lemma step4_spec fuel data :
  bytes data -> (length data < fuel)%nat ->
  exists n, nn_trie_subscribe_step4 fuel data = Ret (n, 1) /\ wf n /\
    forall s, subs (Some n) s = upd (fun _ => 0) data 1 s.
Proof.
  revert data; induction fuel as [|fuel IH]; intros data Hb Hlen; [lia|].
  cbn [nn_trie_subscribe_step4]. destruct (drop NN_TRIE_PREFIX_MAX data) as [|c rest] eqn:Ed.
  - assert (Hle : (length data <= NN_TRIE_PREFIX_MAX)%nat).
    { apply (f_equal length) in Ed. rewrite length_drop in Ed. cbn in Ed. lia. }
    eexists. split; [reflexivity|].
    pose proof (step5_spec _ (fresh_core _ Hb Hle) ltac:(cbn; lia)) as (Hwf & Hp & _ & Hf).
    split; [exact Hwf|]. intros s. cbn [subs]. rewrite Hp. cbn [prefix].
    rewrite find_strip. unfold upd. case_decide as Hs.
    + subst s. rewrite (proj2 (strip_self_iff data data) eq_refl), Hf. done.
    + destruct (strip data s) as [t|] eqn:Et; [|done]. rewrite Hf. unfold upd.
      case_decide; [subst t; by apply strip_self_iff in Et|]. by destruct t.
  - pose proof (take_drop NN_TRIE_PREFIX_MAX data) as Htd. rewrite Ed in Htd.
    set (p := take NN_TRIE_PREFIX_MAX data) in *.
    assert (Hbp : bytes p /\ bytes (c :: rest)).
    { rewrite <-Htd in Hb. by apply Forall_app in Hb. }
    destruct Hbp as [Hbp [Hbc Hbr]%Forall_cons].
    assert (Hlp : (length p <= NN_TRIE_PREFIX_MAX)%nat) by (unfold p; rewrite length_take; lia).
    clearbody p. clear Ed.
    destruct (IH rest Hbr) as (ch & Ech & Hwf & Hs).
    { apply (f_equal length) in Htd. rewrite length_app in Htd. cbn in Htd. lia. }
    rewrite Ech. cbn [mbind outcome_bind]. eexists. split; [reflexivity|]. split.
    + constructor; try done; try lia.
      * cbn. split_and!; [apply NoDup_singleton|by apply Forall_singleton|unfold NN_TRIE_SPARSE_MAX; lia|done|by apply Forall_singleton].
      * intros i ch' Hi. destruct i; [by injection Hi as <-|done].
    + intros s. cbn [subs prefix]. rewrite find_strip. unfold upd.
      destruct (strip p s) as [t|] eqn:Et.
      * apply strip_Some in Et as ->. rewrite find_nil. destruct t as [|c' t]; cbn [refcount].
        -- rewrite decide_False; [done|]. rewrite <-Htd. intros ?%app_inv_head. done.
        -- unfold child, nn_node_next. cbn [node_kind index_of ptrs].
           destruct (decide (c = c')) as [->|Hne]; cbn.
           ++ specialize (Hs t). cbn [subs] in Hs. rewrite Hs. unfold upd.
              destruct (decide (t = rest)) as [->|Hnt]; [by rewrite decide_True|].
              rewrite decide_False; [done|]. rewrite <-Htd. intros ?%app_inv_head. naive_solver.
           ++ rewrite decide_False; [done|]. rewrite <-Htd. intros ?%app_inv_head. naive_solver.
      * rewrite decide_False; [done|]. intros ->. rewrite <-Htd, strip_app in Et. done.
Qed.

(** ** Step 3: room for one more child *)

(** The node whose reference count the conversion to a dense array resets. *)
Definition full (n : node) : bool :=
  match node_kind n with
  | Sparse l => negb (length l <? NN_TRIE_SPARSE_MAX)%nat
  | Dense _ _ _ => false
  end.

Lemma find_plant n n' c rest ch s :
  refcount n' = refcount n ->
  (forall c', child n' c' = if decide (c' = c) then Some ch else child n c') ->
  child n c = None -> (forall s, subs (Some ch) s = upd (fun _ => 0) rest 1 s) ->
  find [] n' s = upd (find [] n) (c :: rest) 1 s.
Proof.
  intros Hr Hc Hn Hs. rewrite (find_update n n' c (Some ch) s Hr Hc).
  unfold upd. destruct s as [|c' t]; [by rewrite decide_False|].
  case_decide as Hd; [subst c'|by rewrite decide_False by congruence].
  rewrite Hs. unfold upd. rewrite find_nil, Hn. cbn [subs].
  destruct (decide (t = rest)) as [->|Hne]; [by rewrite decide_True|].
  by rewrite decide_False by congruence.
Qed.

Lemma child_dense r pf min max nbr cs c :
  Z.of_nat (length cs) = max - min + 1 ->
  child (Node r pf (Dense min max nbr) cs) c =
    if decide (min <= c) then mjoin (cs !! Z.to_nat (c - min)) else None.
Proof.
  intros Hlen. unfold child, nn_node_next. cbn [node_kind ptrs].
  destruct (Z.ltb_spec c min); cbn.
  - by rewrite decide_False by lia.
  - rewrite decide_True by lia. rewrite Z.gtb_ltb. destruct (Z.ltb_spec max c); [|done].
    by rewrite lookup_ge_None_2 by lia.
Qed.

Lemma child_sparse r pf l cs c :
  child (Node r pf (Sparse l) cs) c =
    match index_of c l with Some i => mjoin (cs !! i) | None => None end.
Proof. unfold child, nn_node_next. cbn. by destruct (index_of c l). Qed.

Lemma full_array_lookup (cs : list (option node)) i :
  Forall (fun p => is_hole p = false) cs -> (i < length cs)%nat ->
  exists ch, cs !! i = Some (Some ch).
Proof.
  intros Hf [p Hp]%lookup_lt_is_Some. rewrite Forall_lookup in Hf. specialize (Hf _ _ Hp).
  destruct p as [ch|]; [eauto|done].
Qed.

Lemma sparse_child_None r pf l cs c :
  kind_ok (Sparse l) cs -> child (Node r pf (Sparse l) cs) c = None -> index_of c l = None.
Proof.
  intros (_&_&_&Hlen&Hf). rewrite child_sparse.
  destruct (index_of c l) as [i|] eqn:E; [|done].
  apply index_of_Some, lookup_lt_Some in E. rewrite <-Hlen in E.
  destruct (full_array_lookup _ _ Hf E) as [ch ->]. done.
Qed.

Lemma index_of_snoc c x l :
  index_of c (l ++ [x]) =
    match index_of c l with
    | Some i => Some i
    | None => if decide (x = c) then Some (length l) else None
    end.
Proof.
  induction l as [|y l IH]; cbn; [done|]. destruct (decide (y = c)); [done|]. rewrite IH.
  destruct (index_of c l); cbn; [done|]. by destruct (decide (x = c)).
Qed.

Lemma append_sparse_spec n l c ch :
  core n -> node_kind n = Sparse l -> (length l < NN_TRIE_SPARSE_MAX)%nat ->
  is_byte c -> child n c = None -> wf ch ->
  wf (append_sparse n l c ch) /\
  forall c', child (append_sparse n l c ch) c' = if decide (c' = c) then Some ch else child n c'.
Proof.
  destruct n as [r pf k cs]. unfold core. cbn [refcount prefix node_kind ptrs].
  intros (Hr&Hpf&Hlp&Hk&Hch) -> Hlt Hc Hnone Hwf.
  pose proof (sparse_child_None _ _ _ _ _ Hk Hnone) as Hidx.
  destruct Hk as (Hnd&Hbl&_&Hlen&Hf). apply index_of_None in Hidx as Hcl. split.
  - unfold append_sparse. cbn [refcount prefix ptrs]. constructor; try done.
    + split_and!.
      * apply NoDup_app. split_and!; [done|set_solver|apply NoDup_singleton].
      * apply Forall_app. by rewrite Forall_singleton.
      * rewrite length_app. cbn. lia.
      * rewrite !length_app. cbn. lia.
      * apply Forall_app. by rewrite Forall_singleton.
    + unfold alive. cbn. by destruct l.
    + intros i ch' Hi. apply lookup_app_Some in Hi as [Hi|[_ Hi]]; [by eapply Hch|].
      apply list_lookup_singleton_Some in Hi as [_ [= <-]]. done.
  - intros c'. unfold append_sparse. cbn [refcount prefix ptrs].
    rewrite !child_sparse, index_of_snoc.
    destruct (decide (c' = c)) as [->|Hne].
    + rewrite Hidx, decide_True by done. rewrite lookup_app_r by lia.
      by rewrite Hlen, Nat.sub_diag.
    + destruct (index_of c' l) as [i|] eqn:E.
      * apply index_of_Some, lookup_lt_Some in E. by rewrite lookup_app_l by lia.
      * by rewrite decide_False by done.
Qed.

(** A dense node about to receive a child in the hole at [c]. *)
Definition plantable (n : node) (c : Z) : Prop :=
  exists r pf min max nbr cs, n = Node r pf (Dense min max nbr) cs /\
    0 <= r < 2 ^ 32 /\ bytes pf /\ (length pf <= NN_TRIE_PREFIX_MAX)%nat /\
    is_byte min /\ is_byte max /\ min <= c <= max /\
    Z.of_nat (length cs) = max - min + 1 /\ nbr = occupancy cs + 1 /\
    nbr > Z.of_nat NN_TRIE_SPARSE_MAX /\ cs !! Z.to_nat (c - min) = Some None /\
    (forall i ch, cs !! i = Some (Some ch) -> wf ch).

Lemma plant_spec n c rest :
  plantable n c -> bytes rest ->
  exists n', plant n c rest = Ret (n', 1) /\ wf n' /\ prefix n' = prefix n /\
    forall s, find [] n' s = upd (find [] n) (c :: rest) 1 s.
Proof.
  intros (r&pf&min&max&nbr&cs&->&?&?&?&?&?&?&Hlen&Hnbr&?&Hhole&Hch) Hrest.
  assert (Hnext : nn_node_next (Node r pf (Dense min max nbr) cs) c = Some (Z.to_nat (c - min))).
  { unfold nn_node_next. cbn [node_kind]. rewrite Z.gtb_ltb.
    by destruct (Z.ltb_spec c min), (Z.ltb_spec max c); try lia. }
  unfold plant. rewrite Hnext.
  rewrite (nn_node_child_ok (Node r pf _ cs) _ None) by done. cbn [mbind outcome_bind check].
  destruct (step4_spec (S (length rest)) rest Hrest ltac:(lia)) as (ch & -> & Hwf & Hs).
  cbn [mbind outcome_bind]. eexists. split; [reflexivity|]. split_and!.
  - cbn [set_child]. constructor; try done.
    + split_and!; try done; [lia|by rewrite length_insert|].
      rewrite (occupancy_insert _ _ _ _ Hhole). unfold occ. cbn. lia.
    + intros j ch' Hj. destruct (decide (j = Z.to_nat (c - min))) as [->|Hne].
      * rewrite list_lookup_insert_eq in Hj by by eapply lookup_lt_Some. by injection Hj as <-.
      * rewrite list_lookup_insert_ne in Hj by done. by eapply Hch.
  - done.
  - intros s. apply (find_plant _ _ _ _ ch); [done| | |done].
    + intros c'. by apply child_set_child.
    + by rewrite (child_next (Node r pf _ cs) _ _ None Hnext).
Qed.

Lemma mjoin_replicate k i : mjoin (replicate k (@None node) !! i) = None.
Proof.
  destruct (replicate k None !! i) as [p|] eqn:E; [|done].
  by apply lookup_replicate_1 in E as [-> _].
Qed.

Lemma not_hole_is_Some (cs : list (option node)) i :
  (i < length cs)%nat -> mjoin (cs !! i) = None -> cs !! i = Some None.
Proof. intros [p Hp]%lookup_lt_is_Some. rewrite Hp. cbn. by intros ->. Qed.

Lemma widen_dense_child n min max nbr c c' :
  Z.of_nat (length (ptrs n)) = max - min + 1 -> min <= max ->
  node_kind n = Dense min max nbr ->
  child (widen_dense n min max (nbr + 1) c) c' = child n c'.
Proof.
  destruct n as [r pf k cs]. cbn [ptrs node_kind]. intros Hlen Hle ->.
  unfold widen_dense. cbn [refcount prefix ptrs].
  rewrite (child_dense r pf min max nbr cs) by done.
  destruct (Z.eqb_spec min (Z.min min c)) as [E|E]; cbn [negb].
  - rewrite child_dense by (rewrite length_app, length_replicate; lia). rewrite <-E.
    case_decide; [|done]. destruct (decide (Z.to_nat (c' - min) < length cs)%nat).
    + by rewrite lookup_app_l.
    + rewrite lookup_app_r, mjoin_replicate by lia. by rewrite lookup_ge_None_2 by lia.
  - rewrite child_dense by (rewrite length_app, length_replicate; lia).
    destruct (decide (min <= c')).
    + rewrite decide_True by lia. rewrite lookup_app_r by (rewrite length_replicate; lia).
      rewrite length_replicate. do 2 f_equal. lia.
    + case_decide; [|done]. rewrite lookup_app_l by (rewrite length_replicate; lia).
      by rewrite mjoin_replicate.
Qed.

Lemma widen_dense_spec n min max nbr c :
  core n -> node_kind n = Dense min max nbr -> is_byte c -> child n c = None ->
  plantable (widen_dense n min max (nbr + 1) c) c /\
  forall c', child (widen_dense n min max (nbr + 1) c) c' = child n c'.
Proof.
  intros (Hr&Hpf&Hlp&Hk&Hch) Hkd Hc Hnone. rewrite Hkd in Hk.
  destruct Hk as (Hmin&Hmax&Hle&Hlen&Hnbr&Hbig). unfold is_byte in *.
  assert (Hchild : forall c', child (widen_dense n min max (nbr + 1) c) c' = child n c')
    by (intros; by apply widen_dense_child).
  split; [|done]. specialize (Hchild c). rewrite Hnone in Hchild.
  unfold widen_dense in *. set (cs := if _ : bool then _ else _) in *.
  assert (Hlen' : Z.of_nat (length cs) = Z.max max c - Z.min min c + 1).
  { unfold cs. destruct (Z.eqb_spec min (Z.min min c)); cbn [negb];
      rewrite length_app, length_replicate; lia. }
  assert (Hocc : occupancy cs = occupancy (ptrs n)).
  { unfold cs. destruct (negb _); rewrite occupancy_app, occupancy_holes; lia. }
  rewrite child_dense, decide_True in Hchild by (done || lia).
  eexists _, _, _, _, _, cs. split; [reflexivity|]. unfold is_byte.
  split_and!; try done; try lia.
  - apply not_hole_is_Some; [lia|done].
  - intros i ch Hi. unfold cs in Hi. destruct (negb _).
    + apply lookup_app_Some in Hi as [Hi|[_ Hi]]; [by apply lookup_replicate_1 in Hi as [? _]|].
      by eapply Hch.
    + apply lookup_app_Some in Hi as [Hi|[_ Hi]]; [by eapply Hch|].
      by apply lookup_replicate_1 in Hi as [? _].
Qed.

(** Filling the dense array from the sparse one. *)
Lemma fill_dense_cons m x l p cs acc :
  fill_dense m (x :: l) (p :: cs) acc = fill_dense m l cs (<[Z.to_nat (x - m) := p]> acc).
Proof. done. Qed.

Lemma fill_dense_length m l cs acc : length (fill_dense m l cs acc) = length acc.
Proof.
  revert cs acc; induction l as [|x l IH]; intros [|p cs] acc; try done.
  by rewrite fill_dense_cons, IH, length_insert.
Qed.

Lemma fill_dense_lookup m l cs acc c :
  NoDup l -> length cs = length l -> m <= c ->
  Forall (fun x => m <= x /\ (Z.to_nat (x - m) < length acc)%nat) l ->
  fill_dense m l cs acc !! Z.to_nat (c - m) =
    match index_of c l with Some i => cs !! i | None => acc !! Z.to_nat (c - m) end.
Proof.
  revert cs acc; induction l as [|x l IH]; intros [|p cs] acc Hnd Hlen Hc Hf; try done.
  apply NoDup_cons in Hnd as [Hx Hnd]. apply Forall_cons in Hf as [[Hmx Hlt] Hf].
  rewrite fill_dense_cons, IH; [|done|by injection Hlen|done|].
  2: { eapply Forall_impl; [done|]. intros y. by rewrite length_insert. }
  cbn [index_of]. destruct (decide (x = c)) as [->|Hne].
  - apply index_of_None in Hx. rewrite Hx. by rewrite list_lookup_insert_eq.
  - destruct (index_of c l); cbn; [done|]. rewrite list_lookup_insert_ne; [done|lia].
Qed.

Lemma fill_dense_occupancy m l cs acc :
  NoDup l -> length cs = length l -> Forall (fun p => is_hole p = false) cs ->
  Forall (fun x => m <= x /\ acc !! Z.to_nat (x - m) = Some None) l ->
  occupancy (fill_dense m l cs acc) = occupancy acc + Z.of_nat (length l).
Proof.
  revert cs acc; induction l as [|x l IH]; intros [|p cs] acc Hnd Hlen Hcs Hf;
    try done; [change (fill_dense m [] [] acc) with acc; cbn [length]; lia|].
  apply NoDup_cons in Hnd as [Hx Hnd]. apply Forall_cons in Hf as [[Hmx Hlt] Hf].
  apply Forall_cons in Hcs as [Hp Hcs].
  rewrite fill_dense_cons, IH; [|done|by injection Hlen|done|].
  - rewrite (occupancy_insert _ _ _ _ Hlt). unfold occ. rewrite Hp. cbn. lia.
  - rewrite Forall_forall in *. intros y Hy. destruct (Hf y Hy). split; [done|].
    rewrite list_lookup_insert_ne; [done|]. intros Heq. apply Hx. by replace x with y by lia.
Qed.

Lemma fill_dense_elem m l cs acc i ch :
  fill_dense m l cs acc !! i = Some (Some ch) ->
  (exists j, cs !! j = Some (Some ch)) \/ (exists j, acc !! j = Some (Some ch)).
Proof.
  revert cs acc; induction l as [|x l IH]; intros [|p cs] acc; try by eauto.
  rewrite fill_dense_cons. intros [[j Hj]|[j Hj]]%IH; [left; by exists (S j)|].
  destruct (decide (j = Z.to_nat (x - m))) as [->|Hne].
  - destruct (decide (Z.to_nat (x - m) < length acc)%nat).
    + rewrite list_lookup_insert_eq in Hj by done. left. by exists O.
    + rewrite list_insert_ge in Hj by lia. eauto.
  - rewrite list_lookup_insert_ne in Hj by done. eauto.
Qed.

Lemma min_max_bounds l c :
  bytes l -> is_byte c -> let m := Z.min (foldr Z.min 255 l) c in
  let M := Z.max (foldr Z.max 0 l) c in
  is_byte m /\ is_byte M /\ m <= c <= M /\ Forall (fun x => m <= x <= M) l.
Proof.
  unfold is_byte. intros Hl Hc. cbv zeta.
  assert (0 <= foldr Z.min 255 l /\ 0 <= foldr Z.max 0 l < 256 /\
    Forall (fun x => foldr Z.min 255 l <= x <= foldr Z.max 0 l) l) as (H1 & H2 & H3).
  { induction Hl as [|x l Hx _ IH]; cbn; [split_and!; try lia; constructor|].
    unfold is_byte in Hx. destruct IH as (?&?&IH).
    split_and!; try lia. constructor; [lia|]. eapply Forall_impl; [exact IH|]. cbn. lia. }
  split_and!; try lia. eapply Forall_impl; [exact H3|]. cbn. lia.
Qed.

Lemma sparse_to_dense_spec n l c :
  core n -> node_kind n = Sparse l -> (NN_TRIE_SPARSE_MAX <= length l)%nat ->
  is_byte c -> child n c = None ->
  plantable (sparse_to_dense n l c) c /\
  forall c', child (sparse_to_dense n l c) c' = child n c'.
Proof.
  destruct n as [r pf k cs]. unfold core. cbn [refcount prefix node_kind ptrs].
  intros (Hr&Hpf&Hlp&Hk&Hch) -> Hge Hc Hnone.
  pose proof (sparse_child_None _ _ _ _ _ Hk Hnone) as Hidx.
  destruct Hk as (Hnd&Hbl&Hle&Hlen&Hf).
  destruct (min_max_bounds l c Hbl Hc) as (Hm & HM & Hmc & Hall).
  unfold sparse_to_dense. cbn [prefix ptrs]. cbv zeta in *.
  set (m := Z.min _ c) in *. set (M := Z.max _ c) in *.
  set (acc := replicate (Z.to_nat (M - m + 1)) (@None node)).
  assert (Hlacc : length acc = Z.to_nat (M - m + 1)) by apply length_replicate.
  assert (Hin : Forall (fun x => m <= x /\ (Z.to_nat (x - m) < length acc)%nat) l).
  { eapply Forall_impl; [exact Hall|]. cbn. lia. }
  assert (Hlen' : Z.of_nat (length (fill_dense m l cs acc)) = M - m + 1).
  { rewrite fill_dense_length. lia. }
  assert (Hacc : forall x, m <= x <= M -> acc !! Z.to_nat (x - m) = Some None).
  { intros x Hx. apply lookup_replicate_2. lia. }
  split.
  - eexists _, _, _, _, _, _. split; [reflexivity|]. split_and!; try done; try lia.
    + rewrite fill_dense_occupancy; [|done..|].
      * unfold acc. rewrite occupancy_holes. lia.
      * eapply Forall_impl; [exact Hall|]. cbn. intros x Hx. split; [lia|by apply Hacc].
    + rewrite fill_dense_lookup, Hidx by (done || lia). by apply Hacc.
    + intros i ch [[j Hj]|[j Hj]]%fill_dense_elem; [by eapply Hch|].
      by apply lookup_replicate_1 in Hj as [? _].
  - intros c'. rewrite child_dense, child_sparse by done. case_decide as Hc'.
    + rewrite fill_dense_lookup by done. destruct (index_of c' l); [done|].
      apply mjoin_replicate.
    + destruct (index_of c' l) as [i|] eqn:E; [|done]. apply index_of_Some in E.
      rewrite Forall_lookup in Hall. specialize (Hall _ _ E). cbn in Hall. lia.
Qed.

(** Step 3 adds the string behind the node; a conversion forgets the
    subscriptions to the node itself. *)
Lemma step3_spec n c rest :
  core n -> bytes (c :: rest) -> child n c = None ->
  exists n', nn_trie_subscribe_step3 n (c :: rest) = Ret (n', 1) /\ wf n' /\
    prefix n' = prefix n /\
    forall s, find [] n' s =
      upd (upd (find [] n) [] (if full n then 0 else refcount n)) (c :: rest) 1 s.
Proof.
  intros Hcore [Hc Hrest]%Forall_cons Hnone. unfold nn_trie_subscribe_step3, full.
  assert (Hplant : forall m r0, plantable m c -> (forall c', child m c' = child n c') ->
    refcount m = r0 -> prefix m = prefix n ->
    exists n', plant m c rest = Ret (n', 1) /\ wf n' /\ prefix n' = prefix n /\
      forall s, find [] n' s = upd (upd (find [] n) [] r0) (c :: rest) 1 s).
  { intros m r0 Hp Hcm Hrm Hpm. destruct (plant_spec m c rest Hp Hrest) as (n' & -> & Hwf & Hpn & Hs).
    exists n'. split_and!; [done..|congruence|]. intros s. rewrite Hs. unfold upd.
    case_decide; [done|]. case_decide; [by subst s|].
    destruct s as [|c' t]; [done|]. by rewrite !find_nil, Hcm. }
  destruct (node_kind n) as [l|min max nbr] eqn:Hk.
  - destruct (Nat.ltb_spec (length l) NN_TRIE_SPARSE_MAX); cbn [negb].
    + destruct (step4_spec (S (length rest)) rest Hrest ltac:(lia)) as (ch & -> & Hwf & Hs).
      cbn [mbind outcome_bind].
      destruct (append_sparse_spec n l c ch) as [Hwf' Hchild]; [done..|].
      eexists. split; [reflexivity|]. split_and!; [done..|].
      intros s. rewrite (find_plant n _ c rest ch) by done.
      unfold upd. case_decide; [done|]. case_decide; [by subst s|done].
    + destruct (sparse_to_dense_spec n l c) as [Hp Hchild]; [done..|].
      by apply Hplant.
  - destruct (widen_dense_spec n min max nbr c) as [Hp Hchild]; [done..|].
    by apply Hplant.
Qed.

(** ** Step 2: compaction and the split of a prefix *)

Lemma find_prefix_irrelevant r p1 p2 k cs pf s :
  find pf (Node r p1 k cs) s = find pf (Node r p2 k cs) s.
Proof.
  revert pf; induction s as [|c s IH]; intros pf; [done|]. cbn [find].
  destruct pf as [|x pf]; [done|]. by rewrite IH.
Qed.

(** A node with a single child, seen through its prefix. *)
Lemma single_child_find p x q k' cs' r' s :
  match strip p s with
  | Some t => find [] (Node 0 p (Sparse [x]) [Some (Node r' q k' cs')]) t
  | None => 0
  end = find (p ++ x :: q) (Node r' (p ++ x :: q) k' cs') s.
Proof.
  rewrite find_app. destruct (strip p s) as [t|]; [|done].
  destruct t as [|c t]; [done|]. cbn [find].
  unfold child, nn_node_next. cbn [node_kind index_of ptrs].
  case_decide; cbn; [|done]. apply find_prefix_irrelevant.
Qed.

Lemma kind_ok_single x ch : is_byte x -> kind_ok (Sparse [x]) [Some ch].
Proof.
  intros. split_and!; [apply NoDup_singleton|by apply Forall_singleton| |done|by apply Forall_singleton].
  unfold NN_TRIE_SPARSE_MAX. cbn. lia.
Qed.

(** Compaction keeps the invariant and the multiset. *)
Lemma compact_spec n :
  wf n -> exists n', nn_node_compact n = Ret n' /\ wf n' /\
    forall s, subs (Some n') s = subs (Some n) s.
Proof.
  intros Hwf. unfold nn_node_compact. destruct (nn_node_has_subscribers n) eqn:Hsub; [eauto|].
  destruct n as [r pf k cs]. cbn [node_kind prefix]. unfold nn_node_has_subscribers in Hsub.
  cbn in Hsub. destruct (Z.eqb_spec r 0) as [->|]; [clear Hsub|done].
  destruct k as [[|x [|]]|]; try by eauto.
  apply wf_inv in Hwf as Hinv. destruct Hinv as (_&Hpf&Hlp&(_&[Hx _]%Forall_cons&_&Hlen&Hf)&_&Hch).
  destruct cs as [|p [|]]; try done. apply Forall_cons in Hf as [Hp _].
  destruct p as [[r' q k' cs']|]; [|done].
  rewrite (nn_node_child_ok _ 0 (Some (Node r' q k' cs'))) by done. cbn [mbind outcome_bind].
  destruct (Nat.ltb_spec NN_TRIE_PREFIX_MAX (length pf + length q + 1)); [eauto|].
  destruct (wf_inv _ _ _ _ (Hch O _ eq_refl)) as (?&?&?&?&?&?).
  eexists. split; [reflexivity|]. split.
  - constructor; try done.
    + apply Forall_app. split; [done|]. by constructor.
    + rewrite length_app. cbn. lia.
  - intros s. cbn [subs prefix]. symmetry. rewrite find_strip.
    apply single_child_find.
Qed.

Lemma step2_spec r p x q k cs data :
  wf (Node r (p ++ x :: q) k cs) -> bytes (p ++ data) ->
  match data with y :: _ => x <> y | [] => True end ->
  exists n', nn_trie_subscribe_step2 (Node r (p ++ x :: q) k cs) (length p) data = Ret (n', 1) /\
    wf n' /\ forall s, subs (Some n') s = upd (subs (Some (Node r (p ++ x :: q) k cs))) (p ++ data) 1 s.
Proof.
  intros Hwf [Hbp Hbd]%Forall_app Hxy. destruct (wf_inv _ _ _ _ Hwf) as (Hr&Hpf&Hlp&Hk&Ha&Hch).
  apply Forall_app in Hpf as [_ [Hbx Hbq]%Forall_cons]. rewrite length_app in Hlp. cbn [length] in Hlp.
  unfold nn_trie_subscribe_step2. rewrite drop_app_length, take_app_length.
  destruct (compact_spec (Node r q k cs)) as (ch & -> & Hwfc & Hsc).
  { constructor; [done|done|lia|done|exact Ha|done]. }
  cbn [mbind outcome_bind]. set (n1 := Node 0 p (Sparse [x]) [Some ch]).
  assert (Hcore : core n1).
  { split_and!; [done|done|done|cbn [n1 prefix]; lia|by apply kind_ok_single|].
    intros [|i] ch' Hi; [by injection Hi as <-|done]. }
  assert (Hn1 : forall t, find [] n1 t = find (x :: q) (Node r q k cs) t).
  { intros [|c t]; [done|]. cbn [find]. unfold child, nn_node_next. cbn [node_kind n1 index_of ptrs].
    case_decide; cbn; [|done]. apply (Hsc t). }
  assert (Hgoal : forall n' data', wf n' -> prefix n' = p ->
      (forall t, find [] n' t = upd (find [] n1) data' 1 t) ->
      forall s, subs (Some n') s = upd (subs (Some (Node r (p ++ x :: q) k cs))) (p ++ data') 1 s).
  { intros n' data' _ Hpre Ht s. cbn [subs prefix]. rewrite Hpre, find_strip. unfold upd.
    case_decide as Hs; [subst s; rewrite strip_app, Ht; unfold upd; by rewrite decide_True|].
    cbn [subs prefix]. rewrite find_app. destruct (strip p s) as [t|] eqn:Et; [|done].
    apply strip_Some in Et as ->. rewrite Ht. unfold upd. rewrite decide_False by congruence.
    rewrite Hn1. apply find_prefix_irrelevant. }
  destruct data as [|c rest].
  - cbn [nn_trie_subscribe_step3].
    pose proof (step5_spec n1 Hcore ltac:(cbn; lia)) as H5.
    destruct (nn_trie_subscribe_step5 n1) as [n' rc]. destruct H5 as (Hwf' & Hp' & -> & Hf').
    eexists. split; [reflexivity|]. split; [done|]. by apply Hgoal.
  - destruct (step3_spec n1 c rest Hcore Hbd) as (n' & -> & Hwf' & Hp' & Hf').
    { unfold n1. rewrite child_sparse. cbn [index_of]. by rewrite decide_False. }
    eexists. split; [reflexivity|]. split; [done|]. apply Hgoal; [done..|].
    intros t. rewrite Hf'. unfold upd. case_decide; [done|]. case_decide; [by subst|done].
Qed.

(** ** The traversal *)

(** The string whose node the subscription of [data] converts to a dense one. *)
Fixpoint converted_at (fuel : nat) (slot : option node) (data : list Z) : option (list Z) :=
  match fuel, slot with
  | S fuel, Some n =>
    match strip (prefix n) data with
    | Some (c :: rest) =>
      match child n c with
      | Some ch => (fun q => prefix n ++ c :: q) <$> converted_at fuel (Some ch) rest
      | None => if full n then Some (prefix n) else None
      end
    | _ => None
    end
  | _, _ => None
  end.

Definition converted (t : nn_trie) (data : list Z) : option (list Z) :=
  converted_at (S (length data)) t data.

Definition forget (o : option (list Z)) (f : list Z -> Z) : list Z -> Z :=
  match o with Some q => upd f q 0 | None => f end.

(** A change below one child, seen at the node. *)
Lemma subs_lift n n' c (ch : option node) ch' s :
  prefix n' = prefix n -> refcount n' = refcount n ->
  (forall c', child n' c' = if decide (c' = c) then ch' else child n c') ->
  subs (Some n') s =
    match strip (prefix n) s with
    | Some (c' :: t) => if decide (c' = c) then subs ch' t else subs (Some n) s
    | _ => subs (Some n) s
    end.
Proof.
  intros Hp Hr Hc. cbn [subs]. rewrite Hp, !find_strip.
  destruct (strip (prefix n) s) as [t|]; [|done].
  rewrite (find_update n n' c ch' t Hr Hc). destruct t as [|c' t]; [done|]. by case_decide.
Qed.

Lemma subs_below n c ch t : child n c = ch -> subs (Some n) (prefix n ++ c :: t) = subs ch t.
Proof. intros <-. cbn [subs]. rewrite find_strip, strip_app. done. Qed.

Lemma upd_lift n n' c ch ch' rest v o s :
  prefix n' = prefix n -> refcount n' = refcount n ->
  (forall c', child n' c' = if decide (c' = c) then ch' else child n c') ->
  child n c = ch ->
  (forall t, subs ch' t = upd (forget o (subs ch)) rest v t) ->
  subs (Some n') s =
    upd (forget ((fun q => prefix n ++ c :: q) <$> o) (subs (Some n))) (prefix n ++ c :: rest) v s.
Proof.
  intros Hp Hr Hc Hch Hsub. rewrite (subs_lift n n' c ch ch' s Hp Hr Hc).
  assert (Hother : (forall t, s <> prefix n ++ c :: t) ->
    subs (Some n) s = upd (forget ((fun q => prefix n ++ c :: q) <$> o) (subs (Some n)))
                        (prefix n ++ c :: rest) v s).
  { intros Hne. unfold upd. rewrite decide_False by done. destruct o; cbn; [|done].
    unfold upd. by rewrite decide_False by done. }
  destruct (strip (prefix n) s) as [t|] eqn:Et.
  2: { apply Hother. intros t ->. by rewrite strip_app in Et. }
  apply strip_Some in Et as ->. destruct t as [|c' t].
  { apply Hother. intros t ?%app_inv_head. done. }
  case_decide as Hd; [subst c'|apply Hother; intros t' ?%app_inv_head; congruence].
  rewrite Hsub. unfold upd.
  destruct (decide (t = rest)) as [->|Hne]; [by rewrite decide_True|].
  rewrite decide_False by (intros ?%app_inv_head; congruence).
  destruct o as [q|]; cbn [forget fmap option_fmap option_map].
  - unfold upd. destruct (decide (t = q)) as [->|Hnq]; [by rewrite decide_True|].
    rewrite decide_False by (intros ?%app_inv_head; congruence).
    by rewrite (subs_below n c ch).
  - by rewrite (subs_below n c ch).
Qed.

(** A child pointer that is there, or is not. *)
Lemma child_cases n c :
  wf n ->
  (nn_node_next n c = None /\ child n c = None) \/
  exists i p, nn_node_next n c = Some i /\ nn_node_child n i = Ret p /\
    ptrs n !! i = Some p /\ child n c = p.
Proof.
  intros Hwf. destruct (nn_node_next n c) as [i|] eqn:Hi.
  - right. destruct (lookup_lt_is_Some_2 (ptrs n) i) as [p Hp].
    { by eapply next_in_range; [apply wf_shape|]. }
    exists i, p. split_and!; [done|by apply nn_node_child_ok|done|by eapply child_next].
  - left. split; [done|]. unfold child. by rewrite Hi.
Qed.

Lemma subscribe_at_spec fuel slot data :
  wf_slot slot -> bytes data -> (length data < fuel)%nat -> subs slot data + 1 < 2 ^ 32 ->
  exists n, nn_trie_subscribe_at fuel slot data =
      Ret (n, if decide (subs slot data = 0) then 1 else 0) /\ wf n /\
    forall s, subs (Some n) s =
      upd (forget (converted_at fuel slot data) (subs slot)) data (subs slot data + 1) s.
Proof.
  revert slot data; induction fuel as [|fuel IH]; intros slot data Hwf Hb Hlen Hlt; [lia|].
  cbn [nn_trie_subscribe_at converted_at]. destruct slot as [n|].
  2: { apply (step4_spec (S (length data)) data Hb). lia. }
  specialize (Hwf n eq_refl). apply wf_core in Hwf as Hcore. destruct Hcore as [Hcore _].
  destruct (check_prefix_split (prefix n) data) as (p & q & r & Hpre & -> & Hpos & Hqr).
  rewrite Hpos, drop_app_length, Hpre, length_app.
  destruct q as [|x q].
  - (* the whole prefix matches *)
    rewrite app_nil_r in Hpre. rewrite app_nil_r. cbn [length]. subst p.
    destruct (Nat.ltb_spec (length (prefix n)) (length (prefix n) + 0)); [lia|].
    rewrite strip_app. destruct r as [|c rest].
    + (* step 5 *)
      assert (Hs0 : subs (Some n) (prefix n ++ []) = refcount n).
      { cbn [subs]. by rewrite find_strip, strip_app. }
      rewrite Hs0 in *.
      pose proof (step5_spec n Hcore ltac:(lia)) as H5.
      destruct (nn_trie_subscribe_step5 n) as [n' rc]. destruct H5 as (Hwf' & Hp' & -> & Hf').
      eexists. split; [reflexivity|]. split; [done|]. intros s. cbn [subs forget].
      rewrite Hp', find_strip, app_nil_r. unfold upd. case_decide as Hs.
      * subst s. by rewrite (proj2 (strip_self_iff _ _) eq_refl), Hf'.
      * cbn [subs]. rewrite find_strip. destruct (strip (prefix n) s) as [t|] eqn:Et; [|done].
        rewrite Hf'. unfold upd. rewrite decide_False; [done|]. intros ->.
        by apply strip_self_iff in Et.
    + apply Forall_app in Hb as Hbr. destruct Hbr as [_ Hbr].
      rewrite length_app in Hlen. cbn in Hlen.
      assert (Hstep3 : child n c = None ->
        exists n', nn_trie_subscribe_step3 n (c :: rest) =
            Ret (n', if decide (subs (Some n) (prefix n ++ c :: rest) = 0) then 1 else 0) /\ wf n' /\
          forall s, subs (Some n') s = upd (forget (if full n then Some (prefix n) else None) (subs (Some n)))
            (prefix n ++ c :: rest) (subs (Some n) (prefix n ++ c :: rest) + 1) s).
      { intros Hnone. rewrite (subs_below n c None) by done. cbn [subs].
        destruct (step3_spec n c rest Hcore Hbr Hnone) as (n' & -> & Hwf' & Hp' & Hf').
        eexists. split; [reflexivity|]. split; [done|]. intros s.
        cbn [subs]. rewrite Hp', find_strip. unfold upd. case_decide as Hs.
        - subst s. rewrite strip_app, Hf'. unfold upd. by rewrite decide_True.
        - assert (Hrest : forall t, subs (Some n) (prefix n ++ t) = find [] n t).
          { intros t. cbn [subs]. by rewrite find_strip, strip_app. }
          destruct (strip (prefix n) s) as [t|] eqn:Et.
          + apply strip_Some in Et as ->. rewrite Hf'. unfold upd. rewrite decide_False by congruence.
            case_decide as Ht.
            * subst t. destruct (full n); cbn [forget]; [|by rewrite Hrest].
              unfold upd. by rewrite decide_True by apply app_nil_r.
            * destruct (full n); cbn [forget]; [|by rewrite Hrest].
              unfold upd. rewrite decide_False; [by rewrite Hrest|].
              intros Heq. apply Ht, (app_inv_head (prefix n)). by rewrite app_nil_r.
          + assert (Hz : subs (Some n) s = 0) by (cbn [subs]; by rewrite find_strip, Et).
            destruct (full n); cbn [forget]; [|by rewrite Hz].
            unfold upd. by case_decide. }
      destruct (child_cases n c Hwf) as [[-> Hnone]|(i & p & Hi & Hnc & Hp & Hch)];
        [rewrite Hnone; by apply Hstep3|].
      rewrite Hi, Hnc, Hch. cbn [mbind outcome_bind].
      destruct p as [ch|]; [|by apply Hstep3].
      rewrite (subs_below n c (Some ch)) in * by done.
      destruct (IH (Some ch) rest) as (ch' & -> & Hwfc & Hsc).
      { intros ? [= <-]. by eapply wf_child. }
      { by apply Forall_cons in Hbr as [_ ?]. } { lia. } { done. }
      cbn [mbind outcome_bind]. eexists. split; [reflexivity|]. split.
      { by eapply wf_set_child. }
      intros s. rewrite (upd_lift n _ c (Some ch) (Some ch') rest
        (subs (Some ch) rest + 1) (converted_at fuel (Some ch) rest)); [done| | | |done|done].
      * by destruct n.
      * by destruct n.
      * intros c'. apply child_set_child; [by apply wf_shape|done].
  - (* split *)
    cbn [length]. destruct (Nat.ltb_spec (length p) (length p + S (length q))); [|lia].
    assert (Hz : subs (Some n) (p ++ r) = 0).
    { cbn [subs]. rewrite Hpre, find_app, strip_app. destruct r as [|y r]; [done|].
      cbn [find]. by rewrite decide_False. }
    rewrite Hz. destruct n as [rf pf k cs]. cbn [prefix] in Hpre. subst pf.
    destruct (step2_spec rf p x q k cs r Hwf Hb) as (n' & -> & Hwf' & Hs); [by destruct r|].
    eexists. split; [reflexivity|]. split; [done|].
    intros s. rewrite Hs. destruct (strip (p ++ x :: q) (p ++ r)) as [[|c t]|] eqn:Et; [done| |done].
    exfalso. apply strip_Some in Et. rewrite <-app_assoc in Et. apply app_inv_head in Et.
    subst r. by apply Hqr.
Qed.

(** C22.  On a well-formed trie [nn_trie_subscribe] always returns: 1 for a
    string not subscribed before, else 0.  The new trie is well formed and
    counts one more subscription to the string; all other counts are unchanged,
    except that of the one node (if any) whose full sparse child array is
    converted to a dense array, which drops to 0. *)
Theorem subscribe_counts (t : nn_trie) (data : list Z) :
  wf_slot t -> bytes data -> subs t data + 1 < 2 ^ 32 ->
  exists t', nn_trie_subscribe t data =
      Ret (t', if decide (subs t data = 0) then 1 else 0) /\ wf_slot t' /\
    forall s, subs t' s = upd (forget (converted t data) (subs t)) data (subs t data + 1) s.
Proof.
  intros Hwf Hb Hlt. unfold nn_trie_subscribe, converted.
  destruct (subscribe_at_spec (S (length data)) t data Hwf Hb ltac:(lia) Hlt) as (n & -> & Hn & Hs).
  cbn [mbind outcome_bind]. exists (Some n). split_and!; [done| |done]. by intros ? [= <-].
Qed.

Lemma wf_empty : wf_slot nn_trie_init.
Proof. by intros n [=]. Qed.

Lemma subscribe_counts_witness :
  exists t', nn_trie_subscribe nn_trie_init [97; 98] = Ret (t', 1) /\ wf_slot t' /\
    forall s, subs t' s = upd (fun _ => 0) [97; 98] 1 s.
Proof.
  apply (subscribe_counts nn_trie_init [97; 98]).
  - intros n [=].
  - repeat (apply Forall_cons; split; [split; lia|]). apply Forall_nil_2.
  - cbn. lia.
Defined.

(** ** Match *)

(** Some subscription is a prefix of the message. *)
Definition matches (t : option node) (data : list Z) : Prop :=
  exists p r, data = p ++ r /\ subs t p <> 0.

Lemma matches_take t data :
  matches t data <-> Exists (fun k => subs t (take k data) <> 0) (seq 0 (S (length data))).
Proof.
  rewrite Exists_exists. split.
  - intros (p & r & -> & Hp). exists (length p). rewrite take_app_length. split; [|done].
    apply elem_of_seq. rewrite length_app. lia.
  - intros (k & _ & Hk). exists (take k data), (drop k data). by rewrite take_drop.
Qed.

#[export] Instance matches_dec t data : Decision (matches t data).
Proof.
  refine (cast_if (decide (Exists (fun k => subs t (take k data) <> 0) (seq 0 (S (length data))))));
    by rewrite matches_take.
Defined.

(** The message leads exactly to the end of a node. *)
Fixpoint reaches_at (pf : list Z) (n : node) (s : list Z) {struct s} : bool :=
  match s with
  | [] => match pf with [] => true | _ => false end
  | c :: s' =>
    match pf with
    | p :: pf' => if decide (p = c) then reaches_at pf' n s' else false
    | [] => match child n c with Some ch => reaches_at (prefix ch) ch s' | None => false end
    end
  end.

Definition reaches (t : option node) (s : list Z) : bool :=
  match t with Some n => reaches_at (prefix n) n s | None => false end.

Lemma reaches_strip pf n s :
  reaches_at pf n s = match strip pf s with Some t => reaches_at [] n t | None => false end.
Proof.
  revert pf; induction s as [|c s IH]; intros [|p pf]; [done..|].
  cbn [reaches_at strip]. case_decide; [apply IH|done].
Qed.

Lemma matches_node n data :
  matches (Some n) data <->
  match strip (prefix n) data with
  | Some d => refcount n <> 0 \/
              match d with c :: rest => matches (child n c) rest | [] => False end
  | None => False
  end.
Proof.
  unfold matches. cbn [subs]. split.
  - intros (p & r & -> & Hp). rewrite find_strip in Hp.
    destruct (strip (prefix n) p) as [t|] eqn:Et; [|done]. apply strip_Some in Et as ->.
    rewrite <-app_assoc, strip_app. destruct t as [|c t]; cbn [app]; [by left|].
    right. rewrite find_nil in Hp. eauto.
  - destruct (strip (prefix n) data) as [d|] eqn:Ed; [|done]. apply strip_Some in Ed as ->.
    intros [Hr|Hd].
    + exists (prefix n), d. split; [done|]. rewrite find_strip.
      by rewrite (proj2 (strip_self_iff _ _) eq_refl).
    + destruct d as [|c rest]; [done|]. destruct Hd as (p & r & -> & Hp).
      exists (prefix n ++ c :: p), r. split; [by rewrite <-app_assoc|].
      by rewrite find_strip, strip_app.
Qed.

Lemma check_prefix_strip pf data :
  (nn_node_check_prefix pf data =? length pf)%nat =
    match strip pf data with Some _ => true | None => false end.
Proof.
  destruct (strip pf data) as [t|] eqn:Et.
  - apply strip_Some in Et. apply Nat.eqb_eq, check_prefix_full. eauto.
  - apply Nat.eqb_neq. intros [t ->]%check_prefix_full. by rewrite strip_app in Et.
Qed.

Lemma match_at_spec fuel slot data :
  wf_slot slot -> (S (length data) < fuel)%nat ->
  (matches slot data -> nn_trie_match_at fuel slot data = Ret 1) /\
  (~ matches slot data ->
     nn_trie_match_at fuel slot data = if reaches slot data then Undef else Ret 0).
Proof.
  revert slot data; induction fuel as [|fuel IH]; intros slot data Hwf Hlen; [lia|].
  cbn [nn_trie_match_at]. destruct slot as [n|].
  2: { split; [|done]. intros (p & r & _ & Hp). done. }
  specialize (Hwf n eq_refl). rewrite matches_node, check_prefix_strip.
  unfold reaches. rewrite reaches_strip.
  destruct (strip (prefix n) data) as [d|] eqn:Ed; cbn [negb]; [|done].
  apply strip_Some in Ed as ->. rewrite drop_app_length.
  unfold nn_node_has_subscribers. destruct (Z.eqb_spec (refcount n) 0) as [Hr|Hr]; cbn [negb].
  2: { split; [done|]. intros []. by left. }
  destruct d as [|c rest]; [split; [intros [?|?]; done|done]|].
  rewrite length_app in Hlen. cbn in Hlen. cbn [reaches_at].
  assert (Hstep : match nn_node_next n c with
     | Some i => p ← nn_node_child n i; nn_trie_match_at fuel p rest
     | None => nn_trie_match_at fuel None rest
     end = nn_trie_match_at fuel (child n c) rest).
  { destruct (child_cases n c Hwf) as [[-> ->]|(i & p & -> & Hnc & _ & ->)]; [done|].
    rewrite Hnc. done. }
  rewrite Hstep. destruct (IH (child n c) rest) as [H1 H2].
  { intros ch Hch. by eapply wf_child. } { lia. }
  split.
  - intros [?|Hm]; [done|by apply H1].
  - intros Hm. rewrite H2 by tauto. by destruct (child n c).
Qed.

(** C24.  [nn_trie_match] returns 1 exactly when some subscription is a prefix of
    the message.  When none is, it returns 0, except for a message that leads
    exactly to the end of an (unsubscribed, branching) node: there the code
    reads one byte past the message. *)
Theorem match_is_prefix_test (t : nn_trie) (data : list Z) :
  wf_slot t ->
  (matches t data -> nn_trie_match t data = Ret 1) /\
  (~ matches t data -> nn_trie_match t data = if reaches t data then Undef else Ret 0).
Proof. intros Hwf. apply match_at_spec; [done|lia]. Qed.

(** The trie holding "ab" and "ac": a branching node for "a". *)
Definition trie_ab_ac : nn_trie :=
  Some (Node 0 [97] (Sparse [98; 99])
          [Some (Node 1 [] (Sparse []) []); Some (Node 1 [] (Sparse []) [])]).

Example trie_ab_ac_built :
  (r ← nn_trie_subscribe nn_trie_init [97; 98]; nn_trie_subscribe (fst r) [97; 99])
  = Ret (trie_ab_ac, 1).
Proof. reflexivity. Qed.

Lemma wf_leaf r pf :
  0 < r < 2 ^ 32 -> bytes pf -> (length pf <= NN_TRIE_PREFIX_MAX)%nat ->
  wf (Node r pf (Sparse []) []).
Proof.
  intros. apply wf_core. split; [|cbn; lia].
  unfold core. cbn [refcount prefix node_kind ptrs]. split_and!; try done; try lia.
  cbn. split_and!; [apply NoDup_nil_2|apply Forall_nil_2|lia|done|apply Forall_nil_2].
Qed.

Ltac bytes_tac :=
  repeat (apply Forall_cons; split; [unfold is_byte; lia|]); apply Forall_nil_2.

Lemma wf_trie_ab_ac : wf_slot trie_ab_ac.
Proof.
  intros n [= <-]. apply wf_core. split; [|done].
  assert (Hleaf : wf (Node 1 [] (Sparse []) [])) by (apply wf_leaf; [lia|bytes_tac|cbn; lia]).
  unfold core. cbn [refcount prefix node_kind ptrs]. split_and!; try lia.
  - bytes_tac.
  - unfold NN_TRIE_PREFIX_MAX. cbn. lia.
  - cbn. split_and!; [|bytes_tac|unfold NN_TRIE_SPARSE_MAX; lia|done|by repeat constructor].
    apply NoDup_cons. split; [set_solver|apply NoDup_singleton].
  - intros [|[|i]] ch Hi; cbn in Hi; [by injection Hi as <-..|done].
Qed.

Lemma match_is_prefix_test_witness :
  nn_trie_match trie_ab_ac [97; 98; 120] = Ret 1 /\
  (~ matches trie_ab_ac [97] -> nn_trie_match trie_ab_ac [97] = Undef).
Proof.
  split.
  - apply (match_is_prefix_test trie_ab_ac [97; 98; 120]); [apply wf_trie_ab_ac|].
    exists [97; 98], [120]. split; [reflexivity|]. vm_compute. discriminate.
  - apply (match_is_prefix_test trie_ab_ac [97]). apply wf_trie_ab_ac.
Defined.

(** ** Unsubscribe: shrinking a child array *)

Lemma leading_holes_split cs :
  exists cs', cs = replicate (leading_holes cs) None ++ cs' /\
    cs' = drop (leading_holes cs) cs.
Proof.
  induction cs as [|[ch|] cs (cs' & IH & Ed)]; [by exists []|by exists (Some ch :: cs)|].
  exists cs'. cbn. split; [by rewrite IH at 1|done].
Qed.

Lemma leading_holes_lt cs : 0 < occupancy cs -> (leading_holes cs < length cs)%nat.
Proof.
  induction cs as [|[ch|] cs IH]; [cbn; lia|cbn; lia|].
  rewrite occupancy_cons. unfold occ. cbn. intros. enough (leading_holes cs < length cs)%nat by lia.
  apply IH. lia.
Qed.

Lemma occupancy_le cs : 0 <= occupancy cs <= Z.of_nat (length cs).
Proof.
  induction cs as [|p cs IH]; [cbn; lia|]. rewrite occupancy_cons. cbn [length].
  unfold occ. destruct (is_hole p); lia.
Qed.

Lemma trim_left_child r pf min max nbr nbr' k cs c' :
  Z.of_nat (length (replicate k None ++ cs)) = max - min + 1 ->
  child (Node r pf (Dense (min + Z.of_nat k) max nbr') cs) c' =
  child (Node r pf (Dense min max nbr) (replicate k None ++ cs)) c'.
Proof.
  rewrite length_app, length_replicate. intros Hlen.
  rewrite !child_dense by (rewrite ?length_app, ?length_replicate; lia).
  destruct (decide (min + Z.of_nat k <= c')).
  - rewrite decide_True by lia. rewrite lookup_app_r by (rewrite length_replicate; lia).
    rewrite length_replicate. do 2 f_equal. lia.
  - case_decide; [|done]. rewrite lookup_app_l by (rewrite length_replicate; lia).
    by rewrite mjoin_replicate.
Qed.

Lemma trim_right_child r pf min max nbr nbr' k cs c' :
  Z.of_nat (length (cs ++ replicate k None)) = max - min + 1 ->
  child (Node r pf (Dense min (max - Z.of_nat k) nbr') cs) c' =
  child (Node r pf (Dense min max nbr) (cs ++ replicate k None)) c'.
Proof.
  rewrite length_app, length_replicate. intros Hlen.
  rewrite !child_dense by (rewrite ?length_app, ?length_replicate; lia).
  case_decide; [|done]. destruct (decide (Z.to_nat (c' - min) < length cs)%nat).
  - by rewrite lookup_app_l.
  - rewrite lookup_app_r, mjoin_replicate by lia. by rewrite lookup_ge_None_2 by lia.
Qed.

(** The rightmost loop of the code stops at the last child behind the first. *)
Lemma trailing_holes_split (p : option node) cs k :
  k = leading_holes (rev cs) ->
  exists cs', p :: cs = cs' ++ replicate k None /\ cs' = take (S (length cs) - k) (p :: cs) /\
    (k <= length cs)%nat.
Proof.
  intros ->. destruct (leading_holes_split (rev cs)) as (cs' & E & _).
  set (k := leading_holes (rev cs)) in *. exists (p :: rev cs').
  assert (Hcs : cs = rev cs' ++ replicate k None).
  { rewrite <-(rev_involutive cs), E, rev_app_distr. f_equal.
    clear. induction k as [|k IH]; [done|]. cbn. rewrite IH. symmetry. apply replicate_S_end. }
  clearbody k. rewrite Hcs. rewrite !length_app, length_replicate. split_and!; [done| |lia].
  replace (S (length (rev cs') + k) - k)%nat with (length (p :: rev cs')) by (cbn; lia).
  change (p :: rev cs' ++ replicate k None) with ((p :: rev cs') ++ replicate k None).
  by rewrite take_app_length.
Qed.

Lemma trim_dense_spec r pf min max nbr cs c :
  0 <= r < 2 ^ 32 -> bytes pf -> (length pf <= NN_TRIE_PREFIX_MAX)%nat ->
  is_byte min -> is_byte max -> min <= c <= max ->
  Z.of_nat (length cs) = max - min + 1 -> nbr = occupancy cs + 1 ->
  nbr > Z.of_nat NN_TRIE_SPARSE_MAX + 1 ->
  (forall i ch, cs !! i = Some (Some ch) -> wf ch) ->
  let n := Node r pf (Dense min max nbr) cs in
  let n' := trim_dense n min max nbr c in
  wf n' /\ prefix n' = pf /\ refcount n' = r /\ forall c', child n' c' = child n c'.
Proof.
  intros Hr Hpf Hlp Hmin Hmax Hc Hlen Hnbr Hbig Hch n n'. unfold is_byte in *.
  pose proof (occupancy_le cs) as Hocc.
  assert (Hu16 : u16 (nbr - 1) = nbr - 1) by (apply Z.mod_small; lia).
  assert (Hwfs : forall min' max' cs', 0 <= min' <= max' -> max' < 256 ->
    Z.of_nat (length cs') = max' - min' + 1 -> occupancy cs' = occupancy cs ->
    (forall i ch, cs' !! i = Some (Some ch) -> wf ch) ->
    wf (Node r pf (Dense min' max' (nbr - 1)) cs')).
  { intros. apply wf_core. split; [|done]. unfold core. cbn [refcount prefix node_kind ptrs].
    split_and!; try done; try lia. cbn. unfold is_byte. split_and!; lia. }
  unfold n', n, trim_dense. cbn [refcount prefix ptrs]. rewrite Hu16.
  destruct (Z.eqb_spec c min) as [->|Hnmin]; [|destruct (Z.eqb_spec c max) as [->|Hnmax]].
  - destruct (leading_holes_split cs) as (cs' & E & Ed). rewrite <-Ed.
    pose proof (leading_holes_lt cs ltac:(lia)) as Hlt. set (k := leading_holes cs) in *. clearbody k.
    assert (Hlk : (length cs' = length cs - k)%nat) by (rewrite Ed, length_drop; done).
    rewrite u8_small by lia. split_and!; [|done|done|].
    + apply Hwfs; try lia.
      * rewrite E, occupancy_app, occupancy_holes. done.
      * intros i ch Hi. apply (Hch (k + i)%nat). rewrite E, lookup_app_r, length_replicate
          by (rewrite length_replicate; lia). by replace (k + i - k)%nat with i by lia.
    + intros c'. rewrite E. apply trim_left_child. by rewrite <-E.
  - destruct cs as [|p cs]; [cbn in Hlen; lia|]. cbn [tail].
    destruct (trailing_holes_split p cs _ eq_refl) as (cs' & E & Et & Hk).
    set (k := leading_holes (rev cs)) in *. clearbody k. cbn [length] in *.
    replace (S (S (length cs) - 1 - k)) with (S (length cs) - k)%nat by lia. rewrite <-Et.
    assert (Hlk : (length cs' = S (length cs) - k)%nat) by (rewrite Et, length_take; cbn; lia).
    replace (min + Z.of_nat (S (length cs) - 1 - k)) with (max - Z.of_nat k) by lia.
    rewrite u8_small by lia. split_and!; [|done|done|].
    + apply Hwfs; try lia.
      * rewrite E, occupancy_app, occupancy_holes. lia.
      * intros i ch Hi. apply (Hch i). rewrite E. by apply lookup_app_l_Some.
    + intros c'. rewrite E. apply trim_right_child. rewrite <-E. cbn. lia.
  - split_and!; [|done|done|].
    + apply Hwfs; try lia. done.
    + intros c'. by rewrite !child_dense.
Qed.

(** ** Unsubscribe: from dense to sparse *)

Lemma occupied_length c cs : Z.of_nat (length (occupied c cs)) = occupancy cs.
Proof.
  revert c; induction cs as [|[ch|] cs IH]; intros c; [done|..];
    rewrite occupancy_cons; cbn [occupied length]; unfold occ; cbn [is_hole];
    rewrite <-?(IH (c + 1)); lia.
Qed.

Lemma occupied_range c cs :
  Forall (fun x => c <= x < c + Z.of_nat (length cs)) (fst <$> occupied c cs).
Proof.
  revert c; induction cs as [|[ch|] cs IH]; intros c; cbn [occupied length fmap list_fmap fst];
    [constructor|constructor; [lia|]|];
    (eapply Forall_impl; [apply IH|]; cbn; lia).
Qed.

Lemma occupied_NoDup c cs : NoDup (fst <$> occupied c cs).
Proof.
  revert c; induction cs as [|[ch|] cs IH]; intros c; cbn [occupied fmap list_fmap fst];
    [constructor|constructor; [|done]|done].
  intros Hin. pose proof (occupied_range (c + 1) cs) as Hr. rewrite Forall_forall in Hr.
  specialize (Hr _ Hin). lia.
Qed.

Lemma occupied_lookup c cs c' :
  match index_of c' (fst <$> occupied c cs) with
  | Some i => snd <$> (occupied c cs !! i)
  | None => None
  end = if decide (c <= c') then mjoin (cs !! Z.to_nat (c' - c)) else None.
Proof.
  revert c; induction cs as [|p cs IH]; intros c; [cbn; by case_decide|].
  specialize (IH (c + 1)). destruct (decide (c' = c)) as [->|Hne].
  - rewrite decide_True, Z.sub_diag by lia. cbn [Z.to_nat lookup list_lookup mjoin option_join].
    rewrite decide_False in IH by lia. destruct p as [ch|]; cbn [occupied fmap list_fmap fst index_of].
    + by rewrite decide_True.
    + done.
  - assert (Hr : (if decide (c <= c') then mjoin ((p :: cs) !! Z.to_nat (c' - c)) else None)
      = if decide (c + 1 <= c') then mjoin (cs !! Z.to_nat (c' - (c + 1))) else None).
    { destruct (decide (c + 1 <= c')).
      - rewrite decide_True by lia. replace (Z.to_nat (c' - c)) with (S (Z.to_nat (c' - (c + 1)))) by lia. done.
      - by rewrite decide_False by lia. }
    rewrite Hr, <-IH. destruct p as [ch|]; cbn [occupied fmap list_fmap fst index_of]; [|done].
    rewrite decide_False by done. destruct (index_of c' _); done.
Qed.

Lemma occupied_elem c cs x ch : (x, ch) ∈ occupied c cs -> exists i, cs !! i = Some (Some ch).
Proof.
  revert c; induction cs as [|[ch'|] cs IH]; intros c; cbn [occupied].
  - by intros ?%not_elem_of_nil.
  - intros [[= -> ->]|Hin]%elem_of_cons; [by exists O|].
    destruct (IH _ Hin) as [i Hi]. by exists (S i).
  - intros Hin. destruct (IH _ Hin) as [i Hi]. by exists (S i).
Qed.

Lemma dense_to_sparse_spec r pf min max nbr cs :
  bytes pf -> (length pf <= NN_TRIE_PREFIX_MAX)%nat -> is_byte min -> is_byte max ->
  Z.of_nat (length cs) = max - min + 1 -> occupancy cs = Z.of_nat NN_TRIE_SPARSE_MAX ->
  (forall i ch, cs !! i = Some (Some ch) -> wf ch) ->
  exists n', dense_to_sparse (Node r pf (Dense min max nbr) cs) min = Ret n' /\
    wf n' /\ prefix n' = pf /\ refcount n' = 0 /\
    forall c', child n' c' = child (Node r pf (Dense min max nbr) cs) c'.
Proof.
  intros Hpf Hlp Hmin Hmax Hlen Hocc Hch. unfold dense_to_sparse. cbn [ptrs prefix].
  pose proof (occupied_length min cs) as Hl. rewrite Hocc in Hl. apply Nat2Z.inj in Hl.
  rewrite Hl, Nat.ltb_irrefl, Nat.eqb_refl. cbn [check mbind outcome_bind].
  assert (Hu8 : u8 <$> (fst <$> occupied min cs) = fst <$> occupied min cs).
  { apply list_eq. intros i. rewrite list_lookup_fmap.
    destruct ((fst <$> occupied min cs) !! i) as [x|] eqn:Ex; [|done]. cbn. f_equal.
    pose proof (occupied_range min cs) as Hr. rewrite Forall_lookup in Hr. specialize (Hr _ _ Ex).
    unfold is_byte in *. cbn in Hr. apply u8_small. lia. }
  rewrite Hu8. eexists. split; [reflexivity|]. split_and!; [|done|done|].
  - apply wf_core. split.
    + unfold core. cbn [refcount prefix node_kind ptrs]. split_and!; try done.
      * cbn. rewrite !length_fmap. split_and!; [apply occupied_NoDup| |lia|lia|].
        -- eapply Forall_impl; [apply occupied_range|]. unfold is_byte in *. cbn. lia.
        -- apply Forall_fmap, Forall_true. done.
      * intros i ch Hi. rewrite !list_lookup_fmap in Hi.
        destruct (occupied min cs !! i) as [[x ch']|] eqn:E; [|done]. injection Hi as ->.
        destruct (occupied_elem min cs x ch) as [j Hj]; [by eapply list_elem_of_lookup_2|].
        by eapply Hch.
    + unfold alive. cbn. destruct (fst <$> occupied min cs) eqn:E; [|done].
      apply (f_equal length) in E. rewrite length_fmap, Hl in E. done.
  - intros c'. rewrite child_dense, child_sparse, <-occupied_lookup by done.
    destruct (index_of c' _) as [i|]; [|done]. rewrite !list_lookup_fmap.
    by destruct (occupied min cs !! i).
Qed.

(** ** Unsubscribe: removal from a sparse array *)

Lemma index_of_delete c c' l i :
  NoDup l -> l !! i = Some c -> c' <> c ->
  index_of c' (delete i l) =
    (fun j => if (j <? i)%nat then j else (j - 1)%nat) <$> index_of c' l.
Proof.
  revert i; induction l as [|x l IH]; intros i Hnd Hi Hne; [done|].
  apply NoDup_cons in Hnd as [Hx Hnd]. destruct i as [|i]; cbn in Hi.
  - injection Hi as ->. cbn [delete list_delete index_of]. rewrite decide_False by done.
    destruct (index_of c' l) as [j|]; cbn; [|done]. by rewrite Nat.sub_0_r.
  - change (delete (S i) (x :: l)) with (x :: delete i l). cbn [index_of].
    destruct (decide (x = c')); [done|]. rewrite (IH i) by done.
    destruct (index_of c' l) as [j|] eqn:Ej; [|done]. apply index_of_Some in Ej.
    assert (j <> i) by (intros ->; change (l !! i = Some c) in Hi; congruence).
    cbn [fmap option_fmap option_map]. f_equal. change (S j <? S i)%nat with (j <? i)%nat.
    destruct (Nat.ltb_spec j i); lia.
Qed.

Lemma sparse_delete_child r pf l cs c i c' :
  kind_ok (Sparse l) cs -> index_of c l = Some i ->
  child (Node r pf (Sparse (delete i l)) (delete i cs)) c' =
    if decide (c' = c) then None else child (Node r pf (Sparse l) cs) c'.
Proof.
  intros (Hnd&_&_&Hlen&_) Hi. pose proof (index_of_Some _ _ _ Hi) as Hl.
  rewrite !child_sparse. case_decide as Hc.
  - subst c'. replace (index_of c (delete i l)) with (@None nat); [done|].
    symmetry. apply index_of_None. intros (j & Hj)%list_elem_of_lookup.
    destruct (decide (j < i)%nat).
    + rewrite list_lookup_delete_lt in Hj by done. pose proof (NoDup_lookup _ _ _ _ Hnd Hj Hl). lia.
    + rewrite list_lookup_delete_ge in Hj by lia. pose proof (NoDup_lookup _ _ _ _ Hnd Hj Hl). lia.
  - rewrite (index_of_delete c) by done. destruct (index_of c' l) as [j|] eqn:Ej; [|done].
    cbn [fmap option_fmap option_map].
    apply index_of_Some in Ej. assert (j <> i) by (intros ->; congruence).
    destruct (Nat.ltb_spec j i).
    + by rewrite list_lookup_delete_lt.
    + rewrite list_lookup_delete_ge by lia. by replace (S (j - 1)) with j by lia.
Qed.

Lemma remove_sparse_spec n l c i ch p :
  wf n -> node_kind n = Sparse l -> index_of c l = Some i -> ptrs n !! i = Some (Some ch) ->
  exists slot, remove_sparse (set_child n i p) l i = Ret (slot, 1) /\ wf_slot slot /\
    (slot = None <-> refcount n = 0 /\ l = [c]) /\
    forall s, subs slot s = match strip (prefix n) s with
                            | Some (c' :: t) => if decide (c' = c) then 0 else subs (Some n) s
                            | _ => subs (Some n) s
                            end.
Proof.
  destruct n as [r pf k cs]. cbn [node_kind ptrs refcount prefix]. intros Hwf -> Hi Hp.
  destruct (wf_inv _ _ _ _ Hwf) as (Hr&Hpf&Hlp&Hk&Ha&Hch).
  unfold remove_sparse. cbn [set_child refcount prefix ptrs]. rewrite delete_insert_list.
  pose proof (index_of_Some _ _ _ Hi) as Hl.
  assert (Hchild := fun c' => sparse_delete_child r pf l cs c i c' Hk Hi).
  destruct Hk as (Hnd&Hbl&Hle&Hlen&Hf).
  assert (Hlend := length_delete l i ltac:(eauto)). pose proof (lookup_lt_Some _ _ _ Hl) as Hil.
  set (n2 := Node r pf (Sparse (delete i l)) (delete i cs)) in *.
  assert (Hsub : forall s, subs (Some n2) s = match strip pf s with
      | Some (c' :: t) => if decide (c' = c) then 0 else subs (Some (Node r pf (Sparse l) cs)) s
      | _ => subs (Some (Node r pf (Sparse l) cs)) s
      end).
  { intros s. rewrite (subs_lift (Node r pf (Sparse l) cs) n2 c (Some ch) None s) by done. done. }
  assert (Hcore2 : core n2).
  { unfold core. cbn [n2 refcount prefix node_kind ptrs]. split_and!; try done; try lia.
    - cbn. split_and!.
      + eapply sublist_NoDup; [done|apply sublist_delete].
      + by apply Forall_delete.
      + lia.
      + rewrite !length_delete by (rewrite ?lookup_lt_is_Some; eauto || lia). lia.
      + by apply Forall_delete.
    - intros j ch' Hj. destruct (decide (j < i)%nat).
      + rewrite list_lookup_delete_lt in Hj by done. by eapply Hch.
      + rewrite list_lookup_delete_ge in Hj by lia. by eapply Hch. }
  assert (Hcompact : alive n2 -> exists n', nn_node_compact n2 = Ret n' /\ wf n' /\
    forall s, subs (Some n') s = subs (Some n2) s).
  { intros. apply compact_spec. by apply wf_core. }
  assert (Hl1 : delete i l = [] <-> l = [c]).
  { split.
    - intros Hd. rewrite Hd in Hlend. destruct l as [|y [|z l]]; cbn in *; try lia.
      destruct i; [|done]. by injection Hl as ->.
    - intros ->. destruct i; done. }
  assert (Hkeep : alive n2 -> (refcount n2 = 0 -> delete i l <> []) -> exists slot,
    (n' ← nn_node_compact n2; Ret (Some n', 1)) = Ret (slot, 1) /\ wf_slot slot /\
    (slot = None <-> r = 0 /\ l = [c]) /\
    forall s, subs slot s = match strip pf s with
      | Some (c' :: t) => if decide (c' = c) then 0 else subs (Some (Node r pf (Sparse l) cs)) s
      | _ => subs (Some (Node r pf (Sparse l) cs)) s
      end).
  { intros Hal Hne. destruct (Hcompact Hal) as (n' & -> & Hwf' & Hs').
    exists (Some n'). split_and!; [done|by intros ? [= <-]| |intros s; by rewrite Hs', Hsub].
    split; [done|]. intros [Hr0 Hl']. exfalso. apply Hne; [done|]. by apply Hl1. }
  unfold nn_node_has_subscribers in *. cbn [refcount n2] in *.
  destruct (delete i l) as [|y l'] eqn:Ed; fold n2; [|by apply Hkeep].
  destruct (Z.eqb_spec r 0) as [Hr0|Hr0]; cbn [negb].
  - exists None. split_and!; [done|by intros ? [=]|split; [split; [done|by apply Hl1]|done]|].
    intros s. cbn [subs prefix]. destruct (strip pf s) as [[|c' t]|] eqn:Et;
      rewrite find_strip, Et; [done| |done].
    case_decide as Hd; [done|]. rewrite find_nil, child_sparse.
    rewrite (proj1 Hl1 eq_refl). cbn. by rewrite decide_False.
  - apply Hkeep; [|done]. by unfold alive.
Qed.

(** ** Unsubscribe: the traversal *)

Lemma subs_root_upd n n' v s :
  prefix n' = prefix n -> (forall t, find [] n' t = upd (find [] n) [] v t) ->
  subs (Some n') s = upd (subs (Some n)) (prefix n) v s.
Proof.
  intros Hp Hf. cbn [subs]. rewrite Hp. unfold upd. case_decide as Hs.
  - subst s. by rewrite find_strip, (proj2 (strip_self_iff _ _) eq_refl), Hf.
  - cbn [subs]. destruct (strip (prefix n) s) as [t|] eqn:Et; rewrite !(find_strip (prefix n)), Et; [|done].
    rewrite Hf. unfold upd. rewrite decide_False; [done|]. intros ->. by apply strip_self_iff in Et.
Qed.

Lemma found_spec n :
  wf n -> refcount n <> 0 ->
  exists slot, nn_node_unsubscribe_found (Some n) =
      Ret (slot, if decide (refcount n = 1) then 1 else 0) /\ wf_slot slot /\
    (slot = None <-> refcount n = 1 /\ node_kind n = Sparse []) /\
    forall s, subs slot s = upd (subs (Some n)) (prefix n) (refcount n - 1) s.
Proof.
  destruct n as [r pf k cs]. cbn [refcount prefix node_kind]. intros Hwf Hr0.
  destruct (wf_inv _ _ _ _ Hwf) as (Hr&Hpf&Hlp&Hk&Ha&Hch).
  unfold nn_node_unsubscribe_found, nn_node_has_subscribers. cbn [refcount].
  destruct (Z.eqb_spec r 0); [done|]. cbn [negb]. rewrite u32_small by lia.
  set (n1 := Node (r - 1) pf k cs).
  assert (Hs1 : forall s, subs (Some n1) s = upd (subs (Some (Node r pf k cs))) pf (r - 1) s).
  { intros s. apply (subs_root_upd (Node r pf k cs) n1); [done|]. intros t. unfold upd.
    by destruct t. }
  destruct (Z.eqb_spec (r - 1) 0) as [Hr1|Hr1].
  - rewrite decide_True by lia.
    assert (Hkeep : k <> Sparse [] -> exists slot,
      (n' ← nn_node_compact n1; Ret (Some n', 1)) = Ret (slot, 1) /\ wf_slot slot /\
      (slot = None <-> r = 1 /\ k = Sparse []) /\
      forall s, subs slot s = upd (subs (Some (Node r pf k cs))) pf (r - 1) s).
    { intros Hne. destruct (compact_spec n1) as (n' & -> & Hwf' & Hs').
      { constructor; try done; [lia|]. unfold alive. cbn. destruct k as [[|]|]; done. }
      exists (Some n'). split_and!; [done|by intros ? [= <-]|naive_solver|].
      intros s. by rewrite Hs'. }
    destruct k as [[|y l]|]; [|by apply Hkeep..].
    exists None. split_and!; [done|by intros ? [=]|naive_solver lia|].
    intros s. rewrite <-Hs1. cbn [subs]. unfold n1. cbn [prefix]. rewrite Hr1, find_strip.
    destruct (strip pf s) as [[|c t]|]; done.
  - rewrite decide_False by lia. exists (Some n1). split_and!; [done| |naive_solver lia|done].
    intros ? [= <-]. constructor; try done; [lia|]. unfold alive. cbn. destruct k as [[|]|]; done.
Qed.

(** The node keeps existing when a child of a dense array is removed. *)
Definition shrinks (n : node) : bool :=
  match node_kind n with
  | Dense _ _ nbr => negb (nbr >? Z.of_nat NN_TRIE_SPARSE_MAX + 1)
  | Sparse _ => false
  end.

Lemma prune_dense_spec n min max nbr c i ch :
  wf n -> node_kind n = Dense min max nbr -> nn_node_next n c = Some i ->
  ptrs n !! i = Some (Some ch) ->
  exists n', nn_node_unsubscribe_prune (set_child n i None) i c = Ret (Some n', 1) /\ wf n' /\
    prefix n' = prefix n /\ (refcount n' = if shrinks n then 0 else refcount n) /\
    forall c', child n' c' = if decide (c' = c) then None else child n c'.
Proof.
  intros Hwf Hkd Hi Hp. pose proof (wf_shape _ Hwf) as Hshape.
  assert (Hset := fun c' => child_set_child n c i None c' Hshape Hi).
  unfold shrinks. rewrite Hkd. destruct n as [r pf k cs]. cbn [node_kind ptrs] in *. subst k.
  destruct (wf_inv _ _ _ _ Hwf) as (Hr&Hpf&Hlp&(Hmin&Hmax&Hle&Hlen&Hnbr&Hbig)&_&Hch).
  unfold nn_node_unsubscribe_prune. cbn [set_child node_kind prefix refcount] in *.
  assert (Hc : i = Z.to_nat (c - min) /\ min <= c <= max).
  { unfold nn_node_next in Hi. cbn [node_kind] in Hi.
    destruct ((c <? min) || (c >? max)) eqn:E; [done|]. injection Hi as <-. lia. }
  destruct Hc as [-> Hc]. set (i := Z.to_nat (c - min)) in *.
  assert (Hocc : occupancy (<[i := None]> cs) = nbr - 1).
  { rewrite (occupancy_insert _ _ _ _ Hp). unfold occ. cbn. lia. }
  assert (Hch' : forall j ch', <[i := None]> cs !! j = Some (Some ch') -> wf ch').
  { intros j ch' Hj. apply list_lookup_insert_Some in Hj as [(_ & Hj & _)|[_ Hj]]; [done|by eapply Hch]. }
  destruct (nbr >? Z.of_nat NN_TRIE_SPARSE_MAX + 1) eqn:Eg; cbn [negb].
  - destruct (trim_dense_spec r pf min max nbr (<[i := None]> cs) c) as (Hwf' & Hp' & Hr' & Hc');
      try done; [by rewrite length_insert|lia|lia|].
    eexists. split; [reflexivity|]. split_and!; [done..|]. intros c'. by rewrite Hc', Hset.
  - destruct (dense_to_sparse_spec r pf min max nbr (<[i := None]> cs)) as (n' & -> & Hwf' & Hp' & Hr' & Hc');
      try done; [by rewrite length_insert|lia|].
    eexists. split; [reflexivity|]. split_and!; [done..|]. intros c'. by rewrite Hc', Hset.
Qed.

(** Removing the string empties the subtree. *)
Fixpoint vanishes (fuel : nat) (slot : option node) (data : list Z) : bool :=
  match fuel, slot with
  | S fuel, Some n =>
    match strip (prefix n) data, node_kind n with
    | Some [], Sparse [] => refcount n =? 1
    | Some (c :: rest), Sparse [x] =>
        (x =? c) && (refcount n =? 0) && vanishes fuel (child n c) rest
    | _, _ => false
    end
  | _, _ => false
  end.

(** The string whose node turns from a dense one into a sparse one. *)
Fixpoint reverted_at (fuel : nat) (slot : option node) (data : list Z) : option (list Z) :=
  match fuel, slot with
  | S fuel, Some n =>
    match strip (prefix n) data with
    | Some (c :: rest) =>
        if vanishes fuel (child n c) rest
        then if shrinks n then Some (prefix n) else None
        else (fun q => prefix n ++ c :: q) <$> reverted_at fuel (child n c) rest
    | _ => None
    end
  | _, _ => None
  end.

(** The string that [nn_trie_unsubscribe] uncounts as a side effect, if the
    subscription was the last one to [data]. *)
Definition reverted (t : nn_trie) (data : list Z) : option (list Z) :=
  reverted_at (S (length data)) t data.

Lemma vanishes_not_reverted fuel slot data :
  vanishes fuel slot data = true -> reverted_at fuel slot data = None.
Proof.
  revert slot data; induction fuel as [|fuel IH]; intros [n|] data; cbn; try done.
  destruct (strip (prefix n) data) as [[|c rest]|]; try done.
  unfold shrinks. destruct (node_kind n) as [[|x [|]]|]; try done.
  rewrite !andb_true_iff. intros [_ Hv]. by rewrite Hv.
Qed.

Lemma subs_range t data : wf_slot t -> 0 <= subs t data < 2 ^ 32.
Proof.
  destruct t as [n|]; [|cbn; lia]. intros Hwf. specialize (Hwf n eq_refl).
  cbn [subs]. revert n Hwf. generalize (@prefix) as pref.
  assert (H : forall s pf n, wf n -> 0 <= find pf n s < 2 ^ 32).
  { induction s as [|c s IH]; intros pf n Hn; cbn [find].
    - destruct pf; [|lia]. destruct n as [r pf k cs]. by apply wf_inv in Hn as [? _].
    - destruct pf as [|p pf].
      + destruct (child n c) as [ch|] eqn:E; [|lia]. apply IH. by eapply wf_child.
      + case_decide; [by apply IH|lia]. }
  intros. by apply H.
Qed.

Lemma subs_Some_strip n s :
  subs (Some n) s <> 0 -> exists t, s = prefix n ++ t /\ subs (Some n) s = find [] n t.
Proof.
  cbn [subs]. rewrite find_strip. destruct (strip (prefix n) s) as [t|] eqn:Et; [|done].
  intros _. exists t. split; [by apply strip_Some|done].
Qed.

Definition unsubscribed (fuel : nat) (slot : option node) (data : list Z) (slot' : option node) : Prop :=
  wf_slot slot' /\ (slot' = None <-> vanishes fuel slot data = true) /\
  forall s, subs slot' s =
    upd (forget (reverted_at fuel slot data) (subs slot)) data (subs slot data - 1) s.

(** The end of the subscription is reached at node [n]. *)
Lemma unsubscribed_found fuel n :
  wf n -> refcount n <> 0 ->
  exists slot', nn_node_unsubscribe_found (Some n) =
      Ret (slot', if decide (subs (Some n) (prefix n) = 1) then 1 else 0) /\
    unsubscribed (S fuel) (Some n) (prefix n) slot'.
Proof.
  intros Hwf Hr. destruct (found_spec n Hwf Hr) as (slot & -> & Hwf' & Hnone & Hs).
  assert (Hr0 : subs (Some n) (prefix n) = refcount n).
  { cbn [subs]. by rewrite find_strip, (proj2 (strip_self_iff _ _) eq_refl). }
  rewrite Hr0. eexists. split; [reflexivity|]. unfold unsubscribed. cbn [vanishes reverted_at forget].
  rewrite (proj2 (strip_self_iff _ _) eq_refl), Hr0. split_and!; [done| |done].
  rewrite Hnone. destruct (node_kind n) as [[|]|]; rewrite ?Z.eqb_eq; naive_solver.
Qed.

(** The subscription goes on in a child, which keeps existing. *)
Lemma unsubscribed_child fuel n c i ch ch' rest :
  wf n -> nn_node_next n c = Some i -> ptrs n !! i = Some (Some ch) ->
  unsubscribed fuel (Some ch) rest (Some ch') ->
  unsubscribed (S fuel) (Some n) (prefix n ++ c :: rest) (Some (set_child n i (Some ch'))).
Proof.
  intros Hwf Hi Hp (Hwfc & Hnone & Hs). pose proof (child_next _ _ _ _ Hi Hp) as Hch.
  assert (Hv : vanishes fuel (Some ch) rest = false).
  { destruct (vanishes fuel (Some ch) rest); [|done]. discriminate (proj2 Hnone eq_refl). }
  unfold unsubscribed. cbn [vanishes reverted_at]. rewrite strip_app, Hch, Hv.
  split_and!.
  - intros ? [= <-]. eapply wf_set_child; try done. by apply Hwfc.
  - split; [done|]. destruct (node_kind n) as [[|x [|]]|]; intros Hx; try done.
    by rewrite andb_false_r in Hx.
  - intros s. rewrite (upd_lift n _ c (Some ch) (Some ch') rest
      (subs (Some ch) rest - 1) (reverted_at fuel (Some ch) rest)); [| | | |done|done].
    + by rewrite (subs_below n c (Some ch)).
    + by destruct n.
    + by destruct n.
    + intros c'. apply child_set_child; [by apply wf_shape|done].
Qed.

(** The subscription goes on in a child, which is gone afterwards. *)
Lemma unsubscribed_prune fuel n c i ch rest :
  wf n -> nn_node_next n c = Some i -> ptrs n !! i = Some (Some ch) ->
  subs (Some ch) rest = 1 -> unsubscribed fuel (Some ch) rest None ->
  exists slot', nn_node_unsubscribe_prune (set_child n i None) i c = Ret (slot', 1) /\
    unsubscribed (S fuel) (Some n) (prefix n ++ c :: rest) slot'.
Proof.
  intros Hwf Hi Hp H1 (_ & Hnone & Hs). pose proof (child_next _ _ _ _ Hi Hp) as Hch.
  assert (Hv : vanishes fuel (Some ch) rest = true) by by apply Hnone.
  rewrite (vanishes_not_reverted _ _ _ Hv) in Hs. cbn [forget] in Hs.
  assert (Hzero : forall t, subs None t = upd (subs (Some ch)) rest 0 t).
  { intros t. rewrite Hs, H1. done. }
  unfold unsubscribed. cbn [vanishes reverted_at]. rewrite strip_app, Hch, Hv.
  rewrite (subs_below n c (Some ch)), H1 by done. change (1 - 1) with 0.
  assert (Hlift : forall n', prefix n' = prefix n -> refcount n' = refcount n ->
    (forall c', child n' c' = if decide (c' = c) then None else child n c') ->
    forall s, subs (Some n') s = upd (subs (Some n)) (prefix n ++ c :: rest) 0 s).
  { intros n' ??? s. by rewrite (upd_lift n n' c (Some ch) None rest 0 None). }
  destruct (node_kind n) as [l|min max nbr] eqn:Ek.
  - (* sparse *)
    unfold shrinks. rewrite Ek. unfold nn_node_unsubscribe_prune.
    assert (Hkd : node_kind (set_child n i None) = Sparse l) by by destruct n. rewrite Hkd.
    unfold nn_node_next in Hi. rewrite Ek in Hi.
    destruct (remove_sparse_spec n l c i ch None Hwf Ek Hi Hp) as (slot & -> & Hwf' & Hn' & Hs').
    eexists. split; [reflexivity|]. split_and!; [done| |].
    + rewrite Hn'. destruct l as [|x [|]]; [naive_solver..| |naive_solver].
      rewrite !andb_true_iff, !Z.eqb_eq. naive_solver.
    + intros s. rewrite Hs'. unfold upd, forget. case_decide as Hd.
      * subst s. by rewrite strip_app, decide_True.
      * destruct (strip (prefix n) s) as [[|c' t]|] eqn:Et; [done| |done]. case_decide; [|done].
        apply strip_Some in Et. subst s c'. rewrite (subs_below n c (Some ch)) by done.
        specialize (Hzero t). unfold upd in Hzero. cbn in Hzero.
        rewrite decide_False in Hzero by congruence. done.
  - (* dense *)
    destruct (prune_dense_spec n min max nbr c i ch Hwf Ek Hi Hp) as (n' & -> & Hwf' & Hp' & Hr' & Hc').
    eexists. split; [reflexivity|]. split_and!; [by intros ? [= <-]|done|].
    intros s. destruct (shrinks n) eqn:Esh; cbn [forget]; [|by apply Hlift].
    cbn [subs]. rewrite Hp', find_strip. unfold upd.
    destruct (strip (prefix n) s) as [t|] eqn:Et.
    2: { rewrite !decide_False; [by cbn [subs]; rewrite find_strip, Et| |].
         - intros ->. by rewrite (proj2 (strip_self_iff _ _) eq_refl) in Et.
         - intros ->. by rewrite strip_app in Et. }
    apply strip_Some in Et as ->. rewrite find_nil. destruct t as [|c' t].
    + rewrite Hr', decide_False by (intros ?%app_inv_head; done).
      by rewrite decide_True by apply app_nil_r.
    + rewrite Hc'. assert (prefix n ++ c' :: t <> prefix n).
      { intros Hx. rewrite <-(app_nil_r (prefix n)) in Hx at 2. by apply app_inv_head in Hx. }
      rewrite (decide_False (P := prefix n ++ c' :: t = prefix n)) by done.
      cbn [subs]. rewrite (find_strip (prefix n)), strip_app, find_nil. case_decide as Hd.
      * subst c'. rewrite Hzero, Hch. unfold upd. case_decide; case_decide; naive_solver.
      * rewrite decide_False; [done|]. intros ?%app_inv_head. congruence.
Qed.

Lemma unsubscribe_at_spec fuel slot data :
  wf_slot slot -> bytes data -> (length data < fuel)%nat -> subs slot data <> 0 ->
  exists slot', nn_node_unsubscribe fuel slot data =
      Ret (slot', if decide (subs slot data = 1) then 1 else 0) /\
    unsubscribed fuel slot data slot'.
Proof.
  revert slot data; induction fuel as [|fuel IH]; intros slot data Hwf Hb Hlen Hs; [lia|].
  destruct slot as [n|]; [|done]. specialize (Hwf n eq_refl).
  destruct (subs_Some_strip _ _ Hs) as (t & -> & Hf).
  destruct t as [|c rest].
  { rewrite app_nil_r in *. rewrite Hf in Hs. cbn [find] in Hs.
    destruct (unsubscribed_found fuel n Hwf Hs) as (slot' & Hfound & Hspec).
    exists slot'. split; [|done]. rewrite <-Hfound. cbn [nn_node_unsubscribe].
    destruct (prefix n) as [|p pf] eqn:Ep; [done|]. cbv beta iota. rewrite <-Ep.
    rewrite (proj2 (check_prefix_full _ _)) by (exists []; by rewrite app_nil_r).
    rewrite Nat.eqb_refl. cbn [negb]. by rewrite drop_all. }
  apply Forall_app in Hb as [_ Hb]. apply Forall_cons in Hb as [_ Hb].
  rewrite length_app in Hlen. cbn in Hlen.
  destruct (child_cases n c Hwf) as [[_ Hnone]|(i & p & Hi & Hnc & Hp & Hch)].
  { by rewrite (subs_below n c None) in Hs. }
  rewrite (subs_below n c p) in * by done. destruct p as [ch|]; [|done].
  destruct (IH (Some ch) rest) as (slot' & Hrun & Hspec); [|done|lia|done|].
  { intros ? [= <-]. by eapply wf_child. }
  cbn [nn_node_unsubscribe]. destruct (prefix n ++ c :: rest) as [|z zs] eqn:Ez; [by destruct (prefix n)|].
  cbv beta iota. rewrite <-Ez. clear z zs Ez.
  rewrite (proj2 (check_prefix_full _ _)) by (by exists (c :: rest)).
  rewrite Nat.eqb_refl. cbn [negb]. rewrite drop_app_length, Hi, Hnc. cbn [mbind outcome_bind].
  rewrite Hrun. cbn [mbind outcome_bind].
  destruct slot' as [ch'|].
  - exists (Some (set_child n i (Some ch'))). split; [by case_decide|]. by eapply unsubscribed_child.
  - assert (H1 : subs (Some ch) rest = 1).
    { destruct Hspec as (_ & _ & Hx). specialize (Hx rest). unfold upd in Hx.
      rewrite decide_True in Hx by done. change (subs None rest) with 0 in Hx. lia. }
    rewrite decide_True by done. change (1 =? 0) with false. cbv beta iota.
    by apply (unsubscribed_prune fuel n c i ch rest).
Qed.

(** C23.  Unsubscribing a string that is subscribed always succeeds: the result
    is 1 when its last subscription goes, else 0.  The new trie is well formed
    and counts one subscription less for the string; all other counts are
    unchanged, except that of the one node (if any) whose dense child array
    is converted back to a sparse array, which drops to 0. *)
Theorem unsubscribe_counts (t : nn_trie) (data : list Z) :
  wf_slot t -> bytes data -> subs t data <> 0 ->
  exists t', nn_trie_unsubscribe t data =
      Ret (t', if decide (subs t data = 1) then 1 else 0) /\ wf_slot t' /\
    forall s, subs t' s = upd (forget (reverted t data) (subs t)) data (subs t data - 1) s.
Proof.
  intros Hwf Hb Hs. unfold nn_trie_unsubscribe, reverted.
  destruct (unsubscribe_at_spec (S (length data)) t data Hwf Hb ltac:(lia) Hs)
    as (t' & -> & Hwf' & _ & Hs'). by exists t'.
Qed.

Lemma unsubscribe_counts_witness :
  exists t', nn_trie_unsubscribe trie_ab_ac [97; 98] = Ret (t', 1) /\ wf_slot t' /\
    forall s, subs t' s = upd (subs trie_ab_ac) [97; 98] 0 s.
Proof.
  apply (unsubscribe_counts trie_ab_ac [97; 98]).
  - apply wf_trie_ab_ac.
  - bytes_tac.
  - vm_compute. discriminate.
Defined.

(** ** Unsubscribing what is not subscribed *)

(** Unsubscribing the empty string does not look at the root's prefix: on
    a trie whose root carries a subscription it takes one subscription off the
    string [prefix n], however long that is, and reports success. *)
Theorem unsubscribe_empty_string (n : node) :
  wf n -> refcount n <> 0 ->
  exists t', nn_trie_unsubscribe (Some n) [] =
      Ret (t', if decide (refcount n = 1) then 1 else 0) /\ wf_slot t' /\
    forall s, subs t' s = upd (subs (Some n)) (prefix n) (refcount n - 1) s.
Proof.
  intros Hwf Hr. destruct (found_spec n Hwf Hr) as (t' & Hrun & Hwf' & _ & Hs). by exists t'.
Qed.

Lemma unsubscribe_empty_string_witness :
  exists t', nn_trie_unsubscribe (Some (Node 1 [97; 98; 99] (Sparse []) [])) [] = Ret (t', 1) /\
    wf_slot t' /\
    forall s, subs t' s = upd (subs (Some (Node 1 [97; 98; 99] (Sparse []) []))) [97; 98; 99] 0 s.
Proof.
  apply (unsubscribe_empty_string (Node 1 [97; 98; 99] (Sparse []) [])).
  - apply wf_leaf; [lia|bytes_tac|unfold NN_TRIE_PREFIX_MAX; cbn; lia].
  - discriminate.
Defined.

(** Unsubscribing a character that is a hole of a dense node with nine
    children is undefined behaviour: the failed removal is taken for a
    successful one, and the nine children are copied into the eight slots of a
    new sparse node.  On the null pointer of an empty trie every non-empty
    string is undefined. *)
Theorem unsubscribe_hole (n : node) (min max nbr c : Z) :
  wf n -> node_kind n = Dense min max nbr -> nbr = 9 -> min <= c <= max -> child n c = None ->
  nn_trie_unsubscribe (Some n) (prefix n ++ [c]) = Undef /\
  nn_trie_unsubscribe nn_trie_init (prefix n ++ [c]) = Undef.
Proof.
  intros Hwf Hk -> Hc Hnone. unfold nn_trie_unsubscribe. cbn [nn_node_unsubscribe].
  destruct (prefix n ++ [c]) as [|z zs] eqn:Ez; [by destruct (prefix n)|].
  cbv beta iota. rewrite <-Ez. split; [|done].
  assert (Hlen : exists k, length (prefix n ++ [c]) = S k) by (rewrite Ez; by eexists).
  destruct Hlen as [k ->]. clear z zs Ez.
  rewrite (proj2 (check_prefix_full _ _)) by (by exists [c]).
  rewrite Nat.eqb_refl. cbn [negb]. rewrite drop_app_length.
  destruct (child_cases n c Hwf) as [[Hi _]|(i & p & Hi & Hnc & Hp & Hch)].
  { unfold nn_node_next in Hi. rewrite Hk in Hi.
    destruct ((c <? min) || (c >? max)) eqn:E; [lia|done]. }
  rewrite Hi, Hnc. rewrite Hnone in Hch. subst p. cbn.
  destruct n as [r pf k' cs]. cbn [node_kind ptrs] in *. subst k'.
  destruct (wf_inv _ _ _ _ Hwf) as (_&_&_&Hkd&_&_). cbn in Hkd.
  destruct Hkd as (_&_&_&Hlen&Hocc&_). unfold nn_node_unsubscribe_prune.
  cbn [set_child node_kind]. rewrite (list_insert_id _ _ _ Hp).
  change (9 >? Z.of_nat NN_TRIE_SPARSE_MAX + 1) with false. cbv iota.
  unfold dense_to_sparse. cbn [ptrs].
  pose proof (occupied_length min cs) as Hol.
  destruct (Nat.ltb_spec NN_TRIE_SPARSE_MAX (length (occupied min cs))) as [_|Hle]; [done|].
  unfold NN_TRIE_SPARSE_MAX in Hle. lia.
Qed.

(** Nine one-character subscriptions, "a" to "j" without "e". *)
Definition trie_hole : node :=
  let leaf := Some (Node 1 [] (Sparse []) []) in
  Node 0 [] (Dense 97 106 9) (<[4%nat := None]> (replicate 10 leaf)).

Example trie_hole_built :
  foldr (fun c t => t ≫= fun t => fst <$> nn_trie_subscribe t [c]) (Ret nn_trie_init)
    [106; 105; 104; 103; 102; 100; 99; 98; 97] = Ret (Some trie_hole).
Proof. vm_compute. reflexivity. Qed.

Lemma wf_trie_hole : wf trie_hole.
Proof.
  apply wf_core. split; [|done].
  assert (Hleaf : wf (Node 1 [] (Sparse []) [])) by (apply wf_leaf; [lia|bytes_tac|cbn; lia]).
  unfold core. cbn [trie_hole refcount prefix node_kind ptrs]. split_and!; try lia.
  - bytes_tac.
  - unfold NN_TRIE_PREFIX_MAX. cbn. lia.
  - unfold kind_ok, is_byte, NN_TRIE_SPARSE_MAX. split_and!; try lia; reflexivity.
  - intros i ch Hi. do 10 (destruct i as [|i]; [cbn in Hi; by simplify_eq|]). done.
Qed.

Lemma unsubscribe_hole_witness :
  nn_trie_unsubscribe (Some trie_hole) [101] = Undef /\ nn_trie_unsubscribe nn_trie_init [101] = Undef.
Proof.
  apply (unsubscribe_hole trie_hole 97 106 9 101); [apply wf_trie_hole|reflexivity..|lia|reflexivity].
Defined.
