(* ===== verification/Slots.v ===== *)
(** * Slots: an array of intrusive lists

    The hash table (src/utils/hash.c) and the priority lists
    (src/protocols/utils/priolist.c) keep an array of [nn_list]s, each item in
    at most one of them.  [slots_rep h Ls xss] says that the list headers [Ls]
    represent the sequences [xss], pairwise disjoint; insertion and removal in
    one list of the array leave the others alone. *)

From stdpp Require Import base gmap list.
From Stdlib Require Import ZArith Lia.
From S2P Require Import Prelude ListHeap.

Open Scope Z_scope.

Definition slots_rep (h : heap) (Ls : list nn_list) (xss : list (list loc)) : Prop :=
  Forall2 (list_rep h) Ls xss /\ NoDup (concat xss).

Section concat.
Context {A : Type}.
Implicit Types (xs ys : list A) (xss : list (list A)).

Lemma concat_delete xss i xs :
  xss !! i = Some xs -> concat xss ≡ₚ xs ++ concat (delete i xss).
Proof.
  revert i; induction xss as [|y xss IH]; intros [|i]; [done..| |].
  - by intros [= ->].
  - intros Hi. change (delete (S i) (y :: xss)) with (y :: delete i xss). cbn [concat].
    rewrite (IH i Hi). rewrite !app_assoc. apply Permutation_app_tail, Permutation_app_comm.
Qed.

Lemma concat_insert xss i xs ys :
  xss !! i = Some xs -> concat (<[i := ys]> xss) ≡ₚ ys ++ concat (delete i xss).
Proof.
  intros Hi. rewrite (concat_delete (<[i := ys]> xss) i ys).
  - by rewrite delete_insert_list.
  - apply list_lookup_insert_eq. by eapply lookup_lt_Some.
Qed.

Lemma elem_of_concat xss x : (x ∈ concat xss) <-> exists i xs, xss !! i = Some xs /\ x ∈ xs.
Proof.
  rewrite (list_elem_of_In (concat xss)), in_concat. split.
  - intros (xs & Hxs%list_elem_of_In & Hx%list_elem_of_In).
    apply list_elem_of_lookup in Hxs as [i Hi]. by exists i, xs.
  - intros (i & xs & Hi & Hx). exists xs. rewrite <-!list_elem_of_In. split; [|done].
    by eapply list_elem_of_lookup_2.
Qed.

Lemma concat_replicate_nil n : concat (replicate n []) = @nil A.
Proof. by induction n as [|n IH]; [|exact IH]. Qed.

(** An element of a list of pairwise disjoint sequences is in one of them. *)
Lemma concat_unique xss i j xs ys x :
  NoDup (concat xss) -> xss !! i = Some xs -> xss !! j = Some ys ->
  x ∈ xs -> x ∈ ys -> i = j.
Proof.
  intros Hnd Hi Hj Hx Hy. destruct (decide (i = j)) as [|Hne]; [done|exfalso].
  rewrite (concat_delete _ _ _ Hi) in Hnd. apply NoDup_app in Hnd as (_ & Hd & _).
  apply (Hd x Hx). apply elem_of_concat. destruct (decide (j < i)%nat).
  - exists j, ys. by rewrite list_lookup_delete_lt.
  - exists (j - 1)%nat, ys. rewrite list_lookup_delete_ge by lia.
    by replace (S (j - 1)) with j by lia.
Qed.
End concat.

Section slots.
Context (h : heap) (Ls : list nn_list) (xss : list (list loc)).
Hypothesis (Hrep : slots_rep h Ls xss).

Lemma slots_length : length Ls = length xss.
Proof. destruct Hrep as [H _]. by apply Forall2_length in H. Qed.

Lemma slots_lookup i xs : xss !! i = Some xs -> exists L, Ls !! i = Some L /\ list_rep h L xs.
Proof. destruct Hrep as [H _]. intros Hi. by destruct (Forall2_lookup_r _ _ _ _ _ H Hi) as (L & ? & ?); exists L. Qed.

Lemma slots_lookup_l i L : Ls !! i = Some L -> exists xs, xss !! i = Some xs /\ list_rep h L xs.
Proof. destruct Hrep as [H _]. intros Hi. by destruct (Forall2_lookup_l _ _ _ _ _ H Hi) as (xs & ? & ?); exists xs. Qed.

Lemma slots_detached x : detached h x -> x ∉ concat xss.
Proof.
  intros Hd (i & xs & Hi & Hx)%elem_of_concat. destruct (slots_lookup _ _ Hi) as (L & _ & HL).
  by eapply detached_not_in.
Qed.

(** Replacing list [i] when nothing but its items (and [zs]) changed. *)
Lemma slots_update h' i xs ys L' zs :
  xss !! i = Some xs -> list_rep h' L' ys -> frame (zs ++ xs) h h' ->
  zs ## concat xss -> NoDup (ys ++ concat (delete i xss)) ->
  slots_rep h' (<[i := L']> Ls) (<[i := ys]> xss).
Proof.
  intros Hi HL Hf Hz Hnd. destruct Hrep as [HF Hnd0]. split.
  - apply Forall2_same_length_lookup_2; [rewrite !length_insert; by apply slots_length|].
    intros j M zs' HM Hj. destruct (decide (j = i)) as [->|Hne].
    + apply list_lookup_insert_Some in HM as [(_ & <- & _)|[? _]]; [|done].
      apply list_lookup_insert_Some in Hj as [(_ & <- & _)|[? _]]; [|done]. done.
    + rewrite list_lookup_insert_ne in HM by done. rewrite list_lookup_insert_ne in Hj by done.
      destruct (slots_lookup _ _ Hj) as (M0 & HM0 & Hl). rewrite HM in HM0. injection HM0 as <-.
      eapply list_rep_agree; [|done].
      intros y Hy. apply Hf. intros [Hyz|Hyx]%elem_of_app.
      * apply (Hz y Hyz), elem_of_concat. by exists j, zs'.
      * apply Hne. by eapply (concat_unique xss).
  - by rewrite (concat_insert _ _ _ _ Hi).
Qed.

Lemma slots_insert i l r L x :
  xss !! i = Some (l ++ r) -> Ls !! i = Some L -> detached h x ->
  exists h' L', nn_list_insert h L x (hd_or Null (At <$> r)) = Ret (h', L') /\
    slots_rep h' (<[i := L']> Ls) (<[i := l ++ x :: r]> xss) /\ frame (x :: l ++ r) h h'.
Proof.
  intros Hi HL Hx. destruct (slots_lookup _ _ Hi) as (L0 & HL0 & Hl).
  rewrite HL in HL0. injection HL0 as <-. pose proof (slots_detached _ Hx) as Hxc.
  destruct (insert_spec h L l r x Hl Hx) as (h' & L' & E & Hl' & Hf).
  exists h', L'. split_and!; [done| |done].
  apply (slots_update h' i (l ++ r) (l ++ x :: r) L' [x] Hi Hl' Hf); [set_solver|].
  destruct Hrep as [_ Hnd]. rewrite (concat_delete _ _ _ Hi) in Hnd, Hxc.
  rewrite <-Permutation_middle. cbn. by apply NoDup_cons.
Qed.

Lemma slots_erase i l x r L :
  xss !! i = Some (l ++ x :: r) -> Ls !! i = Some L ->
  exists h' L', nn_list_erase h L x = Ret (h', L', hd_or Null (At <$> r)) /\
    slots_rep h' (<[i := L']> Ls) (<[i := l ++ r]> xss) /\ detached h' x /\
    frame (x :: l ++ r) h h'.
Proof.
  intros Hi HL. destruct (slots_lookup _ _ Hi) as (L0 & HL0 & Hl).
  rewrite HL in HL0. injection HL0 as <-.
  destruct (erase_spec h L l x r Hl) as (h' & L' & E & Hl' & Hd & Hf).
  exists h', L'. split_and!; [done| |done..].
  apply (slots_update h' i (l ++ x :: r) (l ++ r) L' [] Hi Hl').
  - eapply frame_weaken; [done|]. set_solver.
  - set_solver.
  - destruct Hrep as [_ Hnd]. rewrite (concat_delete _ _ _ Hi), <-Permutation_middle in Hnd.
    by apply NoDup_cons in Hnd as [_ ?].
Qed.
End slots.

Lemma slots_init h n : slots_rep h (replicate n nn_list_init) (replicate n []).
Proof.
  split.
  - apply Forall2_replicate. by apply list_rep_nil.
  - rewrite concat_replicate_nil. apply NoDup_nil_2.
Qed.

Lemma slots_agree h h' Ls xss :
  agree (concat xss) h h' -> slots_rep h Ls xss -> slots_rep h' Ls xss.
Proof.
  intros Ha Hrep. split; [|by destruct Hrep]. apply Forall2_same_length_lookup_2.
  { by eapply slots_length. }
  intros i L xs HL Hi. destruct (slots_lookup _ _ _ Hrep _ _ Hi) as (L0 & HL0 & Hl).
  rewrite HL in HL0. injection HL0 as <-. eapply list_rep_agree; [|done].
  intros y Hy. apply Ha, elem_of_concat. by exists i, xs.
Qed.
