(* ===== verification/Hash.v ===== *)
(** * Hash: the hash table of intrusive items (src/utils/hash.c)

    A table is an array of lists.  Its items live in the list heap; the [key]
    field of an item is kept in a second map.  The loops over a slot are
    bounded by the number of allocated items, which always suffices.
    [hash_rep] relates a table to the finite map from keys to items it holds. *)

From stdpp Require Import base gmap list sets.
From Stdlib Require Import ZArith Lia.
From S2P Require Import Prelude ListHeap Slots.

Open Scope Z_scope.

Abbreviation keymap := (gmap positive Z).

Record nn_hash : Type := Hash { slots : Z; items : Z; array : list nn_list }.

Definition NN_HASH_INITIAL_SLOTS : Z := 32.

Definition nn_hash_key (key : Z) : Z :=
  let key := Z.lxor (Z.lxor key 61) (Z.shiftr key 16) in
  let key := u32 (key + u32 (Z.shiftl key 3)) in
  let key := Z.lxor key (Z.shiftr key 4) in
  let key := u32 (key * 0x27d4eb2d) in
  Z.lxor key (Z.shiftr key 15).

Definition nn_hash_init : nn_hash :=
  Hash NN_HASH_INITIAL_SLOTS 0 (replicate (Z.to_nat NN_HASH_INITIAL_SLOTS) nn_list_init).

Fixpoint term_slots (array : list nn_list) : outcome unit :=
  match array with
  | [] => Ret tt
  | L :: array => _ ← nn_list_term L; term_slots array
  end.

Definition nn_hash_term (self : nn_hash) : outcome unit := term_slots (array self).

(** The inner loop of the rehashing: empties one slot of the old array. *)
Fixpoint move_slot (fuel : nat) (h : heap) (ks : keymap) (old : nn_list) (slots : Z)
    (arr : list nn_list) : outcome (heap * nn_list * list nn_list) :=
  match fuel with
  | O => NoFuel
  | S fuel =>
    if nn_list_empty old then Ret (h, old, arr) else
    match nn_list_begin old with
    | At hitm =>
        '(h, old, _) ← nn_list_erase h old hitm;
        key ← deref ks hitm;
        let newslot := nn_hash_key key mod slots in
        L ← nth_c arr newslot;
        '(h, L) ← nn_list_insert h L hitm (nn_list_end L);
        arr ← upd_c arr newslot L;
        move_slot fuel h ks old slots arr
    | _ => Undef
    end
  end.

Fixpoint move_slots (h : heap) (ks : keymap) (oldarray : list nn_list) (slots : Z)
    (arr : list nn_list) : outcome (heap * list nn_list) :=
  match oldarray with
  | [] => Ret (h, arr)
  | old :: oldarray =>
      '(h, old, arr) ← move_slot (S (size h)) h ks old slots arr;
      _ ← nn_list_term old;
      move_slots h ks oldarray slots arr
  end.

Definition nn_hash_rehash (h : heap) (ks : keymap) (self : nn_hash) : outcome (heap * nn_hash) :=
  let slots' := u32 (slots self * 2) in
  '(h, arr) ← move_slots h ks (array self) slots' (replicate (Z.to_nat slots') nn_list_init);
  Ret (h, Hash slots' (items self) arr).

(** The loop over a slot: the first item with the key, or the end. *)
Fixpoint find_item (fuel : nat) (h : heap) (ks : keymap) (L : nn_list) (it : link) (key : Z)
    : outcome link :=
  match fuel with
  | O => NoFuel
  | S fuel =>
    match it with
    | Null => Ret Null
    | NotIn => Undef
    | At p =>
        k ← deref ks p;
        if k =? key then Ret (At p) else
        it ← nn_list_next h L it;
        find_item fuel h ks L it key
    end
  end.

(** The table is getting full. *)
Definition overloaded (self : nn_hash) : bool :=
  (u32 (items self * 2) >? slots self) && (slots self <? 0x80000000).

Definition nn_hash_insert (h : heap) (ks : keymap) (self : nn_hash) (key : Z) (x : loc)
    : outcome (heap * keymap * nn_hash) :=
  let i := nn_hash_key key mod slots self in
  L ← nth_c (array self) i;
  it ← find_item (S (size h)) h ks L (nn_list_begin L) key;
  _ ← check (is_null it);
  let ks := <[x := key]> ks in
  '(h, L) ← nn_list_insert h L x (nn_list_end L);
  arr ← upd_c (array self) i L;
  let self := Hash (slots self) (u32 (items self + 1)) arr in
  if overloaded self then '(h, self) ← nn_hash_rehash h ks self; Ret (h, ks, self)
  else Ret (h, ks, self).

Definition nn_hash_erase (h : heap) (ks : keymap) (self : nn_hash) (x : loc)
    : outcome (heap * nn_hash) :=
  key ← deref ks x;
  let slot := nn_hash_key key mod slots self in
  L ← nth_c (array self) slot;
  '(h, L, _) ← nn_list_erase h L x;
  arr ← upd_c (array self) slot L;
  Ret (h, Hash (slots self) (u32 (items self - 1)) arr).

Definition nn_hash_get (h : heap) (ks : keymap) (self : nn_hash) (key : Z) : outcome link :=
  let slot := nn_hash_key key mod slots self in
  L ← nth_c (array self) slot;
  find_item (S (size h)) h ks L (nn_list_begin L) key.

Definition nn_hash_item_init : item := nn_list_item_init.

Definition nn_hash_item_term (h : heap) (self : loc) : outcome unit := nn_list_item_term h self.

(** ** Representation *)

Definition slot_of (n : Z) (key : Z) : nat := Z.to_nat (nn_hash_key key mod n).

(** Every item of slot [i] hashes to [i]. *)
Definition placed (ks : keymap) (n : Z) (xss : list (list loc)) : Prop :=
  forall i xs x, xss !! i = Some xs -> x ∈ xs ->
    exists key, ks !! x = Some key /\ i = slot_of n key.

(** The items [xs] with their keys are the entries of [m]. *)
Definition entries (ks : keymap) (xs : list loc) (m : gmap Z loc) : Prop :=
  forall key x, m !! key = Some x <-> (x ∈ xs) /\ ks !! x = Some key.

Definition hash_rep (h : heap) (ks : keymap) (self : nn_hash) (m : gmap Z loc) : Prop :=
  exists xss, slots_rep h (array self) xss /\
    0 < slots self < 2 ^ 32 /\ Z.of_nat (length (array self)) = slots self /\
    items self = Z.of_nat (size m) /\
    placed ks (slots self) xss /\ entries ks (concat xss) m.

Lemma slot_of_lt n key : 0 < n -> (slot_of n key < Z.to_nat n)%nat.
Proof. intros. unfold slot_of. pose proof (Z.mod_pos_bound (nn_hash_key key) n). lia. Qed.

Lemma nth_slot {A} (l : list A) n key a :
  0 < n -> l !! slot_of n key = Some a -> nth_c l (nn_hash_key key mod n) = Ret a.
Proof. intros. apply nth_c_Z; [by apply Z.mod_pos_bound|done]. Qed.

Lemma upd_slot {A} (l : list A) n key a :
  0 < n -> Z.of_nat (length l) = n ->
  upd_c l (nn_hash_key key mod n) a = Ret (<[slot_of n key := a]> l).
Proof. intros ? <-. apply upd_c_ok. by apply Z.mod_pos_bound. Qed.

Lemma find_item_spec fuel h ks L l r key :
  list_rep h L (l ++ r) -> (length r < fuel)%nat ->
  (forall x, x ∈ r -> exists k, ks !! x = Some k) ->
  exists it, find_item fuel h ks L (hd_or Null (At <$> r)) key = Ret it /\
    match it with
    | At x => (x ∈ r) /\ ks !! x = Some key
    | Null => forall x, x ∈ r -> ks !! x <> Some key
    | NotIn => False
    end.
Proof.
  revert l r; induction fuel as [|fuel IH]; intros l r Hl Hlen Hks; [lia|].
  destruct r as [|x r]; cbn [find_item hd_or fmap list_fmap].
  { exists Null. split; [done|]. set_solver. }
  destruct (Hks x ltac:(set_solver)) as [k Hk]. load Hk.
  destruct (Z.eqb_spec k key) as [->|Hne].
  { exists (At x). split; [done|]. set_solver. }
  rewrite (next_spec _ _ _ _ _ Hl). cbn [mbind outcome_bind].
  destruct (IH (l ++ [x]) r) as (it & -> & Hit).
  { by rewrite <-app_assoc. } { cbn in Hlen. lia. } { set_solver. }
  exists it. split; [done|]. destruct it as [| |y]; [|done|set_solver].
  intros z [->|Hz]%elem_of_cons; [congruence|by apply Hit].
Qed.

(** ** Rehashing *)

Lemma placed_insert ks n xss i xs x key :
  placed ks n xss -> xss !! i = Some xs -> ks !! x = Some key -> i = slot_of n key ->
  placed ks n (<[i := xs ++ [x]]> xss).
Proof.
  intros Hp Hi Hk -> j ys y Hj Hy. apply list_lookup_insert_Some in Hj as [(<- & <- & _)|[_ Hj]].
  - apply elem_of_app in Hy as [Hy|Hy%list_elem_of_singleton]; [by eapply Hp|].
    subst y. by exists key.
  - by eapply Hp.
Qed.

Lemma move_slot_spec fuel h ks old rest n arr xs xss yss :
  0 < n -> Z.of_nat (length arr) = n -> (length xs < fuel)%nat ->
  (forall x, x ∈ xs -> exists k, ks !! x = Some k) ->
  slots_rep h (old :: rest ++ arr) (xs :: xss ++ yss) -> length rest = length xss ->
  placed ks n yss ->
  exists h' arr' yss', move_slot fuel h ks old n arr = Ret (h', nn_list_init, arr') /\
    slots_rep h' (rest ++ arr') (xss ++ yss') /\ placed ks n yss' /\
    Z.of_nat (length arr') = n /\ concat yss' ≡ₚ xs ++ concat yss /\
    (forall z, z ∉ concat (xs :: xss ++ yss) -> h' !! z = h !! z).
Proof.
  intros Hn. revert h old arr xs yss.
  induction fuel as [|fuel IH]; intros h old arr xs yss Hlen Hfuel Hks Hrep Hlr Hpl; [lia|].
  destruct (slots_lookup _ _ _ Hrep 0%nat xs eq_refl) as (L & [= <-] & Hl).
  cbn [move_slot]. rewrite (empty_spec _ _ _ Hl), (begin_spec _ _ _ Hl).
  destruct xs as [|x xs].
  { cbn. exists h, arr, yss. apply list_rep_nil in Hl as ->. split_and!; try done.
    split; [|destruct Hrep as [_ Hnd]; done]. destruct Hrep as [HF _].
    by apply Forall2_cons in HF as [_ HF]. }
  rewrite bool_decide_eq_false_2 by done. cbn [hd_or fmap list_fmap].
  destruct (slots_erase _ _ _ Hrep 0%nat [] x xs old eq_refl eq_refl)
    as (h1 & L1 & -> & Hrep1 & Hd1 & Hf1). cbn in Hrep1.
  cbn [mbind outcome_bind]. destruct (Hks x ltac:(set_solver)) as [key Hk]. load Hk.
  pose proof (slot_of_lt n key Hn) as Hslot.
  assert (Hly : length yss = length arr).
  { apply slots_length in Hrep1. cbn in Hrep1. rewrite !length_app in Hrep1. lia. }
  destruct (lookup_lt_is_Some_2 arr (slot_of n key)) as [A HA]; [lia|].
  destruct (lookup_lt_is_Some_2 yss (slot_of n key)) as [ys Hys]; [lia|].
  rewrite (nth_slot _ _ _ _ Hn HA). cbn [mbind outcome_bind].
  destruct (slots_insert _ _ _ Hrep1 (S (length rest + slot_of n key)) ys [] A x)
    as (h2 & A' & HE & Hrep2 & Hf2); [| |done|].
  { change ((xss ++ yss) !! (length rest + slot_of n key)%nat = Some (ys ++ [])).
    rewrite Hlr, lookup_app_r, app_nil_r by lia. by rewrite Nat.add_sub' by lia. }
  { change ((rest ++ arr) !! (length rest + slot_of n key)%nat = Some A).
    rewrite lookup_app_r by lia. by rewrite Nat.add_sub'. }
  cbn in HE. change (nn_list_end A) with Null. rewrite HE. cbn [mbind outcome_bind].
  rewrite (upd_slot _ _ _ _ Hn Hlen). cbn [mbind outcome_bind].
  change (slots_rep h2 (L1 :: <[(length rest + slot_of n key)%nat := A']> (rest ++ arr))
    (xs :: <[(length rest + slot_of n key)%nat := ys ++ [x]]> (xss ++ yss))) in Hrep2.
  rewrite insert_app_r in Hrep2. rewrite Hlr, insert_app_r in Hrep2.
  destruct (IH h2 L1 (<[slot_of n key := A']> arr) xs (<[slot_of n key := ys ++ [x]]> yss))
    as (h' & arr' & yss' & -> & Hrep' & Hpl' & Hlen' & Hperm & Hframe); try done.
  { by rewrite length_insert. } { cbn in Hfuel. lia. } { set_solver. }
  { by eapply placed_insert. }
  exists h', arr', yss'. split_and!; try done.
  - rewrite Hperm, (concat_insert _ _ _ _ Hys), (concat_delete _ _ _ Hys).
    rewrite <-Permutation_middle. cbn. rewrite app_assoc. solve_Permutation.
  - intros z Hz. cbn [concat] in Hz. rewrite concat_app, (concat_delete _ _ _ Hys) in Hz.
    rewrite Hframe, Hf2, Hf1; [done|set_solver..|].
    cbn [concat]. rewrite concat_app, (concat_insert _ _ _ _ Hys). set_solver.
Qed.

Lemma placed_replicate ks n k : placed ks n (replicate k []).
Proof. intros i xs x [-> _]%lookup_replicate Hx. by apply elem_of_nil in Hx. Qed.

Lemma move_slots_spec h ks olds n arr xss yss :
  0 < n -> Z.of_nat (length arr) = n ->
  (forall x, x ∈ concat xss -> exists k, ks !! x = Some k) ->
  slots_rep h (olds ++ arr) (xss ++ yss) -> length olds = length xss ->
  placed ks n yss ->
  exists h' arr' yss', move_slots h ks olds n arr = Ret (h', arr') /\
    slots_rep h' arr' yss' /\ placed ks n yss' /\ Z.of_nat (length arr') = n /\
    concat yss' ≡ₚ concat xss ++ concat yss /\
    (forall z, z ∉ concat (xss ++ yss) -> h' !! z = h !! z).
Proof.
  intros Hn. revert h arr xss yss.
  induction olds as [|old olds IH]; intros h arr [|xs xss] yss Hlen Hks Hrep Hl Hpl; try done.
  { by exists h, arr, yss. }
  cbn [move_slots].
  destruct (slots_lookup _ _ _ Hrep 0%nat xs eq_refl) as (L & [= <-] & HL).
  destruct (move_slot_spec (S (size h)) h ks old olds n arr xs xss yss)
    as (h1 & arr1 & yss1 & -> & Hrep1 & Hpl1 & Hlen1 & Hperm1 & Hf1); try done.
  { apply list_rep_size in HL. lia. } { set_solver. } { by injection Hl. }
  cbn [mbind outcome_bind]. change (nn_list_term nn_list_init) with (Ret tt). cbn [mbind outcome_bind].
  destruct (IH h1 arr1 xss yss1)
    as (h' & arr' & yss' & -> & Hrep' & Hpl' & Hlen' & Hperm & Hframe); try done.
  { set_solver. } { by injection Hl. }
  exists h', arr', yss'. split_and!; try done.
  - rewrite Hperm, Hperm1. cbn [concat]. solve_Permutation.
  - intros z Hz. rewrite Hframe, Hf1; [done|done|].
    cbn [concat app] in Hz. rewrite concat_app in Hz |- *. rewrite Hperm1. set_solver.
Qed.

Lemma entries_perm ks xs ys m : xs ≡ₚ ys -> entries ks xs m -> entries ks ys m.
Proof. intros Hp He key x. by rewrite <-Hp. Qed.

Lemma rehash_spec h ks self m :
  hash_rep h ks self m -> slots self < 2 ^ 31 ->
  exists h' self', nn_hash_rehash h ks self = Ret (h', self') /\ hash_rep h' ks self' m /\
    (forall z, detached h z -> detached h' z).
Proof.
  intros (xss & Hrep & Hs & Hlen & Hi & Hpl & He) Hlt. unfold nn_hash_rehash.
  rewrite u32_small by lia. set (n := slots self * 2).
  pose proof (slots_length _ _ _ Hrep) as Hl.
  destruct (move_slots_spec h ks (array self) n (replicate (Z.to_nat n) nn_list_init) xss
    (replicate (Z.to_nat n) [])) as (h' & arr' & yss' & -> & Hrep' & Hpl' & Hlen' & Hperm & Hf).
  { lia. } { rewrite length_replicate. lia. }
  { intros x (i & xs & Hxs & Hx)%elem_of_concat. destruct (Hpl _ _ _ Hxs Hx) as (k & ? & _). by exists k. }
  { destruct Hrep as [HF Hnd]. destruct (slots_init h (Z.to_nat n)) as [HF0 _]. split.
    - by apply Forall2_app.
    - rewrite concat_app, concat_replicate_nil, app_nil_r. done. }
  { done. } { apply placed_replicate. }
  rewrite concat_replicate_nil, app_nil_r in Hperm.
  cbn [mbind outcome_bind]. eexists _, _. split; [reflexivity|]. split.
  - exists yss'. cbn [array slots items]. split_and!; try done; try lia.
    by eapply entries_perm.
  - intros z Hz. unfold detached. rewrite Hf; [done|].
    rewrite concat_app, concat_replicate_nil, app_nil_r. by eapply slots_detached.
Qed.

(** ** The operations *)

(** The slot of a key, and the search in it. *)
Lemma slot_spec h ks self m key :
  hash_rep h ks self m ->
  exists xss L xs, slots_rep h (array self) xss /\ placed ks (slots self) xss /\
    entries ks (concat xss) m /\
    array self !! slot_of (slots self) key = Some L /\
    xss !! slot_of (slots self) key = Some xs /\ list_rep h L xs /\
    nth_c (array self) (nn_hash_key key mod slots self) = Ret L /\
    find_item (S (size h)) h ks L (nn_list_begin L) key = Ret (from_option At Null (m !! key)).
Proof.
  intros (xss & Hrep & Hs & Hlen & Hi & Hpl & He).
  pose proof (slot_of_lt (slots self) key ltac:(lia)) as Hslot.
  destruct (lookup_lt_is_Some_2 (array self) (slot_of (slots self) key)) as [L HL]; [lia|].
  destruct (slots_lookup_l _ _ _ Hrep _ _ HL) as (xs & Hxs & Hl).
  exists xss, L, xs. split_and!; try done; [apply nth_slot; [lia|done]|].
  rewrite (begin_spec _ _ _ Hl).
  destruct (find_item_spec (S (size h)) h ks L [] xs key Hl) as (it & -> & Hit).
  { apply list_rep_size in Hl. lia. }
  { intros x Hx. destruct (Hpl _ _ _ Hxs Hx) as (k & ? & _). by exists k. }
  f_equal. destruct it as [| |x]; [|done|].
  - destruct (m !! key) as [x|] eqn:Em; [|done]. exfalso.
    apply He in Em as [Hx Hk]. apply elem_of_concat in Hx as (i & ys & Hys & Hx).
    destruct (Hpl _ _ _ Hys Hx) as (k & Hk' & ->).
    assert (k = key) as -> by congruence. apply (Hit x); [congruence|done].
  - destruct Hit as [Hx Hk]. replace (m !! key) with (Some x); [done|]. symmetry. apply He.
    split; [|done]. apply elem_of_concat. eauto.
Qed.

Lemma get_spec h ks self m key :
  hash_rep h ks self m -> nn_hash_get h ks self key = Ret (from_option At Null (m !! key)).
Proof.
  intros H. destruct (slot_spec h ks self m key H) as (xss & L & xs & _&_&_&_&_&_& HL & Hf).
  unfold nn_hash_get. rewrite HL. cbn [mbind outcome_bind]. exact Hf.
Qed.

Lemma insert_duplicate h ks self m key x y :
  hash_rep h ks self m -> m !! key = Some y -> nn_hash_insert h ks self key x = Abort.
Proof.
  intros H Hy. destruct (slot_spec h ks self m key H) as (xss & L & xs & _&_&_&_&_&_& HL & Hf).
  unfold nn_hash_insert. rewrite HL. cbn [mbind outcome_bind]. rewrite Hf, Hy. done.
Qed.

Lemma entries_insert ks xs ys m key x :
  entries ks xs m -> x ∉ xs -> m !! key = None -> ys ≡ₚ x :: xs ->
  entries (<[x := key]> ks) ys (<[key := x]> m).
Proof.
  intros He Hx Hm Hp k y. rewrite Hp, lookup_insert_Some, lookup_insert_Some, elem_of_cons.
  pose proof (He k y) as Hk. split.
  - intros [[<- <-]|[Hne Hy]]; [auto|]. apply Hk in Hy as [Hy Hyk]. split; [auto|]. right.
    split; [|done]. by intros ->.
  - intros [[->|Hy] Hky].
    + destruct Hky as [[_ ->]|[? _]]; [auto|done].
    + destruct Hky as [[<- ->]|[Hne Hyk]]; [done|]. right. split; [|by apply Hk].
      intros ->. assert (m !! k = Some y) by (by apply Hk). congruence.
Qed.

Lemma hash_insert_spec h ks self m key x :
  hash_rep h ks self m -> detached h x -> m !! key = None -> Z.of_nat (size m) + 1 < 2 ^ 32 ->
  exists h' self', nn_hash_insert h ks self key x = Ret (h', <[x := key]> ks, self') /\
    hash_rep h' (<[x := key]> ks) self' (<[key := x]> m) /\
    (forall z, z <> x -> detached h z -> detached h' z).
Proof.
  intros Hrep Hx Hm Hsz.
  destruct (slot_spec h ks self m key Hrep)
    as (xss & L & xs & Hsl & Hpl & He & Ha & Hxs & Hl & HL & Hf).
  destruct Hrep as (_ & _ & Hs & Hlen & Hi & _).
  unfold nn_hash_insert. rewrite HL. cbn [mbind outcome_bind]. rewrite Hf, Hm.
  cbn [from_option is_null check mbind outcome_bind].
  destruct (slots_insert _ _ _ Hsl (slot_of (slots self) key) xs [] L x) as (h1 & L1 & HE & Hsl1 & Hf1); try done.
  { by rewrite app_nil_r. }
  cbn in HE. change (nn_list_end L) with Null. rewrite HE. cbn [mbind outcome_bind].
  rewrite upd_slot by lia. cbn [mbind outcome_bind]. rewrite u32_small by lia.
  pose proof (slots_detached _ _ _ Hsl _ Hx) as Hxc.
  set (self1 := Hash _ _ _). set (ks1 := <[x := key]> ks).
  assert (Hrep1 : hash_rep h1 ks1 self1 (<[key := x]> m)).
  { exists (<[slot_of (slots self) key := xs ++ [x]]> xss). cbn [self1 array slots items].
    split_and!; try done; try lia.
    - by rewrite length_insert.
    - rewrite map_size_insert_None by done. lia.
    - apply (placed_insert ks1 (slots self) xss _ xs x key); [|done|apply lookup_insert_eq|done].
      intros i ys y Hys Hy. unfold ks1. rewrite lookup_insert_ne; [by eapply Hpl|].
      intros ->. apply Hxc, elem_of_concat. eauto.
    - eapply entries_insert; [done..|].
      rewrite (concat_insert _ _ _ _ Hxs), (concat_delete _ _ _ Hxs). solve_Permutation. }
  assert (Hd1 : forall z, z <> x -> detached h z -> detached h1 z).
  { intros z Hz Hd. unfold detached. rewrite Hf1; [done|].
    pose proof (slots_detached _ _ _ Hsl _ Hd) as Hzc. rewrite (concat_delete _ _ _ Hxs) in Hzc.
    rewrite app_nil_r. set_solver. }
  destruct (overloaded self1) eqn:Ho; [|by exists h1, self1].
  destruct (rehash_spec h1 ks1 self1 _ Hrep1) as (h2 & self2 & -> & Hrep2 & Hd2).
  { unfold overloaded in Ho. lia. }
  exists h2, self2. split_and!; [done..|]. auto.
Qed.

Lemma entries_delete ks xs ys m key x :
  entries ks xs m -> m !! key = Some x -> xs ≡ₚ x :: ys -> NoDup xs ->
  entries ks ys (delete key m).
Proof.
  intros He Hm Hp Hnd k y. rewrite Hp in Hnd. apply NoDup_cons in Hnd as [Hx _].
  pose proof (He k y) as Hk. rewrite Hp, elem_of_cons in Hk. rewrite lookup_delete_Some, Hk.
  apply He in Hm as [_ Hkx]. split.
  - intros [Hne [[->|Hy] Hky]]; [congruence|done].
  - intros [Hy Hky]. split; [|auto]. intros <-.
    assert (m !! key = Some y) by (apply Hk; auto).
    assert (m !! key = Some x) by (apply He; rewrite Hp; set_solver). congruence.
Qed.

Lemma hash_erase_spec h ks self m key x :
  hash_rep h ks self m -> m !! key = Some x -> Z.of_nat (size m) < 2 ^ 32 ->
  exists h' self', nn_hash_erase h ks self x = Ret (h', self') /\
    hash_rep h' ks self' (delete key m) /\ detached h' x /\
    (forall z, detached h z -> detached h' z).
Proof.
  intros Hrep Hm Hsz.
  destruct (slot_spec h ks self m key Hrep)
    as (xss & L & xs & Hsl & Hpl & He & Ha & Hxs & Hl & HL & Hf).
  destruct Hrep as (_ & _ & Hs & Hlen & Hi & _).
  destruct (proj1 (He key x) Hm) as [Hxc Hk].
  assert (Hx : x ∈ xs).
  { apply elem_of_concat in Hxc as (i & ys & Hys & Hx). destruct (Hpl _ _ _ Hys Hx) as (k & Hk' & ->).
    assert (k = key) as -> by congruence. congruence. }
  apply list_elem_of_split in Hx as (l & r & ->).
  unfold nn_hash_erase. load Hk. rewrite HL. cbn [mbind outcome_bind].
  destruct (slots_erase _ _ _ Hsl (slot_of (slots self) key) l x r L Hxs Ha) as (h1 & L1 & -> & Hsl1 & Hd & Hf1).
  cbn [mbind outcome_bind]. rewrite upd_slot by lia. cbn [mbind outcome_bind].
  assert (Hsz1 : size m = S (size (delete key m))).
  { rewrite map_size_delete_Some by eauto. pose proof (map_size_ne_0_lookup_2 m key). 
    assert (size m <> 0)%nat by (apply map_size_ne_0_lookup_2 with key; eauto). lia. }
  rewrite u32_small by lia.
  eexists _, _. split; [reflexivity|]. split_and!; [|done|].
  - exists (<[slot_of (slots self) key := l ++ r]> xss). cbn [array slots items].
    split_and!; try done; try lia.
    + by rewrite length_insert.
    + intros i ys y Hys Hy. apply list_lookup_insert_Some in Hys as [(<- & <- & _)|[_ Hys]];
        [|by eapply Hpl]. eapply Hpl; [done|]. set_solver.
    + eapply (entries_delete ks (concat xss)); [done..| |by destruct Hsl].
      rewrite (concat_insert _ _ _ _ Hxs), (concat_delete _ _ _ Hxs). solve_Permutation.
  - intros z Hz. unfold detached. rewrite Hf1; [done|].
    pose proof (slots_detached _ _ _ Hsl _ Hz) as Hzc. rewrite (concat_delete _ _ _ Hxs) in Hzc.
    set_solver.
Qed.

(** ** The table as its users see it *)

Lemma hash_rep_key h ks self m key x : hash_rep h ks self m -> m !! key = Some x -> ks !! x = Some key.
Proof. intros (xss & _ & _ & _ & _ & _ & He) Hm. by apply He in Hm as [_ ?]. Qed.

(** Every stored item has an entry. *)
Lemma hash_rep_entry h ks self m : hash_rep h ks self m ->
  exists xss, slots_rep h (array self) xss /\ forall x, x ∈ concat xss -> exists key, m !! key = Some x.
Proof.
  intros (xss & Hrep & _ & _ & _ & Hpl & He). exists xss. split; [done|]. intros x Hx.
  apply elem_of_concat in Hx as Hx'. destruct Hx' as (i & xs & Hi & Hx').
  destruct (Hpl _ _ _ Hi Hx') as (key & Hk & _). exists key. by apply He.
Qed.

(** Items that are not stored do not matter. *)
Lemma hash_rep_agree h h' ks self m :
  (forall key x, m !! key = Some x -> h' !! x = h !! x) -> hash_rep h ks self m -> hash_rep h' ks self m.
Proof.
  intros Ha (xss & Hrep & Hs & Hl & Hi & Hpl & He). exists xss. split; [|done].
  eapply slots_agree; [|done]. intros x Hx. apply elem_of_concat in Hx as Hx'.
  destruct Hx' as (i & xs & Hxs & Hx'). destruct (Hpl _ _ _ Hxs Hx') as (key & Hk & _).
  apply (Ha key). by apply He.
Qed.

Lemma hash_rep_item h ks self m key x :
  hash_rep h ks self m -> m !! key = Some x -> ~ detached h x.
Proof.
  intros (xss & Hrep & _ & _ & _ & _ & He) Hm Hd. apply He in Hm as [Hx _].
  by apply (slots_detached _ _ _ Hrep _ Hd).
Qed.

Lemma hash_term_spec h ks self : hash_rep h ks self ∅ -> nn_hash_term self = Ret tt.
Proof.
  intros Hr. destruct (hash_rep_entry _ _ _ _ Hr) as (xss & [HF Hnd] & Hx). unfold nn_hash_term.
  assert (Hempty : forall x, x ∉ concat xss) by (intros x Hin; by destruct (Hx x Hin)).
  clear Hr Hx Hnd. induction HF as [|L xs Ls xss HL _ IH]; [done|]. cbn in *.
  destruct xs as [|y xs]; [|exfalso; apply (Hempty y); by left].
  apply (term_spec _ _ _) in HL as Ht. rewrite (proj2 Ht) by done. cbn [mbind outcome_bind]. apply IH.
  intros x. apply Hempty.
Qed.

(** ** Refinement of a finite map by the hash table *)

Inductive hash_op : Type := HInsert (key : Z) (x : loc) | HErase (x : loc) | HGet (key : Z).

(** The abstract map; inserting a key that is there aborts the process. *)
Definition map_op (m : gmap Z loc) (op : hash_op) : outcome (gmap Z loc * link) :=
  match op with
  | HInsert key x => match m !! key with
                     | Some _ => Abort
                     | None => Ret (<[key := x]> m, Null)
                     end
  | HErase x => Ret (filter (fun kv => snd kv <> x) m, Null)
  | HGet key => Ret (m, from_option At Null (m !! key))
  end.

Fixpoint map_ops (m : gmap Z loc) (ops : list hash_op) : outcome (gmap Z loc * list link) :=
  match ops with
  | [] => Ret (m, [])
  | op :: ops => '(m, o) ← map_op m op; '(m, os) ← map_ops m ops; Ret (m, o :: os)
  end.

Definition run_hop (s : heap * keymap * nn_hash) (op : hash_op)
    : outcome (heap * keymap * nn_hash * link) :=
  let '(h, ks, T) := s in
  match op with
  | HInsert key x => s ← nn_hash_insert h ks T key x; Ret (s, Null)
  | HErase x => '(h, T) ← nn_hash_erase h ks T x; Ret (h, ks, T, Null)
  | HGet key => it ← nn_hash_get h ks T key; Ret (s, it)
  end.

Fixpoint run_hops (s : heap * keymap * nn_hash) (ops : list hash_op)
    : outcome (heap * keymap * nn_hash * list link) :=
  match ops with
  | [] => Ret (s, [])
  | op :: ops => '(s, o) ← run_hop s op; '(s, os) ← run_hops s ops; Ret (s, o :: os)
  end.

(** Inserted items come from the pool and are in no slot; erased ones are in. *)
Definition hlegal (pool : list loc) (m : gmap Z loc) (op : hash_op) : Prop :=
  match op with
  | HInsert _ x => (x ∈ pool) /\ forall key, m !! key <> Some x
  | HErase x => exists key, m !! key = Some x
  | HGet _ => True
  end.

Fixpoint hlegals (pool : list loc) (m : gmap Z loc) (ops : list hash_op) : Prop :=
  match ops with
  | [] => True
  | op :: ops =>
      hlegal pool m op /\
      match map_op m op with Ret (m, _) => hlegals pool m ops | _ => True end
  end.

Definition hash_inv (pool : list loc) (s : heap * keymap * nn_hash) (m : gmap Z loc) : Prop :=
  let '(h, ks, T) := s in
  hash_rep h ks T m /\ (forall x, x ∈ pool -> (forall key, m !! key <> Some x) -> detached h x).

Lemma filter_delete ks xs (m : gmap Z loc) key x :
  entries ks xs m -> m !! key = Some x -> filter (fun kv => snd kv <> x) m = delete key m.
Proof.
  intros He Hm. apply map_eq. intros k. apply option_eq. intros y.
  rewrite map_lookup_filter_Some, lookup_delete_Some. cbn. split.
  - intros [Hk Hy]. split; [|done]. intros <-. congruence.
  - intros [Hne Hk]. split; [done|]. intros ->. apply He in Hm as [_ Hm], Hk as [_ Hk]. congruence.
Qed.

Lemma map_op_size m op m' o :
  map_op m op = Ret (m', o) -> (size m' <= S (size m))%nat.
Proof.
  destruct op as [key x|x|key]; cbn.
  - destruct (m !! key) eqn:E; [done|]. intros [= <- _]. rewrite map_size_insert_None by done. lia.
  - intros [= <- _]. etrans; [apply map_subseteq_size, map_filter_subseteq|lia].
  - intros [= <- _]. lia.
Qed.

Lemma hop_refines pool s m op :
  hash_inv pool s m -> hlegal pool m op -> Z.of_nat (size m) + 1 < 2 ^ 32 ->
  match map_op m op with
  | Ret (m', o) => exists s', run_hop s op = Ret (s', o) /\ hash_inv pool s' m'
  | _ => run_hop s op = Abort
  end.
Proof.
  destruct s as [[h ks] T]. intros [Hrep Hout] Hleg Hsz. destruct op as [key x|x|key]; cbn in *.
  - destruct Hleg as [Hx Hnew]. destruct (m !! key) as [y|] eqn:Em.
    { by rewrite (insert_duplicate h ks T m key x y). }
    destruct (hash_insert_spec h ks T m key x) as (h' & T' & -> & Hrep' & Hd); auto.
    eexists. split; [reflexivity|]. split; [done|]. intros z Hz Hzm. apply Hd.
    + intros ->. apply (Hzm key). apply lookup_insert_eq.
    + apply Hout; [done|]. intros k Hk. apply (Hzm k). rewrite lookup_insert_ne; congruence.
  - destruct Hleg as [key Hm]. destruct (Hrep) as (xss & _ & _ & _ & _ & _ & He).
    rewrite (filter_delete _ _ _ _ _ He Hm).
    destruct (hash_erase_spec h ks T m key x) as (h' & T' & -> & Hrep' & Hdx & Hd); auto; [lia|].
    eexists. split; [reflexivity|]. split; [done|]. intros z Hz Hzm.
    destruct (decide (z = x)) as [->|Hne]; [done|]. apply Hd, Hout; [done|].
    intros k Hk. apply (Hzm k). rewrite lookup_delete_ne; [done|]. intros <-. congruence.
  - rewrite (get_spec _ _ _ _ _ Hrep). by eexists.
Qed.

Lemma hash_init_rep h ks : hash_rep h ks nn_hash_init ∅.
Proof.
  exists (replicate 32 []). split_and!; try done.
  - apply slots_init.
  - apply placed_replicate.
  - intros key x. split; [done|]. intros [Hx _]. by apply elem_of_nil in Hx.
Qed.

(** C25.  Any sequence of insertions, removals and lookups on a fresh hash table
    behaves as on a finite map: all loops terminate, lookups find the item
    stored under the key or NULL, rehashing loses nothing, and the process is
    aborted exactly when a key is inserted that is already there. *)
Theorem hash_refines_map (pool : list loc) (h : heap) (ks : keymap) (ops : list hash_op) :
  (forall x, x ∈ pool -> detached h x) -> hlegals pool ∅ ops -> Z.of_nat (length ops) < 2 ^ 32 ->
  match map_ops ∅ ops with
  | Ret (m, os) => exists s, run_hops (h, ks, nn_hash_init) ops = Ret (s, os) /\ hash_inv pool s m
  | _ => run_hops (h, ks, nn_hash_init) ops = Abort
  end.
Proof.
  intros Hpool Hleg Hlen.
  assert (Hinv : hash_inv pool (h, ks, nn_hash_init) ∅) by (split; [apply hash_init_rep|auto]).
  assert (Hsz : Z.of_nat (size (∅ : gmap Z loc) + length ops) < 2 ^ 32) by done.
  clear Hpool Hlen. revert Hinv Hleg Hsz. generalize (h, ks, nn_hash_init) as s, (∅ : gmap Z loc) as m.
  clear h ks. induction ops as [|op ops IH]; intros s m Hinv Hleg Hsz;
    cbn [map_ops run_hops hlegals length] in *; [eauto|].
  destruct Hleg as [Hop Hops]. pose proof (hop_refines pool s m op Hinv Hop ltac:(lia)) as Hr.
  destruct (map_op m op) as [[m' o]| | |] eqn:Em; try (rewrite Hr; reflexivity).
  destruct Hr as (s' & -> & Hinv'). cbn [mbind outcome_bind]. apply map_op_size in Em.
  specialize (IH s' m' Hinv' Hops ltac:(lia)).
  destruct (map_ops m' ops) as [[m2 os]| | |]; cbn [mbind outcome_bind];
    [|by rewrite IH..].
  destruct IH as (s2 & -> & Hinv2). cbn [mbind outcome_bind]. eauto.
Qed.

Lemma hash_refines_map_witness :
  let h := <[1%positive := nn_list_item_init]> (<[2%positive := nn_list_item_init]> ∅) in
  let ops := [HInsert 7 1%positive; HInsert 9 2%positive; HGet 9; HErase 2%positive; HGet 9; HGet 7] in
  match map_ops ∅ ops with
  | Ret (m, os) => exists s, run_hops (h, ∅, nn_hash_init) ops = Ret (s, os) /\
      hash_inv [1; 2]%positive s m
  | _ => run_hops (h, ∅, nn_hash_init) ops = Abort
  end.
Proof.
  intros h ops. apply (hash_refines_map [1; 2]%positive h ∅ ops).
  - intros x Hx. repeat (apply elem_of_cons in Hx as [->|Hx]; [reflexivity|]).
    by apply elem_of_nil in Hx.
  - cbn. rewrite lookup_empty, lookup_insert_ne, lookup_empty by lia.
    split_and!; [set_solver|intros key; by rewrite lookup_empty|set_solver| |done| |done..].
    + intros key [[_ ?]|[_ ?]]%lookup_insert_Some; [done|]. by rewrite lookup_empty in *.
    + exists 9. apply lookup_insert_eq.
  - cbn. lia.
Defined.
