(* ===== verification/Priolist.v ===== *)
(** * Priolist: prioritised list of pipes (src/protocols/utils/priolist.c)

    Sixteen slots, one per priority, each with a list of active pipes and a
    [current] pointer into it, plus the index of the highest-priority slot that
    is not empty.  [nn_priolist_data] records live in the list heap; their
    [pipe] and [priority] fields are kept in a second map.

    The specification sees a slot as a pair [(before, from)]: the sequence
    [before ++ from] with the current pipe at the head of [from]
    ([prio_rep]). *)

From stdpp Require Import base gmap list sets.
From Stdlib Require Import ZArith Lia.
From S2P Require Import Prelude ListHeap Slots.

Open Scope Z_scope.

(** ** Data *)

Definition NN_PRIOLIST_SLOTS : Z := 16.

Record nn_priolist_data : Type := Priodata { pipe : loc; priority : Z }.

Record nn_priolist_slot : Type := Slot { pipes : nn_list; slot_current : link }.

Record nn_priolist : Type := Priolist { slots : list nn_priolist_slot; current : Z }.

Abbreviation priomap := (gmap positive nn_priolist_data).

(** ** Operations *)

Definition nn_priolist_init : nn_priolist :=
  Priolist (replicate (Z.to_nat NN_PRIOLIST_SLOTS) (Slot nn_list_init Null)) (-1).

Fixpoint term_slots (ss : list nn_priolist_slot) : outcome unit :=
  match ss with
  | [] => Ret tt
  | s :: ss => _ ← nn_list_term (pipes s); term_slots ss
  end.

Definition nn_priolist_term (self : nn_priolist) : outcome unit := term_slots (slots self).

Definition nn_priolist_add (h : heap) (pd : priomap) (data : loc) (p : loc) (prio : Z)
    : heap * priomap :=
  (<[data := nn_list_item_init]> h, <[data := Priodata p prio]> pd).

(** The loop to the next priority whose slot is not empty. *)
Fixpoint skip_empty (fuel : nat) (ss : list nn_priolist_slot) (cur : Z) : outcome Z :=
  match fuel with
  | O => NoFuel
  | S fuel =>
      s ← nth_c ss (cur - 1);
      if nn_list_empty (pipes s) then
        let cur := cur + 1 in
        if cur >? NN_PRIOLIST_SLOTS then Ret (-1) else skip_empty fuel ss cur
      else Ret cur
  end.

Definition skip (ss : list nn_priolist_slot) (cur : Z) : outcome Z :=
  skip_empty (S (Z.to_nat NN_PRIOLIST_SLOTS)) ss cur.

Definition nn_priolist_rm (h : heap) (pd : priomap) (self : nn_priolist) (data : loc)
    : outcome (heap * nn_priolist) :=
  b ← nn_list_item_isinlist h data;
  if negb b then _ ← nn_list_item_term h data; Ret (h, self) else
  d ← deref pd data;
  s ← nth_c (slots self) (priority d - 1);
  if negb (bool_decide (slot_current s = At data)) then
    '(h, L, _) ← nn_list_erase h (pipes s) data;
    _ ← nn_list_item_term h data;
    ss ← upd_c (slots self) (priority d - 1) (Slot L (slot_current s));
    Ret (h, Priolist ss (current self))
  else
    '(h, L, it) ← nn_list_erase h (pipes s) data;
    _ ← nn_list_item_term h data;
    let it := if is_null it then nn_list_begin L else it in
    ss ← upd_c (slots self) (priority d - 1) (Slot L it);
    if negb (current self =? priority d) then Ret (h, Priolist ss (current self)) else
    cur ← skip ss (current self);
    Ret (h, Priolist ss cur).

Definition nn_priolist_activate (h : heap) (pd : priomap) (self : nn_priolist) (data : loc)
    : outcome (heap * nn_priolist) :=
  d ← deref pd data;
  s ← nth_c (slots self) (priority d - 1);
  if negb (nn_list_empty (pipes s)) then
    '(h, L) ← nn_list_insert h (pipes s) data (nn_list_end (pipes s));
    ss ← upd_c (slots self) (priority d - 1) (Slot L (slot_current s));
    Ret (h, Priolist ss (current self))
  else
    '(h, L) ← nn_list_insert h (pipes s) data (nn_list_end (pipes s));
    ss ← upd_c (slots self) (priority d - 1) (Slot L (At data));
    if current self =? -1 then Ret (h, Priolist ss (priority d)) else
    if current self >? priority d then Ret (h, Priolist ss (priority d)) else
    Ret (h, Priolist ss (current self)).

Definition nn_priolist_is_active (self : nn_priolist) : Z :=
  if current self =? -1 then 0 else 1.

Definition nn_priolist_getpipe (pd : priomap) (self : nn_priolist) : outcome (option loc) :=
  if current self =? -1 then Ret None else
  s ← nth_c (slots self) (current self - 1);
  match slot_current s with
  | At data => d ← deref pd data; Ret (Some (pipe d))
  | _ => Undef
  end.

Definition nn_priolist_advance (h : heap) (self : nn_priolist) (release : bool)
    : outcome (heap * nn_priolist) :=
  _ ← check (current self >? 0);
  s ← nth_c (slots self) (current self - 1);
  match slot_current s with
  | At data =>
      '(h, L, it) ← (if release then nn_list_erase h (pipes s) data
                     else it ← nn_list_next h (pipes s) (At data); Ret (h, pipes s, it));
      let it := if is_null it then nn_list_begin L else it in
      ss ← upd_c (slots self) (current self - 1) (Slot L it);
      cur ← skip ss (current self);
      Ret (h, Priolist ss cur)
  | _ => Undef
  end.

Definition nn_priolist_get_priority (self : nn_priolist) : Z := current self.

(** ** The specification: sixteen zippers *)

(** A slot: the pipes before the current one, and those from it on. *)
Abbreviation zipper := (list loc * list loc)%type.

Definition zlist (z : zipper) : list loc := fst z ++ snd z.

(** Nothing left from the current position: wrap over to the front. *)
Definition wrap (b f : list loc) : zipper := match f with [] => ([], b) | _ => (b, f) end.

Definition z_push (z : zipper) (x : loc) : zipper := (fst z, snd z ++ [x]).

Definition z_advance (release : bool) (z : zipper) : zipper :=
  match snd z with
  | [] => z
  | x :: f => wrap (if release then fst z else fst z ++ [x]) f
  end.

Definition z_remove (x : loc) (z : zipper) : zipper :=
  match snd z with
  | y :: f => if decide (y = x) then wrap (fst z) f
              else (filter (fun y => y <> x) (fst z), filter (fun y => y <> x) (snd z))
  | [] => z
  end.

(** The highest priority whose slot is not empty. *)
Fixpoint first_nonempty (i : Z) (zs : list zipper) : Z :=
  match zs with
  | [] => -1
  | z :: zs => match snd z with [] => first_nonempty (i + 1) zs | _ => i end
  end.

Definition top (zs : list zipper) : Z := first_nonempty 1 zs.

(** The pipe to use next. *)
Fixpoint z_current (zs : list zipper) : option loc :=
  match zs with
  | [] => None
  | z :: zs => match snd z with [] => z_current zs | x :: _ => Some x end
  end.

Definition slot_ok (s : nn_priolist_slot) (z : zipper) : Prop :=
  slot_current s = hd_or Null (At <$> snd z) /\ (snd z = [] -> fst z = []).

Definition prio_rep (h : heap) (pd : priomap) (self : nn_priolist) (zs : list zipper) : Prop :=
  length (slots self) = Z.to_nat NN_PRIOLIST_SLOTS /\
  slots_rep h (pipes <$> slots self) (zlist <$> zs) /\
  Forall2 slot_ok (slots self) zs /\
  current self = top zs /\
  forall i z x, zs !! i = Some z -> x ∈ zlist z ->
    exists d, pd !! x = Some d /\ priority d = Z.of_nat i + 1.

(** ** The current priority *)

Definition blank (zs : list zipper) : Prop := Forall (fun z => snd z = []) zs.

Lemma first_nonempty_app i zs1 zs2 :
  blank zs1 -> first_nonempty i (zs1 ++ zs2) = first_nonempty (i + Z.of_nat (length zs1)) zs2.
Proof.
  intros Hb. revert i. induction Hb as [|z zs1 Hz _ IH]; intros i; cbn [app first_nonempty length].
  - f_equal. lia.
  - rewrite Hz, IH. f_equal. lia.
Qed.

Lemma first_nonempty_blank i zs : blank zs -> first_nonempty i zs = -1.
Proof. intros Hb. revert i. induction Hb as [|z zs Hz _ IH]; intros i; cbn; [done|]. by rewrite Hz. Qed.

Lemma top_cases zs :
  (top zs = -1 /\ z_current zs = None /\ blank zs) \/
  exists l b x f r, zs = l ++ (b, x :: f) :: r /\ blank l /\
    top zs = Z.of_nat (length l) + 1 /\ z_current zs = Some x.
Proof.
  unfold top. generalize 1 as i. induction zs as [|[b [|x f]] zs IH]; intros i; cbn.
  - left. by repeat constructor.
  - destruct (IH (i + 1)) as [(-> & -> & Hb)|(l & b' & x & f & r & -> & Hb & Htop & Hc)].
    + left. split_and!; [done..|by constructor].
    + right. exists ((b, []) :: l), b', x, f, r. split_and!; [done|by constructor| |done].
      rewrite Htop. cbn [length]. lia.
  - right. exists [], b, x, f, zs. split_and!; [done|constructor|cbn; lia|done].
Qed.

Lemma top_split l z r :
  blank l -> top (l ++ z :: r) = first_nonempty (Z.of_nat (length l) + 1) (z :: r).
Proof. intros Hb. unfold top. rewrite first_nonempty_app by done. f_equal. lia. Qed.

Lemma top_range zs : top zs = -1 \/ 1 <= top zs <= Z.of_nat (length zs).
Proof.
  destruct (top_cases zs) as [(?&_)|(l & b & x & f & r & -> & _ & -> & _)]; [auto|right].
  rewrite length_app. cbn. lia.
Qed.

Lemma first_nonempty_ge i zs : first_nonempty i zs = -1 \/ i <= first_nonempty i zs.
Proof.
  revert i. induction zs as [|[b [|x f]] zs IH]; intros i; cbn; [auto| |lia].
  destruct (IH (i + 1)); lia.
Qed.

(** A slot that gets a pipe. *)
Lemma top_fill zs i z z' :
  zs !! i = Some z -> snd z' <> [] ->
  top (<[i := z']> zs) =
    if decide (top zs = -1) then Z.of_nat i + 1 else Z.min (top zs) (Z.of_nat i + 1).
Proof.
  unfold top. replace (Z.of_nat i + 1) with (Z.of_nat i + 1) by lia.
  assert (Hgen : forall k, zs !! i = Some z -> snd z' <> [] -> 0 < k ->
    first_nonempty k (<[i := z']> zs) =
    if decide (first_nonempty k zs = -1) then Z.of_nat i + k
    else Z.min (first_nonempty k zs) (Z.of_nat i + k)); [|intros; by apply Hgen].
  revert i; induction zs as [|[b f] zs IH]; intros [|i] k Hi Hz' Hk; [done..| |].
  - change (<[0%nat := z']> ((b, f) :: zs)) with (z' :: zs). cbn [first_nonempty].
    destruct (snd z') eqn:E; [done|]. cbn [snd].
    pose proof (first_nonempty_ge (k + 1) zs). destruct f; case_decide; lia.
  - change (<[S i := z']> ((b, f) :: zs)) with ((b, f) :: <[i := z']> zs).
    cbn [first_nonempty snd]. destruct f as [|x f].
    + rewrite (IH i (k + 1)) by (done || lia). case_decide; lia.
    + rewrite decide_False by lia. lia.
Qed.

(** A change in a slot other than the current one. *)
Lemma top_change zs i z z' :
  zs !! i = Some z -> (snd z = [] <-> snd z' = []) -> top (<[i := z']> zs) = top zs.
Proof.
  unfold top. generalize 1 as k. revert i; induction zs as [|[b f] zs IH]; intros [|i] k Hi Hz; [done..| |].
  - injection Hi as <-. change (<[0%nat := z']> ((b, f) :: zs)) with (z' :: zs).
    cbn [first_nonempty snd] in *. destruct f, (snd z') eqn:E; naive_solver.
  - change (<[S i := z']> ((b, f) :: zs)) with ((b, f) :: <[i := z']> zs).
    cbn [first_nonempty]. by rewrite (IH i).
Qed.

(** ** The representation *)

Lemma zlist_push z x : zlist (z_push z x) = zlist z ++ [x].
Proof. unfold zlist. cbn. by rewrite app_assoc. Qed.

Lemma wrap_zlist b f : zlist (wrap b f) = b ++ f.
Proof. destruct f; cbn; [by rewrite app_nil_r|done]. Qed.

Lemma wrap_ok b f : snd (wrap b f) = [] -> fst (wrap b f) = [].
Proof. by destruct f. Qed.

Section rep.
Context (h : heap) (pd : priomap) (self : nn_priolist) (zs : list zipper).
Hypothesis (Hrep : prio_rep h pd self zs).

Lemma prio_length : length zs = Z.to_nat NN_PRIOLIST_SLOTS.
Proof. destruct Hrep as (<- & _ & HF & _). by apply Forall2_length in HF. Qed.

Lemma prio_slot i z :
  zs !! i = Some z ->
  exists s, slots self !! i = Some s /\ slot_ok s z /\ list_rep h (pipes s) (zlist z) /\
    nth_c (slots self) (Z.of_nat i) = Ret s.
Proof.
  intros Hz. destruct Hrep as (_ & Hs & HF & _).
  destruct (Forall2_lookup_r _ _ _ _ _ HF Hz) as (s & Hi & Hok).
  destruct (slots_lookup _ _ _ Hs i (zlist z)) as (L & HL & Hl).
  { by rewrite list_lookup_fmap, Hz. }
  rewrite list_lookup_fmap, Hi in HL. injection HL as <-.
  exists s. split_and!; [done..|by apply nth_c_Some].
Qed.

Lemma prio_detached x i z : detached h x -> zs !! i = Some z -> x ∉ zlist z.
Proof.
  intros Hx Hz Hin. destruct (prio_slot i z Hz) as (s & _ & _ & Hl & _).
  by eapply detached_not_in.
Qed.

Lemma prio_unique x i j z w :
  zs !! i = Some z -> zs !! j = Some w -> x ∈ zlist z -> x ∈ zlist w -> i = j.
Proof.
  intros Hi Hj Hx Hy. destruct Hrep as (_ & _ & _ & _ & Hp).
  destruct (Hp _ _ _ Hi Hx) as (d & Hd & Hd1), (Hp _ _ _ Hj Hy) as (d' & Hd' & Hd2).
  rewrite Hd in Hd'. injection Hd' as <-. lia.
Qed.

Lemma empty_slot s z : slot_ok s z -> list_rep h (pipes s) (zlist z) ->
  nn_list_empty (pipes s) = bool_decide (snd z = []).
Proof.
  intros [_ Hok] Hl. rewrite (empty_spec _ _ _ Hl). apply bool_decide_ext. unfold zlist.
  destruct z as [b f]. cbn in *. split; [|intros ->; by rewrite Hok].
  intros Happ. by apply app_eq_nil in Happ as [_ ?].
Qed.

(** The new slot array after a change of slot [i]. *)
Lemma prio_update h' i z z' s L' it' cur' :
  zs !! i = Some z -> slots self !! i = Some s ->
  slots_rep h' (<[i := L']> (pipes <$> slots self)) (<[i := zlist z']> (zlist <$> zs)) ->
  it' = hd_or Null (At <$> snd z') -> (snd z' = [] -> fst z' = []) ->
  (forall x, x ∈ zlist z' -> exists d, pd !! x = Some d /\ priority d = Z.of_nat i + 1) ->
  cur' = top (<[i := z']> zs) ->
  prio_rep h' pd (Priolist (<[i := Slot L' it']> (slots self)) cur') (<[i := z']> zs).
Proof.
  intros Hz Hs Hsl -> Hok Hpr ->. destruct Hrep as (Hlen & _ & HF & _ & Hp).
  split_and!; cbn [slots current].
  - by rewrite length_insert.
  - by rewrite !list_fmap_insert.
  - by apply Forall2_insert.
  - done.
  - intros j w x Hj Hx. apply list_lookup_insert_Some in Hj as [(<- & <- & _)|[_ Hj]]; eauto.
Qed.
End rep.

Lemma skip_empty_spec h ss zs fuel l r :
  length ss = Z.to_nat NN_PRIOLIST_SLOTS -> Forall2 slot_ok ss zs ->
  slots_rep h (pipes <$> ss) (zlist <$> zs) ->
  zs = l ++ r -> r <> [] -> (length r < fuel)%nat ->
  skip_empty fuel ss (Z.of_nat (length l) + 1) = Ret (first_nonempty (Z.of_nat (length l) + 1) r).
Proof.
  intros Hlen HF Hs. revert l r. induction fuel as [|fuel IH]; intros l r -> Hr Hfuel; [lia|].
  destruct r as [|z r]; [done|]. cbn [skip_empty first_nonempty].
  assert (Hz : (l ++ z :: r) !! length l = Some z) by by rewrite lookup_app_r, Nat.sub_diag.
  destruct (Forall2_lookup_r _ _ _ _ _ HF Hz) as (s & Hi & Hok).
  destruct (slots_lookup _ _ _ Hs (length l) (zlist z)) as (L & HL & Hl).
  { by rewrite list_lookup_fmap, Hz. }
  rewrite list_lookup_fmap, Hi in HL. injection HL as <-.
  rewrite (nth_c_Z _ _ s) by (rewrite ?Z.add_simpl_r, ?Nat2Z.id; done || lia).
  cbn [mbind outcome_bind]. rewrite (empty_slot h s z Hok Hl).
  destruct (snd z) eqn:Ez; [|done].
  rewrite bool_decide_eq_true_2 by done.
  apply Forall2_length in HF. rewrite length_app in HF. cbn in HF.
  destruct r as [|z' r].
  - cbn in *. destruct (Z.gtb_spec (Z.of_nat (length l) + 1 + 1) NN_PRIOLIST_SLOTS); [done|].
    unfold NN_PRIOLIST_SLOTS in *. lia.
  - destruct (Z.gtb_spec (Z.of_nat (length l) + 1 + 1) NN_PRIOLIST_SLOTS).
    { unfold NN_PRIOLIST_SLOTS in *. cbn in HF. lia. }
    pose proof (IH (l ++ [z]) (z' :: r)) as IH'. rewrite length_app in IH'. cbn in IH'.
    replace (Z.of_nat (length l + 1) + 1) with (Z.of_nat (length l) + 1 + 1) in IH' by lia.
    apply IH'; [by rewrite <-app_assoc|done|cbn in Hfuel; lia].
Qed.

Lemma prio_skip h pd ss l z r :
  prio_rep h pd (Priolist ss (top (l ++ z :: r))) (l ++ z :: r) -> blank l ->
  skip ss (Z.of_nat (length l) + 1) = Ret (top (l ++ z :: r)).
Proof.
  intros (Hlen & Hs & HF & _) Hb. cbn [slots] in *. unfold skip.
  rewrite (skip_empty_spec h ss (l ++ z :: r) _ l (z :: r)) by
    (done || (apply Forall2_length in HF; rewrite length_app in HF; lia)).
  by rewrite top_split.
Qed.

(** ** Specifications of the operations *)

Lemma getpipe_spec h pd self zs :
  prio_rep h pd self zs ->
  nn_priolist_getpipe pd self =
    match z_current zs with
    | None => Ret None
    | Some x => d ← deref pd x; Ret (Some (pipe d))
    end.
Proof.
  intros Hrep. unfold nn_priolist_getpipe. destruct (Hrep) as (_ & _ & _ & -> & _).
  destruct (top_cases zs) as [(-> & -> & _)|(l & b & x & f & r & Hzs & _ & -> & ->)]; [done|].
  destruct (Z.eqb_spec (Z.of_nat (length l) + 1) (-1)); [lia|].
  assert (Hz : zs !! length l = Some (b, x :: f)) by (rewrite Hzs, lookup_app_r, Nat.sub_diag; done).
  destruct (prio_slot _ _ _ _ Hrep _ _ Hz) as (s & _ & [Hc _] & _ & Hn).
  rewrite Z.add_simpl_r, Hn. cbn [mbind outcome_bind]. rewrite Hc. done.
Qed.

Lemma is_active_spec h pd self zs :
  prio_rep h pd self zs ->
  nn_priolist_is_active self = match z_current zs with Some _ => 1 | None => 0 end.
Proof.
  intros (_ & _ & _ & Hc & _). unfold nn_priolist_is_active. rewrite Hc.
  destruct (top_cases zs) as [(-> & -> & _)|(l & b & x & f & r & _ & _ & -> & ->)]; [done|].
  destruct (Z.eqb_spec (Z.of_nat (length l) + 1) (-1)); [lia|done].
Qed.

Lemma activate_spec h pd self zs x d i z :
  prio_rep h pd self zs -> detached h x -> pd !! x = Some d ->
  priority d = Z.of_nat i + 1 -> zs !! i = Some z ->
  exists h' self', nn_priolist_activate h pd self x = Ret (h', self') /\
    prio_rep h' pd self' (<[i := z_push z x]> zs) /\
    (forall y, y <> x -> detached h y -> detached h' y).
Proof.
  intros Hrep Hx Hd Hp Hz. unfold nn_priolist_activate. load Hd. rewrite Hp, Z.add_simpl_r.
  destruct (prio_slot _ _ _ _ Hrep _ _ Hz) as (s & Hs & Hok & Hl & Hn). rewrite Hn. cbn [mbind outcome_bind].
  rewrite (empty_slot _ _ _ Hok Hl).
  assert (Hsl := Hrep). destruct Hsl as (Hlen & Hsl & HF & Hcur & Hpr).
  destruct (slots_insert _ _ _ Hsl i (zlist z) [] (pipes s) x) as (h' & L' & HE & Hsl' & Hf);
    [by rewrite list_lookup_fmap, Hz, app_nil_r|by rewrite list_lookup_fmap, Hs|done|].
  cbn in HE. change (nn_list_end (pipes s)) with Null. rewrite HE. cbn [mbind outcome_bind].
  rewrite <-zlist_push in Hsl'.
  assert (Hdet : forall y, y <> x -> detached h y -> detached h' y).
  { intros y Hy Hyd. unfold detached. rewrite Hf; [done|]. rewrite app_nil_r.
    pose proof (prio_detached _ _ _ _ Hrep y i z Hyd Hz). set_solver. }
  assert (Hupd : forall it cur, it = hd_or Null (At <$> snd (z_push z x)) ->
    cur = top (<[i := z_push z x]> zs) ->
    prio_rep h' pd (Priolist (<[i := Slot L' it]> (slots self)) cur) (<[i := z_push z x]> zs)).
  { intros it cur Hit Hc. eapply prio_update; eauto.
    - cbn. intros Happ. by apply app_eq_nil in Happ as [_ ?].
    - rewrite zlist_push. intros y [Hy|Hy%list_elem_of_singleton]%elem_of_app; [by eauto|].
      subst y. eauto. }
  rewrite !upd_c_nat by by eapply lookup_lt_Some. cbn [mbind outcome_bind].
  destruct (bool_decide_reflect (snd z = [])) as [He|He]; cbn [negb].
  - assert (Htop := top_fill zs i z (z_push z x) Hz).
    assert (Hit : At x = hd_or Null (At <$> snd (z_push z x))) by (cbn; by rewrite He).
    specialize (Htop ltac:(cbn; by destruct (snd z))).
    pose proof (top_range zs). rewrite Hcur.
    destruct (Z.eqb_spec (top zs) (-1)) as [E|E].
    { eexists _, _. split; [reflexivity|]. split; [|done]. apply Hupd; [done|].
      by rewrite Htop, decide_True. }
    rewrite decide_False in Htop by done.
    destruct (Z.gtb_spec (top zs) (Z.of_nat i + 1)).
    all: eexists _, _; split; [reflexivity|]; split; [|done]; apply Hupd; [done|lia].
  - eexists _, _. split; [reflexivity|]. split; [|done]. destruct Hok as [Hc Hok].
    apply Hupd.
    + rewrite Hc. cbn. by destruct (snd z).
    + rewrite Hcur. symmetry. apply (top_change zs i z); [done|]. cbn.
      destruct (snd z); [done|]. naive_solver.
Qed.

(** The header of list [i] after a change. *)
Lemma slots_new h' Ls xss i L' ys :
  slots_rep h' (<[i := L']> Ls) (<[i := ys]> xss) -> (i < length Ls)%nat -> (i < length xss)%nat ->
  list_rep h' L' ys.
Proof.
  intros Hsl Hi Hi'. destruct (slots_lookup _ _ _ Hsl i ys) as (L0 & HL0 & Hl).
  { by apply list_lookup_insert_eq. }
  rewrite list_lookup_insert_eq in HL0 by done. by injection HL0 as <-.
Qed.

(** Both ways to move on: with or without the release of the current pipe. *)
Lemma move_on h pd self zs i s b x f release :
  prio_rep h pd self zs -> zs !! i = Some (b, x :: f) -> slots self !! i = Some s ->
  exists h' L', (if release : bool then nn_list_erase h (pipes s) x
        else it ← nn_list_next h (pipes s) (At x); Ret (h, pipes s, it))
      = Ret (h', L', hd_or Null (At <$> f)) /\
    slots_rep h' (<[i := L']> (pipes <$> slots self))
      (<[i := if release then b ++ f else (b ++ [x]) ++ f]> (zlist <$> zs)) /\
    (if release then detached h' x else h' = h) /\
    (forall y, detached h y -> detached h' y).
Proof.
  intros Hrep Hz Hs. assert (Hsl := Hrep). destruct Hsl as (_ & Hsl & _). destruct release.
  - destruct (slots_erase _ _ _ Hsl i b x f (pipes s)) as (h' & L' & -> & Hsl' & Hd & Hf);
      [by rewrite list_lookup_fmap, Hz|by rewrite list_lookup_fmap, Hs|].
    exists h', L'. split_and!; [done..|]. intros y Hy. unfold detached.
    rewrite Hf; [done|]. pose proof (prio_detached _ _ _ _ Hrep y i _ Hy Hz).
    unfold zlist in *. cbn [fst snd] in *. set_solver.
  - destruct (prio_slot _ _ _ _ Hrep _ _ Hz) as (s' & Hs' & _ & Hl & _).
    rewrite Hs in Hs'. injection Hs' as <-.
    rewrite (next_spec _ _ _ _ _ Hl). exists h, (pipes s). split_and!; [done| |done..].
    rewrite <-app_assoc. cbn [app]. rewrite !list_insert_id; [done|..].
    + by rewrite list_lookup_fmap, Hz.
    + by rewrite list_lookup_fmap, Hs.
Qed.

(** Wrap-over of the slot's [current] pointer. *)
Lemma wrap_current h L b f :
  list_rep h L (b ++ f) ->
  (if is_null (hd_or Null (At <$> f)) then nn_list_begin L else hd_or Null (At <$> f))
  = hd_or Null (At <$> snd (wrap b f)).
Proof. intros Hl. rewrite (begin_spec _ _ _ Hl). destruct f; cbn; [by rewrite app_nil_r|done]. Qed.

Lemma advance_spec h pd self l b x f r release :
  prio_rep h pd self (l ++ (b, x :: f) :: r) -> blank l ->
  exists h' self', nn_priolist_advance h self release = Ret (h', self') /\
    prio_rep h' pd self' (l ++ z_advance release (b, x :: f) :: r) /\
    (if release then detached h' x else h' = h) /\
    (forall y, detached h y -> detached h' y).
Proof.
  intros Hrep Hb. set (zs := l ++ (b, x :: f) :: r) in *. set (i := length l).
  assert (Hz : zs !! i = Some (b, x :: f)) by (unfold zs, i; by rewrite lookup_app_r, Nat.sub_diag).
  assert (Hins : forall z', <[i := z']> zs = l ++ z' :: r).
  { intros z'. unfold zs, i. rewrite <-(Nat.add_0_r (length l)), insert_app_r. done. }
  destruct (prio_slot _ _ _ _ Hrep _ _ Hz) as (s & Hs & [Hc _] & _ & Hn).
  destruct (move_on _ _ _ _ _ _ _ _ _ release Hrep Hz Hs) as (h' & L' & Hmove & Hsl' & Hx & Hdet).
  assert (Hpr := Hrep). destruct Hpr as (_ & _ & _ & Hcur & Hpr).
  unfold zs in Hcur at 1. rewrite top_split in Hcur by done. cbn [first_nonempty snd] in Hcur.
  fold i in Hcur. unfold nn_priolist_advance. rewrite Hcur.
  destruct (Z.gtb_spec (Z.of_nat i + 1) 0); [|lia]. cbn [check mbind outcome_bind].
  rewrite Z.add_simpl_r, Hn. cbn [mbind outcome_bind]. rewrite Hc. cbn [hd_or fmap list_fmap snd].
  rewrite Hmove. cbn [mbind outcome_bind].
  rewrite !upd_c_nat by by eapply lookup_lt_Some. cbn [mbind outcome_bind].
  set (z' := z_advance release (b, x :: f)).
  replace (if release then b ++ f else (b ++ [x]) ++ f) with (zlist z') in Hsl'
    by (unfold z', z_advance; cbn; rewrite wrap_zlist; by destruct release).
  assert (Hl' : list_rep h' L' (zlist z')).
  { eapply slots_new; [done|rewrite length_fmap; by eapply lookup_lt_Some..]. }
  unfold z', z_advance in Hl'. cbn [snd fst] in Hl'. rewrite wrap_zlist in Hl'.
  rewrite (wrap_current _ _ _ _ Hl').
  assert (Hnew : prio_rep h' pd (Priolist (<[i := Slot L'
      (hd_or Null (At <$> snd (wrap (if release then b else b ++ [x]) f)))]> (slots self))
      (top (<[i := z']> zs))) (<[i := z']> zs)).
  { eapply prio_update; eauto; [apply wrap_ok|]. intros y Hy. eapply (Hpr i); [done|].
    unfold z', z_advance in Hy. cbn [snd fst] in Hy. rewrite wrap_zlist in Hy.
    unfold zlist. cbn. destruct release; set_solver. }
  rewrite Hins in Hnew. pose proof (prio_skip _ _ _ _ _ _ Hnew Hb) as Hskip.
  fold i in Hskip. rewrite Hskip. cbn [mbind outcome_bind].
  eexists _, _. split; [reflexivity|]. done.
Qed.

Lemma advance_inactive h pd self zs release :
  prio_rep h pd self zs -> blank zs -> nn_priolist_advance h self release = Abort.
Proof.
  intros (_ & _ & _ & Hc & _) Hb. unfold nn_priolist_advance. rewrite Hc.
  unfold top. by rewrite first_nonempty_blank.
Qed.

(** ** Removal *)

Lemma rm_detached h pd self data :
  detached h data -> nn_priolist_rm h pd self data = Ret (h, self).
Proof.
  intros Hd. unfold nn_priolist_rm. rewrite (isinlist_detached _ _ Hd). cbn [mbind outcome_bind negb].
  by rewrite (item_term_ok _ _ Hd).
Qed.

(** Removal from a slot in the abstract. *)
Lemma z_remove_other b y f x l r :
  b ++ y :: f = l ++ x :: r -> NoDup (b ++ y :: f) -> y <> x ->
  zlist (z_remove x (b, y :: f)) = l ++ r.
Proof.
  intros Heq Hnd Hne. unfold z_remove. cbn [snd fst]. rewrite decide_False by done.
  unfold zlist. cbn [fst snd]. rewrite <-filter_app, Heq. apply filter_ne_split. by rewrite <-Heq.
Qed.

Lemma z_remove_current b f x : z_remove x (b, x :: f) = wrap b f.
Proof. unfold z_remove. cbn [snd fst]. by rewrite decide_True. Qed.

Lemma top_later zs i z z' :
  zs !! i = Some z -> snd z <> [] -> top zs <> Z.of_nat i + 1 -> top (<[i := z']> zs) = top zs.
Proof.
  intros Hi Hz Htop.
  destruct (top_cases zs) as [(_ & _ & Hb)|(l & b & x & f & r & -> & Hb & Ht & _)].
  { unfold blank in Hb. rewrite Forall_lookup in Hb. by specialize (Hb _ _ Hi). }
  rewrite Ht in *. destruct (decide (i < length l)%nat) as [Hlt|].
  { rewrite lookup_app_l in Hi by done. unfold blank in Hb. rewrite Forall_lookup in Hb. by specialize (Hb _ _ Hi). }
  replace i with (length l + S (i - length l - 1))%nat by lia.
  rewrite insert_app_r.
  change (top (l ++ (b, x :: f) :: <[(i - length l - 1)%nat := z']> r) = Z.of_nat (length l) + 1).
  by rewrite top_split.
Qed.

Lemma rm_spec h pd self zs x i z :
  prio_rep h pd self zs -> zs !! i = Some z -> x ∈ zlist z ->
  exists h' self', nn_priolist_rm h pd self x = Ret (h', self') /\
    prio_rep h' pd self' (<[i := z_remove x z]> zs) /\ detached h' x /\
    (forall y, detached h y -> detached h' y).
Proof.
  intros Hrep Hz Hx. assert (Hpr := Hrep). destruct Hpr as (_ & Hsl & _ & Hcur & Hpr).
  destruct (prio_slot _ _ _ _ Hrep _ _ Hz) as (s & Hs & [Hc Hok] & Hl & Hn).
  destruct (Hpr _ _ _ Hz Hx) as (d & Hd & Hp).
  assert (Hxs : x ∈ zlist z) by done. apply list_elem_of_split in Hxs as (l & r & Heq).
  destruct (slots_erase _ _ _ Hsl i l x r (pipes s)) as (h' & L' & HE & Hsl' & Hdx & Hf);
    [by rewrite list_lookup_fmap, Hz, <-Heq|by rewrite list_lookup_fmap, Hs|].
  assert (Hdet : forall y, detached h y -> detached h' y).
  { intros y Hy. unfold detached. rewrite Hf; [done|].
    pose proof (prio_detached _ _ _ _ Hrep y i _ Hy Hz) as Hn'. rewrite Heq in Hn'. set_solver. }
  unfold nn_priolist_rm. rewrite (isinlist_in _ _ _ _ Hl Hx). cbn [mbind outcome_bind negb]. load Hd.
  rewrite Hp, Z.add_simpl_r, Hn. cbn [mbind outcome_bind]. rewrite HE. cbn [mbind outcome_bind].
  rewrite (item_term_ok _ _ Hdx). cbn [mbind outcome_bind].
  rewrite !upd_c_nat by by eapply lookup_lt_Some. cbn [mbind outcome_bind].
  assert (Hsub : forall y, y ∈ l ++ r -> exists d, pd !! y = Some d /\ priority d = Z.of_nat i + 1).
  { intros y Hy. eapply (Hpr i); [done|]. rewrite Heq. set_solver. }
  pose proof (proj1 Hl) as Hnd.
  destruct z as [b [|y f]].
  { cbn in Hok. rewrite Hok in Hx by done. by apply elem_of_nil in Hx. }
  rewrite Hc. cbn [hd_or fmap list_fmap snd]. unfold zlist in Heq, Hnd. cbn [fst snd] in Heq, Hnd.
  destruct (decide (y = x)) as [->|Hne].
  - (* the current pipe of its slot *)
    rewrite bool_decide_eq_true_2 by done. cbn [negb]. rewrite z_remove_current.
    assert (b = l /\ f = r) as [-> ->].
    { by apply (NoDup_split_eq b f l r x). }
    assert (Hl' : list_rep h' L' (l ++ r)).
    { eapply slots_new; [done|rewrite length_fmap; by eapply lookup_lt_Some..]. }
    rewrite (wrap_current _ _ _ _ Hl'). rewrite <-(wrap_zlist l r) in Hsl', Hsub.
    assert (Hnew : forall cur, cur = top (<[i := wrap l r]> zs) -> prio_rep h' pd (Priolist
        (<[i := Slot L' (hd_or Null (At <$> snd (wrap l r)))]> (slots self)) cur) (<[i := wrap l r]> zs)).
    { intros cur ->. eapply prio_update; eauto. apply wrap_ok. }
    rewrite Hcur. destruct (Z.eqb_spec (top zs) (Z.of_nat i + 1)) as [Ht|Ht]; cbn [negb].
    + rewrite Ht. destruct (top_cases zs) as [(Ht' & _)|(l0 & b0 & x0 & f0 & r0 & -> & Hb & Ht' & _)]; [lia|].
      assert (Hi : i = (length l0 + 0)%nat) by lia. rewrite Hi, insert_app_r in Hnew.
      pose proof (Hnew _ eq_refl) as Hnew'. rewrite <-Hi in Hnew'.
      change (<[0%nat := wrap l r]> ((b0, x0 :: f0) :: r0)) with (wrap l r :: r0) in Hnew'.
      pose proof (prio_skip _ _ _ _ _ _ Hnew' Hb) as Hskip.
      replace (Z.of_nat i + 1) with (Z.of_nat (length l0) + 1) by lia. rewrite Hskip.
      cbn [mbind outcome_bind]. eexists _, _. split; [reflexivity|].
      split_and!; [|done..]. rewrite Hi, insert_app_r. rewrite <-Hi. done.
    + eexists _, _. split; [reflexivity|]. split_and!; [|done..]. apply Hnew. symmetry.
      by eapply top_later.
  - (* another pipe *)
    rewrite bool_decide_eq_false_2 by congruence. cbn [negb]. rewrite Hcur.
    eexists _, _. split; [reflexivity|]. split_and!; [|done..].
    rewrite <-(z_remove_other b y f x l r Heq Hnd Hne) in Hsl', Hsub.
    assert (Hz' : snd (z_remove x (b, y :: f)) = y :: filter (fun y => y <> x) f).
    { unfold z_remove. cbn [snd fst]. rewrite decide_False by done. by rewrite filter_cons_True. }
    eapply prio_update; eauto; [by rewrite Hz'|by rewrite Hz'|].
    symmetry. apply (top_change zs i _ _ Hz). by rewrite Hz'.
Qed.

Lemma prio_slot_NoDup h pd self zs i z :
  prio_rep h pd self zs -> zs !! i = Some z -> NoDup (zlist z).
Proof. intros Hrep Hz. destruct (prio_slot _ _ _ _ Hrep _ _ Hz) as (s & _ & _ & Hl & _). apply Hl. Qed.

Lemma prio_slot_ok h pd self zs i z :
  prio_rep h pd self zs -> zs !! i = Some z -> snd z = [] -> fst z = [].
Proof. intros Hrep Hz. by destruct (prio_slot _ _ _ _ Hrep _ _ Hz) as (s & _ & [_ Hok] & _). Qed.

Lemma z_remove_elem z x y : NoDup (zlist z) -> (snd z = [] -> fst z = []) ->
  (y ∈ zlist (z_remove x z)) <-> (y ∈ zlist z) /\ y <> x.
Proof.
  destruct z as [b [|w f]]; unfold zlist; cbn [fst snd]; intros Hnd Hok.
  - rewrite Hok by done. cbn. set_solver.
  - destruct (decide (w = x)) as [->|Hne].
    + rewrite z_remove_current. fold (zlist (wrap b f)). rewrite wrap_zlist.
      apply NoDup_app in Hnd as (_ & Hd & [Hx _]%NoDup_cons).
      split; [|set_solver]. intros Hy. split; [set_solver|]. intros ->.
      apply elem_of_app in Hy as [Hy|Hy]; [|done]. apply (Hd _ Hy). by left.
    + unfold z_remove. cbn [fst snd]. rewrite decide_False by done. cbn [fst snd].
      rewrite <-filter_app, list_elem_of_filter. tauto.
Qed.

(** ** Refinement of the sixteen zippers *)

Inductive prio_op : Type := PActivate (x : loc) | PRm (x : loc) | PAdvance (release : bool).

Definition slot_index (pd : priomap) (x : loc) : nat :=
  match pd !! x with Some d => Z.to_nat (priority d - 1) | None => 0 end.

Definition alter_slot (g : zipper -> zipper) (i : nat) (zs : list zipper) : list zipper :=
  match zs !! i with Some z => <[i := g z]> zs | None => zs end.

Definition z_op (pd : priomap) (zs : list zipper) (op : prio_op) : list zipper :=
  match op with
  | PActivate x => alter_slot (fun z => z_push z x) (slot_index pd x) zs
  | PRm x => alter_slot (z_remove x) (slot_index pd x) zs
  | PAdvance release => alter_slot (z_advance release) (Z.to_nat (top zs - 1)) zs
  end.

(** The pipe to use after each operation. *)
Definition z_next (pd : priomap) (zs : list zipper) : option loc :=
  match z_current zs with Some x => pipe <$> pd !! x | None => None end.

Fixpoint z_ops (pd : priomap) (zs : list zipper) (ops : list prio_op)
    : list zipper * list (option loc) :=
  match ops with
  | [] => (zs, [])
  | op :: ops =>
      let zs := z_op pd zs op in
      let '(zs', outs) := z_ops pd zs ops in (zs', z_next pd zs :: outs)
  end.

Definition run_pop (pd : priomap) (s : heap * nn_priolist) (op : prio_op)
    : outcome (heap * nn_priolist * option loc) :=
  let '(h, P) := s in
  '(h, P) ← match op with
            | PActivate x => nn_priolist_activate h pd P x
            | PRm x => nn_priolist_rm h pd P x
            | PAdvance release => nn_priolist_advance h P release
            end;
  o ← nn_priolist_getpipe pd P;
  Ret (h, P, o).

Fixpoint run_pops (pd : priomap) (s : heap * nn_priolist) (ops : list prio_op)
    : outcome (heap * nn_priolist * list (option loc)) :=
  match ops with
  | [] => Ret (s, [])
  | op :: ops => '(s, o) ← run_pop pd s op; '(s, os) ← run_pops pd s ops; Ret (s, o :: os)
  end.

(** Known pipes are activated once; only an active list is advanced. *)
Definition z_legal (pd : priomap) (zs : list zipper) (op : prio_op) : Prop :=
  match op with
  | PActivate x => is_Some (pd !! x) /\ Forall (fun z => x ∉ zlist z) zs
  | PRm x => is_Some (pd !! x)
  | PAdvance _ => z_current zs <> None
  end.

Fixpoint z_legals (pd : priomap) (zs : list zipper) (ops : list prio_op) : Prop :=
  match ops with
  | [] => True
  | op :: ops => z_legal pd zs op /\ z_legals pd (z_op pd zs op) ops
  end.

(** Known pipes that are in no slot are detached, and priorities are in range. *)
Definition prio_inv (pd : priomap) (s : heap * nn_priolist) (zs : list zipper) : Prop :=
  let '(h, P) := s in
  prio_rep h pd P zs /\
  forall x d, pd !! x = Some d -> 1 <= priority d <= NN_PRIOLIST_SLOTS /\
    (Forall (fun z => x ∉ zlist z) zs -> detached h x).


Lemma blank_elem l z x : blank l -> Forall (fun z => snd z = [] -> fst z = []) l ->
  z ∈ l -> x ∉ zlist z.
Proof.
  unfold blank. rewrite !Forall_forall. intros Hb Hok Hz. unfold zlist.
  rewrite (Hb z Hz), (Hok z Hz (Hb z Hz)). apply not_elem_of_nil.
Qed.

Lemma index_spec pd zs h P x d :
  prio_rep h pd P zs -> pd !! x = Some d -> 1 <= priority d <= NN_PRIOLIST_SLOTS ->
  exists z, zs !! slot_index pd x = Some z /\ priority d = Z.of_nat (slot_index pd x) + 1 /\
    (x ∈ zlist z \/ Forall (fun z => x ∉ zlist z) zs).
Proof.
  intros Hrep Hd Hp. unfold slot_index. rewrite Hd.
  destruct (lookup_lt_is_Some_2 zs (Z.to_nat (priority d - 1))) as [z Hz].
  { rewrite (prio_length _ _ _ _ Hrep). lia. }
  exists z. split_and!; [done|lia|]. destruct (decide (x ∈ zlist z)) as [|Hx]; [by left|right].
  apply Forall_lookup. intros j w Hw Hxw. apply Hx.
  destruct Hrep as (_ & _ & _ & _ & Hpr). destruct (Hpr _ _ _ Hw Hxw) as (d' & Hd' & Hj).
  assert (j = Z.to_nat (priority d - 1)) by (assert (d = d') as <- by congruence; lia).
  congruence.
Qed.

(** Items outside all slots stay detached when one slot changes. *)
Lemma outside_insert (zs : list zipper) (i : nat) z z' (x : loc) :
  zs !! i = Some z -> Forall (fun z => x ∉ zlist z) (<[i := z']> zs) ->
  (x ∉ zlist z') /\ (x ∉ zlist z -> Forall (fun z => x ∉ zlist z) zs).
Proof.
  intros Hz Hf. rewrite Forall_lookup in Hf. split.
  - apply (Hf i). apply list_lookup_insert_eq. by eapply lookup_lt_Some.
  - intros Hx. apply Forall_lookup. intros j w Hw. destruct (decide (j = i)) as [->|Hne].
    + congruence.
    + apply (Hf j). by rewrite list_lookup_insert_ne.
Qed.

Lemma getpipe_next h pd P zs :
  prio_rep h pd P zs -> nn_priolist_getpipe pd P = Ret (z_next pd zs).
Proof.
  intros Hrep. rewrite (getpipe_spec _ _ _ _ Hrep). unfold z_next.
  destruct (top_cases zs) as [(_ & -> & _)|(l & b & x & f & r & Hzs & _ & _ & ->)]; [done|].
  destruct Hrep as (_ & _ & _ & _ & Hpr).
  destruct (Hpr (length l) (b, x :: f) x) as (d & Hd & _).
  - by rewrite Hzs, lookup_app_r, Nat.sub_diag.
  - unfold zlist. set_solver.
  - load Hd. by rewrite Hd.
Qed.

Lemma activate_step pd h P zs x :
  prio_inv pd (h, P) zs -> z_legal pd zs (PActivate x) ->
  exists h' P', nn_priolist_activate h pd P x = Ret (h', P') /\
    prio_inv pd (h', P') (z_op pd zs (PActivate x)).
Proof.
  intros [Hrep Hout] [[d Hd] Hx]. cbn [z_op]. unfold alter_slot.
  destruct (Hout x d Hd) as [Hp Hdx].
  destruct (index_spec _ _ _ _ _ _ Hrep Hd Hp) as (z & Hz & Hpi & _). rewrite Hz.
  destruct (activate_spec _ _ _ _ x d _ z Hrep (Hdx Hx) Hd Hpi Hz) as (h' & P' & -> & Hrep' & Hdet).
  exists h', P'. split; [done|]. split; [done|]. intros y e Hy. destruct (Hout y e Hy) as [He Hdy].
  split; [done|]. intros Hf. destruct (outside_insert _ _ _ _ _ Hz Hf) as [Hyz Hall].
  rewrite zlist_push in Hyz. apply Hdet; [set_solver|]. apply Hdy, Hall. set_solver.
Qed.

Lemma rm_step pd h P zs x :
  prio_inv pd (h, P) zs -> z_legal pd zs (PRm x) ->
  exists h' P', nn_priolist_rm h pd P x = Ret (h', P') /\
    prio_inv pd (h', P') (z_op pd zs (PRm x)).
Proof.
  intros [Hrep Hout] [d Hd]. cbn [z_op]. unfold alter_slot.
  destruct (Hout x d Hd) as [Hp Hdx].
  destruct (index_spec _ _ _ _ _ _ Hrep Hd Hp) as (z & Hz & _ & Hx). rewrite Hz.
  destruct (decide (x ∈ zlist z)) as [Hxz|Hxz].
  - destruct (rm_spec _ _ _ _ _ _ _ Hrep Hz Hxz) as (h' & P' & -> & Hrep' & Hdx' & Hdet).
    exists h', P'. split; [done|]. split; [done|]. intros y e Hy. destruct (Hout y e Hy) as [He Hdy].
    split; [done|]. intros Hf. destruct (outside_insert _ _ _ _ _ Hz Hf) as [Hyz Hall].
    destruct (decide (y = x)) as [->|Hne]; [done|]. apply Hdet, Hdy, Hall.
    intros Hy'. apply Hyz. apply z_remove_elem; eauto using prio_slot_NoDup, prio_slot_ok.
  - destruct Hx as [?|Hx]; [done|]. rewrite rm_detached by auto. exists h, P. split; [done|].
    assert (z_remove x z = z) as ->.
    { unfold z_remove, zlist in *. destruct z as [b [|y f]]; [done|]. cbn [fst snd] in *.
      rewrite decide_False by set_solver. by rewrite !filter_ne_id by set_solver. }
    rewrite list_insert_id by done. done.
Qed.

Lemma z_advance_elem release b x f y :
  NoDup (zlist (b, x :: f)) ->
  (y ∈ zlist (z_advance release (b, x :: f))) <->
  (y ∈ zlist (b, x :: f)) /\ (release = true -> y <> x).
Proof.
  unfold z_advance. cbn [fst snd]. rewrite wrap_zlist. unfold zlist. cbn [fst snd].
  intros (_ & Hd & [Hx _]%NoDup_cons)%NoDup_app. destruct release; [|set_solver].
  split; [|set_solver]. intros Hy. split; [set_solver|]. intros _ ->.
  apply elem_of_app in Hy as [Hy|Hy]; [|done]. apply (Hd _ Hy). by left.
Qed.

Lemma advance_step pd h P zs release :
  prio_inv pd (h, P) zs -> z_legal pd zs (PAdvance release) ->
  exists h' P', nn_priolist_advance h P release = Ret (h', P') /\
    prio_inv pd (h', P') (z_op pd zs (PAdvance release)).
Proof.
  intros [Hrep Hout] Hc. cbn [z_op z_legal] in *. unfold alter_slot.
  destruct (top_cases zs) as [(_ & ? & _)|(l & b & x & f & r & Hzs & Hb & Ht & _)]; [congruence|].
  rewrite Ht, Z.add_simpl_r, Nat2Z.id.
  assert (Hz : zs !! length l = Some (b, x :: f)) by by rewrite Hzs, lookup_app_r, Nat.sub_diag.
  rewrite Hz. pose proof (prio_slot_NoDup _ _ _ _ _ _ Hrep Hz) as Hnd.
  assert (Hrep0 := Hrep). rewrite Hzs in Hrep0.
  destruct (advance_spec _ _ _ _ _ _ _ _ release Hrep0 Hb) as (h' & P' & -> & Hrep' & Hx & Hdet).
  assert (Hins : <[length l := z_advance release (b, x :: f)]> zs = l ++ z_advance release (b, x :: f) :: r).
  { rewrite Hzs, <-(Nat.add_0_r (length l)), insert_app_r. done. }
  rewrite <-Hins in Hrep'. exists h', P'. split; [done|]. split; [done|].
  intros y e Hy. destruct (Hout y e Hy) as [He Hdy].
  split; [done|]. intros Hf. destruct (outside_insert _ _ _ _ _ Hz Hf) as [Hyz Hall].
  rewrite z_advance_elem in Hyz by done.
  destruct (decide (y ∈ zlist (b, x :: f))) as [Hyi|]; [|by apply Hdet, Hdy, Hall].
  destruct release; [|naive_solver]. destruct (decide (y = x)) as [->|]; [done|naive_solver].
Qed.

Lemma pop_step pd h P zs op :
  prio_inv pd (h, P) zs -> z_legal pd zs op ->
  exists h' P', run_pop pd (h, P) op = Ret (h', P', z_next pd (z_op pd zs op)) /\
    prio_inv pd (h', P') (z_op pd zs op).
Proof.
  intros Hinv Hleg.
  assert (Hstep : exists h' P', (match op with
      | PActivate x => nn_priolist_activate h pd P x
      | PRm x => nn_priolist_rm h pd P x
      | PAdvance release => nn_priolist_advance h P release
      end) = Ret (h', P') /\ prio_inv pd (h', P') (z_op pd zs op)).
  { destruct op; [by apply activate_step|by apply rm_step|by apply advance_step]. }
  destruct Hstep as (h' & P' & E & Hinv'). exists h', P'. split; [|done].
  unfold run_pop. rewrite E. cbn [mbind outcome_bind].
  rewrite (getpipe_next h' pd P' _ (proj1 Hinv')). done.
Qed.

Lemma prio_inv_init pd h :
  (forall x d, pd !! x = Some d -> 1 <= priority d <= NN_PRIOLIST_SLOTS /\ detached h x) ->
  prio_inv pd (h, nn_priolist_init) (replicate (Z.to_nat NN_PRIOLIST_SLOTS) ([], [])).
Proof.
  intros Hpd. split.
  - split_and!; [done| |by apply Forall2_replicate|done|].
    + cbn [nn_priolist_init slots]. rewrite !fmap_replicate. apply slots_init.
    + intros i z x [-> _]%lookup_replicate Hx. by apply elem_of_nil in Hx.
  - intros x d Hd. destruct (Hpd x d Hd). auto.
Qed.

Lemma pops_refine pd ops : forall h P zs,
  prio_inv pd (h, P) zs -> z_legals pd zs ops ->
  exists h' P', run_pops pd (h, P) ops = Ret (h', P', snd (z_ops pd zs ops)) /\
    prio_inv pd (h', P') (fst (z_ops pd zs ops)).
Proof.
  induction ops as [|op ops IH]; intros h P zs Hinv Hleg; [by exists h, P|].
  destruct Hleg as [Hop Hops]. cbn [run_pops z_ops].
  destruct (pop_step _ _ _ _ _ Hinv Hop) as (h1 & P1 & -> & Hinv1). cbn [mbind outcome_bind].
  destruct (IH h1 P1 _ Hinv1 Hops) as (h2 & P2 & -> & Hinv2). cbn [mbind outcome_bind].
  destruct (z_ops pd (z_op pd zs op) ops) as [zs2 outs]. by exists h2, P2.
Qed.

(** Any sequence of activations, removals and advances of known pipes on a
    fresh priority list runs without a failed assertion or a wild pointer, all
    loops terminate, and the pipe delivered after each operation is the head of
    the highest-priority non-empty slot, each slot being a sequence rotated by
    the advances; removal and release take out exactly the one pipe. *)
Theorem priolist_refines_slots (pd : priomap) (h : heap) (ops : list prio_op) :
  let empty := replicate (Z.to_nat NN_PRIOLIST_SLOTS) ([], []) in
  (forall x d, pd !! x = Some d -> 1 <= priority d <= NN_PRIOLIST_SLOTS /\ detached h x) ->
  z_legals pd empty ops ->
  exists h' P', run_pops pd (h, nn_priolist_init) ops = Ret (h', P', snd (z_ops pd empty ops)) /\
    prio_inv pd (h', P') (fst (z_ops pd empty ops)).
Proof.
  intros empty Hpd Hleg. apply pops_refine; [by apply prio_inv_init|done].
Qed.

Definition example_pipes : priomap :=
  <[1%positive := Priodata 101%positive 8]> (<[2%positive := Priodata 102%positive 8]>
    (<[3%positive := Priodata 103%positive 3]> ∅)).

Definition example_heap : heap :=
  <[1%positive := nn_list_item_init]> (<[2%positive := nn_list_item_init]>
    (<[3%positive := nn_list_item_init]> ∅)).

Lemma example_ok x d :
  example_pipes !! x = Some d -> 1 <= priority d <= NN_PRIOLIST_SLOTS /\ detached example_heap x.
Proof.
  unfold example_pipes. intros Hx.
  repeat (apply lookup_insert_Some in Hx as [[<- <-]|[_ Hx]]; [split; [vm_compute; split; congruence|done]|]).
  by rewrite lookup_empty in Hx.
Qed.

Lemma priolist_refines_slots_witness :
  let ops := [PActivate 1%positive; PActivate 2%positive; PAdvance false; PActivate 3%positive;
              PAdvance true; PRm 1%positive; PAdvance true] in
  exists h' P', run_pops example_pipes (example_heap, nn_priolist_init) ops =
      Ret (h', P', [Some 101; Some 101; Some 102; Some 103; Some 102; Some 102; None]%positive) /\
    prio_inv example_pipes (h', P') (replicate (Z.to_nat NN_PRIOLIST_SLOTS) ([], [])).
Proof.
  intros ops. apply (priolist_refines_slots example_pipes example_heap ops).
  - apply example_ok.
  - cbn [z_legals z_legal ops]. split_and!; try done; try (eexists; vm_compute; reflexivity).
    all: apply (bool_decide_unpack _); vm_compute; exact I.
Defined.

(** ** Round robin *)

Fixpoint advance_n (k : nat) (h : heap) (P : nn_priolist) : outcome (heap * nn_priolist) :=
  match k with
  | O => Ret (h, P)
  | S k => '(h, P) ← nn_priolist_advance h P false; advance_n k h P
  end.

Lemma rotate_step (k : nat) (x : loc) l :
  (l ++ [x]) !! (k mod (length (l ++ [x])))%nat = (x :: l) !! (S k mod (length (x :: l)))%nat.
Proof.
  rewrite length_app. cbn [length]. replace (length l + 1)%nat with (S (length l)) by lia.
  set (n := length l). pose proof (Nat.mod_upper_bound k (S n) ltac:(lia)).
  destruct (decide (k mod S n = n)%nat) as [E|E].
  - rewrite E. assert (Hk : (S k mod S n = 0)%nat).
    { rewrite <-Nat.add_1_r, Nat.Div0.add_mod, E. destruct n; [done|].
      rewrite (Nat.mod_small 1) by lia. by rewrite Nat.add_1_r, Nat.Div0.mod_same. }
    rewrite Hk. unfold n. by rewrite lookup_app_r, Nat.sub_diag by lia.
  - assert (Hk : (S k mod S n = S (k mod S n))%nat).
    { rewrite <-Nat.add_1_r, Nat.Div0.add_mod.
      rewrite (Nat.mod_small 1) by lia. rewrite Nat.mod_small by lia. lia. }
    rewrite Hk. cbn [lookup list_lookup]. by rewrite lookup_app_l by (unfold n in *; lia).
Qed.

(** Round robin: as long as no pipe is added or released, [k] advances
    deliver the pipe [k] places further in the cyclic order of the current
    priority level, so [n] consecutive uses of a level with [n] pipes use each
    of them once. *)
Theorem priolist_round_robin (h : heap) (pd : priomap) (P : nn_priolist) (zs : list zipper)
    (i : nat) (b f : list loc) (k : nat) :
  prio_rep h pd P zs -> zs !! i = Some (b, f) -> top zs = Z.of_nat i + 1 ->
  exists P' x d, advance_n k h P = Ret (h, P') /\
    (f ++ b) !! (k mod length (f ++ b))%nat = Some x /\ pd !! x = Some d /\
    nn_priolist_getpipe pd P' = Ret (Some (pipe d)).
Proof.
  intros Hrep Hz Ht. revert P zs b f Hrep Hz Ht. induction k as [|k IH]; intros P zs b f Hrep Hz Ht.
  all: destruct (top_cases zs) as [(? & _)|(l & b' & x & f' & r & Hzs & Hb & Ht' & Hc)]; [lia|].
  all: assert (i = length l) as -> by lia.
  all: assert (Hzl : zs !! length l = Some (b', x :: f')) by by rewrite Hzs, lookup_app_r, Nat.sub_diag.
  all: rewrite Hz in Hzl; injection Hzl as -> ->.
  - cbn [advance_n]. assert (Hrep0 := Hrep). destruct Hrep0 as (_ & _ & _ & _ & Hpr).
    destruct (Hpr _ _ x Hz) as (d & Hd & _); [unfold zlist; set_solver|].
    exists P, x, d. split_and!; [done| |done|].
    + rewrite Nat.Div0.mod_0_l. done.
    + rewrite (getpipe_next _ _ _ _ Hrep). unfold z_next. by rewrite Hc, Hd.
  - cbn [advance_n]. assert (Hrep0 := Hrep). rewrite Hzs in Hrep0.
    destruct (advance_spec _ _ _ _ _ _ _ _ false Hrep0 Hb) as (h' & P1 & -> & Hrep1 & -> & _).
    cbn [mbind outcome_bind].
    destruct (z_advance false (b', x :: f')) as [b1 f1] eqn:E.
    assert (Hcyc : f1 ++ b1 = (f' ++ b') ++ [x] /\ f1 <> []).
    { unfold z_advance in E. cbn [snd fst] in E. destruct f' as [|y f']; cbn in E; injection E as <- <-.
      - rewrite app_nil_r. split; [done|]. intros H. by apply app_eq_nil in H as [_ ?].
      - by rewrite app_assoc. }
    destruct Hcyc as [Hcyc Hne].
    destruct (IH P1 _ b1 f1 Hrep1) as (P' & y & d & Hrun & Hy & Hd & Hg).
    { by rewrite lookup_app_r, Nat.sub_diag. }
    { rewrite top_split by done. cbn. by destruct f1. }
    exists P', y, d. split_and!; [done| |done..].
    rewrite Hcyc, rotate_step in Hy. done.
Qed.

Lemma priolist_round_robin_witness :
  exists h P P' o, run_pops example_pipes (example_heap, nn_priolist_init)
      [PActivate 1%positive; PActivate 2%positive] = Ret (h, P, o) /\
    advance_n 3 h P = Ret (h, P') /\
    nn_priolist_getpipe example_pipes P' = Ret (Some 102%positive).
Proof.
  set (zs := replicate (Z.to_nat NN_PRIOLIST_SLOTS) ([], []) : list zipper).
  destruct (pops_refine example_pipes [PActivate 1%positive; PActivate 2%positive]
    example_heap nn_priolist_init zs) as (h & P & E & [Hrep _]).
  - apply prio_inv_init, example_ok.
  - cbn [z_legals z_legal]. split_and!; try done; try (eexists; vm_compute; reflexivity).
    all: apply (bool_decide_unpack _); vm_compute; exact I.
  - exists h, P. destruct (priolist_round_robin h example_pipes P _ 7 [] [1; 2]%positive 3 Hrep)
      as (P' & x & d & Hrun & Hx & Hd & Hg); [vm_compute; reflexivity..|].
    exists P'. eexists. split_and!; [exact E|exact Hrun|].
    vm_compute in Hx. injection Hx as <-. vm_compute in Hd. injection Hd as <-. exact Hg.
Defined.
