(* ===== verification/Sched.v ===== *)
(** * Sched: the interface of the priority list to its clients

    The load balancer (lb.c), the fair queue (fq.c) and, through them, the
    socket types use a priority list as a scheduler of pipes.  [Scheduler] is
    the class of its operations, [SchedulerLaws] what clients rely on: [known]
    is the set of pipes added, [active] the subset that is ready.  The
    per-pipe record of a pipe is named by the pipe's address.

    [priolist_scheduler] and [priolist_laws] show that src/protocols/utils/
    priolist.c implements the interface. *)

From stdpp Require Import base gmap list sets.
From Stdlib Require Import ZArith Lia.
From S2P Require Import Prelude ListHeap Slots Priolist.

Open Scope Z_scope.

Class Scheduler (S : Type) := {
  s_init : S;
  s_term : S -> outcome unit;
  s_add : S -> loc -> Z -> S;
  s_rm : S -> loc -> outcome S;
  s_activate : S -> loc -> outcome S;
  s_is_active : S -> Z;
  s_getpipe : S -> outcome (option loc);
  s_advance : S -> bool -> outcome S;
  s_get_priority : S -> Z
}.

Class SchedulerLaws (S : Type) `{Scheduler S} := {
  s_inv : S -> gset loc -> gset loc -> Prop;
  s_inv_init : s_inv s_init ∅ ∅;
  s_inv_sub s known active : s_inv s known active -> active ⊆ known;
  s_add_ok s known active p prio :
    s_inv s known active -> p ∉ known -> 1 <= prio <= NN_PRIOLIST_SLOTS ->
    s_inv (s_add s p prio) ({[p]} ∪ known) active;
  s_rm_ok s known active p :
    s_inv s known active -> p ∈ known ->
    exists s', s_rm s p = Ret s' /\ s_inv s' (known ∖ {[p]}) (active ∖ {[p]});
  s_activate_ok s known active p :
    s_inv s known active -> p ∈ known -> p ∉ active ->
    exists s', s_activate s p = Ret s' /\ s_inv s' known ({[p]} ∪ active);
  s_is_active_ok s known active :
    s_inv s known active -> s_is_active s = if decide (active = ∅) then 0 else 1;
  s_getpipe_ok s known active :
    s_inv s known active ->
    exists o, s_getpipe s = Ret o /\
      match o with Some p => p ∈ active | None => active = ∅ end;
  s_advance_ok s known active p release :
    s_inv s known active -> s_getpipe s = Ret (Some p) ->
    exists s', s_advance s release = Ret s' /\
      s_inv s' known (if release then active ∖ {[p]} else active);
  s_get_priority_ok s known active :
    s_inv s known active ->
    s_get_priority s = -1 \/ 1 <= s_get_priority s <= NN_PRIOLIST_SLOTS;
  s_term_ok s known active : s_inv s known active -> active = ∅ -> s_term s = Ret tt
}.

(** ** The priority list as a scheduler *)

Record priosched : Type := Priosched {
  ps_heap : heap; ps_data : priomap; ps_list : nn_priolist
}.

#[export] Instance priolist_scheduler : Scheduler priosched := {|
  s_init := Priosched ∅ ∅ nn_priolist_init;
  s_term s := nn_priolist_term (ps_list s);
  s_add s p prio :=
    let '(h, pd) := nn_priolist_add (ps_heap s) (ps_data s) p p prio in
    Priosched h pd (ps_list s);
  s_rm s p :=
    '(h, P) ← nn_priolist_rm (ps_heap s) (ps_data s) (ps_list s) p;
    Ret (Priosched h (ps_data s) P);
  s_activate s p :=
    '(h, P) ← nn_priolist_activate (ps_heap s) (ps_data s) (ps_list s) p;
    Ret (Priosched h (ps_data s) P);
  s_is_active s := nn_priolist_is_active (ps_list s);
  s_getpipe s := nn_priolist_getpipe (ps_data s) (ps_list s);
  s_advance s release :=
    '(h, P) ← nn_priolist_advance (ps_heap s) (ps_list s) release;
    Ret (Priosched h (ps_data s) P);
  s_get_priority s := nn_priolist_get_priority (ps_list s)
|}.

(** Every known pipe has its record, and its list item unless it is active. *)
Definition priosched_inv (s : priosched) (known active : gset loc) : Prop :=
  exists zs, prio_rep (ps_heap s) (ps_data s) (ps_list s) zs /\
    (forall p, p ∈ active <-> exists i z, zs !! i = Some z /\ p ∈ zlist z) /\
    active ⊆ known /\
    (forall p, p ∈ known -> p ∉ active -> detached (ps_heap s) p) /\
    (forall p, p ∈ known -> exists prio, 1 <= prio <= NN_PRIOLIST_SLOTS /\
       ps_data s !! p = Some (Priodata p prio)).

(** The effect of a change of one slot on the set of active pipes. *)
Lemma members_insert (zs : list zipper) (i : nat) z z' (p : loc) :
  zs !! i = Some z ->
  (exists j w, <[i := z']> zs !! j = Some w /\ p ∈ zlist w) <->
  (p ∈ zlist z') \/ exists j w, j <> i /\ zs !! j = Some w /\ p ∈ zlist w.
Proof.
  intros Hi. split.
  - intros (j & w & Hj & Hp). apply list_lookup_insert_Some in Hj as [(<- & <- & _)|[? Hj]]; [by left|].
    right. by exists j, w.
  - intros [Hp|(j & w & Hne & Hj & Hp)].
    + exists i, z'. split; [|done]. apply list_lookup_insert_eq. by eapply lookup_lt_Some.
    + exists j, w. by rewrite list_lookup_insert_ne.
Qed.

Lemma members_split (zs : list zipper) (i : nat) z (p : loc) :
  zs !! i = Some z ->
  (exists j w, zs !! j = Some w /\ p ∈ zlist w) <->
  (p ∈ zlist z) \/ exists j w, j <> i /\ zs !! j = Some w /\ p ∈ zlist w.
Proof.
  intros Hi. split.
  - intros (j & w & Hj & Hp). destruct (decide (j = i)) as [->|]; [|right; by exists j, w].
    left. congruence.
  - intros [Hp|(j & w & _ & Hj & Hp)]; eauto.
Qed.

Lemma priosched_init : priosched_inv s_init ∅ ∅.
Proof.
  exists (replicate (Z.to_nat NN_PRIOLIST_SLOTS) ([], [])). split_and!.
  - split_and!; [done|cbn [ps_list s_init priolist_scheduler nn_priolist_init slots]; rewrite !fmap_replicate; apply slots_init|by apply Forall2_replicate|done|].
    intros i z x [-> _]%lookup_replicate Hx. by apply elem_of_nil in Hx.
  - intros p. split; [set_solver|]. intros (i & z & [-> _]%lookup_replicate & Hx).
    by apply elem_of_nil in Hx.
  - done.
  - set_solver.
  - set_solver.
Qed.

Lemma add_agree h pd x d zs self :
  prio_rep h pd self zs -> (forall i z, zs !! i = Some z -> x ∉ zlist z) ->
  prio_rep (<[x := nn_list_item_init]> h) (<[x := d]> pd) self zs.
Proof.
  intros (Hlen & Hsl & HF & Hcur & Hpr) Hx. split_and!; try done.
  - eapply slots_agree; [|done]. intros y (i & ys & Hi & Hy)%elem_of_concat.
    rewrite list_lookup_fmap in Hi. destruct (zs !! i) as [z|] eqn:Hz; [|done].
    injection Hi as <-. rewrite lookup_insert_ne; [done|]. intros <-. by apply (Hx i z).
  - intros i z y Hz Hy. destruct (Hpr _ _ _ Hz Hy) as (d' & Hd & Hp). exists d'.
    rewrite lookup_insert_ne; [done|]. intros <-. by apply (Hx i z).
Qed.

Lemma priosched_add s known active p prio :
  priosched_inv s known active -> p ∉ known -> 1 <= prio <= NN_PRIOLIST_SLOTS ->
  priosched_inv (s_add s p prio) ({[p]} ∪ known) active.
Proof.
  intros (zs & Hrep & Hact & Hsub & Hdet & Hdat) Hp Hprio. exists zs. cbn. split_and!.
  - apply add_agree; [done|]. intros i z Hz Hpz. apply Hp, Hsub, Hact. by exists i, z.
  - done.
  - set_solver.
  - intros q Hq Hqa. unfold detached. destruct (decide (q = p)) as [->|]; [by rewrite lookup_insert_eq|].
    rewrite lookup_insert_ne by done. apply Hdet; set_solver.
  - intros q Hq. destruct (decide (q = p)) as [->|].
    + exists prio. by rewrite lookup_insert_eq.
    + rewrite lookup_insert_ne by done. apply Hdat. set_solver.
Qed.

(** The slot of a known pipe. *)
Lemma known_slot s (known active : gset loc) zs p :
  prio_rep (ps_heap s) (ps_data s) (ps_list s) zs ->
  (forall p, p ∈ known -> exists prio, 1 <= prio <= NN_PRIOLIST_SLOTS /\
     ps_data s !! p = Some (Priodata p prio)) ->
  (forall p, p ∈ active <-> exists i z, zs !! i = Some z /\ p ∈ zlist z) -> p ∈ known ->
  exists prio i z, ps_data s !! p = Some (Priodata p prio) /\ prio = Z.of_nat i + 1 /\
    zs !! i = Some z /\ ((p ∈ active) <-> (p ∈ zlist z)).
Proof.
  intros Hrep Hdat Hact Hp. destruct (Hdat p Hp) as (prio & Hprio & Hd).
  destruct (lookup_lt_is_Some_2 zs (Z.to_nat (prio - 1))) as [z Hz].
  { rewrite (prio_length _ _ _ _ Hrep). lia. }
  exists prio, (Z.to_nat (prio - 1)), z. split_and!; [done|lia|done|].
  rewrite Hact. split; [|by eauto]. intros (j & w & Hj & Hpw).
  destruct Hrep as (_ & _ & _ & _ & Hpr). destruct (Hpr _ _ _ Hj Hpw) as (d & Hd' & Hj').
  rewrite Hd in Hd'. injection Hd' as <-. cbn in Hj'.
  assert (Hjz : j = Z.to_nat (prio - 1)) by lia. congruence.
Qed.

Lemma priosched_rm s known active p :
  priosched_inv s known active -> p ∈ known ->
  exists s', s_rm s p = Ret s' /\ priosched_inv s' (known ∖ {[p]}) (active ∖ {[p]}).
Proof.
  intros (zs & Hrep & Hact & Hsub & Hdet & Hdat) Hp. cbn.
  destruct (decide (p ∈ active)) as [Hpa|Hpa].
  - destruct (known_slot _ _ _ _ _ Hrep Hdat Hact Hp) as (prio & i & z & Hd & _ & Hz & Hiff).
    destruct (rm_spec _ _ _ _ _ _ _ Hrep Hz (proj1 Hiff Hpa)) as (h' & P' & -> & Hrep' & Hdp & Hdet').
    eexists. split; [reflexivity|]. exists (<[i := z_remove p z]> zs). cbn. split_and!.
    + done.
    + intros q. rewrite elem_of_difference, not_elem_of_singleton, Hact.
      rewrite (members_insert _ _ _ _ _ Hz), (members_split _ _ _ _ Hz).
      rewrite (z_remove_elem z p q) by eauto using prio_slot_NoDup, prio_slot_ok.
      split; [naive_solver|]. intros [[? ?]|(j & w & Hne & Hj & Hq)]; [naive_solver|].
      split; [naive_solver|]. intros ->. apply Hne.
      eapply (prio_unique _ _ _ _ Hrep p j i); eauto. by apply Hiff.
    + set_solver.
    + intros q Hq Hqa. destruct (decide (q = p)) as [->|]; [done|]. apply Hdet', Hdet; set_solver.
    + intros q Hq. apply Hdat. set_solver.
  - rewrite rm_detached by (by apply Hdet). cbn. eexists. split; [reflexivity|].
    exists zs. cbn. split_and!; try done.
    + intros q. rewrite <-Hact. set_solver.
    + set_solver.
    + intros q Hq Hqa. apply Hdet; set_solver.
    + intros q Hq. apply Hdat. set_solver.
Qed.

Lemma priosched_activate s known active p :
  priosched_inv s known active -> p ∈ known -> p ∉ active ->
  exists s', s_activate s p = Ret s' /\ priosched_inv s' known ({[p]} ∪ active).
Proof.
  intros (zs & Hrep & Hact & Hsub & Hdet & Hdat) Hp Hpa. cbn.
  destruct (known_slot _ _ _ _ _ Hrep Hdat Hact Hp) as (prio & i & z & Hd & Hpr & Hz & Hiff).
  destruct (activate_spec _ _ _ _ p _ i z Hrep (Hdet p Hp Hpa) Hd Hpr Hz)
    as (h' & P' & -> & Hrep' & Hdet').
  eexists. split; [reflexivity|]. exists (<[i := z_push z p]> zs). cbn. split_and!.
  - done.
  - intros q. rewrite elem_of_union, elem_of_singleton, Hact.
    rewrite (members_insert _ _ _ _ _ Hz), (members_split _ _ _ _ Hz).
    rewrite zlist_push, elem_of_app, list_elem_of_singleton. tauto.
  - set_solver.
  - intros q Hq Hqa. apply Hdet'; [set_solver|]. apply Hdet; set_solver.
  - done.
Qed.

Lemma priosched_getpipe s known active :
  priosched_inv s known active ->
  exists o, s_getpipe s = Ret o /\ match o with Some p => p ∈ active | None => active = ∅ end.
Proof.
  intros (zs & Hrep & Hact & Hsub & _ & Hdat). cbn. rewrite (getpipe_spec _ _ _ _ Hrep).
  destruct (top_cases zs) as [(_ & -> & Hb)|(l & b & x & f & r & Hzs & _ & _ & ->)].
  - exists None. split; [done|]. apply set_eq. intros p. rewrite Hact. split; [|set_solver].
    intros (i & z & Hz & Hp). unfold blank in Hb. rewrite Forall_lookup in Hb.
    assert (Hs := Hb _ _ Hz). pose proof (prio_slot_ok _ _ _ _ _ _ Hrep Hz Hs) as Hf.
    unfold zlist in Hp. rewrite Hs, Hf in Hp. by apply elem_of_nil in Hp.
  - assert (Hx : x ∈ active).
    { apply Hact. exists (length l), (b, x :: f). split.
      - by rewrite Hzs, lookup_app_r, Nat.sub_diag.
      - unfold zlist. set_solver. }
    destruct (Hdat x ltac:(set_solver)) as (prio & _ & Hd). load Hd. by exists (Some x).
Qed.

Lemma priosched_is_active s known active :
  priosched_inv s known active -> s_is_active s = if decide (active = ∅) then 0 else 1.
Proof.
  intros Hinv. destruct (priosched_getpipe _ _ _ Hinv) as (o & Ho & Hoa).
  destruct Hinv as (zs & Hrep & _). cbn in *. rewrite (is_active_spec _ _ _ _ Hrep).
  rewrite (getpipe_spec _ _ _ _ Hrep) in Ho. destruct (z_current zs) as [x|].
  - inv_ret. rewrite decide_False; [done|]. set_solver.
  - injection Ho as <-. by rewrite decide_True.
Qed.

Lemma priosched_advance s known active p release :
  priosched_inv s known active -> s_getpipe s = Ret (Some p) ->
  exists s', s_advance s release = Ret s' /\
    priosched_inv s' known (if release then active ∖ {[p]} else active).
Proof.
  intros (zs & Hrep & Hact & Hsub & Hdet & Hdat). cbn. rewrite (getpipe_spec _ _ _ _ Hrep).
  destruct (top_cases zs) as [(_ & -> & Hb)|(l & b & x & f & r & Hzs & Hb & _ & ->)]; [done|].
  intros Hg. assert (Hz : zs !! length l = Some (b, x :: f)) by by rewrite Hzs, lookup_app_r, Nat.sub_diag.
  assert (Hxa : x ∈ active).
  { apply Hact. exists (length l), (b, x :: f). split; [done|]. unfold zlist. set_solver. }
  destruct (Hdat x ltac:(set_solver)) as (prio & _ & Hd).
  rewrite (deref_Some _ _ _ Hd) in Hg. injection Hg as <-.
  assert (Hins : <[length l := z_advance release (b, x :: f)]> zs = l ++ z_advance release (b, x :: f) :: r).
  { rewrite Hzs, <-(Nat.add_0_r (length l)), insert_app_r. done. }
  pose proof (prio_slot_NoDup _ _ _ _ _ _ Hrep Hz) as Hnd.
  rewrite Hzs in Hrep.
  destruct (advance_spec _ _ _ _ _ _ _ _ release Hrep Hb) as (h' & P' & -> & Hrep' & Hx & Hdet').
  rewrite <-Hzs in Hrep. cbn [pipe].
  eexists. split; [reflexivity|]. eexists. cbn. rewrite <-Hins in Hrep'. split; [exact Hrep'|].
  assert (Hmem : forall q, q ∈ (if release then active ∖ {[x]} else active) <->
    q ∈ active /\ (release = true -> q <> x)) by (intros q; destruct release; set_solver).
  split_and!.
  - intros q. rewrite Hmem, Hact, (members_insert _ _ _ _ _ Hz), (members_split _ _ _ _ Hz).
    rewrite z_advance_elem by done. split; [naive_solver|].
    intros [[? ?]|(j & w & Hne & Hj & Hq)]; [naive_solver|]. split; [naive_solver|].
    intros _ ->. apply Hne. eapply (prio_unique _ _ _ _ Hrep x j (length l)); eauto.
    unfold zlist. set_solver.
  - intros q [Hq _]%Hmem. by apply Hsub.
  - intros q Hq Hqa. destruct (decide (q = x)) as [->|Hne].
    + destruct release; [done|]. by destruct Hqa.
    + apply Hdet', Hdet; [done|]. intros Hq'. apply Hqa, Hmem. naive_solver.
  - done.
Qed.

Lemma priosched_get_priority s known active :
  priosched_inv s known active ->
  s_get_priority s = -1 \/ 1 <= s_get_priority s <= NN_PRIOLIST_SLOTS.
Proof.
  intros (zs & Hrep & _). cbn. unfold nn_priolist_get_priority.
  pose proof (prio_length _ _ _ _ Hrep). destruct Hrep as (_ & _ & _ & -> & _).
  destruct (top_range zs); [auto|]. unfold NN_PRIOLIST_SLOTS in *. right. lia.
Qed.

Lemma term_slots_blank h ss zs :
  Forall2 (fun s z => list_rep h (pipes s) (zlist z)) ss zs ->
  Forall (fun z => zlist z = []) zs -> term_slots ss = Ret tt.
Proof.
  induction 1 as [|s z ss zs Hs _ IH]; intros Hz; [done|].
  apply Forall_cons in Hz as [Hz Hzs]. cbn. rewrite (proj2 (term_spec _ _ _ Hs) Hz). by apply IH.
Qed.

Lemma priosched_term s known active :
  priosched_inv s known active -> active = ∅ -> s_term s = Ret tt.
Proof.
  intros (zs & Hrep & Hact & _) ->. cbn. unfold nn_priolist_term.
  apply (term_slots_blank (ps_heap s) _ zs).
  - destruct Hrep as (_ & [Hsl _] & _). rewrite Forall2_fmap in Hsl. done.
  - apply Forall_lookup. intros i z Hz. destruct (zlist z) as [|x l] eqn:E; [done|].
    assert (Hx : x ∈ (∅ : gset loc)) by (apply Hact; exists i, z; rewrite E; set_solver).
    set_solver.
Qed.

#[export] Instance priolist_laws : SchedulerLaws priosched := {|
  s_inv := priosched_inv;
  s_inv_init := priosched_init;
  s_add_ok := priosched_add;
  s_rm_ok := priosched_rm;
  s_activate_ok := priosched_activate;
  s_is_active_ok := priosched_is_active;
  s_getpipe_ok := priosched_getpipe;
  s_advance_ok := priosched_advance;
  s_get_priority_ok := priosched_get_priority;
  s_term_ok := priosched_term;
  s_inv_sub s known active H := match H with ex_intro _ _ (conj _ (conj _ (conj Hs _))) => Hs end
|}.
