(* ===== verification/Pipe.v ===== *)
(** * Pipe: a pipe between a socket and a transport (src/core/pipe.c)

    [nn_pipebase] keeps the state of each direction.  A send or a receive calls
    the transport's virtual function; the transport either completes within
    the call, by calling [nn_pipebase_sent] or [nn_pipebase_received], or later
    from an event of its own.  What the transport does in a call is the
    argument [answer]: its return code, whether it completes at once and, for a
    receive, the message.  Functions that raise an event of the pipe return the
    list of events raised. *)

From stdpp Require Import base gmap list.
From Stdlib Require Import ZArith Lia.
From S2P Require Import Prelude ListHeap.

Open Scope Z_scope.

(** ** Data *)

Inductive pipe_state : Type := P_IDLE | P_ACTIVE | P_FAILED.
Inductive in_state : Type := IN_DEACTIVATED | IN_IDLE | IN_RECEIVING | IN_RECEIVED | IN_ASYNC.
Inductive out_state : Type := OUT_DEACTIVATED | OUT_IDLE | OUT_SENDING | OUT_SENT | OUT_ASYNC.

#[export] Instance pipe_state_eq_dec : EqDecision pipe_state.
Proof. solve_decision. Defined.
#[export] Instance in_state_eq_dec : EqDecision in_state.
Proof. solve_decision. Defined.
#[export] Instance out_state_eq_dec : EqDecision out_state.
Proof. solve_decision. Defined.

(** The endpoint options copied into the pipe. *)
Record nn_ep_options : Type := EpOptions { sndprio : Z; rcvprio : Z; ipv4only : Z }.

Record nn_pipebase : Type := Pipebase {
  state : pipe_state; instate : in_state; outstate : out_state; options : nn_ep_options
}.

Definition NN_PIPE_RELEASE : Z := 1.
Definition NN_PIPE_PARSED : Z := 2.

Inductive pipe_event : Type := NN_PIPE_IN | NN_PIPE_OUT.

Record answer (M : Type) : Type := Answer { rc : Z; sync : bool; message : M }.
Arguments Answer {M}.
Arguments rc {M}.
Arguments sync {M}.
Arguments message {M}.

Definition set_in (self : nn_pipebase) (i : in_state) : nn_pipebase :=
  Pipebase (state self) i (outstate self) (options self).

Definition set_out (self : nn_pipebase) (o : out_state) : nn_pipebase :=
  Pipebase (state self) (instate self) o (options self).

(** ** Operations *)

Definition nn_pipebase_init (opts : nn_ep_options) : nn_pipebase :=
  Pipebase P_IDLE IN_DEACTIVATED OUT_DEACTIVATED opts.

Definition nn_pipebase_term (self : nn_pipebase) : outcome unit :=
  check (bool_decide (state self = P_IDLE)).

(** [nn_sock_add] is the socket's function; it updates the socket [S] and
    returns a code. *)
Definition nn_pipebase_start {S} (self : nn_pipebase) (nn_sock_add : nn_pipebase -> outcome (S * Z))
    : outcome (S * nn_pipebase * Z * list pipe_event) :=
  _ ← check (bool_decide (state self = P_IDLE));
  let self := Pipebase P_ACTIVE IN_ASYNC OUT_IDLE (options self) in
  '(s, rc) ← nn_sock_add self;
  if rc <? 0
  then Ret (s, Pipebase P_FAILED (instate self) (outstate self) (options self), rc, [])
  else Ret (s, self, 0, [NN_PIPE_OUT]).

Definition nn_pipebase_stop {S} (self : nn_pipebase) (s : S) (nn_sock_rm : S -> outcome S)
    : outcome (S * nn_pipebase) :=
  s ← (if decide (state self = P_ACTIVE) then nn_sock_rm s else Ret s);
  Ret (s, Pipebase P_IDLE (instate self) (outstate self) (options self)).

Definition nn_pipebase_received (self : nn_pipebase) : outcome (nn_pipebase * list pipe_event) :=
  if decide (instate self = IN_RECEIVING) then Ret (set_in self IN_RECEIVED, []) else
  _ ← check (bool_decide (instate self = IN_ASYNC));
  Ret (set_in self IN_IDLE, [NN_PIPE_IN]).

Definition nn_pipebase_sent (self : nn_pipebase) : outcome (nn_pipebase * list pipe_event) :=
  if decide (outstate self = OUT_SENDING) then Ret (set_out self OUT_SENT, []) else
  _ ← check (bool_decide (outstate self = OUT_ASYNC));
  Ret (set_out self OUT_IDLE, [NN_PIPE_OUT]).

Definition nn_pipe_send {M} (self : nn_pipebase) (ans : answer M) : outcome (nn_pipebase * Z) :=
  _ ← check (bool_decide (outstate self = OUT_IDLE));
  let self := set_out self OUT_SENDING in
  '(self, _) ← (if sync ans then nn_pipebase_sent self else Ret (self, []));
  _ ← check (rc ans >=? 0);
  if decide (outstate self = OUT_SENT) then Ret (set_out self OUT_IDLE, rc ans) else
  _ ← check (bool_decide (outstate self = OUT_SENDING));
  Ret (set_out self OUT_ASYNC, Z.lor (rc ans) NN_PIPE_RELEASE).

Definition nn_pipe_recv {M} (self : nn_pipebase) (ans : answer M)
    : outcome (nn_pipebase * Z * M) :=
  _ ← check (bool_decide (instate self = IN_IDLE));
  let self := set_in self IN_RECEIVING in
  '(self, _) ← (if sync ans then nn_pipebase_received self else Ret (self, []));
  _ ← check (rc ans >=? 0);
  if decide (instate self = IN_RECEIVED) then Ret (set_in self IN_IDLE, rc ans, message ans) else
  _ ← check (bool_decide (instate self = IN_RECEIVING));
  Ret (set_in self IN_ASYNC, Z.lor (rc ans) NN_PIPE_RELEASE, message ans).

(** ** What the functions do on each branch *)

Definition send_rc {M} (ans : answer M) : Z :=
  if sync ans then rc ans else Z.lor (rc ans) NN_PIPE_RELEASE.

Lemma pipe_send_idle {M} (self : nn_pipebase) (ans : answer M) :
  outstate self = OUT_IDLE -> 0 <= rc ans ->
  nn_pipe_send self ans =
    Ret (set_out self (if sync ans then OUT_IDLE else OUT_ASYNC), send_rc ans).
Proof.
  intros Ho Hrc. unfold nn_pipe_send, send_rc. rewrite Ho. cbn [check mbind outcome_bind].
  rewrite bool_decide_eq_true_2 by done. cbn [check mbind outcome_bind].
  rewrite (proj2 (Z.geb_le _ _) Hrc). destruct self, (sync ans); reflexivity.
Qed.

Lemma pipe_recv_idle {M} (self : nn_pipebase) (ans : answer M) :
  instate self = IN_IDLE -> 0 <= rc ans ->
  nn_pipe_recv self ans =
    Ret (set_in self (if sync ans then IN_IDLE else IN_ASYNC), send_rc ans, message ans).
Proof.
  intros Hi Hrc. unfold nn_pipe_recv, send_rc. rewrite Hi.
  rewrite bool_decide_eq_true_2 by done. cbn [check mbind outcome_bind].
  rewrite (proj2 (Z.geb_le _ _) Hrc). destruct self, (sync ans); reflexivity.
Qed.

Lemma sent_async (self : nn_pipebase) :
  outstate self = OUT_ASYNC -> nn_pipebase_sent self = Ret (set_out self OUT_IDLE, [NN_PIPE_OUT]).
Proof. intros Ho. unfold nn_pipebase_sent. rewrite Ho. reflexivity. Qed.

Lemma received_async (self : nn_pipebase) :
  instate self = IN_ASYNC -> nn_pipebase_received self = Ret (set_in self IN_IDLE, [NN_PIPE_IN]).
Proof. intros Hi. unfold nn_pipebase_received. rewrite Hi. reflexivity. Qed.

(** The release flag of a return code says whether the transport is done. *)
Lemma send_rc_release {M} (ans : answer M) :
  0 <= rc ans -> Z.testbit (rc ans) 0 = false ->
  Z.testbit (send_rc ans) 0 = negb (sync ans) /\
  Z.land (send_rc ans) (Z.lnot NN_PIPE_RELEASE) = rc ans.
Proof.
  intros Hrc Hbit. unfold send_rc, NN_PIPE_RELEASE.
  assert (Hland : forall x, Z.testbit x 0 = false -> Z.land x (Z.lnot 1) = x).
  { intros x Hx. apply Z.bits_inj'. intros n Hn. rewrite Z.land_spec, Z.lnot_spec by done.
    destruct (decide (n = 0)) as [->|]; [by rewrite Hx|].
    rewrite (Z.bits_above_log2 1) by (cbn; lia). by rewrite andb_true_r. }
  destruct (sync ans).
  - split; [done|by apply Hland].
  - split; [by rewrite Z.lor_spec, Hbit|].
    apply Z.bits_inj'. intros n Hn. rewrite Z.land_spec, Z.lnot_spec, Z.lor_spec by done.
    destruct (decide (n = 0)) as [->|]; [by rewrite Hbit|].
    rewrite (Z.bits_above_log2 1) by (cbn; lia). by rewrite orb_false_r, andb_true_r.
Qed.
