(* ===== verification/Lb.v ===== *)
(** * Lb: the load balancer of outgoing messages (src/protocols/utils/lb.c)

    [nn_lb] is a priority list; the definitions are written against the
    [Scheduler] interface, the theorems against its laws.  [lb_ready] is the
    invariant between a load balancer and the pipes it sends to: every active
    pipe can be written to. *)

From stdpp Require Import base gmap list sets.
From Stdlib Require Import ZArith Lia.
From S2P Require Import Prelude ListHeap Priolist Sched Pipe.

Open Scope Z_scope.

Abbreviation pipemap := (gmap positive nn_pipebase).

Section lb.
  Context {S : Type} `{Scheduler S}.

Definition nn_lb_init : S := s_init.

Definition nn_lb_term (self : S) : outcome unit := s_term self.

Definition nn_lb_add (self : S) (p : loc) (prio : Z) : S := s_add self p prio.

Definition nn_lb_rm (self : S) (p : loc) : outcome S := s_rm self p.

Definition nn_lb_out (self : S) (p : loc) : outcome S := s_activate self p.

Definition nn_lb_can_send (self : S) : Z := s_is_active self.

Definition nn_lb_get_priority (self : S) : Z := s_get_priority self.

(** The message goes to the pipe returned as the last component. *)
Definition nn_lb_send (self : S) (ps : pipemap) (ans : loc -> answer unit)
    : outcome (S * pipemap * Z * option loc) :=
  o ← s_getpipe self;
  match o with
  | None => Ret (self, ps, - EAGAIN, None)
  | Some p =>
      pb ← deref ps p;
      '(pb, rc) ← nn_pipe_send pb (ans p);
      _ ← check (rc >=? 0);
      self ← s_advance self (negb (Z.land rc NN_PIPE_RELEASE =? 0));
      Ret (self, <[p := pb]> ps, Z.land rc (Z.lnot NN_PIPE_RELEASE), Some p)
  end.
End lb.

(** What the code relies on of a transport: a code that is no error, with the
    release bit left to the pipe. *)
Definition good_answer {M} (a : answer M) : Prop := 0 <= rc a /\ Z.testbit (rc a) 0 = false.

Lemma send_rc_nonneg {M} (a : answer M) : good_answer a -> 0 <= send_rc a.
Proof.
  intros [Hrc _]. unfold send_rc. destruct (sync a); [done|]. apply Z.lor_nonneg.
  split; [done|]. by unfold NN_PIPE_RELEASE.
Qed.

Lemma release_flag {M} (a : answer M) :
  good_answer a -> negb (Z.land (send_rc a) NN_PIPE_RELEASE =? 0) = negb (sync a).
Proof.
  intros [Hrc Hb]. destruct (send_rc_release a Hrc Hb) as [Hbit _].
  unfold NN_PIPE_RELEASE. change 1 with (Z.ones 1). rewrite Z.land_ones by lia.
  change (2 ^ 1) with 2. rewrite <-Z.bit0_mod, Hbit. by destruct (sync a).
Qed.

Section lb_laws.
  Context {S : Type} `{SchedulerLaws S}.

Definition lb_ready (self : S) (ps : pipemap) (known active : gset loc) : Prop :=
  s_inv self known active /\
  forall p, p ∈ active -> exists pb, ps !! p = Some pb /\ outstate pb = OUT_IDLE.

Lemma lb_send_spec self ps known active ans :
  lb_ready self ps known active -> (forall p, p ∈ active -> good_answer (ans p)) ->
  (active = ∅ /\ nn_lb_send self ps ans = Ret (self, ps, - EAGAIN, None)) \/
  exists p pb self', p ∈ active /\ ps !! p = Some pb /\ outstate pb = OUT_IDLE /\
    nn_lb_send self ps ans =
      Ret (self', <[p := set_out pb (if sync (ans p) then OUT_IDLE else OUT_ASYNC)]> ps,
           rc (ans p), Some p) /\
    s_inv self' known (if sync (ans p) then active else active ∖ {[p]}).
Proof.
  intros [Hinv Hready] Hans. destruct (s_getpipe_ok _ _ _ Hinv) as (o & Hg & Ho).
  unfold nn_lb_send. rewrite Hg. cbn [mbind outcome_bind]. destruct o as [p|]; [right|by left].
  destruct (Hready p Ho) as (pb & Hp & Hout). load Hp. specialize (Hans p Ho).
  rewrite pipe_send_idle by (done || apply Hans). cbn [mbind outcome_bind].
  pose proof (send_rc_nonneg _ Hans) as Hnn. rewrite (proj2 (Z.geb_le _ _) Hnn).
  cbn [check mbind outcome_bind]. rewrite release_flag by done.
  destruct (s_advance_ok _ _ _ p (negb (sync (ans p))) Hinv Hg) as (self' & -> & Hinv').
  cbn [mbind outcome_bind]. destruct (send_rc_release (ans p)) as [_ ->]; [apply Hans..|].
  exists p, pb, self'. split_and!; [done..|]. by destruct (sync (ans p)).
Qed.
End lb_laws.
