(* ===== verification/Fq.v ===== *)
(** * Fq: the fair queue of incoming messages (src/protocols/utils/fq.c)

    Like Lb.v for the receiving direction: a scheduler of the pipes that have a
    message to read.  [fq_ready] says that every active pipe can be read. *)

From stdpp Require Import base gmap list sets.
From Stdlib Require Import ZArith Lia.
From S2P Require Import Prelude ListHeap Priolist Sched Pipe Lb.

Open Scope Z_scope.

Section fq.
  Context {S : Type} `{Scheduler S} {M : Type}.

Definition nn_fq_init : S := s_init.

Definition nn_fq_term (self : S) : outcome unit := s_term self.

Definition nn_fq_add (self : S) (p : loc) (prio : Z) : S := s_add self p prio.

Definition nn_fq_rm (self : S) (p : loc) : outcome S := s_rm self p.

Definition nn_fq_in (self : S) (p : loc) : outcome S := s_activate self p.

Definition nn_fq_can_recv (self : S) : Z := s_is_active self.

(** The last component is the pipe the message came from, with the message. *)
Definition nn_fq_recv (self : S) (ps : pipemap) (ans : loc -> answer M)
    : outcome (S * pipemap * Z * option (loc * M)) :=
  o ← s_getpipe self;
  match o with
  | None => Ret (self, ps, - EAGAIN, None)
  | Some p =>
      pb ← deref ps p;
      '(pb, rc, msg) ← nn_pipe_recv pb (ans p);
      _ ← check (rc >=? 0);
      self ← s_advance self (negb (Z.land rc NN_PIPE_RELEASE =? 0));
      Ret (self, <[p := pb]> ps, Z.land rc (Z.lnot NN_PIPE_RELEASE), Some (p, msg))
  end.
End fq.

Section fq_laws.
  Context {S : Type} `{SchedulerLaws S} {M : Type}.

Definition fq_ready (self : S) (ps : pipemap) (known active : gset loc) : Prop :=
  s_inv self known active /\
  forall p, p ∈ active -> exists pb, ps !! p = Some pb /\ instate pb = IN_IDLE.

Lemma fq_recv_spec self ps known active (ans : loc -> answer M) :
  fq_ready self ps known active -> (forall p, p ∈ active -> good_answer (ans p)) ->
  (active = ∅ /\ nn_fq_recv self ps ans = Ret (self, ps, - EAGAIN, None)) \/
  exists p pb self', s_getpipe self = Ret (Some p) /\ p ∈ active /\ ps !! p = Some pb /\ instate pb = IN_IDLE /\
    nn_fq_recv self ps ans =
      Ret (self', <[p := set_in pb (if sync (ans p) then IN_IDLE else IN_ASYNC)]> ps,
           rc (ans p), Some (p, message (ans p))) /\
    s_inv self' known (if sync (ans p) then active else active ∖ {[p]}).
Proof.
  intros [Hinv Hready] Hans. destruct (s_getpipe_ok _ _ _ Hinv) as (o & Hg & Ho).
  unfold nn_fq_recv. rewrite Hg. cbn [mbind outcome_bind]. destruct o as [p|]; [right|by left].
  destruct (Hready p Ho) as (pb & Hp & Hin). load Hp. specialize (Hans p Ho).
  rewrite pipe_recv_idle by (done || apply Hans). cbn [mbind outcome_bind].
  pose proof (send_rc_nonneg _ Hans) as Hnn. rewrite (proj2 (Z.geb_le _ _) Hnn).
  cbn [check mbind outcome_bind]. rewrite release_flag by done.
  destruct (s_advance_ok _ _ _ p (negb (sync (ans p))) Hinv Hg) as (self' & -> & Hinv').
  cbn [mbind outcome_bind]. destruct (send_rc_release (ans p)) as [_ ->]; [apply Hans..|].
  exists p, pb, self'. split_and!; [done..|]. by destruct (sync (ans p)).
Qed.
End fq_laws.
