(* ===== verification/Timerset.v ===== *)
(** * Timerset: the ordered set of timeouts of a worker (src/aio/timerset.c)

    Handles live in the list heap; their [timeout] fields (64-bit instants in
    milliseconds) in a second map.  The clock reading of each call is the
    argument [now].  [timer_rep] says that the list represents a sequence of
    handles in the order of their timeouts. *)

From stdpp Require Import base gmap list sorting sets.
From Stdlib Require Import ZArith Lia.
From S2P Require Import Prelude ListHeap.

Open Scope Z_scope.

Abbreviation duemap := (gmap positive Z).

Record nn_timerset : Type := Timerset { timeouts : nn_list }.

Definition nn_timerset_init : nn_timerset := Timerset nn_list_init.

Definition nn_timerset_term (self : nn_timerset) : outcome unit := nn_list_term (timeouts self).

(** The loop that finds the first handle due later than [t]. *)
Fixpoint find_later (fuel : nat) (h : heap) (due : duemap) (L : nn_list) (it : link) (t : Z)
    : outcome link :=
  match fuel with
  | O => NoFuel
  | S fuel =>
    match it with
    | Null => Ret Null
    | NotIn => Undef
    | At p =>
        d ← deref due p;
        if t <? d then Ret (At p) else
        it ← nn_list_next h L it;
        find_later fuel h due L it t
    end
  end.

Definition nn_timerset_add (h : heap) (due : duemap) (self : nn_timerset) (now timeout : Z)
    (hndl : loc) : outcome (heap * duemap * nn_timerset * Z) :=
  let t := u64 (now + timeout) in
  let due := <[hndl := t]> due in
  it ← find_later (S (size h)) h due (timeouts self) (nn_list_begin (timeouts self)) t;
  let first := c_bool (bool_decide (nn_list_begin (timeouts self) = it)) in
  '(h, L) ← nn_list_insert h (timeouts self) hndl it;
  Ret (h, due, Timerset L, first).

Definition nn_timerset_rm (h : heap) (self : nn_timerset) (hndl : loc)
    : outcome (heap * nn_timerset * Z) :=
  b ← nn_list_item_isinlist h hndl;
  if negb b then Ret (h, self, 0) else
  let first := c_bool (bool_decide (nn_list_begin (timeouts self) = At hndl)) in
  '(h, L, _) ← nn_list_erase h (timeouts self) hndl;
  Ret (h, Timerset L, first).

Definition nn_timerset_timeout (due : duemap) (self : nn_timerset) (now : Z) : outcome Z :=
  match nn_list_begin (timeouts self) with
  | Null => Ret (-1)
  | At p =>
      d ← deref due p;
      let timeout := s32 (u64 (d - now)) in
      Ret (if timeout <? 0 then 0 else timeout)
  | NotIn => Undef
  end.

Definition nn_timerset_event (h : heap) (due : duemap) (self : nn_timerset) (now : Z)
    : outcome (heap * nn_timerset * Z * link) :=
  match nn_list_begin (timeouts self) with
  | Null => Ret (h, self, - EAGAIN, Null)
  | At first =>
      d ← deref due first;
      if d >? now then Ret (h, self, - EAGAIN, Null) else
      '(h, L, _) ← nn_list_erase h (timeouts self) first;
      Ret (h, Timerset L, 0, At first)
  | NotIn => Undef
  end.

Definition nn_timerset_hndl_init : item := nn_list_item_init.

Definition nn_timerset_hndl_term (h : heap) (self : loc) : outcome unit := nn_list_item_term h self.

Definition nn_timerset_hndl_isactive (h : heap) (self : loc) : outcome bool :=
  nn_list_item_isinlist h self.

(** ** Specification: a sequence of handles sorted by due time *)

Definition due_le (due : duemap) (x y : loc) : Prop :=
  match due !! x, due !! y with Some a, Some b => a <= b | _, _ => False end.

Definition timer_rep (h : heap) (due : duemap) (self : nn_timerset) (xs : list loc) : Prop :=
  list_rep h (timeouts self) xs /\ (forall x, x ∈ xs -> is_Some (due !! x)) /\
  StronglySorted (due_le due) xs.

(** The handles due up to [t], those due later. *)
Fixpoint split_due (due : duemap) (t : Z) (xs : list loc) : list loc * list loc :=
  match xs with
  | [] => ([], [])
  | x :: xs' =>
    match due !! x with
    | Some d => if t <? d then ([], xs) else let '(a, b) := split_due due t xs' in (x :: a, b)
    | None => ([], xs)
    end
  end.

Lemma split_due_app due t xs : fst (split_due due t xs) ++ snd (split_due due t xs) = xs.
Proof.
  induction xs as [|x xs IH]; cbn; [done|]. destruct (due !! x) as [d|]; [|done].
  destruct (t <? d); [done|]. destruct (split_due due t xs); cbn in *. by rewrite IH.
Qed.

Lemma split_due_fst due t xs x :
  x ∈ fst (split_due due t xs) -> exists d, due !! x = Some d /\ d <= t.
Proof.
  induction xs as [|y xs IH]; cbn; [set_solver|]. destruct (due !! y) as [d|] eqn:Hd; [|set_solver].
  destruct (Z.ltb_spec t d); [set_solver|]. destruct (split_due due t xs) as [a b]. cbn in *.
  intros [->|Hx]%elem_of_cons; [by exists d|by apply IH].
Qed.

Lemma split_due_snd due t xs x :
  (forall x, x ∈ xs -> is_Some (due !! x)) -> StronglySorted (due_le due) xs ->
  x ∈ snd (split_due due t xs) -> exists d, due !! x = Some d /\ t < d.
Proof.
  induction xs as [|y xs IH]; intros Hdue Hs; cbn; [set_solver|].
  destruct (Hdue y ltac:(set_solver)) as [d Hd]. rewrite Hd.
  apply StronglySorted_inv in Hs as [Hs Hy]. destruct (Z.ltb_spec t d).
  - cbn. intros [->|Hx]%elem_of_cons; [by exists d|].
    rewrite Forall_forall in Hy. specialize (Hy x Hx). unfold due_le in Hy. rewrite Hd in Hy.
    destruct (due !! x) as [e|]; [|done]. exists e. split; [done|lia].
  - destruct (split_due due t xs) as [a b] eqn:E. cbn. intros Hx. apply IH; [set_solver|done|done].
Qed.

Lemma find_later_spec fuel h due L l r t :
  list_rep h L (l ++ r) -> (length r < fuel)%nat -> (forall x, x ∈ r -> is_Some (due !! x)) ->
  find_later fuel h due L (hd_or Null (At <$> r)) t =
    Ret (hd_or Null (At <$> snd (split_due due t r))).
Proof.
  revert l r; induction fuel as [|fuel IH]; intros l r Hl Hlen Hd; [lia|].
  destruct r as [|x r]; cbn [find_later hd_or fmap list_fmap split_due]; [done|].
  destruct (Hd x ltac:(set_solver)) as [d Hx]. load Hx. rewrite Hx.
  destruct (t <? d); [done|]. rewrite (next_spec _ _ _ _ _ Hl). cbn [mbind outcome_bind].
  rewrite (IH (l ++ [x]) r); [|by rewrite <-app_assoc|cbn in Hlen; lia|set_solver].
  by destruct (split_due due t r).
Qed.

Lemma sorted_insert due a b x t :
  StronglySorted (due_le due) (a ++ b) -> due !! x = Some t ->
  (forall y, y ∈ a -> exists d, due !! y = Some d /\ d <= t) ->
  (forall y, y ∈ b -> exists d, due !! y = Some d /\ t < d) ->
  StronglySorted (due_le due) (a ++ x :: b).
Proof.
  intros Hs Hx Ha Hb. induction a as [|y a IH]; cbn in *.
  - constructor; [done|]. apply Forall_forall. intros z Hz. destruct (Hb z Hz) as (d & Hd & ?).
    unfold due_le. rewrite Hx, Hd. lia.
  - apply StronglySorted_inv in Hs as [Hs Hy]. constructor; [apply IH; [done|set_solver]|].
    rewrite Forall_app, Forall_cons in *. split_and!; [apply Hy| |apply Hy].
    destruct (Ha y ltac:(set_solver)) as (d & Hd & ?). unfold due_le. by rewrite Hd, Hx.
Qed.

Lemma sorted_agree due due' xs :
  (forall x, x ∈ xs -> due' !! x = due !! x) -> StronglySorted (due_le due) xs ->
  StronglySorted (due_le due') xs.
Proof.
  intros Ha. induction 1 as [|x xs Hs IH Hx]; constructor; [apply IH; set_solver|].
  rewrite Forall_forall in *. intros y Hy. unfold due_le. rewrite !Ha by set_solver. by apply Hx.
Qed.

Lemma split_due_agree due due' t xs :
  (forall x, x ∈ xs -> due' !! x = due !! x) -> split_due due' t xs = split_due due t xs.
Proof.
  induction xs as [|x xs IH]; intros Ha; cbn; [done|]. rewrite Ha by set_solver.
  rewrite IH by set_solver. done.
Qed.

Lemma begin_is_it h L a b :
  list_rep h L (a ++ b) ->
  bool_decide (nn_list_begin L = hd_or Null (At <$> b)) = bool_decide (a = []).
Proof.
  intros Hl. rewrite (begin_spec _ _ _ Hl). destruct a as [|x a]; cbn.
  - by rewrite !bool_decide_eq_true_2.
  - apply bool_decide_eq_false_2. destruct b as [|y b]; cbn; [done|].
    intros [= ->]. destruct Hl as (Hnd & _). cbn in Hnd. apply NoDup_cons in Hnd as [Hnd _]. set_solver.
Qed.

Lemma add_spec h due self xs now timeout x :
  timer_rep h due self xs -> detached h x ->
  let t := u64 (now + timeout) in
  let '(a, b) := split_due due t xs in
  exists h' self', nn_timerset_add h due self now timeout x =
      Ret (h', <[x := t]> due, self', c_bool (bool_decide (a = []))) /\
    timer_rep h' (<[x := t]> due) self' (a ++ x :: b) /\ frame (x :: xs) h h'.
Proof.
  intros (Hl & Hdue & Hs) Hx t. destruct (split_due due t xs) as [a b] eqn:E.
  assert (Hab : a ++ b = xs) by (rewrite <-(split_due_app due t xs), E; done).
  pose proof (detached_not_in _ _ _ _ Hl Hx) as Hxx.
  assert (Hag : forall y, y ∈ xs -> <[x := t]> due !! y = due !! y).
  { intros y Hy. rewrite lookup_insert_ne; [done|]. by intros <-. }
  unfold nn_timerset_add. fold t. rewrite (begin_spec _ _ _ Hl).
  rewrite (find_later_spec _ _ _ _ [] xs);
    [|done|apply list_rep_size in Hl; lia|intros y Hy; rewrite Hag; auto].
  rewrite (split_due_agree due) by done. rewrite E. cbn [mbind outcome_bind snd].
  rewrite <-(begin_spec _ _ _ Hl). rewrite <-Hab in Hl. rewrite (begin_is_it _ _ _ _ Hl).
  destruct (insert_spec _ _ _ _ _ Hl Hx) as (h' & L' & -> & Hl' & Hf). cbn [mbind outcome_bind].
  exists h', (Timerset L'). rewrite Hab in Hf. split_and!; [done| |done]. split_and!.
  - done.
  - intros y Hy. destruct (decide (y = x)) as [->|]; [by rewrite lookup_insert_eq|].
    rewrite Hag; [|rewrite <-Hab; set_solver]. apply Hdue. rewrite <-Hab. set_solver.
  - apply (sorted_insert _ _ _ _ t).
    + rewrite Hab. by eapply sorted_agree.
    + apply lookup_insert_eq.
    + intros y Hy. rewrite Hag by (rewrite <-Hab; set_solver).
      apply (split_due_fst due t xs). by rewrite E.
    + intros y Hy. rewrite Hag by (rewrite <-Hab; set_solver).
      apply (split_due_snd due t xs); [done..|by rewrite E].
Qed.

(** ** Refinement by a sorted sequence *)

Inductive timer_op : Type :=
| TAdd (now timeout : Z) (x : loc)
| TRm (x : loc)
| TTimeout (now : Z)
| TEvent (now : Z).

(** The abstract set: the due times and the handles in order; each operation
    also gives its return value. *)
Definition timer_op_spec (due : duemap) (xs : list loc) (op : timer_op)
    : duemap * list loc * (Z * link) :=
  match op with
  | TAdd now timeout x =>
      let t := now + timeout in
      let '(a, b) := split_due due t xs in
      (<[x := t]> due, a ++ x :: b, (c_bool (bool_decide (a = [])), Null))
  | TRm x => (due, filter (fun y => y <> x) xs, (c_bool (bool_decide (head xs = Some x)), Null))
  | TTimeout now =>
      (due, xs, (match xs with
                 | [] => -1
                 | x :: _ => match due !! x with Some d => Z.max 0 (d - now) | None => -1 end
                 end, Null))
  | TEvent now =>
      match xs with
      | [] => (due, xs, (- EAGAIN, Null))
      | x :: xs' =>
          match due !! x with
          | Some d => if d >? now then (due, xs, (- EAGAIN, Null)) else (due, xs', (0, At x))
          | None => (due, xs, (- EAGAIN, Null))
          end
      end
  end.

Definition run_timer_op (s : heap * duemap * nn_timerset) (op : timer_op)
    : outcome (heap * duemap * nn_timerset * (Z * link)) :=
  let '(h, due, self) := s in
  match op with
  | TAdd now timeout x => '(s, r) ← nn_timerset_add h due self now timeout x; Ret (s, (r, Null))
  | TRm x => '(h, self, r) ← nn_timerset_rm h self x; Ret (h, due, self, (r, Null))
  | TTimeout now => r ← nn_timerset_timeout due self now; Ret (s, (r, Null))
  | TEvent now => '(h, self, r, it) ← nn_timerset_event h due self now; Ret (h, due, self, (r, it))
  end.

(** Handles come from the pool and are added once; the clock stays within 63
    bits and due times within an [int] of it. *)
Definition tlegal (pool : list loc) (due : duemap) (xs : list loc) (op : timer_op) : Prop :=
  match op with
  | TAdd now timeout x => (x ∈ pool) /\ (x ∉ xs) /\ 0 <= now < 2 ^ 63 /\ 0 <= timeout < 2 ^ 31
  | TRm x => x ∈ pool
  | TTimeout now =>
      forall x d, head xs = Some x -> due !! x = Some d -> - 2 ^ 31 <= d - now < 2 ^ 31
  | TEvent now => True
  end.

Definition timer_inv (pool : list loc) (s : heap * duemap * nn_timerset) (due : duemap)
    (xs : list loc) : Prop :=
  let '(h, due', self) := s in
  due' = due /\ timer_rep h due self xs /\
  forall x, x ∈ pool -> x ∉ xs -> detached h x.

Lemma s32_u64 z : - 2 ^ 31 <= z < 2 ^ 31 -> s32 (u64 z) = z.
Proof.
  intros Hz. unfold s32, u32, u64. rewrite Z.mod_mod_divide by by exists (2 ^ 32).
  destruct (decide (0 <= z)).
  - rewrite Z.mod_small by lia. rewrite decide_True; lia.
  - replace (z mod 2 ^ 32) with (z + 2 ^ 32); [rewrite decide_False; lia|].
    apply Z.mod_unique with (-1); lia.
Qed.

Lemma timer_rm_step pool h due self xs x :
  timer_inv pool (h, due, self) due xs -> x ∈ pool ->
  exists h' self', nn_timerset_rm h self x = Ret (h', self', c_bool (bool_decide (head xs = Some x))) /\
    timer_inv pool (h', due, self') due (filter (fun y => y <> x) xs).
Proof.
  intros (_ & (Hl & Hdue & Hs) & Hout) Hx. unfold nn_timerset_rm.
  destruct (decide (x ∈ xs)) as [Hxs|Hxs].
  - rewrite (isinlist_in _ _ _ _ Hl Hxs). cbn [mbind outcome_bind negb].
    apply list_elem_of_split in Hxs as (l & r & ->).
    destruct (erase_spec _ _ _ _ _ Hl) as (h' & L' & -> & Hl' & Hd & Hf). cbn [mbind outcome_bind].
    rewrite filter_ne_split by by destruct Hl. rewrite (begin_spec _ _ _ Hl).
    assert (Hb : bool_decide (hd_or Null (At <$> l ++ x :: r) = At x) =
      bool_decide (head (l ++ x :: r) = Some x)).
    { apply bool_decide_ext. destruct l; cbn; split; congruence. }
    rewrite Hb. eexists _, _. split; [reflexivity|]. split; [done|]. split.
    + split_and!; [done|set_solver|].
      clear -Hs. induction l as [|y l IH]; cbn in *; apply StronglySorted_inv in Hs as [Hs Hy]; [done|].
      constructor; [by apply IH|]. rewrite Forall_app, Forall_cons in *. tauto.
    + intros y Hy Hyn. destruct (decide (y = x)) as [->|Hne]; [done|].
      unfold detached. rewrite Hf by set_solver. apply Hout; set_solver.
  - rewrite (isinlist_detached _ _ (Hout x Hx Hxs)). cbn [mbind outcome_bind negb].
    rewrite filter_ne_id by done. rewrite bool_decide_eq_false_2.
    { by exists h, self. }
    intros Hh. apply Hxs. destruct xs; [done|]. injection Hh as ->. by left.
Qed.

Lemma timer_event_step pool h due self xs now :
  timer_inv pool (h, due, self) due xs ->
  let '(_, xs', r) := timer_op_spec due xs (TEvent now) in
  exists h' self', nn_timerset_event h due self now = Ret (h', self', fst r, snd r) /\
    timer_inv pool (h', due, self') due xs'.
Proof.
  intros (_ & (Hl & Hdue & Hs) & Hout). cbn. unfold nn_timerset_event. rewrite (begin_spec _ _ _ Hl).
  destruct xs as [|x xs]; cbn [hd_or fmap list_fmap]; [by exists h, self|].
  destruct (Hdue x ltac:(set_solver)) as [d Hd]. load Hd. rewrite Hd.
  destruct (d >? now); [by exists h, self|].
  destruct (erase_spec h (timeouts self) [] x xs Hl) as (h' & L' & -> & Hl' & Hdx & Hf).
  cbn [mbind outcome_bind]. eexists _, _. split; [reflexivity|]. split; [done|]. split.
  - split_and!; [done|set_solver|]. by apply StronglySorted_inv in Hs as [? _].
  - intros y Hy Hyn. destruct (decide (y = x)) as [->|Hne]; [done|].
    unfold detached. rewrite Hf by set_solver. apply Hout; set_solver.
Qed.

Lemma timer_step pool h due self xs op :
  timer_inv pool (h, due, self) due xs -> tlegal pool due xs op ->
  let '(due', xs', r) := timer_op_spec due xs op in
  exists h' self', run_timer_op (h, due, self) op = Ret (h', due', self', r) /\
    timer_inv pool (h', due', self') due' xs'.
Proof.
  intros Hinv Hleg. pose proof Hinv as (_ & Hrep & Hout). destruct op as [now timeout x|x|now|now].
  - destruct Hleg as (Hx & Hxs & Hnow & Ht). cbn [timer_op_spec run_timer_op].
    pose proof (add_spec h due self xs now timeout x Hrep (Hout x Hx Hxs)) as Hadd. cbn zeta in Hadd.
    rewrite u64_small in Hadd by lia.
    destruct (split_due due (now + timeout) xs) as [a b] eqn:E.
    destruct Hadd as (h' & self' & -> & Hrep' & Hf). exists h', self'. split; [done|].
    assert (Hab : a ++ b = xs) by (rewrite <-(split_due_app due (now + timeout) xs), E; done).
    split; [done|]. split; [done|]. intros y Hy Hyn. unfold detached.
    rewrite Hf by (rewrite <-Hab; set_solver). apply Hout; [done|]. rewrite <-Hab. set_solver.
  - cbn [timer_op_spec run_timer_op]. destruct (timer_rm_step pool h due self xs x Hinv Hleg)
      as (h' & self' & -> & Hinv'). by exists h', self'.
  - cbn [timer_op_spec run_timer_op]. exists h, self. split; [|done].
    destruct Hrep as (Hl & Hdue & _). unfold nn_timerset_timeout. rewrite (begin_spec _ _ _ Hl).
    destruct xs as [|x xs]; [done|]. cbn [hd_or fmap list_fmap].
    destruct (Hdue x ltac:(set_solver)) as [d Hd]. load Hd. rewrite Hd.
    rewrite s32_u64 by by apply (Hleg x). destruct (Z.ltb_spec (d - now) 0).
    + by rewrite Z.max_l by lia.
    + by rewrite Z.max_r by lia.
  - pose proof (timer_event_step pool h due self xs now Hinv) as He. cbn [run_timer_op].
    destruct (timer_op_spec due xs (TEvent now)) as [[due' xs'] r] eqn:E.
    assert (due' = due) as ->.
    { cbn in E. destruct xs as [|x xs]; [congruence|]. destruct (due !! x) as [d|]; [|congruence].
      destruct (d >? now); congruence. }
    destruct He as (h' & self' & -> & Hinv'). exists h', self'. by destruct r.
Qed.

Fixpoint timer_ops_spec (due : duemap) (xs : list loc) (ops : list timer_op)
    : duemap * list loc * list (Z * link) :=
  match ops with
  | [] => (due, xs, [])
  | op :: ops =>
      let '(due, xs, r) := timer_op_spec due xs op in
      let '(due, xs, rs) := timer_ops_spec due xs ops in (due, xs, r :: rs)
  end.

Fixpoint run_timer_ops (s : heap * duemap * nn_timerset) (ops : list timer_op)
    : outcome (heap * duemap * nn_timerset * list (Z * link)) :=
  match ops with
  | [] => Ret (s, [])
  | op :: ops => '(s, r) ← run_timer_op s op; '(s, rs) ← run_timer_ops s ops; Ret (s, r :: rs)
  end.

Fixpoint tlegals (pool : list loc) (due : duemap) (xs : list loc) (ops : list timer_op) : Prop :=
  match ops with
  | [] => True
  | op :: ops =>
      tlegal pool due xs op /\
      let '(due, xs, _) := timer_op_spec due xs op in tlegals pool due xs ops
  end.

(** C26.  Any sequence of operations on a fresh timer set behaves as on a sequence
    of handles sorted by due time, equal times in the order of insertion: the
    search terminates, [nn_timerset_add] and [nn_timerset_rm] report exactly
    whether the earliest timeout changed, [nn_timerset_timeout] gives the time
    left till the earliest one (never negative) or -1, and [nn_timerset_event]
    delivers the earliest handle once it is due. *)
Theorem timerset_refines_sorted (pool : list loc) (h : heap) (due : duemap) (ops : list timer_op) :
  (forall x, x ∈ pool -> detached h x) -> tlegals pool due [] ops ->
  let '(due', xs', rs) := timer_ops_spec due [] ops in
  exists h' self', run_timer_ops (h, due, nn_timerset_init) ops = Ret (h', due', self', rs) /\
    timer_inv pool (h', due', self') due' xs' /\ StronglySorted (due_le due') xs'.
Proof.
  intros Hpool Hleg. assert (Hinv : timer_inv pool (h, due, nn_timerset_init) due []).
  { split_and!; [done| |auto]. split_and!; [by apply list_rep_nil|set_solver|constructor]. }
  clear Hpool. revert Hinv Hleg. generalize nn_timerset_init as self, (@nil loc) as xs. revert h due.
  induction ops as [|op ops IH]; intros h due self xs Hinv Hleg.
  { cbn. exists h, self. split; [done|]. split; [done|]. by destruct Hinv as (_ & (_ & _ & ?) & _). }
  cbn [timer_ops_spec run_timer_ops tlegals] in *. destruct Hleg as [Hop Hops].
  pose proof (timer_step pool h due self xs op Hinv Hop) as Hstep.
  destruct (timer_op_spec due xs op) as [[due1 xs1] r]. destruct Hstep as (h1 & self1 & -> & Hinv1).
  specialize (IH h1 due1 self1 xs1 Hinv1 Hops).
  destruct (timer_ops_spec due1 xs1 ops) as [[due2 xs2] rs].
  destruct IH as (h2 & self2 & E & Hinv2 & Hs). exists h2, self2.
  cbn [mbind outcome_bind]. rewrite E. done.
Qed.

(** Computes the states of a concrete history. *)
Ltac legal_steps :=
  repeat (cbn [tlegals tlegal];
    first [ match goal with
            | |- _ /\ (let '(_, _) := ?e in _) =>
                let v := eval vm_compute in e in change e with v; cbv beta iota
            end
          | match goal with |- _ /\ _ => split end ]).

Lemma timerset_refines_sorted_witness :
  let h := <[1%positive := nn_list_item_init]> (<[2%positive := nn_list_item_init]> ∅) in
  let ops := [TAdd 1000 50 1%positive; TAdd 1010 20 2%positive; TTimeout 1010; TEvent 1010;
              TEvent 1040; TRm 1%positive; TTimeout 1050] in
  exists h' due' self', run_timer_ops (h, ∅, nn_timerset_init) ops =
      Ret (h', due', self', [(1, Null); (1, Null); (20, Null); (-11, Null); (0, At 2%positive);
        (1, Null); (-1, Null)]) /\
    timer_inv [1; 2]%positive (h', due', self') due' [].
Proof.
  intros h ops. pose proof (timerset_refines_sorted [1; 2]%positive h ∅ ops) as H.
  destruct H as (h' & self' & E & Hinv & _).
  - intros x Hx. repeat (apply elem_of_cons in Hx as [->|Hx]; [reflexivity|]). by apply elem_of_nil in Hx.
  - unfold ops. legal_steps; try exact I; try set_solver; try lia.
    all: intros x d Hx Hd; vm_compute in Hx; injection Hx as <-; vm_compute in Hd; injection Hd as <-; lia.
  - eexists _, _, _. split; [exact E|exact Hinv].
Defined.
