(* ===== verification/Fsm.v ===== *)
(** * Fsm: hierarchical state machines (src/aio/fsm.c)

    Every asynchronous object of the library embeds an [nn_fsm] with two
    virtual functions: [fn] receives the events of a live object,
    [shutdown_fn] those of an object that is being stopped.  The class
    [FsmObject] is that interface; the functions of fsm.c are defined against
    it.  Events an object raises go to the queue of its context and are
    delivered to its owner when the context is left; [raised] is the part of
    that queue that belongs to the object, each entry an event object and the
    type raised with it. *)

From stdpp Require Import base list.
From Stdlib Require Import ZArith Lia.
From S2P Require Import Prelude.

Open Scope Z_scope.

Inductive fsm_state : Type := FSM_IDLE | FSM_ACTIVE | FSM_STOPPING.

#[export] Instance fsm_state_eq_dec : EqDecision fsm_state.
Proof. solve_decision. Defined.

Definition NN_FSM_ACTION : Z := -2.
Definition NN_FSM_START : Z := -2.
Definition NN_FSM_STOP : Z := -3.

(** Identity of an event object inside its owner; 0 is [fsm.stopped]. *)
Record nn_fsm : Type := Fsm { fsm_st : fsm_state; raised : list (Z * Z) }.

(** [handler self src type srcptr]; [srcptr] 0 is the null pointer. *)
Class FsmObject (S : Type) := {
  fsm : S -> nn_fsm;
  with_fsm : S -> nn_fsm -> S;
  fn : S -> Z -> Z -> Z -> outcome S;
  shutdown_fn : S -> Z -> Z -> Z -> outcome S
}.

(** The parts of fsm.c that do not call the virtual functions. *)

Definition nn_fsm_init : nn_fsm := Fsm FSM_IDLE [].

Definition nn_fsm_event_active (f : nn_fsm) (event : Z) : bool :=
  existsb (fun e => fst e =? event) (raised f).

Definition nn_fsm_isidle (f : nn_fsm) : bool :=
  bool_decide (fsm_st f = FSM_IDLE) && negb (nn_fsm_event_active f 0).

Definition nn_fsm_term (f : nn_fsm) : outcome unit := check (nn_fsm_isidle f).

(** [nn_queue_push] aborts when the event is queued already. *)
Definition nn_fsm_raise (f : nn_fsm) (event type : Z) : outcome nn_fsm :=
  _ ← check (negb (nn_fsm_event_active f event));
  Ret (Fsm (fsm_st f) (raised f ++ [(event, type)])).

Definition nn_fsm_stopped (f : nn_fsm) (type : Z) : outcome nn_fsm :=
  _ ← check (bool_decide (fsm_st f = FSM_STOPPING));
  f ← nn_fsm_raise f 0 type;
  Ret (Fsm FSM_IDLE (raised f)).

Definition nn_fsm_stopped_noevent (f : nn_fsm) : outcome nn_fsm :=
  _ ← check (bool_decide (fsm_st f = FSM_STOPPING));
  Ret (Fsm FSM_IDLE (raised f)).

Section object.
  Context {S : Type} `{FsmObject S}.

Definition set_fsm_state (self : S) (st : fsm_state) : S :=
  with_fsm self (Fsm st (raised (fsm self))).

Definition nn_fsm_feed (self : S) (src type srcptr : Z) : outcome S :=
  if decide (fsm_st (fsm self) <> FSM_STOPPING)
  then fn self src type srcptr else shutdown_fn self src type srcptr.

Definition nn_fsm_start (self : S) : outcome S :=
  _ ← check (nn_fsm_isidle (fsm self));
  self ← fn self NN_FSM_ACTION NN_FSM_START 0;
  Ret (set_fsm_state self FSM_ACTIVE).

Definition nn_fsm_stop (self : S) : outcome S :=
  if decide (fsm_st (fsm self) <> FSM_ACTIVE) then Ret self else
  shutdown_fn (set_fsm_state self FSM_STOPPING) NN_FSM_ACTION NN_FSM_STOP 0.

Definition nn_fsm_action (self : S) (type : Z) : outcome S :=
  _ ← check (type >? 0);
  nn_fsm_feed self NN_FSM_ACTION type 0.
End object.
