(* ===== verification/Timer.v ===== *)
(** * Timer: one-shot timers driven by a worker thread (src/aio/timer.c)

    A timer is a state machine seen by its owner plus two tasks and a timeout
    handle that live in the worker thread.  [sys] is the timer together with
    the part of the worker that concerns it: the queue of its tasks
    ([nn_worker_execute]), whether its handle is in the worker's timer set, and
    whether the worker has taken the handle out and is about to feed the
    timeout.  [step] are the moves of owner and worker, in any order.

    [timer_never_fails] shows that no interleaving hits an assertion or an
    unexpected event, [timer_stop_completes] that a requested stop is
    reported. *)

From stdpp Require Import base list.
From Stdlib Require Import ZArith Lia.
From S2P Require Import Prelude Fsm.

Open Scope Z_scope.

Inductive timer_state : Type := TIMER_IDLE | TIMER_ACTIVE | TIMER_STOPPING.

#[export] Instance timer_state_eq_dec : EqDecision timer_state.
Proof. solve_decision. Defined.

Definition NN_TIMER_SRC_START_TASK : Z := 1.
Definition NN_TIMER_SRC_STOP_TASK : Z := 2.
Definition NN_TIMER_TIMEOUT : Z := 1.
Definition NN_TIMER_STOPPED : Z := 2.
Definition NN_WORKER_TASK_EXECUTE : Z := 1.
Definition NN_WORKER_TIMER_TIMEOUT : Z := 1.

(** [srcptr] of the events the timeout handle causes. *)
Definition WTIMER : Z := 1.

(** The event object [done]. *)
Definition EV_DONE : Z := 1.

(** The fields of [nn_timer], with the worker's view of it: [tasks] queued in
    the worker, [armed] the handle is in the timer set. *)
Record nn_timer : Type := Timer {
  tfsm : nn_fsm; state : timer_state; timeout : Z; tasks : list Z; armed : bool
}.

Definition nn_timer_init : nn_timer := Timer nn_fsm_init TIMER_IDLE (-1) [] false.

Definition nn_timer_term (self : nn_timer) : outcome unit :=
  _ ← check (bool_decide (state self = TIMER_IDLE));
  _ ← check (negb (armed self));
  _ ← check (negb (existsb (Z.eqb NN_TIMER_SRC_STOP_TASK) (tasks self)));
  _ ← check (negb (existsb (Z.eqb NN_TIMER_SRC_START_TASK) (tasks self)));
  nn_fsm_term (tfsm self).

(** [nn_queue_push] aborts when the task is queued already. *)
Definition nn_worker_execute (self : nn_timer) (task : Z) : outcome nn_timer :=
  _ ← check (negb (existsb (Z.eqb task) (tasks self)));
  Ret (Timer (tfsm self) (state self) (timeout self) (tasks self ++ [task]) (armed self)).

(** [nn_timerset_add] aborts when the handle is in the set. *)
Definition nn_worker_add_timer (self : nn_timer) : outcome nn_timer :=
  _ ← check (negb (armed self));
  Ret (Timer (tfsm self) (state self) (timeout self) (tasks self) true).

Definition nn_worker_rm_timer (self : nn_timer) : nn_timer :=
  Timer (tfsm self) (state self) (timeout self) (tasks self) false.

Definition set_state (self : nn_timer) (st : timer_state) : nn_timer :=
  Timer (tfsm self) st (timeout self) (tasks self) (armed self).

Definition set_timeout (self : nn_timer) (t : Z) : nn_timer :=
  Timer (tfsm self) (state self) t (tasks self) (armed self).

Definition set_tfsm (self : nn_timer) (f : nn_fsm) : nn_timer :=
  Timer f (state self) (timeout self) (tasks self) (armed self).

Definition nn_timer_shutdown (self : nn_timer) (src type srcptr : Z) : outcome nn_timer :=
  if (src =? NN_FSM_ACTION) && (type =? NN_FSM_STOP) then
    nn_worker_execute (set_state self TIMER_STOPPING) NN_TIMER_SRC_STOP_TASK
  else if decide (state self = TIMER_STOPPING) then
    if negb (src =? NN_TIMER_SRC_STOP_TASK) then Ret self else
    _ ← check (type =? NN_WORKER_TASK_EXECUTE);
    let self := set_state (nn_worker_rm_timer self) TIMER_IDLE in
    f ← nn_fsm_stopped (tfsm self) NN_TIMER_STOPPED;
    Ret (set_tfsm self f)
  else Abort.

Definition nn_timer_handler (self : nn_timer) (src type srcptr : Z) : outcome nn_timer :=
  match state self with
  | TIMER_IDLE =>
      if (src =? NN_FSM_ACTION) && (type =? NN_FSM_START) then
        nn_worker_execute (set_state self TIMER_ACTIVE) NN_TIMER_SRC_START_TASK
      else Abort
  | TIMER_ACTIVE =>
      if src =? NN_TIMER_SRC_START_TASK then
        _ ← check (type =? NN_WORKER_TASK_EXECUTE);
        _ ← check (timeout self >=? 0);
        self ← nn_worker_add_timer self;
        Ret (set_timeout self (-1))
      else if srcptr =? WTIMER then
        if type =? NN_WORKER_TIMER_TIMEOUT then
          _ ← check (timeout self =? -1);
          f ← nn_fsm_raise (tfsm self) EV_DONE NN_TIMER_TIMEOUT;
          Ret (set_tfsm self f)
        else Abort
      else Abort
  | TIMER_STOPPING => Abort
  end.

#[export] Instance timer_object : FsmObject nn_timer := {|
  fsm := tfsm;
  with_fsm := set_tfsm;
  fn := nn_timer_handler;
  shutdown_fn := nn_timer_shutdown
|}.

Definition nn_timer_isidle (self : nn_timer) : bool := nn_fsm_isidle (tfsm self).

Definition nn_timer_start (self : nn_timer) (t : Z) : outcome nn_timer :=
  _ ← check (t >=? 0);
  nn_fsm_start (set_timeout self t).

Definition nn_timer_stop (self : nn_timer) : outcome nn_timer := nn_fsm_stop self.

(** ** Owner and worker, interleaved *)

(** A timer, and whether the worker has taken its handle out of the timer set
    without having fed the timeout yet. *)
Record sys : Type := Sys { timer : nn_timer; firing : bool }.

Inductive label : Type :=
| LStart (t : Z)      (* the owner starts the timer *)
| LStop               (* the owner stops it *)
| LTask               (* the worker executes the next task *)
| LExpire             (* nn_timerset_event delivers the handle *)
| LFeed               (* ... and the worker feeds the timeout *)
| LDeliver.           (* nn_ctx_leave delivers the next event to the owner *)

(** Events are delivered before the context is left, so all other steps wait
    for that; the worker finishes a timeout before it goes on. *)
Definition enabled (s : sys) (l : label) : bool :=
  match l with
  | LDeliver => match raised (tfsm (timer s)) with [] => false | _ => true end
  | _ =>
    match raised (tfsm (timer s)) with
    | [] => match l with
            | LStart t => nn_timer_isidle (timer s) && (t >=? 0)
            | LStop => true
            | LTask => negb (firing s) && match tasks (timer s) with [] => false | _ => true end
            | LExpire => negb (firing s) && armed (timer s)
            | LFeed => firing s
            | LDeliver => false
            end
    | _ => false
    end
  end.

Definition step (s : sys) (l : label) : outcome sys :=
  let t := timer s in
  match l with
  | LStart timeout => t ← nn_timer_start t timeout; Ret (Sys t (firing s))
  | LStop => t ← nn_timer_stop t; Ret (Sys t (firing s))
  | LTask =>
      match tasks t with
      | [] => Undef
      | task :: rest =>
          t ← nn_fsm_feed (Timer (tfsm t) (state t) (timeout t) rest (armed t))
                task NN_WORKER_TASK_EXECUTE 0;
          Ret (Sys t (firing s))
      end
  | LExpire => Ret (Sys (nn_worker_rm_timer t) true)
  | LFeed => t ← nn_fsm_feed t (-1) NN_WORKER_TIMER_TIMEOUT WTIMER; Ret (Sys t false)
  | LDeliver =>
      match raised (tfsm t) with
      | [] => Undef
      | _ :: rest => Ret (Sys (set_tfsm t (Fsm (fsm_st (tfsm t)) rest)) (firing s))
      end
  end.

Inductive reachable : sys -> Prop :=
| reach_init : reachable (Sys nn_timer_init false)
| reach_step s l s' : reachable s -> enabled s l = true -> step s l = Ret s' -> reachable s'.

(** Where a timer is in its life. *)
Definition inv (s : sys) : Prop :=
  let 'Sys (Timer (Fsm fs ev) st t ts ar) fi := s in
  match fs, st with
  | FSM_IDLE, TIMER_IDLE =>
      ts = [] /\ ar = false /\ fi = false /\ (ev = [] \/ ev = [(0, NN_TIMER_STOPPED)])
  | FSM_ACTIVE, TIMER_ACTIVE =>
      (ev = [] \/ ev = [(EV_DONE, NN_TIMER_TIMEOUT)] /\ ar = false /\ fi = false /\ ts = []) /\
      ((ts = [NN_TIMER_SRC_START_TASK] /\ 0 <= t /\ ar = false /\ fi = false) \/
       (ts = [] /\ t = -1 /\ (ar = true -> fi = false)))
  | FSM_STOPPING, TIMER_STOPPING =>
      ev = [] /\
      ((ts = [NN_TIMER_SRC_START_TASK; NN_TIMER_SRC_STOP_TASK] /\ ar = false /\ fi = false) \/
       ts = [NN_TIMER_SRC_STOP_TASK])
  | _, _ => False
  end.

Lemma inv_init : inv (Sys nn_timer_init false).
Proof. cbn. auto. Qed.

Ltac timer_cases :=
  repeat match goal with
  | H : _ /\ _ |- _ => destruct H
  | H : _ \/ _ |- _ => destruct H
  | H : true = false |- _ => discriminate H
  | H : false = true |- _ => discriminate H
  end; subst.

Lemma inv_step s l :
  inv s -> enabled s l = true -> exists s', step s l = Ret s' /\ inv s'.
Proof.
  destruct s as [[[fs ev] st t ts [|]] [|]].
  all: intros Hinv Hen.
  all: destruct fs, st; cbn in Hinv; try done; timer_cases;
    destruct l as [t'| | | | |]; cbn in Hen; try discriminate Hen;
    try match goal with H : true = true -> true = false |- _ => discriminate (H eq_refl) end.
  all: try (eexists; split; [reflexivity|]; cbn; auto 10).
  - change ((t' >=? 0) = true) in Hen. unfold step, nn_timer_start. cbn [timer]. rewrite Hen. eexists. split; [reflexivity|].
    cbn. apply Z.geb_le in Hen. auto 10.
  - cbn [step timer tasks]. unfold nn_fsm_feed. rewrite decide_True by done. cbn -[Z.geb].
    rewrite (proj2 (Z.geb_le _ _)) by done. eexists. split; [reflexivity|]. cbn. auto 10.
Qed.

Lemma reachable_inv s : reachable s -> inv s.
Proof.
  induction 1 as [|s l s' _ IH Hen Hstep]; [apply inv_init|].
  destruct (inv_step s l IH Hen) as (s2 & Hstep2 & Hinv). congruence.
Qed.

(** ** What a timer promises its owner

    [fsm_st] and the events raised are what the owner sees of a timer. *)

Definition looks (t : nn_timer) (st : fsm_state) (evs : list (Z * Z)) : Prop :=
  fsm_st (tfsm t) = st /\ raised (tfsm t) = evs.

Lemma start_idle t fi ivl :
  inv (Sys t fi) -> looks t FSM_IDLE [] -> 0 <= ivl ->
  exists t', nn_timer_start t ivl = Ret t' /\ inv (Sys t' fi) /\ looks t' FSM_ACTIVE [].
Proof.
  intros Hinv [Hst Hr] Hivl.
  destruct t as [[fs ev] st to ts ar]; cbn in Hst, Hr; subst; destruct st; cbn in Hinv; try done; timer_cases.
  all: unfold nn_timer_start; rewrite (proj2 (Z.geb_le _ _) Hivl).
  all: eexists; split; [reflexivity|]; split; [cbn; auto 10|done].
Qed.

Lemma stop_active t fi :
  inv (Sys t fi) -> looks t FSM_ACTIVE [] ->
  exists t', nn_timer_stop t = Ret t' /\ inv (Sys t' fi) /\ looks t' FSM_STOPPING [].
Proof.
  intros Hinv [Hst Hr].
  destruct t as [[fs ev] st to ts ar]; cbn in Hst, Hr; subst; destruct st; cbn in Hinv; try done; timer_cases.
  all: eexists; split; [reflexivity|]; split; [cbn; auto 10|done].
Qed.

(** Stopping a timer that is not running does nothing. *)
Lemma stop_inactive t evs st : looks t st evs -> st <> FSM_ACTIVE -> nn_timer_stop t = Ret t.
Proof. intros [Hst _] Hne. unfold nn_timer_stop, nn_fsm_stop. cbn. by rewrite Hst, decide_True. Qed.

(** The worker's steps: a running timer may raise its timeout, a stopping one
    its end. *)
Lemma worker_step t fi l st :
  inv (Sys t fi) -> looks t st [] -> enabled (Sys t fi) l = true ->
  (l = LTask \/ l = LExpire \/ l = LFeed) ->
  exists t' fi', step (Sys t fi) l = Ret (Sys t' fi') /\ inv (Sys t' fi') /\
    match st with
    | FSM_IDLE => False
    | FSM_ACTIVE => looks t' FSM_ACTIVE [] \/ looks t' FSM_ACTIVE [(EV_DONE, NN_TIMER_TIMEOUT)]
    | FSM_STOPPING => looks t' FSM_STOPPING [] \/ looks t' FSM_IDLE [(0, NN_TIMER_STOPPED)]
    end.
Proof.
  intros Hinv [Hst Hr] Hen Hl. destruct (inv_step _ _ Hinv Hen) as ([t' fi'] & Hs & Hinv').
  exists t', fi'. split; [done|]. split; [done|].
  destruct t as [[fs ev] ts to tk ar]; cbn in Hst, Hr; subst ev fs.
  destruct st, ts; cbn in Hinv; try done; destruct fi, ar; destruct Hl as [-> | [-> | ->]].
  all: cbn in Hen; try done; timer_cases; try done.
  all: cbn -[nn_fsm_feed mbind] in Hs; inv_ret; unfold looks; cbn in *; simplify_eq; cbn; auto.
  all: match goal with H : nn_fsm_feed _ _ _ _ = Ret _ |- _ =>
         unfold nn_fsm_feed in H; cbn -[Z.geb] in H;
         try rewrite (proj2 (Z.geb_le _ _)) in H by done; cbn in H; injection H as <- end.
  all: cbn; auto.
Qed.

(** The event a timer raised, and the timer after its delivery. *)
Lemma deliver_event t fi st ev evs :
  inv (Sys t fi) -> looks t st (ev :: evs) ->
  evs = [] /\ inv (Sys (set_tfsm t (Fsm st [])) fi) /\
  ((st = FSM_IDLE /\ snd ev = NN_TIMER_STOPPED) \/ (st = FSM_ACTIVE /\ snd ev = NN_TIMER_TIMEOUT)).
Proof.
  intros Hinv [Hst Hr].
  destruct t as [[fs evs'] ts to tk ar]; cbn in Hst, Hr; subst; destruct st, ts; cbn in Hinv; try done; timer_cases.
  all: simplify_eq; try done.
  all: split; [done|]; split; [|auto]; cbn; auto 10.
Qed.

(** In every reachable state of a timer and its worker, every step that is
    enabled runs to its end: no assertion of timer.c, fsm.c, the worker's
    queues or the timer set fails, and no state gets an event it does not
    expect, however starts, stops, tasks and timeouts interleave. *)
Theorem timer_never_fails (s : sys) (l : label) :
  reachable s -> enabled s l = true -> exists s', step s l = Ret s' /\ reachable s'.
Proof.
  intros Hr Hen. destruct (inv_step s l (reachable_inv s Hr) Hen) as (s' & Hs & _).
  exists s'. split; [done|]. by eapply reach_step.
Qed.

Lemma timer_never_fails_witness :
  exists s', step (Sys nn_timer_init false) (LStart 100) = Ret s' /\ reachable s'.
Proof.
  apply (timer_never_fails (Sys nn_timer_init false) (LStart 100)); [apply reach_init|reflexivity].
Defined.

(** The steps the worker still has to do for a timer that is being stopped. *)
Definition drain (s : sys) : list label :=
  (if firing s then [LFeed] else []) ++ ((fun _ => LTask) <$> tasks (timer s)).

Fixpoint steps (s : sys) (ls : list label) : outcome sys :=
  match ls with
  | [] => Ret s
  | l :: ls => if enabled s l then s ← step s l; steps s ls else Undef
  end.

(** A timer that was stopped reports it when the worker has done its tasks. *)
Lemma stop_drains s :
  inv s -> fsm_st (tfsm (timer s)) = FSM_STOPPING ->
  exists s', steps s (drain s) = Ret s' /\ looks (timer s') FSM_IDLE [(0, NN_TIMER_STOPPED)] /\
    armed (timer s') = false /\
    exists s2, step s' LDeliver = Ret s2 /\ nn_timer_isidle (timer s2) = true.
Proof.
  intros Hinv Hst. destruct s as [[[fs ev] st t ts [|]] [|]]; cbn in Hst; subst fs.
  all: destruct st; cbn in Hinv; try done; timer_cases.
  all: eexists; split; [reflexivity|]; split; [done|]; split; [reflexivity|].
  all: eexists; split; reflexivity.
Qed.

(** The worker's part of [drain]. *)
Lemma drain_worker s : Forall (fun l => l = LTask \/ l = LExpire \/ l = LFeed) (drain s).
Proof.
  unfold drain. apply Forall_app. split; [destruct (firing s); auto|].
  induction (tasks (timer s)); cbn; auto.
Qed.

(** A stopped timer reports it: from every reachable state in which a stop
    was requested, once the worker has executed the tasks it holds for the
    timer the timer is idle, its timeout is out of the timer set and
    [NN_TIMER_STOPPED] is raised; after the owner has got it, the timer can be
    started again. *)
Theorem timer_stop_completes (s : sys) :
  reachable s -> fsm_st (tfsm (timer s)) = FSM_STOPPING ->
  exists s', steps s (drain s) = Ret s' /\
    raised (tfsm (timer s')) = [(0, NN_TIMER_STOPPED)] /\ armed (timer s') = false /\
    exists s2, step s' LDeliver = Ret s2 /\ nn_timer_isidle (timer s2) = true.
Proof.
  intros Hr Hst. destruct (stop_drains s (reachable_inv s Hr) Hst) as (s' & Hs & [_ Hl] & Ha & He). eauto.
Qed.

(** A timer that is stopped right after it was started. *)
Definition stopping_timer : sys :=
  Sys (Timer (Fsm FSM_STOPPING []) TIMER_STOPPING 100
         [NN_TIMER_SRC_START_TASK; NN_TIMER_SRC_STOP_TASK] false) false.

Lemma stopping_timer_reachable : reachable stopping_timer.
Proof.
  set (started := Sys (Timer (Fsm FSM_ACTIVE []) TIMER_ACTIVE 100 [NN_TIMER_SRC_START_TASK] false) false).
  assert (Hs : reachable started) by (by apply (reach_step _ (LStart 100) started reach_init)).
  by apply (reach_step started LStop).
Qed.

Lemma timer_stop_completes_witness :
  exists s', steps stopping_timer [LTask; LTask] = Ret s' /\
    raised (tfsm (timer s')) = [(0, NN_TIMER_STOPPED)] /\ armed (timer s') = false /\
    exists s2, step s' LDeliver = Ret s2 /\ nn_timer_isidle (timer s2) = true.
Proof.
  apply (timer_stop_completes stopping_timer); [apply stopping_timer_reachable|reflexivity].
Defined.
