(* ===== verification/Sock.v ===== *)
(** * Sock: options, statistics and state machine of a socket (src/core/sock.c)

    [opts_valid] is what the rest of the library relies on of the option
    values: [nn_sock_setopt_inner] preserves it and reports every rejected
    value.  Options of other levels are the business of the socket type and the
    transport: [proto_setopt], [tran_setopt] and their getters are parameters. *)

From stdpp Require Import base list sets.
From Stdlib Require Import ZArith Lia.
From S2P Require Import Prelude.

Open Scope Z_scope.

(** ** Integers in memory: little-endian, two's complement *)

Definition int_bytes (v : Z) : list Z :=
  [u8 v; u8 (Z.shiftr v 8); u8 (Z.shiftr v 16); u8 (Z.shiftr v 24)].

Definition bytes_int (l : list Z) : Z :=
  match l with
  | [a; b; c; d] => s32 (a + Z.shiftl b 8 + Z.shiftl c 16 + Z.shiftl d 24)
  | _ => 0
  end.

Definition int_range (v : Z) : Prop := - 2 ^ 31 <= v < 2 ^ 31.

Lemma int_round_trip v : int_range v -> bytes_int (int_bytes v) = v.
Proof.
  intros Hv. unfold int_range in Hv. unfold bytes_int, int_bytes, u8, s32, u32.
  rewrite !Z.shiftl_mul_pow2, !Z.shiftr_div_pow2 by lia.
  change (2 ^ 8) with 256 in *. change (2 ^ 16) with 65536 in *. change (2 ^ 24) with 16777216 in *.
  change (2 ^ 31) with 2147483648 in *. change (2 ^ 32) with 4294967296 in *.
  set (w := v mod 256 + _ + _ + _).
  assert (Hw : w = v mod 4294967296).
  { unfold w. Z.div_mod_to_equations. lia. }
  rewrite Hw. rewrite Z.mod_mod by lia. case_decide; Z.div_mod_to_equations; lia.
Qed.

(** ** Options *)

Definition NN_SOL_SOCKET : Z := 0.
Definition NN_LINGER : Z := 1.
Definition NN_SNDBUF : Z := 2.
Definition NN_RCVBUF : Z := 3.
Definition NN_SNDTIMEO : Z := 4.
Definition NN_RCVTIMEO : Z := 5.
Definition NN_RECONNECT_IVL : Z := 6.
Definition NN_RECONNECT_IVL_MAX : Z := 7.
Definition NN_SNDPRIO : Z := 8.
Definition NN_RCVPRIO : Z := 9.
Definition NN_SNDFD : Z := 10.
Definition NN_RCVFD : Z := 11.
Definition NN_DOMAIN : Z := 12.
Definition NN_PROTOCOL : Z := 13.
Definition NN_IPV4ONLY : Z := 14.
Definition NN_SOCKET_NAME : Z := 15.
Definition NN_RCVMAXSIZE : Z := 16.
Definition NN_MAXTTL : Z := 17.

(** The option fields of [nn_sock]; the last three are [ep_template]. *)
Record sock_opts : Type := Opts {
  linger : Z; sndbuf : Z; rcvbuf : Z; rcvmaxsize : Z; sndtimeo : Z; rcvtimeo : Z;
  reconnect_ivl : Z; reconnect_ivl_max : Z; maxttl : Z;
  sndprio : Z; rcvprio : Z; ipv4only : Z;
  socket_name : list Z
}.

(** The values [nn_sock_init] sets; [name] is the decimal file descriptor. *)
Definition init_opts (name : list Z) : sock_opts :=
  Opts 1000 (128 * 1024) (128 * 1024) (1024 * 1024) (-1) (-1) 100 0 8 8 8 1 name.

Definition set_int (self : sock_opts) (opt v : Z) : sock_opts :=
  let 'Opts li sb rb rm st rt ri rx mt sp rp ip nm := self in
  if opt =? NN_LINGER then Opts v sb rb rm st rt ri rx mt sp rp ip nm else
  if opt =? NN_SNDBUF then Opts li v rb rm st rt ri rx mt sp rp ip nm else
  if opt =? NN_RCVBUF then Opts li sb v rm st rt ri rx mt sp rp ip nm else
  if opt =? NN_RCVMAXSIZE then Opts li sb rb v st rt ri rx mt sp rp ip nm else
  if opt =? NN_SNDTIMEO then Opts li sb rb rm v rt ri rx mt sp rp ip nm else
  if opt =? NN_RCVTIMEO then Opts li sb rb rm st v ri rx mt sp rp ip nm else
  if opt =? NN_RECONNECT_IVL then Opts li sb rb rm st rt v rx mt sp rp ip nm else
  if opt =? NN_RECONNECT_IVL_MAX then Opts li sb rb rm st rt ri v mt sp rp ip nm else
  if opt =? NN_SNDPRIO then Opts li sb rb rm st rt ri rx mt v rp ip nm else
  if opt =? NN_RCVPRIO then Opts li sb rb rm st rt ri rx mt sp v ip nm else
  if opt =? NN_IPV4ONLY then Opts li sb rb rm st rt ri rx mt sp rp v nm else
  if opt =? NN_MAXTTL then Opts li sb rb rm st rt ri rx v sp rp ip nm else
  self.

(** The [switch] over the integer optionions: [None] for an unknown option, else
    whether the value is accepted. *)
Definition accepts (opt val : Z) : option bool :=
  if opt =? NN_LINGER then Some true else
  if opt =? NN_SNDBUF then Some (negb (val <=? 0)) else
  if opt =? NN_RCVBUF then Some (negb (val <=? 0)) else
  if opt =? NN_RCVMAXSIZE then Some (negb (val <? -1)) else
  if opt =? NN_SNDTIMEO then Some true else
  if opt =? NN_RCVTIMEO then Some true else
  if opt =? NN_RECONNECT_IVL then Some (negb (val <? 0)) else
  if opt =? NN_RECONNECT_IVL_MAX then Some (negb (val <? 0)) else
  if opt =? NN_SNDPRIO then Some (negb ((val <? 1) || (val >? 16))) else
  if opt =? NN_RCVPRIO then Some (negb ((val <? 1) || (val >? 16))) else
  if opt =? NN_IPV4ONLY then Some (negb (negb (val =? 0) && negb (val =? 1))) else
  if opt =? NN_MAXTTL then Some (negb ((val <? 1) || (val >? 255))) else
  None.

Definition nn_sock_setopt_inner (proto_setopt tran_setopt : Z -> Z -> list Z -> Z)
    (self : sock_opts) (level opt : Z) (optval : list Z) : sock_opts * Z :=
  if level >? NN_SOL_SOCKET then (self, proto_setopt level opt optval) else
  if level <? NN_SOL_SOCKET then (self, tran_setopt level opt optval) else
  if opt =? NN_SOCKET_NAME then
    if (63 <? length optval)%nat then (self, - EINVAL) else
    let 'Opts li sb rb rm st rt ri rx mt sp rp ip nm := self in
    (Opts li sb rb rm st rt ri rx mt sp rp ip (optval ++ [0]), 0)
  else
  if negb (length optval =? 4)%nat then (self, - EINVAL) else
  let val := bytes_int optval in
  match accepts opt val with
  | None => (self, - ENOPROTOOPT)
  | Some false => (self, - EINVAL)
  | Some true => (set_int self opt val, 0)
  end.

Definition get_int (domain protocol : Z) (self : sock_opts) (opt : Z) : option Z :=
  if opt =? NN_DOMAIN then Some domain else
  if opt =? NN_PROTOCOL then Some protocol else
  if opt =? NN_LINGER then Some (linger self) else
  if opt =? NN_SNDBUF then Some (sndbuf self) else
  if opt =? NN_RCVBUF then Some (rcvbuf self) else
  if opt =? NN_RCVMAXSIZE then Some (rcvmaxsize self) else
  if opt =? NN_SNDTIMEO then Some (sndtimeo self) else
  if opt =? NN_RCVTIMEO then Some (rcvtimeo self) else
  if opt =? NN_RECONNECT_IVL then Some (reconnect_ivl self) else
  if opt =? NN_RECONNECT_IVL_MAX then Some (reconnect_ivl_max self) else
  if opt =? NN_SNDPRIO then Some (sndprio self) else
  if opt =? NN_RCVPRIO then Some (rcvprio self) else
  if opt =? NN_IPV4ONLY then Some (ipv4only self) else
  if opt =? NN_MAXTTL then Some (maxttl self) else
  None.

(** What the type of the socket supports; the two event descriptors. *)
Record sock_type : Type := SockType {
  domain : Z; protocol : Z; nosend : bool; norecv : bool; sndfd : Z; rcvfd : Z
}.

(** Characters before the terminating zero. *)
Fixpoint c_string (l : list Z) : list Z :=
  match l with
  | [] => []
  | c :: l' => if c =? 0 then [] else c :: c_string l'
  end.

(** The result: the code, the bytes written to [optval], the new [optvallen].
    [strncpy] pads with zeros up to the buffer's length. *)
Definition nn_sock_getopt_inner (proto_getopt tran_getopt : Z -> Z -> nat -> Z * list Z * Z)
    (ty : sock_type) (self : sock_opts) (level opt : Z) (optvallen : nat) : Z * list Z * Z :=
  if level >? NN_SOL_SOCKET then proto_getopt level opt optvallen else
  if level <? NN_SOL_SOCKET then tran_getopt level opt optvallen else
  match get_int (domain ty) (protocol ty) self opt with
  | Some intval => (0, take optvallen (int_bytes intval), 4)
  | None =>
    if opt =? NN_SNDFD then
      if nosend ty then (- ENOPROTOOPT, [], Z.of_nat optvallen)
      else (0, take optvallen (int_bytes (sndfd ty)), 4)
    else if opt =? NN_RCVFD then
      if norecv ty then (- ENOPROTOOPT, [], Z.of_nat optvallen)
      else (0, take optvallen (int_bytes (rcvfd ty)), 4)
    else if opt =? NN_SOCKET_NAME then
      let name := c_string (socket_name self) in
      (0, take optvallen (name ++ replicate optvallen 0), Z.of_nat (length name))
    else (- ENOPROTOOPT, [], Z.of_nat optvallen)
  end.

Definition opts_valid (self : sock_opts) : Prop :=
  0 < sndbuf self /\ 0 < rcvbuf self /\ -1 <= rcvmaxsize self /\
  0 <= reconnect_ivl self /\ 0 <= reconnect_ivl_max self /\
  1 <= maxttl self <= 255 /\ 1 <= sndprio self <= 16 /\ 1 <= rcvprio self <= 16 /\
  0 <= ipv4only self <= 1 /\ (length (socket_name self) <= 64)%nat.

(** The options both setter and getter know. *)
Definition int_options : list Z :=
  [NN_LINGER; NN_SNDBUF; NN_RCVBUF; NN_RCVMAXSIZE; NN_SNDTIMEO; NN_RCVTIMEO; NN_RECONNECT_IVL;
   NN_RECONNECT_IVL_MAX; NN_SNDPRIO; NN_RCVPRIO; NN_IPV4ONLY; NN_MAXTTL].

Lemma accepts_known opt val b : accepts opt val = Some b -> opt ∈ int_options.
Proof.
  unfold accepts. intros H.
  repeat match type of H with
  | (if ?o =? ?c then _ else _) = _ => destruct (Z.eqb_spec o c) as [->|]; [unfold int_options; set_solver|]
  end. done.
Qed.

Lemma set_int_valid self opt val :
  opts_valid self -> accepts opt val = Some true -> opts_valid (set_int self opt val).
Proof.
  intros Hv Ha. pose proof (accepts_known _ _ _ Ha) as Hk. destruct self.
  unfold int_options in Hk.
  repeat (apply elem_of_cons in Hk as [->|Hk]; [|]); [..|by apply elem_of_nil in Hk].
  all: cbn in Ha; try (injection Ha as Ha); unfold opts_valid in *; cbn in *; lia.
Qed.

Lemma get_set_same dom proto self opt val :
  opt ∈ int_options -> get_int dom proto (set_int self opt val) opt = Some val.
Proof.
  intros Hk. destruct self. unfold int_options in Hk.
  repeat (apply elem_of_cons in Hk as [->|Hk]; [reflexivity|]). by apply elem_of_nil in Hk.
Qed.

Lemma get_set_other dom proto self o1 o2 val :
  o1 ∈ int_options -> o2 <> o1 ->
  get_int dom proto (set_int self o1 val) o2 = get_int dom proto self o2.
Proof.
  intros Hk Hne. destruct self. unfold int_options in Hk.
  repeat (apply elem_of_cons in Hk as [->|Hk];
    [unfold get_int; cbn; repeat case_match; try done; lia|]). by apply elem_of_nil in Hk.
Qed.

Lemma set_int_name self opt v : socket_name (set_int self opt v) = socket_name self.
Proof. destruct self. unfold set_int. repeat case_match; done. Qed.

Lemma setopt_valid ps ts self level opt optval :
  opts_valid self -> opts_valid (fst (nn_sock_setopt_inner ps ts self level opt optval)).
Proof.
  intros Hv. unfold nn_sock_setopt_inner.
  destruct (level >? NN_SOL_SOCKET); [done|]. destruct (level <? NN_SOL_SOCKET); [done|].
  destruct (opt =? NN_SOCKET_NAME).
  - destruct (Nat.ltb_spec 63 (length optval)); [done|]. destruct self. unfold opts_valid in *.
    cbn in *. rewrite length_app. cbn. lia.
  - destruct (negb _); [done|]. destruct (accepts opt (bytes_int optval)) as [[|]|] eqn:E; try done.
    by apply set_int_valid.
Qed.

Lemma setopt_error ps ts self opt optval :
  let '(self', rc) := nn_sock_setopt_inner ps ts self NN_SOL_SOCKET opt optval in
  (rc = 0 \/ self' = self) /\
  (opt <> NN_SOCKET_NAME ->
    rc = if negb (length optval =? 4)%nat then - EINVAL else
         match accepts opt (bytes_int optval) with
         | None => - ENOPROTOOPT | Some false => - EINVAL | Some true => 0
         end).
Proof.
  unfold nn_sock_setopt_inner. change (NN_SOL_SOCKET >? NN_SOL_SOCKET) with false.
  change (NN_SOL_SOCKET <? NN_SOL_SOCKET) with false. cbv iota.
  destruct (Z.eqb_spec opt NN_SOCKET_NAME) as [->|Hne].
  - destruct (63 <? length optval)%nat; [by split; [right|]|]. destruct self. by split; [left|].
  - destruct (negb _); [by split; [right|]|].
    destruct (accepts opt (bytes_int optval)) as [[|]|]; (split; [auto|done]).
Qed.


Lemma init_opts_valid name : (length name <= 64)%nat -> opts_valid (init_opts name).
Proof. intros. unfold opts_valid, init_opts. cbn. lia. Qed.


(** ** Statistics *)

Record statistics : Type := Stats {
  established_connections : Z; accepted_connections : Z; dropped_connections : Z;
  broken_connections : Z; connect_errors : Z; bind_errors : Z; accept_errors : Z;
  messages_sent : Z; messages_received : Z; bytes_sent : Z; bytes_received : Z;
  current_connections : Z; inprogress_connections : Z; current_snd_priority : Z;
  current_ep_errors : Z
}.

Definition init_stats : statistics := Stats 0 0 0 0 0 0 0 0 0 0 0 0 0 0 0.

Definition NN_STAT_ESTABLISHED_CONNECTIONS : Z := 101.
Definition NN_STAT_ACCEPTED_CONNECTIONS : Z := 102.
Definition NN_STAT_DROPPED_CONNECTIONS : Z := 103.
Definition NN_STAT_BROKEN_CONNECTIONS : Z := 104.
Definition NN_STAT_CONNECT_ERRORS : Z := 105.
Definition NN_STAT_BIND_ERRORS : Z := 106.
Definition NN_STAT_ACCEPT_ERRORS : Z := 107.
Definition NN_STAT_CURRENT_CONNECTIONS : Z := 201.
Definition NN_STAT_INPROGRESS_CONNECTIONS : Z := 202.
Definition NN_STAT_CURRENT_EP_ERRORS : Z := 203.
Definition NN_STAT_MESSAGES_SENT : Z := 301.
Definition NN_STAT_MESSAGES_RECEIVED : Z := 302.
Definition NN_STAT_BYTES_SENT : Z := 303.
Definition NN_STAT_BYTES_RECEIVED : Z := 304.
Definition NN_STAT_CURRENT_SND_PRIORITY : Z := 401.

Definition INT_MAX : Z := 2 ^ 31 - 1.

(** Addition to an [int]; overflow is undefined. *)
Definition int_add (a b : Z) : outcome Z :=
  if (- 2 ^ 31 <=? a + b) && (a + b <? 2 ^ 31) then Ret (a + b) else Undef.

(** A level: how many there are now. *)
Definition level_add (cur inc : Z) : outcome Z :=
  _ ← check ((inc >? 0) || (cur >=? - inc));
  _ ← check ((inc <? INT_MAX) && (inc >? - INT_MAX));
  int_add cur inc.

(** A counter that only grows. *)
Definition counter_add (cur inc : Z) : outcome Z :=
  _ ← check (inc >? 0);
  Ret (u64 (cur + inc)).

Definition byte_counter_add (cur inc : Z) : outcome Z :=
  _ ← check (inc >=? 0);
  Ret (u64 (cur + inc)).

Definition nn_sock_stat_increment (s : statistics) (name inc : Z) : outcome statistics :=
  let 'Stats ec ac dc bc ce be ae ms mr bs br cc ic sp ee := s in
  if name =? NN_STAT_ESTABLISHED_CONNECTIONS then
    x ← counter_add ec inc; Ret (Stats x ac dc bc ce be ae ms mr bs br cc ic sp ee)
  else if name =? NN_STAT_ACCEPTED_CONNECTIONS then
    x ← counter_add ac inc; Ret (Stats ec x dc bc ce be ae ms mr bs br cc ic sp ee)
  else if name =? NN_STAT_DROPPED_CONNECTIONS then
    x ← counter_add dc inc; Ret (Stats ec ac x bc ce be ae ms mr bs br cc ic sp ee)
  else if name =? NN_STAT_BROKEN_CONNECTIONS then
    x ← counter_add bc inc; Ret (Stats ec ac dc x ce be ae ms mr bs br cc ic sp ee)
  else if name =? NN_STAT_CONNECT_ERRORS then
    x ← counter_add ce inc; Ret (Stats ec ac dc bc x be ae ms mr bs br cc ic sp ee)
  else if name =? NN_STAT_BIND_ERRORS then
    x ← counter_add be inc; Ret (Stats ec ac dc bc ce x ae ms mr bs br cc ic sp ee)
  else if name =? NN_STAT_ACCEPT_ERRORS then
    x ← counter_add ae inc; Ret (Stats ec ac dc bc ce be x ms mr bs br cc ic sp ee)
  else if name =? NN_STAT_MESSAGES_SENT then
    x ← counter_add ms inc; Ret (Stats ec ac dc bc ce be ae x mr bs br cc ic sp ee)
  else if name =? NN_STAT_MESSAGES_RECEIVED then
    x ← counter_add mr inc; Ret (Stats ec ac dc bc ce be ae ms x bs br cc ic sp ee)
  else if name =? NN_STAT_BYTES_SENT then
    x ← byte_counter_add bs inc; Ret (Stats ec ac dc bc ce be ae ms mr x br cc ic sp ee)
  else if name =? NN_STAT_BYTES_RECEIVED then
    x ← byte_counter_add br inc; Ret (Stats ec ac dc bc ce be ae ms mr bs x cc ic sp ee)
  else if name =? NN_STAT_CURRENT_CONNECTIONS then
    x ← level_add cc inc; Ret (Stats ec ac dc bc ce be ae ms mr bs br x ic sp ee)
  else if name =? NN_STAT_INPROGRESS_CONNECTIONS then
    x ← level_add ic inc; Ret (Stats ec ac dc bc ce be ae ms mr bs br cc x sp ee)
  else if name =? NN_STAT_CURRENT_SND_PRIORITY then
    _ ← check (((inc >? 0) && (inc <=? 16)) || (inc =? -1));
    Ret (Stats ec ac dc bc ce be ae ms mr bs br cc ic inc ee)
  else if name =? NN_STAT_CURRENT_EP_ERRORS then
    x ← level_add ee inc; Ret (Stats ec ac dc bc ce be ae ms mr bs br cc ic sp x)
  else Ret s.

Lemma stat_snd_priority s prio :
  prio = -1 \/ 1 <= prio <= 16 ->
  exists s', nn_sock_stat_increment s NN_STAT_CURRENT_SND_PRIORITY prio = Ret s' /\
    current_snd_priority s' = prio /\ current_connections s' = current_connections s.
Proof.
  intros Hp. destruct s. eexists. split.
  - cbn. replace (((prio >? 0) && (prio <=? 16)) || (prio =? -1)) with true by lia. reflexivity.
  - split; reflexivity.
Qed.

Lemma stat_connections s inc :
  0 <= current_connections s + inc < 2 ^ 31 -> - INT_MAX < inc < INT_MAX -> current_connections s <= INT_MAX ->
  exists s', nn_sock_stat_increment s NN_STAT_CURRENT_CONNECTIONS inc = Ret s' /\
    current_connections s' = current_connections s + inc /\
    current_snd_priority s' = current_snd_priority s.
Proof.
  intros Hc Hi Hm. destruct s. cbn in *. eexists. split; [unfold level_add, int_add|].
  - replace ((inc >? 0) || (current_connections0 >=? - inc)) with true by lia.
    replace ((inc <? INT_MAX) && (inc >? - INT_MAX)) with true by lia. cbn [check mbind outcome_bind].
    replace ((- 2 ^ 31 <=? current_connections0 + inc) && (current_connections0 + inc <? 2 ^ 31))
      with true by lia. reflexivity.
  - split; reflexivity.
Qed.
