(* ===== verification/SockFsm.v ===== *)
(** * SockFsm: the life of a socket (src/core/sock.c, nn_close in core/global.c)

    A socket is created active, collects endpoints, and is closed in stages: all
    endpoints are asked to stop, then the protocol, then the socket is
    finished and the closing thread is woken up.  [lstep] are the moves of the
    application threads, the endpoints and the protocol.

    The list heads [eps] and [sdeps] are the sequences of endpoints in them
    (ListHeap.v); memory, locks and event descriptors are left out, the two
    semaphores are counters. *)

From stdpp Require Import base list sets.
From Stdlib Require Import ZArith Lia.
From S2P Require Import Prelude Fsm ListHeap.

Open Scope Z_scope.

Inductive sock_state : Type :=
| SOCK_INIT | SOCK_ACTIVE | SOCK_STOPPING_EPS | SOCK_STOPPING | SOCK_FINI.

#[export] Instance sock_state_eq_dec : EqDecision sock_state.
Proof. solve_decision. Defined.

Definition NN_SOCK_ACTION_STOPPED : Z := 1.
Definition NN_SOCK_SRC_EP : Z := 1.
Definition NN_EP_STOPPED : Z := 1.
Definition NN_PIPE_IN : Z := 33987.
Definition NN_PIPE_OUT : Z := 33988.
Definition EBADF : Z := 9.

Record nn_sock : Type := Sock {
  sfsm : nn_fsm; state : sock_state; eps : list loc; sdeps : list loc; holds : Z;
  has_stop : bool;     (* the protocol has a stop function *)
  proto_stopping : bool;    (* it was called *)
  destroyed : bool;    (* the protocol part was destroyed *)
  termsem : Z; relesem : Z
}.

Definition nn_sock_init (proto_has_stop : bool) : nn_sock :=
  Sock nn_fsm_init SOCK_INIT [] [] 1 proto_has_stop false false 0 0.

Definition set_state (s : nn_sock) (st : sock_state) : nn_sock :=
  Sock (sfsm s) st (eps s) (sdeps s) (holds s) (has_stop s) (proto_stopping s) (destroyed s)
    (termsem s) (relesem s).

Definition set_sfsm (s : nn_sock) (f : nn_fsm) : nn_sock :=
  Sock f (state s) (eps s) (sdeps s) (holds s) (has_stop s) (proto_stopping s) (destroyed s)
    (termsem s) (relesem s).

Definition set_eps (s : nn_sock) (es ss : list loc) : nn_sock :=
  Sock (sfsm s) (state s) es ss (holds s) (has_stop s) (proto_stopping s) (destroyed s)
    (termsem s) (relesem s).

(** [nn_list_erase] of the endpoint, which must be in the list. *)
Definition erase (x : loc) (xs : list loc) : outcome (list loc) :=
  _ ← check (bool_decide (x ∈ xs));
  Ret (filter (fun y => y <> x) xs).

(** Label [finish1]: the protocol-specific part is stopped. *)
Definition finish1 (s : nn_sock) : nn_sock :=
  Sock (sfsm s) SOCK_FINI (eps s) (sdeps s) (holds s) (has_stop s) (proto_stopping s) true
    (termsem s + 1) (relesem s).

(** Label [finish2]: wait for the last endpoint. *)
Definition finish2 (s : nn_sock) : outcome nn_sock :=
  match sdeps s with
  | _ :: _ => Ret s
  | [] =>
      _ ← check (match eps s with [] => true | _ => false end);
      let s := set_state s SOCK_STOPPING in
      if negb (has_stop s) then Ret (finish1 s) else
      Ret (Sock (sfsm s) (state s) (eps s) (sdeps s) (holds s) (has_stop s) true (destroyed s)
             (termsem s) (relesem s))
  end.

(** [srcptr] is the endpoint for the events of endpoints. *)
Definition nn_sock_shutdown (s : nn_sock) (src type srcptr : Z) : outcome nn_sock :=
  if (src =? NN_FSM_ACTION) && (type =? NN_FSM_STOP) then
    _ ← check (bool_decide (state s = SOCK_ACTIVE));
    let s := set_eps s [] (sdeps s ++ eps s) in
    finish2 (set_state s SOCK_STOPPING_EPS)
  else if decide (state s = SOCK_STOPPING_EPS) then
    if negb ((src =? NN_SOCK_SRC_EP) && (type =? NN_EP_STOPPED)) then Ret s else
    ss ← erase (Z.to_pos srcptr) (sdeps s);
    finish2 (set_eps s (eps s) ss)
  else if decide (state s = SOCK_STOPPING) then
    _ ← check ((src =? NN_FSM_ACTION) && (type =? NN_SOCK_ACTION_STOPPED));
    Ret (finish1 s)
  else Abort.

(** Pipe events go to the protocol and leave this state alone. *)
Definition nn_sock_handler (s : nn_sock) (src type srcptr : Z) : outcome nn_sock :=
  match state s with
  | SOCK_INIT =>
      if (src =? NN_FSM_ACTION) && (type =? NN_FSM_START) then Ret (set_state s SOCK_ACTIVE)
      else Abort
  | SOCK_ACTIVE =>
      if src =? NN_FSM_ACTION then Abort
      else if src =? NN_SOCK_SRC_EP then
        if type =? NN_EP_STOPPED then
          ss ← erase (Z.to_pos srcptr) (sdeps s);
          Ret (set_eps s (eps s) ss)
        else Abort
      else if (type =? NN_PIPE_IN) || (type =? NN_PIPE_OUT) then Ret s
      else Abort
  | _ => Abort
  end.

#[export] Instance sock_object : FsmObject nn_sock := {|
  fsm := sfsm;
  with_fsm := set_sfsm;
  fn := nn_sock_handler;
  shutdown_fn := nn_sock_shutdown
|}.

Definition nn_sock_hold (s : nn_sock) : nn_sock * Z :=
  match state s with
  | SOCK_ACTIVE | SOCK_INIT =>
      (Sock (sfsm s) (state s) (eps s) (sdeps s) (holds s + 1) (has_stop s) (proto_stopping s)
         (destroyed s) (termsem s) (relesem s), 0)
  | _ => (s, - EBADF)
  end.

Definition nn_sock_rele (s : nn_sock) : nn_sock :=
  let h := holds s - 1 in
  Sock (sfsm s) (state s) (eps s) (sdeps s) h (has_stop s) (proto_stopping s) (destroyed s)
    (termsem s) (relesem s + c_bool (h =? 0)).

Definition nn_sock_stop (s : nn_sock) : outcome nn_sock := nn_fsm_stop s.

(** The new endpoint [x], already started, goes to the list. *)
Definition nn_sock_add_ep (s : nn_sock) (x : loc) : nn_sock :=
  set_eps s (eps s ++ [x]) (sdeps s).

(** Endpoints are named by their address here, by [eid] in the code. *)
Definition nn_sock_rm_ep (s : nn_sock) (x : loc) : nn_sock * Z :=
  if bool_decide (x ∈ eps s)
  then (set_eps s (filter (fun y => y <> x) (eps s)) (sdeps s ++ [x]), 0)
  else (s, - EINVAL).

(** The protocol reports that it has stopped; the event is processed when the
    context is left. *)
Definition nn_sock_stopped (s : nn_sock) : outcome nn_sock :=
  nn_fsm_feed s NN_FSM_ACTION NN_SOCK_ACTION_STOPPED 0.

(** The part of [nn_close] up to the wait in [nn_sock_term]. *)
Definition nn_close (s : nn_sock) : outcome (nn_sock * Z) :=
  let '(s, rc) := nn_sock_hold s in
  if rc <? 0 then Ret (s, rc) else
  s ← nn_sock_stop s;
  Ret (nn_sock_rele (nn_sock_rele s), 0).

(** ** The moves *)

Inductive slabel : Type :=
| LHold                (* an API call begins *)
| LRele                (* ... and ends *)
| LAddEp (x : loc)     (* nn_bind or nn_connect inserts its endpoint *)
| LRmEp (x : loc)      (* nn_shutdown *)
| LClose               (* nn_close *)
| LEpStopped (x : loc) (* an endpoint that was asked to stop has stopped *)
| LPipe (src : Z)      (* a pipe is readable or writable *)
| LProtoStopped.       (* the protocol has stopped *)

(** [late] says whether an endpoint may be inserted by a call that began before
    the socket was closed and goes on after. *)
Definition senabled (late : bool) (s : nn_sock) (l : slabel) : Prop :=
  match l with
  | LHold => True
  | LRele => 1 < holds s \/ (0 < holds s /\ state s <> SOCK_ACTIVE)
  | LAddEp x =>
      0 < holds s /\ (x ∉ eps s) /\ (x ∉ sdeps s) /\ (late = true \/ state s = SOCK_ACTIVE)
  | LRmEp x => 0 < holds s
  | LClose => True
  | LEpStopped x => x ∈ sdeps s
  | LPipe src => 1 < src /\ (eps s <> [] \/ sdeps s <> [])
  | LProtoStopped => proto_stopping s = true /\ destroyed s = false
  end.

Definition lstep (s : nn_sock) (l : slabel) : outcome nn_sock :=
  match l with
  | LHold => Ret (fst (nn_sock_hold s))
  | LRele => Ret (nn_sock_rele s)
  | LAddEp x => Ret (nn_sock_add_ep s x)
  | LRmEp x => Ret (fst (nn_sock_rm_ep s x))
  | LClose => '(s, _) ← nn_close s; Ret s
  | LEpStopped x => nn_fsm_feed s NN_SOCK_SRC_EP NN_EP_STOPPED (Z.pos x)
  | LPipe src => nn_fsm_feed s src NN_PIPE_IN 0
  | LProtoStopped => nn_sock_stopped s
  end.

Inductive sreachable (late : bool) : nn_sock -> Prop :=
| sreach_init b s : nn_fsm_start (nn_sock_init b) = Ret s -> sreachable late s
| sreach_step s l s' :
    sreachable late s -> senabled late s l -> lstep s l = Ret s' -> sreachable late s'.

(** The stages of a socket's life. *)
Definition sinv (s : nn_sock) : Prop :=
  raised (sfsm s) = [] /\
  match fsm_st (sfsm s), state s with
  | FSM_ACTIVE, SOCK_ACTIVE => proto_stopping s = false /\ destroyed s = false /\ termsem s = 0
  | FSM_STOPPING, SOCK_STOPPING_EPS =>
      eps s = [] /\ sdeps s <> [] /\ proto_stopping s = false /\ destroyed s = false /\ termsem s = 0
  | FSM_STOPPING, SOCK_STOPPING =>
      eps s = [] /\ sdeps s = [] /\ proto_stopping s = true /\ destroyed s = false /\ termsem s = 0
  | FSM_STOPPING, SOCK_FINI =>
      eps s = [] /\ sdeps s = [] /\ destroyed s = true /\ termsem s = 1
  | _, _ => False
  end.

Lemma finish2_inv s :
  raised (sfsm s) = [] -> fsm_st (sfsm s) = FSM_STOPPING -> state s = SOCK_STOPPING_EPS ->
  eps s = [] -> proto_stopping s = false -> destroyed s = false -> termsem s = 0 ->
  exists s', finish2 s = Ret s' /\ sinv s'.
Proof.
  destruct s as [[fs ev] st es ss ho hs ps de ts rs]. cbn. intros -> -> -> -> -> -> ->.
  unfold finish2. cbn. destruct ss as [|x ss]; [|eexists; split; [reflexivity|]; by split].
  destruct hs; eexists; (split; [reflexivity|]); by split.
Qed.

Lemma feed_running s src type ptr :
  fsm_st (sfsm s) <> FSM_STOPPING -> nn_fsm_feed s src type ptr = nn_sock_handler s src type ptr.
Proof. intros H. unfold nn_fsm_feed. by rewrite decide_True. Qed.

Lemma feed_stopping s src type ptr :
  fsm_st (sfsm s) = FSM_STOPPING -> nn_fsm_feed s src type ptr = nn_sock_shutdown s src type ptr.
Proof. intros H. unfold nn_fsm_feed. rewrite decide_False; [done|]. cbn. tauto. Qed.

Lemma sinv_hold s : sinv s -> sinv (fst (nn_sock_hold s)).
Proof. destruct s as [[fs ev] [] es ss ho hs ps de ts rs]; done. Qed.

Lemma sinv_rele s : sinv s -> sinv (nn_sock_rele s).
Proof. by destruct s as [[fs ev] st es ss ho hs ps de ts rs]. Qed.

Lemma sinv_add_ep s x : sinv s -> state s = SOCK_ACTIVE -> sinv (nn_sock_add_ep s x).
Proof. destruct s as [[fs ev] st es ss ho hs ps de ts rs]. cbn. intros [? Hs] ->. by destruct fs. Qed.

Lemma sinv_rm_ep s x : sinv s -> sinv (fst (nn_sock_rm_ep s x)).
Proof.
  intros Hs. unfold nn_sock_rm_ep. case_bool_decide as Hx; [|done].
  destruct s as [[fs ev] st es ss ho hs ps de ts rs]. cbn in *. destruct Hs as [? Hs]. split; [done|].
  cbn in *. destruct fs, st; try done; destruct Hs as [-> Hs]; set_solver.
Qed.

Lemma sinv_ep_stopped s x :
  sinv s -> x ∈ sdeps s ->
  exists s', nn_fsm_feed s NN_SOCK_SRC_EP NN_EP_STOPPED (Z.pos x) = Ret s' /\ sinv s'.
Proof.
  intros Hs Hx. destruct s as [[fs ev] st es ss ho hs ps de ts rs]. cbn in Hx.
  destruct Hs as [Hev Hs]. cbn in Hs. destruct fs, st; try done.
  - rewrite feed_running by done. cbn. unfold erase. rewrite bool_decide_eq_true_2 by done.
    eexists. split; [reflexivity|]. by split.
  - rewrite feed_stopping by done. unfold nn_sock_shutdown.
    cbn [state]. rewrite decide_True by done. cbn -[finish2]. unfold erase. cbn [sdeps].
    rewrite bool_decide_eq_true_2 by done. cbn -[finish2].
    destruct Hs as (-> & _ & -> & -> & ->). by apply finish2_inv.
  - destruct Hs as (_ & -> & _). by apply elem_of_nil in Hx.
  - destruct Hs as (_ & -> & _). by apply elem_of_nil in Hx.
Qed.

Lemma sinv_pipe s src :
  sinv s -> 1 < src -> eps s <> [] \/ sdeps s <> [] ->
  exists s', nn_fsm_feed s src NN_PIPE_IN 0 = Ret s' /\ sinv s'.
Proof.
  intros Hs Hsrc Hep. destruct s as [[fs ev] st es ss ho hs ps de ts rs]. cbn in Hep.
  destruct (Hs) as [Hev Hs']. cbn in Hs'. destruct fs, st; try done.
  - rewrite feed_running by done. unfold nn_sock_handler. cbn [state].
    destruct (Z.eqb_spec src NN_FSM_ACTION); [unfold NN_FSM_ACTION in *; lia|].
    destruct (Z.eqb_spec src NN_SOCK_SRC_EP); [unfold NN_SOCK_SRC_EP in *; lia|].
    by eexists.
  - rewrite feed_stopping by done. unfold nn_sock_shutdown. cbn [state].
    destruct (Z.eqb_spec src NN_FSM_ACTION); [unfold NN_FSM_ACTION in *; lia|]. cbn [andb].
    rewrite decide_True by done.
    destruct (Z.eqb_spec src NN_SOCK_SRC_EP); [unfold NN_SOCK_SRC_EP in *; lia|]. by eexists.
  - destruct Hs' as (-> & -> & _). destruct Hep; done.
  - destruct Hs' as (-> & -> & _). destruct Hep; done.
Qed.

Lemma sinv_proto_stopped s :
  sinv s -> proto_stopping s = true -> destroyed s = false ->
  exists s', nn_sock_stopped s = Ret s' /\ sinv s'.
Proof.
  intros Hs Hp Hd. destruct s as [[fs ev] st es ss ho hs ps de ts rs]. cbn in Hp, Hd. subst.
  destruct Hs as [Hev Hs]. cbn in Hev, Hs. subst ev. unfold nn_sock_stopped.
  destruct fs, st; try done; try (destruct Hs as (? & ? & ? & ?); done); try (by destruct Hs).
  rewrite feed_stopping by done. eexists. split; [reflexivity|]. split; [done|]. cbn. naive_solver lia.
Qed.

Lemma sinv_close s :
  sinv s -> exists s' rc, nn_close s = Ret (s', rc) /\ sinv s' /\
    (rc = 0 /\ state s = SOCK_ACTIVE /\ state s' <> SOCK_ACTIVE \/
     rc = - EBADF /\ state s <> SOCK_ACTIVE /\ s' = s).
Proof.
  intros Hs. destruct s as [[fs ev] st es ss ho hs ps de ts rs].
  destruct (Hs) as [Hev Hs']. cbn in Hev, Hs'. subst ev. destruct fs, st; try done.
  2-4: by eexists _, _; split; [reflexivity|]; split; [done|]; right.
  destruct Hs' as (-> & -> & ->). unfold nn_close. cbn [nn_sock_hold state].
  change (0 <? 0) with false. cbv iota. unfold nn_sock_stop, nn_fsm_stop.
  rewrite decide_False by (cbn; tauto).
  destruct (finish2_inv (Sock (Fsm FSM_STOPPING []) SOCK_STOPPING_EPS [] (ss ++ es) (ho + 1) hs false
    false 0 rs)) as (s' & E & Hs'); try done.
  assert (Hst : state s' <> SOCK_ACTIVE).
  { intros Ha. unfold finish2 in E. cbn in E. destruct (ss ++ es); cbn in E.
    - destruct hs; cbn in E; injection E as <-; done.
    - injection E as <-. done. }
  cbn -[finish2]. unfold set_state. cbn -[finish2]. rewrite E. cbn [mbind outcome_bind].
  eexists _, _. split; [reflexivity|]. split; [by do 2 apply sinv_rele|]. by left.
Qed.

Lemma sinv_step s l :
  sinv s -> senabled false s l -> exists s', lstep s l = Ret s' /\ sinv s'.
Proof.
  intros Hs Hen. destruct l as [| |x|x| |x|src|]; cbn [lstep senabled] in *.
  - eexists. split; [reflexivity|]. by apply sinv_hold.
  - eexists. split; [reflexivity|]. by apply sinv_rele.
  - eexists. split; [reflexivity|]. apply sinv_add_ep; [done|]. by destruct Hen as (_ & _ & _ & [|]).
  - eexists. split; [reflexivity|]. by apply sinv_rm_ep.
  - destruct (sinv_close s Hs) as (s' & rc & -> & Hs' & _). by exists s'.
  - by apply sinv_ep_stopped.
  - destruct Hen. by apply sinv_pipe.
  - destruct Hen. by apply sinv_proto_stopped.
Qed.

Lemma sinv_start b s : nn_fsm_start (nn_sock_init b) = Ret s -> sinv s.
Proof. intros E. injection E as <-. by split. Qed.

Lemma sreachable_inv s : sreachable false s -> sinv s.
Proof.
  induction 1 as [b s E|s l s' _ IH Hen Hstep]; [by eapply sinv_start|].
  destruct (sinv_step s l IH Hen) as (s2 & Hstep2 & Hs2). congruence.
Qed.

(** ** The holds

    Every call in progress holds the socket; the socket itself holds once until
    it is closed.  The semaphore [relesem] is posted when the last hold of a
    closed socket goes. *)
Definition held (s : nn_sock) : Prop :=
  match state s with
  | SOCK_ACTIVE => 1 <= holds s /\ relesem s = 0
  | _ => 0 <= holds s /\ relesem s = c_bool (holds s =? 0)
  end.

(** Nothing but the state of the shutdown changed. *)
Definition same_holds (s s' : nn_sock) : Prop :=
  holds s' = holds s /\ relesem s' = relesem s /\ (state s' = SOCK_ACTIVE <-> state s = SOCK_ACTIVE).

Lemma held_same s s' : held s -> same_holds s s' -> held s'.
Proof.
  unfold held. intros Hh (-> & -> & Hst).
  destruct (decide (state s = SOCK_ACTIVE)) as [E|E].
  - rewrite E in Hh. by rewrite (proj2 Hst E).
  - assert (state s' <> SOCK_ACTIVE) by tauto. by destruct (state s), (state s').
Qed.

Lemma finish2_holds s s' : state s <> SOCK_ACTIVE -> finish2 s = Ret s' -> same_holds s s'.
Proof.
  unfold finish2, same_holds. intros Hst E. destruct (sdeps s); [|by injection E as <-].
  destruct (eps s); [|done]. cbn in E. destruct (has_stop s); injection E as <-; cbn; naive_solver.
Qed.

Lemma shutdown_holds s src type ptr s' :
  state s <> SOCK_ACTIVE -> nn_sock_shutdown s src type ptr = Ret s' -> same_holds s s'.
Proof.
  intros Hst. unfold nn_sock_shutdown. destruct (_ && _).
  { by rewrite bool_decide_eq_false_2. }
  destruct (decide _) as [E|_].
  - destruct (negb _); [by intros [= <-]|]. unfold erase. case_bool_decide; [|done]. cbn -[finish2].
    intros [? [? ?]]%finish2_holds; [|by cbn; rewrite E]. by split_and!.
  - destruct (decide _) as [E|_]; [|done]. destruct (_ && _); [|done]. cbn. intros [= <-].
    unfold same_holds. cbn. naive_solver.
Qed.

Lemma handler_holds s src type ptr s' :
  state s = SOCK_ACTIVE -> nn_sock_handler s src type ptr = Ret s' -> same_holds s s'.
Proof.
  unfold nn_sock_handler. intros E. rewrite E. repeat case_match; try done.
  - unfold erase. case_bool_decide; [|done]. cbn. by intros [= <-].
  - by intros [= <-].
Qed.

Lemma feed_holds s src type ptr s' :
  sinv s -> nn_fsm_feed s src type ptr = Ret s' -> same_holds s s'.
Proof.
  intros [_ Hs]. destruct (fsm_st (sfsm s)) eqn:Ef; [by destruct (state s)|..].
  - rewrite feed_running by (rewrite Ef; done). apply handler_holds. by destruct (state s).
  - rewrite feed_stopping by done. apply shutdown_holds. by destruct (state s).
Qed.

Lemma held_close s s' : sinv s -> held s -> lstep s LClose = Ret s' -> held s'.
Proof.
  intros Hs Hh. cbn [lstep]. destruct (decide (state s = SOCK_ACTIVE)) as [Ea|Ea].
  2:{ destruct (sinv_close s Hs) as (s2 & rc & -> & _ & [(_ & ? & _)|(_ & _ & ->)]); [done|].
      cbn. by intros [= <-]. }
  unfold nn_close, nn_sock_hold. rewrite Ea. change (0 <? 0) with false. cbv iota.
  unfold nn_sock_stop, nn_fsm_stop. destruct Hs as [_ Hs]. rewrite Ea in Hs.
  destruct (fsm_st (sfsm s)) eqn:Ef; try done. unfold held in Hh. rewrite Ea in Hh.
  rewrite decide_False by (cbn; rewrite Ef; naive_solver).
  match goal with |- context [shutdown_fn ?x ?a ?b ?c] => destruct (shutdown_fn x a b c) as [s2| | |] eqn:E end;
    cbn [mbind outcome_bind]; try done. cbn -[finish2] in E. rewrite ?Ea in E. cbn -[finish2] in E.
  apply finish2_holds in E as (Hho & Hre & Hst); [|done]. intros [= <-].
  unfold held, nn_sock_rele. cbn in *. destruct Hh as [Hp Hre0]. rewrite Hre0 in Hre.
  rewrite Hho, Hre. replace (holds s + 1 - 1) with (holds s) by lia.
  destruct (Z.eqb_spec (holds s) 0); [lia|]. cbn [c_bool]. rewrite Z.add_0_l.
  destruct (state s2); [split; [lia|done]|by destruct Hst as [Hst _]; specialize (Hst eq_refl)|split; [lia|done]..].
Qed.

Lemma held_step s l s' :
  sinv s -> held s -> senabled false s l -> lstep s l = Ret s' -> held s'.
Proof.
  intros Hs Hh Hen. destruct l as [| |x|x| |x|src|]; cbn [lstep senabled] in *.
  - intros [= <-]. unfold held, nn_sock_hold in *. destruct Hs as [_ Hs].
    destruct (state s) eqn:E; cbn; rewrite ?E; try done; [by destruct (fsm_st (sfsm s))|lia].
  - intros [= <-]. unfold held, nn_sock_rele in *. cbn.
    destruct (state s); try (split; [destruct Hen as [?|[? ?]]; lia|]; destruct Hh as [Hp ->]);
      repeat match goal with |- context [?a =? 0] => destruct (Z.eqb_spec a 0) end; cbn [c_bool];
      destruct Hen as [?|[? ?]]; done || lia.
  - by intros [= <-].
  - intros [= <-]. unfold nn_sock_rm_ep. by case_bool_decide.
  - by apply held_close.
  - intros E%feed_holds; [|done]. by eapply held_same.
  - intros E%feed_holds; [|done]. by eapply held_same.
  - intros E%feed_holds; [|done]. by eapply held_same.
Qed.

Lemma sreachable_held s : sreachable false s -> held s.
Proof.
  induction 1 as [b s E|s l s' Hr IH Hen Hstep]; [by injection E as <-|].
  eapply held_step; [by apply sreachable_inv|done..].
Qed.

(** C20.  As long as no endpoint is inserted after the socket was closed, no
    interleaving of API calls, endpoint and pipe events fails an assertion of
    the socket's state machine, the wake-up of the closing thread is posted
    exactly once, when the protocol part has been destroyed and all endpoints
    are gone, and the other one exactly once too, when the socket was closed and
    the last call that held it is over. *)
Theorem sock_life_safe (s : nn_sock) (l : slabel) :
  sreachable false s -> senabled false s l ->
  (exists s', lstep s l = Ret s' /\ sreachable false s') /\
  0 <= termsem s <= 1 /\
  (termsem s = 1 <-> state s = SOCK_FINI) /\
  (state s = SOCK_FINI -> destroyed s = true /\ eps s = [] /\ sdeps s = []) /\
  0 <= relesem s <= 1 /\
  (relesem s = 1 <-> state s <> SOCK_ACTIVE /\ holds s = 0).
Proof.
  intros Hr Hen. pose proof (sreachable_inv s Hr) as Hs. pose proof (sreachable_held s Hr) as Hh. split.
  - destruct (sinv_step s l Hs Hen) as (s' & Hstep & _). exists s'. split; [done|].
    by eapply sreach_step.
  - destruct s as [[fs ev] st es ss ho hs ps de ts rs]. destruct Hs as [_ Hs]. cbn in *.
    unfold held in Hh. cbn in Hh.
    destruct (Z.eqb_spec ho 0); cbn [c_bool] in Hh;
    destruct fs, st; try done; destruct_and!; subst; repeat split; intros; destruct_and?;
      (done || lia || congruence).
Qed.

Definition started (b : bool) : nn_sock :=
  Sock (Fsm FSM_ACTIVE []) SOCK_ACTIVE [] [] 1 b false false 0 0.

Lemma started_reachable late b : sreachable late (started b).
Proof. by apply (sreach_init late b). Qed.

Lemma sock_life_safe_witness :
  (exists s', lstep (started false) LClose = Ret s' /\ sreachable false s') /\
  0 <= termsem (started false) <= 1 /\
  (termsem (started false) = 1 <-> state (started false) = SOCK_FINI) /\
  (state (started false) = SOCK_FINI ->
     destroyed (started false) = true /\ eps (started false) = [] /\ sdeps (started false) = []) /\
  0 <= relesem (started false) <= 1 /\
  (relesem (started false) = 1 <-> state (started false) <> SOCK_ACTIVE /\ holds (started false) = 0).
Proof. apply (sock_life_safe (started false) LClose); [apply started_reachable|exact I]. Defined.

Fixpoint lsteps (s : nn_sock) (ls : list slabel) : outcome nn_sock :=
  match ls with
  | [] => Ret s
  | l :: ls => s ← lstep s l; lsteps s ls
  end.

Definition stopping_eps (s : nn_sock) : Prop :=
  fsm_st (sfsm s) = FSM_STOPPING /\ raised (sfsm s) = [] /\ state s = SOCK_STOPPING_EPS /\
  eps s = [] /\ proto_stopping s = false /\ destroyed s = false /\ termsem s = 0.

(** One more endpoint has stopped. *)
Lemma ep_stopped_step s x :
  stopping_eps s -> x ∈ sdeps s ->
  exists s', lstep s (LEpStopped x) = Ret s' /\
    sdeps s' = filter (fun y => y <> x) (sdeps s) /\ has_stop s' = has_stop s /\
    (sdeps s' <> [] -> stopping_eps s') /\
    (sdeps s' = [] -> if has_stop s
                then fsm_st (sfsm s') = FSM_STOPPING /\ state s' = SOCK_STOPPING /\
                     destroyed s' = false /\ termsem s' = 0
                else state s' = SOCK_FINI /\ destroyed s' = true /\ termsem s' = 1).
Proof.
  destruct s as [[fs ev] st es ss ho hs ps de ts rs]. unfold stopping_eps. cbn.
  intros (-> & -> & -> & -> & -> & -> & ->) Hx.
  rewrite feed_stopping by done. unfold nn_sock_shutdown. cbn [state].
  rewrite decide_True by done. cbn -[finish2]. unfold erase. cbn [sdeps].
  rewrite bool_decide_eq_true_2 by done. cbn -[finish2].
  unfold finish2. cbn. destruct (filter (fun y => y <> x) ss) as [|y xs].
  - destruct hs; eexists; (split; [reflexivity|]); by split_and!.
  - eexists. split; [reflexivity|]. cbn. by split_and!.
Qed.

Lemma proto_stopped_step s :
  fsm_st (sfsm s) = FSM_STOPPING -> state s = SOCK_STOPPING ->
  lstep s LProtoStopped = Ret (finish1 s).
Proof.
  intros Hf Hs. cbn [lstep]. unfold nn_sock_stopped. rewrite feed_stopping by done.
  unfold nn_sock_shutdown. rewrite Hs. reflexivity.
Qed.


Definition closing_sock : nn_sock :=
  Sock (Fsm FSM_STOPPING []) SOCK_STOPPING_EPS [] [1; 2]%positive 0 true false false 0 1.


Fixpoint enabled_path (late : bool) (s : nn_sock) (ls : list slabel) : Prop :=
  match ls with
  | [] => True
  | l :: ls => senabled late s l /\ match lstep s l with Ret s => enabled_path late s ls | _ => True end
  end.

Lemma sreach_path late s ls s' :
  sreachable late s -> enabled_path late s ls -> lsteps s ls = Ret s' -> sreachable late s'.
Proof.
  revert s. induction ls as [|l ls IH]; intros s Hr Hp E; [by injection E as <-|].
  cbn [lsteps enabled_path] in *. destruct Hp as [Hen Hp]. destruct (lstep s l) as [s1| | |] eqn:Es; try done.
  apply (IH s1); [by eapply sreach_step|done|done].
Qed.

(** A call of [nn_bind] or [nn_connect] that has taken its hold before
    [nn_close] and inserts its endpoint after it leaves an endpoint that nobody
    stops: when the last of the other endpoints stops, the process is aborted. *)
Theorem late_endpoint_aborts :
  exists s l, sreachable true s /\ senabled true s l /\ lstep s l = Abort.
Proof.
  (* endpoint 1 is in place, a call holds the socket, the socket is closed, the
     call inserts endpoint 2, endpoint 1 stops *)
  exists (Sock (Fsm FSM_STOPPING []) SOCK_STOPPING_EPS [2%positive] [1%positive] 1 false
    false false 0 0), (LEpStopped 1%positive).
  split; [|split; [cbn; set_solver|reflexivity]].
  apply (sreach_path _ (started false) [LAddEp 1%positive; LHold; LClose; LAddEp 2%positive]);
    [apply started_reachable| |reflexivity].
  cbn. split_and!; try set_solver; try lia; auto.
Qed.
