(* ===== verification/Message.v ===== *)
(** * Message: a message as the protocols see it (src/utils/msg.h)

    The SP header and the body of a message, each a string of bytes.  This is
    the view the protocol functions have through [nn_chunkref_size],
    [nn_chunkref_data], [nn_chunkref_trim], ... of the message's chunkrefs;
    the transport headers [hdrs] are never touched by them and left out. *)

From stdpp Require Import base list.
From Stdlib Require Import ZArith Lia.
From S2P Require Import Prelude Wire.

Open Scope Z_scope.

Record nn_msg : Type := Msg { sphdr : list Z; body : list Z }.

#[export] Instance nn_msg_eq_dec : EqDecision nn_msg.
Proof. solve_decision. Defined.

(** What a receiving function did with the caller's message: left it alone,
    terminated what it had put there, or initialised it. *)
Inductive received : Type := Untouched | Terminated | Received (m : nn_msg).

(** Size of the string, which is at most [SIZE_MAX]. *)
Definition size (l : list Z) : Z := Z.of_nat (length l).

(** [nn_chunkref_trim]: at most what is there. *)
Definition trim (l : list Z) (n : Z) : outcome (list Z) :=
  _ ← check (n <=? size l);
  Ret (drop (Z.to_nat n) l).

Lemma trim_ok l n : 0 <= n <= size l -> trim l n = Ret (drop (Z.to_nat n) l).
Proof. intros [_ Hn]. unfold trim. by rewrite (proj2 (Z.leb_le _ _) Hn). Qed.

Lemma size_nonneg l : 0 <= size l.
Proof. unfold size. lia. Qed.

Lemma size_app l1 l2 : size (l1 ++ l2) = size l1 + size l2.
Proof. unfold size. rewrite length_app. lia. Qed.

Lemma size_take_drop l n : 0 <= n <= size l ->
  size (take (Z.to_nat n) l) = n /\ size (drop (Z.to_nat n) l) = size l - n.
Proof. unfold size. intros. rewrite length_take, length_drop. lia. Qed.
