(* ===== verification/Chunk.v ===== *)
(** * Chunk: message memory (src/utils/chunk.c, chunkref.c, msg.c)

    The body of a message is a reference-counted chunk: a header [struct
    nn_chunk], empty space, the size of the empty space and a tag in four bytes
    each, and the data.  A chunk is known by the address of its data; trimming
    moves that address up and rewrites the two words in front of it.  A
    [nn_chunkref] holds up to 31 bytes itself or refers to a chunk, a message is
    three of them.

    [nn_chunk] keeps the bytes behind the header; [chunks] are the allocated
    chunks and [refs] the variables of type [nn_chunkref], named by the message
    they belong to and the field, or [Var] for a pointer to a chunk that is held
    by the application.  What the allocator returns is the argument
    [allocation]; access to a chunk that was freed is [Undef].

    The theorems are in ChunkSpec.v. *)

From stdpp Require Import base gmap list.
From Stdlib Require Import ZArith Lia.
From S2P Require Import Prelude Wire ListHeap Message.

Open Scope Z_scope.

(** ** Chunks *)

Definition NN_CHUNK_TAG : Z := 0xdeadcafe.
Definition NN_CHUNK_TAG_DEALLOCATED : Z := 0xbeadfeed.

(** The function pointer [ffn] is [nn_chunk_default_free] in every chunk. *)
Record nn_chunk : Type := Chunk { refcount : Z; csize : Z; mem : list Z }.

(** An address in the bytes behind the header of a chunk. *)
Record ptr : Type := Ptr { block : loc; off : Z }.

Abbreviation chunk_heap := (gmap positive nn_chunk).

(** What [nn_alloc] or [nn_realloc] returns, a null pointer or a new block,
    and the bytes found in the memory that was not written yet. *)
Record allocation : Type := Allocation { addr : option loc; junk : list Z }.

Definition sizeof_nn_chunk : Z := 24.

Definition nn_chunk_hdrsize : Z := sizeof_nn_chunk + 2 * 4.

(** Access to [n] bytes from offset [o] on; [nn_getl] and [nn_putl] there. *)
Definition read_at (m : list Z) (o n : Z) : outcome (list Z) :=
  if (0 <=? o) && (o + n <=? size m) then Ret (take (Z.to_nat n) (drop (Z.to_nat o) m)) else Undef.

Definition write_at (m : list Z) (o : Z) (bs : list Z) : outcome (list Z) :=
  if (0 <=? o) && (o + size bs <=? size m)
  then Ret (take (Z.to_nat o) m ++ bs ++ drop (Z.to_nat (o + size bs)) m) else Undef.

Definition getl_at (m : list Z) (o : Z) : outcome Z := w ← read_at m o 4; nn_getl w.

Definition putl_at (m : list Z) (o v : Z) : outcome (list Z) :=
  w ← read_at m o 4; w ← nn_putl w v; write_at m o w.

(** A pointer that does not lead to the header of its block is wild. *)
Definition nn_chunk_getptr (h : chunk_heap) (p : ptr) : outcome loc :=
  c ← deref h (block p);
  tag ← getl_at (mem c) (off p - 4);
  _ ← check (tag =? NN_CHUNK_TAG);
  o ← getl_at (mem c) (off p - 2 * 4);
  if off p - 2 * 4 - o =? 0 then Ret (block p) else Undef.

Definition nn_chunk_getdata (self : loc) : ptr := Ptr self (2 * 4).

Definition nn_chunk_alloc (h : chunk_heap) (a : allocation) (size type : Z)
    : outcome (chunk_heap * Z * option ptr) :=
  let sz := u64 (nn_chunk_hdrsize + size) in
  if sz <? nn_chunk_hdrsize then Ret (h, - ENOMEM, None) else
  if negb (type =? 0) then Ret (h, - EINVAL, None) else
  match addr a with
  | None => Ret (h, - ENOMEM, None)
  | Some self =>
      m ← putl_at (take (Z.to_nat (sz - sizeof_nn_chunk)) (junk a)) 0 0;
      m ← putl_at m 4 NN_CHUNK_TAG;
      Ret (<[self := Chunk 1 size m]> h, 0, Some (nn_chunk_getdata self))
  end.

Definition nn_chunk_realloc (h : chunk_heap) (a : allocation) (size : Z) (chunk : ptr)
    : outcome (chunk_heap * Z * ptr) :=
  self ← nn_chunk_getptr h chunk;
  c ← deref h self;
  if refcount c =? 1 then
    let new_size := u64 (nn_chunk_hdrsize + size) in
    if new_size <? nn_chunk_hdrsize then Ret (h, - ENOMEM, chunk) else
    match addr a with
    | None => Ret (h, - ENOMEM, chunk)
    | Some new_chunk =>
        let m := take (Z.to_nat (new_size - sizeof_nn_chunk)) (mem c ++ junk a) in
        Ret (<[new_chunk := Chunk (refcount c) size m]> (delete self h), 0,
             nn_chunk_getdata new_chunk)
    end
  else
    '(h, rc, new_ptr) ← nn_chunk_alloc h a size 0;
    match new_ptr with
    | None => Ret (h, rc, chunk)
    | Some new_ptr =>
        data ← read_at (mem c) (off (nn_chunk_getdata self)) (csize c);
        n ← deref h (block new_ptr);
        m ← write_at (mem n) (off new_ptr) data;
        let h := <[block new_ptr := Chunk (refcount n) (csize n) m]> h in
        let h := <[self := Chunk (u32 (refcount c - 1)) (csize c) (mem c)]> h in
        Ret (h, 0, new_ptr)
    end.

Definition nn_chunk_free (h : chunk_heap) (p : ptr) : outcome chunk_heap :=
  self ← nn_chunk_getptr h p;
  c ← deref h self;
  if refcount c <=? 1 then
    _ ← putl_at (mem c) (off p - 4) NN_CHUNK_TAG_DEALLOCATED;
    Ret (delete self h)
  else Ret (<[self := Chunk (u32 (refcount c - 1)) (csize c) (mem c)]> h).

Definition nn_chunk_addref (h : chunk_heap) (p : ptr) (n : Z) : outcome chunk_heap :=
  self ← nn_chunk_getptr h p;
  c ← deref h self;
  Ret (<[self := Chunk (u32 (refcount c + n)) (csize c) (mem c)]> h).

Definition nn_chunk_size (h : chunk_heap) (p : ptr) : outcome Z :=
  self ← nn_chunk_getptr h p;
  c ← deref h self;
  Ret (csize c).

Definition nn_chunk_trim (h : chunk_heap) (p : ptr) (n : Z) : outcome (chunk_heap * ptr) :=
  self ← nn_chunk_getptr h p;
  c ← deref h self;
  _ ← check (n <=? csize c);
  let p := Ptr (block p) (off p + n) in
  m ← putl_at (mem c) (off p - 4) NN_CHUNK_TAG;
  let empty_space := (sizeof_nn_chunk + off p) - nn_chunk_hdrsize in
  _ ← check (empty_space <? 2 ^ 32 - 1);
  m ← putl_at m (off p - 2 * 4) empty_space;
  Ret (<[self := Chunk (refcount c) (csize c - n) m]> h, p).

(** ** References to chunks *)

Definition NN_CHUNKREF_MAX : Z := 32.

(** The first byte of [ref] is the length, or the tag 0xff. *)
Inductive nn_chunkref : Type := Vsm (data : list Z) | Ref (chunk : ptr).

(** The fields of a message, and a variable of the application. *)
Inductive field : Type := Sphdr | Hdrs | Body | Var.

#[export] Instance field_eq_dec : EqDecision field.
Proof. solve_decision. Defined.

Definition field_code (f : field) : nat :=
  match f with Sphdr => 0 | Hdrs => 1 | Body => 2 | Var => 3 end.

Definition code_field (n : nat) : field :=
  match n with 0%nat => Sphdr | 1%nat => Hdrs | 2%nat => Body | _ => Var end.

#[export] Instance field_countable : Countable field.
Proof. apply (inj_countable' field_code code_field). by intros []. Defined.

Abbreviation cref := (loc * field)%type.

Record memory : Type := Memory { chunks : chunk_heap; refs : gmap cref nn_chunkref }.

Definition ref_at (m : memory) (self : cref) : outcome nn_chunkref :=
  match refs m !! self with Some r => Ret r | None => Undef end.

Definition set_ref (m : memory) (self : cref) (r : nn_chunkref) : memory :=
  Memory (chunks m) (<[self := r]> (refs m)).

Definition set_chunks (m : memory) (h : chunk_heap) : memory := Memory h (refs m).

Definition nn_chunkref_init (m : memory) (a : allocation) (self : cref) (sz : Z) : outcome memory :=
  if sz <? NN_CHUNKREF_MAX then Ret (set_ref m self (Vsm (take (Z.to_nat sz) (junk a)))) else
  '(h, rc, p) ← nn_chunk_alloc (chunks m) a sz 0;
  _ ← check (rc =? 0);
  match p with
  | Some p => Ret (set_ref (set_chunks m h) self (Ref p))
  | None => Undef
  end.

Definition nn_chunkref_init_chunk (m : memory) (self : cref) (chunk : ptr) : memory :=
  set_ref m self (Ref chunk).

Definition nn_chunkref_term (m : memory) (self : cref) : outcome memory :=
  r ← ref_at m self;
  match r with
  | Ref ch => h ← nn_chunk_free (chunks m) ch; Ret (set_chunks m h)
  | Vsm _ => Ret m
  end.

Definition nn_chunkref_getchunk (m : memory) (a : allocation) (self : cref)
    : outcome (memory * ptr) :=
  r ← ref_at m self;
  match r with
  | Ref ch => Ret (set_ref m self (Vsm []), ch)
  | Vsm d =>
      '(h, rc, p) ← nn_chunk_alloc (chunks m) a (size d) 0;
      _ ← check (rc =? 0);
      match p with
      | Some p =>
          c ← deref h (block p);
          b ← write_at (mem c) (off p) d;
          let h := <[block p := Chunk (refcount c) (csize c) b]> h in
          Ret (set_ref (set_chunks m h) self (Vsm []), p)
      | None => Undef
      end
  end.

(** The source keeps its bits. *)
Definition nn_chunkref_mv (m : memory) (dst src : cref) : outcome memory :=
  r ← ref_at m src; Ret (set_ref m dst r).

Definition nn_chunkref_bulkcopy_start (m : memory) (self : cref) (copies : Z) : outcome memory :=
  r ← ref_at m self;
  match r with
  | Ref ch => h ← nn_chunk_addref (chunks m) ch copies; Ret (set_chunks m h)
  | Vsm _ => Ret m
  end.

Definition nn_chunkref_bulkcopy_cp (m : memory) (dst src : cref) : outcome memory :=
  r ← ref_at m src; Ret (set_ref m dst r).

Definition nn_chunkref_cp (m : memory) (dst src : cref) : outcome memory :=
  r ← ref_at m src;
  m ← match r with
      | Ref ch => h ← nn_chunk_addref (chunks m) ch 1; Ret (set_chunks m h)
      | Vsm _ => Ret m
      end;
  Ret (set_ref m dst r).

(** Where the data of a reference is. *)
Inductive data_ptr : Type := Inline (r : cref) | Heap (p : ptr).

Definition nn_chunkref_data (m : memory) (self : cref) : outcome data_ptr :=
  r ← ref_at m self;
  Ret (match r with Ref ch => Heap ch | Vsm _ => Inline self end).

Definition nn_chunkref_size (m : memory) (self : cref) : outcome Z :=
  r ← ref_at m self;
  match r with
  | Ref ch => nn_chunk_size (chunks m) ch
  | Vsm d => Ret (size d)
  end.

Definition nn_chunkref_trim (m : memory) (self : cref) (n : Z) : outcome memory :=
  r ← ref_at m self;
  match r with
  | Ref ch =>
      '(h, ch) ← nn_chunk_trim (chunks m) ch n;
      Ret (set_ref (set_chunks m h) self (Ref ch))
  | Vsm d =>
      _ ← check (size d >=? n);
      Ret (set_ref m self (Vsm (drop (Z.to_nat n) d)))
  end.

(** Reading and writing [n] bytes of data from offset [o] on. *)
Definition load_data (m : memory) (d : data_ptr) (o n : Z) : outcome (list Z) :=
  match d with
  | Heap p => c ← deref (chunks m) (block p); read_at (mem c) (off p + o) n
  | Inline self =>
      r ← ref_at m self;
      match r with Vsm d => read_at d o n | Ref _ => Undef end
  end.

Definition store_data (m : memory) (d : data_ptr) (o : Z) (bs : list Z) : outcome memory :=
  match d with
  | Heap p =>
      c ← deref (chunks m) (block p);
      b ← write_at (mem c) (off p + o) bs;
      Ret (set_chunks m (<[block p := Chunk (refcount c) (csize c) b]> (chunks m)))
  | Inline self =>
      r ← ref_at m self;
      match r with
      | Vsm d => d ← write_at d o bs; Ret (set_ref m self (Vsm d))
      | Ref _ => Undef
      end
  end.

(** ** Messages *)

Definition nn_msg_init (m : memory) (a : allocation) (self : loc) (size : Z) : outcome memory :=
  m ← nn_chunkref_init m a (self, Sphdr) 0;
  m ← nn_chunkref_init m a (self, Hdrs) 0;
  nn_chunkref_init m a (self, Body) size.

Definition nn_msg_init_chunk (m : memory) (a : allocation) (self : loc) (chunk : ptr)
    : outcome memory :=
  m ← nn_chunkref_init m a (self, Sphdr) 0;
  m ← nn_chunkref_init m a (self, Hdrs) 0;
  Ret (nn_chunkref_init_chunk m (self, Body) chunk).

Definition nn_msg_term (m : memory) (self : loc) : outcome memory :=
  m ← nn_chunkref_term m (self, Sphdr);
  m ← nn_chunkref_term m (self, Hdrs);
  nn_chunkref_term m (self, Body).

Definition nn_msg_mv (m : memory) (dst src : loc) : outcome memory :=
  m ← nn_chunkref_mv m (dst, Sphdr) (src, Sphdr);
  m ← nn_chunkref_mv m (dst, Hdrs) (src, Hdrs);
  nn_chunkref_mv m (dst, Body) (src, Body).

Definition nn_msg_cp (m : memory) (dst src : loc) : outcome memory :=
  m ← nn_chunkref_cp m (dst, Sphdr) (src, Sphdr);
  m ← nn_chunkref_cp m (dst, Hdrs) (src, Hdrs);
  nn_chunkref_cp m (dst, Body) (src, Body).

Definition nn_msg_bulkcopy_start (m : memory) (self : loc) (copies : Z) : outcome memory :=
  m ← nn_chunkref_bulkcopy_start m (self, Sphdr) copies;
  m ← nn_chunkref_bulkcopy_start m (self, Hdrs) copies;
  nn_chunkref_bulkcopy_start m (self, Body) copies.

Definition nn_msg_bulkcopy_cp (m : memory) (dst src : loc) : outcome memory :=
  m ← nn_chunkref_bulkcopy_cp m (dst, Sphdr) (src, Sphdr);
  m ← nn_chunkref_bulkcopy_cp m (dst, Hdrs) (src, Hdrs);
  nn_chunkref_bulkcopy_cp m (dst, Body) (src, Body).

(** [new_body] is passed by value: the caller's variable keeps its bits. *)
Definition nn_msg_replace_body (m : memory) (self : loc) (new_body : cref) : outcome memory :=
  r ← ref_at m new_body;
  m ← nn_chunkref_term m (self, Body);
  Ret (set_ref m (self, Body) r).
