(* ===== verification/ChunkSpec.v ===== *)
(** * ChunkSpec: memory safety of messages

    [mem_rep] relates a memory to the references the program owns, each with
    the bytes it stands for, and to the copies announced with
    [nn_chunkref_bulkcopy_start] and not made yet.  [messages_memory_safe] shows
    that no history of the operations touches freed memory, fails an assertion
    or changes the bytes of a reference other than its own, and that a chunk is
    freed exactly when its last reference goes; [realloc_unsafe] what
    [nn_chunk_realloc] does to a chunk that was trimmed or is shared. *)

From stdpp Require Import base gmap list.
From Stdlib Require Import ZArith Lia.
From S2P Require Import Prelude Wire ListHeap Message Chunk.

Open Scope Z_scope.

(** ** Memory accesses *)

Lemma size_cons x l : size (x :: l) = 1 + size l.
Proof. unfold size. cbn [length]. lia. Qed.

Lemma read_at_app (a b c : list Z) o n :
  o = size a -> n = size b -> read_at (a ++ b ++ c) o n = Ret b.
Proof.
  intros -> ->. unfold read_at. rewrite !size_app.
  pose proof (size_nonneg a). pose proof (size_nonneg b). pose proof (size_nonneg c).
  rewrite (proj2 (Z.leb_le _ _)), (proj2 (Z.leb_le _ _)) by lia. cbn [andb]. f_equal.
  unfold size. rewrite !Nat2Z.id. rewrite drop_app_length. apply take_app_length.
Qed.

Lemma write_at_app (a b c bs : list Z) o :
  o = size a -> size bs = size b -> write_at (a ++ b ++ c) o bs = Ret (a ++ bs ++ c).
Proof.
  intros -> Hb. unfold write_at. rewrite !size_app.
  pose proof (size_nonneg a). pose proof (size_nonneg b). pose proof (size_nonneg c).
  rewrite (proj2 (Z.leb_le _ _)), (proj2 (Z.leb_le _ _)) by lia. cbn [andb]. f_equal.
  rewrite Hb. unfold size. rewrite <-Nat2Z.inj_add, !Nat2Z.id. rewrite take_app_length. do 2 f_equal.
  rewrite app_assoc. rewrite <-length_app. apply drop_app_length.
Qed.

Lemma be_digits_size v : size (be_digits 4 v) = 4.
Proof. reflexivity. Qed.

Lemma getl_at_app (a c : list Z) v o :
  o = size a -> 0 <= v < 2 ^ 32 -> getl_at (a ++ be_digits 4 v ++ c) o = Ret v.
Proof.
  intros Ho Hv. unfold getl_at. rewrite read_at_app by done. cbn [mbind outcome_bind].
  rewrite <-(app_nil_r (be_digits 4 v)). by apply getl_digits.
Qed.

Lemma putl_at_app (a b c : list Z) o v :
  o = size a -> size b = 4 -> putl_at (a ++ b ++ c) o v = Ret (a ++ be_digits 4 v ++ c).
Proof.
  intros Ho Hb. unfold putl_at. rewrite read_at_app by done. cbn [mbind outcome_bind].
  unfold size in Hb. destruct b as [|b0 [|b1 [|b2 [|b3 [|b4 b]]]]]; cbn [length] in Hb; try lia.
  rewrite putl_digits, app_nil_r. cbn [mbind outcome_bind].
  by rewrite write_at_app.
Qed.

(** A string cut at an offset, and behind the word that starts there. *)
Lemma cut (l : list Z) n : 0 <= n <= size l -> exists a b, l = a ++ b /\ size a = n.
Proof.
  intros Hn. exists (take (Z.to_nat n) l), (drop (Z.to_nat n) l).
  split; [by rewrite take_drop|]. by apply size_take_drop.
Qed.

(** ** The layout of a chunk *)

(** The chunk [c] holds [data] at offset [o]. *)
Definition chunk_ok (c : nn_chunk) (o : Z) (data : list Z) : Prop :=
  csize c = size data /\ 8 <= o /\ o - 8 < 2 ^ 32 /\
  exists space, size space = o - 8 /\
    mem c = space ++ be_digits 4 (o - 8) ++ be_digits 4 NN_CHUNK_TAG ++ data.

Lemma tag_range : 0 <= NN_CHUNK_TAG < 2 ^ 32.
Proof. unfold NN_CHUNK_TAG. lia. Qed.

Lemma getptr_ok h p c data :
  h !! block p = Some c -> chunk_ok c (off p) data -> nn_chunk_getptr h p = Ret (block p).
Proof.
  intros Hc (_ & Ho & Hlt & space & Hs & Hm). unfold nn_chunk_getptr. load Hc. rewrite Hm.
  rewrite (app_assoc space), (getl_at_app _ data NN_CHUNK_TAG (off p - 4));
    [|rewrite size_app, be_digits_size; lia|apply tag_range].
  cbn [mbind outcome_bind]. rewrite Z.eqb_refl. cbn [check mbind outcome_bind].
  rewrite <-app_assoc, getl_at_app by lia. cbn [mbind outcome_bind].
  by rewrite (proj2 (Z.eqb_eq _ _)) by lia.
Qed.

(** Two readings of the same chunk agree. *)
Lemma chunk_ok_same_data c o data data' : chunk_ok c o data -> chunk_ok c o data' -> data = data'.
Proof.
  intros (_ & _ & _ & s & Hs & Hm) (_ & _ & _ & s' & Hs' & Hm'). rewrite Hm in Hm'.
  apply app_inj_1 in Hm' as [_ Hm']; [|unfold size in *; lia].
  apply app_inj_1 in Hm' as [_ Hm']; [|done]. by apply app_inj_1 in Hm' as [_ Hm'].
Qed.

Lemma chunk_ok_count c o data n : chunk_ok c o data -> chunk_ok (Chunk n (csize c) (mem c)) o data.
Proof. done. Qed.

Lemma fresh_chunk (bs : list Z) n :
  size bs = 8 + n -> 0 <= n ->
  exists m1 m2 data, putl_at bs 0 0 = Ret m1 /\ putl_at m1 4 NN_CHUNK_TAG = Ret m2 /\
    data = drop 8 bs /\ size data = n /\ chunk_ok (Chunk 1 n m2) 8 data.
Proof.
  intros Hs Hn. destruct (cut bs 4) as (w0 & r & -> & Hw0); [lia|]. rewrite size_app in Hs.
  destruct (cut r 4) as (w1 & data & -> & Hw1); [lia|]. rewrite size_app in Hs.
  pose proof (putl_at_app [] w0 (w1 ++ data) 0 0 eq_refl Hw0) as E1. cbn [app] in E1.
  exists (be_digits 4 0 ++ w1 ++ data), (be_digits 4 0 ++ be_digits 4 NN_CHUNK_TAG ++ data), data.
  split_and!; [done|by apply putl_at_app| |lia|].
  - rewrite app_assoc. rewrite (drop_app_length' _ _ 8); [done|].
    rewrite length_app. unfold size in *. lia.
  - split_and!; cbn [csize mem]; [lia..|]. exists []. by split.
Qed.

(** What the allocator may return: a block that is free now, with the memory
    asked for. *)
Definition alloc_ok (h : chunk_heap) (a : allocation) (n : Z) : Prop :=
  0 <= n < 2 ^ 64 - nn_chunk_hdrsize /\ 8 + n <= size (junk a) /\
  exists b, addr a = Some b /\ h !! b = None.

(** The bytes of a chunk that was not written yet. *)
Definition heap_bytes (a : allocation) (n : Z) : list Z :=
  drop 8 (take (Z.to_nat (8 + n)) (junk a)).

Lemma alloc_size n : 0 <= n < 2 ^ 64 - nn_chunk_hdrsize ->
  u64 (nn_chunk_hdrsize + n) = nn_chunk_hdrsize + n.
Proof. unfold nn_chunk_hdrsize, sizeof_nn_chunk. intros. apply u64_small. lia. Qed.

Lemma alloc_spec h a n :
  alloc_ok h a n ->
  exists b c, h !! b = None /\ nn_chunk_alloc h a n 0 = Ret (<[b := c]> h, 0, Some (Ptr b 8)) /\
    refcount c = 1 /\ size (heap_bytes a n) = n /\ chunk_ok c 8 (heap_bytes a n).
Proof.
  intros (Hn & Hj & b & Hb & Hfree). unfold nn_chunk_alloc. rewrite alloc_size by done.
  unfold nn_chunk_hdrsize, sizeof_nn_chunk in *.
  rewrite (proj2 (Z.ltb_ge _ _)) by lia. cbn [negb Z.eqb]. rewrite Hb.
  replace (24 + 2 * 4 + n - 24) with (8 + n) by lia.
  destruct (fresh_chunk (take (Z.to_nat (8 + n)) (junk a)) n) as (m1 & m2 & data & E1 & E2 & Hd & Hs & Hok).
  { apply size_take_drop. lia. } { lia. }
  rewrite E1. cbn [mbind outcome_bind]. rewrite E2. cbn [mbind outcome_bind].
  exists b, (Chunk 1 n m2). unfold heap_bytes. by rewrite <-Hd.
Qed.

(** ** Trimming *)

Lemma trim_spec h p c data n :
  h !! block p = Some c -> chunk_ok c (off p) data -> 0 <= n <= size data ->
  off p - 8 + n < 2 ^ 32 - 1 ->
  exists c', nn_chunk_trim h p n = Ret (<[block p := c']> h, Ptr (block p) (off p + n)) /\
    refcount c' = refcount c /\ chunk_ok c' (off p + n) (drop (Z.to_nat n) data).
Proof.
  intros Hc Hok Hn Hlt. unfold nn_chunk_trim. rewrite (getptr_ok _ _ _ _ Hc Hok). cbn [mbind outcome_bind].
  load Hc. destruct Hok as (Hsz & Ho & _ & space & Hs & Hm).
  rewrite Hsz, (proj2 (Z.leb_le _ _)) by lia. cbn [check mbind outcome_bind]. cbn [off block].
  destruct (cut data n) as (front & rest & -> & Hf); [lia|].
  destruct (cut (space ++ be_digits 4 (off p - 8) ++ be_digits 4 NN_CHUNK_TAG ++ front) (off p - 8 + n))
    as (a & r & Er & Ha); [rewrite !size_app, !be_digits_size; lia|].
  assert (Hr : size r = 8).
  { apply (f_equal size) in Er. rewrite !size_app, !be_digits_size in Er. lia. }
  destruct (cut r 4) as (w0 & w1 & -> & Hw0); [lia|]. rewrite size_app in Hr.
  assert (E : mem c = (a ++ w0) ++ w1 ++ rest).
  { rewrite Hm. rewrite <-(app_assoc a), (app_assoc w0), (app_assoc a), <-Er. by rewrite <-!app_assoc. }
  rewrite E, putl_at_app by (rewrite ?size_app; lia). cbn [mbind outcome_bind].
  unfold nn_chunk_hdrsize, sizeof_nn_chunk. rewrite (proj2 (Z.ltb_lt _ _)) by lia.
  cbn [check mbind outcome_bind]. rewrite <-app_assoc, putl_at_app by lia. cbn [mbind outcome_bind].
  eexists. split; [reflexivity|]. split; [done|]. split_and!; cbn [csize mem off]; [|lia..|].
  - rewrite size_app, drop_app_length' by (unfold size in Hf; lia). lia.
  - exists a. split; [lia|]. rewrite (drop_app_length' front) by (unfold size in Hf; lia).
    do 3 f_equal. lia.
Qed.

(** ** Ownership *)

(** What the program owns: the initialised references with their bytes, and
    for every chunk the number of copies announced and not made yet. *)
Record owned : Type := Owned { vals : gmap cref (list Z); credit : gmap loc Z }.

Definition credits (g : owned) (b : loc) : Z := default 0 (credit g !! b).

Definition block_of (r : option nn_chunkref) : option loc :=
  match r with Some (Ref p) => Some (block p) | _ => None end.

(** The references to chunk [b] among those owned. *)
Definition holders (rs : gmap cref nn_chunkref) (vs : gmap cref (list Z)) (b : loc) : Z :=
  Z.of_nat (Datatypes.length (filter (fun rd => block_of (rs !! fst rd) = Some b) (map_to_list vs))).

Definition ref_ok (h : chunk_heap) (r : option nn_chunkref) (data : list Z) : Prop :=
  match r with
  | Some (Vsm d) => d = data /\ size data < NN_CHUNKREF_MAX
  | Some (Ref p) => exists c, h !! block p = Some c /\ chunk_ok c (off p) data
  | None => False
  end.

Record mem_rep (m : memory) (g : owned) : Prop := {
  rep_refs : forall r data, vals g !! r = Some data -> ref_ok (chunks m) (refs m !! r) data;
  rep_count : forall b c, chunks m !! b = Some c ->
    refcount c = holders (refs m) (vals g) b + credits g b /\ 1 <= refcount c < 2 ^ 32;
  rep_credit : forall b, 0 <= credits g b /\ (chunks m !! b = None -> credits g b = 0)
}.

(** ** Counting references *)

Definition points (r : option nn_chunkref) (b : loc) : Z := c_bool (bool_decide (block_of r = Some b)).

Lemma points_range r b : 0 <= points r b <= 1.
Proof. unfold points. destruct (bool_decide _); cbn; lia. Qed.

Lemma holders_nonneg rs vs b : 0 <= holders rs vs b.
Proof. unfold holders. lia. Qed.

Lemma holders_empty rs b : holders rs ∅ b = 0.
Proof. unfold holders. by rewrite map_to_list_empty. Qed.

Lemma holders_insert rs vs r data b :
  vs !! r = None -> holders rs (<[r := data]> vs) b = holders rs vs b + points (rs !! r) b.
Proof.
  intros Hr. unfold holders, points. rewrite map_to_list_insert by done.
  rewrite filter_cons. cbn [fst]. destruct (decide _); case_bool_decide; try done; cbn [length c_bool]; lia.
Qed.

Lemma holders_delete rs vs r data b :
  vs !! r = Some data -> holders rs (delete r vs) b = holders rs vs b - points (rs !! r) b.
Proof.
  intros Hr. rewrite <-(insert_delete_id vs r data) at 2 by done.
  rewrite holders_insert by apply lookup_delete_eq. lia.
Qed.

Lemma filter_in_iff {A} (P Q : A -> Prop) `{!forall x, Decision (P x), !forall x, Decision (Q x)}
    (l : list A) : (forall x, x ∈ l -> P x <-> Q x) -> filter P l = filter Q l.
Proof.
  induction l as [|x l IH]; intros Hpq; [done|]. rewrite !filter_cons.
  rewrite IH by (intros; apply Hpq; by right).
  assert (P x <-> Q x) by (apply Hpq; by left). destruct (decide (P x)), (decide (Q x)); tauto.
Qed.

(** Only the values of owned references matter. *)
Lemma holders_ext rs rs' vs b :
  (forall r, is_Some (vs !! r) -> block_of (rs' !! r) = block_of (rs !! r)) ->
  holders rs' vs b = holders rs vs b.
Proof.
  intros H. unfold holders. do 2 f_equal. apply filter_in_iff.
  intros [r d] Hrd. apply elem_of_map_to_list in Hrd. cbn. by rewrite H by by eexists.
Qed.

Lemma holders_none (rs : gmap cref nn_chunkref) (vs : gmap cref (list Z)) b :
  (forall r d, vs !! r = Some d -> block_of (rs !! r) <> Some b) -> holders rs vs b = 0.
Proof.
  intros H. unfold holders. destruct (filter _ _) as [|[r d] l] eqn:E; [done|]. exfalso.
  assert (Hx : (r, d) ∈ filter (fun rd => block_of (rs !! fst rd) = Some b) (map_to_list vs)).
  { rewrite E. by left. }
  apply list_elem_of_filter in Hx as [Hb Hx%elem_of_map_to_list]. by apply (H r d).
Qed.

(** ** Ghost moves *)

#[export] Instance owned_equiv : Equiv owned :=
  fun g g' => vals g = vals g' /\ forall b, credits g b = credits g' b.

#[export] Instance owned_equivalence : Equivalence (≡@{owned}).
Proof.
  split.
  - by intros g.
  - intros g g' [? H]. by split; [|intros b; rewrite H].
  - intros g1 g2 g3 [? H1] [? H2]. split; [congruence|]. intros b. by rewrite H1, H2.
Qed.

#[export] Instance mem_rep_proper : Proper ((=) ==> (≡) ==> (iff)) mem_rep.
Proof.
  assert (H : forall m g g', g ≡ g' -> mem_rep m g -> mem_rep m g').
  { intros m g g' [Hv Hc] [Hr Hn Hp]. split.
    - by rewrite <-Hv.
    - intros b c. rewrite <-Hv, <-Hc. apply Hn.
    - intros b. rewrite <-Hc. apply Hp. }
  intros m ? <- g g' Hg. split; apply H; [done|by symmetry].
Qed.

Definition add_credit (g : owned) (b : loc) (n : Z) : owned :=
  Owned (vals g) (<[b := credits g b + n]> (credit g)).

(** Credit for the chunk a value refers to, if any. *)
Definition give (g : owned) (v : nn_chunkref) (n : Z) : owned :=
  match v with Ref p => add_credit g (block p) n | Vsm _ => g end.

Definition drop_val (g : owned) (r : cref) : owned := Owned (delete r (vals g)) (credit g).

Definition put_val (g : owned) (r : cref) (data : list Z) : owned :=
  Owned (<[r := data]> (vals g)) (credit g).

Lemma credits_add g b n b' :
  credits (add_credit g b n) b' = credits g b' + (if decide (b = b') then n else 0).
Proof.
  unfold credits at 1, add_credit. cbn [credit]. destruct (decide (b = b')) as [->|].
  - by rewrite lookup_insert_eq.
  - rewrite lookup_insert_ne by done. unfold credits. lia.
Qed.

Lemma credits_give g v n b : credits (give g v n) b = credits g b + n * points (Some v) b.
Proof.
  unfold points. destruct v as [d|p]; cbn [give block_of]; [case_bool_decide; [done|cbn; lia]|].
  rewrite credits_add. destruct (decide _) as [->|]; case_bool_decide; cbn [c_bool]; try congruence; lia.
Qed.

Lemma vals_give g v n : vals (give g v n) = vals g.
Proof. by destruct v. Qed.

Lemma points_free m v data b :
  ref_ok (chunks m) (Some v) data -> chunks m !! b = None -> points (Some v) b = 0.
Proof.
  unfold points. intros Hr Hb. case_bool_decide as E; [|done]. destruct v; [done|].
  injection E as <-. destruct Hr as (c & Hc & _). congruence.
Qed.

(** Forget that a reference is owned. *)
Lemma rep_release m g r data v :
  mem_rep m g -> vals g !! r = Some data -> refs m !! r = Some v ->
  mem_rep m (give (drop_val g r) v 1).
Proof.
  intros [Hr Hn Hp] Hv Hrf. split.
  - intros r' d'. rewrite vals_give. cbn [vals drop_val]. intros [_ Hd]%lookup_delete_Some. by apply Hr.
  - intros b c Hc. destruct (Hn b c Hc) as [-> Hb]. rewrite vals_give. cbn [vals drop_val].
    rewrite credits_give, (holders_delete _ _ _ data), Hrf by done.
    change (credits (drop_val g r) b) with (credits g b). pose proof (points_range (Some v) b). lia.
  - intros b. rewrite credits_give. change (credits (drop_val g r) b) with (credits g b).
    pose proof (points_range (Some v) b). destruct (Hp b) as [Hb Hz]. split; [lia|].
    intros Hb0. specialize (Hz Hb0). specialize (Hr r data Hv). rewrite Hrf in Hr.
    rewrite (points_free m v data b) by done. lia.
Qed.

(** Store a value that is paid for in a variable. *)
Lemma rep_claim m g r v data :
  mem_rep m g -> vals g !! r = None -> ref_ok (chunks m) (Some v) data ->
  (forall p, v = Ref p -> 1 <= credits g (block p)) ->
  mem_rep (set_ref m r v) (give (put_val g r data) v (-1)).
Proof.
  intros [Hr Hn Hp] Hv Hok Hcr. split.
  - intros r' d'. rewrite vals_give. cbn [vals put_val chunks refs set_ref].
    destruct (decide (r = r')) as [<-|].
    + rewrite !lookup_insert_eq. by intros [= <-].
    + rewrite !lookup_insert_ne by done. apply Hr.
  - intros b c Hc. destruct (Hn b c Hc) as [-> Hb]. rewrite vals_give. cbn [vals put_val refs set_ref].
    rewrite credits_give, holders_insert, lookup_insert_eq by done.
    rewrite (holders_ext (refs m) (<[r := v]> (refs m))).
    + change (credits (put_val g r data) b) with (credits g b). lia.
    + intros r' [d' Hd']. rewrite lookup_insert_ne; [done|]. intros <-. congruence.
  - intros b. rewrite credits_give. change (credits (put_val g r data) b) with (credits g b).
    destruct (Hp b) as [Hb Hz]. split.
    + unfold points. destruct v as [d|p]; cbn [block_of]; [case_bool_decide; [done|cbn; lia]|].
      specialize (Hcr p eq_refl). case_bool_decide as E; cbn [c_bool]; [|lia]. injection E as <-. lia.
    + intros Hb0. rewrite (points_free m v data b) by done. specialize (Hz Hb0). lia.
Qed.

(** The only reference to a chunk. *)
Lemma sole_owner m g b c :
  mem_rep m g -> chunks m !! b = Some c -> refcount c <= credits g b ->
  refcount c = credits g b /\
  (forall r data p, vals g !! r = Some data -> refs m !! r = Some (Ref p) -> block p <> b).
Proof.
  intros [Hr Hn Hp] Hc Hle. destruct (Hn _ _ Hc) as [Hcount Hb].
  pose proof (holders_nonneg (refs m) (vals g) b) as Hh. split; [lia|].
  intros r data p Hv Hrf <-.
  pose proof (holders_delete (refs m) (vals g) r data (block p) Hv) as Hx.
  pose proof (holders_nonneg (refs m) (delete r (vals g)) (block p)) as Hy.
  rewrite Hrf in Hx. unfold points in Hx. cbn [block_of] in Hx.
  rewrite bool_decide_eq_true_2 in Hx by done. cbn [c_bool] in Hx. lia.
Qed.

(** Chunks that no owned reference points to may change. *)
Lemma refs_keep (h h' : chunk_heap) (rs : gmap cref nn_chunkref) (vs : gmap cref (list Z)) :
  (forall r data, vs !! r = Some data -> ref_ok h (rs !! r) data) ->
  (forall r data p c, vs !! r = Some data -> rs !! r = Some (Ref p) -> h !! block p = Some c ->
     exists c', h' !! block p = Some c' /\ csize c' = csize c /\ mem c' = mem c) ->
  forall r data, vs !! r = Some data -> ref_ok h' (rs !! r) data.
Proof.
  intros Hr Hk r data Hv. specialize (Hr r data Hv). unfold ref_ok in *.
  destruct (rs !! r) as [[|p]|] eqn:Er; [done| |done]. destruct Hr as (c & Hc & Hok).
  destruct (Hk r data p c Hv Er Hc) as (c' & Hc' & Hs & Hm). exists c'. split; [done|].
  destruct c', c. cbn in Hs, Hm. subst. exact Hok.
Qed.

Lemma rep_del m g b c :
  mem_rep m g -> chunks m !! b = Some c -> refcount c <= credits g b ->
  mem_rep (set_chunks m (delete b (chunks m))) (add_credit g b (- refcount c)).
Proof.
  intros Hm Hc Hle. destruct (sole_owner m g b c Hm Hc Hle) as [Heq Hne]. destruct Hm as [Hr Hn Hp].
  split; cbn [chunks refs set_chunks vals add_credit].
  - apply (refs_keep (chunks m)); [done|]. intros r data p c' Hv Er Hc'. exists c'.
    rewrite lookup_delete_ne by (intros E; by apply (Hne r data p Hv Er)). done.
  - intros b' c' [Hb Hc']%lookup_delete_Some. rewrite credits_add, decide_False, Z.add_0_r by done.
    by apply Hn.
  - intros b'. rewrite credits_add. destruct (decide _) as [<-|Hb]; [lia|].
    rewrite lookup_delete_ne, Z.add_0_r by done. apply Hp.
Qed.

Lemma rep_new m g b c data :
  mem_rep m g -> chunks m !! b = None -> refcount c = 1 -> chunk_ok c 8 data ->
  mem_rep (set_chunks m (<[b := c]> (chunks m))) (add_credit g b 1).
Proof.
  intros [Hr Hn Hp] Hb Hc Hok. split; cbn [chunks refs set_chunks vals add_credit].
  - apply (refs_keep (chunks m)); [done|]. intros r d p c' _ _ Hc'. exists c'.
    rewrite lookup_insert_ne by congruence. done.
  - intros b' c'. rewrite credits_add. destruct (decide (b = b')) as [<-|Hne].
    + rewrite lookup_insert_eq. intros [= <-]. rewrite (proj2 (Hp b)) by done.
      assert (Hz : holders (refs m) (vals g) b = 0); [|lia].
      apply holders_none. intros r d Hrd. specialize (Hr r d Hrd).
      destruct (refs m !! r) as [[|p]|]; cbn [block_of]; [done| |done].
      intros [= <-]. destruct Hr as (? & ? & _). congruence.
    + rewrite lookup_insert_ne, Z.add_0_r by done. apply Hn.
  - intros b'. rewrite credits_add. destruct (decide (b = b')) as [<-|Hne].
    + rewrite lookup_insert_eq. destruct (Hp b). split; [lia|done].
    + rewrite lookup_insert_ne, Z.add_0_r by done. apply Hp.
Qed.

(** [n] references more to a chunk, or less. *)
Lemma rep_count_by m g b c n :
  mem_rep m g -> chunks m !! b = Some c -> 0 <= credits g b + n ->
  1 <= refcount c + n < 2 ^ 32 ->
  mem_rep (set_chunks m (<[b := Chunk (u32 (refcount c + n)) (csize c) (mem c)]> (chunks m)))
    (add_credit g b n).
Proof.
  intros [Hr Hn Hp] Hc Hcr Hroom. rewrite u32_small by lia.
  split; cbn [chunks refs set_chunks vals add_credit].
  - apply (refs_keep (chunks m)); [done|]. intros r d p c' _ _ Hc'.
    destruct (decide (b = block p)) as [->|].
    + rewrite lookup_insert_eq. eexists. split; [done|]. rewrite Hc in Hc'. by injection Hc' as <-.
    + rewrite lookup_insert_ne by done. by exists c'.
  - intros b' c'. rewrite credits_add. destruct (decide (b = b')) as [<-|Hne].
    + rewrite lookup_insert_eq. intros [= <-]. cbn [refcount]. destruct (Hn _ _ Hc). lia.
    + rewrite lookup_insert_ne, Z.add_0_r by done. apply Hn.
  - intros b'. rewrite credits_add. destruct (decide (b = b')) as [<-|Hne].
    + rewrite lookup_insert_eq. done.
    + rewrite lookup_insert_ne, Z.add_0_r by done. apply Hp.
Qed.

(** A chunk that no owned reference points to is rewritten. *)
Lemma rep_rewrite m g b c c' :
  mem_rep m g -> chunks m !! b = Some c -> refcount c <= credits g b -> refcount c' = refcount c ->
  mem_rep (set_chunks m (<[b := c']> (chunks m))) g.
Proof.
  intros Hm Hc Hle Hc'. destruct (sole_owner m g b c Hm Hc Hle) as [_ Hne]. destruct Hm as [Hr Hn Hp].
  split; cbn [chunks refs set_chunks].
  - apply (refs_keep (chunks m)); [done|]. intros r d p c0 Hv Er Hc0. exists c0.
    rewrite lookup_insert_ne; [done|]. intros E. by apply (Hne r d p Hv Er).
  - intros b' c0. destruct (decide (b = b')) as [<-|].
    + rewrite lookup_insert_eq. intros [= <-]. rewrite Hc'. by apply Hn.
    + rewrite lookup_insert_ne by done. apply Hn.
  - intros b'. destruct (decide (b = b')) as [<-|].
    + rewrite lookup_insert_eq. destruct (Hp b). done.
    + rewrite lookup_insert_ne by done. apply Hp.
Qed.

(** [nn_chunk_free] of a chunk that is paid for. *)
Lemma rep_free m g p c data :
  mem_rep m g -> chunks m !! block p = Some c -> chunk_ok c (off p) data ->
  1 <= credits g (block p) ->
  exists h, nn_chunk_free (chunks m) p = Ret h /\ mem_rep (set_chunks m h) (add_credit g (block p) (-1)).
Proof.
  intros Hm Hc Hok Hcr. unfold nn_chunk_free. rewrite (getptr_ok _ _ _ _ Hc Hok).
  cbn [mbind outcome_bind]. load Hc. destruct (rep_count _ _ Hm _ _ Hc) as [Hcount Hb].
  destruct (Z.leb_spec (refcount c) 1) as [Hle|Hgt].
  - destruct Hok as (_ & _ & _ & space & Hs & Hmem). rewrite Hmem, app_assoc.
    rewrite putl_at_app; [|rewrite size_app, be_digits_size; lia|done]. cbn [mbind outcome_bind].
    eexists. split; [reflexivity|]. replace (-1) with (- refcount c) by lia. apply rep_del; [done..|lia].
  - eexists. split; [reflexivity|]. change (refcount c - 1) with (refcount c + -1).
    apply rep_count_by; [done|done|lia..].
Qed.

(** ** Credit *)

Lemma credits_drop g r b : credits (drop_val g r) b = credits g b.
Proof. reflexivity. Qed.

Lemma credits_put g r d b : credits (put_val g r d) b = credits g b.
Proof. reflexivity. Qed.

Lemma points_vsm d b : points (Some (Vsm d)) b = 0.
Proof. done. Qed.

Create Rewrite HintDb owned.
#[export] Hint Rewrite credits_drop credits_put credits_give vals_give points_vsm : owned.

(** Two descriptions of what is owned are the same. *)
Ltac owned_eq :=
  split; [repeat (progress (cbn [vals drop_val put_val]; autorewrite with owned)); try done
         |intros ?b; autorewrite with owned; try lia].

(** A reference that is owned. *)
Lemma own_ref m g r data :
  mem_rep m g -> vals g !! r = Some data ->
  exists v, refs m !! r = Some v /\ ref_ok (chunks m) (Some v) data.
Proof.
  intros Hm Hv. pose proof (rep_refs _ _ Hm r data Hv) as Hr. destruct (refs m !! r) as [v|]; [|done].
  by exists v.
Qed.

Lemma ref_at_Some m r v : refs m !! r = Some v -> ref_at m r = Ret v.
Proof. unfold ref_at. by intros ->. Qed.

Ltac load_ref H := rewrite (ref_at_Some _ _ _ H); cbn [mbind outcome_bind].

Lemma put_drop g r d : put_val (drop_val g r) r d ≡ put_val g r d.
Proof. owned_eq. by rewrite insert_delete_eq. Qed.

Lemma points_self p : points (Some (Ref p)) (block p) = 1.
Proof. unfold points. cbn [block_of]. by rewrite bool_decide_eq_true_2. Qed.

(** A release followed by a claim in the same place. *)
Lemma rep_reclaim m g r v data :
  mem_rep m (give (drop_val g r) v 1) -> (forall b, 0 <= credits g b) ->
  ref_ok (chunks m) (Some v) data ->
  mem_rep (set_ref m r v) (put_val g r data).
Proof.
  intros Hm Hcr Hok. rewrite <-put_drop.
  assert (Hc : mem_rep (set_ref m r v) (give (put_val (give (drop_val g r) v 1) r data) v (-1))).
  { apply rep_claim; [done|rewrite vals_give; apply lookup_delete_eq|done|].
    intros p ->. rewrite credits_give, points_self, credits_drop. specialize (Hcr (block p)). lia. }
  revert Hc. apply mem_rep_proper; [done|]. symmetry. owned_eq.
Qed.

Lemma rep_credits m g : mem_rep m g -> forall b, 0 <= credits g b.
Proof. intros Hm b. apply (rep_credit _ _ Hm b). Qed.

(** ** The operations *)

Lemma chunk_size_at (h : chunk_heap) p c data :
  h !! block p = Some c -> chunk_ok c (off p) data -> nn_chunk_size h p = Ret (size data).
Proof.
  intros Hc Hok. unfold nn_chunk_size. rewrite (getptr_ok _ _ _ _ Hc Hok). cbn [mbind outcome_bind].
  load Hc. by destruct Hok as [-> _].
Qed.

Lemma size_ok m g r data :
  mem_rep m g -> vals g !! r = Some data -> nn_chunkref_size m r = Ret (size data).
Proof.
  intros Hm Hv. destruct (own_ref m g r data Hm Hv) as (v & Hrf & Hok). unfold nn_chunkref_size.
  load_ref Hrf. destruct v as [d|p]; [by destruct Hok as [-> _]|].
  destruct Hok as (c & Hc & Hok). by apply (chunk_size_at _ _ c).
Qed.

(** What a reference owns can be read through [nn_chunkref_data]. *)
Lemma data_ok m g r data :
  mem_rep m g -> vals g !! r = Some data ->
  exists d, nn_chunkref_data m r = Ret d /\ load_data m d 0 (size data) = Ret data.
Proof.
  intros Hm Hv. destruct (own_ref m g r data Hm Hv) as (v & Hrf & Hok). unfold nn_chunkref_data.
  load_ref Hrf. eexists. split; [reflexivity|]. destruct v as [d|p]; cbn [load_data].
  - load_ref Hrf. destruct Hok as [-> _]. pose proof (read_at_app [] data [] 0 (size data) eq_refl eq_refl) as E.
    cbn [app] in E. by rewrite app_nil_r in E.
  - destruct Hok as (c & Hc & _ & Ho & _ & space & Hs & Hmem). load Hc. rewrite Hmem.
    rewrite !app_assoc, <-(app_nil_r ((_ ++ _) ++ data)), <-app_assoc. apply read_at_app; [|done].
    rewrite !size_app, !be_digits_size. lia.
Qed.

Lemma term_ok m g r data :
  mem_rep m g -> vals g !! r = Some data ->
  exists m', nn_chunkref_term m r = Ret m' /\ mem_rep m' (drop_val g r).
Proof.
  intros Hm Hv. destruct (own_ref m g r data Hm Hv) as (v & Hrf & Hok). unfold nn_chunkref_term.
  load_ref Hrf. pose proof (rep_release m g r data v Hm Hv Hrf) as Hrel. destruct v as [d|p].
  - eexists. split; [reflexivity|]. exact Hrel.
  - destruct Hok as (c & Hc & Hok).
    destruct (rep_free m _ p c data Hrel Hc Hok) as (h & -> & Hf).
    { rewrite credits_give, points_self, credits_drop. pose proof (rep_credits _ _ Hm (block p)). lia. }
    cbn [mbind outcome_bind]. eexists. split; [reflexivity|]. revert Hf. apply mem_rep_proper; [done|].
    symmetry. change (add_credit ?g (block p) ?n) with (give g (Ref p) n). owned_eq.
Qed.

Lemma mv_ok m g d s data :
  mem_rep m g -> vals g !! s = Some data -> vals g !! d = None ->
  exists m', nn_chunkref_mv m d s = Ret m' /\ mem_rep m' (put_val (drop_val g s) d data).
Proof.
  intros Hm Hs Hd. destruct (own_ref m g s data Hm Hs) as (v & Hrf & Hok). unfold nn_chunkref_mv.
  load_ref Hrf. eexists. split; [reflexivity|].
  assert (Hne : s <> d) by congruence.
  assert (Hc : mem_rep (set_ref m d v) (give (put_val (give (drop_val g s) v 1) d data) v (-1))).
  { apply rep_claim; [by eapply rep_release|by rewrite vals_give; cbn; rewrite lookup_delete_ne|done|].
    intros p ->. rewrite credits_give, points_self, credits_drop. pose proof (rep_credits _ _ Hm (block p)). lia. }
  revert Hc. apply mem_rep_proper; [done|]. symmetry. owned_eq.
Qed.

(** There is room for [n] more references to the chunk. *)
Definition room (m : memory) (r : cref) (n : Z) : Prop :=
  0 <= n /\ forall p c, refs m !! r = Some (Ref p) -> chunks m !! block p = Some c -> refcount c + n < 2 ^ 32.

Lemma addref_ok m g r data v n :
  mem_rep m g -> vals g !! r = Some data -> refs m !! r = Some v -> room m r n ->
  exists m', nn_chunkref_bulkcopy_start m r n = Ret m' /\ mem_rep m' (give g v n) /\
    refs m' = refs m /\ ref_ok (chunks m') (Some v) data.
Proof.
  intros Hm Hv Hrf [Hn Hroom]. unfold nn_chunkref_bulkcopy_start. load_ref Hrf.
  pose proof (rep_refs _ _ Hm r data Hv) as Hok. rewrite Hrf in Hok. destruct v as [d|p].
  - eexists. split; [reflexivity|]. by split_and!.
  - destruct Hok as (c & Hc & Hok). unfold nn_chunk_addref. rewrite (getptr_ok _ _ _ _ Hc Hok).
    cbn [mbind outcome_bind]. load Hc. destruct (rep_count _ _ Hm _ _ Hc) as [_ Hb].
    specialize (Hroom p c Hrf Hc).
    eexists. split; [reflexivity|]. split; [|split; [done|]].
    + apply rep_count_by; [done..| |lia]. pose proof (rep_credits _ _ Hm (block p)). lia.
    + eexists. cbn [set_chunks chunks]. rewrite lookup_insert_eq. split; [done|]. exact Hok.
Qed.

Lemma cp_is_bulk m d s :
  nn_chunkref_cp m d s = m' ← nn_chunkref_bulkcopy_start m s 1; nn_chunkref_bulkcopy_cp m' d s.
Proof.
  unfold nn_chunkref_cp, nn_chunkref_bulkcopy_start, nn_chunkref_bulkcopy_cp, ref_at.
  destruct (refs m !! s) as [[x|p]|] eqn:E; cbn; rewrite ?E; [done| |done].
  by destruct (nn_chunk_addref (chunks m) p 1); cbn; rewrite ?E.
Qed.

Lemma bulk_cp_ok m g d s data v :
  mem_rep m g -> vals g !! s = Some data -> refs m !! s = Some v -> vals g !! d = None ->
  (forall p, v = Ref p -> 1 <= credits g (block p)) ->
  exists m', nn_chunkref_bulkcopy_cp m d s = Ret m' /\ mem_rep m' (give (put_val g d data) v (-1)).
Proof.
  intros Hm Hs Hrf Hd Hcr. unfold nn_chunkref_bulkcopy_cp. load_ref Hrf.
  eexists. split; [reflexivity|]. apply rep_claim; [done..| |done].
  pose proof (rep_refs _ _ Hm s data Hs) as Hok. by rewrite Hrf in Hok.
Qed.

Lemma cp_ok m g d s data :
  mem_rep m g -> vals g !! s = Some data -> vals g !! d = None -> room m s 1 ->
  exists m', nn_chunkref_cp m d s = Ret m' /\ mem_rep m' (put_val g d data).
Proof.
  intros Hm Hs Hd Hroom. rewrite cp_is_bulk. destruct (own_ref m g s data Hm Hs) as (v & Hrf & _).
  destruct (addref_ok m g s data v 1 Hm Hs Hrf Hroom) as (m1 & -> & Hm1 & Hrf1 & _). cbn [mbind outcome_bind].
  destruct (bulk_cp_ok m1 _ d s data v Hm1) as (m2 & -> & Hm2); rewrite ?vals_give, ?Hrf1; [done..| |].
  { intros p ->. rewrite credits_give, points_self. pose proof (rep_credits _ _ Hm (block p)). lia. }
  eexists. split; [reflexivity|]. revert Hm2. apply mem_rep_proper; [done|]. symmetry. owned_eq.
Qed.

(** A new chunk, referred to by one new reference. *)
Lemma rep_fresh m g b c data r :
  mem_rep m g -> chunks m !! b = None -> refcount c = 1 -> chunk_ok c 8 data -> vals g !! r = None ->
  mem_rep (set_ref (set_chunks m (<[b := c]> (chunks m))) r (Ref (Ptr b 8))) (put_val g r data).
Proof.
  intros Hm Hb Hc Hok Hr.
  assert (Hn : mem_rep (set_chunks m (<[b := c]> (chunks m))) (give g (Ref (Ptr b 8)) 1))
    by (by eapply rep_new).
  apply (rep_claim _ _ r (Ref (Ptr b 8)) data) in Hn.
  - revert Hn. apply mem_rep_proper; [done|]. symmetry. owned_eq.
  - by rewrite vals_give.
  - exists c. cbn. by rewrite lookup_insert_eq.
  - intros p [= <-]. rewrite credits_give, points_self. pose proof (rep_credits _ _ Hm b). cbn [block]. lia.
Qed.

Definition init_bytes (a : allocation) (n : Z) : list Z :=
  if n <? NN_CHUNKREF_MAX then take (Z.to_nat n) (junk a) else heap_bytes a n.

Lemma init_ok m g r n a :
  mem_rep m g -> vals g !! r = None -> alloc_ok (chunks m) a n ->
  exists m', nn_chunkref_init m a r n = Ret m' /\ mem_rep m' (put_val g r (init_bytes a n)) /\
    size (init_bytes a n) = n.
Proof.
  intros Hm Hr Ha. unfold nn_chunkref_init, init_bytes. destruct (Z.ltb_spec n NN_CHUNKREF_MAX).
  - assert (Hs : size (take (Z.to_nat n) (junk a)) = n)
      by (destruct Ha as (? & ? & _); apply size_take_drop; lia).
    eexists. split; [reflexivity|]. split; [|done].
    apply (rep_claim m g r (Vsm (take (Z.to_nat n) (junk a)))); [done|done| |done].
    split; [done|lia].
  - destruct (alloc_spec _ _ _ Ha) as (b & c & Hb & -> & Hc & Hs & Hok). cbn [mbind outcome_bind].
    cbn [Z.eqb check mbind outcome_bind]. eexists. split; [reflexivity|]. split; [|done]. by apply rep_fresh.
Qed.

(** The pointer in a variable of the application. *)
Definition var_ptr (m : memory) (v : loc) : outcome ptr :=
  r ← ref_at m (v, Var); match r with Ref p => Ret p | Vsm _ => Undef end.

Definition is_var (m : memory) (v : loc) : Prop := exists p, refs m !! (v, Var) = Some (Ref p).

Lemma var_ptr_ok m v p : refs m !! (v, Var) = Some (Ref p) -> var_ptr m v = Ret p.
Proof. intros H. unfold var_ptr. by load_ref H. Qed.

(** [nn_chunkref_term] is [nn_chunk_free] on what refers to a chunk,
    [nn_chunkref_init_chunk] a move out of a variable. *)
Lemma free_is_term m v p :
  refs m !! (v, Var) = Some (Ref p) ->
  (h ← nn_chunk_free (chunks m) p; Ret (set_chunks m h)) = nn_chunkref_term m (v, Var).
Proof. intros H. unfold nn_chunkref_term. by load_ref H. Qed.

Lemma init_chunk_is_mv m r v p :
  refs m !! (v, Var) = Some (Ref p) ->
  Ret (nn_chunkref_init_chunk m r p) = nn_chunkref_mv m r (v, Var).
Proof. intros H. unfold nn_chunkref_mv. by load_ref H. Qed.

Lemma write_chunk c o data bs i :
  chunk_ok c o data -> 0 <= i -> i + size bs <= size data ->
  exists m, write_at (mem c) (o + i) bs = Ret m /\
    chunk_ok (Chunk (refcount c) (csize c) m) o
      (take (Z.to_nat i) data ++ bs ++ drop (Z.to_nat (i + size bs)) data).
Proof.
  intros (Hs & Ho & Hlt & space & Hsp & Hm) Hi Hb. pose proof (size_nonneg bs).
  destruct (cut data i) as (d1 & r & -> & Hd1); [lia|]. rewrite size_app in Hs, Hb.
  destruct (cut r (size bs)) as (d2 & d3 & -> & Hd2); [lia|]. rewrite Hm.
  assert (E : space ++ be_digits 4 (o - 8) ++ be_digits 4 NN_CHUNK_TAG ++ d1 ++ d2 ++ d3 =
    (space ++ be_digits 4 (o - 8) ++ be_digits 4 NN_CHUNK_TAG ++ d1) ++ d2 ++ d3) by by rewrite <-!app_assoc.
  rewrite E, write_at_app; [|rewrite !size_app, !be_digits_size; lia|done].
  eexists. split; [reflexivity|].
  rewrite take_app_length' by (unfold size in Hd1; lia).
  rewrite (app_assoc d1 d2), (drop_app_length' (d1 ++ d2)) by (rewrite length_app; unfold size in *; lia).
  split_and!; cbn [csize mem]; [rewrite Hs, !size_app; lia|lia|lia|].
  exists space. split; [done|]. by rewrite <-!app_assoc.
Qed.

(** No other reference to the data, and no copies announced. *)
Definition private (m : memory) (r : cref) : Prop :=
  forall p c, refs m !! r = Some (Ref p) -> chunks m !! block p = Some c -> refcount c = 1.

(** Nothing that is written changes who shares what. *)
Definition keeps (m m' : memory) : Prop :=
  forall r p c', refs m' !! r = Some (Ref p) -> chunks m' !! block p = Some c' ->
    exists c, refs m !! r = Some (Ref p) /\ chunks m !! block p = Some c /\ refcount c' = refcount c.

Lemma keeps_private m m' r : keeps m m' -> private m r -> private m' r.
Proof. intros Hk Hp p c' Hr Hc. destruct (Hk r p c' Hr Hc) as (c & Hr' & Hc' & ->). by apply (Hp p c). Qed.

Lemma store_keeps m d i bs m' : store_data m d i bs = Ret m' -> keeps m m'.
Proof.
  destruct d as [s|q]; cbn [store_data]; intros H; inv_ret.
  - destruct x; inv_ret. intros r p c' Hr Hc. cbn in *. exists c'. split; [|done].
    destruct (decide (s = r)) as [->|]; [by rewrite lookup_insert_eq in Hr|by rewrite lookup_insert_ne in Hr].
  - intros r p c' Hr Hc. cbn in *. destruct (decide (block q = block p)) as [E|].
    + rewrite E, lookup_insert_eq in Hc. injection Hc as <-. rewrite E in *. by exists x.
    + rewrite lookup_insert_ne in Hc by done. by exists c'.
Qed.

(** A chunk that one reference owns is rewritten, at the same place or not. *)
Lemma rep_update m g r data p c q c' data' :
  mem_rep m g -> vals g !! r = Some data -> refs m !! r = Some (Ref p) ->
  chunks m !! block p = Some c -> refcount c = 1 ->
  block q = block p -> refcount c' = 1 -> chunk_ok c' (off q) data' ->
  mem_rep (set_ref (set_chunks m (<[block p := c']> (chunks m))) r (Ref q)) (put_val g r data').
Proof.
  intros Hm Hv Hrf Hc Hone Hq Hc' Hok.
  apply rep_reclaim; [|by apply (rep_credits m)|by exists c'; rewrite Hq; cbn; rewrite lookup_insert_eq].
  pose proof (rep_release m g r data _ Hm Hv Hrf) as Hrel.
  cbn [give] in *. rewrite Hq. eapply rep_rewrite; [exact Hrel|done| |congruence].
  rewrite Hone. change (add_credit ?g (block p) ?n) with (give g (Ref p) n).
  rewrite credits_give, points_self, credits_drop. pose proof (rep_credits _ _ Hm (block p)). lia.
Qed.

Lemma reclaim_vsm m g r data d d' :
  mem_rep m g -> vals g !! r = Some data -> refs m !! r = Some (Vsm d) -> size d' < NN_CHUNKREF_MAX ->
  mem_rep (set_ref m r (Vsm d')) (put_val g r d').
Proof.
  intros Hm Hv Hrf Hs. apply rep_reclaim; [|by apply (rep_credits m)|done].
  exact (rep_release m g r data _ Hm Hv Hrf).
Qed.

Lemma ref_trim_ok m g r data n :
  mem_rep m g -> vals g !! r = Some data -> private m r -> 0 <= n <= size data ->
  (forall p, refs m !! r = Some (Ref p) -> off p - 8 + n < 2 ^ 32 - 1) ->
  exists m', nn_chunkref_trim m r n = Ret m' /\ mem_rep m' (put_val g r (drop (Z.to_nat n) data)).
Proof.
  intros Hm Hv Hpr Hn Hlt. destruct (own_ref m g r data Hm Hv) as (v & Hrf & Hok). unfold nn_chunkref_trim.
  load_ref Hrf. destruct v as [d|p].
  - destruct Hok as [-> Hs]. rewrite Z.geb_leb, (proj2 (Z.leb_le _ _)) by lia. cbn [check mbind outcome_bind].
    eexists. split; [reflexivity|]. eapply reclaim_vsm; [done..|].
    destruct (size_take_drop data n Hn) as [_ ->]. lia.
  - destruct Hok as (c & Hc & Hok). specialize (Hlt p Hrf). specialize (Hpr p c Hrf Hc).
    destruct (trim_spec _ p c data n Hc Hok Hn Hlt) as (c' & -> & Hrc & Hok'). cbn [mbind outcome_bind].
    eexists. split; [reflexivity|]. eapply rep_update; [done..|congruence|done].
Qed.

Definition overwrite (data : list Z) (i : Z) (bs : list Z) : list Z :=
  take (Z.to_nat i) data ++ bs ++ drop (Z.to_nat (i + size bs)) data.

Lemma overwrite_size data i bs : 0 <= i -> i + size bs <= size data -> size (overwrite data i bs) = size data.
Proof.
  intros Hi Hb. pose proof (size_nonneg bs). unfold overwrite. rewrite !size_app.
  destruct (size_take_drop data i ltac:(lia)) as [-> _].
  destruct (size_take_drop data (i + size bs) ltac:(lia)) as [_ ->]. lia.
Qed.

Lemma store_ok m g r data i bs :
  mem_rep m g -> vals g !! r = Some data -> private m r -> 0 <= i -> i + size bs <= size data ->
  exists m', (d ← nn_chunkref_data m r; store_data m d i bs) = Ret m' /\
    mem_rep m' (put_val g r (overwrite data i bs)).
Proof.
  intros Hm Hv Hpr Hi Hb. destruct (own_ref m g r data Hm Hv) as (v & Hrf & Hok). unfold nn_chunkref_data.
  load_ref Hrf. destruct v as [d|p]; cbn [store_data].
  - destruct Hok as [-> Hs]. load_ref Hrf. unfold write_at.
    rewrite (proj2 (Z.leb_le _ _)), (proj2 (Z.leb_le _ _)) by lia. cbn [andb mbind outcome_bind].
    eexists. split; [reflexivity|]. eapply reclaim_vsm; [done..|].
    fold (overwrite data i bs). by rewrite overwrite_size.
  - destruct Hok as (c & Hc & Hok). load Hc. specialize (Hpr p c Hrf Hc).
    destruct (write_chunk c (off p) data bs i Hok Hi Hb) as (b & -> & Hok'). cbn [mbind outcome_bind].
    eexists. split; [reflexivity|].
    assert (Hu : mem_rep (set_ref (set_chunks m (<[block p := Chunk (refcount c) (csize c) b]> (chunks m))) r (Ref p))
      (put_val g r (overwrite data i bs))) by (eapply rep_update; done).
    revert Hu. unfold set_ref, set_chunks. cbn [chunks refs]. by rewrite (insert_id (refs m)) by done.
Qed.

Lemma getchunk_ok m g r v a data :
  mem_rep m g -> vals g !! r = Some data -> vals g !! (v, Var) = None -> alloc_ok (chunks m) a (size data) ->
  exists m' p, nn_chunkref_getchunk m a r = Ret (m', p) /\
    mem_rep (set_ref m' (v, Var) (Ref p)) (put_val (put_val g r []) (v, Var) data).
Proof.
  intros Hm Hv Hvar Ha. destruct (own_ref m g r data Hm Hv) as (w & Hrf & Hok). unfold nn_chunkref_getchunk.
  assert (Hne : r <> (v, Var)) by congruence.
  assert (Hnil : size [] < NN_CHUNKREF_MAX) by done.
  load_ref Hrf. destruct w as [d|p].
  - destruct Hok as [-> Hs]. destruct (alloc_spec _ _ _ Ha) as (b & c & Hb & -> & Hc & Hsz & Hok).
    cbn [mbind outcome_bind Z.eqb check]. rewrite (deref_Some _ b c) by (cbn; apply lookup_insert_eq).
    cbn [mbind outcome_bind off].
    destruct (write_chunk c 8 (heap_bytes a (size data)) data 0 Hok) as (m1 & E & Hok'); [done|lia|].
    rewrite Z.add_0_r in E. rewrite E. cbn [mbind outcome_bind]. eexists _, _. split; [reflexivity|].
    rewrite drop_ge in Hok' by (unfold size in *; lia). rewrite app_nil_r in Hok'. cbn [take app Z.to_nat] in Hok'.
    cbn [block]. rewrite insert_insert_eq.
    apply (reclaim_vsm _ _ r data data []) in Hm; [|done..].
    apply (rep_fresh _ _ b (Chunk (refcount c) (csize c) m1) data (v, Var)) in Hm; [exact Hm|done..|].
    cbn. by rewrite lookup_insert_ne.
  - destruct Hok as (c & Hc & Hok). eexists _, _. split; [reflexivity|].
    pose proof (rep_release m g r data _ Hm Hv Hrf) as Hrel.
    apply (rep_claim _ _ r (Vsm []) []) in Hrel; [|by rewrite vals_give; apply lookup_delete_eq|done|done].
    apply (rep_claim _ _ (v, Var) (Ref p) data) in Hrel.
    + revert Hrel. apply mem_rep_proper; [done|]. symmetry. owned_eq. by rewrite insert_delete_eq.
    + cbn [give put_val vals]. change (add_credit ?g ?b ?n) with (give g (Ref (Ptr b 0)) n).
      rewrite vals_give. cbn. rewrite lookup_insert_ne by done. by rewrite lookup_delete_ne.
    + by exists c.
    + intros q [= <-]. change (give (put_val (give (drop_val g r) (Ref p) 1) r []) (Vsm []) (-1))
        with (put_val (give (drop_val g r) (Ref p) 1) r []).
      rewrite credits_put, credits_give, points_self, credits_drop. pose proof (rep_credits _ _ Hm (block p)). lia.
Qed.

(** ** Reallocation *)

Lemma resize_chunk c data n extra :
  chunk_ok c 8 data -> 0 <= n <= size data + size extra ->
  chunk_ok (Chunk (refcount c) n (take (Z.to_nat (8 + n)) (mem c ++ extra))) 8
    (take (Z.to_nat n) (data ++ extra)).
Proof.
  intros (Hs & _ & _ & space & Hsp & Hm) Hn. destruct space; [|unfold size in Hsp; cbn in Hsp; lia].
  rewrite Hm. cbn [app]. rewrite <-!app_assoc.
  rewrite (app_assoc (be_digits 4 (8 - 8))).
  rewrite (take_app_ge _ _ (Z.to_nat (8 + n))) by (rewrite length_app; cbn; lia).
  replace (Z.to_nat (8 + n) - length (be_digits 4 (8 - 8) ++ be_digits 4 NN_CHUNK_TAG))%nat
    with (Z.to_nat n) by (rewrite length_app; cbn; lia).
  split_and!; cbn [csize mem]; [|lia..|].
  - symmetry. apply size_take_drop. rewrite size_app. lia.
  - exists []. split; [done|]. by rewrite <-app_assoc.
Qed.

Lemma realloc_ok m g v p data a n b :
  mem_rep m g -> vals g !! (v, Var) = Some data -> refs m !! (v, Var) = Some (Ref p) ->
  private m (v, Var) -> off p = 8 ->
  0 <= n < 2 ^ 64 - nn_chunk_hdrsize -> n <= size data + size (junk a) ->
  addr a = Some b -> (b = block p \/ chunks m !! b = None) ->
  exists h, nn_chunk_realloc (chunks m) a n p = Ret (h, 0, Ptr b 8) /\
    mem_rep (set_ref (set_chunks m h) (v, Var) (Ref (Ptr b 8)))
      (put_val g (v, Var) (take (Z.to_nat n) (data ++ junk a))).
Proof.
  intros Hm Hv Hrf Hpr Hp Hn Hj Ha Hb. pose proof (rep_refs _ _ Hm _ _ Hv) as Hok. rewrite Hrf in Hok.
  destruct Hok as (c & Hc & Hok). specialize (Hpr p c Hrf Hc). unfold nn_chunk_realloc.
  rewrite (getptr_ok _ _ _ _ Hc Hok). cbn [mbind outcome_bind]. load Hc.
  rewrite Hpr, alloc_size by done. cbn [Z.eqb Pos.eqb].
  unfold nn_chunk_hdrsize, sizeof_nn_chunk in *. rewrite (proj2 (Z.ltb_ge _ _)) by lia. rewrite Ha.
  replace (24 + 2 * 4 + n - 24) with (8 + n) by lia. eexists. split; [reflexivity|].
  rewrite Hp in Hok. pose proof (resize_chunk c data n (junk a) Hok ltac:(lia)) as Hnew. rewrite Hpr in Hnew.
  pose proof (rep_release m g _ data _ Hm Hv Hrf) as Hrel.
  apply (rep_del _ _ (block p) c) in Hrel; [|done|].
  2:{ rewrite Hpr, credits_give, points_self, credits_drop. pose proof (rep_credits _ _ Hm (block p)). lia. }
  eapply (rep_fresh _ _ b) in Hrel; [|cbn; destruct Hb as [->|]; [apply lookup_delete_eq|by rewrite lookup_delete_None; right]
    | |exact Hnew|]; [|done|].
  - revert Hrel. apply mem_rep_proper; [done|].
    rewrite <-put_drop. change (add_credit ?g (block p) ?n) with (give g (Ref p) n).
    symmetry. owned_eq.
  - change (add_credit ?g (block p) ?n) with (give g (Ref p) n). rewrite !vals_give. apply lookup_delete_eq.
Qed.

(** ** Histories *)

(** One operation on a reference, a chunk held by the application, or the
    bytes of a reference. *)
Inductive mlabel : Type :=
| LInit (r : cref) (n : Z) (a : allocation)
| LAlloc (v : loc) (n : Z) (a : allocation)
| LInitChunk (r : cref) (v : loc)
| LTerm (r : cref)
| LFree (v : loc)
| LRealloc (v : loc) (n : Z) (a : allocation)
| LGetchunk (r : cref) (v : loc) (a : allocation)
| LMv (d s : cref)
| LCp (d s : cref)
| LBulkStart (s : cref) (n : Z)
| LBulkCp (d s : cref)
| LTrim (r : cref) (n : Z)
| LStore (r : cref) (i : Z) (bs : list Z).

Definition mstep (m : memory) (l : mlabel) : outcome memory :=
  match l with
  | LInit r n a => nn_chunkref_init m a r n
  | LAlloc v n a =>
      '(h, rc, p) ← nn_chunk_alloc (chunks m) a n 0;
      match p with
      | Some p => Ret (set_ref (set_chunks m h) (v, Var) (Ref p))
      | None => Ret (set_chunks m h)
      end
  | LInitChunk r v => p ← var_ptr m v; Ret (nn_chunkref_init_chunk m r p)
  | LTerm r => nn_chunkref_term m r
  | LFree v => p ← var_ptr m v; h ← nn_chunk_free (chunks m) p; Ret (set_chunks m h)
  | LRealloc v n a =>
      p ← var_ptr m v;
      '(h, rc, p) ← nn_chunk_realloc (chunks m) a n p;
      Ret (set_ref (set_chunks m h) (v, Var) (Ref p))
  | LGetchunk r v a => '(m, p) ← nn_chunkref_getchunk m a r; Ret (set_ref m (v, Var) (Ref p))
  | LMv d s => nn_chunkref_mv m d s
  | LCp d s => nn_chunkref_cp m d s
  | LBulkStart s n => nn_chunkref_bulkcopy_start m s n
  | LBulkCp d s => nn_chunkref_bulkcopy_cp m d s
  | LTrim r n => nn_chunkref_trim m r n
  | LStore r i bs => d ← nn_chunkref_data m r; store_data m d i bs
  end.

Definition val (g : owned) (r : cref) : list Z := default [] (vals g !! r).

(** What is owned after the operation: the intended effect. *)
Definition gstep (m : memory) (g : owned) (l : mlabel) : owned :=
  match l with
  | LInit r n a => put_val g r (init_bytes a n)
  | LAlloc v n a => put_val g (v, Var) (heap_bytes a n)
  | LInitChunk r v => put_val (drop_val g (v, Var)) r (val g (v, Var))
  | LTerm r => drop_val g r
  | LFree v => drop_val g (v, Var)
  | LRealloc v n a => put_val g (v, Var) (take (Z.to_nat n) (val g (v, Var) ++ junk a))
  | LGetchunk r v a => put_val (put_val g r []) (v, Var) (val g r)
  | LMv d s => put_val (drop_val g s) d (val g s)
  | LCp d s => put_val g d (val g s)
  | LBulkStart s n => match refs m !! s with Some v => give g v n | None => g end
  | LBulkCp d s =>
      match refs m !! s with Some v => give (put_val g d (val g s)) v (-1) | None => g end
  | LTrim r n => put_val g r (drop (Z.to_nat n) (val g r))
  | LStore r i bs => put_val g r (overwrite (val g r) i bs)
  end.

(** The rules for callers: what is used is owned, what is initialised is not;
    only unshared data is trimmed, written or reallocated. *)
Definition legal (m : memory) (g : owned) (l : mlabel) : Prop :=
  match l with
  | LInit r n a => vals g !! r = None /\ alloc_ok (chunks m) a n
  | LAlloc v n a => vals g !! (v, Var) = None /\ alloc_ok (chunks m) a n
  | LInitChunk r v => vals g !! r = None /\ is_Some (vals g !! (v, Var)) /\ is_var m v
  | LTerm r => is_Some (vals g !! r)
  | LFree v => is_Some (vals g !! (v, Var)) /\ is_var m v
  | LRealloc v n a =>
      is_Some (vals g !! (v, Var)) /\ private m (v, Var) /\
      0 <= n < 2 ^ 64 - nn_chunk_hdrsize /\ n <= size (val g (v, Var)) + size (junk a) /\
      exists b q, addr a = Some b /\ refs m !! (v, Var) = Some (Ref q) /\ off q = 8 /\
        (b = block q \/ chunks m !! b = None)
  | LGetchunk r v a =>
      is_Some (vals g !! r) /\ vals g !! (v, Var) = None /\ alloc_ok (chunks m) a (size (val g r))
  | LMv d s => is_Some (vals g !! s) /\ vals g !! d = None
  | LCp d s => is_Some (vals g !! s) /\ vals g !! d = None /\ room m s 1
  | LBulkStart s n => is_Some (vals g !! s) /\ room m s n
  | LBulkCp d s =>
      is_Some (vals g !! s) /\ vals g !! d = None /\
      forall p, refs m !! s = Some (Ref p) -> 1 <= credits g (block p)
  | LTrim r n =>
      is_Some (vals g !! r) /\ private m r /\ 0 <= n <= size (val g r) /\
      forall p, refs m !! r = Some (Ref p) -> off p - 8 + n < 2 ^ 32 - 1
  | LStore r i bs =>
      is_Some (vals g !! r) /\ private m r /\ 0 <= i /\ i + size bs <= size (val g r)
  end.

(** The same, evaluated. *)
Definition alloc_okb (h : chunk_heap) (a : allocation) (n : Z) : bool :=
  (0 <=? n) && (n <? 2 ^ 64 - nn_chunk_hdrsize) && (8 + n <=? size (junk a)) &&
  match addr a with Some b => bool_decide (h !! b = None) | None => false end.

Definition ownedb (g : owned) (r : cref) : bool := bool_decide (is_Some (vals g !! r)).

(** [P] holds of the chunk the reference leads to, if any. *)
Definition on_chunk (m : memory) (r : cref) (P : ptr -> nn_chunk -> bool) : bool :=
  match refs m !! r with
  | Some (Ref p) => match chunks m !! block p with Some c => P p c | None => true end
  | _ => true
  end.

Definition on_ptr (m : memory) (r : cref) (P : ptr -> bool) : bool :=
  match refs m !! r with Some (Ref p) => P p | _ => true end.

Definition privateb (m : memory) (r : cref) : bool := on_chunk m r (fun _ c => refcount c =? 1).

Definition roomb (m : memory) (r : cref) (n : Z) : bool :=
  (0 <=? n) && on_chunk m r (fun _ c => refcount c + n <? 2 ^ 32).

Definition is_varb (m : memory) (v : loc) : bool :=
  match refs m !! (v, Var) with Some (Ref _) => true | _ => false end.

Definition legalb (m : memory) (g : owned) (l : mlabel) : bool :=
  match l with
  | LInit r n a => negb (ownedb g r) && alloc_okb (chunks m) a n
  | LAlloc v n a => negb (ownedb g (v, Var)) && alloc_okb (chunks m) a n
  | LInitChunk r v => negb (ownedb g r) && ownedb g (v, Var) && is_varb m v
  | LTerm r => ownedb g r
  | LFree v => ownedb g (v, Var) && is_varb m v
  | LRealloc v n a =>
      ownedb g (v, Var) && privateb m (v, Var) && (0 <=? n) && (n <? 2 ^ 64 - nn_chunk_hdrsize) &&
      (n <=? size (val g (v, Var)) + size (junk a)) &&
      match addr a, refs m !! (v, Var) with
      | Some b, Some (Ref q) => (off q =? 8) && (bool_decide (b = block q) || bool_decide (chunks m !! b = None))
      | _, _ => false
      end
  | LGetchunk r v a =>
      ownedb g r && negb (ownedb g (v, Var)) && alloc_okb (chunks m) a (size (val g r))
  | LMv d s => ownedb g s && negb (ownedb g d)
  | LCp d s => ownedb g s && negb (ownedb g d) && roomb m s 1
  | LBulkStart s n => ownedb g s && roomb m s n
  | LBulkCp d s => ownedb g s && negb (ownedb g d) && on_ptr m s (fun p => 1 <=? credits g (block p))
  | LTrim r n =>
      ownedb g r && privateb m r && (0 <=? n) && (n <=? size (val g r)) &&
      on_ptr m r (fun p => off p - 8 + n <? 2 ^ 32 - 1)
  | LStore r i bs =>
      ownedb g r && privateb m r && (0 <=? i) && (i + size bs <=? size (val g r))
  end.

Lemma ownedb_ok g r : ownedb g r = true <-> is_Some (vals g !! r).
Proof. unfold ownedb. by rewrite bool_decide_eq_true. Qed.

Lemma not_ownedb g r : negb (ownedb g r) = true <-> vals g !! r = None.
Proof. rewrite negb_true_iff. unfold ownedb. rewrite bool_decide_eq_false. symmetry. apply eq_None_not_Some. Qed.

Lemma alloc_okb_ok h a n : alloc_okb h a n = true -> alloc_ok h a n.
Proof.
  unfold alloc_okb, alloc_ok. rewrite !andb_true_iff, !Z.leb_le, Z.ltb_lt. intros [[[? ?] ?] Ha].
  split_and!; try lia. destruct (addr a) as [b|]; [|done]. exists b. by apply bool_decide_eq_true in Ha.
Qed.

Lemma on_chunk_ok m r P p c :
  on_chunk m r P = true -> refs m !! r = Some (Ref p) -> chunks m !! block p = Some c -> P p c = true.
Proof. unfold on_chunk. intros H Hr Hc. by rewrite Hr, Hc in H. Qed.

Lemma on_ptr_ok m r P p : on_ptr m r P = true -> refs m !! r = Some (Ref p) -> P p = true.
Proof. unfold on_ptr. intros H Hr. by rewrite Hr in H. Qed.

Lemma privateb_ok m r : privateb m r = true -> private m r.
Proof. intros H p c Hr Hc. apply (on_chunk_ok _ _ _ p c) in H; [|done..]. by apply Z.eqb_eq in H. Qed.

Lemma roomb_ok m r n : roomb m r n = true -> room m r n.
Proof.
  unfold roomb. intros [?%Z.leb_le H]%andb_true_iff. split; [done|]. intros p c Hr Hc.
  apply (on_chunk_ok _ _ _ p c) in H; [|done..]. by apply Z.ltb_lt in H.
Qed.

Lemma is_varb_ok m v : is_varb m v = true -> is_var m v.
Proof. unfold is_varb, is_var. intros H. repeat case_match; try done. by eexists. Qed.

Lemma legalb_ok m g l : legalb m g l = true -> legal m g l.
Proof.
  destruct l; cbn [legal legalb]; rewrite ?andb_true_iff, ?ownedb_ok, ?not_ownedb; intros H; destruct_and?;
    split_and?; auto using alloc_okb_ok, privateb_ok, roomb_ok, is_varb_ok;
    repeat match goal with
    | H : (_ <=? _) = true |- _ => apply Z.leb_le in H
    | H : (_ <? _) = true |- _ => apply Z.ltb_lt in H
    end; try lia.
  - destruct (addr a) as [b|]; [|done]. destruct (refs m !! (v, Var)) as [[|q]|]; try done.
    exists b, q. destruct_and?. match goal with H : (_ && _) = true |- _ => apply andb_true_iff in H as [Ho Hb] end.
    apply Z.eqb_eq in Ho. apply orb_true_iff in Hb. rewrite !bool_decide_eq_true in Hb. done.
  - intros p Hp. match goal with H : on_ptr _ _ _ = true |- _ => apply (on_ptr_ok _ _ _ p) in H; [|done] end.
    by apply Z.leb_le.
  - intros p Hp. match goal with H : on_ptr _ _ _ = true |- _ => apply (on_ptr_ok _ _ _ p) in H; [|done] end.
    by apply Z.ltb_lt.
Qed.

Ltac owns H := destruct H as [?data Hv]; unfold val in *; rewrite ?Hv in *; cbn [default] in *.

Lemma mstep_ok m g l :
  mem_rep m g -> legal m g l -> exists m', mstep m l = Ret m' /\ mem_rep m' (gstep m g l).
Proof.
  intros Hm. destruct l; cbn [mstep gstep legal].
  - intros [Hr Ha]. destruct (init_ok m g r n a Hm Hr Ha) as (m' & -> & Hm' & _). by exists m'.
  - intros [Hr Ha]. destruct (alloc_spec _ _ _ Ha) as (b & c & Hb & -> & Hc & _ & Hok).
    eexists. split; [reflexivity|]. by apply rep_fresh.
  - intros (Hr & Ho & p & Hp). owns Ho. rewrite (var_ptr_ok _ _ _ Hp). cbn [mbind outcome_bind].
    rewrite (init_chunk_is_mv _ _ _ _ Hp). by apply mv_ok.
  - intros Ho. owns Ho. by eapply term_ok.
  - intros (Ho & p & Hp). owns Ho. rewrite (var_ptr_ok _ _ _ Hp). cbn [mbind outcome_bind].
    rewrite (free_is_term _ _ _ Hp). by eapply term_ok.
  - intros (Ho & Hpr & Hn & Hj & b & q & Ha & Hq & Hoff & Hb). owns Ho.
    rewrite (var_ptr_ok _ _ _ Hq). cbn [mbind outcome_bind].
    destruct (realloc_ok m g v q data a n b) as (h & -> & Hm'); try done. cbn [mbind outcome_bind]. by eexists.
  - intros (Ho & Hv' & Ha). owns Ho.
    destruct (getchunk_ok m g r v a data) as (m' & p & -> & Hm'); try done. cbn [mbind outcome_bind]. by eexists.
  - intros (Ho & Hd). owns Ho. by apply mv_ok.
  - intros (Ho & Hd & Hroom). owns Ho. by apply cp_ok.
  - intros (Ho & Hroom). owns Ho. destruct (own_ref m g s data Hm Hv) as (v & Hrf & _). rewrite Hrf.
    destruct (addref_ok m g s data v n Hm Hv Hrf Hroom) as (m' & -> & Hm' & _). by exists m'.
  - intros (Ho & Hd & Hcr). owns Ho. destruct (own_ref m g s data Hm Hv) as (v & Hrf & _).
    rewrite Hrf in *. apply bulk_cp_ok; try done. intros p ->. by apply Hcr.
  - intros (Ho & Hpr & Hn & Hlt). owns Ho. by apply ref_trim_ok.
  - intros (Ho & Hpr & Hi & Hb). owns Ho. by apply store_ok.
Qed.

Fixpoint mrun (m : memory) (ls : list mlabel) : outcome memory :=
  match ls with [] => Ret m | l :: ls => m ← mstep m l; mrun m ls end.

Fixpoint grun (m : memory) (g : owned) (ls : list mlabel) : owned :=
  match ls with
  | [] => g
  | l :: ls => match mstep m l with Ret m' => grun m' (gstep m g l) ls | _ => g end
  end.

Fixpoint legal_run (m : memory) (g : owned) (ls : list mlabel) : Prop :=
  match ls with
  | [] => True
  | l :: ls => legal m g l /\ match mstep m l with Ret m' => legal_run m' (gstep m g l) ls | _ => True end
  end.

Fixpoint legal_runb (m : memory) (g : owned) (ls : list mlabel) : bool :=
  match ls with
  | [] => true
  | l :: ls => legalb m g l && match mstep m l with Ret m' => legal_runb m' (gstep m g l) ls | _ => true end
  end.

Lemma legal_runb_ok m g ls : legal_runb m g ls = true -> legal_run m g ls.
Proof.
  revert m g; induction ls as [|l ls IH]; intros m g; cbn [legal_run legal_runb]; [done|].
  intros [Hl Hr]%andb_true_iff. split; [by apply legalb_ok|]. destruct (mstep m l); auto.
Qed.

Lemma mrun_ok m g ls :
  mem_rep m g -> legal_run m g ls -> exists m', mrun m ls = Ret m' /\ mem_rep m' (grun m g ls).
Proof.
  revert m g. induction ls as [|l ls IH]; intros m g Hm; cbn [mrun grun legal_run]; [by exists m|].
  intros [Hl Hrest]. destruct (mstep_ok m g l Hm Hl) as (m1 & E & Hm1). rewrite E in *.
  cbn [mbind outcome_bind]. by apply IH.
Qed.

Lemma mrun_app m ls1 ls2 : mrun m (ls1 ++ ls2) = m' ← mrun m ls1; mrun m' ls2.
Proof.
  revert m; induction ls1 as [|l ls1 IH]; intros m; cbn [app mrun]; [done|].
  destruct (mstep m l); cbn [mbind outcome_bind]; [apply IH|done..].
Qed.

(** Operations on whole messages, by field. *)
Inductive op : Type :=
| One (l : mlabel)
| MsgInit (self : loc) (n : Z) (a : allocation)
| MsgInitChunk (self v : loc) (a : allocation)
| MsgTerm (self : loc)
| MsgMv (dst src : loc)
| MsgCp (dst src : loc)
| MsgBulkStart (self : loc) (n : Z)
| MsgBulkCp (dst src : loc)
| MsgReplaceBody (self : loc) (new_body : cref).

Definition do_op (m : memory) (o : op) : outcome memory :=
  match o with
  | One l => mstep m l
  | MsgInit self n a => nn_msg_init m a self n
  | MsgInitChunk self v a => p ← var_ptr m v; nn_msg_init_chunk m a self p
  | MsgTerm self => nn_msg_term m self
  | MsgMv dst src => nn_msg_mv m dst src
  | MsgCp dst src => nn_msg_cp m dst src
  | MsgBulkStart self n => nn_msg_bulkcopy_start m self n
  | MsgBulkCp dst src => nn_msg_bulkcopy_cp m dst src
  | MsgReplaceBody self r => nn_msg_replace_body m self r
  end.

Definition fields (f : cref -> cref -> mlabel) (x y : loc) : list mlabel :=
  [f (x, Sphdr) (y, Sphdr); f (x, Hdrs) (y, Hdrs); f (x, Body) (y, Body)].

Definition expand (o : op) : list mlabel :=
  match o with
  | One l => [l]
  | MsgInit self n a => [LInit (self, Sphdr) 0 a; LInit (self, Hdrs) 0 a; LInit (self, Body) n a]
  | MsgInitChunk self v a => [LInit (self, Sphdr) 0 a; LInit (self, Hdrs) 0 a; LInitChunk (self, Body) v]
  | MsgTerm self => fields (fun r _ => LTerm r) self self
  | MsgMv dst src => fields LMv dst src
  | MsgCp dst src => fields LCp dst src
  | MsgBulkStart self n => fields (fun r _ => LBulkStart r n) self self
  | MsgBulkCp dst src => fields LBulkCp dst src
  | MsgReplaceBody self r => [LTerm (self, Body); LMv (self, Body) r]
  end.

Lemma mrun_nil (x : outcome memory) : (m ← x; mrun m []) = x.
Proof. by destruct x. Qed.

Lemma term_refs m r m' : nn_chunkref_term m r = Ret m' -> refs m' = refs m.
Proof.
  unfold nn_chunkref_term. intros E. inv_ret. destruct x as [|p]; [by inv_ret|]. inv_ret. done.
Qed.

Lemma init_var m a r n v m' :
  nn_chunkref_init m a r n = Ret m' -> r.2 <> Var -> var_ptr m' v = var_ptr m v.
Proof.
  assert (H : forall m0 x, r.2 <> Var -> refs m0 = refs m -> var_ptr (set_ref m0 r x) v = var_ptr m v).
  { intros m0 x Hr Hrf. unfold var_ptr, ref_at. cbn. rewrite lookup_insert_ne, Hrf; [done|]. by destruct r; intros [= -> ->]. }
  intros E Hr. unfold nn_chunkref_init in E. destruct (_ <? _); [injection E as <-; by apply H|].
  destruct (nn_chunk_alloc _ _ _ _) as [[[h rc] p]| | |]; try done. cbn in E.
  destruct (rc =? 0); [|done]. cbn in E. destruct p; [|done]. injection E as <-. by apply H.
Qed.

(** Each message operation does what its fields' operations do, in order. *)
Lemma expand_ok m o m' : mrun m (expand o) = Ret m' -> do_op m o = Ret m'.
Proof.
  destruct o; cbn [expand do_op]; unfold fields; cbn [mrun]; intros E; inv_ret; subst.
  all: try (unfold nn_msg_init, nn_msg_term, nn_msg_mv, nn_msg_cp, nn_msg_bulkcopy_start, nn_msg_bulkcopy_cp;
    repeat match goal with H : mstep _ _ = Ret _ |- _ => cbn [mstep] in H; rewrite H; cbn [mbind outcome_bind]; clear H end; done).
  - cbn [mstep] in *. inv_ret. subst. unfold nn_msg_init_chunk.
    match goal with
    | H1 : nn_chunkref_init m _ _ _ = Ret ?x, H2 : nn_chunkref_init ?x _ _ _ = Ret ?y,
      H3 : var_ptr ?y v = Ret ?p |- _ =>
        rewrite (init_var _ _ _ _ v _ H2), (init_var _ _ _ _ v _ H1) in H3 by done;
        rewrite H3; cbn [mbind outcome_bind]; rewrite H1; cbn [mbind outcome_bind]; rewrite H2
    end. done.
  - cbn [mstep] in *. unfold nn_msg_replace_body, nn_chunkref_mv in *. inv_ret. subst.
    match goal with H : nn_chunkref_term _ _ = Ret _ |- _ => pose proof (term_refs _ _ _ H) as Hrf; rename H into Ht end.
    match goal with H : ref_at _ _ = Ret _ |- _ => unfold ref_at in H; rewrite Hrf in H; fold (ref_at m new_body) in H; rewrite H end.
    cbn [mbind outcome_bind]. by rewrite Ht.
Qed.

Fixpoint ops_run (m : memory) (os : list op) : outcome memory :=
  match os with [] => Ret m | o :: os => m ← do_op m o; ops_run m os end.

Lemma ops_expand m os m' : mrun m (concat (map expand os)) = Ret m' -> ops_run m os = Ret m'.
Proof.
  revert m. induction os as [|o os IH]; intros m; cbn [map concat ops_run]; [done|].
  rewrite mrun_app. intros E. inv_ret. rewrite (expand_ok m o x) by done. cbn [mbind outcome_bind]. by apply IH.
Qed.

Definition no_memory : memory := Memory ∅ ∅.
Definition nothing : owned := Owned ∅ ∅.

Lemma rep_nothing : mem_rep no_memory nothing.
Proof. by split. Qed.

(** A chunk that is allocated is owned by someone, and the other way round. *)
Lemma chunk_owned m g b :
  mem_rep m g ->
  is_Some (chunks m !! b) <->
  (exists r data p, vals g !! r = Some data /\ refs m !! r = Some (Ref p) /\ block p = b) \/ 0 < credits g b.
Proof.
  intros [Hr Hn Hp]. split.
  - intros [c Hc]. destruct (Hn b c Hc) as [Hcount Hb].
    destruct (decide (0 < credits g b)); [by right|]. left.
    destruct (filter (fun rd => block_of (refs m !! fst rd) = Some b) (map_to_list (vals g))) as [|[r data] l] eqn:E.
    { unfold holders in Hcount. rewrite E in Hcount. cbn in Hcount. lia. }
    assert (Hx : (r, data) ∈ filter (fun rd => block_of (refs m !! fst rd) = Some b) (map_to_list (vals g)))
      by (rewrite E; by left).
    apply list_elem_of_filter in Hx as [Hbl Hx%elem_of_map_to_list]. cbn [fst] in Hbl.
    destruct (refs m !! r) as [[|p]|] eqn:Erf; try done. injection Hbl as Hbl. by exists r, data, p.
  - intros [(r & data & p & Hv & Hrf & <-)|Hcr].
    + specialize (Hr r data Hv). rewrite Hrf in Hr. destruct Hr as (c & -> & _). by eexists.
    + destruct (chunks m !! b) eqn:E; [by eexists|]. destruct (Hp b) as [_ Hz]. specialize (Hz E). lia.
Qed.

(** C7.  Whatever the program does with messages, chunkrefs and chunks, as long
    as it only uses what it owns, initialises what it does not, and trims,
    writes or reallocates only what it does not share: no operation fails an
    assertion, follows a wild pointer or touches freed memory; every reference
    has the bytes that its own operations gave it, whatever was done to the
    references it shares a chunk with; and the chunks allocated are those
    somebody still owns, so that nothing is freed too early and nothing is
    lost. *)
Theorem messages_memory_safe (os : list op) :
  let ls := concat (map expand os) in
  let g := grun no_memory nothing ls in
  legal_run no_memory nothing ls ->
  exists m, ops_run no_memory os = Ret m /\
    (forall r data, vals g !! r = Some data ->
       nn_chunkref_size m r = Ret (size data) /\
       exists d, nn_chunkref_data m r = Ret d /\ load_data m d 0 (size data) = Ret data) /\
    (forall b, is_Some (chunks m !! b) <->
       (exists r data p, vals g !! r = Some data /\ refs m !! r = Some (Ref p) /\ block p = b) \/
       0 < credits g b).
Proof.
  intros ls g Hl. destruct (mrun_ok _ _ ls rep_nothing Hl) as (m & E & Hm). fold g in Hm.
  exists m. split; [by apply ops_expand|]. split.
  - intros r data Hv. split; [by eapply size_ok|by eapply data_ok].
  - intros b. by apply chunk_owned.
Qed.

(** A message of 40 bytes is filled, split behind its first word as raw sockets
    do, copied, and both are terminated. *)
Definition some_memory (b : loc) (n : nat) : allocation := Allocation (Some b) (replicate n 7).

Definition split_and_copy : list op :=
  [ MsgInit 1 40 (some_memory 10 48); One (LStore (1%positive, Body) 0 (replicate 4 9));
    One (LTerm (1%positive, Sphdr)); One (LInit (1%positive, Sphdr) 4 (some_memory 11 48));
    One (LStore (1%positive, Sphdr) 0 (replicate 4 9)); One (LTrim (1%positive, Body) 4);
    MsgCp 2 1; MsgTerm 1 ].

Lemma messages_memory_safe_witness :
  exists m, ops_run no_memory split_and_copy = Ret m /\
    nn_chunkref_size m (2%positive, Body) = Ret 36 /\ is_Some (chunks m !! 10%positive).
Proof.
  destruct (messages_memory_safe split_and_copy) as (m & Hrun & Hval & _).
  - apply legal_runb_ok. by vm_compute.
  - exists m. split; [done|]. split.
    + apply (Hval (2%positive, Body) (replicate 36 7)). reflexivity.
    + vm_compute in Hrun. injection Hrun as <-. by eexists.
Defined.

(** ** What [nn_chunk_realloc] does not handle *)

Lemma bad_tag h p c a b rest :
  h !! block p = Some c -> mem c = a ++ be_digits 4 b ++ rest -> size a = off p - 4 ->
  0 <= b < 2 ^ 32 -> b <> NN_CHUNK_TAG -> nn_chunk_getptr h p = Abort.
Proof.
  intros Hc Hm Ha Hb Hne. unfold nn_chunk_getptr. load Hc. rewrite Hm, (getl_at_app a rest b (off p - 4)) by lia.
  cbn [mbind outcome_bind]. by rewrite (proj2 (Z.eqb_neq _ _)).
Qed.

Lemma realloc_sole h p c data a n b :
  h !! block p = Some c -> chunk_ok c (off p) data -> refcount c = 1 ->
  0 <= n < 2 ^ 64 - nn_chunk_hdrsize -> addr a = Some b ->
  nn_chunk_realloc h a n p =
    Ret (<[b := Chunk 1 n (take (Z.to_nat (8 + n)) (mem c ++ junk a))]> (delete (block p) h), 0, Ptr b 8).
Proof.
  intros Hc Hok Hone Hn Ha. unfold nn_chunk_realloc. rewrite (getptr_ok _ _ _ _ Hc Hok).
  cbn [mbind outcome_bind]. load Hc. rewrite Hone, alloc_size by done. cbn [Z.eqb Pos.eqb].
  unfold nn_chunk_hdrsize, sizeof_nn_chunk in *. rewrite (proj2 (Z.ltb_ge _ _)) by lia. rewrite Ha.
  by replace (24 + 2 * 4 + n - 24) with (8 + n) by lia.
Qed.

(** C35.  [nn_chunk_realloc] takes the data to start right behind the chunk's
    header.  A chunk that was trimmed by four bytes, as every reply a REQ socket
    receives in a chunk is, loses its tag there: it is reallocated without an
    error, and the next call that gets it aborts the process.  And a chunk with
    more than one reference that is made smaller is copied in full into the
    smaller block. *)
Theorem realloc_unsafe (h : chunk_heap) (a a' : allocation) (n n' : Z) (b : loc) :
  alloc_ok h a n -> 4 <= n -> 0 <= n' < 2 ^ 64 - nn_chunk_hdrsize -> addr a' = Some b ->
  exists h1 p, nn_chunk_alloc h a n 0 = Ret (h1, 0, Some p) /\
    (exists h2 p2 h3 p3, nn_chunk_trim h1 p 4 = Ret (h2, p2) /\
       nn_chunk_realloc h2 a' n' p2 = Ret (h3, 0, p3) /\
       nn_chunk_size h3 p3 = Abort /\ nn_chunk_free h3 p3 = Abort) /\
    (exists h2, nn_chunk_addref h1 p 1 = Ret h2 /\
       (alloc_ok h2 a' n' -> n' < n -> nn_chunk_realloc h2 a' n' p = Undef)).
Proof.
  intros Ha Hn Hn' Hb. destruct (alloc_spec h a n Ha) as (x & c & Hx & E & Hc & Hs & Hok).
  exists (<[x := c]> h), (Ptr x 8). split; [done|].
  assert (Hl : <[x := c]> h !! block (Ptr x 8) = Some c) by apply lookup_insert_eq. split.
  - destruct (trim_spec _ (Ptr x 8) c _ 4 Hl Hok) as (c' & Et & Hc' & Hok'); [lia|cbn [off]; lia|].
    eexists _, _, _, _. split; [exact Et|].
    rewrite (realloc_sole _ (Ptr x (8 + 4)) c' _ a' n' b (lookup_insert_eq _ _ _) Hok') by (congruence || done).
    split; [reflexivity|]. destruct Hok' as (_ & _ & _ & space & Hsp & Hm). cbn [off] in *.
    assert (Hbad : nn_chunk_getptr (<[b := Chunk 1 n' (take (Z.to_nat (8 + n')) (mem c' ++ junk a'))]>
        (delete x (<[x := c']> (<[x := c]> h)))) (Ptr b 8) = Abort).
    { eapply (bad_tag _ _ _ space 4); [apply lookup_insert_eq| |cbn [off]; lia|done|done]. cbn [mem].
      rewrite Hm. rewrite <-app_assoc, <-app_assoc.
      rewrite (take_app_ge space) by (unfold size in *; lia).
      rewrite (take_app_ge (be_digits 4 _)) by (change (length (be_digits 4 (8 + 4 - 8))) with 4%nat; unfold size in *; lia).
      reflexivity. }
    unfold nn_chunk_size, nn_chunk_free. cbn [block] in *. by rewrite Hbad.
  - unfold nn_chunk_addref. rewrite (getptr_ok _ _ _ _ Hl Hok). cbn [mbind outcome_bind]. load Hl.
    eexists. split; [reflexivity|]. intros Ha' Hlt. unfold nn_chunk_realloc.
    rewrite (getptr_ok _ (Ptr x 8) (Chunk (u32 (refcount c + 1)) (csize c) (mem c)) _ (lookup_insert_eq _ _ _) Hok).
    cbn [mbind outcome_bind block]. rewrite (deref_Some _ _ _ (lookup_insert_eq _ _ _)).
    cbn [mbind outcome_bind refcount]. rewrite Hc. change (u32 (1 + 1) =? 1) with false. cbv iota.
    cbn [block] in Ha'. rewrite Hc in Ha'. destruct (alloc_spec _ _ _ Ha') as (y & d & Hy & -> & _ & Hsd & (_ & _ & _ & spd & Hspd & Hmd)).
    cbn [mbind outcome_bind csize mem off nn_chunk_getdata].
    destruct Hok as (Hcs & _ & _ & space & Hsp & Hm). rewrite Hcs, Hs, Hm.
    rewrite !app_assoc, <-(app_nil_r ((_ ++ _) ++ heap_bytes a n)), <-app_assoc.
    rewrite read_at_app by (rewrite ?size_app, ?be_digits_size; cbn; lia). cbn [mbind outcome_bind block].
    rewrite (deref_Some _ _ _ (lookup_insert_eq _ _ _)). cbn [mbind outcome_bind off].
    unfold write_at. rewrite Hs, Hmd, !size_app, !be_digits_size, Hspd, Hsd.
    rewrite (proj2 (Z.leb_gt (8 + n) _)) by lia. by rewrite andb_false_r.
Qed.

Lemma realloc_unsafe_witness :
  exists h1 p, nn_chunk_alloc ∅ (some_memory 10 108) 100 0 = Ret (h1, 0, Some p) /\
    (exists h2 p2 h3 p3, nn_chunk_trim h1 p 4 = Ret (h2, p2) /\
       nn_chunk_realloc h2 (some_memory 11 208) 200 p2 = Ret (h3, 0, p3) /\
       nn_chunk_size h3 p3 = Abort /\ nn_chunk_free h3 p3 = Abort).
Proof.
  destruct (realloc_unsafe ∅ (some_memory 10 108) (some_memory 11 208) 100 200 11) as (h1 & p & E & H & _).
  - apply alloc_okb_ok. by vm_compute.
  - lia.
  - by unfold nn_chunk_hdrsize, sizeof_nn_chunk.
  - done.
  - by exists h1, p.
Defined.
