(* ===== verification/Inbox.v ===== *)
(** * Inbox: the messages the transports hold

    Where a socket reads several messages in one call (req.c, xsub.c, xbus.c)
    the transports' receive functions are run against the messages they hold
    at that time: [inbox] maps a pipe to the messages it has received in full,
    in order.  [receive] is the answer of the receive function of a pipe; the
    transport completes the receive at once exactly when it has another
    message.  [inbox_ok] relates the messages to the states of the pipes. *)

From stdpp Require Import base gmap list sets.
From Stdlib Require Import ZArith Lia.
From S2P Require Import Prelude ListHeap Pipe Lb Message.

Open Scope Z_scope.

(** Messages the transports hold, per pipe, with the code their receive
    function returns. *)
Abbreviation inbox := (gmap loc (list (Z * nn_msg))).

(** The receive function of a transport hands over the first message, and
    completes at once when it has another. *)
Definition receive (ib : inbox) (p : loc) : answer nn_msg :=
  match ib !! p with
  | Some ((rc, m) :: rest) => Answer rc (negb (bool_decide (rest = []))) m
  | _ => Answer 0 false (Msg [] [])
  end.

Definition take_message (ib : inbox) (o : option loc) : inbox :=
  match o with Some p => alter tail p ib | None => ib end.

(** Number of messages the transports hold. *)
Definition pending (ib : inbox) : nat := map_fold (fun _ ms n => length ms + n)%nat 0%nat ib.

(** A received message is either parsed by the transport or has no header. *)
Definition good_recv (a : answer nn_msg) : Prop :=
  good_answer a /\ (Z.land (rc a) NN_PIPE_PARSED = 0 -> sphdr (message a) = []).

(** A message the transport may deliver. *)
Definition good_msg (x : Z * nn_msg) : Prop :=
  0 <= fst x /\ Z.testbit (fst x) 0 = false /\
  (Z.land (fst x) NN_PIPE_PARSED = 0 -> sphdr (snd x) = []).

Definition inbox_ok (ps : pipemap) (ib : inbox) : Prop :=
  (forall p pb, ps !! p = Some pb -> exists ms, ib !! p = Some ms /\ (instate pb = IN_IDLE <-> ms <> [])) /\
  forall p ms, ib !! p = Some ms -> Forall good_msg ms.

Lemma inbox_out (ps : pipemap) ib p pb o :
  inbox_ok ps ib -> ps !! p = Some pb -> inbox_ok (<[p := set_out pb o]> ps) ib.
Proof.
  intros [Hib Hg] Hp. split; [|done]. intros q pb' Hq.
  apply lookup_insert_Some in Hq as [[<- <-]|[_ Hq]]; [|by apply Hib]. by apply (Hib p pb).
Qed.

(** Taking a message leaves one less. *)
Lemma pending_insert (ib : inbox) p ms :
  pending (<[p := ms]> ib) = (length ms + pending (delete p ib))%nat.
Proof.
  rewrite <-insert_delete_eq. unfold pending. rewrite map_fold_insert_L; [done| |].
  - intros. lia.
  - apply lookup_delete_eq.
Qed.

Lemma pending_take (ib : inbox) p x ms :
  ib !! p = Some (x :: ms) -> pending ib = Datatypes.S (pending (take_message ib (Some p))).
Proof.
  intros Hp. cbn [take_message].
  assert (Ha : alter tail p ib = <[p := ms]> ib).
  { apply map_eq. intros q. destruct (decide (q = p)) as [->|Hne].
    - by rewrite lookup_alter_eq, Hp, lookup_insert_eq.
    - by rewrite lookup_alter_ne, lookup_insert_ne by done. }
  rewrite Ha, pending_insert.
  rewrite <-(insert_id ib p (x :: ms) Hp) at 1. by rewrite pending_insert.
Qed.

Lemma receive_head (ib : inbox) p rc m ms :
  ib !! p = Some ((rc, m) :: ms) -> receive ib p = Answer rc (negb (bool_decide (ms = []))) m.
Proof. unfold receive. by intros ->. Qed.

Lemma receive_good (ps : pipemap) ib p : inbox_ok ps ib -> good_recv (receive ib p).
Proof.
  intros [_ Hg]. unfold receive. destruct (ib !! p) as [[|[rc m] ms]|] eqn:E.
  - by repeat split.
  - specialize (Hg _ _ E). apply Forall_cons in Hg as [(H1 & H2 & H3) _]. by repeat split.
  - by repeat split.
Qed.

Lemma inbox_take (ps : pipemap) ib p pb rc m ms :
  inbox_ok ps ib -> ps !! p = Some pb -> ib !! p = Some ((rc, m) :: ms) ->
  inbox_ok (<[p := set_in pb (if negb (bool_decide (ms = [])) then IN_IDLE else IN_ASYNC)]> ps)
    (take_message ib (Some p)).
Proof.
  intros [Hib Hg] Hp Hm. cbn [take_message]. split.
  - intros q pb' Hq. apply lookup_insert_Some in Hq as [[<- <-]|[Hne Hq]].
    + rewrite lookup_alter_eq, Hm. exists ms. split; [done|]. cbn [instate set_in].
      case_bool_decide; cbn; naive_solver.
    + rewrite lookup_alter_ne by done. by apply Hib.
  - intros q ms' Hq. destruct (decide (q = p)) as [->|Hne].
    + rewrite lookup_alter_eq, Hm in Hq. injection Hq as <-. specialize (Hg _ _ Hm).
      by apply Forall_cons in Hg as [_ Hg].
    + rewrite lookup_alter_ne in Hq by done. by eapply Hg.
Qed.

