(* ===== verification/SockBase.v ===== *)
(** * SockBase: the interface between a socket and its protocol (src/protocol.h)

    [SockBase] is [struct nn_sockbase_vfptr]: the functions a protocol gives
    to the core.  [SockBaseLaws] is what the core relies on, and what each
    protocol file proves: [sb_inv] relates the protocol's state to the pipes it
    knows and to those it holds ready for writing and for reading.

    [bstep] runs any protocol with its pipes, the event queue of the socket's
    context and the messages the transports hold.  [base_never_fails] shows,
    from the laws alone, that no assertion of the protocol, of pipe.c or of the
    statistics fails in any interleaving. *)

From stdpp Require Import base gmap list sets.
From Stdlib Require Import ZArith Lia.
From S2P Require Import Prelude ListHeap Pipe Lb Sock Message Inbox.

Open Scope Z_scope.

Definition NN_SOCKBASE_EVENT_IN : Z := 1.
Definition NN_SOCKBASE_EVENT_OUT : Z := 2.

Definition valid_opts (o : nn_ep_options) : Prop :=
  1 <= Pipe.sndprio o <= 16 /\ 1 <= Pipe.rcvprio o <= 16.

(** [sb_norecv] and [sb_nosend] are the flags of [struct nn_socktype];
    [sb_quiet] marks a protocol whose peers never send (its [in] function is
    [nn_assert (0)]), [sb_plain] one that asserts that a message the
    application sends has no header, and [sb_room] whether one more pipe can be
    added.  A send
    also returns what was passed to which pipe; a receive takes the value of
    [NN_MAXTTL], the option the protocols read. *)
Class SockBase (T : Type) := {
  sb_norecv : bool;
  sb_nosend : bool;
  sb_quiet : bool;
  sb_plain : bool;
  sb_init : Z -> T;
  sb_term : T -> outcome unit;
  sb_room : T -> bool;
  sb_add : T -> loc -> nn_ep_options -> outcome (T * Z);
  sb_rm : T -> statistics -> loc -> outcome (T * statistics);
  sb_in : T -> loc -> outcome T;
  sb_out : T -> statistics -> loc -> outcome (T * statistics);
  sb_events : T -> Z;
  sb_send : T -> pipemap -> (loc -> answer unit) -> nn_msg ->
    outcome (T * pipemap * Z * list (loc * nn_msg));
  sb_recv : T -> Z -> pipemap -> inbox -> outcome (T * pipemap * inbox * Z * received)
}.

(** The pipes of [act] can be written to, and read. *)
Definition writable (ps : pipemap) (act : gset loc) : Prop :=
  forall p, (p ∈ act) -> exists pb, ps !! p = Some pb /\ outstate pb = OUT_IDLE.

Definition readable (ps : pipemap) (act : gset loc) : Prop :=
  forall p, (p ∈ act) -> exists pb, ps !! p = Some pb /\ instate pb = IN_IDLE.

(** What sending may do: some active pipes become busy, the rest is unchanged. *)
Definition out_moves (ps ps' : pipemap) (act act' : gset loc) : Prop :=
  forall p, (ps' !! p = ps !! p /\ ((p ∈ act') <-> (p ∈ act))) \/
    ((p ∈ act) /\ (p ∉ act') /\ exists pb, ps !! p = Some pb /\ ps' !! p = Some (set_out pb OUT_ASYNC)).

Definition in_moves (ps ps' : pipemap) (act act' : gset loc) : Prop :=
  forall p, (ps' !! p = ps !! p /\ ((p ∈ act') <-> (p ∈ act))) \/
    ((p ∈ act) /\ (p ∉ act') /\ exists pb, ps !! p = Some pb /\ ps' !! p = Some (set_in pb IN_ASYNC)).

Class SockBaseLaws (T : Type) `{SockBase T} := {
  sb_inv : T -> gset loc -> gset loc -> gset loc -> Prop;
  sb_inv_init random : sb_inv (sb_init random) ∅ ∅ ∅;
  sb_inv_sub s known oa ia : sb_inv s known oa ia -> oa ⊆ known /\ ia ⊆ known;
  sb_add_ok s known oa ia p o :
    sb_inv s known oa ia -> p ∉ known -> valid_opts o -> sb_room s = true ->
    Z.of_nat (base.size known) + 1 < 2 ^ 31 ->
    exists s' rc, sb_add s p o = Ret (s', rc) /\
      ((rc = 0 /\ sb_inv s' ({[p]} ∪ known) oa ia) \/ (rc < 0 /\ s' = s));
  sb_rm_ok s known oa ia st p :
    sb_inv s known oa ia -> p ∈ known -> Z.of_nat (base.size known) < 2 ^ 31 ->
    exists s' st', sb_rm s st p = Ret (s', st') /\
      sb_inv s' (known ∖ {[p]}) (oa ∖ {[p]}) (ia ∖ {[p]}) /\
      current_connections st' = current_connections st;
  sb_in_ok s known oa ia p :
    sb_inv s known oa ia -> p ∈ known -> p ∉ ia -> sb_quiet = false ->
    exists s', sb_in s p = Ret s' /\ sb_inv s' known oa ({[p]} ∪ ia);
  sb_out_ok s known oa ia st p :
    sb_inv s known oa ia -> p ∈ known -> p ∉ oa ->
    exists s' st', sb_out s st p = Ret (s', st') /\ sb_inv s' known ({[p]} ∪ oa) ia /\
      current_connections st' = current_connections st;
  sb_send_ok s known oa ia ps ans m :
    sb_nosend = false -> (sb_plain = true -> sphdr m = []) ->
    sb_inv s known oa ia -> writable ps oa -> (forall p, good_answer (ans p)) ->
    exists s' ps' rc sent oa', sb_send s ps ans m = Ret (s', ps', rc, sent) /\
      sb_inv s' known oa' ia /\ out_moves ps ps' oa oa';
  sb_recv_ok s known oa ia ttl ps ib :
    sb_norecv = false -> sb_inv s known oa ia -> readable ps ia -> inbox_ok ps ib ->
    exists s' ps' ib' rc got ia', sb_recv s ttl ps ib = Ret (s', ps', ib', rc, got) /\
      sb_inv s' known oa ia' /\ in_moves ps ps' ia ia' /\ inbox_ok ps' ib';
  sb_term_ok s : sb_inv s ∅ ∅ ∅ -> sb_term s = Ret tt
}.

(** ** A socket of the protocol, its pipes and its events *)

Section system.
  Context {T : Type} `{SockBase T}.

Record bsys : Type := Bsys {
  proto : T; bstats : statistics; ps : pipemap; events : list (loc * pipe_event); ib : inbox
}.

(** [nn_sock_add] and [nn_sock_rm] of core/sock.c. *)
Definition nn_sock_add (s : T) (st : statistics) (p : loc) (pb : nn_pipebase)
    : outcome ((T * statistics) * Z) :=
  '(s, rc) ← sb_add s p (options pb);
  if rc >=? 0 then
    st ← nn_sock_stat_increment st NN_STAT_CURRENT_CONNECTIONS 1; Ret ((s, st), rc)
  else Ret ((s, st), rc).

Definition nn_sock_rm (p : loc) (self : T * statistics) : outcome (T * statistics) :=
  let '(s, st) := self in
  '(s, st) ← sb_rm s st p;
  st ← nn_sock_stat_increment st NN_STAT_CURRENT_CONNECTIONS (-1);
  Ret (s, st).

Inductive blabel : Type :=
| BStart (p : loc) (opts : nn_ep_options)  (* a connection is established *)
| BStop (p : loc)                          (* ... and closed *)
| BSent (p : loc)                          (* the transport finished a send *)
| BArrive (p : loc) (rc : Z) (m : nn_msg)  (* the transport has got a message *)
| BDeliver                                 (* the next queued event is processed *)
| BSend (ans : loc -> answer unit) (m : nn_msg)
| BRecv (ttl : Z).

Definition of_pipe (p : loc) (evs : list pipe_event) : list (loc * pipe_event) :=
  (fun e => (p, e)) <$> evs.

(** A pipe the protocol rejects is in the state FAILED, which leaves it to the
    transport. *)
Definition bstep (s : bsys) (l : blabel) : outcome bsys :=
  let 'Bsys t st ps evs ib := s in
  match l with
  | BStart p opts =>
      '((t, st), pb, rc, ev) ← nn_pipebase_start (nn_pipebase_init opts) (nn_sock_add t st p);
      if rc <? 0 then Ret (Bsys t st ps evs ib) else
      Ret (Bsys t st (<[p := pb]> ps) (evs ++ of_pipe p ev) (<[p := []]> ib))
  | BStop p =>
      pb ← deref ps p;
      '((t, st), pb) ← nn_pipebase_stop pb (t, st) (nn_sock_rm p);
      _ ← nn_pipebase_term pb;
      Ret (Bsys t st (delete p ps) evs (delete p ib))
  | BSent p =>
      pb ← deref ps p;
      '(pb, ev) ← nn_pipebase_sent pb;
      Ret (Bsys t st (<[p := pb]> ps) (evs ++ of_pipe p ev) ib)
  | BArrive p rc m =>
      pb ← deref ps p;
      ms ← deref ib p;
      let ib := <[p := ms ++ [(rc, m)]]> ib in
      if decide (instate pb = IN_IDLE) then Ret (Bsys t st ps evs ib) else
      '(pb, ev) ← nn_pipebase_received pb;
      Ret (Bsys t st (<[p := pb]> ps) (evs ++ of_pipe p ev) ib)
  | BDeliver =>
      match evs with
      | [] => Undef
      | (p, NN_PIPE_IN) :: evs => t ← sb_in t p; Ret (Bsys t st ps evs ib)
      | (p, NN_PIPE_OUT) :: evs => '(t, st) ← sb_out t st p; Ret (Bsys t st ps evs ib)
      end
  | BSend ans m => '(t, ps, _, _) ← sb_send t ps ans m; Ret (Bsys t st ps evs ib)
  | BRecv ttl => '(t, ps, ib, _, _) ← sb_recv t ttl ps ib; Ret (Bsys t st ps evs ib)
  end.

(** A pipe is started once, with priorities [nn_sock_setopt] admits; it is
    stopped when its events have been processed; fewer than [INT_MAX]
    connections; the peers of a quiet protocol do not send. *)
Definition benabled (s : bsys) (l : blabel) : Prop :=
  let 'Bsys t st ps evs ib := s in
  match l with
  | BStart p opts =>
      ps !! p = None /\ valid_opts opts /\ sb_room t = true /\ Z.of_nat (S (base.size ps)) < 2 ^ 31
  | BStop p => is_Some (ps !! p) /\ Forall (fun e => fst e <> p) evs
  | BSent p => exists pb, ps !! p = Some pb /\ outstate pb = OUT_ASYNC
  | BArrive p rc m => is_Some (ps !! p) /\ good_msg (rc, m) /\ sb_quiet = false
  | BDeliver => evs <> []
  | BSend ans m =>
      sb_nosend = false /\ (sb_plain = true -> sphdr m = []) /\ forall p, good_answer (ans p)
  | BRecv _ => sb_norecv = false
  end.

Inductive breach : bsys -> Prop :=
| breach_init random : breach (Bsys (sb_init random) init_stats ∅ [] ∅)
| breach_step s l s' : breach s -> benabled s l -> bstep s l = Ret s' -> breach s'.

(** A sequence of enabled steps. *)
Fixpoint brun (s : bsys) (ls : list blabel) : outcome bsys :=
  match ls with [] => Ret s | l :: ls => s ← bstep s l; brun s ls end.

Fixpoint bpath (s : bsys) (ls : list blabel) : Prop :=
  match ls with
  | [] => True
  | l :: ls => benabled s l /\ match bstep s l with Ret s' => bpath s' ls | _ => True end
  end.

Lemma breach_run s ls s' : breach s -> bpath s ls -> brun s ls = Ret s' -> breach s'.
Proof.
  revert s. induction ls as [|l ls IH]; intros s Hr Hp Hrun; cbn in *; [by injection Hrun as <-|].
  destruct Hp as [He Hp]. destruct (bstep s l) as [s1| | |] eqn:E; [|done..].
  eapply IH; [by eapply breach_step|done..].
Qed.

(** Can be written to, and the protocol has been told. *)
Definition ready_out (s : bsys) (p : loc) : Prop :=
  (exists pb, ps s !! p = Some pb /\ outstate pb = OUT_IDLE) /\ (p, NN_PIPE_OUT) ∉ events s.

(** Steps that neither send nor receive, and do not close the pipe [p]. *)
Definition calm (p : loc) (l : blabel) : Prop :=
  match l with BStop q => q <> p | BSend _ _ | BRecv _ => False | _ => True end.

(** Such steps keep what the functions of the protocol keep. *)
Lemma bstep_keep (P : T -> Prop) (p : loc) (s s' : bsys) (l : blabel) :
  (forall t q o t' rc, P t -> q <> p -> sb_add t q o = Ret (t', rc) -> P t') ->
  (forall t st q t' st', P t -> q <> p -> sb_rm t st q = Ret (t', st') -> P t') ->
  (forall t q t', P t -> sb_in t q = Ret t' -> P t') ->
  (forall t st q t' st', P t -> sb_out t st q = Ret (t', st') -> P t') ->
  calm p l -> benabled s l -> bstep s l = Ret s' ->
  P (proto s) -> is_Some (ps s !! p) -> P (proto s') /\ is_Some (ps s' !! p).
Proof.
  intros Hadd Hrm Hin Hout Hc He Hs HP Hp. destruct s as [t st pm evs ib].
  assert (Hput : forall q (pb : nn_pipebase) (m : pipemap), is_Some (m !! p) -> is_Some (<[q := pb]> m !! p)).
  { intros q pb m Hm. destruct (decide (q = p)) as [->|]; [rewrite lookup_insert_eq|rewrite lookup_insert_ne by done]; eauto. }
  destruct l as [q opts|q|q|q r m| |ans m|ttl]; cbn [bstep] in Hs; cbn [proto ps] in *.
  - destruct He as (Hq & _). assert (Hne : q <> p) by (intros ->; destruct Hp; congruence).
    unfold nn_pipebase_start, nn_sock_add in Hs. cbn [options nn_pipebase_init] in Hs.
    apply bind_Ret in Hs as ([[[[t1 st1] pb] rc] ev] & Hs & Hs').
    apply bind_Ret in Hs as (u & _ & Hs). apply bind_Ret in Hs as ([[t2 st2] rc2] & Hs & Hs2).
    apply bind_Ret in Hs as ([t3 rc3] & Ha & Hs). pose proof (Hadd _ _ _ _ _ HP Hne Ha) as HP3.
    assert (t2 = t3) as ->.
    { destruct (rc3 >=? 0); [apply bind_Ret in Hs as (st3 & _ & Hs)|]; by injection Hs as <- <- <-. }
    assert (t1 = t3) as ->. { destruct (rc2 <? 0); by injection Hs2 as <- <- <- <- <-. }
    destruct (rc <? 0); injection Hs' as <-; cbn [proto ps]; auto.
  - apply bind_Ret in Hs as (pb & _ & Hs). apply bind_Ret in Hs as ([[t1 st1] pb1] & Hs & Hs').
    apply bind_Ret in Hs' as (u & _ & Hs'). injection Hs' as <-. cbn [proto ps].
    rewrite lookup_delete_ne by done. split; [|done].
    unfold nn_pipebase_stop in Hs. apply bind_Ret in Hs as ([t2 st2] & Hs & Hs2). injection Hs2 as -> -> _.
    destruct (decide (state pb = P_ACTIVE)); [|by injection Hs as <- _].
    unfold nn_sock_rm in Hs. apply bind_Ret in Hs as ([t3 st3] & Hs & Hs3).
    apply bind_Ret in Hs3 as (st4 & _ & Hs3). injection Hs3 as -> _. by eapply Hrm.
  - apply bind_Ret in Hs as (pb & _ & Hs). apply bind_Ret in Hs as ([pb1 ev] & _ & Hs). injection Hs as <-. cbn [proto ps]. auto.
  - apply bind_Ret in Hs as (pb & _ & Hs). apply bind_Ret in Hs as (ms & _ & Hs). cbv zeta in Hs.
    destruct (decide (instate pb = IN_IDLE)); [by injection Hs as <-|].
    apply bind_Ret in Hs as ([pb1 ev] & _ & Hs). injection Hs as <-. cbn [proto ps]. auto.
  - destruct evs as [|[q []] evs]; [done| |].
    + apply bind_Ret in Hs as (t1 & Hs & Hs'). injection Hs' as <-. split; [by eapply Hin|done].
    + apply bind_Ret in Hs as ([t1 st1] & Hs & Hs'). injection Hs' as <-. split; [by eapply Hout|done].
  - done.
  - done.
Qed.

(** The safety of a protocol. *)
Definition never_fails : Prop :=
  forall s l, breach s -> benabled s l ->
  exists s', bstep s l = Ret s' /\ breach s' /\
    current_connections (bstats s') = Z.of_nat (base.size (ps s')) /\
    (ps s' = ∅ -> sb_term (proto s') = Ret tt).
End system.
Arguments never_fails T {_}.

(** Shows that the steps of a concrete sequence are enabled. *)
Ltac solve_path :=
  vm_compute;
  repeat lazymatch goal with
    | |- _ /\ _ => split
    | |- ex _ => eexists
    | |- True => exact I
    | |- _ = _ => reflexivity
    | |- _ = _ -> False => discriminate
    | |- _ -> _ => intro
    end; try discriminate.

(** ** The invariant *)

(** One direction of a pipe: it is active in the protocol, or an event that
    will activate it is queued, or the transport is busy. *)
Definition dir_ok (idle async active queued : Prop) : Prop :=
  (idle /\ active /\ ~ queued) \/ (idle /\ ~ active /\ queued) \/ (async /\ ~ active /\ ~ queued).

Definition out_ok (active : gset loc) (evs : list (loc * pipe_event)) (p : loc) (pb : nn_pipebase) : Prop :=
  dir_ok (outstate pb = OUT_IDLE) (outstate pb = OUT_ASYNC) (p ∈ active) ((p, NN_PIPE_OUT) ∈ evs).

Definition in_ok (active : gset loc) (evs : list (loc * pipe_event)) (p : loc) (pb : nn_pipebase) : Prop :=
  dir_ok (instate pb = IN_IDLE) (instate pb = IN_ASYNC) (p ∈ active) ((p, NN_PIPE_IN) ∈ evs).

(** Events of one pipe do not concern the others. *)
Lemma other_pipe (evs : list (loc * pipe_event)) p q e e' :
  q <> p -> ((q, e') ∈ evs ++ of_pipe p [e]) <-> ((q, e') ∈ evs).
Proof.
  intros Hne. rewrite elem_of_app. split; [|auto]. intros [?|He]; [done|].
  apply list_elem_of_singleton in He. by injection He as -> _.
Qed.

Lemma other_event (evs : list (loc * pipe_event)) p e e' :
  e <> e' -> ((p, e') ∈ evs ++ of_pipe p [e]) <-> ((p, e') ∈ evs).
Proof.
  intros Hne. rewrite elem_of_app. split; [|auto]. intros [?|He]; [done|].
  apply list_elem_of_singleton in He. injection He as ->. done.
Qed.

Lemma later_event (evs : list (loc * pipe_event)) x y : y <> x -> (y ∈ x :: evs) <-> (y ∈ evs).
Proof. intros Hn. rewrite elem_of_cons. naive_solver. Qed.

Lemma push_NoDup (evs : list (loc * pipe_event)) p e :
  NoDup evs -> (p, e) ∉ evs -> NoDup (evs ++ of_pipe p [e]).
Proof.
  intros Hnd He. apply NoDup_app. split_and!; [done| |apply NoDup_singleton].
  intros x Hx Hin. apply list_elem_of_singleton in Hin. by subst x.
Qed.

Lemma last_event (evs : list (loc * pipe_event)) p e : (p, e) ∈ evs ++ of_pipe p [e].
Proof. apply elem_of_app. right. by left. Qed.

(** A step that replaces one pipe and maybe queues an event. *)
Lemma dom_insert_pipe (m : pipemap) p pb pb' :
  m !! p = Some pb -> dom (<[p := pb']> m) = (dom m : gset loc) /\ base.size (<[p := pb']> m) = base.size m.
Proof.
  intros Hp. split.
  - apply dom_insert_lookup_L. eauto.
  - rewrite map_size_insert. by rewrite Hp.
Qed.

(** A change of the active pipes that leaves [p] alone. *)
Lemma dir_ok_iff idle async a a' q q' :
  (a <-> a') -> (q <-> q') -> dir_ok idle async a q -> dir_ok idle async a' q'.
Proof. unfold dir_ok. tauto. Qed.

Section safety.
  Context {T : Type} `{SockBaseLaws T}.

Definition pipe_ok (oa ia : gset loc) evs (p : loc) (pb : nn_pipebase) : Prop :=
  state pb = P_ACTIVE /\ out_ok oa evs p pb /\ in_ok ia evs p pb.

Definition binv (s : bsys (T := T)) : Prop :=
  let 'Bsys t st ps evs ib := s in
  exists oa ia, sb_inv t (dom ps) oa ia /\
    NoDup evs /\ (forall p e, (p, e) ∈ evs -> p ∈ dom ps) /\
    (sb_quiet = true -> forall p, (p, NN_PIPE_IN) ∉ evs) /\
    (forall p pb, ps !! p = Some pb -> pipe_ok oa ia evs p pb) /\ inbox_ok ps ib /\
    current_connections st = Z.of_nat (base.size ps) /\ Z.of_nat (base.size ps) < 2 ^ 31.

(** The pipes held ready are those that are idle with no event queued. *)
Lemma out_writable oa ia evs (pm : pipemap) :
  oa ⊆ (dom pm : gset loc) -> (forall p pb, pm !! p = Some pb -> pipe_ok oa ia evs p pb) -> writable pm oa.
Proof.
  intros Hoa Hps p Hp. pose proof (Hoa p Hp) as Hd. apply elem_of_dom in Hd as [pb Hpb]. exists pb.
  split; [done|]. destruct (Hps p pb Hpb) as (_ & Hout & _). unfold out_ok, dir_ok in Hout. tauto.
Qed.

Lemma in_readable oa ia evs (pm : pipemap) :
  ia ⊆ (dom pm : gset loc) -> (forall p pb, pm !! p = Some pb -> pipe_ok oa ia evs p pb) -> readable pm ia.
Proof.
  intros Hia Hps p Hp. pose proof (Hia p Hp) as Hd. apply elem_of_dom in Hd as [pb Hpb]. exists pb.
  split; [done|]. destruct (Hps p pb Hpb) as (_ & _ & Hin). unfold in_ok, dir_ok in Hin. tauto.
Qed.

Lemma active_iff oa ia evs (pm : pipemap) p :
  oa ⊆ (dom pm : gset loc) -> (forall p pb, pm !! p = Some pb -> pipe_ok oa ia evs p pb) ->
  (p ∈ oa) <-> (exists pb, pm !! p = Some pb /\ outstate pb = OUT_IDLE) /\ (p, NN_PIPE_OUT) ∉ evs.
Proof.
  intros Hoa Hps. split.
  - intros Hp. pose proof (Hoa p Hp) as Hd. apply elem_of_dom in Hd as [pb Hpb].
    destruct (Hps p pb Hpb) as (_ & Hout & _). unfold out_ok, dir_ok in Hout. split; [exists pb|]; tauto.
  - intros [(pb & Hpb & Hidle) Hn]. destruct (Hps p pb Hpb) as (_ & Hout & _).
    unfold out_ok, dir_ok in Hout. rewrite Hidle in Hout. destruct Hout as [?|[?|[? _]]]; [tauto|tauto|done].
Qed.

Lemma binv_init random : binv (Bsys (sb_init random) init_stats ∅ [] ∅).
Proof.
  exists ∅, ∅. rewrite dom_empty_L. split_and!; try done.
  - apply sb_inv_init.
  - constructor.
  - intros p e He. by apply elem_of_nil in He.
  - intros _ p He. by apply elem_of_nil in He.
Qed.

Lemma binv_start s p opts :
  binv s -> benabled s (BStart p opts) -> exists s', bstep s (BStart p opts) = Ret s' /\ binv s'.
Proof.
  destruct s as [t st ps evs ib].
  intros (oa & ia & Hi & Hnd & Hev & Hq & Hps & Hib & Hc & Hsz) (Hp & Ho & Hroom & Hlt).
  assert (Hpd : p ∉ dom ps) by (by apply not_elem_of_dom).
  destruct (sb_add_ok t (dom ps) oa ia p opts Hi Hpd Ho Hroom) as (t' & rc & Hadd & Hcase).
  { rewrite size_dom. lia. }
  cbn [bstep]. unfold nn_pipebase_start. cbn [state nn_pipebase_init options].
  rewrite bool_decide_eq_true_2 by done. cbn [check mbind outcome_bind].
  unfold nn_sock_add. cbn [options]. rewrite Hadd. cbn [mbind outcome_bind].
  destruct Hcase as [[-> Hi']|[Hrc ->]].
  2: { replace (rc >=? 0) with false by lia. cbn [mbind outcome_bind].
    rewrite (proj2 (Z.ltb_lt _ _) Hrc). cbn [mbind outcome_bind]. rewrite (proj2 (Z.ltb_lt _ _) Hrc).
    eexists. split; [reflexivity|]. by exists oa, ia. }
  change (0 >=? 0) with true. cbv iota.
  destruct (stat_connections st 1) as (st' & -> & Hc' & _); [lia|unfold INT_MAX; lia|unfold INT_MAX; lia|].
  cbn [mbind outcome_bind]. change (0 <? 0) with false. cbv iota. cbn [mbind outcome_bind].
  change (0 <? 0) with false. cbv iota.
  eexists. split; [reflexivity|]. exists oa, ia. rewrite dom_insert_L.
  destruct (sb_inv_sub _ _ _ _ Hi) as [Hoa Hia].
  assert (Hno : forall e, (p, e) ∉ evs) by (intros e He; by apply Hpd, (Hev p e)).
  split; [done|]. split; [by apply push_NoDup|]. split; [|split; [|split; [|split; [|split]]]].
  - intros q e [He|He]%elem_of_app; [apply Hev in He; set_solver|].
    apply list_elem_of_singleton in He. injection He as -> ->. set_solver.
  - intros Hqt q [He|He]%elem_of_app; [by apply (Hq Hqt q)|]. by apply list_elem_of_singleton in He.
  - intros q pb Hq'. apply lookup_insert_Some in Hq' as [[<- <-]|[Hne Hq']].
    + split; [done|]. split.
      * right. left. split_and!; [done|set_solver|apply last_event].
      * right. right. split_and!; [done|set_solver|]. rewrite other_event by done. apply Hno.
    + destruct (Hps q pb Hq') as (Hst & Hou & Hin). split; [done|].
      unfold out_ok, in_ok in *. split; (eapply dir_ok_iff; [| |eassumption]); [done| |done|].
      all: by rewrite other_pipe.
  - destruct Hib as [Hib Hg]. split.
    + intros q pb' Hq'. apply lookup_insert_Some in Hq' as [[<- <-]|[Hne Hq']].
      * exists []. rewrite lookup_insert_eq. split; [done|]. by split.
      * rewrite lookup_insert_ne by done. by apply Hib.
    + intros q ms Hq'. apply lookup_insert_Some in Hq' as [[<- <-]|[Hne Hq']]; [constructor|by eapply Hg].
  - rewrite Hc', Hc, map_size_insert_None by done. lia.
  - rewrite map_size_insert_None by done. lia.
Qed.

Lemma binv_stop s p :
  binv s -> benabled s (BStop p) -> exists s', bstep s (BStop p) = Ret s' /\ binv s'.
Proof.
  destruct s as [t st ps evs ib].
  intros (oa & ia & Hi & Hnd & Hev & Hq & Hps & Hib & Hc & Hsz) [[pb Hp] Hno].
  assert (Hpd : p ∈ dom ps) by by apply elem_of_dom_2 in Hp. destruct (Hps p pb Hp) as (Hst & _).
  destruct (sb_rm_ok t (dom ps) oa ia st p Hi Hpd) as (t' & st1 & Hrm & Hi' & Hc1); [rewrite size_dom; lia|].
  cbn [bstep]. load Hp. unfold nn_pipebase_stop. rewrite decide_True by done. unfold nn_sock_rm.
  rewrite Hrm. cbn [mbind outcome_bind]. assert (Hszp : (0 < base.size ps)%nat).
  { destruct (base.size ps) eqn:E; [|lia]. apply map_size_empty_inv in E. subst. by rewrite lookup_empty in Hp. }
  destruct (stat_connections st1 (-1)) as (st2 & -> & Hc2 & _);
    [lia|unfold INT_MAX; lia|unfold INT_MAX; lia|].
  cbn [mbind outcome_bind]. unfold nn_pipebase_term. cbn [state].
  rewrite bool_decide_eq_true_2 by done. cbn [check mbind outcome_bind].
  eexists. split; [reflexivity|]. exists (oa ∖ {[p]}), (ia ∖ {[p]}). rewrite dom_delete_L.
  split; [done|]. split; [done|]. split; [|split; [|split; [|split; [|split]]]].
  - intros q e He. rewrite Forall_forall in Hno. specialize (Hno _ He). apply Hev in He. set_solver.
  - done.
  - intros q pb' Hq'. apply lookup_delete_Some in Hq' as [Hne Hq'].
    destruct (Hps q pb' Hq') as (? & ? & ?). split; [done|].
    unfold out_ok, in_ok in *. split; (eapply dir_ok_iff; [| |eassumption]); done || set_solver.
  - destruct Hib as [Hib Hg]. split.
    + intros q qb [Hne Hq']%lookup_delete_Some. rewrite lookup_delete_ne by done. by apply Hib.
    + intros q ms [Hne Hq']%lookup_delete_Some. by eapply Hg.
  - rewrite Hc2, Hc1, Hc, map_size_delete_Some by eauto. lia.
  - rewrite map_size_delete_Some by eauto. lia.
Qed.

(** The transport finishes its work on one direction of a pipe. *)
Lemma binv_event t st ps evs ib' p pb pb' e oa ia :
  sb_inv t (dom ps) oa ia -> NoDup evs -> (forall p e, (p, e) ∈ evs -> p ∈ dom ps) ->
  (sb_quiet = true -> e = NN_PIPE_OUT /\ forall p, (p, NN_PIPE_IN) ∉ evs) ->
  (forall p pb, ps !! p = Some pb -> pipe_ok oa ia evs p pb) ->
  ps !! p = Some pb -> (p, e) ∉ evs -> pipe_ok oa ia (evs ++ of_pipe p [e]) p pb' ->
  inbox_ok (<[p := pb']> ps) ib' ->
  current_connections st = Z.of_nat (base.size ps) -> Z.of_nat (base.size ps) < 2 ^ 31 ->
  binv (Bsys t st (<[p := pb']> ps) (evs ++ of_pipe p [e]) ib').
Proof.
  intros Hi Hnd Hev Hq Hps Hp He Hpb' Hib Hc Hsz.
  destruct (dom_insert_pipe ps p pb pb' Hp) as [Hdom Hsize].
  exists oa, ia. rewrite Hdom, Hsize. split; [done|]. split; [by apply push_NoDup|].
  split; [|split; [|split; [|done]]].
  - intros q e' [He'|He']%elem_of_app; [by eapply Hev|].
    apply list_elem_of_singleton in He'. injection He' as -> ->. by apply elem_of_dom_2 in Hp.
  - intros Hqt q. destruct (Hq Hqt) as [-> Hn]. intros [He'|He']%elem_of_app; [by apply (Hn q)|].
    by apply list_elem_of_singleton in He'.
  - intros q qb Hq'. apply lookup_insert_Some in Hq' as [[<- <-]|[Hne Hq']]; [done|].
    destruct (Hps q qb Hq') as (? & ? & ?). split; [done|].
    unfold out_ok, in_ok in *. split; (eapply dir_ok_iff; [| |eassumption]); [done| |done|].
    all: by rewrite other_pipe.
Qed.

Lemma binv_sent s p :
  binv s -> benabled s (BSent p) -> exists s', bstep s (BSent p) = Ret s' /\ binv s'.
Proof.
  destruct s as [t st ps evs ib].
  intros (oa & ia & Hi & Hnd & Hev & Hq & Hps & Hib & Hc & Hsz) (pb & Hp & Ho).
  cbn [bstep]. load Hp. rewrite sent_async by done. cbn [mbind outcome_bind].
  destruct (Hps p pb Hp) as (Hst & Hout & Hin).
  destruct Hout as [(Ho' & _)|[(Ho' & _)|(_ & Hla & Hqe)]]; [congruence..|].
  eexists. split; [reflexivity|]. eapply binv_event; try done; [by auto| |by apply inbox_out].
  split_and!; [done| |].
  - right. left. split_and!; [done|done|apply last_event].
  - unfold in_ok in *. eapply dir_ok_iff; [| |eassumption]; [done|]. by rewrite other_event.
Qed.

Lemma binv_arrive s p r m :
  binv s -> benabled s (BArrive p r m) -> exists s', bstep s (BArrive p r m) = Ret s' /\ binv s'.
Proof.
  destruct s as [t st ps evs ib].
  intros (oa & ia & Hi & Hnd & Hev & Hq & Hps & Hib & Hc & Hsz) ([pb Hp] & Hm & Hquiet).
  destruct (proj1 Hib p pb Hp) as (ms & Hms & Hiff). cbn [bstep]. load Hp. load Hms.
  assert (Hib' : forall pb', instate pb' = IN_IDLE -> inbox_ok (<[p := pb']> ps) (<[p := ms ++ [(r, m)]]> ib)).
  { intros pb' Hidle. destruct Hib as [Hib Hg]. split.
    - intros q qb Hq'. apply lookup_insert_Some in Hq' as [[<- <-]|[Hne Hq']].
      + eexists. rewrite lookup_insert_eq. split; [reflexivity|]. split; [|done]. by destruct ms.
      + rewrite lookup_insert_ne by done. by apply Hib.
    - intros q qs Hq'. apply lookup_insert_Some in Hq' as [[<- <-]|[Hne Hq']]; [|by eapply Hg].
      apply Forall_app. split; [by eapply Hg|by constructor]. }
  case_decide as Hidle.
  - eexists. split; [reflexivity|]. exists oa, ia. split_and!; try done.
    rewrite <-(insert_id ps p pb Hp). by apply Hib'.
  - destruct (Hps p pb Hp) as (Hst & Hout & Hin).
    destruct Hin as [(Hi' & _)|[(Hi' & _)|(Has & Hla & Hqe)]]; [congruence..|].
    rewrite received_async by done. cbn [mbind outcome_bind].
    eexists. split; [reflexivity|]. eapply binv_event; try done; [congruence| |by apply Hib'].
    split_and!; [done| |].
    + unfold out_ok in *. eapply dir_ok_iff; [| |eassumption]; [done|]. by rewrite other_event.
    + right. left. split_and!; [done|done|apply last_event].
Qed.

Lemma binv_deliver s :
  binv s -> benabled s BDeliver -> exists s', bstep s BDeliver = Ret s' /\ binv s'.
Proof.
  destruct s as [t st ps [|[p e] evs] ib]; [done|].
  intros (oa & ia & Hi & Hnd & Hev & Hq & Hps & Hib & Hc & Hsz) _.
  apply NoDup_cons in Hnd as [Hpe Hnd]. assert (Hpd : p ∈ dom ps) by (apply (Hev p e); by left).
  apply elem_of_dom in Hpd as Hp. destruct Hp as [pb Hp]. destruct (Hps p pb Hp) as (Hst & Hout & Hin).
  assert (Hrest : forall X Y, (forall q, q <> p -> (q ∈ X <-> q ∈ oa) /\ (q ∈ Y <-> q ∈ ia)) ->
    pipe_ok X Y evs p pb -> forall q qb, ps !! q = Some qb -> pipe_ok X Y evs q qb).
  { intros X Y HXY Hpok q qb Hqb. destruct (decide (q = p)) as [->|Hne]; [by simplify_eq|].
    destruct (HXY q Hne) as [HX HY]. destruct (Hps q qb Hqb) as (? & ? & ?). split; [done|].
    unfold out_ok, in_ok in *. split; (eapply dir_ok_iff; [| |eassumption]); try done.
    all: by rewrite later_event by congruence. }
  assert (Hev' : forall q e', (q, e') ∈ evs -> q ∈ dom ps) by (intros q e' He'; apply (Hev q e'); by right).
  destruct e; cbn [bstep].
  - destruct Hin as [(_ & _ & Hn)|[(Hidle & Hfa & _)|(_ & _ & Hn)]]; [by destruct Hn; left| |by destruct Hn; left].
    destruct (sb_in_ok t (dom ps) oa ia p Hi Hpd Hfa) as (t' & -> & Hi').
    { destruct sb_quiet; [|done]. by destruct (Hq eq_refl p); left. }
    cbn [mbind outcome_bind]. eexists. split; [reflexivity|]. exists oa, ({[p]} ∪ ia).
    split_and!; try done.
    + intros Hqt q Hq'. apply (Hq Hqt q). by right.
    + apply Hrest; [set_solver|]. split; [done|]. split.
      * unfold out_ok in *. eapply dir_ok_iff; [| |exact Hout]; [done|]. by rewrite later_event.
      * left. split_and!; [done|set_solver|done].
  - destruct Hout as [(_ & _ & Hn)|[(Hidle & Hla & _)|(_ & _ & Hn)]]; [by destruct Hn; left| |by destruct Hn; left].
    destruct (sb_out_ok t (dom ps) oa ia st p Hi Hpd Hla) as (t' & st' & -> & Hi' & Hc').
    cbn [mbind outcome_bind]. eexists. split; [reflexivity|]. exists ({[p]} ∪ oa), ia.
    split_and!; try done.
    + intros Hqt q Hq'. apply (Hq Hqt q). by right.
    + apply Hrest; [set_solver|]. split; [done|]. split.
      * left. split_and!; [done|set_solver|done].
      * unfold in_ok in *. eapply dir_ok_iff; [| |exact Hin]; [done|]. by rewrite later_event.
    + by rewrite Hc'.
Qed.

(** Moves keep the set of pipes, and the other direction. *)
Lemma out_moves_dom ps ps' oa oa' :
  out_moves ps ps' oa oa' -> dom ps' = (dom ps : gset loc) /\ base.size ps' = base.size ps.
Proof.
  intros Hm. assert (Hdom : dom ps' = (dom ps : gset loc)).
  { apply set_eq. intros p. rewrite !elem_of_dom.
    destruct (Hm p) as [[-> _]|(_ & _ & pb & -> & ->)]; [done|]. split; intros _; eauto. }
  split; [done|]. by rewrite <-!size_dom, Hdom.
Qed.

Lemma in_moves_dom ps ps' ia ia' :
  in_moves ps ps' ia ia' -> dom ps' = (dom ps : gset loc) /\ base.size ps' = base.size ps.
Proof.
  intros Hm. assert (Hdom : dom ps' = (dom ps : gset loc)).
  { apply set_eq. intros p. rewrite !elem_of_dom.
    destruct (Hm p) as [[-> _]|(_ & _ & pb & -> & ->)]; [done|]. split; intros _; eauto. }
  split; [done|]. by rewrite <-!size_dom, Hdom.
Qed.

Lemma binv_send s ans m :
  binv s -> benabled s (BSend ans m) -> exists s', bstep s (BSend ans m) = Ret s' /\ binv s'.
Proof.
  destruct s as [t st ps evs ib].
  intros (oa & ia & Hi & Hnd & Hev & Hq & Hps & Hib & Hc & Hsz) (Hns & Hpl & Hans).
  destruct (sb_inv_sub _ _ _ _ Hi) as [Hoa Hia].
  destruct (sb_send_ok t (dom ps) oa ia ps ans m Hns Hpl Hi) as (t' & ps' & rc & sent & oa' & Hs & Hi' & Hm); [|done|].
  { by eapply out_writable. }
  cbn [bstep]. rewrite Hs. cbn [mbind outcome_bind]. eexists. split; [reflexivity|].
  destruct (out_moves_dom _ _ _ _ Hm) as [Hdom Hsize].
  exists oa', ia. rewrite Hdom, Hsize. split_and!; try done.
  - intros p pb Hpb. destruct (Hm p) as [[Hsame Ha]|(Ha & Ha' & pb0 & Hp0 & Hp1)].
    + rewrite Hsame in Hpb. destruct (Hps p pb Hpb) as (? & ? & ?). split_and!; [done| |done].
      unfold out_ok in *. by eapply dir_ok_iff; [| |eassumption].
    + rewrite Hp1 in Hpb. injection Hpb as <-. destruct (Hps p pb0 Hp0) as (? & Hout & ?).
      split_and!; [done| |done]. right. right. split_and!; [done|done|].
      unfold out_ok, dir_ok in Hout. tauto.
  - destruct Hib as [Hib Hg]. split; [|done]. intros p pb Hpb.
    destruct (Hm p) as [[Hsame Ha]|(Ha & Ha' & pb0 & Hp0 & Hp1)].
    + rewrite Hsame in Hpb. by apply Hib.
    + rewrite Hp1 in Hpb. injection Hpb as <-. apply (Hib p pb0 Hp0).
Qed.

Lemma binv_recv s ttl :
  binv s -> benabled s (BRecv ttl) -> exists s', bstep s (BRecv ttl) = Ret s' /\ binv s'.
Proof.
  destruct s as [t st ps evs ib].
  intros (oa & ia & Hi & Hnd & Hev & Hq & Hps & Hib & Hc & Hsz) Hns.
  destruct (sb_inv_sub _ _ _ _ Hi) as [Hoa Hia].
  destruct (sb_recv_ok t (dom ps) oa ia ttl ps ib Hns Hi)
    as (t' & ps' & ib' & rc & got & ia' & Hs & Hi' & Hm & Hib'); [|done|].
  { by eapply in_readable. }
  cbn [bstep]. rewrite Hs. cbn [mbind outcome_bind]. eexists. split; [reflexivity|].
  destruct (in_moves_dom _ _ _ _ Hm) as [Hdom Hsize].
  exists oa, ia'. rewrite Hdom, Hsize. split_and!; try done.
  intros p pb Hpb. destruct (Hm p) as [[Hsame Ha]|(Ha & Ha' & pb0 & Hp0 & Hp1)].
  - rewrite Hsame in Hpb. destruct (Hps p pb Hpb) as (? & ? & ?). split_and!; [done|done|].
    unfold in_ok in *. by eapply dir_ok_iff; [| |eassumption].
  - rewrite Hp1 in Hpb. injection Hpb as <-. destruct (Hps p pb0 Hp0) as (? & ? & Hin).
    split_and!; [done|done|]. right. right. split_and!; [done|done|].
    unfold in_ok, dir_ok in Hin. tauto.
Qed.

Lemma binv_step s l : binv s -> benabled s l -> exists s', bstep s l = Ret s' /\ binv s'.
Proof.
  destruct l; eauto using binv_start, binv_stop, binv_sent, binv_arrive, binv_deliver, binv_send, binv_recv.
Qed.

Lemma breach_inv s : breach s -> binv s.
Proof.
  induction 1 as [random|s l s' _ IH He Hs]; [apply binv_init|].
  destruct (binv_step s l IH He) as (s'' & Hs' & Hi). congruence.
Qed.

(** The state of the protocol in a reachable system, and the pipes it holds. *)
Lemma breach_view s : breach s ->
  exists oa ia, sb_inv (proto s) (dom (ps s)) oa ia /\ writable (ps s) oa /\ readable (ps s) ia /\
    inbox_ok (ps s) (ib s) /\ (forall p, (p ∈ oa) <-> ready_out s p).
Proof.
  intros Hr. apply breach_inv in Hr. destruct s as [t st pm evs ib].
  destruct Hr as (oa & ia & Hi & _ & _ & _ & Hps & Hib & _). destruct (sb_inv_sub _ _ _ _ Hi) as [Hoa Hia].
  exists oa, ia. cbn [proto ps SockBase.ib]. split; [done|]. split; [by eapply out_writable|].
  split; [by eapply in_readable|]. split; [done|]. intros p. by eapply active_iff.
Qed.

(** Every protocol that keeps the laws is safe. *)
Lemma base_never_fails : never_fails T.
Proof.
  intros s l Hr He. destruct (binv_step s l (breach_inv s Hr) He) as (s' & Hs & Hi).
  exists s'. split; [done|]. split; [by eapply breach_step|].
  destruct s' as [t st ps evs ib]. destruct Hi as (oa & ia & Hi & _ & _ & _ & _ & _ & Hc & _).
  split; [done|]. cbn. intros ->. rewrite dom_empty_L in Hi. destruct (sb_inv_sub _ _ _ _ Hi) as [Ho Hin].
  apply sb_term_ok. replace oa with (∅ : gset loc) in Hi by set_solver.
  by replace ia with (∅ : gset loc) in Hi by set_solver.
Qed.
End safety.

(** ** Moves *)

Lemma set_out_idle pb : outstate pb = OUT_IDLE -> set_out pb OUT_IDLE = pb.
Proof. destruct pb. cbn. by intros ->. Qed.

Lemma set_in_idle pb : instate pb = IN_IDLE -> set_in pb IN_IDLE = pb.
Proof. destruct pb. cbn. by intros ->. Qed.

Lemma out_moves_refl ps oa : out_moves ps ps oa oa.
Proof. intros p. by left. Qed.

Lemma in_moves_refl ps ia : in_moves ps ps ia ia.
Proof. intros p. by left. Qed.

(** One pipe is written to; [b] tells whether the transport was done at once. *)
Lemma out_moves_one ps oa p pb (b : bool) :
  p ∈ oa -> ps !! p = Some pb -> outstate pb = OUT_IDLE ->
  out_moves ps (<[p := set_out pb (if b then OUT_IDLE else OUT_ASYNC)]> ps) oa
    (if b then oa else oa ∖ {[p]}).
Proof.
  intros Hp Hpb Hidle q. destruct (decide (q = p)) as [->|Hne].
  - destruct b; [left; rewrite set_out_idle, lookup_insert_eq by done; by rewrite Hpb|].
    right. split_and!; [done|set_solver|]. exists pb. by rewrite lookup_insert_eq.
  - left. rewrite lookup_insert_ne by done. split; [done|]. destruct b; set_solver.
Qed.

Lemma in_moves_one ps ia p pb (b : bool) :
  p ∈ ia -> ps !! p = Some pb -> instate pb = IN_IDLE ->
  in_moves ps (<[p := set_in pb (if b then IN_IDLE else IN_ASYNC)]> ps) ia
    (if b then ia else ia ∖ {[p]}).
Proof.
  intros Hp Hpb Hidle q. destruct (decide (q = p)) as [->|Hne].
  - destruct b; [left; rewrite set_in_idle, lookup_insert_eq by done; by rewrite Hpb|].
    right. split_and!; [done|set_solver|]. exists pb. by rewrite lookup_insert_eq.
  - left. rewrite lookup_insert_ne by done. split; [done|]. destruct b; set_solver.
Qed.

Lemma out_moves_trans ps1 ps2 ps3 a1 a2 a3 :
  out_moves ps1 ps2 a1 a2 -> out_moves ps2 ps3 a2 a3 -> out_moves ps1 ps3 a1 a3.
Proof.
  intros H12 H23 p. destruct (H12 p) as [[E1 I1]|(? & ? & pb & Hp & Hp')], (H23 p) as [[E2 I2]|(? & ? & pb2 & Hp2 & Hp2')].
  - left. split; [congruence|tauto].
  - right. split_and!; [tauto|done|]. exists pb2. split; [congruence|done].
  - right. split_and!; [tauto|tauto|]. exists pb. split; [done|congruence].
  - tauto.
Qed.

Lemma in_moves_trans ps1 ps2 ps3 a1 a2 a3 :
  in_moves ps1 ps2 a1 a2 -> in_moves ps2 ps3 a2 a3 -> in_moves ps1 ps3 a1 a3.
Proof.
  intros H12 H23 p. destruct (H12 p) as [[E1 I1]|(? & ? & pb & Hp & Hp')], (H23 p) as [[E2 I2]|(? & ? & pb2 & Hp2 & Hp2')].
  - left. split; [congruence|tauto].
  - right. split_and!; [tauto|done|]. exists pb2. split; [congruence|done].
  - right. split_and!; [tauto|tauto|]. exists pb. split; [done|congruence].
  - tauto.
Qed.

Lemma in_moves_readable ps ps' ia ia' : in_moves ps ps' ia ia' -> readable ps ia -> readable ps' ia'.
Proof.
  intros Hm Hr p Hp. destruct (Hm p) as [[E I]|(_ & Hn & _)]; [|done]. rewrite E. apply Hr. tauto.
Qed.

Lemma out_moves_writable ps ps' oa oa' : out_moves ps ps' oa oa' -> writable ps oa -> writable ps' oa'.
Proof.
  intros Hm Hr p Hp. destruct (Hm p) as [[E I]|(_ & Hn & _)]; [|done]. rewrite E. apply Hr. tauto.
Qed.
