(* ===== verification/Xreq.v ===== *)
(** * Xreq: the raw REQ socket (src/protocols/reqrep/xreq.c)

    Requests are load-balanced over the peers, replies fair-queued from them.
    The socket type is written against the [Scheduler] interface.  [xstep] runs
    it together with its pipes and the event queue of the socket's context;
    [xreq_never_fails] shows that the assertions of pipe.c, lb.c, fq.c,
    priolist.c and the statistics never fail, in any interleaving, for any
    scheduler that keeps the laws. *)

From stdpp Require Import base gmap list sets.
From Stdlib Require Import ZArith Lia.
From S2P Require Import Prelude ListHeap Priolist Sched Pipe Lb Fq Sock Wire Message Inbox SockBase.

Open Scope Z_scope.

Definition NN_REP : Z := 3 * 16 + 1.

Record nn_xreq (S : Type) : Type := Xreq { lb : S; fq : S; stats : statistics }.
Arguments Xreq {S}.
Arguments lb {S}.
Arguments fq {S}.
Arguments stats {S}.

Section xreq.
  Context {S : Type} `{Scheduler S}.

Definition nn_xreq_init : nn_xreq S := Xreq nn_lb_init nn_fq_init init_stats.

Definition nn_xreq_term (self : nn_xreq S) : outcome unit :=
  _ ← nn_fq_term (fq self);
  nn_lb_term (lb self).

(** [opts] are the options of the pipe. *)
Definition nn_xreq_add (self : nn_xreq S) (p : loc) (opts : nn_ep_options)
    : outcome (nn_xreq S * Z) :=
  _ ← check ((1 <=? Pipe.sndprio opts) && (Pipe.sndprio opts <=? 16));
  _ ← check ((1 <=? Pipe.rcvprio opts) && (Pipe.rcvprio opts <=? 16));
  Ret (Xreq (nn_lb_add (lb self) p (Pipe.sndprio opts)) (nn_fq_add (fq self) p (Pipe.rcvprio opts))
         (stats self), 0).

Definition nn_xreq_rm (self : nn_xreq S) (p : loc) : outcome (nn_xreq S) :=
  lb ← nn_lb_rm (lb self) p;
  fq ← nn_fq_rm (fq self) p;
  st ← nn_sock_stat_increment (stats self) NN_STAT_CURRENT_SND_PRIORITY (nn_lb_get_priority lb);
  Ret (Xreq lb fq st).

Definition nn_xreq_in (self : nn_xreq S) (p : loc) : outcome (nn_xreq S) :=
  fq ← nn_fq_in (fq self) p;
  Ret (Xreq (lb self) fq (stats self)).

Definition nn_xreq_out (self : nn_xreq S) (p : loc) : outcome (nn_xreq S) :=
  lb ← nn_lb_out (lb self) p;
  st ← nn_sock_stat_increment (stats self) NN_STAT_CURRENT_SND_PRIORITY (nn_lb_get_priority lb);
  Ret (Xreq lb (fq self) st).

Definition nn_xreq_events (self : nn_xreq S) : Z :=
  Z.lor (if nn_fq_can_recv (fq self) =? 0 then 0 else NN_SOCKBASE_EVENT_IN)
    (if nn_lb_can_send (lb self) =? 0 then 0 else NN_SOCKBASE_EVENT_OUT).

(** The last component is the pipe the message was sent to. *)
Definition nn_xreq_send_to (self : nn_xreq S) (ps : pipemap) (ans : loc -> answer unit)
    : outcome (nn_xreq S * pipemap * Z * option loc) :=
  '(lb, ps, rc, to) ← nn_lb_send (lb self) ps ans;
  let self := Xreq lb (fq self) (stats self) in
  if rc =? - EAGAIN then Ret (self, ps, - EAGAIN, to) else
  _ ← check (rc >=? 0);
  Ret (self, ps, 0, to).

Definition nn_xreq_send (self : nn_xreq S) (ps : pipemap) (ans : loc -> answer unit)
    : outcome (nn_xreq S * pipemap * Z * option loc) := nn_xreq_send_to self ps ans.

(** Splits a reply into header and body; [None] for a malformed one. *)
Definition nn_xreq_split (rc : Z) (msg : nn_msg) : outcome (option nn_msg) :=
  if negb (Z.land rc NN_PIPE_PARSED =? 0) then Ret (Some msg) else
  if size (body msg) <? 4 then Ret None else
  _ ← check (size (sphdr msg) =? 0);
  b ← trim (body msg) 4;
  Ret (Some (Msg (take 4 (body msg)) b)).

Definition nn_xreq_recv (self : nn_xreq S) (ps : pipemap) (ans : loc -> answer nn_msg)
    : outcome (nn_xreq S * pipemap * Z * received) :=
  '(fq, ps, rc, got) ← nn_fq_recv (fq self) ps ans;
  let self := Xreq (lb self) fq (stats self) in
  if rc =? - EAGAIN then Ret (self, ps, - EAGAIN, Untouched) else
  _ ← check (rc >=? 0);
  match got with
  | None => Undef
  | Some (_, msg) =>
      m ← nn_xreq_split rc msg;
      match m with
      | None => Ret (self, ps, - EAGAIN, Terminated)
      | Some m => Ret (self, ps, 0, Received m)
      end
  end.

Definition nn_xreq_setopt (self : nn_xreq S) (level opt : Z) (optval : list Z) : Z := - ENOPROTOOPT.

Definition nn_xreq_getopt (self : nn_xreq S) (level opt : Z) : Z := - ENOPROTOOPT.

Definition nn_xreq_ispeer (socktype : Z) : Z := if socktype =? NN_REP then 1 else 0.
End xreq.

(** ** The socket, its pipes and the event queue *)

Section system.
  Context {S : Type} `{SchedulerLaws S}.

Record xsys : Type := Xsys {
  sock : nn_xreq S; ps : pipemap; events : list (loc * pipe_event)
}.

(** [nn_sock_add] and [nn_sock_rm] of core/sock.c. *)
Definition nn_sock_add (self : nn_xreq S) (p : loc) (pb : nn_pipebase) : outcome (nn_xreq S * Z) :=
  '(self, rc) ← nn_xreq_add self p (options pb);
  if rc >=? 0 then
    st ← nn_sock_stat_increment (stats self) NN_STAT_CURRENT_CONNECTIONS 1;
    Ret (Xreq (lb self) (fq self) st, rc)
  else Ret (self, rc).

Definition nn_sock_rm (p : loc) (self : nn_xreq S) : outcome (nn_xreq S) :=
  self ← nn_xreq_rm self p;
  st ← nn_sock_stat_increment (stats self) NN_STAT_CURRENT_CONNECTIONS (-1);
  Ret (Xreq (lb self) (fq self) st).

Inductive xlabel : Type :=
| XStart (p : loc) (opts : nn_ep_options)  (* a connection is established *)
| XStop (p : loc)                          (* ... and closed *)
| XSent (p : loc)                          (* the transport finished a send *)
| XReceived (p : loc)                      (* the transport has a message *)
| XDeliver                                 (* the next queued event is processed *)
| XSend (ans : loc -> answer unit)         (* the application sends *)
| XRecv (ans : loc -> answer nn_msg).      (* the application receives *)

Definition xstep (s : xsys) (l : xlabel) : outcome xsys :=
  let 'Xsys self ps evs := s in
  match l with
  | XStart p opts =>
      '(self, pb, _, ev) ← nn_pipebase_start (nn_pipebase_init opts) (nn_sock_add self p);
      Ret (Xsys self (<[p := pb]> ps) (evs ++ of_pipe p ev))
  | XStop p =>
      pb ← deref ps p;
      '(self, pb) ← nn_pipebase_stop pb self (nn_sock_rm p);
      _ ← nn_pipebase_term pb;
      Ret (Xsys self (delete p ps) evs)
  | XSent p =>
      pb ← deref ps p;
      '(pb, ev) ← nn_pipebase_sent pb;
      Ret (Xsys self (<[p := pb]> ps) (evs ++ of_pipe p ev))
  | XReceived p =>
      pb ← deref ps p;
      '(pb, ev) ← nn_pipebase_received pb;
      Ret (Xsys self (<[p := pb]> ps) (evs ++ of_pipe p ev))
  | XDeliver =>
      match evs with
      | [] => Undef
      | (p, NN_PIPE_IN) :: evs => self ← nn_xreq_in self p; Ret (Xsys self ps evs)
      | (p, NN_PIPE_OUT) :: evs => self ← nn_xreq_out self p; Ret (Xsys self ps evs)
      end
  | XSend ans => '(self, ps, _, _) ← nn_xreq_send self ps ans; Ret (Xsys self ps evs)
  | XRecv ans => '(self, ps, _, _) ← nn_xreq_recv self ps ans; Ret (Xsys self ps evs)
  end.

(** A pipe is started once, with priorities [nn_sock_setopt] admits; the
    transport completes what it has not completed; a pipe is stopped when its
    events have been processed; fewer than [INT_MAX] connections. *)
Definition xenabled (s : xsys) (l : xlabel) : Prop :=
  let 'Xsys self ps evs := s in
  match l with
  | XStart p opts => ps !! p = None /\ valid_opts opts /\ Z.of_nat (Datatypes.S (base.size ps)) < 2 ^ 31
  | XStop p => is_Some (ps !! p) /\ Forall (fun e => fst e <> p) evs
  | XSent p => exists pb, ps !! p = Some pb /\ outstate pb = OUT_ASYNC
  | XReceived p => exists pb, ps !! p = Some pb /\ instate pb = IN_ASYNC
  | XDeliver => evs <> []
  | XSend ans => forall p, good_answer (ans p)
  | XRecv ans => forall p, good_recv (ans p)
  end.

Definition xinv (s : xsys) : Prop :=
  let 'Xsys self ps evs := s in
  exists la fa,
    s_inv (lb self) (dom ps) la /\ s_inv (fq self) (dom ps) fa /\
    NoDup evs /\ (forall p e, (p, e) ∈ evs -> p ∈ dom ps) /\
    (forall p pb, ps !! p = Some pb ->
       state pb = P_ACTIVE /\ out_ok la evs p pb /\ in_ok fa evs p pb) /\
    current_connections (stats self) = Z.of_nat (base.size ps) /\ Z.of_nat (base.size ps) < 2 ^ 31.

Lemma xinv_init : xinv (Xsys nn_xreq_init ∅ []).
Proof.
  exists ∅, ∅. rewrite dom_empty_L. split_and!; try apply s_inv_init; try done.
  - constructor.
  - intros p e He. by apply elem_of_nil in He.
Qed.

Lemma xinv_start s p opts :
  xinv s -> xenabled s (XStart p opts) -> exists s', xstep s (XStart p opts) = Ret s' /\ xinv s'.
Proof.
  destruct s as [[l f st] ps evs]. intros (la & fa & Hl & Hf & Hnd & Hev & Hps & Hc & Hsz) (Hp & [Hs Hr] & Hlt).
  cbn [xstep lb fq stats] in *.
  assert (Hpd : p ∉ dom ps) by (by apply not_elem_of_dom).
  unfold nn_pipebase_start. cbn [state nn_pipebase_init options].
  rewrite bool_decide_eq_true_2 by done. cbn [check mbind outcome_bind].
  unfold nn_sock_add, nn_xreq_add. cbn [options lb fq stats].
  replace ((1 <=? Pipe.sndprio opts) && (Pipe.sndprio opts <=? 16)) with true by lia.
  replace ((1 <=? Pipe.rcvprio opts) && (Pipe.rcvprio opts <=? 16)) with true by lia.
  cbn [check mbind outcome_bind stats]. change (0 >=? 0) with true. cbv iota.
  destruct (stat_connections st 1) as (st' & -> & Hc' & _); [lia|unfold INT_MAX; lia|unfold INT_MAX; lia|].
  cbn [mbind outcome_bind]. change (0 <? 0) with false. cbv iota. cbn [mbind outcome_bind lb fq].
  eexists. split; [reflexivity|]. exists la, fa. rewrite dom_insert_L. cbn [lb fq stats]. split_and!.
  - by apply s_add_ok.
  - by apply s_add_ok.
  - apply NoDup_app. split_and!; [done| |apply NoDup_singleton].
    intros [q e] He Hin. apply list_elem_of_singleton in Hin. injection Hin as -> ->. by apply Hpd, (Hev p NN_PIPE_OUT).
  - intros q e [He|He]%elem_of_app; [apply Hev in He; set_solver|].
    apply list_elem_of_singleton in He. injection He as -> ->. set_solver.
  - intros q pb Hq. apply lookup_insert_Some in Hq as [[<- <-]|[Hne Hq]].
    + split; [done|]. pose proof (s_inv_sub _ _ _ Hl). pose proof (s_inv_sub _ _ _ Hf). split.
      * right. left. split_and!; [done|set_solver|]. apply elem_of_app. right. by left.
      * right. right. split_and!; [done|set_solver|]. intros [He|He]%elem_of_app.
        -- by apply Hpd, (Hev p NN_PIPE_IN).
        -- by apply list_elem_of_singleton in He.
    + destruct (Hps q pb Hq) as (Hst & Ho & Hi). split; [done|].
      assert (Hsame : forall e, (q, e) ∈ evs ++ of_pipe p [NN_PIPE_OUT] <-> (q, e) ∈ evs).
      { intros e. rewrite elem_of_app. split; [|auto]. intros [?|He]; [done|].
        apply list_elem_of_singleton in He. by injection He as -> _. }
      unfold out_ok, in_ok, dir_ok in *. by rewrite !Hsame.
  - rewrite Hc', Hc, map_size_insert_None by done. lia.
  - rewrite map_size_insert_None by done. lia.
Qed.

(** A step that replaces one pipe and maybe queues an event. *)
Lemma dom_insert_same (m : pipemap) p pb pb' :
  m !! p = Some pb -> dom (<[p := pb']> m) = (dom m : gset loc) /\ base.size (<[p := pb']> m) = base.size m.
Proof.
  intros Hp. split.
  - apply dom_insert_lookup_L. eauto.
  - rewrite map_size_insert. by rewrite Hp.
Qed.

Lemma xinv_sent s p :
  xinv s -> xenabled s (XSent p) -> exists s', xstep s (XSent p) = Ret s' /\ xinv s'.
Proof.
  destruct s as [[l f st] ps evs]. intros (la & fa & Hl & Hf & Hnd & Hev & Hps & Hc & Hsz) (pb & Hp & Ho).
  cbn [xstep lb fq stats] in *. load Hp. rewrite sent_async by done. cbn [mbind outcome_bind].
  destruct (Hps p pb Hp) as (Hst & Hout & Hin).
  destruct Hout as [(Ho' & _)|[(Ho' & _)|(_ & Hla & Hq)]]; [congruence..|].
  destruct (dom_insert_same ps p pb (set_out pb OUT_IDLE) Hp) as [Hdom Hsize].
  eexists. split; [reflexivity|]. exists la, fa. rewrite Hdom, Hsize. cbn [lb fq stats]. split_and!; try done.
  - by apply push_NoDup.
  - intros q e [He|He]%elem_of_app; [by eapply Hev|].
    apply list_elem_of_singleton in He. injection He as -> ->. by apply elem_of_dom_2 in Hp.
  - intros q pb' Hq'. apply lookup_insert_Some in Hq' as [[<- <-]|[Hne Hq']].
    + split_and!; [done| |].
      * right. left. split_and!; [done|done|apply last_event].
      * unfold in_ok, dir_ok in *. by rewrite other_event.
    + destruct (Hps q pb' Hq') as (? & ? & ?). unfold out_ok, in_ok, dir_ok in *.
      by rewrite !other_pipe.
Qed.

Lemma xinv_received s p :
  xinv s -> xenabled s (XReceived p) -> exists s', xstep s (XReceived p) = Ret s' /\ xinv s'.
Proof.
  destruct s as [[l f st] ps evs]. intros (la & fa & Hl & Hf & Hnd & Hev & Hps & Hc & Hsz) (pb & Hp & Ho).
  cbn [xstep lb fq stats] in *. load Hp. rewrite received_async by done. cbn [mbind outcome_bind].
  destruct (Hps p pb Hp) as (Hst & Hout & Hin).
  destruct Hin as [(Ho' & _)|[(Ho' & _)|(_ & Hla & Hq)]]; [congruence..|].
  destruct (dom_insert_same ps p pb (set_in pb IN_IDLE) Hp) as [Hdom Hsize].
  eexists. split; [reflexivity|]. exists la, fa. rewrite Hdom, Hsize. cbn [lb fq stats]. split_and!; try done.
  - by apply push_NoDup.
  - intros q e [He|He]%elem_of_app; [by eapply Hev|].
    apply list_elem_of_singleton in He. injection He as -> ->. by apply elem_of_dom_2 in Hp.
  - intros q pb' Hq'. apply lookup_insert_Some in Hq' as [[<- <-]|[Hne Hq']].
    + split_and!; [done| |].
      * unfold out_ok, dir_ok in *. by rewrite other_event.
      * right. left. split_and!; [done|done|apply last_event].
    + destruct (Hps q pb' Hq') as (? & ? & ?). unfold out_ok, in_ok, dir_ok in *.
      by rewrite !other_pipe.
Qed.

(** Removing a pipe: the protocol's part, then the statistics. *)
Lemma xrm_step self (ps : pipemap) evs p :
  xinv (Xsys self ps evs) -> is_Some (ps !! p) -> Forall (fun e => fst e <> p) evs ->
  exists x st, nn_xreq_rm self p = Ret x /\
    nn_sock_stat_increment (stats x) NN_STAT_CURRENT_CONNECTIONS (-1) = Ret st /\
    xinv (Xsys (Xreq (lb x) (fq x) st) (delete p ps) evs).
Proof.
  destruct self as [l f st]. intros (la & fa & Hl & Hf & Hnd & Hev & Hps & Hc & Hsz) [pb Hp] Hno.
  cbn [lb fq stats] in *. assert (Hpd : p ∈ dom ps) by by apply elem_of_dom_2 in Hp.
  unfold nn_xreq_rm, nn_lb_rm, nn_fq_rm. cbn [lb fq stats].
  destruct (s_rm_ok _ _ _ p Hl Hpd) as (l' & -> & Hl').
  destruct (s_rm_ok _ _ _ p Hf Hpd) as (f' & -> & Hf'). cbn [mbind outcome_bind].
  destruct (stat_snd_priority st (nn_lb_get_priority l')) as (st1 & -> & _ & Hc1).
  { apply (s_get_priority_ok _ _ _ Hl'). }
  cbn [mbind outcome_bind]. assert (Hszp : (0 < base.size ps)%nat).
  { destruct (base.size ps) eqn:E; [|lia]. apply map_size_empty_inv in E. subst. by rewrite lookup_empty in Hp. }
  destruct (stat_connections st1 (-1)) as (st2 & Hst2 & Hc2 & _);
    [lia|unfold INT_MAX; lia|unfold INT_MAX; lia|].
  eexists _, st2. split; [reflexivity|]. split; [done|].
  exists (la ∖ {[p]}), (fa ∖ {[p]}). rewrite dom_delete_L. cbn [lb fq stats].
  split_and!; try done.
  - intros q e He. rewrite Forall_forall in Hno. specialize (Hno _ He). apply Hev in He. set_solver.
  - intros q pb' Hq. apply lookup_delete_Some in Hq as [Hne Hq].
    destruct (Hps q pb' Hq) as (? & ? & ?). split; [done|].
    assert (Hm : forall X : gset loc, q ∈ X ∖ {[p]} <-> q ∈ X) by set_solver.
    unfold out_ok, in_ok, dir_ok in *. by rewrite !Hm.
  - rewrite Hc2, Hc1, Hc, map_size_delete_Some by eauto. lia.
  - rewrite map_size_delete_Some by eauto. lia.
Qed.

Lemma xinv_stop s p :
  xinv s -> xenabled s (XStop p) -> exists s', xstep s (XStop p) = Ret s' /\ xinv s'.
Proof.
  destruct s as [self ps evs]. intros Hinv [[pb Hp] Hno].
  destruct (xrm_step self ps evs p Hinv) as (x & st & Hx & Hst & Hinv'); [eauto|done|].
  destruct Hinv as (la & fa & _ & _ & _ & _ & Hps & _). destruct (Hps p pb Hp) as (Hact & _).
  cbn [xstep]. load Hp. unfold nn_pipebase_stop. rewrite decide_True by done.
  unfold nn_sock_rm. rewrite Hx. cbn [mbind outcome_bind]. rewrite Hst.
  cbn [mbind outcome_bind]. unfold nn_pipebase_term. cbn [state].
  rewrite bool_decide_eq_true_2 by done. cbn [check mbind outcome_bind]. eauto.
Qed.

(** Delivering an event of a pipe activates it. *)
Lemma in_step self ps evs p :
  xinv (Xsys self ps ((p, NN_PIPE_IN) :: evs)) ->
  exists self', nn_xreq_in self p = Ret self' /\ xinv (Xsys self' ps evs).
Proof.
  destruct self as [l f st]. intros (la & fa & Hl & Hf & Hnd & Hev & Hps & Hc & Hsz). cbn [lb fq stats] in *.
  apply NoDup_cons in Hnd as [Hpe Hnd]. assert (Hpd : p ∈ dom ps) by (apply (Hev p NN_PIPE_IN); by left).
  apply elem_of_dom in Hpd as Hp. destruct Hp as [pb Hp]. destruct (Hps p pb Hp) as (Hst & Hout & Hin).
  destruct Hin as [(_ & _ & Hn)|[(Hidle & Hfa & _)|(_ & _ & Hn)]]; [by destruct Hn; left| |by destruct Hn; left].
  unfold nn_xreq_in, nn_fq_in. cbn [fq lb stats].
  destruct (s_activate_ok _ _ _ p Hf Hpd Hfa) as (f' & -> & Hf'). cbn [mbind outcome_bind].
  eexists. split; [reflexivity|]. exists la, ({[p]} ∪ fa). cbn [lb fq stats]. split_and!; try done.
  { intros q e' He. apply (Hev q e'). by right. }
  intros q pb' Hq'. destruct (Hps q pb' Hq') as (Hs' & Ho' & Hi'). split_and!; [done| |].
  - unfold out_ok, dir_ok in *. rewrite later_event in Ho' by done. done.
  - destruct (decide (q = p)) as [->|Hqp].
    + left. assert (pb' = pb) as -> by congruence. split_and!; [done|set_solver|done].
    + unfold in_ok, dir_ok in *. rewrite later_event in Hi' by congruence.
      assert (Hm : q ∈ {[p]} ∪ fa <-> q ∈ fa) by set_solver. by rewrite Hm.
Qed.

Lemma out_step self ps evs p :
  xinv (Xsys self ps ((p, NN_PIPE_OUT) :: evs)) ->
  exists self', nn_xreq_out self p = Ret self' /\ xinv (Xsys self' ps evs) /\ nn_lb_can_send (lb self') = 1.
Proof.
  destruct self as [l f st]. intros (la & fa & Hl & Hf & Hnd & Hev & Hps & Hc & Hsz). cbn [lb fq stats] in *.
  apply NoDup_cons in Hnd as [Hpe Hnd]. assert (Hpd : p ∈ dom ps) by (apply (Hev p NN_PIPE_OUT); by left).
  apply elem_of_dom in Hpd as Hp. destruct Hp as [pb Hp]. destruct (Hps p pb Hp) as (Hst & Hout & Hin).
  destruct Hout as [(_ & _ & Hn)|[(Hidle & Hla & _)|(_ & _ & Hn)]]; [by destruct Hn; left| |by destruct Hn; left].
  unfold nn_xreq_out, nn_lb_out. cbn [fq lb stats].
  destruct (s_activate_ok _ _ _ p Hl Hpd Hla) as (l' & -> & Hl'). cbn [mbind outcome_bind].
  destruct (stat_snd_priority st (nn_lb_get_priority l')) as (st1 & -> & _ & Hc1).
  { apply (s_get_priority_ok _ _ _ Hl'). }
  cbn [mbind outcome_bind]. eexists. split; [reflexivity|]. split.
  - exists ({[p]} ∪ la), fa. cbn [lb fq stats]. split_and!; try done.
    { intros q e' He. apply (Hev q e'). by right. }
    2: { by rewrite Hc1. }
    intros q pb' Hq'. destruct (Hps q pb' Hq') as (Hs' & Ho' & Hi'). split_and!; [done| |].
    + destruct (decide (q = p)) as [->|Hqp].
      * left. assert (pb' = pb) as -> by congruence. split_and!; [done|set_solver|done].
      * unfold out_ok, dir_ok in *. rewrite later_event in Ho' by congruence.
        assert (Hm : q ∈ {[p]} ∪ la <-> q ∈ la) by set_solver. by rewrite Hm.
    + unfold in_ok, dir_ok in *. rewrite later_event in Hi' by done. done.
  - cbn [lb]. unfold nn_lb_can_send. rewrite (s_is_active_ok _ _ _ Hl'). rewrite decide_False; [done|set_solver].
Qed.

Lemma xinv_deliver s :
  xinv s -> xenabled s XDeliver -> exists s', xstep s XDeliver = Ret s' /\ xinv s'.
Proof.
  destruct s as [self ps [|[p []] evs]]; intros Hinv Hne; [done| |]; cbn [xstep].
  - destruct (in_step _ _ _ _ Hinv) as (self' & -> & Hinv'). cbn [mbind outcome_bind]. eauto.
  - destruct (out_step _ _ _ _ Hinv) as (self' & -> & Hinv' & _). cbn [mbind outcome_bind]. eauto.
Qed.

(** Every active pipe can be written to, and read. *)
Lemma lb_ready_of l (ps : pipemap) evs (la fa : gset loc) :
  s_inv l (dom ps) la ->
  (forall p pb, ps !! p = Some pb -> state pb = P_ACTIVE /\ out_ok la evs p pb /\ in_ok fa evs p pb) ->
  lb_ready l ps (dom ps) la.
Proof.
  intros Hl Hps. split; [done|]. intros p Hp. pose proof (s_inv_sub _ _ _ Hl p Hp) as Hd.
  apply elem_of_dom in Hd as [pb Hpb]. exists pb. split; [done|].
  destruct (Hps _ _ Hpb) as (_ & Ho & _). unfold out_ok, dir_ok in Ho. tauto.
Qed.

Lemma fq_ready_of f (ps : pipemap) evs (la fa : gset loc) :
  s_inv f (dom ps) fa ->
  (forall p pb, ps !! p = Some pb -> state pb = P_ACTIVE /\ out_ok la evs p pb /\ in_ok fa evs p pb) ->
  fq_ready f ps (dom ps) fa.
Proof.
  intros Hf Hps. split; [done|]. intros p Hp. pose proof (s_inv_sub _ _ _ Hf p Hp) as Hd.
  apply elem_of_dom in Hd as [pb Hpb]. exists pb. split; [done|].
  destruct (Hps _ _ Hpb) as (_ & _ & Hi). unfold in_ok, dir_ok in Hi. tauto.
Qed.

(** The pipes after one of them was written to, with or without delay. *)
Lemma ready_after (X : gset loc) (b : bool) (p q : loc) :
  q <> p -> q ∈ (if b then X else X ∖ {[p]}) <-> q ∈ X.
Proof. destruct b; set_solver. Qed.

(** A send finds no pipe it can write to, or writes to one. *)
Lemma send_step self ps evs ans :
  xinv (Xsys self ps evs) -> (forall p, good_answer (ans p)) ->
  (nn_xreq_send_to self ps ans = Ret (self, ps, - EAGAIN, None) /\ nn_lb_can_send (lb self) = 0) \/
  exists p pb self', ps !! p = Some pb /\
    let ps' := <[p := set_out pb (if sync (ans p) then OUT_IDLE else OUT_ASYNC)]> ps in
    nn_xreq_send_to self ps ans = Ret (self', ps', 0, Some p) /\ xinv (Xsys self' ps' evs) /\
    fq self' = fq self.
Proof.
  destruct self as [l f st]. intros Hinv Hans.
  pose proof Hinv as (la & fa & Hl & Hf & Hnd & Hev & Hps & Hc & Hsz). cbn [lb fq stats] in *.
  unfold nn_xreq_send_to. cbn [lb fq stats].
  destruct (lb_send_spec l ps (dom ps) la ans) as [[-> ->]|(p & pb & l' & Hp & Hpb & Ho & -> & Hl')].
  { by eapply lb_ready_of. }
  { auto. }
  - left. cbn [mbind outcome_bind]. rewrite Z.eqb_refl. split; [done|].
    unfold nn_lb_can_send. by rewrite (s_is_active_ok _ _ _ Hl), decide_True.
  - right. exists p, pb. cbn [mbind outcome_bind]. destruct (Hans p) as [Hrc _].
    rewrite (proj2 (Z.eqb_neq _ _)) by (unfold EAGAIN; lia). rewrite (proj2 (Z.geb_le _ _) Hrc).
    cbn [check mbind outcome_bind]. eexists. split; [done|]. split; [reflexivity|]. split; [|done].
    destruct (dom_insert_same ps p pb (set_out pb (if sync (ans p) then OUT_IDLE else OUT_ASYNC)) Hpb)
      as [Hdom Hsize].
    eexists _, fa. rewrite Hdom, Hsize. cbn [lb fq stats]. split; [exact Hl'|]. split_and!; try done.
    intros q pb' Hq. destruct (decide (q = p)) as [->|Hne].
    + rewrite lookup_insert_eq in Hq. injection Hq as <-. destruct (Hps _ _ Hpb) as (Hst & Hout & Hin).
      split_and!; [done| |done]. unfold out_ok, dir_ok in *. cbn [outstate set_out].
      assert (~ ((p, NN_PIPE_OUT) ∈ evs)) by naive_solver.
      destruct (sync (ans p)); [left; tauto|right; right]. split; [done|]. split; [set_solver|done].
    + rewrite lookup_insert_ne in Hq by done. destruct (Hps _ _ Hq) as (? & ? & ?).
      unfold out_ok, dir_ok in *. by rewrite !ready_after.
Qed.

Lemma xinv_send s ans :
  xinv s -> xenabled s (XSend ans) -> exists s', xstep s (XSend ans) = Ret s' /\ xinv s'.
Proof.
  destruct s as [self ps evs]. intros Hinv Hans. cbn [xstep]. unfold nn_xreq_send.
  destruct (send_step self ps evs ans Hinv Hans) as [[-> _]|(p & pb & self' & _ & -> & Hinv' & _)];
    cbn [mbind outcome_bind]; eauto.
Qed.

(** A message that is parsed, or long enough, is split. *)
Lemma split_spec r m :
  (Z.land r NN_PIPE_PARSED = 0 -> sphdr m = []) ->
  nn_xreq_split r m = Ret
    (if negb (Z.land r NN_PIPE_PARSED =? 0) then Some m
     else if size (body m) <? 4 then None
     else Some (Msg (take 4 (body m)) (drop 4 (body m)))).
Proof.
  intros Hm. unfold nn_xreq_split. destruct (Z.eqb_spec (Z.land r NN_PIPE_PARSED) 0) as [E|]; [|done].
  cbn [negb]. destruct (Z.ltb_spec (size (body m)) 4); [done|]. rewrite Hm by done.
  cbn [check mbind outcome_bind]. change (size [] =? 0) with true. cbn [check mbind outcome_bind].
  by rewrite trim_ok by lia.
Qed.

(** What a receive does with the message it got. *)
Definition split_result (a : answer nn_msg) : Z * received :=
  if negb (Z.land (rc a) NN_PIPE_PARSED =? 0) then (0, Received (message a))
  else if size (body (message a)) <? 4 then (- EAGAIN, Terminated)
  else (0, Received (Msg (take 4 (body (message a))) (drop 4 (body (message a))))).

(** A receive finds no pipe it can read, or reads one. *)
Lemma recv_step self ps evs ans :
  xinv (Xsys self ps evs) -> (forall p, good_recv (ans p)) ->
  (nn_xreq_recv self ps ans = Ret (self, ps, - EAGAIN, Untouched) /\ nn_fq_can_recv (fq self) = 0) \/
  exists p pb self', s_getpipe (fq self) = Ret (Some p) /\ ps !! p = Some pb /\ instate pb = IN_IDLE /\
    let ps' := <[p := set_in pb (if sync (ans p) then IN_IDLE else IN_ASYNC)]> ps in
    nn_xreq_recv self ps ans =
      Ret (self', ps', fst (split_result (ans p)), snd (split_result (ans p))) /\
    xinv (Xsys self' ps' evs) /\ lb self' = lb self.
Proof.
  destruct self as [l f st]. intros Hinv Hans.
  pose proof Hinv as (la & fa & Hl & Hf & Hnd & Hev & Hps & Hc & Hsz).
  cbn [lb fq stats] in *. unfold nn_xreq_recv. cbn [lb fq stats].
  destruct (fq_recv_spec f ps (dom ps) fa ans) as [[-> ->]|(p & pb & f' & Hg & Hp & Hpb & Ho & -> & Hf')].
  { by eapply fq_ready_of. }
  { intros p _. apply Hans. }
  - left. cbn [mbind outcome_bind]. rewrite Z.eqb_refl. split; [done|].
    unfold nn_fq_can_recv. by rewrite (s_is_active_ok _ _ _ Hf), decide_True.
  - right. exists p, pb. cbn [mbind outcome_bind]. destruct (Hans p) as [[Hrc _] Hhd].
    rewrite (proj2 (Z.eqb_neq _ _)) by (unfold EAGAIN; lia). rewrite (proj2 (Z.geb_le _ _) Hrc).
    cbn [check mbind outcome_bind]. rewrite split_spec by done. cbn [mbind outcome_bind].
    exists (Xreq l f' st). split; [done|]. split; [done|]. split; [done|]. split.
    { unfold split_result. destruct (negb _); [done|]. by destruct (_ <? 4). }
    split; [|done].
    destruct (dom_insert_same ps p pb (set_in pb (if sync (ans p) then IN_IDLE else IN_ASYNC)) Hpb)
      as [Hdom Hsize].
    eexists la, _. rewrite Hdom, Hsize. cbn [lb fq stats]. split; [done|].
    split; [exact Hf'|]. split_and!; try done.
    intros q pb' Hq. destruct (decide (q = p)) as [->|Hne].
    + rewrite lookup_insert_eq in Hq. injection Hq as <-. destruct (Hps _ _ Hpb) as (Hst & Hout & Hin).
      split_and!; [done|done|]. unfold in_ok, dir_ok in *. cbn [instate set_in].
      assert (~ ((p, NN_PIPE_IN) ∈ evs)) by naive_solver.
      destruct (sync (ans p)); [left; tauto|right; right]. split; [done|]. split; [set_solver|done].
    + rewrite lookup_insert_ne in Hq by done. destruct (Hps _ _ Hq) as (? & ? & ?).
      unfold in_ok, dir_ok in *. by rewrite !ready_after.
Qed.

Lemma xinv_recv s ans :
  xinv s -> xenabled s (XRecv ans) -> exists s', xstep s (XRecv ans) = Ret s' /\ xinv s'.
Proof.
  destruct s as [self ps evs]. intros Hinv Hans. cbn [xstep].
  destruct (recv_step self ps evs ans Hinv Hans) as [[-> _]|(p & pb & self' & _ & _ & _ & -> & Hinv' & _)];
    cbn [mbind outcome_bind]; eauto.
Qed.

Lemma xinv_step s l : xinv s -> xenabled s l -> exists s', xstep s l = Ret s' /\ xinv s'.
Proof.
  destruct l; eauto using xinv_start, xinv_stop, xinv_sent, xinv_received, xinv_deliver,
    xinv_send, xinv_recv.
Qed.

Inductive xreach : xsys -> Prop :=
| xreach_init : xreach (Xsys nn_xreq_init ∅ [])
| xreach_step s l s' : xreach s -> xenabled s l -> xstep s l = Ret s' -> xreach s'.

Lemma xreach_inv s : xreach s -> xinv s.
Proof.
  induction 1 as [|s l s' _ IH He Hs]; [apply xinv_init|].
  destruct (xinv_step s l IH He) as (s'' & Hs' & Hinv). congruence.
Qed.
End system.

(** Whatever the order in which connections come and go, the transports
    finish their work, queued events are processed and the application sends
    and receives, no assertion of the raw REQ socket, of its pipes, of the
    load balancer and the fair queue or of the statistics ever fails, and no
    pointer is followed that does not lead to a pipe; and the connection
    statistic is the number of pipes. *)
Theorem xreq_never_fails {S} `{SchedulerLaws S} (s : xsys (S := S)) (l : xlabel) :
  xreach s -> xenabled s l ->
  exists s', xstep s l = Ret s' /\
    current_connections (stats (sock s')) = Z.of_nat (base.size (ps s')).
Proof.
  intros Hr He. destruct (xinv_step s l (xreach_inv s Hr) He) as (s' & Hs & Hinv).
  exists s'. split; [done|]. destruct s' as [self ps evs].
  by destruct Hinv as (la & fa & _ & _ & _ & _ & _ & Hc & _).
Qed.

(** A connection is established, the pipe can be written to and the
    application sends; the transport is slow. *)
Lemma xreq_never_fails_witness :
  let o := EpOptions 8 8 1 in
  let ans := fun _ : loc => Answer 0 false tt in
  exists s1 s2 s3 : xsys (S := priosched),
    xreach s2 /\ xenabled s2 (XSend ans) /\ xstep s2 (XSend ans) = Ret s3 /\
    xstep s1 XDeliver = Ret s2 /\
    current_connections (stats (sock s3)) = Z.of_nat (base.size (ps s3)).
Proof.
  intros o ans.
  assert (H0 : xreach (S := priosched) (Xsys nn_xreq_init ∅ [])) by constructor.
  assert (E0 : xenabled (S := priosched) (Xsys nn_xreq_init ∅ []) (XStart 1%positive o)).
  { cbn. split; [reflexivity|]. split; [|reflexivity]. unfold valid_opts. cbn. lia. }
  destruct (xreq_never_fails _ _ H0 E0) as (s1 & Hs1 & _).
  pose proof (xreach_step _ _ _ H0 E0 Hs1) as H1.
  assert (E1 : xenabled s1 XDeliver).
  { vm_compute in Hs1. injection Hs1 as <-. done. }
  destruct (xreq_never_fails _ _ H1 E1) as (s2 & Hs2 & _).
  pose proof (xreach_step _ _ _ H1 E1 Hs2) as H2.
  assert (E2 : xenabled s2 (XSend ans)).
  { destruct s2. intros p. split; [reflexivity|reflexivity]. }
  destruct (xreq_never_fails _ _ H2 E2) as (s3 & Hs3 & Hc).
  exists s1, s2, s3. auto.
Defined.
