(* ===== verification/Req.v ===== *)
(** * Req: the REQ socket (src/protocols/reqrep/req.c)

    A REQ socket keeps one request: it sends it through its raw REQ socket,
    re-sends it when the timer expires or the pipe it went to is closed, and
    stores the reply until the application takes it.  [rstep] runs the socket
    with its pipes, its timer and the worker thread.

    [req_never_fails] shows that no state gets an event it does not expect and
    that no assertion fails, but for three things the code does not guard:
    a negative re-send interval ([req_negative_interval]), a reply that is read
    after a later one was thrown away ([req_reply_lost]), and a reply that is
    not noticed because the pipe was left unread ([req_reply_unnoticed]). *)

From stdpp Require Import base gmap list sets.
From Stdlib Require Import ZArith Lia.
From S2P Require Import Prelude ListHeap Priolist Sched Pipe Lb Fq Sock Wire Message Fsm Timer Inbox SockBase Xreq.

Open Scope Z_scope.

(** ** Data *)

Inductive req_state : Type :=
| REQ_IDLE | REQ_PASSIVE | REQ_DELAYED | REQ_ACTIVE | REQ_TIMED_OUT | REQ_CANCELLING
| REQ_STOPPING_TIMER | REQ_DONE | REQ_STOPPING.

#[export] Instance req_state_eq_dec : EqDecision req_state.
Proof. solve_decision. Defined.

Definition NN_REQ_DEFAULT_RESEND_IVL : Z := 60000.
Definition NN_REQ_ACTION_IN : Z := 2.
Definition NN_REQ_ACTION_OUT : Z := 3.
Definition NN_REQ_ACTION_SENT : Z := 4.
Definition NN_REQ_ACTION_RECEIVED : Z := 5.
Definition NN_REQ_ACTION_PIPE_RM : Z := 6.
Definition NN_REQ_SRC_RESEND_TIMER : Z := 1.
Definition NN_REQ : Z := 3 * 16 + 0.
Definition NN_REQ_RESEND_IVL : Z := 1.

(** [reply] is [None] when the message was terminated and not initialised
    again: its body, unless it is small enough to be kept inside the structure,
    is freed memory then. *)
Record nn_task : Type := Task {
  id : Z; request : nn_msg; reply : option nn_msg; timer : nn_timer; sent_to : option loc
}.

(** [stopped] says that [nn_sockbase_stopped] was called. *)
Record nn_req (S : Type) : Type := Req {
  xreq : nn_xreq S; rfsm : nn_fsm; state : req_state; lastid : Z; resend_ivl : Z;
  task : nn_task; stopped : bool
}.
Arguments Req {S}.
Arguments xreq {S}.
Arguments rfsm {S}.
Arguments state {S}.
Arguments lastid {S}.
Arguments resend_ivl {S}.
Arguments task {S}.
Arguments stopped {S}.

Definition set_reply (t : nn_task) (r : option nn_msg) : nn_task :=
  Task (id t) (request t) r (timer t) (sent_to t).
Definition set_timer (t : nn_task) (tm : nn_timer) : nn_task :=
  Task (id t) (request t) (reply t) tm (sent_to t).
Definition set_sent_to (t : nn_task) (p : option loc) : nn_task :=
  Task (id t) (request t) (reply t) (timer t) p.

Section req.
  Context {S : Type} `{Scheduler S}.

Definition set_state (self : nn_req S) (st : req_state) : nn_req S :=
  Req (xreq self) (rfsm self) st (lastid self) (resend_ivl self) (task self) (stopped self).
Definition set_rfsm (self : nn_req S) (f : nn_fsm) : nn_req S :=
  Req (xreq self) f (state self) (lastid self) (resend_ivl self) (task self) (stopped self).
Definition set_xreq (self : nn_req S) (x : nn_xreq S) : nn_req S :=
  Req x (rfsm self) (state self) (lastid self) (resend_ivl self) (task self) (stopped self).
Definition set_task (self : nn_req S) (t : nn_task) : nn_req S :=
  Req (xreq self) (rfsm self) (state self) (lastid self) (resend_ivl self) t (stopped self).

(** The state machine also writes to pipes, which answer with [ans]. *)
Abbreviation robj := (nn_req S * pipemap)%type.

(** ** The state machine *)

Section handlers.
  Context (ans : loc -> answer unit).

Definition nn_req_action_send (o : robj) (allow_delay : Z) : outcome robj :=
  let '(self, ps) := o in
  '(x, ps, rc, to) ← nn_xreq_send_to (xreq self) ps ans;
  let self := set_xreq self x in
  if rc =? - EAGAIN then
    _ ← check (allow_delay =? 1);
    Ret (set_state self REQ_DELAYED, ps)
  else if rc =? 0 then
    t ← nn_timer_start (timer (task self)) (resend_ivl self);
    _ ← check (match to with Some _ => true | None => false end);
    let self := set_task self (set_sent_to (set_timer (task self) t) to) in
    Ret (set_state self REQ_ACTIVE, ps)
  else Abort.

(** [nn_timer_stop] on the timer, forget the pipe and go to the state [st]. *)
Definition stop_timer (o : robj) (st : req_state) : outcome robj :=
  let '(self, ps) := o in
  t ← nn_timer_stop (timer (task self));
  let self := set_task self (set_sent_to (set_timer (task self) t) None) in
  Ret (set_state self st, ps).

Definition nn_req_handler (o : robj) (src type srcptr : Z) : outcome robj :=
  let '(self, ps) := o in
  match state self with
  | REQ_IDLE =>
      if src =? NN_FSM_ACTION then
        if type =? NN_FSM_START then Ret (set_state self REQ_PASSIVE, ps) else Abort
      else Abort
  | REQ_PASSIVE =>
      if src =? NN_FSM_ACTION then
        if type =? NN_REQ_ACTION_SENT then nn_req_action_send o 1 else Abort
      else Abort
  | REQ_DELAYED =>
      if src =? NN_FSM_ACTION then
        if type =? NN_REQ_ACTION_OUT then nn_req_action_send o 0
        else if type =? NN_REQ_ACTION_SENT then Ret o
        else Abort
      else Abort
  | REQ_ACTIVE =>
      if src =? NN_FSM_ACTION then
        if type =? NN_REQ_ACTION_IN then stop_timer o REQ_STOPPING_TIMER
        else if type =? NN_REQ_ACTION_SENT then stop_timer o REQ_CANCELLING
        else if type =? NN_REQ_ACTION_PIPE_RM then stop_timer o REQ_TIMED_OUT
        else Abort
      else if src =? NN_REQ_SRC_RESEND_TIMER then
        if type =? NN_TIMER_TIMEOUT then stop_timer o REQ_TIMED_OUT else Abort
      else Abort
  | REQ_TIMED_OUT =>
      if src =? NN_REQ_SRC_RESEND_TIMER then
        if type =? NN_TIMER_STOPPED then nn_req_action_send o 1 else Abort
      else if src =? NN_FSM_ACTION then
        if type =? NN_REQ_ACTION_SENT then Ret (set_state self REQ_CANCELLING, ps) else Abort
      else Abort
  | REQ_CANCELLING =>
      if src =? NN_REQ_SRC_RESEND_TIMER then
        if type =? NN_TIMER_STOPPED then nn_req_action_send o 1 else Abort
      else if src =? NN_FSM_ACTION then
        if type =? NN_REQ_ACTION_SENT then Ret o else Abort
      else Abort
  | REQ_STOPPING_TIMER =>
      if src =? NN_REQ_SRC_RESEND_TIMER then
        if type =? NN_TIMER_STOPPED then Ret (set_state self REQ_DONE, ps) else Abort
      else if src =? NN_FSM_ACTION then
        if type =? NN_REQ_ACTION_SENT then Ret (set_state self REQ_CANCELLING, ps) else Abort
      else Abort
  | REQ_DONE =>
      if src =? NN_FSM_ACTION then
        if type =? NN_REQ_ACTION_RECEIVED then Ret (set_state self REQ_PASSIVE, ps)
        else if type =? NN_REQ_ACTION_SENT then nn_req_action_send o 1
        else Abort
      else Abort
  | REQ_STOPPING => Abort
  end.

(** The second half: wait for the timer, then report the end. *)
Definition nn_req_stopping (o : robj) : outcome robj :=
  let '(self, ps) := o in
  if negb (nn_timer_isidle (timer (task self))) then Ret o else
  let self := set_state self REQ_IDLE in
  f ← nn_fsm_stopped_noevent (rfsm self);
  Ret (Req (xreq self) f (state self) (lastid self) (resend_ivl self) (task self) true, ps).

Definition nn_req_shutdown (o : robj) (src type srcptr : Z) : outcome robj :=
  let '(self, ps) := o in
  if (src =? NN_FSM_ACTION) && (type =? NN_FSM_STOP) then
    t ← nn_timer_stop (timer (task self));
    nn_req_stopping (set_state (set_task self (set_timer (task self) t)) REQ_STOPPING, ps)
  else if decide (state self = REQ_STOPPING) then nn_req_stopping o
  else Abort.

#[local] Instance req_object : FsmObject robj := {|
  fsm o := rfsm (fst o);
  with_fsm o f := (set_rfsm (fst o) f, snd o);
  fn := nn_req_handler;
  shutdown_fn := nn_req_shutdown
|}.

(** ** Calls of the socket *)

Definition nn_req_init (random : Z) : outcome (nn_req S) :=
  let self := Req nn_xreq_init nn_fsm_init REQ_IDLE random NN_REQ_DEFAULT_RESEND_IVL
    (Task random (Msg [] []) (Some (Msg [] [])) nn_timer_init None) false in
  fst <$> nn_fsm_start ((self, ∅) : robj).

Definition nn_msg_term (m : option nn_msg) : outcome unit :=
  match m with Some _ => Ret tt | None => Undef end.

Definition nn_req_term (self : nn_req S) : outcome unit :=
  _ ← nn_timer_term (timer (task self));
  _ ← nn_msg_term (reply (task self));
  _ ← nn_fsm_term (rfsm self);
  nn_xreq_term (xreq self).

Definition nn_req_stop (o : robj) : outcome robj := nn_fsm_stop o.

Definition nn_req_inprogress (self : nn_req S) : bool :=
  match state self with REQ_IDLE | REQ_PASSIVE | REQ_STOPPING => false | _ => true end.

(** Whether the message is the reply to the current request. *)
Definition is_reply (self : nn_req S) (m : nn_msg) : outcome bool :=
  if negb (nn_req_inprogress self) then Ret false else
  if negb (size (sphdr m) =? 4) then Ret false else
  reqid ← nn_getl (sphdr m);
  if Z.land reqid (2 ^ 31) =? 0 then Ret false else
  Ret (reqid =? Z.lor (id (task self)) (2 ^ 31)).

Definition next_pipe (self : nn_req S) : option loc :=
  match s_getpipe (fq (xreq self)) with Ret o => o | _ => None end.

(** The loop of [nn_req_in]: every round takes a message from a transport. *)
Fixpoint read_replies (fuel : nat) (self : nn_req S) (ps : pipemap) (ib : inbox)
    : outcome (nn_req S * pipemap * inbox) :=
  match fuel with
  | O => NoFuel
  | Datatypes.S fuel =>
      '(x, ps, rc, got) ← nn_xreq_recv (xreq self) ps (receive ib);
      let taken := take_message ib (next_pipe self) in
      let self := set_xreq self x in
      match got with
      | Untouched => if rc =? - EAGAIN then Ret (self, ps, ib) else Undef
      | Terminated =>
          if rc =? - EAGAIN then Ret (set_task self (set_reply (task self) None), ps, taken) else Undef
      | Received m =>
          if rc =? - EAGAIN then Undef else
          _ ← check (rc =? 0);
          hit ← is_reply self m;
          if negb hit then read_replies fuel (set_task self (set_reply (task self) None)) ps taken else
          let self := set_task self (set_reply (task self) (Some (Msg [] (body m)))) in
          if decide (state self = REQ_ACTIVE) then
            '(self, ps) ← nn_fsm_action ((self, ps) : robj) NN_REQ_ACTION_IN;
            Ret (self, ps, taken)
          else Ret (self, ps, taken)
      end
  end.

Definition nn_req_in (self : nn_req S) (ps : pipemap) (ib : inbox) (p : loc)
    : outcome (nn_req S * pipemap * inbox) :=
  x ← nn_xreq_in (xreq self) p;
  read_replies (Datatypes.S (pending ib)) (set_xreq self x) ps ib.

Definition nn_req_out (o : robj) (p : loc) : outcome robj :=
  let '(self, ps) := o in
  x ← nn_xreq_out (xreq self) p;
  let self := set_xreq self x in
  if decide (state self = REQ_DELAYED)
  then nn_fsm_action ((self, ps) : robj) NN_REQ_ACTION_OUT else Ret (self, ps).

Definition nn_req_events (self : nn_req S) : Z :=
  Z.lor NN_SOCKBASE_EVENT_OUT (if decide (state self = REQ_DONE) then NN_SOCKBASE_EVENT_IN else 0).

Definition nn_req_csend (o : robj) (msg : nn_msg) : outcome (robj * Z) :=
  let '(self, ps) := o in
  let t := task self in
  let i := u32 (id t + 1) in
  _ ← check (size (sphdr msg) =? 0);
  hdr ← nn_putl [0; 0; 0; 0] (Z.lor i (2 ^ 31));
  let self := set_task self (Task i (Msg hdr (body msg)) (reply t) (timer t) (sent_to t)) in
  o ← nn_fsm_action ((self, ps) : robj) NN_REQ_ACTION_SENT;
  Ret (o, 0).

(** A terminated reply is moved to the caller all the same. *)
Definition nn_req_crecv (o : robj) : outcome (robj * Z * option nn_msg) :=
  let '(self, ps) := o in
  if negb (nn_req_inprogress self) then Ret (o, - EFSM, None) else
  if decide (state self <> REQ_DONE) then Ret (o, - EAGAIN, None) else
  match reply (task self) with
  | None => Undef
  | Some m =>
      let self := set_task self (set_reply (task self) (Some (Msg [] []))) in
      o ← nn_fsm_action ((self, ps) : robj) NN_REQ_ACTION_RECEIVED;
      Ret (o, 0, Some m)
  end.

Definition nn_req_setopt (self : nn_req S) (level opt : Z) (optval : list Z) : nn_req S * Z :=
  if negb (level =? NN_REQ) then (self, - ENOPROTOOPT) else
  if opt =? NN_REQ_RESEND_IVL then
    if negb (size optval =? 4) then (self, - EINVAL) else
    (Req (xreq self) (rfsm self) (state self) (lastid self) (bytes_int optval) (task self)
       (stopped self), 0)
  else (self, - ENOPROTOOPT).

(** The value is written to the caller's buffer of [len] bytes. *)
Definition nn_req_getopt (self : nn_req S) (level opt len : Z) : Z * list Z :=
  if negb (level =? NN_REQ) then (- ENOPROTOOPT, []) else
  if opt =? NN_REQ_RESEND_IVL then
    if len <? 4 then (- EINVAL, []) else (0, int_bytes (resend_ivl self))
  else (- ENOPROTOOPT, []).

Definition nn_req_rm (o : robj) (p : loc) : outcome robj :=
  let '(self, ps) := o in
  x ← nn_xreq_rm (xreq self) p;
  let self := set_xreq self x in
  if bool_decide (sent_to (task self) = Some p)
  then nn_fsm_action ((self, ps) : robj) NN_REQ_ACTION_PIPE_RM else Ret (self, ps).
End handlers.
End req.

(** ** The socket with its pipes, its timer and the application *)

Section system.
  Context {S : Type} `{SchedulerLaws S}.

Abbreviation robj := (nn_req S * pipemap)%type.

Record rsys : Type := Rsys {
  req : nn_req S; ps : pipemap; events : list (loc * pipe_event); ib : inbox; firing : bool
}.

(** [nn_sock_rm] of core/sock.c, for a REQ socket. *)
Definition nn_sock_rm (ans : loc -> answer unit) (p : loc) (o : robj) : outcome robj :=
  '(self, ps) ← nn_req_rm ans o p;
  let x := xreq self in
  st ← nn_sock_stat_increment (stats x) NN_STAT_CURRENT_CONNECTIONS (-1);
  Ret (set_xreq self (Xreq (lb x) (fq x) st), ps).

Inductive rlabel : Type :=
| QStart (p : loc) (opts : nn_ep_options)      (* a connection is established *)
| QStop (p : loc) (ans : loc -> answer unit)   (* ... and closed *)
| QSent (p : loc)                              (* the transport finished a send *)
| QArrive (p : loc) (rc : Z) (m : nn_msg)      (* the transport has got a message *)
| QDeliver (ans : loc -> answer unit)          (* the next event of a pipe *)
| QSend (ans : loc -> answer unit) (m : nn_msg)    (* nn_send *)
| QRecv (ans : loc -> answer unit)             (* nn_recv *)
| QSetopt (ivl : Z)                            (* nn_setsockopt *)
| QWorker (l : label)                          (* the worker thread *)
| QTimer (ans : loc -> answer unit)            (* the event the timer raised *)
| QClose (ans : loc -> answer unit).           (* the socket stops its protocol *)

Definition rstep (s : rsys) (l : rlabel) : outcome rsys :=
  let 'Rsys self ps evs ib fi := s in
  match l with
  | QStart p opts =>
      '(x, pb, _, ev) ← nn_pipebase_start (nn_pipebase_init opts) (nn_sock_add (xreq self) p);
      Ret (Rsys (set_xreq self x) (<[p := pb]> ps) (evs ++ of_pipe p ev) (<[p := []]> ib) fi)
  | QStop p ans =>
      pb ← deref ps p;
      '((self, ps), pb) ← nn_pipebase_stop pb (self, ps) (nn_sock_rm ans p);
      _ ← nn_pipebase_term pb;
      Ret (Rsys self (delete p ps) evs (delete p ib) fi)
  | QSent p =>
      pb ← deref ps p;
      '(pb, ev) ← nn_pipebase_sent pb;
      Ret (Rsys self (<[p := pb]> ps) (evs ++ of_pipe p ev) ib fi)
  | QArrive p rc m =>
      pb ← deref ps p;
      ms ← deref ib p;
      let ib := <[p := ms ++ [(rc, m)]]> ib in
      if decide (instate pb = IN_IDLE) then Ret (Rsys self ps evs ib fi) else
      '(pb, ev) ← nn_pipebase_received pb;
      Ret (Rsys self (<[p := pb]> ps) (evs ++ of_pipe p ev) ib fi)
  | QDeliver ans =>
      match evs with
      | [] => Undef
      | (p, NN_PIPE_IN) :: evs =>
          '(self, ps, ib) ← nn_req_in ans self ps ib p; Ret (Rsys self ps evs ib fi)
      | (p, NN_PIPE_OUT) :: evs =>
          '(self, ps) ← nn_req_out ans (self, ps) p; Ret (Rsys self ps evs ib fi)
      end
  | QSend ans m => '((self, ps), _) ← nn_req_csend ans (self, ps) m; Ret (Rsys self ps evs ib fi)
  | QRecv ans => '((self, ps), _, _) ← nn_req_crecv ans (self, ps); Ret (Rsys self ps evs ib fi)
  | QSetopt v =>
      Ret (Rsys (fst (nn_req_setopt self NN_REQ NN_REQ_RESEND_IVL (int_bytes v))) ps evs ib fi)
  | QWorker l =>
      ts ← step (Sys (timer (task self)) fi) l;
      Ret (Rsys (set_task self (set_timer (task self) (Timer.timer ts))) ps evs ib (Timer.firing ts))
  | QTimer ans =>
      let t := timer (task self) in
      match raised (tfsm t) with
      | [] => Undef
      | (_, type) :: rest =>
          let t := set_tfsm t (Fsm (fsm_st (tfsm t)) rest) in
          '(self, ps) ← @nn_fsm_feed robj (req_object ans) (set_task self (set_timer (task self) t), ps)
             NN_REQ_SRC_RESEND_TIMER type 0;
          Ret (Rsys self ps evs ib fi)
      end
  | QClose ans => '(self, ps) ← nn_req_stop ans (self, ps); Ret (Rsys self ps evs ib fi)
  end.

Definition is_worker (l : label) : Prop := l = LTask \/ l = LExpire \/ l = LFeed.

(** The event of the timer is delivered before the context is left, so nothing
    else comes between; a socket that stops its protocol has no pipes and no
    callers any more. *)
Definition open (s : rsys) : Prop :=
  raised (tfsm (timer (task (req s)))) = [] /\
  state (req s) <> REQ_IDLE /\ state (req s) <> REQ_STOPPING.

Definition renabled (s : rsys) (l : rlabel) : Prop :=
  match l with
  | QStart p opts =>
      open s /\ ps s !! p = None /\ valid_opts opts /\ Z.of_nat (Datatypes.S (base.size (ps s))) < 2 ^ 31
  | QStop p _ => open s /\ is_Some (ps s !! p) /\ Forall (fun e => fst e <> p) (events s)
  | QSent p => open s /\ exists pb, ps s !! p = Some pb /\ outstate pb = OUT_ASYNC
  | QArrive p rc m => open s /\ is_Some (ps s !! p) /\ good_msg (rc, m)
  | QDeliver ans => open s /\ events s <> [] /\ forall p, good_answer (ans p)
  | QSend ans m => open s /\ sphdr m = [] /\ forall p, good_answer (ans p)
  | QRecv _ => open s /\ (state (req s) = REQ_DONE -> reply (task (req s)) <> None)
  | QSetopt v => open s /\ 0 <= v < 2 ^ 31
  | QWorker l => is_worker l /\ enabled (Sys (timer (task (req s))) (firing s)) l = true
  | QTimer ans => raised (tfsm (timer (task (req s)))) <> [] /\ forall p, good_answer (ans p)
  | QClose _ => open s /\ ps s = ∅
  end.

(** ** The invariant *)

Definition running (self : nn_req S) : Prop := rfsm self = Fsm FSM_ACTIVE [] /\ stopped self = false.

Definition timer_stops (t : nn_timer) : Prop :=
  looks t FSM_STOPPING [] \/ looks t FSM_IDLE [(0, NN_TIMER_STOPPED)].

(** In which states the timer runs, and where the request is. *)
Definition life (self : nn_req S) (ps : pipemap) : Prop :=
  let t := timer (task self) in
  match state self with
  | REQ_PASSIVE | REQ_DELAYED | REQ_DONE =>
      running self /\ looks t FSM_IDLE [] /\ sent_to (task self) = None
  | REQ_ACTIVE =>
      running self /\
      (looks t FSM_ACTIVE [] \/ looks t FSM_ACTIVE [(EV_DONE, NN_TIMER_TIMEOUT)]) /\
      exists p, sent_to (task self) = Some p /\ is_Some (ps !! p)
  | REQ_TIMED_OUT | REQ_CANCELLING | REQ_STOPPING_TIMER =>
      running self /\ timer_stops t /\ sent_to (task self) = None
  | REQ_STOPPING => rfsm self = Fsm FSM_STOPPING [] /\ timer_stops t /\ ps = ∅ /\ stopped self = false
  | REQ_IDLE => rfsm self = Fsm FSM_IDLE [] /\ looks t FSM_IDLE [] /\ ps = ∅ /\ stopped self = true
  end.

Definition rinv (s : rsys) : Prop :=
  let 'Rsys self ps evs ib fi := s in
  xinv (Xsys (xreq self) ps evs) /\ inv (Sys (timer (task self)) fi) /\
  0 <= resend_ivl self /\ life self ps /\ inbox_ok ps ib.

Lemma send_insert_Some (ps : pipemap) p pb q :
  is_Some (ps !! q) -> is_Some (<[p := pb]> ps !! q).
Proof. intros Hq. destruct (decide (q = p)) as [->|]; [rewrite lookup_insert_eq|rewrite lookup_insert_ne]; eauto. Qed.

(** What every handler needs of the parts around the state machine. *)
Definition parts (self : nn_req S) (ps : pipemap) evs ib fi : Prop :=
  xinv (Xsys (xreq self) ps evs) /\ inv (Sys (timer (task self)) fi) /\
  0 <= resend_ivl self /\ inbox_ok ps ib.

Lemma rinv_parts self ps evs ib fi :
  rinv (Rsys self ps evs ib fi) <-> parts self ps evs ib fi /\ life self ps.
Proof. unfold rinv, parts. tauto. Qed.

Definition idle_timer (self : nn_req S) : Prop :=
  running self /\ looks (timer (task self)) FSM_IDLE [] /\ sent_to (task self) = None.

Lemma action_send_ok ans self ps evs ib fi a :
  parts self ps evs ib fi -> idle_timer self -> (forall p, good_answer (ans p)) ->
  (a = 1 \/ nn_lb_can_send (lb (xreq self)) = 1) ->
  exists self' ps', nn_req_action_send ans (self, ps) a = Ret (self', ps') /\
    rinv (Rsys self' ps' evs ib fi).
Proof.
  intros (Hx & Ht & Hivl & Hib) (Hrun & Hl & Hto) Hans Ha. unfold nn_req_action_send.
  destruct (send_step _ _ _ _ Hx Hans) as [[-> Hno]|(p & pb & x & Hp & -> & Hx' & _)];
    cbn [mbind outcome_bind].
  - rewrite Z.eqb_refl. destruct Ha as [->|Ha]; [|congruence]. cbn [check mbind outcome_bind Z.eqb Pos.eqb].
    eexists _, _. split; [reflexivity|]. apply rinv_parts. split; [|done]. by destruct self.
  - change (0 =? - EAGAIN) with false. change (0 =? 0) with true. cbv iota.
    destruct (start_idle (timer (task self)) fi (resend_ivl self) Ht Hl Hivl) as (t' & Hst & Ht' & Hl').
    destruct self as [x0 f st li ivl [i rq rp t to] sp]. cbn [xreq rfsm state lastid resend_ivl task stopped
      set_xreq id request reply timer sent_to] in *. rewrite Hst.
    cbn [mbind outcome_bind check]. eexists _, _. split; [reflexivity|].
    apply rinv_parts. split.
    + split; [exact Hx'|]. split; [exact Ht'|]. split; [done|]. by apply inbox_out.
    + cbn. split; [done|]. split; [by left|]. exists p. split; [done|]. by rewrite lookup_insert_eq.
Qed.

(** Leaving the ACTIVE state. *)
Lemma stop_timer_core (self : nn_req S) (ps : pipemap) fi st :
  inv (Sys (timer (task self)) fi) -> running self -> looks (timer (task self)) FSM_ACTIVE [] ->
  st = REQ_STOPPING_TIMER \/ st = REQ_CANCELLING \/ st = REQ_TIMED_OUT ->
  exists self', stop_timer (self, ps) st = Ret (self', ps) /\ xreq self' = xreq self /\
    inv (Sys (timer (task self')) fi) /\ resend_ivl self' = resend_ivl self /\
    forall ps', life self' ps'.
Proof.
  intros Ht Hrun Hl Hst. unfold stop_timer. destruct (stop_active _ _ Ht Hl) as (t' & Hstop & Ht' & Hl').
  destruct self as [x0 f st0 li ivl [i rq rp t to] sp].
  cbn [xreq rfsm state lastid resend_ivl task stopped id request reply timer sent_to] in *.
  rewrite Hstop. cbn [mbind outcome_bind]. eexists. split_and!; [reflexivity|done|done|done|].
  intros ps'. destruct Hst as [-> | [-> | ->]]; cbn; (split; [done|split; [by left|done]]).
Qed.

Lemma stop_timer_ok self ps evs ib fi st :
  parts self ps evs ib fi -> running self -> looks (timer (task self)) FSM_ACTIVE [] ->
  st = REQ_STOPPING_TIMER \/ st = REQ_CANCELLING \/ st = REQ_TIMED_OUT ->
  exists self', stop_timer (self, ps) st = Ret (self', ps) /\ rinv (Rsys self' ps evs ib fi).
Proof.
  intros (Hx & Ht & Hivl & Hib) Hrun Hl Hst.
  destruct (stop_timer_core self ps fi st Ht Hrun Hl Hst) as (self' & Hs & Hx' & Ht' & Hr' & Hl').
  exists self'. split; [done|]. apply rinv_parts. split; [|done]. unfold parts. by rewrite Hx', Hr'.
Qed.

Lemma running_feed ans (self : nn_req S) (ps : pipemap) src type ptr :
  running self ->
  @nn_fsm_feed robj (req_object ans) (self, ps) src type ptr = nn_req_handler ans (self, ps) src type ptr.
Proof. intros [Hf _]. unfold nn_fsm_feed. cbn. by rewrite Hf, decide_True. Qed.

Lemma running_action ans (self : nn_req S) (ps : pipemap) type :
  running self -> (type >? 0) = true ->
  @nn_fsm_action robj (req_object ans) (self, ps) type =
  nn_req_handler ans (self, ps) NN_FSM_ACTION type 0.
Proof. intros Hf Ht. unfold nn_fsm_action. rewrite Ht. cbn [check mbind outcome_bind]. by apply running_feed. Qed.

Lemma running_of_life (self : nn_req S) ps :
  life self ps -> state self <> REQ_IDLE -> state self <> REQ_STOPPING -> running self.
Proof. unfold life. destruct (state self); naive_solver. Qed.

(** A new request, in any state. *)
Lemma sent_ok ans self ps evs ib fi :
  parts self ps evs ib fi -> life self ps -> open (Rsys self ps evs ib fi) ->
  (forall p, good_answer (ans p)) ->
  exists self' ps', @nn_fsm_action robj (req_object ans) (self, ps) NN_REQ_ACTION_SENT = Ret (self', ps') /\
    rinv (Rsys self' ps' evs ib fi).
Proof.
  intros Hp Hlife (Hr & Hni & Hns) Hans. cbn [req] in *.
  pose proof (running_of_life _ _ Hlife Hni Hns) as Hrun. rewrite running_action by done.
  assert (Hsame : forall st, st = REQ_CANCELLING -> timer_stops (timer (task self)) ->
    sent_to (task self) = None -> rinv (Rsys (set_state self st) ps evs ib fi)).
  { intros st -> Hts Hto. apply rinv_parts. split; [by destruct self|]. cbn. done. }
  unfold nn_req_handler. destruct (state self) eqn:Est; try done; unfold life in Hlife; rewrite Est in Hlife.
  - apply action_send_ok; auto.
  - eexists _, _. split; [reflexivity|]. apply rinv_parts. split; [done|]. unfold life. by rewrite Est.
  - destruct Hlife as (_ & [Hl|[_ Hl]] & _); [|congruence].
    destruct (stop_timer_ok self ps evs ib fi REQ_CANCELLING) as (self' & Hs & Hi); eauto.
  - destruct Hlife as (_ & Hts & Hto). eexists _, _. split; [reflexivity|]. by apply Hsame.
  - eexists _, _. split; [reflexivity|]. apply rinv_parts. split; [done|]. unfold life. by rewrite Est.
  - destruct Hlife as (_ & Hts & Hto). eexists _, _. split; [reflexivity|]. by apply Hsame.
  - apply action_send_ok; auto.
Qed.

Lemma csend_ok ans self ps evs ib fi m :
  rinv (Rsys self ps evs ib fi) -> open (Rsys self ps evs ib fi) -> sphdr m = [] ->
  (forall p, good_answer (ans p)) ->
  exists self' ps', nn_req_csend ans (self, ps) m = Ret ((self', ps'), 0) /\
    rinv (Rsys self' ps' evs ib fi).
Proof.
  intros [Hp Hlife]%rinv_parts Hopen Hm Hans. unfold nn_req_csend. rewrite Hm.
  change (size [] =? 0) with true. cbn [check mbind outcome_bind].
  destruct (nn_putl [0; 0; 0; 0] _) as [hdr| | |] eqn:Ehdr; try discriminate Ehdr. cbn [mbind outcome_bind].
  destruct (sent_ok ans (set_task self (Task (u32 (id (task self) + 1)) (Msg hdr (body m))
    (reply (task self)) (timer (task self)) (sent_to (task self)))) ps evs ib fi) as (self' & ps' & -> & Hi).
  - by destruct self as [x f st li ivl [i rq rp t to] sp].
  - by destruct self as [x f st li ivl [i rq rp t to] sp].
  - by destruct self as [x f st li ivl [i rq rp t to] sp].
  - done.
  - cbn [mbind outcome_bind]. eauto.
Qed.

Lemma crecv_ok ans self ps evs ib fi :
  rinv (Rsys self ps evs ib fi) -> open (Rsys self ps evs ib fi) ->
  (state self = REQ_DONE -> reply (task self) <> None) ->
  exists self' ps' rc m, nn_req_crecv ans (self, ps) = Ret ((self', ps'), rc, m) /\
    rinv (Rsys self' ps' evs ib fi).
Proof.
  intros Hi (Hr & Hni & Hns) Hrep. unfold nn_req_crecv. cbn [req] in *.
  destruct (nn_req_inprogress self); [|eauto 10]. cbn [negb].
  case_decide as Hd; [eauto 10|]. assert (Est : state self = REQ_DONE) by (destruct (state self); tauto).
  destruct (reply (task self)) as [m|] eqn:Er; [|by destruct Hrep].
  apply rinv_parts in Hi as [Hp Hlife]. unfold life in Hlife. rewrite Est in Hlife.
  destruct self as [x f st li ivl [i rq rp t to] sp]. cbn [state task reply] in *. subst st.
  rewrite running_action by (by try apply Hlife). cbn [nn_req_handler mbind outcome_bind].
  eexists _, _, _, _. split; [reflexivity|]. by apply rinv_parts.
Qed.

Lemma is_reply_ok (self : nn_req S) m : exists b, is_reply self m = Ret b.
Proof.
  unfold is_reply. destruct (negb (nn_req_inprogress self)); [eauto|].
  destruct (size (sphdr m) =? 4) eqn:E; [|cbn; eauto]. cbn [negb].
  destruct (sphdr m) as [|a [|b [|c [|d [|]]]]]; try (cbn in E; discriminate E).
  2: { apply Z.eqb_eq in E. unfold size in E. rewrite !length_cons in E. lia. }
  change (nn_getl [a; b; c; d]) with
    (Ret (Z.lor (Z.lor (Z.lor (Z.shiftl a 24) (Z.shiftl b 16)) (Z.shiftl c 8)) d)).
  cbn [mbind outcome_bind]. case_match; eauto.
Qed.

Lemma life_ps (self : nn_req S) ps p pb pb' :
  life self ps -> ps !! p = Some pb -> life self (<[p := pb']> ps).
Proof.
  intros Hl Hp. unfold life in *. destruct (state self); try done.
  - destruct Hl as (_ & _ & -> & _). by rewrite lookup_empty in Hp.
  - destruct Hl as (? & ? & q & ? & Hq). split_and!; [done|done|]. exists q. split; [done|].
    by apply send_insert_Some.
  - destruct Hl as (_ & _ & -> & _). by rewrite lookup_empty in Hp.
Qed.

(** The state machine's part of a socket. *)
Definition same_life (self self' : nn_req S) : Prop :=
  state self' = state self /\ rfsm self' = rfsm self /\ stopped self' = stopped self /\
  timer (task self') = timer (task self) /\ sent_to (task self') = sent_to (task self) /\
  resend_ivl self' = resend_ivl self.

Lemma life_same (self self' : nn_req S) ps : same_life self self' -> life self ps -> life self' ps.
Proof.
  intros (Hst & Hf & Hs & Ht & Hto & _). unfold life, running. by rewrite Hst, Hf, Hs, Ht, Hto.
Qed.

Lemma rinv_same (self self' : nn_req S) ps evs ib fi :
  same_life self self' -> xinv (Xsys (xreq self') ps evs) -> inbox_ok ps ib ->
  inv (Sys (timer (task self)) fi) -> 0 <= resend_ivl self -> life self ps ->
  rinv (Rsys self' ps evs ib fi).
Proof.
  intros Hsame Hx Hib Ht Hivl Hl. pose proof Hsame as (_ & _ & _ & Htm & _ & Hr).
  apply rinv_parts. split; [|by eapply life_same]. unfold parts. by rewrite Htm, Hr.
Qed.

(** The reply is stored; in the ACTIVE state the timer is stopped. *)
Lemma hit_ok ans self ps evs ib fi :
  rinv (Rsys self ps evs ib fi) -> open (Rsys self ps evs ib fi) ->
  exists self' ps' ib',
    (if decide (state self = REQ_ACTIVE) then
       '(self, ps) ← @nn_fsm_action robj (req_object ans) (self, ps) NN_REQ_ACTION_IN; Ret (self, ps, ib)
     else Ret (self, ps, ib)) = Ret (self', ps', ib') /\ rinv (Rsys self' ps' evs ib' fi).
Proof.
  intros Hi (Hr & Hni & Hns). cbn [req] in *. case_decide as Est; [|eauto 10].
  apply rinv_parts in Hi as [Hp Hl]. pose proof (running_of_life _ _ Hl Hni Hns) as Hrun.
  rewrite running_action by done. unfold nn_req_handler. rewrite Est. unfold life in Hl. rewrite Est in Hl.
  destruct Hl as (_ & [Hl|[_ Hl]] & _); [|congruence].
  destruct (stop_timer_ok self ps evs ib fi REQ_STOPPING_TIMER Hp Hrun Hl) as (self' & Hs & Hi'); [auto|].
  change (NN_FSM_ACTION =? NN_FSM_ACTION) with true. change (NN_REQ_ACTION_IN =? NN_REQ_ACTION_IN) with true.
  cbv iota. rewrite Hs. cbn [mbind outcome_bind]. eauto 10.
Qed.

Lemma read_replies_ok ans fuel self ps evs ib fi :
  (pending ib < fuel)%nat -> rinv (Rsys self ps evs ib fi) -> open (Rsys self ps evs ib fi) ->
  exists self' ps' ib', read_replies ans fuel self ps ib = Ret (self', ps', ib') /\
    rinv (Rsys self' ps' evs ib' fi).
Proof.
  revert self ps ib. induction fuel as [|fuel IH]; intros self ps ib Hfuel Hi Hopen; [lia|].
  pose proof Hi as (Hx & Ht & Hivl & Hl & Hib). cbn [read_replies].
  destruct (recv_step _ _ _ (receive ib) Hx (fun p => receive_good ps ib p Hib))
    as [[-> _]|(p & pb & x & Hg & Hp & Hidle & -> & Hx' & _)]; cbn [mbind outcome_bind].
  { rewrite Z.eqb_refl. eexists _, _, _. split; [reflexivity|]. by destruct self. }
  unfold next_pipe. rewrite Hg. destruct (proj1 Hib p pb Hp) as (ms & Hms & Hiff).
  destruct ms as [|[r m] ms]; [by apply Hiff in Hidle|]. rewrite (receive_head _ _ _ _ _ Hms) in *.
  cbn [sync rc message] in *. set (taken := take_message ib (Some p)).
  assert (Hfuel' : (pending taken < fuel)%nat) by (rewrite (pending_take _ _ _ _ Hms) in Hfuel; unfold taken; lia).
  pose proof (inbox_take _ _ _ _ _ _ _ Hib Hp Hms) as Hib'. fold taken in Hib'.
  set (ps' := <[p := _]> ps) in *. assert (Hl' : life self ps') by by eapply life_ps.
  assert (Hnew : forall r', rinv (Rsys (set_task (set_xreq self x) (set_reply (task self) r')) ps' evs taken fi)).
  { intros r'. by eapply (rinv_same self). }
  unfold split_result. cbn [rc message]. destruct (negb (Z.land r NN_PIPE_PARSED =? 0)) eqn:Epar.
  2: destruct (size (body m) <? 4).
  2: { cbn [fst snd]. rewrite Z.eqb_refl. eexists _, _, _. split; [reflexivity|]. apply Hnew. }
  all: cbn [fst snd]; change (0 =? - EAGAIN) with false; change (0 =? 0) with true.
  all: cbn [check mbind outcome_bind]; match goal with |- context [is_reply ?s ?m] =>
         destruct (is_reply_ok s m) as [[] ->] end; cbn [mbind outcome_bind negb].
  2,4: apply IH; [done|apply Hnew|done].
  all: apply hit_ok; [apply Hnew|done].
Qed.

(** ** One step of the system *)

Definition stepped (s : rsys) (l : rlabel) : Prop := exists s', rstep s l = Ret s' /\ rinv s'.

Lemma step_start s p opts : rinv s -> renabled s (QStart p opts) -> stepped s (QStart p opts).
Proof.
  destruct s as [self pm evs ib fi]. intros (Hx & Ht & Hivl & Hl & Hib) ((Hr & Hni & Hns) & Hp & Ho & Hsz).
  cbn [req ps] in *. destruct (xinv_start _ p opts Hx) as (s' & Hs & Hx'); [by split_and!|].
  unfold stepped. cbn [xstep rstep] in *. inv_ret. destruct x as [[[x pb] rc] ev]. inv_ret.
  rewrite H1. cbn [mbind outcome_bind]. eexists. split; [reflexivity|].
  assert (Hpb : instate pb <> IN_IDLE).
  { unfold nn_pipebase_start in H1. inv_ret. destruct x1. case_match; inv_ret; done. }
  split_and!; [done|done|done| |].
  - unfold life in *. cbn [state set_xreq task rfsm stopped] in *.
    destruct (state self); try done. destruct Hl as (? & ? & q & ? & Hq). split_and!; [done|done|].
    exists q. split; [done|]. by apply send_insert_Some.
  - destruct Hib as [Hib Hg]. split.
    + intros q pb' Hq. apply lookup_insert_Some in Hq as [[<- <-]|[Hne Hq]].
      * exists []. rewrite lookup_insert_eq. naive_solver.
      * rewrite lookup_insert_ne by done. by apply Hib.
    + intros q ms Hq. apply lookup_insert_Some in Hq as [[<- <-]|[Hne Hq]]; [constructor|by eapply Hg].
Qed.

Lemma step_sent s p : rinv s -> renabled s (QSent p) -> stepped s (QSent p).
Proof.
  destruct s as [self pm evs ib fi]. intros (Hx & Ht & Hivl & Hl & Hib) (_ & pb & Hp & Hout).
  cbn [req ps] in *. destruct (xinv_sent _ p Hx) as (s' & Hs & Hx'); [by exists pb|].
  unfold stepped. cbn [xstep rstep] in *. rewrite (deref_Some _ _ _ Hp) in *. cbn [mbind outcome_bind] in *.
  rewrite sent_async in * by done. cbn [mbind outcome_bind] in *. inv_ret.
  eexists. split; [reflexivity|]. split_and!; [done|done|done|by eapply life_ps|by apply inbox_out].
Qed.

Lemma step_arrive s p r m : rinv s -> renabled s (QArrive p r m) -> stepped s (QArrive p r m).
Proof.
  destruct s as [self pm evs ib fi]. intros (Hx & Ht & Hivl & Hl & Hib) (_ & [pb Hp] & Hm).
  cbn [req ps] in *. destruct (proj1 Hib p pb Hp) as (ms & Hms & Hiff).
  unfold stepped. cbn [rstep]. load Hp. load Hms.
  assert (Hib' : forall pb', instate pb' = IN_IDLE -> inbox_ok (<[p := pb']> pm) (<[p := ms ++ [(r, m)]]> ib)).
  { intros pb' Hidle. destruct Hib as [Hib Hg]. split.
    - intros q qb Hq. apply lookup_insert_Some in Hq as [[<- <-]|[Hne Hq]].
      + eexists. rewrite lookup_insert_eq. split; [reflexivity|]. split; [|done]. by destruct ms.
      + rewrite lookup_insert_ne by done. by apply Hib.
    - intros q qs Hq. apply lookup_insert_Some in Hq as [[<- <-]|[Hne Hq]]; [|by eapply Hg].
      apply Forall_app. split; [by eapply Hg|by constructor]. }
  case_decide as Hidle.
  - eexists. split; [reflexivity|]. split_and!; [done|done|done|done|].
    rewrite <-(insert_id pm p pb Hp). by apply Hib'.
  - assert (Has : instate pb = IN_ASYNC).
    { destruct Hx as (la & fa & _ & _ & _ & _ & Hps & _). destruct (Hps p pb Hp) as (_ & _ & Hin).
      unfold in_ok, dir_ok in Hin. tauto. }
    destruct (xinv_received _ p Hx) as (s' & Hs & Hx'); [by exists pb|].
    cbn [xstep] in Hs. rewrite (deref_Some _ _ _ Hp) in Hs. cbn [mbind outcome_bind] in Hs.
    rewrite received_async in * by done. cbn [mbind outcome_bind] in *. inv_ret.
    eexists. split; [reflexivity|]. split_and!; [done|done|done|by eapply life_ps|by apply Hib'].
Qed.

Lemma step_deliver s ans : rinv s -> renabled s (QDeliver ans) -> stepped s (QDeliver ans).
Proof.
  destruct s as [self pm evs ib fi]. intros Hi (Hopen & Hne & Hans). cbn [events] in *.
  pose proof Hi as (Hx & Ht & Hivl & Hl & Hib).
  destruct evs as [|[p []] evs]; [done| |]; unfold stepped; cbn [rstep].
  - destruct (in_step _ _ _ _ Hx) as (x & Hin & Hx'). unfold nn_req_in. rewrite Hin. cbn [mbind outcome_bind].
    destruct (read_replies_ok ans (Datatypes.S (pending ib)) (set_xreq self x) pm evs ib fi)
      as (self' & pm' & ib' & -> & Hi'); [lia|by eapply (rinv_same self)|done|].
    cbn [mbind outcome_bind]. eauto.
  - destruct (out_step _ _ _ _ Hx) as (x & Hout & Hx' & Hcan). unfold nn_req_out. rewrite Hout. cbn [mbind outcome_bind].
    assert (Hi' : rinv (Rsys (set_xreq self x) pm evs ib fi)) by by eapply (rinv_same self).
    case_decide as Est; [|cbn [mbind outcome_bind]; eauto].
    pose proof Hi' as [Hp Hlife]%rinv_parts. unfold life in Hlife. rewrite Est in Hlife.
    rewrite running_action by (by try apply Hlife). unfold nn_req_handler. rewrite Est.
    change (NN_FSM_ACTION =? NN_FSM_ACTION) with true. change (NN_REQ_ACTION_OUT =? NN_REQ_ACTION_OUT) with true.
    cbv iota. destruct (action_send_ok ans (set_xreq self x) pm evs ib fi 0 Hp Hlife Hans) as (self' & pm' & -> & Hi2).
    { by right. }
    cbn [mbind outcome_bind]. eauto.
Qed.

Lemma step_setopt s v : rinv s -> renabled s (QSetopt v) -> stepped s (QSetopt v).
Proof.
  destruct s as [self pm evs ib fi]. intros (Hx & Ht & Hivl & Hl & Hib) (_ & Hv).
  unfold stepped. cbn [rstep]. unfold nn_req_setopt.
  change (NN_REQ =? NN_REQ) with true. change (NN_REQ_RESEND_IVL =? NN_REQ_RESEND_IVL) with true.
  change (size (int_bytes v) =? 4) with true. cbn [negb fst]. rewrite int_round_trip by (unfold int_range; lia).
  eexists. split; [reflexivity|]. split_and!; try done. apply Hv.
Qed.

Lemma step_send s ans m : rinv s -> renabled s (QSend ans m) -> stepped s (QSend ans m).
Proof.
  destruct s as [self pm evs ib fi]. intros Hi (Ho & Hm & Hans).
  destruct (csend_ok ans self pm evs ib fi m Hi Ho Hm Hans) as (self' & pm' & Hs & Hi').
  unfold stepped. cbn [rstep]. rewrite Hs. cbn [mbind outcome_bind]. eauto.
Qed.

Lemma step_recv s ans : rinv s -> renabled s (QRecv ans) -> stepped s (QRecv ans).
Proof.
  destruct s as [self pm evs ib fi]. intros Hi (Ho & Hm).
  destruct (crecv_ok ans self pm evs ib fi Hi Ho Hm) as (self' & pm' & rc & m & Hs & Hi').
  unfold stepped. cbn [rstep]. rewrite Hs. cbn [mbind outcome_bind]. eauto.
Qed.

Lemma life_delete (self : nn_req S) pm p :
  life self pm -> sent_to (task self) <> Some p -> life self (delete p pm).
Proof.
  unfold life. intros Hl Hp. destruct (state self); try done.
  - destruct Hl as (? & ? & -> & ?). by rewrite delete_empty.
  - destruct Hl as (? & ? & q & Hq & Hs). split_and!; [done|done|]. exists q. split; [done|].
    rewrite lookup_delete_ne; [done|congruence].
  - destruct Hl as (? & ? & -> & ?). by rewrite delete_empty.
Qed.

(** The pipe the request went to is gone. *)
Lemma pipe_rm_ok ans (self : nn_req S) pm p fi :
  inv (Sys (timer (task self)) fi) -> life self pm -> raised (tfsm (timer (task self))) = [] ->
  state self <> REQ_IDLE -> state self <> REQ_STOPPING ->
  exists self', (if bool_decide (sent_to (task self) = Some p)
                 then @nn_fsm_action robj (req_object ans) (self, pm) NN_REQ_ACTION_PIPE_RM
                 else Ret (self, pm)) = Ret (self', pm) /\
    xreq self' = xreq self /\ inv (Sys (timer (task self')) fi) /\
    resend_ivl self' = resend_ivl self /\ life self' (delete p pm).
Proof.
  intros Ht Hl Hr Hni Hns. case_bool_decide as Hto.
  2: { eexists. split_and!; [reflexivity|done..|]. by apply life_delete. }
  pose proof (running_of_life _ _ Hl Hni Hns) as Hrun. rewrite running_action by done.
  unfold nn_req_handler. unfold life in Hl. destruct (state self) eqn:Est; try done.
  all: try (destruct Hl as (_ & _ & ?); congruence).
  destruct Hl as (_ & [Hl|[_ Hl]] & _); [|congruence].
  destruct (stop_timer_core self pm fi REQ_TIMED_OUT Ht Hrun Hl) as (self' & Hs & Hx & Ht' & Hivl & Hl'); [auto|].
  exists self'. split; [exact Hs|done].
Qed.

Lemma step_stop s p ans : rinv s -> renabled s (QStop p ans) -> stepped s (QStop p ans).
Proof.
  destruct s as [self pm evs ib fi]. intros (Hx & Ht & Hivl & Hl & Hib) ((Hr & Hni & Hns) & [pb Hp] & Hno).
  cbn [ps events req] in *.
  destruct (xrm_step (xreq self) pm evs p Hx) as (x & st & Hrm & Hst & Hx'); [eauto|done|].
  assert (Hact : Pipe.state pb = P_ACTIVE).
  { destruct Hx as (la & fa & _ & _ & _ & _ & Hps & _). by destruct (Hps p pb Hp). }
  unfold stepped. cbn [rstep]. load Hp. unfold nn_pipebase_stop. rewrite decide_True by done.
  unfold nn_sock_rm, nn_req_rm. rewrite Hrm. cbn [mbind outcome_bind].
  destruct (pipe_rm_ok ans (set_xreq self x) pm p fi) as (self' & -> & Hx2 & Ht' & Hivl' & Hl');
    [done|by eapply (life_same self)|done..|].
  cbn [mbind outcome_bind]. rewrite Hx2. cbn [xreq set_xreq]. rewrite Hst. cbn [mbind outcome_bind].
  unfold nn_pipebase_term. cbn [Pipe.state]. rewrite bool_decide_eq_true_2 by done.
  cbn [check mbind outcome_bind]. eexists. split; [reflexivity|].
  split_and!; [done|done|cbn; by rewrite Hivl'| |].
  - eapply (life_same self'); [|done]. by repeat split.
  - destruct Hib as [Hib Hg]. split.
    + intros q qb [Hne Hq]%lookup_delete_Some. rewrite lookup_delete_ne by done. by apply Hib.
    + intros q ms [Hne Hq]%lookup_delete_Some. by eapply Hg.
Qed.

(** The worker thread. *)
Lemma step_worker s l : rinv s -> renabled s (QWorker l) -> stepped s (QWorker l).
Proof.
  destruct s as [self pm evs ib fi]. intros (Hx & Ht & Hivl & Hl & Hib) (Hw & Hen). cbn [req firing] in *.
  assert (Hr : raised (tfsm (timer (task self))) = []).
  { unfold enabled in Hen. cbn [Timer.timer] in Hen. destruct (raised _); [done|].
    destruct Hw as [-> | [-> | ->]]; done. }
  destruct (worker_step _ _ _ (fsm_st (tfsm (timer (task self)))) Ht (conj eq_refl Hr) Hen Hw)
    as (t' & fi' & Hs & Ht' & Hlook).
  unfold stepped. cbn [rstep]. rewrite Hs. cbn [mbind outcome_bind Timer.timer Timer.firing].
  eexists. split; [reflexivity|]. split_and!; [done|done|done| |done].
  unfold life, timer_stops, running, looks in *. cbn [state set_task task timer set_timer sent_to rfsm stopped].
  destruct (state self); destruct (fsm_st (tfsm (timer (task self)))) eqn:Ef; try done; naive_solver.
Qed.

Lemma looks_isidle t : looks t FSM_IDLE [] -> nn_timer_isidle t = true.
Proof. intros [Hs Hr]. unfold nn_timer_isidle, nn_fsm_isidle, nn_fsm_event_active. by rewrite Hs, Hr. Qed.

Lemma looks_not_idle t : looks t FSM_STOPPING [] -> nn_timer_isidle t = false.
Proof. intros [Hs Hr]. unfold nn_timer_isidle, nn_fsm_isidle. by rewrite Hs. Qed.

(** A socket that stops waits for the timer, or is done. *)
Lemma stopping_ok (self : nn_req S) evs ib fi :
  parts self ∅ evs ib fi -> state self = REQ_STOPPING -> rfsm self = Fsm FSM_STOPPING [] ->
  stopped self = false ->
  looks (timer (task self)) FSM_STOPPING [] \/ looks (timer (task self)) FSM_IDLE [] ->
  exists self', nn_req_stopping (self, ∅) = Ret (self', ∅) /\ rinv (Rsys self' ∅ evs ib fi) /\
    (looks (timer (task self)) FSM_IDLE [] -> stopped self' = true).
Proof.
  intros Hp Hst Hf Hs [Hl|Hl]; unfold nn_req_stopping.
  - rewrite looks_not_idle by done. cbn [negb]. exists self. split; [done|]. split.
    + apply rinv_parts. split; [done|]. unfold life. rewrite Hst. split_and!; try done. by left.
    + intros [Hl' _]. destruct Hl as [Hl _]. congruence.
  - rewrite looks_isidle by done. cbn [negb].
    destruct self as [x f st li ivl tk sp]. cbn [state rfsm stopped task set_state] in *. subst.
    cbn. eexists. split; [reflexivity|]. split; [|done]. apply rinv_parts. split; [done|]. by cbn.
Qed.

(** The event a timer raised reaches a socket that stops: it has stopped. *)
Lemma timer_ends ans (self : nn_req S) evs ib fi :
  rinv (Rsys self ∅ evs ib fi) -> state self = REQ_STOPPING ->
  raised (tfsm (timer (task self))) <> [] ->
  exists s2, rstep (Rsys self ∅ evs ib fi) (QTimer ans) = Ret (Rsys s2 ∅ evs ib fi) /\
    rinv (Rsys s2 ∅ evs ib fi) /\ stopped s2 = true.
Proof.
  intros (Hx & Ht & Hivl & Hl & Hib) Est Hne.
  destruct (raised (tfsm (timer (task self)))) as [|ev rest] eqn:Er; [done|].
  destruct (deliver_event _ _ _ ev rest Ht (conj eq_refl Er)) as (-> & Ht' & _).
  unfold life in Hl. rewrite Est in Hl. destruct Hl as (Hfsm & [[_ Hto]|[Hf Hto]] & _ & Hsp); [congruence|].
  cbn [rstep]. rewrite Er. destruct ev as [e ty].
  set (t' := set_tfsm (timer (task self)) _) in *. set (self' := set_task self (set_timer (task self) t')).
  assert (Hlook : looks t' FSM_IDLE []) by done.
  destruct (stopping_ok self' evs ib fi) as (s2 & Hs & Hi & Hstop); [by split_and!|done..|by right|].
  exists s2. split; [|auto]. unfold nn_fsm_feed. cbn [fsm req_object fst]. change (rfsm self') with (rfsm self).
  rewrite Hfsm, decide_False by (cbn; tauto). cbn [shutdown_fn req_object]. unfold nn_req_shutdown.
  change ((NN_REQ_SRC_RESEND_TIMER =? NN_FSM_ACTION) && (ty =? NN_FSM_STOP)) with false. cbv beta iota.
  change (state self') with (state self). rewrite decide_True by done. by rewrite Hs.
Qed.

Lemma step_timer s ans : rinv s -> renabled s (QTimer ans) -> stepped s (QTimer ans).
Proof.
  destruct s as [self pm evs ib fi]. intros (Hx & Ht & Hivl & Hl & Hib) (Hne & Hans). cbn [req] in *.
  destruct (raised (tfsm (timer (task self)))) as [|ev rest] eqn:Er; [done|].
  destruct (deliver_event _ _ _ ev rest Ht (conj eq_refl Er)) as (-> & Ht' & Hev).
  unfold stepped. cbn [rstep]. rewrite Er. destruct ev as [e ty]. cbn [snd] in Hev.
  set (t' := set_tfsm (timer (task self)) _) in *. set (self' := set_task self (set_timer (task self) t')).
  assert (Hp : parts self' pm evs ib fi) by by split_and!.
  assert (Hlook : looks t' (fsm_st (tfsm (timer (task self)))) []) by done.
  unfold life in Hl. destruct (state self) eqn:Est.
  1,2,3,8: exfalso; destruct Hl as (_ & [_ Hl] & _); congruence.
  - destruct Hl as (Hrun & Hto & _). destruct Hto as [[_ Hto]|[Hf Hto]]; [congruence|].
    rewrite Er in Hto. injection Hto as -> ->. rewrite Hf in Hlook.
    rewrite (running_feed ans self') by done. unfold nn_req_handler. change (state self') with (state self). rewrite Est.
    destruct (stop_timer_ok self' pm evs ib fi REQ_TIMED_OUT Hp Hrun Hlook) as (s2 & Hs & Hi); [auto|].
    change (stop_timer (self', pm) REQ_TIMED_OUT = Ret (s2, pm)) in Hs.
    change (NN_REQ_SRC_RESEND_TIMER =? NN_FSM_ACTION) with false.
    change (NN_REQ_SRC_RESEND_TIMER =? NN_REQ_SRC_RESEND_TIMER) with true.
    change (NN_TIMER_TIMEOUT =? NN_TIMER_TIMEOUT) with true. cbv iota. rewrite Hs. cbn [mbind outcome_bind]. eauto.
  - destruct Hl as (Hrun & [[_ Hto]|[Hf Hto]] & Hsent); [congruence|].
    rewrite Er in Hto. injection Hto as -> ->. rewrite Hf in Hlook.
    rewrite (running_feed ans self') by done. unfold nn_req_handler. change (state self') with (state self). rewrite Est.
    change (NN_REQ_SRC_RESEND_TIMER =? NN_REQ_SRC_RESEND_TIMER) with true.
    change (NN_TIMER_STOPPED =? NN_TIMER_STOPPED) with true. cbv iota.
    destruct (action_send_ok ans self' pm evs ib fi 1 Hp) as (s2 & pm2 & -> & Hi); [done|done|by left|].
    cbn [mbind outcome_bind]. eauto.
  - destruct Hl as (Hrun & [[_ Hto]|[Hf Hto]] & Hsent); [congruence|].
    rewrite Er in Hto. injection Hto as -> ->. rewrite Hf in Hlook.
    rewrite (running_feed ans self') by done. unfold nn_req_handler. change (state self') with (state self). rewrite Est.
    change (NN_REQ_SRC_RESEND_TIMER =? NN_REQ_SRC_RESEND_TIMER) with true.
    change (NN_TIMER_STOPPED =? NN_TIMER_STOPPED) with true. cbv iota.
    destruct (action_send_ok ans self' pm evs ib fi 1 Hp) as (s2 & pm2 & -> & Hi); [done|done|by left|].
    cbn [mbind outcome_bind]. eauto.
  - destruct Hl as (Hrun & [[_ Hto]|[Hf Hto]] & Hsent); [congruence|].
    rewrite Er in Hto. injection Hto as -> ->. rewrite Hf in Hlook.
    rewrite (running_feed ans self') by done. unfold nn_req_handler. change (state self') with (state self). rewrite Est.
    eexists. split; [reflexivity|]. apply rinv_parts. split; [done|]. by cbn.
  - destruct Hl as (Hfsm & Hst & -> & Hsp).
    destruct (timer_ends ans self evs ib fi) as (s2 & Hs & Hi & _); [|done|congruence|].
    { apply rinv_parts. split; [by split_and!|]. unfold life. by rewrite Est. }
    exists (Rsys s2 ∅ evs ib fi). split; [|done]. cbn [rstep] in Hs. by rewrite Er in Hs.
Qed.

Lemma step_close s ans : rinv s -> renabled s (QClose ans) -> stepped s (QClose ans).
Proof.
  destruct s as [self pm evs ib fi]. intros (Hx & Ht & Hivl & Hl & Hib) ((Hr & Hni & Hns) & Hpm).
  cbn [req ps] in *. subst pm. pose proof (running_of_life _ _ Hl Hni Hns) as [Hf Hsp].
  unfold stepped. cbn [rstep]. unfold nn_req_stop, nn_fsm_stop. cbn [fsm req_object fst]. rewrite Hf.
  rewrite decide_False by (cbn; tauto). cbn [shutdown_fn req_object set_fsm_state with_fsm fst snd fsm].
  unfold nn_req_shutdown. change ((NN_FSM_ACTION =? NN_FSM_ACTION) && (NN_FSM_STOP =? NN_FSM_STOP)) with true.
  cbv iota. unfold set_fsm_state. cbn [fsm with_fsm req_object fst snd task set_rfsm].
  assert (Hstop : exists t', nn_timer_stop (timer (task self)) = Ret t' /\ inv (Sys t' fi) /\
    (looks t' FSM_STOPPING [] \/ looks t' FSM_IDLE [])).
  { destruct (fsm_st (tfsm (timer (task self)))) eqn:Est.
    - exists (timer (task self)). rewrite (stop_inactive _ [] FSM_IDLE) by done. split_and!; [done|done|by right].
    - destruct (stop_active _ _ Ht (conj Est Hr)) as (t' & -> & Ht' & Hl'). exists t'. auto.
    - exists (timer (task self)). rewrite (stop_inactive _ [] FSM_STOPPING) by done. split_and!; [done|done|by left]. }
  destruct Hstop as (t' & -> & Ht' & Hl'). cbn [mbind outcome_bind].
  destruct (stopping_ok (set_state (set_task (set_rfsm self (Fsm FSM_STOPPING (raised (rfsm self))))
    (set_timer (task self) t')) REQ_STOPPING) evs ib fi) as (s2 & Hs & Hi & _); [by split_and!|done| |done|done|].
  { cbn. by rewrite Hf. }
  exists (Rsys s2 ∅ evs ib fi). split; [|done]. by rewrite Hs.
Qed.

Lemma rinv_step s l : rinv s -> renabled s l -> stepped s l.
Proof.
  destruct l; eauto using step_start, step_stop, step_sent, step_arrive, step_deliver, step_send,
    step_recv, step_setopt, step_worker, step_timer, step_close.
Qed.

Inductive rreach : rsys -> Prop :=
| rreach_init random self :
    nn_req_init (fun _ => Answer 0 true tt) random = Ret self -> rreach (Rsys self ∅ [] ∅ false)
| rreach_step s l s' : rreach s -> renabled s l -> rstep s l = Ret s' -> rreach s'.

Lemma rreach_inv s : rreach s -> rinv s.
Proof.
  induction 1 as [random self Hself|s l s' _ IH He Hs].
  - cbn in Hself. injection Hself as <-. split_and!; [apply xinv_init|by cbn; auto|done| |].
    + by cbn.
    + split; [intros p pb Hp; by rewrite lookup_empty in Hp|intros p ms Hp; by rewrite lookup_empty in Hp].
  - destruct (rinv_step s l IH He) as (s'' & Hs' & Hinv). congruence.
Qed.

(** ** Closing *)

Inductive rpath : rsys -> list rlabel -> rsys -> Prop :=
| rpath_nil s : rpath s [] s
| rpath_cons s l s' ls s'' : renabled s l -> rstep s l = Ret s' -> rpath s' ls s'' -> rpath s (l :: ls) s''.

Lemma rpath_app s ls s' ls' s'' : rpath s ls s' -> rpath s' ls' s'' -> rpath s (ls ++ ls') s''.
Proof. induction 1; cbn; [done|]. intros. by eapply rpath_cons; eauto. Qed.

Lemma rpath_inv s ls s' : rpath s ls s' -> rinv s -> rinv s'.
Proof.
  induction 1 as [|s l s1 ls s2 He Hs _ IH]; [done|]. intros Hi. apply IH.
  destruct (rinv_step s l Hi He) as (s1' & Hs' & Hi'). congruence.
Qed.

Lemma rpath_reach s ls s' : rpath s ls s' -> rreach s -> rreach s'.
Proof. induction 1; [done|]. intros. apply IHrpath. by eapply rreach_step. Qed.

Lemma worker_path (self : nn_req S) pm evs ib fi ls ts :
  Forall is_worker ls -> steps (Sys (timer (task self)) fi) ls = Ret ts ->
  rpath (Rsys self pm evs ib fi) (QWorker <$> ls)
    (Rsys (set_task self (set_timer (task self) (Timer.timer ts))) pm evs ib (Timer.firing ts)).
Proof.
  revert self fi. induction ls as [|l ls IH]; intros self fi Hw Hs.
  - cbn in Hs. injection Hs as <-. destruct self as [x f st li ivl [i rq rp t to] sp]. constructor.
  - apply Forall_cons in Hw as [Hl Hw]. cbn [steps] in Hs. case_match eqn:He; [|done]. inv_ret.
    destruct x as [t' fi']. cbn [fmap list_fmap].
    eapply rpath_cons; [by split|cbn [rstep]; by rewrite H1|]. cbn [Timer.timer Timer.firing].
    specialize (IH (set_task self (set_timer (task self) t')) fi' Hw). by apply IH.
Qed.

Lemma stopped_term (self : nn_req S) evs ib fi :
  rinv (Rsys self ∅ evs ib fi) -> stopped self = true -> reply (task self) <> None ->
  nn_req_term self = Ret tt.
Proof.
  intros (Hx & Ht & _ & Hl & _) Hs Hr.
  assert (Hend : rfsm self = Fsm FSM_IDLE [] /\ looks (timer (task self)) FSM_IDLE []).
  { unfold life, running in Hl. destruct (state self); try (destruct Hl as ((_ & ?) & _); congruence).
    - by destruct Hl as (? & ? & _).
    - destruct Hl as (_ & _ & _ & ?). congruence. }
  destruct Hend as [Hf [Htf Hte]]. unfold nn_req_term.
  assert (Htm : nn_timer_term (timer (task self)) = Ret tt).
  { destruct (timer (task self)) as [[fs ev] ts to tk ar]. cbn in Htf, Hte. subst.
    destruct ts; cbn in Ht; try done. by destruct Ht as (-> & -> & _). }
  rewrite Htm. cbn [mbind outcome_bind]. destruct (reply (task self)); [|done]. cbn [nn_msg_term mbind outcome_bind].
  rewrite Hf. cbn [mbind outcome_bind nn_fsm_term check nn_fsm_isidle].
  change (check (nn_fsm_isidle (Fsm FSM_IDLE []))) with (Ret tt). cbn [mbind outcome_bind].
  destruct Hx as (la & fa & Hla & Hfa & _). rewrite dom_empty_L in *.
  pose proof (s_inv_sub _ _ _ Hla). pose proof (s_inv_sub _ _ _ Hfa).
  unfold nn_xreq_term, nn_fq_term, nn_lb_term.
  rewrite (s_term_ok _ _ _ Hfa) by set_solver. cbn [mbind outcome_bind].
  by rewrite (s_term_ok _ _ _ Hla) by set_solver.
Qed.

Lemma close_path (ans : loc -> answer unit) (self : nn_req S) pm evs ib fi :
  rinv (Rsys self pm evs ib fi) -> state self = REQ_STOPPING -> (forall p, good_answer (ans p)) ->
  exists ls s2, rpath (Rsys self pm evs ib fi) ls s2 /\ rinv s2 /\ ps s2 = ∅ /\ stopped (req s2) = true /\
    Forall (fun l => match l with QWorker _ | QTimer _ => True | _ => False end) ls.
Proof.
  intros Hi Est Hans. pose proof Hi as (_ & Ht & _ & Hl & _).
  unfold life in Hl. rewrite Est in Hl. destruct Hl as (_ & Hts & -> & _).
  assert (Hend : forall self' fi', rinv (Rsys self' ∅ evs ib fi') -> state self' = REQ_STOPPING ->
    looks (timer (task self')) FSM_IDLE [(0, NN_TIMER_STOPPED)] ->
    exists s2, rpath (Rsys self' ∅ evs ib fi') [QTimer ans] s2 /\ rinv s2 /\ ps s2 = ∅ /\ stopped (req s2) = true).
  { intros self' fi' Hi' Est' [_ Hr]. destruct (timer_ends ans self' evs ib fi' Hi' Est') as (s2 & Hs & Hi2 & Hst); [congruence|].
    exists (Rsys s2 ∅ evs ib fi'). split; [|done]. eapply rpath_cons; [|done|constructor].
    split; [cbn; congruence|done]. }
  destruct Hts as [Hlook|Hlook].
  - destruct (stop_drains _ Ht (proj1 Hlook)) as (ts & Hs & Hl' & _).
    pose proof (worker_path self ∅ evs ib fi _ ts (drain_worker _) Hs) as Hp.
    destruct (Hend _ _ (rpath_inv _ _ _ Hp Hi) Est Hl') as (s2 & Hp2 & Hi2 & Hps & Hst).
    eexists _, s2. split; [by eapply rpath_app|]. split; [done|]. split; [done|]. split; [done|].
    apply Forall_app. split; [|by constructor]. apply Forall_fmap, Forall_true. done.
  - destruct (Hend self fi Hi Est Hlook) as (s2 & Hp2 & Hi2 & Hps & Hst).
    eexists _, s2. split; [exact Hp2|]. split; [done|]. split; [done|]. split; [done|].
    by repeat constructor.
Qed.
End system.

(** ** Request identifiers *)

Lemma lor_high i : 0 <= i < 2 ^ 32 -> 0 <= Z.lor i (2 ^ 31) < 2 ^ 32.
Proof.
  intros Hi. split; [apply Z.lor_nonneg; lia|].
  assert (Z.lor i (2 ^ 31) = Z.lor i (2 ^ 31) mod 2 ^ 32) as ->; [|apply Z.mod_pos_bound; lia].
  rewrite <-Z.land_ones, Z.land_lor_distr_l, !Z.land_ones by lia.
  by rewrite (Z.mod_small i), (Z.mod_small (2 ^ 31)) by lia.
Qed.

Lemma high_set i : Z.land (Z.lor i (2 ^ 31)) (2 ^ 31) <> 0.
Proof. rewrite Z.land_lor_distr_l, Z.land_diag. intros [_ H]%Z.lor_eq_0_iff. discriminate H. Qed.

Section reply.
  Context {S : Type} `{Scheduler S}.

(** The header of a reply: the identifier with the highest bit set. *)
Lemma is_reply_spec (self : nn_req S) m :
  bytes (sphdr m) -> 0 <= id (task self) < 2 ^ 32 -> nn_req_inprogress self = true ->
  is_reply self m = Ret (bool_decide (sphdr m = be_digits 4 (Z.lor (id (task self)) (2 ^ 31)))).
Proof.
  intros Hb Hi Hp. unfold is_reply. rewrite Hp. cbn [negb]. pose proof (lor_high _ Hi) as Hlor.
  destruct (Z.eqb_spec (size (sphdr m)) 4) as [Hsz|Hsz]; cbn [negb].
  2: { rewrite bool_decide_eq_false_2; [done|]. intros Heq. apply Hsz. by rewrite Heq. }
  assert (Hlen : length (sphdr m) = 4%nat) by (unfold size in Hsz; lia).
  destruct (sphdr m) as [|a [|b [|c [|d [|]]]]]; try discriminate Hlen.
  rewrite getl_be by done. cbn [mbind outcome_bind].
  set (v := be 0 [a; b; c; d]). assert (Hv : be_digits 4 v = [a; b; c; d]) by apply (digits_of_be _ Hb).
  destruct (Z.eqb_spec v (Z.lor (id (task self)) (2 ^ 31))) as [Heq|Hne].
  - rewrite bool_decide_eq_true_2 by by rewrite <-Heq, Hv.
    rewrite Heq. rewrite (proj2 (Z.eqb_neq _ _)) by apply high_set. done.
  - rewrite bool_decide_eq_false_2.
    + by destruct (_ =? 0).
    + intros Heq. apply Hne. rewrite <-(be_of_digits 4 (Z.lor _ _)) by lia. by rewrite <-Heq.
Qed.

(** A request being sent leaves its task alone and is in progress. *)
Lemma sent_keeps ans (self self' : nn_req S) pm pm' :
  running self ->
  @nn_fsm_action _ (req_object ans) (self, pm) NN_REQ_ACTION_SENT = Ret (self', pm') ->
  id (task self') = id (task self) /\ request (task self') = request (task self) /\
  nn_req_inprogress self' = true.
Proof.
  intros Hrun. rewrite running_action by done. unfold nn_req_handler.
  assert (Hsend : nn_req_action_send ans (self, pm) 1 = Ret (self', pm') ->
    id (task self') = id (task self) /\ request (task self') = request (task self) /\
    nn_req_inprogress self' = true).
  { unfold nn_req_action_send. intros Hs. inv_ret. destruct x as [[[x ps] rc] to].
    case_match; [inv_ret; done|]. case_match; [|done]. inv_ret. done. }
  destruct (state self) eqn:Est; cbn; try done; try exact Hsend.
  - intros Heq. inv_ret. unfold nn_req_inprogress. by rewrite Est.
  - unfold stop_timer. intros Heq. inv_ret. done.
  - intros Heq. inv_ret. done.
  - intros Heq. inv_ret. unfold nn_req_inprogress. by rewrite Est.
  - intros Heq. inv_ret. done.
Qed.
End reply.

(** C6.  A request and its replies: [nn_req_csend] gives the request the next
    identifier and puts it, with the highest bit set, into the header of the
    message; afterwards a message counts as the reply exactly when it carries
    the same four bytes.  A reply to an earlier request, which carries another
    identifier, is not taken for the answer. *)
Theorem req_matches_own_reply {S} `{Scheduler S} ans (self self' : nn_req S) pm pm' m rc reply :
  running self -> bytes (sphdr reply) ->
  nn_req_csend ans (self, pm) m = Ret ((self', pm'), rc) ->
  rc = 0 /\ id (task self') = u32 (id (task self) + 1) /\ body (request (task self')) = body m /\
  sphdr (request (task self')) = be_digits 4 (Z.lor (id (task self')) (2 ^ 31)) /\
  is_reply self' reply = Ret (bool_decide (sphdr reply = sphdr (request (task self')))).
Proof.
  intros Hrun Hb Hs. unfold nn_req_csend in Hs. apply bind_Ret in Hs as (_ & _ & Hs).
  rewrite putl_digits in Hs. cbn [mbind outcome_bind] in Hs.
  apply bind_Ret in Hs as ([self2 pm2] & Hact & Hs). injection Hs as <- <- <-.
  apply sent_keeps in Hact as (Hid & Hreq & Hp); [|by destruct self].
  cbn [task set_task id request] in Hid, Hreq. rewrite Hreq. cbn [sphdr body]. rewrite app_nil_r, Hid.
  split_and!; try done. rewrite is_reply_spec; [by rewrite Hid|done| |done]. rewrite Hid. apply u32_range.
Qed.

(** A socket without connections, before and after its first request. *)
Definition fresh_req (i : Z) : nn_req priosched :=
  Req nn_xreq_init (Fsm FSM_ACTIVE []) REQ_PASSIVE i NN_REQ_DEFAULT_RESEND_IVL
    (Task i (Msg [] []) (Some (Msg [] [])) nn_timer_init None) false.

Definition asking_req (i : Z) (m : nn_msg) : nn_req priosched :=
  Req nn_xreq_init (Fsm FSM_ACTIVE []) REQ_DELAYED (i - 1) NN_REQ_DEFAULT_RESEND_IVL
    (Task i m (Some (Msg [] [])) nn_timer_init None) false.

Lemma req_matches_own_reply_witness :
  let ans := fun _ : loc => Answer 0 true tt in
  let self' := asking_req 8 (Msg [128; 0; 0; 8] [65]) in
  nn_req_init ans 7 = Ret (fresh_req 7) /\
  nn_req_csend ans (fresh_req 7, ∅) (Msg [] [65]) = Ret ((self', ∅), 0) /\
  is_reply self' (Msg [128; 0; 0; 8] [66]) =
    Ret (bool_decide ([128; 0; 0; 8] = sphdr (request (task self')))).
Proof.
  intros ans self'. split; [reflexivity|].
  assert (Hs : nn_req_csend ans (fresh_req 7, ∅) (Msg [] [65]) = Ret ((self', ∅), 0)) by reflexivity.
  split; [exact Hs|].
  refine (proj2 (proj2 (proj2 (proj2 (req_matches_own_reply ans (fresh_req 7) self' ∅ ∅ (Msg [] [65]) 0
    (Msg [128; 0; 0; 8] [66]) _ _ Hs))))); [by split|].
  cbn [sphdr]. unfold is_byte. repeat constructor; lia.
Defined.

(** ** Safety and the end of a socket *)

(** C19.  Whatever the order of connections, messages, timeouts, calls of the
    application and the stop, no state of a REQ socket gets an event it does
    not expect and no assertion fails in req.c or below it; and in the ACTIVE
    state the request is out on a pipe that is still connected.  The steps
    exclude what the code does not guard against: a negative re-send interval
    and taking a reply that was terminated. *)
Theorem req_never_fails {S} `{SchedulerLaws S} (s : rsys (S := S)) (l : rlabel) :
  rreach s -> renabled s l ->
  exists s', rstep s l = Ret s' /\ rreach s' /\
    (state (req s') = REQ_ACTIVE ->
     exists p, sent_to (task (req s')) = Some p /\ is_Some (ps s' !! p)).
Proof.
  intros Hr He. destruct (rinv_step s l (rreach_inv s Hr) He) as (s' & Hs & Hi). exists s'.
  split; [done|]. split; [by eapply rreach_step|]. intros Hst.
  destruct s' as [self pm evs ib fi]. destruct Hi as (Hx & Ht & _ & Hl & _). cbn [req ps] in *.
  unfold life in Hl. rewrite Hst in Hl. apply Hl.
Qed.

(** A REQ socket that stops its protocol comes to its end: the worker has
    only to finish the tasks of the timer, and the event the timer raises then
    makes the socket report that it has stopped; after that it is destroyed
    without a failed assertion if its reply was not terminated before. *)
Theorem req_close_completes {S} `{SchedulerLaws S} (s : rsys (S := S)) :
  rreach s -> state (req s) = REQ_STOPPING ->
  exists ls s', rpath s ls s' /\ stopped (req s') = true /\
    Forall (fun l => match l with QWorker _ | QTimer _ => True | _ => False end) ls /\
    (reply (task (req s')) <> None -> nn_req_term (req s') = Ret tt).
Proof.
  intros Hr Hst. destruct s as [self pm evs ib fi].
  destruct (close_path (fun _ => Answer 0 true tt) self pm evs ib fi (rreach_inv _ Hr) Hst)
    as (ls & s' & Hp & Hi & Hps & Hs & Hls); [by intros|].
  exists ls, s'. split; [done|]. split; [done|]. split; [done|]. intros Hrep.
  destruct s' as [self' pm' evs' ib' fi']. cbn [ps req] in *. subst pm'. by eapply stopped_term.
Qed.

(** ** A run of a client with one connection *)

(** [run s ls] runs the steps; [enables] is what makes them a path. *)
Fixpoint run (s : rsys (S := priosched)) (ls : list rlabel) : outcome rsys :=
  match ls with [] => Ret s | l :: ls => s ← rstep s l; run s ls end.

Fixpoint enables (s : rsys (S := priosched)) (ls : list rlabel) : Prop :=
  match ls with
  | [] => True
  | l :: ls => renabled s l /\ match rstep s l with Ret s => enables s ls | _ => False end
  end.

Lemma run_path s ls s' : run s ls = Ret s' -> enables s ls -> rpath s ls s'.
Proof.
  revert s. induction ls as [|l ls IH]; intros s Hr He.
  - injection Hr as <-. constructor.
  - destruct He as [He Hs]. cbn [run] in Hr. destruct (rstep s l) as [s1| | |] eqn:E; try done.
    eapply rpath_cons; eauto.
Qed.

Definition now : loc -> answer unit := fun _ => Answer 0 true tt.
Definition client (i : Z) : rsys := Rsys (fresh_req i) ∅ [] ∅ false.

Lemma client_reach i : rreach (client i).
Proof. by apply rreach_init with (random := i). Qed.

(** A connection comes, a request is sent on it. *)
Definition ask : list rlabel :=
  [QStart 1%positive (EpOptions 8 8 1); QDeliver now; QSend now (Msg [] [65])].

(** The reply with the given identifier arrives and is read. *)
Definition answered (i : Z) : list rlabel := [QArrive 1%positive 0 (Msg [] [128; 0; 0; i; 66]); QDeliver now].

(** The worker has started and stopped the timer. *)
Definition timer_done : list rlabel := [QWorker LTask; QWorker LTask; QTimer now].

Lemma enables_cons s l ls s' :
  renabled s l -> rstep s l = Ret s' -> enables s' ls -> enables s (l :: ls).
Proof. intros ? Hs ?. cbn [enables]. by rewrite Hs. Qed.

Lemma now_good p : good_answer (now p).
Proof. done. Qed.

Ltac is_enabled :=
  unfold renabled, open, valid_opts, is_worker, good_msg; cbn -[Z.pow];
  repeat match goal with
  | |- _ /\ _ => split
  | |- forall p, good_answer _ => exact now_good
  | |- _ = _ -> _ => intros ?
  | |- is_Some _ => eexists; reflexivity
  | |- Forall _ [] => constructor
  end;
  first [reflexivity | discriminate | lia | auto; fail | idtac].

Ltac run_enabled :=
  repeat (eapply enables_cons; [solve [is_enabled]|vm_compute; reflexivity|]); exact I.

Lemma ask_enabled : enables (client 7) (ask ++ answered 8 ++ timer_done).
Proof. cbn [ask answered timer_done app]. run_enabled. Qed.

Lemma req_never_fails_witness :
  exists s s', rreach (S := priosched) s /\ rstep s (QSend now (Msg [] [65])) = Ret s' /\ rreach s' /\
    (state (req s') = REQ_ACTIVE -> exists p, sent_to (task (req s')) = Some p /\ is_Some (ps s' !! p)).
Proof.
  destruct (run (client 7) [QStart 1%positive (EpOptions 8 8 1); QDeliver now]) as [s| | |] eqn:Hrun;
    [|vm_compute in Hrun; discriminate Hrun..].
  assert (Hr : rreach s).
  { eapply rpath_reach; [|apply (client_reach 7)]. eapply run_path; [exact Hrun|]. run_enabled. }
  assert (He : renabled s (QSend now (Msg [] [65]))).
  { vm_compute in Hrun. injection Hrun as <-. is_enabled. }
  destruct (req_never_fails s _ Hr He) as (s' & Hs). exists s, s'. split; [exact Hr|exact Hs].
Defined.

Lemma req_close_completes_witness :
  exists s ls s', state (req (S := priosched) s) = REQ_STOPPING /\ rpath s ls s' /\ stopped (req s') = true /\
    Forall (fun l => match l with QWorker _ | QTimer _ => True | _ => False end) ls /\
    (reply (task (req s')) <> None -> nn_req_term (req s') = Ret tt).
Proof.
  destruct (run (client 7) (ask ++ [QStop 1%positive now; QClose now])) as [s| | |] eqn:Hrun;
    [|vm_compute in Hrun; discriminate Hrun..].
  assert (Hr : rreach s).
  { eapply rpath_reach; [|apply (client_reach 7)]. eapply run_path; [exact Hrun|]. cbn [ask app]. run_enabled. }
  assert (Hst : state (req s) = REQ_STOPPING) by (vm_compute in Hrun; injection Hrun as <-; reflexivity).
  destruct (req_close_completes s Hr Hst) as (ls & s' & Hc). exists s, ls, s'. split; [exact Hst|exact Hc].
Defined.

(** ** What the code does not guard against *)

(** The socket after the first reply, and after a stale one. *)
Definition done_run : list rlabel := ask ++ answered 8 ++ timer_done.

Lemma done_enabled : enables (client 7) (done_run ++ answered 7).
Proof. cbn [done_run ask answered timer_done app]. run_enabled. Qed.

Lemma enables_app s ls ls' s' :
  enables s (ls ++ ls') -> run s ls = Ret s' -> enables s ls /\ enables s' ls'.
Proof.
  revert s. induction ls as [|l ls IH]; intros s He Hr.
  - by injection Hr as <-.
  - destruct He as [He Hs]. cbn [run] in Hr. cbn [enables].
    destruct (rstep s l) as [s1| | |] eqn:E; try done. destruct (IH s1 Hs Hr). by repeat split.
Qed.


Definition twice_run : list rlabel :=
  ask ++ [QArrive 1%positive 0 (Msg [] [128; 0; 0; 8; 66])] ++ answered 8 ++ timer_done ++
  [QRecv now; QSend now (Msg [] [67]); QArrive 1%positive 0 (Msg [] [128; 0; 0; 9; 68])].

Lemma twice_enabled : enables (client 7) twice_run.
Proof. cbn [twice_run ask answered timer_done app]. run_enabled. Qed.

(** The peer answers a request twice.  The socket reads the first reply
    and leaves the pipe readable; the event that would make it read the rest
    was already delivered.  The reply to the next request then arrives behind
    the second one and stays there: the socket waits in the ACTIVE state, no
    event is queued, and no message that still arrives raises one. *)
Theorem req_reply_unnoticed :
  exists (s : rsys (S := priosched)) p, rreach s /\ state (req s) = REQ_ACTIVE /\ events s = [] /\
    (exists m x, ib s !! p = Some [x; (0, m)] /\
       is_reply (req s) (Msg (take 4 (body m)) (drop 4 (body m))) = Ret true) /\
    dom (ps s) = {[p]} /\
    forall r m, exists s', rstep s (QArrive p r m) = Ret s' /\ events s' = [].
Proof.
  assert (Hrun : exists s, run (client 7) twice_run = Ret s) by (eexists; vm_compute; reflexivity).
  destruct Hrun as [s Hrun]. exists s, 1%positive. split.
  { eapply rpath_reach; [|apply (client_reach 7)]. eapply run_path; [exact Hrun|]. apply twice_enabled. }
  vm_compute in Hrun. injection Hrun as <-.
  split; [reflexivity|]. split; [reflexivity|].
  split; [eexists _, _; split; [vm_compute; reflexivity|vm_compute; reflexivity]|].
  split; [apply (bool_decide_unpack _); vm_compute; exact I|].
  intros r m. eexists. split; [reflexivity|reflexivity].
Qed.

(** [nn_setsockopt] accepts a negative re-send interval; the next request
    that can be sent then fails the assertion of the timer. *)
Theorem req_negative_interval :
  exists (s : rsys (S := priosched)) self', rreach s /\
    nn_req_setopt (req s) NN_REQ NN_REQ_RESEND_IVL (int_bytes (-1)) = (self', 0) /\
    nn_req_csend now (self', ps s) (Msg [] [65]) = Abort.
Proof.
  destruct (run (client 7) [QStart 1%positive (EpOptions 8 8 1); QDeliver now]) as [s| | |] eqn:Hrun;
    [|vm_compute in Hrun; discriminate Hrun..].
  eexists s, _. split.
  { eapply rpath_reach; [|apply (client_reach 7)]. eapply run_path; [exact Hrun|]. run_enabled. }
  vm_compute in Hrun; injection Hrun as <-. split; [vm_compute; reflexivity|]. vm_compute. reflexivity.
Qed.
