(* ===== verification/FqInbox.v ===== *)
(** * FqInbox: the fair queue run against the messages of the transports

    [fq_take] is [nn_fq_recv] (protocols/utils/fq.c) where the transports'
    receive functions hand out the messages of an inbox.  The protocols that
    receive through a fair queue are verified with [fq_take_spec]. *)

From stdpp Require Import base gmap list sets.
From Stdlib Require Import ZArith Lia.
From S2P Require Import Prelude ListHeap Sched Pipe Lb Fq Message Inbox SockBase.

Open Scope Z_scope.

Definition fq_take {S} `{Scheduler S} (self : S) (ps : pipemap) (ib : inbox)
    : outcome (S * pipemap * inbox * Z * option (loc * nn_msg)) :=
  '(self, ps, rc, got) ← nn_fq_recv self ps (receive ib);
  Ret (self, ps, take_message ib (fst <$> got), rc, got).

Lemma fq_take_spec {S} `{SchedulerLaws S} (self : S) ps known ia ib :
  s_inv self known ia -> readable ps ia -> inbox_ok ps ib ->
  (ia = ∅ /\ fq_take self ps ib = Ret (self, ps, ib, - EAGAIN, None)) \/
  exists p r m ms self' ps' ib' ia',
    fq_take self ps ib = Ret (self', ps', ib', r, Some (p, m)) /\ (p ∈ ia) /\
    ib !! p = Some ((r, m) :: ms) /\ ib' = take_message ib (Some p) /\ good_msg (r, m) /\
    s_inv self' known ia' /\ in_moves ps ps' ia ia' /\ inbox_ok ps' ib' /\
    pending ib = Datatypes.S (pending ib').
Proof.
  intros Hi Hr Hib. unfold fq_take.
  destruct (fq_recv_spec self ps known ia (receive ib)) as
    [[-> ->]|(p & pb & self' & _ & Hp & Hpb & Hidle & -> & Hi')].
  - by split.
  - intros p _. by eapply receive_good.
  - left. split; [done|]. cbn. reflexivity.
  - right. destruct (proj1 Hib p pb Hpb) as (ms & Hms & Hiff).
    destruct ms as [|[r m] ms]; [by apply Hiff in Hidle|].
    assert (Hgood : good_msg (r, m)).
    { pose proof (proj2 Hib _ _ Hms) as Hf. by apply Forall_cons in Hf as [? _]. }
    rewrite (receive_head _ _ _ _ _ Hms) in *. cbn [sync rc message mbind outcome_bind fmap option_fmap option_map fst] in *.
    eexists p, r, m, ms, self', _, _, _. split; [reflexivity|]. split; [done|]. split; [done|].
    split; [done|]. split; [done|]. split; [exact Hi'|]. split; [by apply in_moves_one|].
    split; [by eapply inbox_take|by eapply pending_take].
Qed.
