(* ===== verification/Excl.v ===== *)
(** * Excl: the PAIR socket (src/protocols/utils/excl.c, pair/xpair.c)

    An exclusive pipe: the first connection is used, any other is rejected.
    [xpair_excl_laws] shows that the PAIR protocol keeps the laws of
    SockBase.v. *)

From stdpp Require Import base gmap list sets.
From Stdlib Require Import ZArith Lia.
From S2P Require Import Prelude ListHeap Pipe Lb Sock Message Inbox SockBase.

Open Scope Z_scope.

Record nn_excl : Type := Excl { pipe : option loc; inpipe : option loc; outpipe : option loc }.

Definition is_set (o : option loc) : bool := match o with Some _ => true | None => false end.

(** ** excl.c *)

Definition nn_excl_init : nn_excl := Excl None None None.

Definition nn_excl_term (self : nn_excl) : outcome unit :=
  _ ← check (negb (is_set (pipe self)));
  _ ← check (negb (is_set (inpipe self)));
  check (negb (is_set (outpipe self))).

Definition nn_excl_add (self : nn_excl) (p : loc) : nn_excl * Z :=
  if is_set (pipe self) then (self, - EISCONN)
  else (Excl (Some p) (inpipe self) (outpipe self), 0).

Definition nn_excl_rm (self : nn_excl) (p : loc) : outcome nn_excl :=
  _ ← check (is_set (pipe self));
  Ret (Excl None None None).

Definition nn_excl_in (self : nn_excl) (p : loc) : outcome nn_excl :=
  _ ← check (negb (is_set (inpipe self)));
  _ ← check (bool_decide (Some p = pipe self));
  Ret (Excl (pipe self) (Some p) (outpipe self)).

Definition nn_excl_out (self : nn_excl) (p : loc) : outcome nn_excl :=
  _ ← check (negb (is_set (outpipe self)));
  _ ← check (bool_decide (Some p = pipe self));
  Ret (Excl (pipe self) (inpipe self) (Some p)).

Definition nn_excl_send (self : nn_excl) (ps : pipemap) (ans : loc -> answer unit) (m : nn_msg)
    : outcome (nn_excl * pipemap * Z * list (loc * nn_msg)) :=
  match outpipe self with
  | None => Ret (self, ps, - EAGAIN, [])
  | Some p =>
      pb ← deref ps p;
      '(pb, rc) ← nn_pipe_send pb (ans p);
      _ ← check (rc >=? 0);
      let self := if Z.land rc NN_PIPE_RELEASE =? 0 then self
                  else Excl (pipe self) (inpipe self) None in
      Ret (self, <[p := pb]> ps, Z.land rc (Z.lnot NN_PIPE_RELEASE), [(p, m)])
  end.

Definition nn_excl_recv (self : nn_excl) (ps : pipemap) (ib : inbox)
    : outcome (nn_excl * pipemap * inbox * Z * received) :=
  match inpipe self with
  | None => Ret (self, ps, ib, - EAGAIN, Untouched)
  | Some p =>
      pb ← deref ps p;
      '(pb, rc, msg) ← nn_pipe_recv pb (receive ib p);
      _ ← check (rc >=? 0);
      let self := if Z.land rc NN_PIPE_RELEASE =? 0 then self
                  else Excl (pipe self) None (outpipe self) in
      Ret (self, <[p := pb]> ps, take_message ib (Some p),
           Z.land rc (Z.lnot NN_PIPE_RELEASE), Received msg)
  end.

Definition nn_excl_can_send (self : nn_excl) : Z := if is_set (outpipe self) then 1 else 0.

Definition nn_excl_can_recv (self : nn_excl) : Z := if is_set (inpipe self) then 1 else 0.

(** ** xpair.c *)

Definition NN_PAIR : Z := 1 * 16 + 0.

Record nn_xpair : Type := Xpair { excl : nn_excl }.

Definition nn_xpair_init : nn_xpair := Xpair nn_excl_init.

Definition nn_xpair_term (self : nn_xpair) : outcome unit := nn_excl_term (excl self).

Definition nn_xpair_add (self : nn_xpair) (p : loc) : outcome (nn_xpair * Z) :=
  let '(e, rc) := nn_excl_add (excl self) p in Ret (Xpair e, rc).

Definition nn_xpair_rm (self : nn_xpair) (p : loc) : outcome nn_xpair :=
  e ← nn_excl_rm (excl self) p; Ret (Xpair e).

Definition nn_xpair_in (self : nn_xpair) (p : loc) : outcome nn_xpair :=
  e ← nn_excl_in (excl self) p; Ret (Xpair e).

Definition nn_xpair_out (self : nn_xpair) (p : loc) : outcome nn_xpair :=
  e ← nn_excl_out (excl self) p; Ret (Xpair e).

Definition nn_xpair_events (self : nn_xpair) : Z :=
  let events := if nn_excl_can_recv (excl self) =? 0 then 0 else NN_SOCKBASE_EVENT_IN in
  if nn_excl_can_send (excl self) =? 0 then events else Z.lor events NN_SOCKBASE_EVENT_OUT.

Definition nn_xpair_send (self : nn_xpair) (ps : pipemap) (ans : loc -> answer unit) (m : nn_msg)
    : outcome (nn_xpair * pipemap * Z * list (loc * nn_msg)) :=
  '(e, ps, rc, sent) ← nn_excl_send (excl self) ps ans m;
  Ret (Xpair e, ps, rc, sent).

Definition nn_xpair_recv (self : nn_xpair) (ps : pipemap) (ib : inbox)
    : outcome (nn_xpair * pipemap * inbox * Z * received) :=
  '(e, ps, ib, rc, got) ← nn_excl_recv (excl self) ps ib;
  Ret (Xpair e, ps, ib, if rc <? 0 then rc else 0, got).

Definition nn_xpair_setopt (self : nn_xpair) (level opt : Z) (optval : list Z) : Z := - ENOPROTOOPT.

Definition nn_xpair_getopt (self : nn_xpair) (level opt : Z) : Z := - ENOPROTOOPT.

Definition nn_xpair_ispeer (socktype : Z) : Z := if socktype =? NN_PAIR then 1 else 0.

#[export] Instance xpair_base : SockBase nn_xpair := {|
  sb_norecv := false;
  sb_nosend := false;
  sb_quiet := false;
  sb_plain := false;
  sb_init _ := nn_xpair_init;
  sb_term := nn_xpair_term;
  sb_room _ := true;
  sb_add s p _ := nn_xpair_add s p;
  sb_rm s st p := s ← nn_xpair_rm s p; Ret (s, st);
  sb_in := nn_xpair_in;
  sb_out s st p := s ← nn_xpair_out s p; Ret (s, st);
  sb_events := nn_xpair_events;
  sb_send := nn_xpair_send;
  sb_recv s _ := nn_xpair_recv s
|}.

(** ** The laws *)

(** The set of the pipe, if there is one. *)
Definition opt_set (o : option loc) : gset loc := match o with Some p => {[p]} | None => ∅ end.

Definition excl_inv (s : nn_xpair) (known oa ia : gset loc) : Prop :=
  known = opt_set (pipe (excl s)) /\ oa = opt_set (outpipe (excl s)) /\
  ia = opt_set (inpipe (excl s)) /\ oa ⊆ known /\ ia ⊆ known.

Lemma opt_set_elem o p : p ∈ opt_set o <-> o = Some p.
Proof. destruct o; cbn; set_solver. Qed.

Lemma opt_set_empty o : opt_set o = ∅ -> o = None.
Proof. destruct o as [p|]; cbn; [|done]. intros Hp. set_solver. Qed.

Lemma release_sync {M} (a : answer M) :
  good_answer a -> (Z.land (send_rc a) NN_PIPE_RELEASE =? 0) = sync a.
Proof. intros Ha. pose proof (release_flag a Ha). destruct (_ =? 0), (sync a); done. Qed.

Lemma xpair_send_ok (s : nn_xpair) known oa ia ps ans m :
  excl_inv s known oa ia -> writable ps oa -> (forall p, good_answer (ans p)) ->
  exists s' ps' rc sent oa', nn_xpair_send s ps ans m = Ret (s', ps', rc, sent) /\
    excl_inv s' known oa' ia /\ out_moves ps ps' oa oa'.
Proof.
  destruct s as [[e i o]]. intros (Hk & Ho & Hia & Hsub & Hsub') Hw Hans. cbn in Hk, Ho, Hia.
  unfold nn_xpair_send, nn_excl_send. cbn [excl outpipe pipe inpipe].
  destruct o as [p|]; cbn [mbind outcome_bind].
  2: { eexists _, _, _, _, oa. split; [reflexivity|]. by split; [|apply out_moves_refl]. }
  destruct (Hw p) as (pb & Hpb & Hidle); [set_solver|]. load Hpb.
  rewrite pipe_send_idle by (done || apply Hans). cbn [mbind outcome_bind].
  pose proof (send_rc_nonneg _ (Hans p)) as Hnn. rewrite (proj2 (Z.geb_le _ _) Hnn). cbn [check mbind outcome_bind].
  rewrite release_sync by done.
  eexists _, _, _, _, (if sync (ans p) then oa else oa ∖ {[p]}). split; [reflexivity|].
  split; [|apply out_moves_one; [set_solver|done..]].
  destruct (sync (ans p)); unfold excl_inv; cbn; (split_and!; [done| |done|set_solver|done]); set_solver.
Qed.

Lemma xpair_recv_ok (s : nn_xpair) known oa ia ps ib :
  excl_inv s known oa ia -> readable ps ia -> inbox_ok ps ib ->
  exists s' ps' ib' rc got ia', nn_xpair_recv s ps ib = Ret (s', ps', ib', rc, got) /\
    excl_inv s' known oa ia' /\ in_moves ps ps' ia ia' /\ inbox_ok ps' ib'.
Proof.
  destruct s as [[e i o]]. intros (Hk & Ho & Hia & Hsub & Hsub') Hw Hib. cbn in Hk, Ho, Hia.
  unfold nn_xpair_recv, nn_excl_recv. cbn [excl outpipe pipe inpipe].
  destruct i as [p|]; cbn [mbind outcome_bind].
  2: { eexists _, _, _, _, _, ia. split; [reflexivity|]. split; [done|]. split; [apply in_moves_refl|done]. }
  destruct (Hw p) as (pb & Hpb & Hidle); [set_solver|]. load Hpb.
  destruct (proj1 Hib p pb Hpb) as (ms & Hms & Hiff). destruct ms as [|[r m] ms]; [by apply Hiff in Hidle|].
  assert (Hans : good_answer (receive ib p)) by by eapply receive_good.
  rewrite pipe_recv_idle by (done || apply Hans). cbn [mbind outcome_bind].
  pose proof (send_rc_nonneg _ Hans) as Hnn. rewrite (proj2 (Z.geb_le _ _) Hnn). cbn [check mbind outcome_bind].
  rewrite release_sync by done.
  rewrite (receive_head _ _ _ _ _ Hms) in *. cbn [sync].
  set (b := negb (bool_decide (ms = []))).
  eexists _, _, _, _, _, (if b then ia else ia ∖ {[p]}). split; [reflexivity|].
  split; [|split; [apply in_moves_one; [set_solver|done..]|by eapply inbox_take]].
  destruct b; unfold excl_inv; cbn; (split_and!; [done|done| |done|set_solver]); set_solver.
Qed.

#[export] Program Instance xpair_laws : SockBaseLaws nn_xpair := {| sb_inv := excl_inv |}.
Next Obligation. by intros. Qed.
Next Obligation. by intros s known oa ia (_ & _ & _ & ? & ?). Qed.
Next Obligation.
  intros [[e i o]] known oa ia p opts (Hk & Ho & Hi & Hoa & Hia) Hp _ _ _. cbn in *.
  unfold nn_xpair_add, nn_excl_add. cbn. destruct e as [q|]; cbn.
  - eexists _, _. split; [reflexivity|]. right. by split.
  - eexists _, _. split; [reflexivity|]. left. split; [done|].
    split_and!; cbn; subst; try done; set_solver.
Qed.
Next Obligation.
  intros [[e i o]] known oa ia st p (Hk & Ho & Hi & Hoa & Hia) Hp _. cbn in *.
  unfold nn_xpair_rm, nn_excl_rm. cbn. destruct e as [q|]; cbn; [|set_solver].
  eexists _, _. split; [reflexivity|]. split; [|done]. cbn in *.
  assert (q = p) as -> by set_solver. split_and!; cbn; set_solver.
Qed.
Next Obligation.
  intros [[e i o]] known oa ia p (Hk & Ho & Hi & Hoa & Hia) Hp Hn _. cbn in *.
  unfold nn_xpair_in, nn_excl_in. cbn. destruct e as [q|]; cbn in *; [|set_solver].
  assert (q = p) as -> by set_solver. rewrite bool_decide_eq_true_2 by done.
  destruct i as [q|]; cbn in *; [exfalso; set_solver|].
  eexists. split; [reflexivity|]. split_and!; cbn; set_solver.
Qed.
Next Obligation.
  intros [[e i o]] known oa ia st p (Hk & Ho & Hi & Hoa & Hia) Hp Hn. cbn in *.
  unfold nn_xpair_out, nn_excl_out. cbn. destruct e as [q|]; cbn in *; [|set_solver].
  assert (q = p) as -> by set_solver. rewrite bool_decide_eq_true_2 by done.
  destruct o as [q|]; cbn in *; [exfalso; set_solver|].
  eexists _, _. split; [reflexivity|]. split; [|done]. split_and!; cbn; set_solver.
Qed.
Next Obligation. intros. by apply (xpair_send_ok s known oa ia). Qed.
Next Obligation. intros. by apply (xpair_recv_ok s known oa ia). Qed.
Next Obligation.
  intros [[e i o]] (Hk & Ho & Hi & _). cbn in *.
  by rewrite (opt_set_empty e), (opt_set_empty i), (opt_set_empty o) by done.
Qed.

(** A PAIR socket has at most one peer in every state it can get into:
    while it has one a further pipe is refused with -EISCONN and nothing
    changes; a message goes to the peer, unchanged, exactly when the peer is
    ready, and is refused with -EAGAIN otherwise. *)
Theorem pair_exclusive (s : bsys (T := nn_xpair)) :
  breach s ->
  (forall p q, is_Some (ps s !! p) -> is_Some (ps s !! q) -> p = q) /\
  (forall p, ps s <> ∅ -> nn_xpair_add (proto s) p = Ret (proto s, - EISCONN)) /\
  (forall ans m, (forall q, good_answer (ans q)) ->
   exists t pm rc sent, nn_xpair_send (proto s) (ps s) ans m = Ret (t, pm, rc, sent) /\
     ((rc = - EAGAIN /\ sent = [] /\ forall p, ~ ready_out s p) \/
      exists p, ready_out s p /\ sent = [(p, m)] /\ 0 <= rc)).
Proof.
  intros Hr. destruct (breach_view s Hr) as (oa & ia & Hi & Hw & _ & _ & Hrd).
  destruct (proto s) as [[e i o]] eqn:Ep. pose proof Hi as (Hk & Ho & _). cbn [excl pipe outpipe] in Hk, Ho.
  split_and!.
  - intros p q Hp Hq. apply elem_of_dom in Hp, Hq. rewrite Hk in Hp, Hq.
    apply opt_set_elem in Hp, Hq. congruence.
  - intros p Hne. unfold nn_xpair_add, nn_excl_add. cbn [excl pipe]. destruct e as [q|]; [done|].
    exfalso. apply Hne, (dom_empty_inv_L (D := gset loc)). exact Hk.
  - intros ans m Hans. unfold nn_xpair_send, nn_excl_send. cbn [excl outpipe].
    destruct o as [p|]; cbn [mbind outcome_bind].
    2: { eexists _, _, _, _. split; [reflexivity|]. left. split_and!; [done..|].
      intros p Hp%Hrd. rewrite Ho in Hp. by apply opt_set_elem in Hp. }
    assert (Hp : p ∈ oa) by (rewrite Ho; by apply opt_set_elem).
    destruct (Hw p Hp) as (pb & Hpb & Hidle). load Hpb. rewrite pipe_send_idle by (done || apply Hans).
    cbn [mbind outcome_bind]. pose proof (send_rc_nonneg _ (Hans p)) as Hnn.
    rewrite (proj2 (Z.geb_le _ _) Hnn). cbn [check mbind outcome_bind].
    eexists _, _, _, _. split; [reflexivity|]. right. exists p. split; [by apply Hrd|]. split; [done|].
    destruct (send_rc_release (ans p)) as [_ ->]; apply Hans.
Qed.

Lemma pair_exclusive_witness :
  let o := EpOptions 8 8 1 in
  exists s : bsys (T := nn_xpair), breach s /\ ps s <> ∅ /\
    nn_xpair_add (proto s) 2%positive = Ret (proto s, - EISCONN).
Proof.
  intros o. set (s0 := Bsys nn_xpair_init init_stats ∅ [] ∅). set (ls := [BStart 1%positive o; BDeliver]).
  destruct (brun s0 ls) as [s| | |] eqn:Hrun; [|by vm_compute in Hrun..].
  assert (Hs : breach s).
  { eapply (breach_run s0 ls); [exact (breach_init 0)| |exact Hrun]. solve_path. }
  destruct (pair_exclusive s Hs) as (_ & Hadd & _).
  assert (Hne : ps s <> ∅) by (vm_compute in Hrun; by injection Hrun as <-).
  exists s. auto.
Defined.
