(* ===== verification/Pipeline.v ===== *)
(** * Pipeline: the PUSH and PULL sockets (src/protocols/pipeline/xpush.c, xpull.c)

    PUSH spreads messages over its peers with a load balancer, PULL reads from
    its peers with a fair queue; each ignores the other direction.  The laws of
    SockBase.v hold for every scheduler. *)

From stdpp Require Import base gmap list sets.
From Stdlib Require Import ZArith Lia.
From S2P Require Import Prelude ListHeap Priolist Sched Pipe Lb Fq Sock Message Inbox SockBase FqInbox.

Open Scope Z_scope.

Definition NN_PUSH : Z := 5 * 16 + 0.
Definition NN_PULL : Z := 5 * 16 + 1.

Record nn_xpush (S : Type) : Type := Xpush { lb : S }.
Arguments Xpush {S}.
Arguments lb {S}.

Record nn_xpull (S : Type) : Type := Xpull { fq : S }.
Arguments Xpull {S}.
Arguments fq {S}.

Section protocols.
  Context {S : Type} `{Scheduler S}.

(** ** xpush.c *)

Definition nn_xpush_init : nn_xpush S := Xpush nn_lb_init.

Definition nn_xpush_term (self : nn_xpush S) : outcome unit := nn_lb_term (lb self).

Definition nn_xpush_add (self : nn_xpush S) (p : loc) (opts : nn_ep_options)
    : outcome (nn_xpush S * Z) :=
  _ ← check ((1 <=? Pipe.sndprio opts) && (Pipe.sndprio opts <=? 16));
  Ret (Xpush (nn_lb_add (lb self) p (Pipe.sndprio opts)), 0).

Definition nn_xpush_rm (self : nn_xpush S) (st : statistics) (p : loc)
    : outcome (nn_xpush S * statistics) :=
  l ← nn_lb_rm (lb self) p;
  st ← nn_sock_stat_increment st NN_STAT_CURRENT_SND_PRIORITY (nn_lb_get_priority l);
  Ret (Xpush l, st).

Definition nn_xpush_in (self : nn_xpush S) (p : loc) : outcome (nn_xpush S) := Ret self.

Definition nn_xpush_out (self : nn_xpush S) (st : statistics) (p : loc)
    : outcome (nn_xpush S * statistics) :=
  l ← nn_lb_out (lb self) p;
  st ← nn_sock_stat_increment st NN_STAT_CURRENT_SND_PRIORITY (nn_lb_get_priority l);
  Ret (Xpush l, st).

Definition nn_xpush_events (self : nn_xpush S) : Z :=
  if nn_lb_can_send (lb self) =? 0 then 0 else NN_SOCKBASE_EVENT_OUT.

Definition nn_xpush_send (self : nn_xpush S) (ps : pipemap) (ans : loc -> answer unit) (m : nn_msg)
    : outcome (nn_xpush S * pipemap * Z * list (loc * nn_msg)) :=
  '(l, ps, rc, to) ← nn_lb_send (lb self) ps ans;
  Ret (Xpush l, ps, rc, match to with Some p => [(p, m)] | None => [] end).

Definition nn_xpush_setopt (self : nn_xpush S) (level opt : Z) (optval : list Z) : Z := - ENOPROTOOPT.

Definition nn_xpush_getopt (self : nn_xpush S) (level opt : Z) : Z := - ENOPROTOOPT.

Definition nn_xpush_ispeer (socktype : Z) : Z := if socktype =? NN_PULL then 1 else 0.

#[export] Instance xpush_base : SockBase (nn_xpush S) := {|
  sb_norecv := true;
  sb_nosend := false;
  sb_quiet := false;
  sb_plain := false;
  sb_init _ := nn_xpush_init;
  sb_term := nn_xpush_term;
  sb_room _ := true;
  sb_add := nn_xpush_add;
  sb_rm := nn_xpush_rm;
  sb_in := nn_xpush_in;
  sb_out := nn_xpush_out;
  sb_events := nn_xpush_events;
  sb_send := nn_xpush_send;
  sb_recv _ _ _ _ := Undef
|}.

(** ** xpull.c *)

Definition nn_xpull_init : nn_xpull S := Xpull nn_fq_init.

Definition nn_xpull_term (self : nn_xpull S) : outcome unit := nn_fq_term (fq self).

Definition nn_xpull_add (self : nn_xpull S) (p : loc) (opts : nn_ep_options)
    : outcome (nn_xpull S * Z) :=
  _ ← check ((1 <=? Pipe.rcvprio opts) && (Pipe.rcvprio opts <=? 16));
  Ret (Xpull (nn_fq_add (fq self) p (Pipe.rcvprio opts)), 0).

Definition nn_xpull_rm (self : nn_xpull S) (p : loc) : outcome (nn_xpull S) :=
  f ← nn_fq_rm (fq self) p; Ret (Xpull f).

Definition nn_xpull_in (self : nn_xpull S) (p : loc) : outcome (nn_xpull S) :=
  f ← nn_fq_in (fq self) p; Ret (Xpull f).

Definition nn_xpull_out (self : nn_xpull S) (p : loc) : outcome (nn_xpull S) := Ret self.

Definition nn_xpull_events (self : nn_xpull S) : Z :=
  if nn_fq_can_recv (fq self) =? 0 then 0 else NN_SOCKBASE_EVENT_IN.

Definition nn_xpull_recv (self : nn_xpull S) (ps : pipemap) (ib : inbox)
    : outcome (nn_xpull S * pipemap * inbox * Z * received) :=
  '(f, ps, ib, rc, got) ← fq_take (fq self) ps ib;
  Ret (Xpull f, ps, ib, if rc <? 0 then rc else 0,
       match got with Some (_, m) => Received m | None => Untouched end).

Definition nn_xpull_setopt (self : nn_xpull S) (level opt : Z) (optval : list Z) : Z := - ENOPROTOOPT.

Definition nn_xpull_getopt (self : nn_xpull S) (level opt : Z) : Z := - ENOPROTOOPT.

Definition nn_xpull_ispeer (socktype : Z) : Z := if socktype =? NN_PUSH then 1 else 0.

#[export] Instance xpull_base : SockBase (nn_xpull S) := {|
  sb_norecv := false;
  sb_nosend := true;
  sb_quiet := false;
  sb_plain := false;
  sb_init _ := nn_xpull_init;
  sb_term := nn_xpull_term;
  sb_room _ := true;
  sb_add := nn_xpull_add;
  sb_rm s st p := s ← nn_xpull_rm s p; Ret (s, st);
  sb_in := nn_xpull_in;
  sb_out s st p := s ← nn_xpull_out s p; Ret (s, st);
  sb_events := nn_xpull_events;
  sb_send _ _ _ _ := Undef;
  sb_recv s _ := nn_xpull_recv s
|}.
End protocols.

(** ** The laws *)

Section laws.
  Context {S : Type} `{SchedulerLaws S}.

Definition xpush_inv (s : nn_xpush S) (known oa ia : gset loc) : Prop :=
  s_inv (lb s) known oa /\ ia ⊆ known.

Definition xpull_inv (s : nn_xpull S) (known oa ia : gset loc) : Prop :=
  s_inv (fq s) known ia /\ oa ⊆ known.

(** The checks of the priorities. *)
Lemma prio_check v : 1 <= v <= 16 -> (1 <=? v) && (v <=? 16) = true.
Proof. lia. Qed.

(** A load balancer sends to at most one of the active pipes. *)
Lemma lb_send_moves (l : S) ps known oa ans :
  s_inv l known oa -> writable ps oa -> (forall p, good_answer (ans p)) ->
  exists l' ps' rc to oa', nn_lb_send l ps ans = Ret (l', ps', rc, to) /\
    s_inv l' known oa' /\ out_moves ps ps' oa oa' /\
    (to = None <-> oa = ∅) /\ (forall p, to = Some p -> p ∈ oa /\ rc = Pipe.rc (ans p)) /\
    (oa = ∅ -> rc = - EAGAIN).
Proof.
  intros Hi Hw Hans.
  destruct (lb_send_spec l ps known oa ans) as [[-> ->]|(p & pb & l' & Hp & Hpb & Hidle & -> & Hi')]; [by split|by intros| |].
  - eexists l, ps, _, None, ∅. split_and!; try done. apply out_moves_refl.
  - eexists l', _, _, (Some p), _. split; [reflexivity|]. split; [exact Hi'|].
    split; [by apply out_moves_one|]. split; [split; [done|set_solver]|].
    split; [by intros q [= <-]|set_solver].
Qed.

#[export] Program Instance xpush_laws : SockBaseLaws (nn_xpush S) := {| sb_inv := xpush_inv |}.
Next Obligation. intros. split; [apply s_inv_init|done]. Qed.
Next Obligation. intros s known oa ia [Hi Hs]. split; [by eapply s_inv_sub|done]. Qed.
Next Obligation.
  intros [l] known oa ia p o [Hi Hs] Hp [Ho _] _ _. eexists _, 0. split.
  - cbn. unfold nn_xpush_add. by rewrite prio_check.
  - left. split; [done|]. split; [by apply s_add_ok|set_solver].
Qed.
Next Obligation.
  intros [l] known oa ia st p [Hi Hs] Hp _. cbn in *. unfold nn_xpush_rm, nn_lb_rm. cbn [lb].
  destruct (s_rm_ok _ _ _ p Hi Hp) as (l' & -> & Hi'). cbn [mbind outcome_bind].
  destruct (stat_snd_priority st (nn_lb_get_priority l')) as (st1 & -> & _ & Hc1);
    [apply (s_get_priority_ok _ _ _ Hi')|]. eexists _, _. split; [reflexivity|].
  split; [|done]. split; [done|set_solver].
Qed.
Next Obligation. intros s known oa ia p [Hi Hs] Hp _ _. eexists. split; [reflexivity|]. split; [done|set_solver]. Qed.
Next Obligation.
  intros [l] known oa ia st p [Hi Hs] Hp Hn. cbn in *. unfold nn_xpush_out, nn_lb_out. cbn [lb].
  destruct (s_activate_ok _ _ _ p Hi Hp Hn) as (l' & -> & Hi'). cbn [mbind outcome_bind].
  destruct (stat_snd_priority st (nn_lb_get_priority l')) as (st1 & -> & _ & Hc1);
    [apply (s_get_priority_ok _ _ _ Hi')|]. eexists _, _. split; [reflexivity|]. by split.
Qed.
Next Obligation.
  intros [l] known oa ia ps ans m _ _ [Hi Hs] Hw Hans. cbn in *. unfold nn_xpush_send. cbn [lb].
  destruct (lb_send_moves l ps known oa ans Hi Hw Hans) as (l' & ps' & rc & to & oa' & -> & Hi' & Hm & _).
  eexists _, _, _, _, oa'. split; [reflexivity|]. by split.
Qed.
Next Obligation. done. Qed.
Next Obligation. intros s [Hi _]. cbn. by apply (s_term_ok _ _ _ Hi). Qed.

#[export] Program Instance xpull_laws : SockBaseLaws (nn_xpull S) := {| sb_inv := xpull_inv |}.
Next Obligation. intros. split; [apply s_inv_init|done]. Qed.
Next Obligation. intros s known oa ia [Hi Hs]. split; [done|by eapply s_inv_sub]. Qed.
Next Obligation.
  intros [f] known oa ia p o [Hi Hs] Hp [_ Ho] _ _. eexists _, 0. split.
  - cbn. unfold nn_xpull_add. by rewrite prio_check.
  - left. split; [done|]. split; [by apply s_add_ok|set_solver].
Qed.
Next Obligation.
  intros [f] known oa ia st p [Hi Hs] Hp _. cbn in *. unfold nn_xpull_rm, nn_fq_rm. cbn [fq].
  destruct (s_rm_ok _ _ _ p Hi Hp) as (f' & -> & Hi'). eexists _, _. split; [reflexivity|].
  split; [|done]. split; [done|set_solver].
Qed.
Next Obligation.
  intros [f] known oa ia p [Hi Hs] Hp Hn _. cbn in *. unfold nn_xpull_in, nn_fq_in. cbn [fq].
  destruct (s_activate_ok _ _ _ p Hi Hp Hn) as (f' & -> & Hi'). eexists. split; [reflexivity|]. by split.
Qed.
Next Obligation. intros s known oa ia st p [Hi Hs] Hp _. eexists _, _. split; [reflexivity|]. split; [|done]. split; [done|set_solver]. Qed.
Next Obligation. done. Qed.
Next Obligation.
  intros [f] known oa ia ttl ps ib _ [Hi Hs] Hr Hib. cbn in *. unfold nn_xpull_recv. cbn [fq].
  destruct (fq_take_spec f ps known ia ib Hi Hr Hib) as
    [[-> ->]|(p & r & m & ms & f' & ps' & ib' & ia' & -> & _ & _ & _ & _ & Hi' & Hm & Hib' & _)].
  - eexists _, _, _, _, _, ∅. split; [reflexivity|]. split; [by split|]. split; [apply in_moves_refl|done].
  - eexists _, _, _, _, _, ia'. split; [reflexivity|]. by split.
Qed.
Next Obligation. intros s [Hi _]. cbn. by apply (s_term_ok _ _ _ Hi). Qed.
End laws.
