(* ===== verification/Dist.v ===== *)
(** * Dist: the distributor of outgoing messages (src/protocols/utils/dist.c)

    A list of the pipes that can be written to; a message goes to all of them
    but one that may be excluded.  A pipe's [nn_dist_data] is named by the
    address of its list item, which the theorems take to be the pipe's own.

    [dist_send_spec] says which pipes get the message and which stay in the
    list; the other lemmas give the distributor the interface of a set of
    active pipes. *)

From stdpp Require Import base gmap list sets.
From Stdlib Require Import ZArith Lia.
From S2P Require Import Prelude ListHeap Pipe Lb Sock Message Inbox SockBase.

Open Scope Z_scope.

(** [items] is the heap of the list items, [data] the pipe of each. *)
Record nn_dist : Type := Dist {
  items : heap; data : gmap positive loc; count : Z; pipes : nn_list
}.

Definition nn_dist_init : nn_dist := Dist ∅ ∅ 0 nn_list_init.

Definition nn_dist_term (self : nn_dist) : outcome unit :=
  _ ← check (count self =? 0);
  nn_list_term (pipes self).

Definition nn_dist_add (self : nn_dist) (x : loc) (p : loc) : nn_dist :=
  Dist (<[x := nn_list_item_init]> (items self)) (<[x := p]> (data self)) (count self) (pipes self).

Definition nn_dist_rm (self : nn_dist) (x : loc) : outcome nn_dist :=
  b ← nn_list_item_isinlist (items self) x;
  self ← (if b : bool then
            '(h, L, _) ← nn_list_erase (items self) (pipes self) x;
            Ret (Dist h (data self) (u32 (count self - 1)) L)
          else Ret self);
  _ ← nn_list_item_term (items self) x;
  Ret self.

Definition nn_dist_out (self : nn_dist) (x : loc) : outcome nn_dist :=
  '(h, L) ← nn_list_insert (items self) (pipes self) x (nn_list_end (pipes self));
  Ret (Dist h (data self) (u32 (count self + 1)) L).

(** The loop over the pipes; [sent] collects what was sent. *)
Fixpoint send_all (fuel : nat) (self : nn_dist) (ps : pipemap) (ans : loc -> answer unit)
    (m : nn_msg) (exclude : option loc) (it : link) (sent : list (loc * nn_msg))
    : outcome (nn_dist * pipemap * list (loc * nn_msg)) :=
  match fuel with
  | O => NoFuel
  | S fuel =>
      match it with
      | Null => Ret (self, ps, sent)
      | NotIn => Undef
      | At x =>
          p ← deref (data self) x;
          if bool_decide (Some p = exclude) then
            it ← nn_list_next (items self) (pipes self) (At x);
            send_all fuel self ps ans m exclude it sent
          else
            pb ← deref ps p;
            '(pb, rc) ← nn_pipe_send pb (ans p);
            _ ← check (rc >=? 0);
            let ps := <[p := pb]> ps in
            let sent := sent ++ [(p, m)] in
            if negb (Z.land rc NN_PIPE_RELEASE =? 0) then
              '(h, L, it) ← nn_list_erase (items self) (pipes self) x;
              send_all fuel (Dist h (data self) (u32 (count self - 1)) L) ps ans m exclude it sent
            else
              it ← nn_list_next (items self) (pipes self) (At x);
              send_all fuel self ps ans m exclude it sent
      end
  end.

Definition nn_dist_send (self : nn_dist) (ps : pipemap) (ans : loc -> answer unit) (m : nn_msg)
    (exclude : option loc) : outcome (nn_dist * pipemap * Z * list (loc * nn_msg)) :=
  if count self =? 0 then Ret (self, ps, 0, []) else
  '(self, ps, sent) ← send_all (S (base.size (items self))) self ps ans m exclude
     (nn_list_begin (pipes self)) [];
  Ret (self, ps, 0, sent).

(** ** The pipes in the list *)

Definition dist_list (self : nn_dist) (xs : list loc) : Prop :=
  list_rep (items self) (pipes self) xs /\ count self = Z.of_nat (length xs) /\
  Z.of_nat (length xs) < 2 ^ 32 /\ forall x, x ∈ xs -> data self !! x = Some x.

(** Who gets the message, and who stays in the list. *)
Definition targets (exclude : option loc) (xs : list loc) : list loc :=
  filter (fun p => Some p <> exclude) xs.

Definition stays (ans : loc -> answer unit) (exclude : option loc) (p : loc) : bool :=
  bool_decide (Some p = exclude) || sync (ans p).

Definition keeps_detached (h h' : heap) : Prop := forall z, detached h z -> detached h' z.

(** The active pipes of the lists [l] and [r]. *)
Abbreviation oset l := (list_to_set l : gset loc).

Lemma keep_moves (ps : pipemap) l (x : loc) r :
  out_moves ps ps (oset (l ++ x :: r)) (oset ((l ++ [x]) ++ r)).
Proof. rewrite <-app_assoc. apply out_moves_refl. Qed.

Lemma drop_moves (ps : pipemap) l (x : loc) r pb :
  NoDup (l ++ x :: r) -> ps !! x = Some pb -> outstate pb = OUT_IDLE ->
  out_moves ps (<[x := set_out pb OUT_ASYNC]> ps) (oset (l ++ x :: r)) (oset (l ++ r)).
Proof.
  intros Hnd Hp Hi. replace (oset (l ++ r)) with (oset (l ++ x :: r) ∖ {[x]}).
  - apply (out_moves_one _ _ _ _ false); [set_solver|done..].
  - apply NoDup_app in Hnd as (_ & Hd & [Hxr _]%NoDup_cons).
    assert (x ∉ l) by (intros Hx; apply (Hd x Hx); set_solver). set_solver.
Qed.

Lemma dist_list_erase self l x r :
  dist_list self (l ++ x :: r) ->
  exists h' L', nn_list_erase (items self) (pipes self) x = Ret (h', L', hd_or Null (At <$> r)) /\
    dist_list (Dist h' (data self) (u32 (count self - 1)) L') (l ++ r) /\
    detached h' x /\ keeps_detached (items self) h'.
Proof.
  intros (Hl & Hc & Hlt & Hd). destruct (erase_spec _ _ _ _ _ Hl) as (h' & L' & Her & Hl' & Hx & Hf).
  exists h', L'. split; [done|]. rewrite !length_app, length_cons in *. split; [|split; [done|]].
  - unfold dist_list. cbn [items pipes count data]. split; [done|]. split; [|split; [rewrite length_app; lia|]].
    + rewrite Hc, u32_small by lia. rewrite length_app. lia.
    + intros y Hy. apply Hd. set_solver.
  - intros z Hz. unfold detached. rewrite Hf; [done|].
    intros Hin. apply (detached_not_in _ _ _ _ Hl Hz). set_solver.
Qed.

Lemma send_all_spec ans m exclude fuel self ps l r sent :
  (length r < fuel)%nat -> dist_list self (l ++ r) -> writable ps (oset (l ++ r)) ->
  (forall p, good_answer (ans p)) ->
  exists self' ps', send_all fuel self ps ans m exclude (hd_or Null (At <$> r)) sent =
      Ret (self', ps', sent ++ ((fun p => (p, m)) <$> targets exclude r)) /\
    dist_list self' (l ++ filter (stays ans exclude) r) /\ data self' = data self /\
    out_moves ps ps' (oset (l ++ r)) (oset (l ++ filter (stays ans exclude) r)) /\
    keeps_detached (items self) (items self') /\
    forall x, x ∈ r -> stays ans exclude x = false -> detached (items self') x.
Proof.
  intros Hfuel Hl Hw Hans. revert fuel self ps l sent Hfuel Hl Hw.
  induction r as [|x r IH]; intros fuel self ps l sent Hfuel Hl Hw.
  - destruct fuel; [lia|]. cbn. eexists _, _. split; [by rewrite app_nil_r|].
    split; [done|]. split; [done|]. split; [apply out_moves_refl|]. split; [by intros ?|]. set_solver.
  - destruct fuel as [|fuel]; [cbn in Hfuel; lia|]. cbn [length] in Hfuel.
    cbn [send_all fmap list_fmap hd_or]. change (hd_or Null (At x :: (At <$> r))) with (At x). cbv iota.
    pose proof Hl as (Hrep & Hc & Hlt & Hd). assert (Hdx : data self !! x = Some x) by (apply Hd; set_solver).
    load Hdx. case_bool_decide as Hex.
    + rewrite (next_spec _ _ _ _ _ Hrep). cbn [mbind outcome_bind].
      destruct (IH fuel self ps (l ++ [x]) sent) as (self' & ps' & Hs & Hl' & Hda & Hm & Hk & Hdet);
        [lia|by rewrite <-app_assoc|by rewrite <-app_assoc|].
      assert (Hst : stays ans exclude x = true) by (unfold stays; by rewrite bool_decide_eq_true_2).
      rewrite <-app_assoc in Hl', Hm. exists self', ps'.
      unfold targets in *. rewrite filter_cons_False by tauto. rewrite filter_cons_True by by rewrite Hst.
      split; [done|]. split; [done|]. split; [done|]. split; [by rewrite <-app_assoc in Hm|]. split; [done|].
      intros y [->|Hy]%elem_of_cons; [congruence|]. by apply Hdet.
    + destruct (Hw x) as (pb & Hpb & Hidle); [set_solver|]. load Hpb.
      rewrite pipe_send_idle by (done || apply Hans). cbn [mbind outcome_bind].
      pose proof (send_rc_nonneg _ (Hans x)) as Hnn. rewrite (proj2 (Z.geb_le _ _) Hnn). cbn [check mbind outcome_bind].
      rewrite release_flag by done. unfold targets in *. rewrite filter_cons_True by tauto.
      assert (Hst : stays ans exclude x = sync (ans x)) by (unfold stays; by rewrite bool_decide_eq_false_2).
      destruct (sync (ans x)) eqn:Esync; cbn [negb].
      * rewrite (next_spec _ _ _ _ _ Hrep). cbn [mbind outcome_bind]. rewrite set_out_idle, insert_id by done.
        destruct (IH fuel self ps (l ++ [x]) (sent ++ [(x, m)])) as (self' & ps' & Hs & Hl' & Hda & Hm & Hk & Hdet);
          [lia|by rewrite <-app_assoc|by rewrite <-app_assoc|].
        rewrite <-app_assoc in Hl', Hm, Hs. exists self', ps'. rewrite filter_cons_True by by rewrite Hst.
        split; [done|]. split; [done|]. split; [done|]. split; [by rewrite <-app_assoc in Hm|]. split; [done|].
        intros y [->|Hy]%elem_of_cons; [congruence|]. by apply Hdet.
      * destruct (dist_list_erase _ _ _ _ Hl) as (h' & L' & -> & Hl' & Hx & Hk). cbn [mbind outcome_bind].
        assert (Hnd : NoDup (l ++ x :: r)) by apply Hrep.
        pose proof (drop_moves ps l x r pb Hnd Hpb Hidle) as Hm1.
        destruct (IH fuel (Dist h' (data self) (u32 (count self - 1)) L')
            (<[x := set_out pb OUT_ASYNC]> ps) l (sent ++ [(x, m)]))
          as (self' & ps' & Hs & Hl2 & Hda & Hm & Hk2 & Hdet); [lia|done|by eapply out_moves_writable|].
        exists self', ps'. rewrite filter_cons_False by (rewrite Hst; auto).
        split; [rewrite Hs; by rewrite <-app_assoc|]. split; [done|]. split; [done|].
        split; [by eapply out_moves_trans|]. split; [intros z Hz; by apply Hk2, Hk|].
        intros y [->|Hy]%elem_of_cons; [by intros _; apply Hk2|]. by apply Hdet.
Qed.

(** ** The distributor as a set of active pipes *)

Definition dist_inv (self : nn_dist) (known oa : gset loc) : Prop :=
  exists xs, dist_list self xs /\ oa = list_to_set xs /\ oa ⊆ known /\
    (forall x, x ∈ known -> x ∉ oa -> detached (items self) x) /\
    (forall x, x ∈ known -> data self !! x = Some x) /\ Z.of_nat (base.size known) < 2 ^ 31.

Lemma dist_inv_sub self known oa : dist_inv self known oa -> oa ⊆ known.
Proof. by intros (xs & _ & _ & ? & _). Qed.

Lemma dist_init : dist_inv nn_dist_init ∅ ∅.
Proof.
  exists []. split_and!; try done; [|set_solver..]. split; [by apply list_rep_nil|].
  split; [done|]. split; [done|]. set_solver.
Qed.

Lemma dist_add self known oa p :
  dist_inv self known oa -> p ∉ known -> Z.of_nat (base.size known) + 1 < 2 ^ 31 ->
  dist_inv (nn_dist_add self p p) ({[p]} ∪ known) oa.
Proof.
  intros (xs & (Hl & Hc & Hlt & Hd) & Hoa & Hsub & Hdet & Hdata & Hsz) Hp Hsz'. exists xs.
  assert (Hne : forall x, x ∈ xs -> p <> x) by set_solver. unfold dist_list. cbn. split_and!; try done.
  - eapply list_rep_agree; [|done]. intros y Hy. rewrite lookup_insert_ne; auto.
  - intros x Hx. rewrite lookup_insert_ne; auto.
  - set_solver.
  - intros x Hx Hxo. unfold detached. destruct (decide (p = x)) as [->|]; [by rewrite lookup_insert_eq|].
    rewrite lookup_insert_ne by done. apply Hdet; set_solver.
  - intros x Hx. destruct (decide (p = x)) as [->|]; [by rewrite lookup_insert_eq|].
    rewrite lookup_insert_ne by done. apply Hdata. set_solver.
  - rewrite size_union by set_solver. rewrite size_singleton. lia.
Qed.

Lemma dist_rm self known oa p :
  dist_inv self known oa -> p ∈ known ->
  exists self', nn_dist_rm self p = Ret self' /\ dist_inv self' (known ∖ {[p]}) (oa ∖ {[p]}).
Proof.
  intros (xs & Hl & Hoa & Hsub & Hdet & Hdata & Hsz) Hp. unfold nn_dist_rm.
  assert (Hsz' : Z.of_nat (base.size (known ∖ {[p]})) < 2 ^ 31).
  { pose proof (subseteq_size (known ∖ {[p]}) known ltac:(set_solver)). lia. }
  destruct (decide (p ∈ xs)) as [Hx|Hx].
  - rewrite (isinlist_in _ _ _ _ (proj1 Hl) Hx). cbn [mbind outcome_bind].
    assert (Hnd : NoDup xs) by apply Hl. apply list_elem_of_split in Hx as (l & r & ->).
    destruct (dist_list_erase _ _ _ _ Hl) as (h' & L' & -> & Hl' & Hdx & Hk). cbn [mbind outcome_bind items].
    rewrite item_term_ok by done. eexists. split; [reflexivity|]. exists (l ++ r).
    apply NoDup_app in Hnd as (_ & Hd & [Hxr _]%NoDup_cons).
    assert (p ∉ l) by (intros Hx; apply (Hd p Hx); set_solver).
    split; [done|]. split; [set_solver|]. split; [set_solver|]. cbn [items data]. split; [|split; [|done]].
    + intros x Hx Hxo. destruct (decide (x = p)) as [->|]; [done|]. apply Hk, Hdet; set_solver.
    + intros x Hx. apply Hdata. set_solver.
  - assert (Hdp : detached (items self) p) by (apply Hdet; set_solver).
    rewrite isinlist_detached by done. cbn [mbind outcome_bind]. rewrite item_term_ok by done.
    eexists. split; [reflexivity|]. exists xs. split; [done|]. split; [set_solver|]. split; [set_solver|].
    split; [|split; [|done]]; intros x; [intros ? ?; apply Hdet; set_solver|intros ?; apply Hdata; set_solver].
Qed.

Lemma list_len_size (xs : list loc) : NoDup xs -> length xs = base.size (oset xs).
Proof. intros. by rewrite size_list_to_set. Qed.

Lemma dist_out self known oa p :
  dist_inv self known oa -> p ∈ known -> p ∉ oa ->
  exists self', nn_dist_out self p = Ret self' /\ dist_inv self' known ({[p]} ∪ oa).
Proof.
  intros (xs & (Hl & Hc & Hlt & Hd) & Hoa & Hsub & Hdet & Hdata & Hsz) Hp Hpo. unfold nn_dist_out.
  destruct (insert_end_spec _ _ _ p Hl (Hdet p Hp Hpo)) as (h' & L' & -> & Hl' & Hf).
  cbn [mbind outcome_bind]. eexists. split; [reflexivity|]. exists (xs ++ [p]).
  assert (Hle : (length (xs ++ [p]) <= base.size known)%nat).
  { rewrite list_len_size by apply Hl'. apply subseteq_size. set_solver. }
  rewrite length_app in Hle. cbn [length] in Hle.
  unfold dist_list. cbn [items pipes count data]. split_and!; try done.
  - rewrite length_app, Hc, u32_small; cbn [length]; lia.
  - rewrite length_app. cbn [length]. lia.
  - intros x Hx. apply Hdata. set_solver.
  - set_solver.
  - set_solver.
  - intros x Hx Hxo. unfold detached. rewrite Hf by set_solver. apply Hdet; set_solver.
Qed.

Lemma dist_term self : dist_inv self ∅ ∅ -> nn_dist_term self = Ret tt.
Proof.
  intros (xs & (Hl & Hc & _) & Hoa & _). assert (xs = []) as -> by (destruct xs; set_solver).
  unfold nn_dist_term. rewrite Hc. by apply (term_spec _ _ _ Hl).
Qed.

Lemma dist_send_spec self ps known oa ans m exclude :
  dist_inv self known oa -> writable ps oa -> (forall p, good_answer (ans p)) ->
  exists self' ps' to oa', nn_dist_send self ps ans m exclude =
      Ret (self', ps', 0, (fun p => (p, m)) <$> to) /\
    dist_inv self' known oa' /\ out_moves ps ps' oa oa' /\ NoDup to /\
    (forall p, (p ∈ to) <-> (p ∈ oa) /\ Some p <> exclude) /\
    (forall p, (p ∈ oa') <-> (p ∈ oa) /\ stays ans exclude p = true).
Proof.
  intros (xs & Hl & -> & Hsub & Hdet & Hdata & Hsz) Hw Hans. unfold nn_dist_send.
  pose proof Hl as (Hrep & Hc & Hlt & Hd).
  destruct xs as [|x xs].
  - rewrite Hc. exists self, ps, [], ∅. split; [done|]. split; [exists []; by split_and!|].
    split; [apply out_moves_refl|]. split; [constructor|]. set_solver.
  - rewrite Hc. rewrite (proj2 (Z.eqb_neq _ 0)) by (cbn [length]; lia).
    destruct (send_all_spec ans m exclude (S (base.size (items self))) self ps [] (x :: xs) [])
      as (self' & ps' & Hs & Hl' & Hda & Hm & Hk & Hd');
      [pose proof (list_rep_size _ _ _ Hrep); lia|done..|].
    rewrite (begin_spec _ _ _ Hrep), Hs. cbn [mbind outcome_bind app].
    exists self', ps', (targets exclude (x :: xs)), (oset (filter (stays ans exclude) (x :: xs))).
    assert (Hst : forall p, (p ∈ oset (filter (stays ans exclude) (x :: xs))) <->
      (p ∈ oset (x :: xs)) /\ stays ans exclude p = true).
    { intros p. rewrite !elem_of_list_to_set, list_elem_of_filter. rewrite Is_true_true. tauto. }
    split; [done|]. split; [|split; [done|split; [apply NoDup_filter, Hrep|split; [|done]]]].
    + exists (filter (stays ans exclude) (x :: xs)). split; [done|]. split; [done|].
      split; [intros p [Hp _]%Hst; by apply Hsub|]. split; [|split; [by rewrite Hda|done]].
      intros p Hp Hpo. destruct (decide (p ∈ oset (x :: xs))) as [Hin|Hn]; [|by apply Hk, Hdet].
      apply Hd'; [by apply elem_of_list_to_set in Hin|]. destruct (stays ans exclude p) eqn:E; [|done].
      exfalso. apply Hpo, Hst. done.
    + intros p. unfold targets. rewrite list_elem_of_filter, elem_of_list_to_set. tauto.
Qed.
