(* ===== verification/Pubsub.v ===== *)
(** * Pubsub: the PUB and SUB sockets (src/protocols/pubsub/xpub.c, xsub.c)

    PUB distributes a message to all its peers.  SUB fair-queues the messages
    of its peers and drops those that no subscription of its trie matches.

    PUB keeps the laws of SockBase.v.  [pub_delivers] says whom a message goes
    to; [sub_filters] what a receive returns and what it drops. *)

From stdpp Require Import base gmap list sets.
From Stdlib Require Import ZArith Lia.
From S2P Require Import Prelude ListHeap Trie TrieSpec Priolist Sched Pipe Lb Fq Sock Message Inbox SockBase FqInbox Pipeline Dist.

Open Scope Z_scope.

Definition NN_PUB : Z := 2 * 16 + 0.
Definition NN_SUB : Z := 2 * 16 + 1.
Definition NN_SUB_SUBSCRIBE : Z := 1.
Definition NN_SUB_UNSUBSCRIBE : Z := 2.

(** ** xpub.c *)

Record nn_xpub : Type := Xpub { outpipes : nn_dist }.

Definition nn_xpub_init : nn_xpub := Xpub nn_dist_init.

Definition nn_xpub_term (self : nn_xpub) : outcome unit := nn_dist_term (outpipes self).

Definition nn_xpub_add (self : nn_xpub) (p : loc) : nn_xpub * Z :=
  (Xpub (nn_dist_add (outpipes self) p p), 0).

Definition nn_xpub_rm (self : nn_xpub) (p : loc) : outcome nn_xpub :=
  d ← nn_dist_rm (outpipes self) p; Ret (Xpub d).

(** We shouldn't get any messages from subscribers. *)
Definition nn_xpub_in (self : nn_xpub) (p : loc) : outcome nn_xpub :=
  _ ← check false; Ret self.

Definition nn_xpub_out (self : nn_xpub) (p : loc) : outcome nn_xpub :=
  d ← nn_dist_out (outpipes self) p; Ret (Xpub d).

Definition nn_xpub_events (self : nn_xpub) : Z := NN_SOCKBASE_EVENT_OUT.

Definition nn_xpub_send (self : nn_xpub) (ps : pipemap) (ans : loc -> answer unit) (m : nn_msg)
    : outcome (nn_xpub * pipemap * Z * list (loc * nn_msg)) :=
  '(d, ps, rc, sent) ← nn_dist_send (outpipes self) ps ans m None;
  Ret (Xpub d, ps, rc, sent).

Definition nn_xpub_setopt (self : nn_xpub) (level opt : Z) (optval : list Z) : Z := - ENOPROTOOPT.

Definition nn_xpub_getopt (self : nn_xpub) (level opt : Z) : Z := - ENOPROTOOPT.

Definition nn_xpub_ispeer (socktype : Z) : Z := if socktype =? NN_SUB then 1 else 0.

#[export] Instance xpub_base : SockBase nn_xpub := {|
  sb_norecv := true;
  sb_nosend := false;
  sb_quiet := true;
  sb_plain := false;
  sb_init _ := nn_xpub_init;
  sb_term := nn_xpub_term;
  sb_room _ := true;
  sb_add s p _ := Ret (nn_xpub_add s p);
  sb_rm s st p := s ← nn_xpub_rm s p; Ret (s, st);
  sb_in := nn_xpub_in;
  sb_out s st p := s ← nn_xpub_out s p; Ret (s, st);
  sb_events := nn_xpub_events;
  sb_send := nn_xpub_send;
  sb_recv _ _ _ _ := Undef
|}.

(** ** xsub.c *)

Record nn_xsub (S : Type) : Type := Xsub { fq : S; trie : nn_trie }.
Arguments Xsub {S}.
Arguments fq {S}.
Arguments trie {S}.

Section xsub.
  Context {S : Type} `{Scheduler S}.

Definition nn_xsub_init : nn_xsub S := Xsub nn_fq_init nn_trie_init.

(** Returns the trie nodes that are freed. *)
Definition nn_xsub_term (self : nn_xsub S) : outcome (list node) :=
  let freed := nn_trie_term (trie self) in
  _ ← nn_fq_term (fq self); Ret freed.

Definition nn_xsub_add (self : nn_xsub S) (p : loc) (opts : nn_ep_options)
    : outcome (nn_xsub S * Z) :=
  _ ← check ((1 <=? Pipe.rcvprio opts) && (Pipe.rcvprio opts <=? 16));
  Ret (Xsub (nn_fq_add (fq self) p (Pipe.rcvprio opts)) (trie self), 0).

Definition nn_xsub_rm (self : nn_xsub S) (p : loc) : outcome (nn_xsub S) :=
  f ← nn_fq_rm (fq self) p; Ret (Xsub f (trie self)).

Definition nn_xsub_in (self : nn_xsub S) (p : loc) : outcome (nn_xsub S) :=
  f ← nn_fq_in (fq self) p; Ret (Xsub f (trie self)).

Definition nn_xsub_out (self : nn_xsub S) (p : loc) : outcome (nn_xsub S) := Ret self.

Definition nn_xsub_events (self : nn_xsub S) : Z :=
  if nn_fq_can_recv (fq self) =? 0 then 0 else NN_SOCKBASE_EVENT_IN.

(** The loop of [nn_xsub_recv]; [was] is what the caller's message is. *)
Fixpoint recv_loop (fuel : nat) (self : nn_xsub S) (ps : pipemap) (ib : inbox) (was : received)
    : outcome (nn_xsub S * pipemap * inbox * Z * received) :=
  match fuel with
  | O => NoFuel
  | Datatypes.S fuel =>
      '(f, ps, ib, rc, got) ← fq_take (fq self) ps ib;
      let self := Xsub f (trie self) in
      if rc =? - EAGAIN then Ret (self, ps, ib, - EAGAIN, was) else
      _ ← check (rc >=? 0);
      match got with
      | None => Undef
      | Some (_, m) =>
          rc ← nn_trie_match (trie self) (body m);
          if rc =? 0 then recv_loop fuel self ps ib Terminated else
          if rc =? 1 then Ret (self, ps, ib, 0, Received m) else
          _ ← check false; Undef
      end
  end.

Definition nn_xsub_recv (self : nn_xsub S) (ps : pipemap) (ib : inbox)
    : outcome (nn_xsub S * pipemap * inbox * Z * received) :=
  recv_loop (Datatypes.S (pending ib)) self ps ib Untouched.

Definition nn_xsub_setopt (self : nn_xsub S) (level opt : Z) (optval : list Z)
    : outcome (nn_xsub S * Z) :=
  if negb (level =? NN_SUB) then Ret (self, - ENOPROTOOPT) else
  if opt =? NN_SUB_SUBSCRIBE then
    '(t, rc) ← nn_trie_subscribe (trie self) optval;
    Ret (Xsub (fq self) t, if rc >=? 0 then 0 else rc)
  else if opt =? NN_SUB_UNSUBSCRIBE then
    '(t, rc) ← nn_trie_unsubscribe (trie self) optval;
    Ret (Xsub (fq self) t, if rc >=? 0 then 0 else rc)
  else Ret (self, - ENOPROTOOPT).

Definition nn_xsub_getopt (self : nn_xsub S) (level opt : Z) : Z := - ENOPROTOOPT.

Definition nn_xsub_ispeer (socktype : Z) : Z := if socktype =? NN_PUB then 1 else 0.
End xsub.

(** ** PUB keeps the laws *)

Definition xpub_inv (s : nn_xpub) (known oa ia : gset loc) : Prop :=
  dist_inv (outpipes s) known oa /\ ia ⊆ known.

Lemma xpub_send_ok (s : nn_xpub) known oa ia ps ans m :
  xpub_inv s known oa ia -> writable ps oa -> (forall p, good_answer (ans p)) ->
  exists s' ps' to oa', nn_xpub_send s ps ans m = Ret (s', ps', 0, (fun p => (p, m)) <$> to) /\
    xpub_inv s' known oa' ia /\ out_moves ps ps' oa oa' /\ NoDup to /\
    forall p, (p ∈ to) <-> (p ∈ oa).
Proof.
  destruct s as [d]. intros [Hi Hs] Hw Hans. cbn in *. unfold nn_xpub_send. cbn [outpipes].
  destruct (dist_send_spec d ps known oa ans m None Hi Hw Hans)
    as (d' & ps' & to & oa' & -> & Hi' & Hm & Hnd & Hto & _).
  eexists _, _, to, oa'. split; [reflexivity|]. split; [by split|]. split; [done|]. split; [done|].
  intros p. rewrite Hto. naive_solver.
Qed.

#[export] Program Instance xpub_laws : SockBaseLaws nn_xpub := {| sb_inv := xpub_inv |}.
Next Obligation. intros random. split; [apply dist_init|done]. Qed.
Next Obligation. intros s known oa ia [Hi Hs]. split; [by eapply dist_inv_sub|done]. Qed.
Next Obligation.
  intros [d] known oa ia p o [Hi Hs] Hp _ _ Hsz. eexists _, 0. split; [reflexivity|].
  left. split; [done|]. split; [by apply dist_add|set_solver].
Qed.
Next Obligation.
  intros [d] known oa ia st p [Hi Hs] Hp _. cbn in *. unfold nn_xpub_rm. cbn [outpipes].
  destruct (dist_rm d known oa p Hi Hp) as (d' & -> & Hi'). eexists _, _. split; [reflexivity|].
  split; [|done]. split; [done|set_solver].
Qed.
Next Obligation. done. Qed.
Next Obligation.
  intros [d] known oa ia st p [Hi Hs] Hp Hn. cbn in *. unfold nn_xpub_out. cbn [outpipes].
  destruct (dist_out d known oa p Hi Hp Hn) as (d' & -> & Hi'). eexists _, _. split; [reflexivity|].
  by split.
Qed.
Next Obligation.
  intros s known oa ia ps ans m _ _ Hi Hw Hans.
  destruct (xpub_send_ok s known oa ia ps ans m Hi Hw Hans) as (s' & ps' & to & oa' & Hs & Hi' & Hm & _).
  eexists _, _, _, _, _. split; [exact Hs|]. by split.
Qed.
Next Obligation. done. Qed.
Next Obligation. intros s [Hi _]. cbn. by apply dist_term. Qed.

(** ** What SUB receives *)

(** Messages taken from the transports, none of which a subscription matches. *)
Inductive drops (t : nn_trie) : inbox -> inbox -> Prop :=
| drops_nil ib : drops t ib ib
| drops_cons ib p r m ms ib' : ib !! p = Some ((r, m) :: ms) -> ~ matches t (body m) ->
    drops t (take_message ib (Some p)) ib' -> drops t ib ib'.

(** No message leads the search of the trie behind its end. *)
Definition searchable (t : nn_trie) (ib : inbox) : Prop :=
  forall p ms, ib !! p = Some ms ->
  Forall (fun x => matches t (body (snd x)) \/ reaches t (body (snd x)) = false) ms.

Lemma searchable_take t ib p : searchable t ib -> searchable t (take_message ib (Some p)).
Proof.
  intros Hs q ms Hq. cbn [take_message] in Hq. destruct (decide (q = p)) as [->|Hne].
  - rewrite lookup_alter_eq in Hq. destruct (ib !! p) as [l|] eqn:E; [|done]. injection Hq as <-.
    specialize (Hs _ _ E). destruct l; [done|]. by apply Forall_cons in Hs as [_ Hs].
  - rewrite lookup_alter_ne in Hq by done. by eapply Hs.
Qed.

(** [recv_loop] ends with a message that matches, or has dropped everything. *)
Definition sub_result (t : nn_trie) (ib ib' : inbox) (ia' : gset loc) (rc : Z) (got : received) : Prop :=
  (rc = - EAGAIN /\ ia' = ∅ /\ drops t ib ib') \/
  exists ib0 p r m ms, rc = 0 /\ got = Received m /\ drops t ib ib0 /\
    ib0 !! p = Some ((r, m) :: ms) /\ ib' = take_message ib0 (Some p) /\ matches t (body m).

Lemma sub_result_drop t ib p r m ms ib' ia' rc got :
  ib !! p = Some ((r, m) :: ms) -> ~ matches t (body m) ->
  sub_result t (take_message ib (Some p)) ib' ia' rc got -> sub_result t ib ib' ia' rc got.
Proof.
  intros Hp Hm [(-> & -> & Hd)|(ib0 & q & r' & m' & ms' & -> & -> & Hd & Hq & -> & Hm')].
  - left. split_and!; try done. by eapply drops_cons.
  - right. exists ib0, q, r', m', ms'. split_and!; try done. by eapply drops_cons.
Qed.

Lemma match_cases t data :
  wf_slot t -> matches t data \/ reaches t data = false ->
  (matches t data /\ nn_trie_match t data = Ret 1) \/ (~ matches t data /\ nn_trie_match t data = Ret 0).
Proof.
  intros Hwf Hcase. unfold nn_trie_match.
  destruct (match_at_spec (Datatypes.S (Datatypes.S (length data))) t data Hwf) as [H1 H0]; [lia|].
  destruct (decide (matches t data)) as [Hm|Hm]; [left; auto|right].
  split; [done|]. rewrite H0 by done. by destruct Hcase as [?| ->].
Qed.

Section xsub_laws.
  Context {S : Type} `{SchedulerLaws S}.

Lemma recv_loop_spec fuel (self : nn_xsub S) ps known ia ib was :
  (pending ib < fuel)%nat -> s_inv (fq self) known ia -> readable ps ia -> inbox_ok ps ib ->
  wf_slot (trie self) -> searchable (trie self) ib ->
  exists self' ps' ib' rc got ia', recv_loop fuel self ps ib was = Ret (self', ps', ib', rc, got) /\
    trie self' = trie self /\ s_inv (fq self') known ia' /\ in_moves ps ps' ia ia' /\
    inbox_ok ps' ib' /\ sub_result (trie self) ib ib' ia' rc got.
Proof.
  revert self ps ia ib was. induction fuel as [|fuel IH]; [lia|].
  intros [f t] ps ia ib was Hf Hi Hr Hib Hwf Hs. cbn [fq trie] in *. cbn [recv_loop fq trie].
  destruct (fq_take_spec f ps known ia ib Hi Hr Hib) as
    [[-> ->] | (p & r & m & ms & f' & ps' & ib' & ia' & -> & _ & Hp & Hib1 & Hg & Hi' & Hm & Hib' & Hpend)];
    cbn [mbind outcome_bind].
  - rewrite Z.eqb_refl. eexists (Xsub f t), _, _, _, _, _. split; [reflexivity|].
    split; [done|]. split; [exact Hi|]. split; [apply in_moves_refl|]. split; [done|].
    left. split_and!; [done|done|constructor].
  - destruct Hg as (Hr0 & _). cbn [fst] in Hr0. rewrite (proj2 (Z.eqb_neq r (- EAGAIN))) by (unfold EAGAIN; lia).
    rewrite (proj2 (Z.geb_le _ _) Hr0). cbn [check mbind outcome_bind].
    pose proof (Hs _ _ Hp) as Hm0. apply Forall_cons in Hm0 as [Hm0 _]. cbn [snd] in Hm0.
    destruct (match_cases t (body m) Hwf Hm0) as [[Hma ->]|[Hma ->]]; cbn [mbind outcome_bind].
    + change (1 =? 0) with false. change (1 =? 1) with true. cbv iota.
      eexists (Xsub f' t), ps', ib', _, _, ia'. split; [reflexivity|]. split_and!; try done.
      right. exists ib, p, r, m, ms. split_and!; try done. constructor.
    + change (0 =? 0) with true. cbv iota.
      destruct (IH (Xsub f' t) ps' ia' ib' Terminated) as
        (self2 & ps2 & ib2 & rc2 & got2 & ia2 & He & Ht2 & Hi2 & Hm2 & Hib2 & Hres); cbn [fq trie]; try done.
      { lia. }
      { by eapply in_moves_readable. }
      { rewrite Hib1. by apply searchable_take. }
      eexists self2, ps2, ib2, rc2, got2, ia2. split; [exact He|]. split; [done|]. split; [done|].
      split; [by eapply in_moves_trans|]. split; [done|]. cbn [trie] in Hres. subst ib'.
      by eapply sub_result_drop.
Qed.
End xsub_laws.

(** C13.  A SUB socket with a well-formed trie returns from a receive, either
    with a message that some subscription is a prefix of, having dropped only
    messages that no subscription matches; or with -EAGAIN, having dropped
    only such messages and with no pipe left that has a message to read.  The
    subscriptions do not change.  (For messages that do not make the trie
    search read behind their end.) *)
Theorem sub_filters {S} `{SchedulerLaws S} (self : nn_xsub S) ps known ia ib :
  s_inv (fq self) known ia -> readable ps ia -> inbox_ok ps ib ->
  wf_slot (trie self) -> searchable (trie self) ib ->
  exists self' ps' ib' rc got ia', nn_xsub_recv self ps ib = Ret (self', ps', ib', rc, got) /\
    trie self' = trie self /\ s_inv (fq self') known ia' /\ in_moves ps ps' ia ia' /\
    inbox_ok ps' ib' /\ sub_result (trie self) ib ib' ia' rc got.
Proof. intros. apply recv_loop_spec; [lia|done..]. Qed.

(** One pipe, subscriptions "ab" and "ac"; the pipe has "b" and "abx". *)
Lemma sub_filters_witness :
  let pb := Pipebase P_ACTIVE IN_IDLE OUT_IDLE (EpOptions 8 8 1) in
  let ps : pipemap := {[ 1%positive := pb ]} in
  let ib : inbox := {[ 1%positive := [(0, Msg [] [98]); (0, Msg [] [97; 98; 120])] ]} in
  exists f self' ps' ib' ia', s_inv (S := priosched) f {[ 1%positive ]} {[ 1%positive ]} /\
    nn_xsub_recv (Xsub f trie_ab_ac) ps ib = Ret (self', ps', ib', 0, Received (Msg [] [97; 98; 120])) /\
    sub_result trie_ab_ac ib ib' ia' 0 (Received (Msg [] [97; 98; 120])).
Proof.
  intros pb ps ib.
  assert (Ha : s_inv (S := priosched) (s_add s_init 1%positive 8) {[ 1%positive ]} ∅).
  { pose proof (s_add_ok (S := priosched) s_init ∅ ∅ 1%positive 8 s_inv_init) as Hadd.
    rewrite (right_id_L ∅ _) in Hadd. apply Hadd; [set_solver|unfold NN_PRIOLIST_SLOTS; lia]. }
  destruct (s_activate_ok _ _ _ 1%positive Ha) as (f & Hf & Hi); [set_solver|set_solver|].
  rewrite (right_id_L ∅ _) in Hi.
  destruct (sub_filters (Xsub f trie_ab_ac) ps {[ 1%positive ]} {[ 1%positive ]} ib) as
    (self' & ps' & ib' & rc & got & ia' & He & _ & _ & _ & _ & Hres).
  - exact Hi.
  - intros p ->%elem_of_singleton. by exists pb.
  - split.
    + intros p pb' [<- <-]%lookup_singleton_Some. eexists. split; [apply lookup_singleton_eq|done].
    + intros p ms [<- <-]%lookup_singleton_Some. by repeat constructor.
  - apply wf_trie_ab_ac.
  - intros p ms [<- <-]%lookup_singleton_Some. constructor; [by right|]. constructor; [|constructor].
    left. exists [97; 98], [120]. split; [done|]. by vm_compute.
  - assert (Hrun : exists self' ps' ib', nn_xsub_recv (Xsub f trie_ab_ac) ps ib =
      Ret (self', ps', ib', 0, Received (Msg [] [97; 98; 120]))).
    { vm_compute in Hf. injection Hf as <-. eexists _, _, _. vm_compute. reflexivity. }
    destruct Hrun as (self2 & ps2 & ib2 & Hrun). rewrite Hrun in He. injection He as -> -> -> <- <-.
    exists f, self', ps', ib', ia'. auto.
Defined.

(** ** Whom PUB sends to *)

(** C14.  In every state a PUB socket can get into, a send succeeds, and passes
    the message to every pipe the transport is not busy sending on and whose
    readiness has been reported, once each, and to no other. *)
Theorem pub_delivers (s : bsys (T := nn_xpub)) (ans : loc -> answer unit) (m : nn_msg) :
  breach s -> (forall p, good_answer (ans p)) ->
  exists self ps' to, nn_xpub_send (proto s) (ps s) ans m = Ret (self, ps', 0, (fun p => (p, m)) <$> to) /\
    NoDup to /\ forall p, (p ∈ to) <-> ready_out s p.
Proof.
  intros Hr Hans. destruct (breach_view s Hr) as (oa & ia & Hi & Hw & _ & _ & Hrd).
  destruct (xpub_send_ok (proto s) _ oa ia (ps s) ans m Hi Hw Hans) as (t' & ps' & to & oa' & Hs & _ & _ & Hnd & Hto).
  exists t', ps', to. split; [done|]. split; [done|]. intros p. by rewrite Hto.
Qed.

(** Two subscribers; the first is ready, the second has just connected. *)
Lemma pub_delivers_witness :
  let m := Msg [] [104; 105] in
  let ans := fun _ : loc => Answer 0 true tt in
  exists (s : bsys (T := nn_xpub)) self ps', breach s /\
    nn_xpub_send (proto s) (ps s) ans m = Ret (self, ps', 0, [(1%positive, m)]) /\
    is_Some (ps s !! 2%positive).
Proof.
  intros m ans. set (o := EpOptions 8 8 1).
  set (s0 := Bsys nn_xpub_init init_stats ∅ [] ∅).
  set (ls := [BStart 1%positive o; BStart 2%positive o; BDeliver]).
  destruct (brun s0 ls) as [s| | |] eqn:Hrun; [|by vm_compute in Hrun..].
  assert (Hs : breach s).
  { eapply (breach_run s0 ls); [exact (breach_init 0)| |exact Hrun]. by vm_compute. }
  destruct (pub_delivers s ans m Hs) as (self & ps' & to & Hsend & _); [done|].
  exists s, self, ps'. split; [exact Hs|]. vm_compute in Hrun. injection Hrun as <-.
  split; [|by eexists]. vm_compute in Hsend. injection Hsend as <- <- _. vm_compute. reflexivity.
Defined.
