(* ===== verification/Bus.v ===== *)
(** * Bus: the BUS sockets (src/protocols/bus/xbus.c, bus.c)

    A message goes to all peers.  The raw socket puts the address of the pipe a
    message came from in its header, eight bytes, and does not send a message
    back to the pipe its header names; so a device made of raw sockets does not
    echo ([bus_no_echo]).  The cooked socket hides the header. *)

From stdpp Require Import base gmap list sets.
From Stdlib Require Import ZArith Lia.
From S2P Require Import Prelude Wire ListHeap Priolist Sched Pipe Lb Fq Sock Message Inbox SockBase FqInbox Pipeline Dist.

Open Scope Z_scope.

Definition NN_BUS : Z := 7 * 16 + 0.

(** The bytes of a pointer, least significant first, and back; 0 is NULL. *)
Definition pointer_bytes (p : loc) : list Z := rev (be_digits 8 (Zpos p)).

Definition pointer_of (bs : list Z) : option loc :=
  match be 0 (rev bs) with Zpos p => Some p | _ => None end.

Record nn_xbus (S : Type) : Type := Xbus { outpipes : nn_dist; inpipes : S }.
Arguments Xbus {S}.
Arguments outpipes {S}.
Arguments inpipes {S}.

Record nn_bus (S : Type) : Type := Bus { xbus : nn_xbus S }.
Arguments Bus {S}.
Arguments xbus {S}.

Section bus.
  Context {S : Type} `{Scheduler S}.

(** ** xbus.c *)

Definition nn_xbus_init : nn_xbus S := Xbus nn_dist_init nn_fq_init.

Definition nn_xbus_term (self : nn_xbus S) : outcome unit :=
  _ ← nn_fq_term (inpipes self);
  nn_dist_term (outpipes self).

Definition nn_xbus_add (self : nn_xbus S) (p : loc) (opts : nn_ep_options)
    : outcome (nn_xbus S * Z) :=
  let rcvprio := Pipe.rcvprio opts in
  _ ← check ((1 <=? rcvprio) && (rcvprio <=? 16));
  Ret (Xbus (nn_dist_add (outpipes self) p p) (nn_fq_add (inpipes self) p rcvprio), 0).

Definition nn_xbus_rm (self : nn_xbus S) (p : loc) : outcome (nn_xbus S) :=
  f ← nn_fq_rm (inpipes self) p;
  d ← nn_dist_rm (outpipes self) p;
  Ret (Xbus d f).

Definition nn_xbus_in (self : nn_xbus S) (p : loc) : outcome (nn_xbus S) :=
  f ← nn_fq_in (inpipes self) p; Ret (Xbus (outpipes self) f).

Definition nn_xbus_out (self : nn_xbus S) (p : loc) : outcome (nn_xbus S) :=
  d ← nn_dist_out (outpipes self) p; Ret (Xbus d (inpipes self)).

Definition nn_xbus_events (self : nn_xbus S) : Z :=
  Z.lor (if nn_fq_can_recv (inpipes self) =? 0 then 0 else NN_SOCKBASE_EVENT_IN) NN_SOCKBASE_EVENT_OUT.

Definition nn_xbus_send (self : nn_xbus S) (ps : pipemap) (ans : loc -> answer unit) (msg : nn_msg)
    : outcome (nn_xbus S * pipemap * Z * list (loc * nn_msg)) :=
  let hdrsz := size (sphdr msg) in
  let send exclude msg :=
    '(d, ps, rc, sent) ← nn_dist_send (outpipes self) ps ans msg exclude;
    Ret (Xbus d (inpipes self), ps, rc, sent) in
  if hdrsz =? 0 then send None msg else
  if hdrsz =? 8 then send (pointer_of (sphdr msg)) (Msg [] (body msg)) else
  Ret (self, ps, - EINVAL, []).

(** The loop of [nn_xbus_recv]: the next message without a header. *)
Fixpoint next_plain (fuel : nat) (f : S) (ps : pipemap) (ib : inbox) (was : received)
    : outcome (S * pipemap * inbox * Z * received * option (loc * nn_msg)) :=
  match fuel with
  | O => NoFuel
  | Datatypes.S fuel =>
      '(f, ps, ib, rc, got) ← fq_take f ps ib;
      if rc <? 0 then Ret (f, ps, ib, rc, was, None) else
      match got with
      | None => Undef
      | Some (p, m) =>
          if size (sphdr m) =? 0 then Ret (f, ps, ib, rc, Received m, Some (p, m))
          else next_plain fuel f ps ib Terminated
      end
  end.

Definition nn_xbus_recv (self : nn_xbus S) (ps : pipemap) (ib : inbox)
    : outcome (nn_xbus S * pipemap * inbox * Z * received) :=
  '(f, ps, ib, rc, was, got) ← next_plain (Datatypes.S (pending ib)) (inpipes self) ps ib Untouched;
  let self := Xbus (outpipes self) f in
  match got with
  | None => Ret (self, ps, ib, rc, was)
  | Some (p, m) => Ret (self, ps, ib, 0, Received (Msg (pointer_bytes p) (body m)))
  end.

Definition nn_xbus_setopt (self : nn_xbus S) (level opt : Z) (optval : list Z) : Z := - ENOPROTOOPT.

Definition nn_xbus_getopt (self : nn_xbus S) (level opt : Z) : Z := - ENOPROTOOPT.

Definition nn_xbus_ispeer (socktype : Z) : Z := if socktype =? NN_BUS then 1 else 0.

(** ** bus.c *)

Definition nn_bus_init : nn_bus S := Bus nn_xbus_init.

Definition nn_bus_term (self : nn_bus S) : outcome unit := nn_xbus_term (xbus self).

Definition nn_bus_send (self : nn_bus S) (ps : pipemap) (ans : loc -> answer unit) (msg : nn_msg)
    : outcome (nn_bus S * pipemap * Z * list (loc * nn_msg)) :=
  if negb (size (sphdr msg) =? 0) then Ret (self, ps, - EINVAL, []) else
  '(x, ps, rc, sent) ← nn_xbus_send (xbus self) ps ans msg;
  _ ← check (rc =? 0);
  Ret (Bus x, ps, 0, sent).

Definition nn_bus_recv (self : nn_bus S) (ps : pipemap) (ib : inbox)
    : outcome (nn_bus S * pipemap * inbox * Z * received) :=
  '(x, ps, ib, rc, got) ← nn_xbus_recv (xbus self) ps ib;
  if rc =? - EAGAIN then Ret (Bus x, ps, ib, - EAGAIN, got) else
  _ ← check (rc =? 0);
  match got with
  | Received m =>
      _ ← check (size (sphdr m) =? 8);
      Ret (Bus x, ps, ib, 0, Received (Msg [] (body m)))
  | _ => Undef
  end.

#[export] Instance xbus_base : SockBase (nn_xbus S) := {|
  sb_norecv := false;
  sb_nosend := false;
  sb_quiet := false;
  sb_plain := false;
  sb_init _ := nn_xbus_init;
  sb_term := nn_xbus_term;
  sb_room _ := true;
  sb_add := nn_xbus_add;
  sb_rm s st p := s ← nn_xbus_rm s p; Ret (s, st);
  sb_in := nn_xbus_in;
  sb_out s st p := s ← nn_xbus_out s p; Ret (s, st);
  sb_events := nn_xbus_events;
  sb_send := nn_xbus_send;
  sb_recv s _ := nn_xbus_recv s
|}.

#[export] Instance bus_base : SockBase (nn_bus S) := {|
  sb_norecv := false;
  sb_nosend := false;
  sb_quiet := false;
  sb_plain := false;
  sb_init _ := nn_bus_init;
  sb_term := nn_bus_term;
  sb_room _ := true;
  sb_add s p o := '(x, rc) ← nn_xbus_add (xbus s) p o; Ret (Bus x, rc);
  sb_rm s st p := x ← nn_xbus_rm (xbus s) p; Ret (Bus x, st);
  sb_in s p := x ← nn_xbus_in (xbus s) p; Ret (Bus x);
  sb_out s st p := x ← nn_xbus_out (xbus s) p; Ret (Bus x, st);
  sb_events s := nn_xbus_events (xbus s);
  sb_send := nn_bus_send;
  sb_recv s _ := nn_bus_recv s
|}.
End bus.

(** ** The laws *)

Lemma pointer_bytes_of (p : loc) : Zpos p < 2 ^ 64 -> pointer_of (pointer_bytes p) = Some p.
Proof.
  intros Hp. unfold pointer_of, pointer_bytes. rewrite rev_involutive, be_of_digits; [done|].
  change (8 * Z.of_nat 8) with 64. lia.
Qed.

Lemma pointer_bytes_size p : size (pointer_bytes p) = 8.
Proof. reflexivity. Qed.

Section laws.
  Context {S : Type} `{SchedulerLaws S}.

Definition xbus_inv (s : nn_xbus S) (known oa ia : gset loc) : Prop :=
  s_inv (inpipes s) known ia /\ dist_inv (outpipes s) known oa.

Lemma xbus_add_ok s known oa ia p o :
  xbus_inv s known oa ia -> p ∉ known -> valid_opts o -> Z.of_nat (base.size known) + 1 < 2 ^ 31 ->
  exists s', nn_xbus_add s p o = Ret (s', 0) /\ xbus_inv s' ({[p]} ∪ known) oa ia.
Proof.
  intros [Hf Hd] Hp [_ Ho] Hsz. eexists. unfold nn_xbus_add. rewrite prio_check by done.
  split; [reflexivity|]. split; [by apply s_add_ok|by apply dist_add].
Qed.

Lemma xbus_rm_ok s known oa ia p :
  xbus_inv s known oa ia -> p ∈ known ->
  exists s', nn_xbus_rm s p = Ret s' /\ xbus_inv s' (known ∖ {[p]}) (oa ∖ {[p]}) (ia ∖ {[p]}).
Proof.
  intros [Hf Hd] Hp. unfold nn_xbus_rm, nn_fq_rm. destruct (s_rm_ok _ _ _ p Hf Hp) as (f' & -> & Hf').
  destruct (dist_rm _ _ _ p Hd Hp) as (d' & Hr & Hd'). cbn [mbind outcome_bind]. rewrite Hr.
  eexists. by split.
Qed.

Lemma xbus_in_ok s known oa ia p :
  xbus_inv s known oa ia -> p ∈ known -> p ∉ ia ->
  exists s', nn_xbus_in s p = Ret s' /\ xbus_inv s' known oa ({[p]} ∪ ia).
Proof.
  intros [Hf Hd] Hp Hn. unfold nn_xbus_in, nn_fq_in. destruct (s_activate_ok _ _ _ p Hf Hp Hn) as (f' & -> & Hf').
  eexists. by split.
Qed.

Lemma xbus_out_ok s known oa ia p :
  xbus_inv s known oa ia -> p ∈ known -> p ∉ oa ->
  exists s', nn_xbus_out s p = Ret s' /\ xbus_inv s' known ({[p]} ∪ oa) ia.
Proof.
  intros [Hf Hd] Hp Hn. unfold nn_xbus_out. destruct (dist_out _ _ _ p Hd Hp Hn) as (d' & -> & Hd').
  eexists. by split.
Qed.

(** Whom a message is sent to; a header of another size is refused. *)
Lemma xbus_send_ok s known oa ia ps ans msg :
  xbus_inv s known oa ia -> writable ps oa -> (forall p, good_answer (ans p)) ->
  exists s' ps' rc to oa', nn_xbus_send s ps ans msg =
      Ret (s', ps', rc, (fun p => (p, Msg [] (body msg))) <$> to) /\
    xbus_inv s' known oa' ia /\ out_moves ps ps' oa oa' /\ NoDup to /\
    (if decide (size (sphdr msg) = 0) then rc = 0 /\ forall p, (p ∈ to) <-> (p ∈ oa)
     else if decide (size (sphdr msg) = 8) then
       rc = 0 /\ forall p, (p ∈ to) <-> (p ∈ oa) /\ Some p <> pointer_of (sphdr msg)
     else rc = - EINVAL /\ to = []).
Proof.
  intros [Hf Hd] Hw Hans. unfold nn_xbus_send.
  destruct (decide (size (sphdr msg) = 0)) as [E0|E0]; [|destruct (decide (size (sphdr msg) = 8)) as [E8|E8]].
  - rewrite E0. change (0 =? 0) with true. cbv iota.
    destruct (dist_send_spec _ ps known oa ans msg None Hd Hw Hans) as (d' & ps' & to & oa' & -> & Hd' & Hm & Hnd & Hto & _).
    cbn [mbind outcome_bind].
    assert (msg = Msg [] (body msg)) as <-.
    { destruct msg as [h b]. unfold size in E0. cbn in *. destruct h; [done|cbn in E0; lia]. }
    eexists _, _, _, to, oa'. split; [reflexivity|]. split; [by split|].
    split; [done|]. split; [done|]. split; [done|]. intros p. rewrite Hto. naive_solver.
  - rewrite E8. change (8 =? 0) with false. change (8 =? 8) with true. cbv iota.
    destruct (dist_send_spec _ ps known oa ans (Msg [] (body msg)) (pointer_of (sphdr msg)) Hd Hw Hans)
      as (d' & ps' & to & oa' & -> & Hd' & Hm & Hnd & Hto & _). cbn [mbind outcome_bind].
    eexists _, _, _, to, oa'. split; [reflexivity|]. split; [by split|]. by split_and!.
  - rewrite (proj2 (Z.eqb_neq _ _) E0), (proj2 (Z.eqb_neq _ _) E8).
    eexists s, ps, _, [], oa. split; [reflexivity|]. split; [by split|]. split; [apply out_moves_refl|].
    split; [constructor|done].
Qed.

(** Messages with a header are dropped. *)
Inductive skips : inbox -> inbox -> Prop :=
| skips_nil ib : skips ib ib
| skips_cons ib p r m ms ib' : ib !! p = Some ((r, m) :: ms) -> sphdr m <> [] ->
    skips (take_message ib (Some p)) ib' -> skips ib ib'.

(** The first message without a header, or none. *)
Definition plain_result (known ia : gset loc) (ib ib' : inbox) (ia' : gset loc) (rc : Z)
    (got : option (loc * nn_msg)) : Prop :=
  (rc = - EAGAIN /\ got = None /\ ia' = ∅ /\ skips ib ib') \/
  exists ib0 p r m ms, (p ∈ known) /\ rc = r /\ 0 <= r /\ got = Some (p, m) /\ sphdr m = [] /\ skips ib ib0 /\
    ib0 !! p = Some ((r, m) :: ms) /\ ib' = take_message ib0 (Some p).

Lemma plain_result_skip known ia0 ia ib p r m ms ib' ia' rc got :
  ib !! p = Some ((r, m) :: ms) -> sphdr m <> [] ->
  plain_result known ia0 (take_message ib (Some p)) ib' ia' rc got -> plain_result known ia ib ib' ia' rc got.
Proof.
  intros Hp Hm [(-> & -> & -> & Hd)|(ib0 & q & r' & m' & ms' & Hq & -> & Hr & -> & Hh & Hd & Hl & ->)].
  - left. split_and!; try done. by eapply skips_cons.
  - right. exists ib0, q, r', m', ms'. split_and!; try done. by eapply skips_cons.
Qed.

Lemma next_plain_spec fuel (f : S) ps known ia ib was :
  (pending ib < fuel)%nat -> s_inv f known ia -> readable ps ia -> inbox_ok ps ib ->
  exists f' ps' ib' rc was' got ia', next_plain fuel f ps ib was = Ret (f', ps', ib', rc, was', got) /\
    s_inv f' known ia' /\ in_moves ps ps' ia ia' /\ inbox_ok ps' ib' /\
    plain_result known ia ib ib' ia' rc got.
Proof.
  revert f ps ia ib was. induction fuel as [|fuel IH]; [lia|]. intros f ps ia ib was Hf Hi Hr Hib.
  cbn [next_plain]. destruct (fq_take_spec f ps known ia ib Hi Hr Hib) as
    [[-> ->] | (p & r & m & ms & f' & ps' & ib' & ia' & -> & Hpa & Hp & Hib1 & Hg & Hi' & Hm & Hib' & Hpend)];
    cbn [mbind outcome_bind].
  - eexists f, ps, ib, _, _, None, ∅. split; [reflexivity|]. split; [done|]. split; [apply in_moves_refl|].
    split; [done|]. left. split_and!; [done..|constructor].
  - destruct Hg as (Hr0 & _). cbn [fst] in Hr0. rewrite (proj2 (Z.ltb_ge r 0)) by lia.
    assert (Hpk : p ∈ known) by (by apply (s_inv_sub _ _ _ Hi)).
    destruct (Z.eqb_spec (size (sphdr m)) 0) as [E|E].
    + eexists f', ps', ib', _, _, _, ia'. split; [reflexivity|]. split_and!; try done. right.
      exists ib, p, r, m, ms. split_and!; try done; [|constructor].
      unfold size in E. by destruct (sphdr m); [|cbn in E; lia].
    + destruct (IH f' ps' ia' ib' Terminated) as (f2 & ps2 & ib2 & rc2 & w2 & got2 & ia2 & He & Hi2 & Hm2 & Hib2 & Hres);
        [lia|done|by eapply in_moves_readable|done|].
      eexists f2, ps2, ib2, rc2, w2, got2, ia2. split; [exact He|]. split; [done|].
      split; [by eapply in_moves_trans|]. split; [done|]. subst ib'.
      eapply plain_result_skip; [exact Hp| |exact Hres]. intros Hnil. by rewrite Hnil in E.
Qed.

Lemma xbus_recv_ok s known oa ia ps ib :
  xbus_inv s known oa ia -> readable ps ia -> inbox_ok ps ib ->
  exists s' ps' ib' rc got ia', nn_xbus_recv s ps ib = Ret (s', ps', ib', rc, got) /\
    xbus_inv s' known oa ia' /\ in_moves ps ps' ia ia' /\ inbox_ok ps' ib' /\
    (rc = - EAGAIN \/ exists ib0 p r m ms, rc = 0 /\ (p ∈ known) /\ sphdr m = [] /\ skips ib ib0 /\
       ib0 !! p = Some ((r, m) :: ms) /\ ib' = take_message ib0 (Some p) /\
       got = Received (Msg (pointer_bytes p) (body m))).
Proof.
  intros [Hf Hd] Hr Hib. unfold nn_xbus_recv.
  destruct (next_plain_spec (Datatypes.S (pending ib)) (inpipes s) ps known ia ib Untouched)
    as (f' & ps' & ib' & rc & was & got & ia' & -> & Hf' & Hm & Hib' & Hres); [lia|done..|].
  cbn [mbind outcome_bind].
  destruct Hres as [(-> & -> & -> & Hsk)|(ib0 & p & r & m & ms & Hp & -> & Hr0 & -> & Hh & Hsk & Hl & Hib1)].
  - eexists _, _, _, _, _, ∅. split; [reflexivity|]. split; [by split|]. split; [done|]. split; [done|]. by left.
  - eexists _, _, _, _, _, ia'. split; [reflexivity|]. split; [by split|]. split; [done|]. split; [done|].
    right. exists ib0, p, r, m, ms. by split_and!.
Qed.

Lemma xbus_term_ok s : xbus_inv s ∅ ∅ ∅ -> nn_xbus_term s = Ret tt.
Proof.
  intros [Hf Hd]. unfold nn_xbus_term, nn_fq_term. rewrite (s_term_ok _ _ _ Hf) by done.
  cbn [mbind outcome_bind]. by apply dist_term.
Qed.

#[export] Program Instance xbus_laws : SockBaseLaws (nn_xbus S) := {| sb_inv := xbus_inv |}.
Next Obligation. intros. split; [apply s_inv_init|apply dist_init]. Qed.
Next Obligation. intros s known oa ia [Hf Hd]. split; [by eapply dist_inv_sub|by eapply s_inv_sub]. Qed.
Next Obligation.
  intros s known oa ia p o Hi Hp Ho _ Hsz. destruct (xbus_add_ok s known oa ia p o Hi Hp Ho Hsz) as (s' & Hs & Hi').
  exists s', 0. split; [done|]. by left.
Qed.
Next Obligation.
  intros s known oa ia st p Hi Hp _. cbn. destruct (xbus_rm_ok s known oa ia p Hi Hp) as (s' & -> & Hi').
  eexists _, _. by split.
Qed.
Next Obligation.
  intros s known oa ia p Hi Hp Hn _. destruct (xbus_in_ok s known oa ia p Hi Hp Hn) as (s' & Hs & Hi').
  eexists. by split.
Qed.
Next Obligation.
  intros s known oa ia st p Hi Hp Hn. cbn. destruct (xbus_out_ok s known oa ia p Hi Hp Hn) as (s' & -> & Hi').
  eexists _, _. by split.
Qed.
Next Obligation.
  intros s known oa ia ps ans m _ _ Hi Hw Hans.
  destruct (xbus_send_ok s known oa ia ps ans m Hi Hw Hans) as (s' & ps' & rc & to & oa' & Hs & Hi' & Hm & _).
  eexists _, _, _, _, _. split; [exact Hs|]. by split.
Qed.
Next Obligation.
  intros s known oa ia ttl ps ib _ Hi Hr Hib.
  destruct (xbus_recv_ok s known oa ia ps ib Hi Hr Hib) as (s' & ps' & ib' & rc & got & ia' & Hs & Hi' & Hm & Hib' & _).
  eexists _, _, _, _, _, _. split; [exact Hs|]. by split.
Qed.
Next Obligation. intros. by apply xbus_term_ok. Qed.

#[export] Program Instance bus_laws : SockBaseLaws (nn_bus S) := {| sb_inv s := xbus_inv (xbus s) |}.
Next Obligation. intros. split; [apply s_inv_init|apply dist_init]. Qed.
Next Obligation. intros s known oa ia Hi. by eapply (sb_inv_sub (xbus s)). Qed.
Next Obligation.
  intros [s] known oa ia p o Hi Hp Ho _ Hsz. cbn. destruct (xbus_add_ok s known oa ia p o Hi Hp Ho Hsz) as (s' & -> & Hi').
  eexists _, 0. split; [reflexivity|]. by left.
Qed.
Next Obligation.
  intros [s] known oa ia st p Hi Hp _. cbn. destruct (xbus_rm_ok s known oa ia p Hi Hp) as (s' & -> & Hi').
  eexists _, _. by split.
Qed.
Next Obligation.
  intros [s] known oa ia p Hi Hp Hn _. cbn. destruct (xbus_in_ok s known oa ia p Hi Hp Hn) as (s' & -> & Hi').
  eexists. by split.
Qed.
Next Obligation.
  intros [s] known oa ia st p Hi Hp Hn. cbn. destruct (xbus_out_ok s known oa ia p Hi Hp Hn) as (s' & -> & Hi').
  eexists _, _. by split.
Qed.
Next Obligation.
  intros [s] known oa ia ps ans m _ _ Hi Hw Hans. cbn. unfold nn_bus_send. cbn [xbus].
  destruct (Z.eqb_spec (size (sphdr m)) 0) as [E|E]; cbn [negb].
  - destruct (xbus_send_ok s known oa ia ps ans m Hi Hw Hans) as (s' & ps' & rc & to & oa' & -> & Hi' & Hm & _ & Hto).
    rewrite decide_True in Hto by done. destruct Hto as [-> _]. cbn [mbind outcome_bind].
    eexists _, _, _, _, _. split; [reflexivity|]. by split.
  - eexists _, _, _, _, oa. split; [reflexivity|]. split; [done|apply out_moves_refl].
Qed.
Next Obligation.
  intros [s] known oa ia ttl ps ib _ Hi Hr Hib. cbn [sb_recv bus_base]. unfold nn_bus_recv. cbn [xbus].
  destruct (xbus_recv_ok s known oa ia ps ib Hi Hr Hib) as (s' & ps' & ib' & rc & got & ia' & -> & Hi' & Hm & Hib' & Hcase).
  cbn [mbind outcome_bind].
  destruct Hcase as [->|(ib0 & p & r & m & ms & -> & _ & _ & _ & _ & _ & ->)].
  - rewrite Z.eqb_refl. eexists _, _, _, _, _, ia'. split; [reflexivity|]. by split.
  - change (0 =? - EAGAIN) with false. change (0 =? 0) with true. cbn [check mbind outcome_bind sphdr].
    change (size (pointer_bytes p) =? 8) with true. cbn [check mbind outcome_bind].
    eexists _, _, _, _, _, ia'. split; [reflexivity|]. by split.
Qed.
Next Obligation. intros [s] Hi. by apply xbus_term_ok. Qed.
End laws.

(** C15.  A raw BUS socket that receives a message from a pipe, having dropped
    those with a header, and forwards it later, as a device does, sends the
    body to every ready pipe once, without a header, but not to the pipe it
    came from.  (Pipe addresses have 64 bits.) *)
Theorem bus_no_echo {S} `{SchedulerLaws S} (s : bsys (T := nn_xbus S)) t pm ib' m :
  breach s -> (forall p, is_Some (ps s !! p) -> Zpos p < 2 ^ 64) ->
  nn_xbus_recv (proto s) (ps s) (ib s) = Ret (t, pm, ib', 0, Received m) ->
  exists ib0 p r m0 ms, skips (ib s) ib0 /\ ib0 !! p = Some ((r, m0) :: ms) /\ sphdr m0 = [] /\
    body m = body m0 /\ ib' = take_message ib0 (Some p) /\
    forall (s' : bsys (T := nn_xbus S)) ans, breach s' -> (forall q, good_answer (ans q)) ->
    exists t2 pm2 to, nn_xbus_send (proto s') (ps s') ans m =
        Ret (t2, pm2, 0, (fun q => (q, Msg [] (body m))) <$> to) /\
      NoDup to /\ forall q, (q ∈ to) <-> ready_out s' q /\ q <> p.
Proof.
  intros Hr Haddr Hrecv. destruct (breach_view s Hr) as (oa & ia & Hi & _ & Hre & Hib & _).
  destruct (xbus_recv_ok (proto s) _ oa ia _ _ Hi Hre Hib) as (t' & pm' & ib1 & rc & got & ia' & Hs & _ & _ & _ & Hcase).
  rewrite Hs in Hrecv. injection Hrecv as -> -> -> -> ->.
  destruct Hcase as [?|(ib0 & p & r & m0 & ms & _ & Hp & Hh & Hsk & Hl & -> & Hgot)]; [done|].
  injection Hgot as ->. exists ib0, p, r, m0, ms. split_and!; try done.
  intros s' ans Hr' Hans. destruct (breach_view s' Hr') as (oa' & ia2 & Hi' & Hw' & _ & _ & Hrd).
  destruct (xbus_send_ok (proto s') _ oa' ia2 (ps s') ans (Msg (pointer_bytes p) (body m0)) Hi' Hw' Hans)
    as (t2 & pm2 & rc & to & oa2 & Hs2 & _ & _ & Hnd & Hto).
  cbn [sphdr body] in *. rewrite pointer_bytes_size in Hto.
  rewrite decide_False, decide_True in Hto by done. destruct Hto as [-> Hto].
  exists t2, pm2, to. split; [done|]. split; [done|]. intros q. rewrite Hto, Hrd.
  rewrite pointer_bytes_of by (apply Haddr; by apply elem_of_dom). naive_solver.
Qed.

(** Two peers; a message of the first is forwarded to the second. *)
Lemma bus_no_echo_witness :
  let o := EpOptions 8 8 1 in
  let ans := fun _ : loc => Answer 0 true tt in
  exists (s : bsys (T := nn_xbus priosched)) t pm ib' m t2 pm2,
    breach s /\ nn_xbus_recv (proto s) (ps s) (ib s) = Ret (t, pm, ib', 0, Received m) /\
    nn_xbus_send (proto s) (ps s) ans m = Ret (t2, pm2, 0, [(2%positive, Msg [] [104])]).
Proof.
  intros o ans. set (s0 := Bsys (nn_xbus_init (S := priosched)) init_stats ∅ [] ∅).
  set (ls := [BStart 1%positive o; BStart 2%positive o; BDeliver; BDeliver;
              BArrive 1%positive 0 (Msg [] [104]); BDeliver]).
  destruct (brun s0 ls) as [s| | |] eqn:Hrun; [|by vm_compute in Hrun..].
  assert (Hs : breach s).
  { eapply (breach_run s0 ls); [exact (breach_init 0)| |exact Hrun]. solve_path. }
  destruct (nn_xbus_recv (proto s) (ps s) (ib s)) as [[[[[t pm] ib'] rc] got]| | |] eqn:Hrecv;
    [|by vm_compute in Hrun; injection Hrun as <-; vm_compute in Hrecv..].
  assert (Hgot : rc = 0 /\ exists m, got = Received m).
  { vm_compute in Hrun. injection Hrun as <-. vm_compute in Hrecv. injection Hrecv as _ _ _ <- <-. eauto. }
  destruct Hgot as (-> & m & ->).
  destruct (bus_no_echo s t pm ib' m Hs) as (ib0 & p & r & m0 & ms & Hf); [|exact Hrecv|].
  { vm_compute in Hrun. injection Hrun as <-. intros p Hp.
    assert (Hd : p ∈ ({[1%positive; 2%positive]} : gset loc)).
    { assert (Hq : p ∈ (dom (<[1%positive := tt]> (<[2%positive := tt]> (∅ : gmap loc unit))) : gset loc)).
      { apply elem_of_dom. destruct p as [[|[]|]|[|[]|]|]; try (destruct Hp as [? Hp]; discriminate Hp); eexists; reflexivity. }
      rewrite !dom_insert_L in Hq. set_solver. }
    apply elem_of_union in Hd as [->%elem_of_singleton | ->%elem_of_singleton]; reflexivity. }
  destruct Hf as (_ & _ & _ & _ & _ & Hsend).
  destruct (Hsend s ans Hs) as (t2 & pm2 & to & Hs2 & _ & _); [intros q; split; reflexivity|].
  exists s, t, pm, ib', m, t2, pm2. split; [exact Hs|]. split; [exact Hrecv|]. rewrite Hs2.
  vm_compute in Hrun. injection Hrun as <-. vm_compute in Hrecv. injection Hrecv as <- <- <- <-.
  vm_compute in Hs2. injection Hs2 as <- <- Hto. f_equal. f_equal. exact (eq_sym Hto).
Defined.
