(* ===== verification/Xrep.v ===== *)
(** * Xrep: the raw REP and RESPONDENT sockets (protocols/reqrep/xrep.c,
    protocols/survey/xrespondent.c)

    Every pipe gets a 31-bit key, under which a hash table holds it.  A request
    is split behind the last word of its backtrace, the first word with the top
    bit set, and the key of the pipe it came from is put in front; a reply goes
    to the pipe whose key its header starts with.  A pipe's [nn_xrep_data] and
    its hash item are named by the address of the pipe.

    The two source files are the same code under two names. *)

From stdpp Require Import base gmap list sets.
From Stdlib Require Import ZArith Lia.
From S2P Require Import Prelude Wire ListHeap Slots Hash Priolist Sched Pipe Lb Fq Sock Message Inbox SockBase FqInbox Pipeline.

Open Scope Z_scope.

Definition NN_REQ : Z := 3 * 16 + 0.
Definition NN_XREP_OUT : Z := 1.

Record nn_xrep_data : Type := XrepData { pipe : loc; flags : Z }.

(** [items] and [keys] are the hash items of the pipes, [data] the structures
    that hold them. *)
Record nn_xrep (S : Type) : Type := Xrep {
  next_key : Z; outpipes : nn_hash; inpipes : S;
  items : heap; keys : keymap; data : gmap loc nn_xrep_data
}.
Arguments Xrep {S}.
Arguments next_key {S}.
Arguments outpipes {S}.
Arguments inpipes {S}.
Arguments items {S}.
Arguments keys {S}.
Arguments data {S}.

Section xrep.
  Context {S : Type} `{Scheduler S}.

(** [random] is what [nn_random_generate] stores. *)
Definition nn_xrep_init (random : Z) : nn_xrep S :=
  Xrep (u32 random) nn_hash_init nn_fq_init ∅ ∅ ∅.

Definition nn_xrep_term (self : nn_xrep S) : outcome unit :=
  _ ← nn_fq_term (inpipes self);
  nn_hash_term (outpipes self).

Definition nn_xrep_add (self : nn_xrep S) (p : loc) (opts : nn_ep_options)
    : outcome (nn_xrep S * Z) :=
  let rcvprio := Pipe.rcvprio opts in
  _ ← check ((1 <=? rcvprio) && (rcvprio <=? 16));
  let h := <[p := nn_hash_item_init]> (items self) in
  let d := <[p := XrepData p 0]> (data self) in
  '(h, ks, out) ← nn_hash_insert h (keys self) (outpipes self) (Z.land (next_key self) 0x7fffffff) p;
  Ret (Xrep (u32 (next_key self + 1)) out (nn_fq_add (inpipes self) p rcvprio) h ks d, 0).

Definition nn_xrep_rm (self : nn_xrep S) (p : loc) : outcome (nn_xrep S) :=
  f ← nn_fq_rm (inpipes self) p;
  '(h, out) ← nn_hash_erase (items self) (keys self) (outpipes self) p;
  _ ← nn_hash_item_term h p;
  Ret (Xrep (next_key self) out f (delete p h) (keys self) (delete p (data self))).

Definition nn_xrep_in (self : nn_xrep S) (p : loc) : outcome (nn_xrep S) :=
  f ← nn_fq_in (inpipes self) p;
  Ret (Xrep (next_key self) (outpipes self) f (items self) (keys self) (data self)).

Definition set_flags (self : nn_xrep S) (p : loc) (fl : Z) : nn_xrep S :=
  Xrep (next_key self) (outpipes self) (inpipes self) (items self) (keys self)
    (alter (fun d => XrepData (pipe d) fl) p (data self)).

Definition nn_xrep_out (self : nn_xrep S) (p : loc) : outcome (nn_xrep S) :=
  d ← deref (data self) p;
  Ret (set_flags self p (Z.lor (flags d) NN_XREP_OUT)).

Definition nn_xrep_events (self : nn_xrep S) : Z :=
  Z.lor (if nn_fq_can_recv (inpipes self) =? 0 then 0 else NN_SOCKBASE_EVENT_IN) NN_SOCKBASE_EVENT_OUT.

Definition nn_xrep_send (self : nn_xrep S) (ps : pipemap) (ans : loc -> answer unit) (msg : nn_msg)
    : outcome (nn_xrep S * pipemap * Z * list (loc * nn_msg)) :=
  if size (sphdr msg) <? 4 then Ret (self, ps, 0, []) else
  key ← nn_getl (sphdr msg);
  hdr ← trim (sphdr msg) 4;
  it ← nn_hash_get (items self) (keys self) (outpipes self) key;
  match it with
  | Null => Ret (self, ps, 0, [])
  | NotIn => Undef
  | At x =>
      d ← deref (data self) x;
      if Z.land (flags d) NN_XREP_OUT =? 0 then Ret (self, ps, 0, []) else
      pb ← deref ps (pipe d);
      '(pb, rc) ← nn_pipe_send pb (ans (pipe d));
      _ ← check (rc >=? 0);
      let self := if Z.land rc NN_PIPE_RELEASE =? 0 then self
                  else set_flags self x (Z.land (flags d) (Z.lnot NN_XREP_OUT)) in
      Ret (self, <[pipe d := pb]> ps, 0, [(pipe d, Msg hdr (body msg))])
  end.

(** The loop over the backtrace: the number of words up to the first one with
    the top bit set, [None] when the data ends before. *)
Fixpoint backtrace_words (fuel : nat) (i : Z) (data : list Z) : outcome (option Z) :=
  match fuel with
  | O => NoFuel
  | Datatypes.S fuel =>
      if (i + 1) * 4 >? size data then Ret None else
      w ← nn_getl (drop (Z.to_nat (4 * i)) data);
      if negb (Z.land w 0x80000000 =? 0) then Ret (Some (i + 1))
      else backtrace_words fuel (i + 1) data
  end.

(** Splits a request; [None] for one that is malformed or has come too far. *)
Definition nn_xrep_split (maxttl rc : Z) (msg : nn_msg) : outcome (option nn_msg) :=
  if negb (Z.land rc NN_PIPE_PARSED =? 0) then Ret (Some msg) else
  w ← backtrace_words (Datatypes.S (length (body msg))) 0 (body msg);
  match w with
  | None => Ret None
  | Some i =>
      if i >? maxttl then Ret None else
      _ ← check (size (sphdr msg) =? 0);
      b ← trim (body msg) (i * 4);
      Ret (Some (Msg (take (Z.to_nat (i * 4)) (body msg)) b))
  end.

Definition nn_xrep_recv (self : nn_xrep S) (maxttl : Z) (ps : pipemap) (ib : inbox)
    : outcome (nn_xrep S * pipemap * inbox * Z * received) :=
  '(f, ps, ib, rc, got) ← fq_take (inpipes self) ps ib;
  let self := Xrep (next_key self) (outpipes self) f (items self) (keys self) (data self) in
  if rc <? 0 then Ret (self, ps, ib, rc, Untouched) else
  match got with
  | None => Undef
  | Some (p, msg) =>
      m ← nn_xrep_split maxttl rc msg;
      match m with
      | None => Ret (self, ps, ib, - EAGAIN, Terminated)
      | Some m =>
          key ← deref (keys self) p;
          pre ← nn_putl (replicate 4 0) key;
          Ret (self, ps, ib, 0, Received (Msg (pre ++ sphdr m) (body m)))
      end
  end.

Definition nn_xrep_setopt (self : nn_xrep S) (level opt : Z) (optval : list Z) : Z := - ENOPROTOOPT.

Definition nn_xrep_getopt (self : nn_xrep S) (level opt : Z) : Z := - ENOPROTOOPT.

Definition nn_xrep_ispeer (socktype : Z) : Z := if socktype =? NN_REQ then 1 else 0.

(** The key the next pipe gets is free. *)
Definition nn_xrep_room (self : nn_xrep S) : bool :=
  match nn_hash_get (items self) (keys self) (outpipes self) (Z.land (next_key self) 0x7fffffff) with
  | Ret Null => true
  | _ => false
  end.
End xrep.

(** ** The backtrace *)

(** The [j]-th 32-bit word of the data is there and has the top bit set, or not. *)
Definition word_top (data : list Z) (j : Z) (b : bool) : Prop :=
  exists w, nn_getl (drop (Z.to_nat (4 * j)) data) = Ret w /\ negb (Z.land w 0x80000000 =? 0) = b.

Lemma getl_total l : 4 <= size l -> exists w, nn_getl l = Ret w.
Proof.
  unfold size. intros Hl. do 4 (destruct l as [|? l]; [cbn in Hl; lia|]).
  eexists. unfold nn_getl, nth_c. cbn. reflexivity.
Qed.

Lemma backtrace_words_spec fuel i data :
  0 <= i -> size data < (i + Z.of_nat fuel) * 4 -> (forall j, 0 <= j < i -> word_top data j false) ->
  exists o, backtrace_words fuel i data = Ret o /\
  match o with
  | Some n => i < n /\ n * 4 <= size data /\ word_top data (n - 1) true /\
      forall j, 0 <= j < n - 1 -> word_top data j false
  | None => forall j, 0 <= j -> (j + 1) * 4 <= size data -> word_top data j false
  end.
Proof.
  revert i. induction fuel as [|fuel IH]; intros i Hi Hf Hw.
  - cbn [backtrace_words]. exfalso. destruct (decide (i = 0)) as [->|Hne]; [pose proof (size_nonneg data); lia|].
    destruct (Hw (i - 1)) as (w & Hg & _); [lia|].
    unfold nn_getl in Hg. apply bind_Ret in Hg as (b0 & _ & Hg). apply bind_Ret in Hg as (b1 & _ & Hg).
    apply bind_Ret in Hg as (b2 & _ & Hg). apply bind_Ret in Hg as (b3 & Hb3 & _).
    apply nth_c_Ret in Hb3 as [_ Hb3]. rewrite lookup_drop in Hb3. apply lookup_lt_Some in Hb3.
    unfold size in Hf. lia.
  - cbn [backtrace_words]. rewrite Z.gtb_ltb. destruct (Z.ltb_spec (size data) ((i + 1) * 4)) as [Hlt|Hge].
    + exists None. split; [done|]. intros j Hj Hjs. apply Hw. lia.
    + destruct (getl_total (drop (Z.to_nat (4 * i)) data)) as (w & Hg).
      { unfold size in *. rewrite length_drop. lia. }
      rewrite Hg. cbn [mbind outcome_bind]. destruct (negb (Z.land w 0x80000000 =? 0)) eqn:Ew.
      * exists (Some (i + 1)). split; [done|]. replace (i + 1 - 1) with i by lia.
        split_and!; [lia|lia|by exists w|done].
      * destruct (IH (i + 1)) as (o & -> & Ho); [lia|lia| |].
        { intros j Hj. destruct (decide (j = i)) as [->|]; [by exists w|]. apply Hw. lia. }
        exists o. split; [done|]. destruct o as [n|]; [|done]. destruct Ho as (? & ? & ? & ?).
        split_and!; [lia|done..].
Qed.

(** What a request is split into. *)
Definition split_ok (maxttl : Z) (msg : nn_msg) (o : option nn_msg) : Prop :=
  match o with
  | Some m => sphdr m ++ body m = body msg /\ exists n, size (sphdr m) = n * 4 /\ 0 < n <= maxttl /\
      word_top (body msg) (n - 1) true /\ forall j, 0 <= j < n - 1 -> word_top (body msg) j false
  | None =>
      (forall j, 0 <= j -> (j + 1) * 4 <= size (body msg) -> word_top (body msg) j false) \/
      exists n, maxttl < n /\ word_top (body msg) (n - 1) true /\
        forall j, 0 <= j < n - 1 -> word_top (body msg) j false
  end.

Lemma xrep_split_spec maxttl r msg :
  (Z.land r NN_PIPE_PARSED = 0 -> sphdr msg = []) ->
  exists o, nn_xrep_split maxttl r msg = Ret o /\
    if decide (Z.land r NN_PIPE_PARSED = 0) then split_ok maxttl msg o else o = Some msg.
Proof.
  intros Hh. unfold nn_xrep_split. destruct (decide (Z.land r NN_PIPE_PARSED = 0)) as [E|E].
  2: { exists (Some msg). by rewrite (proj2 (Z.eqb_neq _ _) E). }
  rewrite E. change (negb (0 =? 0)) with false. cbv iota.
  destruct (backtrace_words_spec (Datatypes.S (length (body msg))) 0 (body msg)) as (o & -> & Ho);
    [lia|unfold size; lia|lia|]. cbn [mbind outcome_bind].
  destruct o as [n|]; [|exists None; split; [done|]; by left].
  destruct Ho as (Hn & Hs & Ht & Hw). rewrite Z.gtb_ltb. destruct (Z.ltb_spec maxttl n).
  - exists None. split; [done|]. right. by exists n.
  - rewrite Hh by done. change (size [] =? 0) with true. cbn [check mbind outcome_bind].
    rewrite trim_ok by lia. cbn [mbind outcome_bind]. eexists. split; [reflexivity|]. cbn [split_ok sphdr body].
    split; [by rewrite take_drop|]. exists n. split_and!; [|lia|lia|done|done].
    unfold size in *. rewrite length_take. lia.
Qed.

(** ** The laws *)

Section laws.
  Context {S : Type} `{SchedulerLaws S}.

(** [m] is the map from keys to pipes. *)
Definition xrep_core (s : nn_xrep S) (known oa : gset loc) (m : gmap Z loc) : Prop :=
  hash_rep (items s) (keys s) (outpipes s) m /\
  (forall k p, m !! k = Some p -> (p ∈ known) /\ 0 <= k < 2 ^ 31) /\
  (forall p, p ∈ known -> exists k, m !! k = Some p) /\
  base.size m = base.size known /\ Z.of_nat (base.size known) < 2 ^ 31 /\
  (forall p, p ∈ known -> data s !! p = Some (XrepData p (if decide (p ∈ oa) then NN_XREP_OUT else 0))) /\
  0 <= next_key s < 2 ^ 32 /\ oa ⊆ known.

Definition xrep_inv (s : nn_xrep S) (known oa ia : gset loc) : Prop :=
  s_inv (inpipes s) known ia /\ exists m, xrep_core s known oa m.

Lemma xrep_core_key s known oa m p k :
  xrep_core s known oa m -> m !! k = Some p <-> (p ∈ known) /\ keys s !! p = Some k.
Proof.
  intros (Hh & Hm & Hk & _). split.
  - intros Hp. split; [by eapply Hm|by eapply hash_rep_key].
  - intros [Hp Hkey]. destruct (Hk p Hp) as (k' & Hk'). rewrite (hash_rep_key _ _ _ _ _ _ Hh Hk') in Hkey.
    by injection Hkey as <-.
Qed.

Lemma xrep_init random : xrep_inv (nn_xrep_init random) ∅ ∅ ∅.
Proof.
  split; [apply s_inv_init|]. exists ∅. unfold xrep_core. cbn. split_and!; try done.
  - apply hash_init_rep.
  - apply u32_range.
  - apply u32_range.
Qed.

Lemma key_range n : 0 <= n -> 0 <= Z.land n 0x7fffffff < 2 ^ 31.
Proof. intros. change 0x7fffffff with (Z.ones 31). rewrite Z.land_ones by lia. apply Z.mod_pos_bound. lia. Qed.

Lemma xrep_add_ok s known oa ia p o :
  xrep_inv s known oa ia -> p ∉ known -> valid_opts o -> nn_xrep_room s = true ->
  Z.of_nat (base.size known) + 1 < 2 ^ 31 ->
  exists s', nn_xrep_add s p o = Ret (s', 0) /\ xrep_inv s' ({[p]} ∪ known) oa ia /\
    forall q, q ∈ known -> keys s' !! q = keys s !! q.
Proof.
  destruct s as [nk out f h ks d]. intros (Hf & m & Hh & Hm & Hk & Hsz & Hlt & Hd & Hnk & Hoa) Hp [_ Ho] Hroom Hsz1.
  cbn in *. unfold nn_xrep_room in Hroom. cbn in Hroom. rewrite (get_spec _ _ _ _ _ Hh) in Hroom.
  unfold nn_xrep_add. cbn [items keys outpipes data next_key inpipes]. rewrite prio_check by done.
  cbn [check mbind outcome_bind]. set (key := Z.land nk 0x7fffffff) in *.
  destruct (m !! key) as [q|] eqn:Hkey; [done|].
  destruct (hash_insert_spec (<[p := nn_hash_item_init]> h) ks out m key p) as (h' & out' & -> & Hh' & _).
  { eapply hash_rep_agree; [|exact Hh]. intros k x Hx. rewrite lookup_insert_ne; [done|]. intros ->.
    by apply Hm in Hx as [? _]. }
  { unfold detached. by rewrite lookup_insert_eq. }
  { done. } { lia. }
  cbn [mbind outcome_bind]. eexists. split; [reflexivity|].
  split; [|cbn; intros q Hq; rewrite lookup_insert_ne; [done|]; by intros ->].
  split; cbn [inpipes]; [by apply s_add_ok|]. exists (<[key := p]> m). unfold xrep_core. cbn.
  split_and!; [done| | | | | |apply u32_range|apply u32_range|set_solver].
  - intros k q Hq. apply lookup_insert_Some in Hq as [[<- <-]|[_ Hq]].
    + split; [set_solver|]. apply key_range. lia.
    + apply Hm in Hq as [? ?]. split; [set_solver|done].
  - intros q [->%elem_of_singleton|Hq]%elem_of_union.
    + exists key. apply lookup_insert_eq.
    + destruct (Hk q Hq) as (k & Hkq). exists k. rewrite lookup_insert_ne; [done|]. congruence.
  - rewrite map_size_insert_None by done. rewrite size_union by set_solver. rewrite size_singleton. lia.
  - rewrite size_union by set_solver. rewrite size_singleton. lia.
  - intros q Hq. destruct (decide (q = p)) as [->|Hne].
    + rewrite lookup_insert_eq. rewrite decide_False by set_solver. done.
    + rewrite lookup_insert_ne by done. apply Hd. set_solver.
Qed.

Lemma xrep_rm_ok s known oa ia p :
  xrep_inv s known oa ia -> p ∈ known ->
  exists s', nn_xrep_rm s p = Ret s' /\ xrep_inv s' (known ∖ {[p]}) (oa ∖ {[p]}) (ia ∖ {[p]}) /\
    keys s' = keys s.
Proof.
  destruct s as [nk out f h ks d]. intros (Hf & m & Hc) Hp.
  pose proof Hc as (Hh & Hm & Hk & Hsz & Hlt & Hd & Hnk & Hoa).
  cbn in *. unfold nn_xrep_rm. cbn [items keys outpipes data next_key inpipes]. unfold nn_fq_rm.
  destruct (s_rm_ok _ _ _ p Hf Hp) as (f' & -> & Hf'). cbn [mbind outcome_bind].
  destruct (Hk p Hp) as (key & Hkey).
  destruct (hash_erase_spec h ks out m key p Hh Hkey) as (h' & out' & -> & Hh' & Hx & _); [lia|].
  cbn [mbind outcome_bind]. unfold nn_hash_item_term. rewrite item_term_ok by done. cbn [mbind outcome_bind].
  eexists. split; [reflexivity|]. split; [|done]. split; [done|]. exists (delete key m). unfold xrep_core. cbn.
  assert (Hother : forall k q, delete key m !! k = Some q -> m !! k = Some q /\ q <> p).
  { intros k q [Hne Hq]%lookup_delete_Some. split; [done|]. intros ->. apply Hne.
    apply (xrep_core_key _ _ _ _ p k Hc) in Hq as [_ Hq].
    apply (xrep_core_key _ _ _ _ p key Hc) in Hkey as [_ Hkey]. cbn in *. congruence. }
  assert (Hsz' : base.size (known ∖ {[p]}) = (base.size known - 1)%nat).
  { rewrite size_difference by set_solver. by rewrite size_singleton. }
  split_and!; [| | | | | |lia|lia|set_solver].
  - eapply hash_rep_agree; [|exact Hh']. intros k q Hq. apply Hother in Hq as [_ Hq].
    by rewrite lookup_delete_ne.
  - intros k q Hq. apply Hother in Hq as [Hq Hne]. apply Hm in Hq as [? ?]. split; [set_solver|done].
  - intros q [Hq Hne]%elem_of_difference. destruct (Hk q Hq) as (k & Hkq). exists k.
    rewrite lookup_delete_ne; [done|]. intros <-. set_solver.
  - rewrite Hsz', map_size_delete_Some by eauto. lia.
  - lia.
  - intros q [Hq Hne]%elem_of_difference. rewrite lookup_delete_ne by set_solver. rewrite Hd by done.
    destruct (decide (q ∈ oa)); [rewrite decide_True by set_solver|rewrite decide_False by set_solver]; done.
Qed.

(** The flag of a pipe says whether it is active. *)
Lemma set_flags_core s known oa m p b :
  xrep_core s known oa m -> p ∈ known ->
  xrep_core (set_flags s p (if b : bool then NN_XREP_OUT else 0)) known
    (if b then {[p]} ∪ oa else oa ∖ {[p]}) m.
Proof.
  destruct s as [nk out f h ks d]. intros (Hh & Hm & Hk & Hsz & Hlt & Hd & Hnk & Hoa) Hp.
  unfold xrep_core. cbn in *. split_and!; try done; try lia; [|destruct b; set_solver].
  intros q Hq. destruct (decide (q = p)) as [->|Hne].
  - rewrite lookup_alter_eq, Hd by done. cbn. destruct b.
    + by rewrite decide_True by set_solver.
    + by rewrite decide_False by set_solver.
  - rewrite lookup_alter_ne by done. rewrite Hd by done.
    assert (Hiff : q ∈ oa <-> q ∈ (if b then {[p]} ∪ oa else oa ∖ {[p]})) by (destruct b; set_solver).
    by rewrite (decide_ext _ _ _ _ Hiff).
Qed.

Lemma xrep_in_ok s known oa ia p :
  xrep_inv s known oa ia -> p ∈ known -> p ∉ ia ->
  exists s', nn_xrep_in s p = Ret s' /\ xrep_inv s' known oa ({[p]} ∪ ia) /\ keys s' = keys s.
Proof.
  destruct s as [nk out f h ks d]. intros (Hf & m & Hc) Hp Hn. unfold nn_xrep_in, nn_fq_in. cbn [inpipes] in *.
  destruct (s_activate_ok _ _ _ p Hf Hp Hn) as (f' & -> & Hf'). eexists. split; [reflexivity|].
  split; [|done]. split; [done|]. by exists m.
Qed.

Lemma xrep_out_ok s known oa ia p :
  xrep_inv s known oa ia -> p ∈ known ->
  exists s', nn_xrep_out s p = Ret s' /\ xrep_inv s' known ({[p]} ∪ oa) ia /\ keys s' = keys s.
Proof.
  intros (Hf & m & Hc) Hp. unfold nn_xrep_out.
  pose proof Hc as (_ & _ & _ & _ & _ & Hd & _). rewrite (deref_Some _ _ _ (Hd p Hp)). cbn [mbind outcome_bind flags].
  replace (Z.lor _ NN_XREP_OUT) with NN_XREP_OUT by (by case_decide).
  eexists. split; [reflexivity|]. split; [|done]. split; [done|]. exists m.
  by apply (set_flags_core _ _ _ _ _ true).
Qed.

Lemma xrep_term_ok s : xrep_inv s ∅ ∅ ∅ -> nn_xrep_term s = Ret tt.
Proof.
  intros (Hf & m & Hh & Hm & _). unfold nn_xrep_term, nn_fq_term. rewrite (s_term_ok _ _ _ Hf) by done.
  cbn [mbind outcome_bind]. apply (hash_term_spec (items s) (keys s)).
  replace (∅ : gmap Z loc) with m; [done|]. apply map_eq. intros k. rewrite lookup_empty.
  destruct (m !! k) as [p|] eqn:E; [|done]. apply Hm in E as [E _]. set_solver.
Qed.

(** A reply goes to the pipe its header names, if that is ready. *)
Lemma xrep_send_ok s known oa ia ps ans msg :
  xrep_inv s known oa ia -> writable ps oa -> (forall p, good_answer (ans p)) ->
  exists s' ps' sent oa', nn_xrep_send s ps ans msg = Ret (s', ps', 0, sent) /\
    xrep_inv s' known oa' ia /\ out_moves ps ps' oa oa' /\ keys s' = keys s /\
    (sent = [] \/ exists p, (p ∈ oa) /\ sent = [(p, Msg (drop 4 (sphdr msg)) (body msg))]) /\
    forall p key hdr, sphdr msg = be_digits 4 key ++ hdr -> p ∈ known -> keys s !! p = Some key ->
      sent = if decide (p ∈ oa) then [(p, Msg hdr (body msg))] else [].
Proof.
  intros (Hf & m & Hc) Hw Hans. pose proof Hc as (Hh & Hm & Hk & Hsz & Hlt & Hd & Hnk & Hoa).
  unfold nn_xrep_send. destruct (Z.ltb_spec (size (sphdr msg)) 4) as [Hs|Hs].
  { eexists _, _, _, oa. split; [reflexivity|]. split; [by split; [|exists m]|]. split; [apply out_moves_refl|].
    split; [done|]. split; [by left|]. intros p key hdr Hhdr. rewrite Hhdr, size_app in Hs.
    pose proof (size_nonneg hdr). by change (size (be_digits 4 key)) with 4 in Hs; lia. }
  destruct (getl_total _ Hs) as (key & Hg). rewrite Hg, trim_ok by lia. cbn [mbind outcome_bind].
  rewrite (get_spec _ _ _ _ _ Hh). cbn [mbind outcome_bind].
  assert (Hkey : forall p k hdr, sphdr msg = be_digits 4 k ++ hdr -> p ∈ known -> keys s !! p = Some k ->
    k = key /\ m !! key = Some p /\ drop 4 (sphdr msg) = hdr).
  { intros p k hdr Hhdr Hp Hkp. assert (Hmk : m !! k = Some p) by (by apply (xrep_core_key _ _ _ _ _ _ Hc)).
    destruct (Hm _ _ Hmk) as [_ Hr]. rewrite Hhdr, getl_digits in Hg by lia. injection Hg as <-.
    split; [done|]. split; [done|]. by rewrite Hhdr. }
  destruct (m !! key) as [q|] eqn:Eq; cbn [from_option].
  2: { eexists _, _, _, oa. split; [reflexivity|]. split; [by split; [|exists m]|]. split; [apply out_moves_refl|].
    split; [done|]. split; [by left|]. intros p k hdr Hhdr Hp Hkp. destruct (Hkey p k hdr Hhdr Hp Hkp) as (_ & ? & _). done. }
  destruct (Hm _ _ Eq) as [Hq _]. rewrite (deref_Some _ _ _ (Hd q Hq)). cbn [mbind outcome_bind flags pipe].
  assert (Hto : forall p k hdr, sphdr msg = be_digits 4 k ++ hdr -> p ∈ known -> keys s !! p = Some k ->
    p = q /\ drop 4 (sphdr msg) = hdr).
  { intros p k hdr Hhdr Hp Hkp. destruct (Hkey p k hdr Hhdr Hp Hkp) as (_ & ? & ?). by simplify_eq. }
  destruct (decide (q ∈ oa)) as [Hqo|Hqo]; cbn [Z.land Z.eqb].
  2: { change (Z.land 0 NN_XREP_OUT =? 0) with true. cbv iota.
    eexists _, _, _, oa. split; [reflexivity|]. split; [by split; [|exists m]|]. split; [apply out_moves_refl|].
    split; [done|]. split; [by left|]. intros p k hdr Hhdr Hp Hkp.
    destruct (Hto p k hdr Hhdr Hp Hkp) as [-> _]. by rewrite decide_False. }
  change (Z.land NN_XREP_OUT NN_XREP_OUT =? 0) with false. cbv iota.
  destruct (Hw q Hqo) as (pb & Hpb & Hidle). load Hpb. rewrite pipe_send_idle by (done || apply Hans).
  cbn [mbind outcome_bind]. pose proof (send_rc_nonneg _ (Hans q)) as Hnn. rewrite (proj2 (Z.geb_le _ _) Hnn).
  cbn [check mbind outcome_bind]. pose proof (release_flag _ (Hans q)) as Hrel.
  replace (Z.land (send_rc (ans q)) NN_PIPE_RELEASE =? 0) with (sync (ans q)) by (destruct (_ =? 0), (sync _); done).
  change (Z.land NN_XREP_OUT (Z.lnot NN_XREP_OUT)) with 0.
  eexists _, _, _, _. split; [reflexivity|]. split; [|split; [by apply out_moves_one|]].
  - destruct (sync (ans q)); (split; [done|]); exists m; [done|]. by apply (set_flags_core _ _ _ _ _ false).
  - split; [by destruct (sync (ans q))|]. split; [right; by exists q|]. intros p k hdr Hhdr Hp Hkp.
    destruct (Hto p k hdr Hhdr Hp Hkp) as [-> <-]. by rewrite decide_True.
Qed.

(** A received request carries the key of the pipe it came from. *)
Lemma xrep_recv_ok s known oa ia ttl ps ib :
  xrep_inv s known oa ia -> readable ps ia -> inbox_ok ps ib ->
  exists s' ps' ib' rc got ia', nn_xrep_recv s ttl ps ib = Ret (s', ps', ib', rc, got) /\
    xrep_inv s' known oa ia' /\ in_moves ps ps' ia ia' /\ inbox_ok ps' ib' /\ keys s' = keys s /\
    ((rc = - EAGAIN /\ forall m, got <> Received m) \/
     exists p r msg ms m key, rc = 0 /\ (p ∈ ia) /\ ib !! p = Some ((r, msg) :: ms) /\
       keys s !! p = Some key /\ got = Received (Msg (be_digits 4 key ++ sphdr m) (body m)) /\
       if decide (Z.land r NN_PIPE_PARSED = 0) then split_ok ttl msg (Some m) else m = msg).
Proof.
  destruct s as [nk out f h ks d]. intros (Hf & m & Hc) Hr Hib. unfold nn_xrep_recv. cbn [inpipes] in *.
  destruct (fq_take_spec f ps known ia ib Hf Hr Hib) as
    [[-> ->] | (p & r & msg & ms & f' & ps' & ib' & ia' & -> & Hp & Hms & _ & Hg & Hf' & Hm & Hib' & _)];
    cbn [mbind outcome_bind].
  { eexists _, _, _, _, _, ∅. split; [reflexivity|]. split; [by split; [|exists m]|].
    split; [apply in_moves_refl|]. split; [done|]. split; [done|]. by left. }
  destruct Hg as (Hr0 & _ & Hparsed). cbn [fst snd] in *. rewrite (proj2 (Z.ltb_ge r 0)) by lia.
  destruct (xrep_split_spec ttl r msg Hparsed) as (o & -> & Ho). cbn [mbind outcome_bind next_key outpipes items keys data].
  assert (Hi' : xrep_inv (Xrep nk out f' h ks d) known oa ia') by (split; [done|by exists m]).
  destruct o as [m'|].
  2: { eexists _, _, _, _, _, _. split; [reflexivity|]. split; [exact Hi'|]. split; [done|]. split; [done|].
    split; [done|]. by left. }
  pose proof Hc as (Hh & _ & Hk & _). cbn in Hh.
  destruct (Hk p) as (key & Hkey). { by apply (s_inv_sub _ _ _ Hf). }
  pose proof (hash_rep_key _ _ _ _ _ _ Hh Hkey) as Hks. load Hks. change (replicate 4 0) with [0; 0; 0; 0].
  rewrite putl_digits, app_nil_r. cbn [mbind outcome_bind].
  eexists _, _, _, _, _, _. split; [reflexivity|]. split; [exact Hi'|]. split; [done|]. split; [done|].
  split; [done|]. right. exists p, r, msg, ms, m', key. split_and!; try done.
  case_decide; [done|congruence].
Qed.
End laws.
