(* ===== verification/Rep.v ===== *)
(** * Rep: the REP and RESPONDENT sockets (protocols/reqrep/rep.c,
    protocols/survey/respondent.c)

    A REP socket keeps the header of the last request, its backtrace, and puts
    it in front of the reply.  [nn_xrep] and [nn_rep] keep the laws of
    SockBase.v; [rep_routes_reply] shows that a reply goes back to the pipe of
    the request, with the backtrace the request had.

    The RESPONDENT sockets are the same code under other names. *)

From stdpp Require Import base gmap list sets.
From Stdlib Require Import ZArith Lia.
From S2P Require Import Prelude Wire ListHeap Hash Priolist Sched Pipe Lb Fq Sock Message Inbox SockBase FqInbox Pipeline Xrep.

Open Scope Z_scope.

Definition NN_REP_INPROGRESS : Z := 1.

Record nn_rep (S : Type) : Type := Rep { xrep : nn_xrep S; rflags : Z; backtrace : list Z }.
Arguments Rep {S}.
Arguments xrep {S}.
Arguments rflags {S}.
Arguments backtrace {S}.

Section rep.
  Context {S : Type} `{Scheduler S}.

Definition nn_rep_init (random : Z) : nn_rep S := Rep (nn_xrep_init random) 0 [].

(** Also releases the backtrace, if there is one. *)
Definition nn_rep_term (self : nn_rep S) : outcome unit := nn_xrep_term (xrep self).

Definition nn_rep_events (self : nn_rep S) : Z :=
  let events := nn_xrep_events (xrep self) in
  if Z.land (rflags self) NN_REP_INPROGRESS =? 0
  then Z.land events (Z.lnot NN_SOCKBASE_EVENT_OUT) else events.

Definition nn_rep_send (self : nn_rep S) (ps : pipemap) (ans : loc -> answer unit) (msg : nn_msg)
    : outcome (nn_rep S * pipemap * Z * list (loc * nn_msg)) :=
  if Z.land (rflags self) NN_REP_INPROGRESS =? 0 then Ret (self, ps, - EFSM, []) else
  _ ← check (size (sphdr msg) =? 0);
  let msg := Msg (backtrace self) (body msg) in
  let fl := Z.land (rflags self) (Z.lnot NN_REP_INPROGRESS) in
  '(x, ps, rc, sent) ← nn_xrep_send (xrep self) ps ans msg;
  _ ← check ((rc =? 0) || (rc =? - EAGAIN));
  Ret (Rep x fl [], ps, 0, sent).

Definition nn_rep_recv (self : nn_rep S) (maxttl : Z) (ps : pipemap) (ib : inbox)
    : outcome (nn_rep S * pipemap * inbox * Z * received) :=
  let self := if Z.land (rflags self) NN_REP_INPROGRESS =? 0 then self
              else Rep (xrep self) (Z.land (rflags self) (Z.lnot NN_REP_INPROGRESS)) [] in
  '(x, ps, ib, rc, got) ← nn_xrep_recv (xrep self) maxttl ps ib;
  if rc =? - EAGAIN then Ret (Rep x (rflags self) (backtrace self), ps, ib, - EAGAIN, got) else
  _ ← check (rc =? 0);
  match got with
  | Received m =>
      Ret (Rep x (Z.lor (rflags self) NN_REP_INPROGRESS) (sphdr m), ps, ib, 0, Received (Msg [] (body m)))
  | _ => Undef
  end.

(** ** The virtual functions *)

#[export] Instance xrep_base : SockBase (nn_xrep S) := {|
  sb_norecv := false;
  sb_nosend := false;
  sb_quiet := false;
  sb_plain := false;
  sb_init := nn_xrep_init;
  sb_term := nn_xrep_term;
  sb_room := nn_xrep_room;
  sb_add := nn_xrep_add;
  sb_rm s st p := s ← nn_xrep_rm s p; Ret (s, st);
  sb_in := nn_xrep_in;
  sb_out s st p := s ← nn_xrep_out s p; Ret (s, st);
  sb_events := nn_xrep_events;
  sb_send := nn_xrep_send;
  sb_recv := nn_xrep_recv
|}.

Definition with_xrep (self : nn_rep S) (x : nn_xrep S) : nn_rep S := Rep x (rflags self) (backtrace self).

#[export] Instance rep_base : SockBase (nn_rep S) := {|
  sb_norecv := false;
  sb_nosend := false;
  sb_quiet := false;
  sb_plain := true;
  sb_init := nn_rep_init;
  sb_term := nn_rep_term;
  sb_room s := nn_xrep_room (xrep s);
  sb_add s p o := '(x, rc) ← nn_xrep_add (xrep s) p o; Ret (with_xrep s x, rc);
  sb_rm s st p := x ← nn_xrep_rm (xrep s) p; Ret (with_xrep s x, st);
  sb_in s p := x ← nn_xrep_in (xrep s) p; Ret (with_xrep s x);
  sb_out s st p := x ← nn_xrep_out (xrep s) p; Ret (with_xrep s x, st);
  sb_events := nn_rep_events;
  sb_send := nn_rep_send;
  sb_recv := nn_rep_recv
|}.
End rep.

(** ** The laws *)

Section laws.
  Context {S : Type} `{SchedulerLaws S}.

#[export] Program Instance xrep_laws : SockBaseLaws (nn_xrep S) := {| sb_inv := xrep_inv |}.
Next Obligation. intros. apply xrep_init. Qed.
Next Obligation.
  intros s known oa ia (Hf & m & _ & _ & _ & _ & _ & _ & _ & Ho). split; [done|by apply (s_inv_sub _ _ _ Hf)].
Qed.
Next Obligation.
  intros s known oa ia p o Hi Hp Ho Hr Hsz.
  destruct (xrep_add_ok s known oa ia p o Hi Hp Ho Hr Hsz) as (s' & Hs & Hi' & _).
  exists s', 0. split; [done|]. by left.
Qed.
Next Obligation.
  intros s known oa ia st p Hi Hp _. cbn. destruct (xrep_rm_ok s known oa ia p Hi Hp) as (s' & -> & Hi' & _).
  eexists _, _. by split.
Qed.
Next Obligation.
  intros s known oa ia p Hi Hp Hn _. cbn. destruct (xrep_in_ok s known oa ia p Hi Hp Hn) as (s' & -> & Hi' & _).
  eexists. by split.
Qed.
Next Obligation.
  intros s known oa ia st p Hi Hp _. cbn. destruct (xrep_out_ok s known oa ia p Hi Hp) as (s' & -> & Hi' & _).
  eexists _, _. by split.
Qed.
Next Obligation.
  intros s known oa ia ps ans m _ _ Hi Hw Hans. cbn.
  destruct (xrep_send_ok s known oa ia ps ans m Hi Hw Hans) as (s' & ps' & sent & oa' & -> & Hi' & Hm & _).
  eexists _, _, _, _, _. split; [reflexivity|]. by split.
Qed.
Next Obligation.
  intros s known oa ia ttl ps ib _ Hi Hr Hib. cbn.
  destruct (xrep_recv_ok s known oa ia ttl ps ib Hi Hr Hib)
    as (s' & ps' & ib' & rc & got & ia' & -> & Hi' & Hm & Hib' & _).
  eexists _, _, _, _, _, _. split; [reflexivity|]. by split.
Qed.
Next Obligation. intros. by apply xrep_term_ok. Qed.

Definition rep_inv (s : nn_rep S) (known oa ia : gset loc) : Prop :=
  xrep_inv (xrep s) known oa ia /\ (rflags s = 0 \/ rflags s = NN_REP_INPROGRESS).

(** The reply to the request in progress is for the pipe [p]. *)
Definition answers (p : loc) (hdr : list Z) (t : nn_rep S) : Prop :=
  rflags t = NN_REP_INPROGRESS /\
  exists key, keys (xrep t) !! p = Some key /\ backtrace t = be_digits 4 key ++ hdr.

Lemma rep_send_ok s known oa ia ps ans msg :
  sphdr msg = [] -> rep_inv s known oa ia -> writable ps oa -> (forall p, good_answer (ans p)) ->
  exists s' ps' rc sent oa', nn_rep_send s ps ans msg = Ret (s', ps', rc, sent) /\
    rep_inv s' known oa' ia /\ out_moves ps ps' oa oa' /\ rflags s' = 0 /\
    rc = (if decide (rflags s = 0) then - EFSM else 0) /\
    forall p hdr, answers p hdr s -> p ∈ known ->
      sent = if decide (p ∈ oa) then [(p, Msg hdr (body msg))] else [].
Proof.
  destruct s as [x fl bt]. intros Hh (Hi & Hfl) Hw Hans. cbn in *. unfold nn_rep_send. cbn [rflags xrep backtrace].
  destruct Hfl as [-> | ->].
  - change (Z.land 0 NN_REP_INPROGRESS =? 0) with true. cbv iota. eexists _, _, _, _, oa. split; [reflexivity|].
    split; [split; [done|by left]|]. split; [apply out_moves_refl|]. split; [done|]. split; [done|].
    intros p hdr [Hfl _]. done.
  - change (Z.land NN_REP_INPROGRESS NN_REP_INPROGRESS =? 0) with false. cbv iota.
    rewrite Hh. change (size [] =? 0) with true. cbn [check mbind outcome_bind].
    change (Z.land NN_REP_INPROGRESS (Z.lnot NN_REP_INPROGRESS)) with 0.
    destruct (xrep_send_ok x known oa ia ps ans (Msg bt (body msg)) Hi Hw Hans)
      as (x' & ps' & sent & oa' & -> & Hi' & Hm & Hk & _ & Hto).
    cbn [mbind outcome_bind]. change ((0 =? 0) || (0 =? - EAGAIN)) with true. cbn [check mbind outcome_bind].
    eexists _, _, _, _, oa'. split; [reflexivity|]. split; [split; [done|by left]|]. split; [done|]. split; [done|].
    split; [done|]. intros p hdr (_ & key & Hkey & Hbt) Hp. by apply (Hto p key hdr).
Qed.

Lemma rep_recv_ok s known oa ia ttl ps ib :
  rep_inv s known oa ia -> readable ps ia -> inbox_ok ps ib ->
  exists s' ps' ib' rc got ia', nn_rep_recv s ttl ps ib = Ret (s', ps', ib', rc, got) /\
    rep_inv s' known oa ia' /\ in_moves ps ps' ia ia' /\ inbox_ok ps' ib' /\
    ((rc = - EAGAIN /\ rflags s' = 0 /\ forall m, got <> Received m) \/
     exists p r req ms hdr bd, rc = 0 /\ (p ∈ ia) /\ ib !! p = Some ((r, req) :: ms) /\
       got = Received (Msg [] bd) /\ answers p hdr s' /\
       if decide (Z.land r NN_PIPE_PARSED = 0) then split_ok ttl req (Some (Msg hdr bd)) else req = Msg hdr bd).
Proof.
  destruct s as [x fl bt]. intros (Hi & Hfl) Hr Hib. cbn in *. unfold nn_rep_recv. cbn [rflags xrep backtrace].
  assert (Hclear : exists bt', (if Z.land fl NN_REP_INPROGRESS =? 0 then Rep x fl bt
    else Rep x (Z.land fl (Z.lnot NN_REP_INPROGRESS)) []) = Rep x 0 bt') by (destruct Hfl as [-> | ->]; eexists; done).
  destruct Hclear as [bt' ->]. cbn [xrep rflags backtrace].
  destruct (xrep_recv_ok x known oa ia ttl ps ib Hi Hr Hib)
    as (x' & ps' & ib' & rc & got & ia' & -> & Hi' & Hm & Hib' & Hk & Hcase). cbn [mbind outcome_bind].
  destruct Hcase as [[-> Hgot]|(p & r & req & ms & [hdr bd] & key & -> & Hp & Hms & Hkey & -> & Hs)].
  - rewrite Z.eqb_refl. eexists _, _, _, _, _, ia'. split; [reflexivity|]. split; [split; [done|by left]|].
    split; [done|]. split; [done|]. left. by split_and!.
  - change (0 =? - EAGAIN) with false. change (0 =? 0) with true. cbn [check mbind outcome_bind].
    eexists _, _, _, _, _, ia'. split; [reflexivity|]. split; [split; [done|by right]|].
    split; [done|]. split; [done|]. right. exists p, r, req, ms, hdr, bd.
    split_and!; try done; [|by case_decide]. split; [done|]. exists key. cbn. by rewrite Hk.
Qed.

#[export] Program Instance rep_laws : SockBaseLaws (nn_rep S) := {| sb_inv := rep_inv |}.
Next Obligation. intros. split; [apply xrep_init|by left]. Qed.
Next Obligation. intros s known oa ia [Hi _]. by eapply (sb_inv_sub (xrep s)). Qed.
Next Obligation.
  intros s known oa ia p o [Hi Hfl] Hp Ho Hr Hsz. cbn in *.
  destruct (xrep_add_ok (xrep s) known oa ia p o Hi Hp Ho Hr Hsz) as (s' & -> & Hi' & _).
  eexists _, 0. split; [reflexivity|]. left. by split.
Qed.
Next Obligation.
  intros s known oa ia st p [Hi Hfl] Hp _. cbn.
  destruct (xrep_rm_ok (xrep s) known oa ia p Hi Hp) as (s' & -> & Hi' & _). eexists _, _. by split.
Qed.
Next Obligation.
  intros s known oa ia p [Hi Hfl] Hp Hn _. cbn.
  destruct (xrep_in_ok (xrep s) known oa ia p Hi Hp Hn) as (s' & -> & Hi' & _). eexists. by split.
Qed.
Next Obligation.
  intros s known oa ia st p [Hi Hfl] Hp _. cbn.
  destruct (xrep_out_ok (xrep s) known oa ia p Hi Hp) as (s' & -> & Hi' & _). eexists _, _. by split.
Qed.
Next Obligation.
  intros s known oa ia ps ans m _ Hpl Hi Hw Hans. cbn.
  destruct (rep_send_ok s known oa ia ps ans m (Hpl eq_refl) Hi Hw Hans)
    as (s' & ps' & rc & sent & oa' & -> & Hi' & Hm & _).
  eexists _, _, _, _, _. split; [reflexivity|]. by split.
Qed.
Next Obligation.
  intros s known oa ia ttl ps ib _ Hi Hr Hib. cbn.
  destruct (rep_recv_ok s known oa ia ttl ps ib Hi Hr Hib)
    as (s' & ps' & ib' & rc & got & ia' & -> & Hi' & Hm & Hib' & _).
  eexists _, _, _, _, _, _. split; [reflexivity|]. by split.
Qed.
Next Obligation. intros s [Hi _]. by apply xrep_term_ok. Qed.
End laws.

(** ** A reply finds its way back *)

Lemma hash_insert_keys h ks self key x h' ks' self' :
  nn_hash_insert h ks self key x = Ret (h', ks', self') -> ks' = <[x := key]> ks.
Proof.
  unfold nn_hash_insert. intros Hi. apply bind_Ret in Hi as (L & _ & Hi). apply bind_Ret in Hi as (it & _ & Hi).
  apply bind_Ret in Hi as (u & _ & Hi). apply bind_Ret in Hi as ([h1 L1] & _ & Hi).
  apply bind_Ret in Hi as (arr & _ & Hi). destruct (overloaded _); [|by injection Hi as _ <- _].
  apply bind_Ret in Hi as ([h2 self2] & _ & Hi). by injection Hi as _ <- _.
Qed.

Section routing.
  Context {S : Type} `{SchedulerLaws S}.

(** What changes neither the flags, nor the backtrace, nor the key of the pipe. *)
Lemma answers_keep p hdr (t : nn_rep S) x :
  answers p hdr t -> keys x !! p = keys (xrep t) !! p -> answers p hdr (with_xrep t x).
Proof. intros (Hf & key & Hk & Hb) Hx. split; [done|]. exists key. cbn. by rewrite Hx. Qed.

Lemma answers_step p hdr (s s' : bsys (T := nn_rep S)) l :
  calm p l -> benabled s l -> bstep s l = Ret s' ->
  answers p hdr (proto s) -> is_Some (ps s !! p) -> answers p hdr (proto s') /\ is_Some (ps s' !! p).
Proof.
  apply bstep_keep; cbn.
  - intros t q o t' rc Ht Hne Ha. apply bind_Ret in Ha as ([x rc'] & Ha & Hr). injection Hr as <- _.
    apply answers_keep; [done|]. unfold nn_xrep_add in Ha. apply bind_Ret in Ha as (u & _ & Ha).
    apply bind_Ret in Ha as ([[h' ks'] out'] & Hi & Ha). injection Ha as <- _. cbn [keys].
    apply hash_insert_keys in Hi as ->. by rewrite lookup_insert_ne.
  - intros t st q t' st' Ht Hne Ha. apply bind_Ret in Ha as (x & Ha & Hr). injection Hr as <- _.
    apply answers_keep; [done|]. unfold nn_xrep_rm in Ha. apply bind_Ret in Ha as (f & _ & Ha).
    apply bind_Ret in Ha as ([h' out'] & _ & Ha). apply bind_Ret in Ha as (u & _ & Ha). by injection Ha as <-.
  - intros t q t' Ht Ha. apply bind_Ret in Ha as (x & Ha & Hr). injection Hr as <-.
    apply answers_keep; [done|]. unfold nn_xrep_in in Ha. apply bind_Ret in Ha as (f & _ & Ha). by injection Ha as <-.
  - intros t st q t' st' Ht Ha. apply bind_Ret in Ha as (x & Ha & Hr). injection Hr as <- _.
    apply answers_keep; [done|]. unfold nn_xrep_out in Ha. apply bind_Ret in Ha as (d & _ & Ha). by injection Ha as <-.
Qed.

Lemma answers_run p hdr (s s' : bsys (T := nn_rep S)) ls :
  Forall (calm p) ls -> bpath s ls -> brun s ls = Ret s' ->
  answers p hdr (proto s) -> is_Some (ps s !! p) -> answers p hdr (proto s') /\ is_Some (ps s' !! p).
Proof.
  intros Hc. revert s. induction Hc as [|l ls Hl _ IH]; intros s Hp Hr Ha Hs; cbn in *; [by injection Hr as <-|].
  destruct Hp as [He Hp]. destruct (bstep s l) as [s1| | |] eqn:E; [|done..]. cbn [mbind outcome_bind] in Hr.
  destruct (answers_step p hdr s s1 l Hl He E Ha Hs) as [Ha1 Hs1]. by eapply IH.
Qed.

Lemma rep_reply_step (s : bsys (T := nn_rep S)) p hdr ans rep :
  breach s -> answers p hdr (proto s) -> is_Some (ps s !! p) ->
  sphdr rep = [] -> (forall q, good_answer (ans q)) ->
  exists t pm sent, nn_rep_send (proto s) (ps s) ans rep = Ret (t, pm, 0, sent) /\ rflags t = 0 /\
    (ready_out s p -> sent = [(p, Msg hdr (body rep))]) /\ (~ ready_out s p -> sent = []).
Proof.
  intros Hr Ha Hp Hh Hans. destruct (breach_view s Hr) as (oa & ia & Hi & Hw & _ & _ & Hrd).
  destruct (rep_send_ok (proto s) _ oa ia (ps s) ans rep Hh Hi Hw Hans)
    as (t' & pm' & rc & sent & oa' & Hs & _ & _ & Hf & Hrc & Hto).
  rewrite decide_False in Hrc by (destruct Ha as [-> _]; done). subst rc.
  exists t', pm', sent. split; [done|]. split; [done|].
  specialize (Hto p hdr Ha (proj2 (elem_of_dom (ps s) p) Hp)). rewrite Hto.
  split; intros Hq; [by rewrite decide_True by by apply Hrd|rewrite decide_False; [done|by intros ?%Hrd]].
Qed.
End routing.

(** C5.  When a REP socket returns a request, it is the first message of some
    pipe [p], cut behind the first header word with the top bit set, at most
    [NN_MAXTTL] words from the start (unless the transport has parsed it).
    Whatever connections come and go and whatever events occur then, as long as
    [p] is not closed and the application does not receive again, the next
    reply is sent to [p], with the header the request had, if [p] is ready, and
    to no pipe otherwise; and it ends the request. *)
Theorem rep_routes_reply {S} `{SchedulerLaws S} (s : bsys (T := nn_rep S)) ttl t pm ib m :
  breach s -> nn_rep_recv (proto s) ttl (SockBase.ps s) (SockBase.ib s) = Ret (t, pm, ib, 0, Received m) ->
  exists p r req ms hdr, SockBase.ib s !! p = Some ((r, req) :: ms) /\
    (if decide (Z.land r NN_PIPE_PARSED = 0) then split_ok ttl req (Some (Msg hdr (body m)))
     else req = Msg hdr (body m)) /\
    forall ls s', Forall (calm p) ls -> let s1 := Bsys t (bstats s) pm (events s) ib in
      bpath s1 ls -> brun s1 ls = Ret s' ->
    forall ans rep, sphdr rep = [] -> (forall q, good_answer (ans q)) ->
    exists t2 pm2 sent, nn_rep_send (proto s') (SockBase.ps s') ans rep = Ret (t2, pm2, 0, sent) /\
      rflags t2 = 0 /\ (ready_out s' p -> sent = [(p, Msg hdr (body rep))]) /\
      (~ ready_out s' p -> sent = []).
Proof.
  intros Hr Hrecv. assert (Hstep : bstep s (BRecv ttl) = Ret (Bsys t (bstats s) pm (events s) ib)).
  { destruct s. cbn in *. by rewrite Hrecv. }
  destruct (breach_view s Hr) as (oa & ia & Hi & _ & Hre & Hib & _).
  assert (Hr1 : breach (Bsys t (bstats s) pm (events s) ib)) by (eapply breach_step; [exact Hr| |exact Hstep]; by destruct s).
  destruct (sb_inv_sub _ _ _ _ Hi) as [_ Hia].
  destruct (rep_recv_ok (proto s) _ oa ia ttl _ _ Hi Hre Hib) as (t' & pm' & ib' & rc & got & ia' & Hs & _ & Hm & _ & Hcase).
  rewrite Hs in Hrecv. injection Hrecv as -> -> -> -> ->.
  destruct Hcase as [[? _]|(p & r & req & ms & hdr & bd & _ & Hp & Hms & Hgot & Ha & Hreq)]; [done|].
  injection Hgot as ->. exists p, r, req, ms, hdr. split; [done|]. split; [exact Hreq|].
  intros ls s' Hc s1 Hpath Hrun ans rep Hh Hans.
  assert (Hpm : is_Some (pm !! p)).
  { apply elem_of_dom. destruct (in_moves_dom _ _ _ _ Hm) as [-> _]. by apply Hia. }
  destruct (answers_run p hdr _ s' ls Hc Hpath Hrun Ha Hpm) as [Ha' Hp'].
  apply rep_reply_step; try done. by eapply breach_run.
Qed.

(** A request of one client, with another client connecting before the reply. *)
Lemma rep_routes_reply_witness :
  let o := EpOptions 8 8 1 in
  let req := Msg [] [128; 0; 0; 1; 113] in
  let ans := fun _ : loc => Answer 0 true tt in
  exists (s s' : bsys (T := nn_rep priosched)) t pm ib t2 pm2,
    breach s /\ nn_rep_recv (proto s) 8 (SockBase.ps s) (SockBase.ib s) = Ret (t, pm, ib, 0, Received (Msg [] [113])) /\
    brun (Bsys t (bstats s) pm (events s) ib) [BStart 2%positive o] = Ret s' /\
    nn_rep_send (proto s') (SockBase.ps s') ans (Msg [] [97]) =
      Ret (t2, pm2, 0, [(1%positive, Msg [128; 0; 0; 1] [97])]).
Proof.
  intros o req ans. set (s0 := Bsys (nn_rep_init (S := priosched) 7) init_stats ∅ [] ∅).
  set (ls := [BStart 1%positive o; BDeliver; BArrive 1%positive 0 req; BDeliver]).
  destruct (brun s0 ls) as [s| | |] eqn:Hrun; [|by vm_compute in Hrun..].
  assert (Hs : breach s).
  { eapply (breach_run s0 ls); [exact (breach_init 7)| |exact Hrun]. solve_path. }
  destruct (nn_rep_recv (proto s) 8 (SockBase.ps s) (SockBase.ib s)) as [[[[[t pm] ib] rc] got]| | |] eqn:Hrecv;
    [|by vm_compute in Hrun; injection Hrun as <-; vm_compute in Hrecv..].
  assert (Hgot : rc = 0 /\ got = Received (Msg [] [113])).
  { vm_compute in Hrun. injection Hrun as <-. vm_compute in Hrecv. split; congruence. }
  destruct Hgot as [-> ->].
  destruct (rep_routes_reply s 8 t pm ib (Msg [] [113]) Hs Hrecv) as (p & r & req' & ms & hdr & Hib & Hreq & Hroute).
  assert (Hp : p = 1%positive /\ hdr = [128; 0; 0; 1]).
  { vm_compute in Hrun. injection Hrun as <-. cbn [SockBase.ib] in Hib.
    assert (Hlook : ({[ 1%positive := [(0, req)] ]} : inbox) !! p = Some ((r, req') :: ms)) by exact Hib.
    apply lookup_singleton_Some in Hlook as [<- Heq]. injection Heq as <- <- _. split; [done|].
    cbn in Hreq. destruct Hreq as [Hreq _].
    change (hdr ++ [113] = [128; 0; 0; 1] ++ [113]) in Hreq. by apply app_inj_2 in Hreq as [-> _]. }
  destruct Hp as [-> ->].
  destruct (brun (Bsys t (bstats s) pm (events s) ib) [BStart 2%positive o]) as [s'| | |] eqn:Hrun2;
    [|by vm_compute in Hrun; injection Hrun as <-; vm_compute in Hrecv; injection Hrecv as <- <- <-; vm_compute in Hrun2..].
  destruct (Hroute [BStart 2%positive o] s') with (ans := ans) (rep := Msg [] [97])
    as (t2 & pm2 & sent & Hsend & _ & Hready & _).
  { by repeat constructor. }
  { vm_compute in Hrun. injection Hrun as <-. vm_compute in Hrecv. injection Hrecv as <- <- <-. solve_path. }
  { exact Hrun2. } { reflexivity. } { intros q. split; reflexivity. }
  rewrite Hready in Hsend.
  - exists s, s', t, pm, ib, t2, pm2. auto.
  - vm_compute in Hrun. injection Hrun as <-. vm_compute in Hrecv. injection Hrecv as <- <- <-.
    vm_compute in Hrun2. injection Hrun2 as <-. split; [eexists; split; [reflexivity|done]|].
    intros [He|He]%elem_of_cons; [congruence|]. by apply elem_of_nil in He.
Defined.
