(* ===== verification/Xsurveyor.v ===== *)
(** * Xsurveyor: the raw SURVEYOR socket (src/protocols/survey/xsurveyor.c)

    A survey goes to all peers; responses are fair-queued, and split behind
    their first word, the survey's identifier.  The socket keeps the laws of
    SockBase.v. *)

From stdpp Require Import base gmap list sets.
From Stdlib Require Import ZArith Lia.
From S2P Require Import Prelude Wire ListHeap Priolist Sched Pipe Lb Fq Sock Message Inbox SockBase FqInbox Pipeline Dist.

Open Scope Z_scope.

Definition NN_SURVEYOR : Z := 6 * 16 + 2.
Definition NN_RESPONDENT : Z := 6 * 16 + 3.

Record nn_xsurveyor (S : Type) : Type := Xsurveyor { outpipes : nn_dist; inpipes : S }.
Arguments Xsurveyor {S}.
Arguments outpipes {S}.
Arguments inpipes {S}.

Section xsurveyor.
  Context {S : Type} `{Scheduler S}.

Definition nn_xsurveyor_init : nn_xsurveyor S := Xsurveyor nn_dist_init nn_fq_init.

Definition nn_xsurveyor_term (self : nn_xsurveyor S) : outcome unit :=
  _ ← nn_fq_term (inpipes self);
  nn_dist_term (outpipes self).

Definition nn_xsurveyor_add (self : nn_xsurveyor S) (p : loc) (opts : nn_ep_options)
    : outcome (nn_xsurveyor S * Z) :=
  let rcvprio := Pipe.rcvprio opts in
  _ ← check ((1 <=? rcvprio) && (rcvprio <=? 16));
  Ret (Xsurveyor (nn_dist_add (outpipes self) p p) (nn_fq_add (inpipes self) p rcvprio), 0).

Definition nn_xsurveyor_rm (self : nn_xsurveyor S) (p : loc) : outcome (nn_xsurveyor S) :=
  f ← nn_fq_rm (inpipes self) p;
  d ← nn_dist_rm (outpipes self) p;
  Ret (Xsurveyor d f).

Definition nn_xsurveyor_in (self : nn_xsurveyor S) (p : loc) : outcome (nn_xsurveyor S) :=
  f ← nn_fq_in (inpipes self) p; Ret (Xsurveyor (outpipes self) f).

Definition nn_xsurveyor_out (self : nn_xsurveyor S) (p : loc) : outcome (nn_xsurveyor S) :=
  d ← nn_dist_out (outpipes self) p; Ret (Xsurveyor d (inpipes self)).

Definition nn_xsurveyor_events (self : nn_xsurveyor S) : Z :=
  let events := NN_SOCKBASE_EVENT_OUT in
  if nn_fq_can_recv (inpipes self) =? 0 then events else Z.lor events NN_SOCKBASE_EVENT_IN.

Definition nn_xsurveyor_send (self : nn_xsurveyor S) (ps : pipemap) (ans : loc -> answer unit)
    (msg : nn_msg) : outcome (nn_xsurveyor S * pipemap * Z * list (loc * nn_msg)) :=
  '(d, ps, rc, sent) ← nn_dist_send (outpipes self) ps ans msg None;
  Ret (Xsurveyor d (inpipes self), ps, rc, sent).

(** Splits a response; [None] for a malformed one. *)
Definition nn_xsurveyor_split (rc : Z) (msg : nn_msg) : outcome (option nn_msg) :=
  if negb (Z.land rc NN_PIPE_PARSED =? 0) then Ret (Some msg) else
  if size (body msg) <? 4 then Ret None else
  _ ← check (size (sphdr msg) =? 0);
  b ← trim (body msg) 4;
  Ret (Some (Msg (take 4 (body msg)) b)).

Definition nn_xsurveyor_recv (self : nn_xsurveyor S) (ps : pipemap) (ib : inbox)
    : outcome (nn_xsurveyor S * pipemap * inbox * Z * received) :=
  '(f, ps, ib, rc, got) ← fq_take (inpipes self) ps ib;
  let self := Xsurveyor (outpipes self) f in
  if rc <? 0 then Ret (self, ps, ib, rc, Untouched) else
  match got with
  | None => Undef
  | Some (_, msg) =>
      m ← nn_xsurveyor_split rc msg;
      match m with
      | None => Ret (self, ps, ib, - EAGAIN, Terminated)
      | Some m => Ret (self, ps, ib, 0, Received m)
      end
  end.

Definition nn_xsurveyor_setopt (self : nn_xsurveyor S) (level opt : Z) (optval : list Z) : Z :=
  - ENOPROTOOPT.

Definition nn_xsurveyor_getopt (self : nn_xsurveyor S) (level opt : Z) : Z := - ENOPROTOOPT.

Definition nn_xsurveyor_ispeer (socktype : Z) : Z := if socktype =? NN_RESPONDENT then 1 else 0.

#[export] Instance xsurveyor_base : SockBase (nn_xsurveyor S) := {|
  sb_norecv := false;
  sb_nosend := false;
  sb_quiet := false;
  sb_plain := false;
  sb_init _ := nn_xsurveyor_init;
  sb_term := nn_xsurveyor_term;
  sb_room _ := true;
  sb_add := nn_xsurveyor_add;
  sb_rm s st p := s ← nn_xsurveyor_rm s p; Ret (s, st);
  sb_in := nn_xsurveyor_in;
  sb_out s st p := s ← nn_xsurveyor_out s p; Ret (s, st);
  sb_events := nn_xsurveyor_events;
  sb_send := nn_xsurveyor_send;
  sb_recv s _ := nn_xsurveyor_recv s
|}.
End xsurveyor.

(** ** The laws *)

Section laws.
  Context {S : Type} `{SchedulerLaws S}.

Definition xsurveyor_inv (s : nn_xsurveyor S) (known oa ia : gset loc) : Prop :=
  s_inv (inpipes s) known ia /\ dist_inv (outpipes s) known oa.

(** A survey always goes out. *)
Lemma xsurveyor_send_ok s known oa ia ps ans msg :
  xsurveyor_inv s known oa ia -> writable ps oa -> (forall p, good_answer (ans p)) ->
  exists s' ps' to oa', nn_xsurveyor_send s ps ans msg = Ret (s', ps', 0, (fun p => (p, msg)) <$> to) /\
    xsurveyor_inv s' known oa' ia /\ out_moves ps ps' oa oa' /\ NoDup to /\
    forall p, (p ∈ to) <-> (p ∈ oa).
Proof.
  intros [Hf Hd] Hw Hans. unfold nn_xsurveyor_send.
  destruct (dist_send_spec _ ps known oa ans msg None Hd Hw Hans) as (d' & ps' & to & oa' & -> & Hd' & Hm & Hnd & Hto & _).
  cbn [mbind outcome_bind]. eexists _, _, to, oa'. split; [reflexivity|]. split; [by split|].
  split; [done|]. split; [done|]. intros p. rewrite Hto. naive_solver.
Qed.

Lemma xsurveyor_split_spec r m :
  (Z.land r NN_PIPE_PARSED = 0 -> sphdr m = []) ->
  exists o, nn_xsurveyor_split r m = Ret o.
Proof.
  intros Hm. unfold nn_xsurveyor_split. destruct (Z.eqb_spec (Z.land r NN_PIPE_PARSED) 0) as [E|]; [|by eexists].
  cbn [negb]. destruct (Z.ltb_spec (size (body m)) 4); [by eexists|]. rewrite Hm by done.
  change (size [] =? 0) with true. cbn [check mbind outcome_bind]. rewrite trim_ok by lia. by eexists.
Qed.

(** A message is taken from a transport whenever one is there. *)
Lemma xsurveyor_recv_ok s known oa ia ps ib :
  xsurveyor_inv s known oa ia -> readable ps ia -> inbox_ok ps ib ->
  exists s' ps' ib' rc got ia', nn_xsurveyor_recv s ps ib = Ret (s', ps', ib', rc, got) /\
    xsurveyor_inv s' known oa ia' /\ in_moves ps ps' ia ia' /\ inbox_ok ps' ib' /\
    ((rc = - EAGAIN /\ forall m, got <> Received m) \/
     exists p r msg ms m, rc = 0 /\ got = Received m /\ ib !! p = Some ((r, msg) :: ms) /\
       ib' = take_message ib (Some p) /\ nn_xsurveyor_split r msg = Ret (Some m) /\
       pending ib = Datatypes.S (pending ib')).
Proof.
  intros [Hf Hd] Hr Hib. unfold nn_xsurveyor_recv.
  destruct (fq_take_spec (inpipes s) ps known ia ib Hf Hr Hib) as
    [[-> ->] | (p & r & msg & ms & f' & ps' & ib' & ia' & -> & Hp & Hms & Hib1 & Hg & Hf' & Hm & Hib' & Hpend)];
    cbn [mbind outcome_bind].
  - eexists _, _, _, _, _, ∅. split; [reflexivity|]. split; [by split|]. split; [apply in_moves_refl|].
    split; [done|]. by left.
  - destruct Hg as (Hr0 & _ & Hparsed). cbn [fst snd] in *. rewrite (proj2 (Z.ltb_ge r 0)) by lia.
    destruct (xsurveyor_split_spec r msg Hparsed) as (o & Ho). rewrite Ho. cbn [mbind outcome_bind].
    destruct o as [m|].
    + eexists _, _, _, _, _, ia'. split; [reflexivity|]. split; [by split|]. split; [done|]. split; [done|].
      right. exists p, r, msg, ms, m. by split_and!.
    + eexists _, _, _, _, _, ia'. split; [reflexivity|]. split; [by split|]. split; [done|]. split; [done|].
      by left.
Qed.

#[export] Program Instance xsurveyor_laws : SockBaseLaws (nn_xsurveyor S) := {| sb_inv := xsurveyor_inv |}.
Next Obligation. intros. split; [apply s_inv_init|apply dist_init]. Qed.
Next Obligation. intros s known oa ia [Hf Hd]. split; [by eapply dist_inv_sub|by eapply s_inv_sub]. Qed.
Next Obligation.
  intros s known oa ia p o [Hf Hd] Hp [_ Ho] _ Hsz. eexists _, 0. cbn. unfold nn_xsurveyor_add.
  rewrite prio_check by done. split; [reflexivity|]. left. split; [done|]. split; [by apply s_add_ok|by apply dist_add].
Qed.
Next Obligation.
  intros s known oa ia st p [Hf Hd] Hp _. cbn. unfold nn_xsurveyor_rm, nn_fq_rm.
  destruct (s_rm_ok _ _ _ p Hf Hp) as (f' & -> & Hf'), (dist_rm _ _ _ p Hd Hp) as (d' & Hr & Hd').
  cbn [mbind outcome_bind]. rewrite Hr. eexists _, _. by split.
Qed.
Next Obligation.
  intros s known oa ia p [Hf Hd] Hp Hn _. cbn. unfold nn_xsurveyor_in, nn_fq_in.
  destruct (s_activate_ok _ _ _ p Hf Hp Hn) as (f' & -> & Hf'). eexists. by split.
Qed.
Next Obligation.
  intros s known oa ia st p [Hf Hd] Hp Hn. cbn. unfold nn_xsurveyor_out.
  destruct (dist_out _ _ _ p Hd Hp Hn) as (d' & -> & Hd'). eexists _, _. by split.
Qed.
Next Obligation.
  intros s known oa ia ps ans m _ _ Hi Hw Hans.
  destruct (xsurveyor_send_ok s known oa ia ps ans m Hi Hw Hans) as (s' & ps' & to & oa' & Hs & Hi' & Hm & _).
  eexists _, _, _, _, _. split; [exact Hs|]. by split.
Qed.
Next Obligation.
  intros s known oa ia ttl ps ib _ Hi Hr Hib.
  destruct (xsurveyor_recv_ok s known oa ia ps ib Hi Hr Hib)
    as (s' & ps' & ib' & rc & got & ia' & Hs & Hi' & Hm & Hib' & _).
  eexists _, _, _, _, _, _. split; [exact Hs|]. by split.
Qed.
Next Obligation.
  intros s [Hf Hd]. cbn. unfold nn_xsurveyor_term, nn_fq_term. rewrite (s_term_ok _ _ _ Hf) by done.
  cbn [mbind outcome_bind]. by apply dist_term.
Qed.
End laws.
