(* ===== verification/Respondent.v ===== *)
(** * Respondent: the RESPONDENT sockets (protocols/survey/xrespondent.c,
    respondent.c)

    The code of these two files is that of xrep.c and rep.c with the names
    changed (and the type of the peers); so are the definitions. *)

From stdpp Require Import base gmap list sets.
From Stdlib Require Import ZArith Lia.
From S2P Require Import Prelude ListHeap Sched Pipe Sock Message Inbox SockBase Xrep Rep Xsurveyor.

Open Scope Z_scope.

Definition NN_XRESPONDENT_OUT : Z := NN_XREP_OUT.
Definition NN_RESPONDENT_INPROGRESS : Z := NN_REP_INPROGRESS.

Abbreviation nn_xrespondent_data := nn_xrep_data.
Abbreviation nn_xrespondent := nn_xrep.
Abbreviation nn_respondent := nn_rep.

Section respondent.
  Context {S : Type} `{Scheduler S}.

(** ** xrespondent.c *)

Definition nn_xrespondent_init := nn_xrep_init (S := S).
Definition nn_xrespondent_term := nn_xrep_term (S := S).
Definition nn_xrespondent_add := nn_xrep_add (S := S).
Definition nn_xrespondent_rm := nn_xrep_rm (S := S).
Definition nn_xrespondent_in := nn_xrep_in (S := S).
Definition nn_xrespondent_out := nn_xrep_out (S := S).
Definition nn_xrespondent_events := nn_xrep_events (S := S).
Definition nn_xrespondent_send := nn_xrep_send (S := S).
Definition nn_xrespondent_recv := nn_xrep_recv (S := S).
Definition nn_xrespondent_setopt := nn_xrep_setopt (S := S).
Definition nn_xrespondent_getopt := nn_xrep_getopt (S := S).

Definition nn_xrespondent_ispeer (socktype : Z) : Z := if socktype =? NN_SURVEYOR then 1 else 0.

(** ** respondent.c *)

Definition nn_respondent_init := nn_rep_init (S := S).
Definition nn_respondent_term := nn_rep_term (S := S).
Definition nn_respondent_events := nn_rep_events (S := S).
Definition nn_respondent_send := nn_rep_send (S := S).
Definition nn_respondent_recv := nn_rep_recv (S := S).
End respondent.
