(* ===== verification/Surveyor.v ===== *)
(** * Surveyor: the SURVEYOR socket (src/protocols/survey/surveyor.c)

    A SURVEYOR socket sends a survey to all its peers and accepts responses
    that carry the survey's identifier until the deadline timer expires or
    another survey is sent.  [sstep] runs the socket with its pipes, its timer
    and the worker thread; the raw socket underneath is the system of
    SockBase.v.

    [surveyor_never_fails] shows that no state gets an event it does not expect
    and no assertion fails, [survey_matches_responses] what a receive returns,
    [surveyor_close_completes] that a stop is reported.  Two things the code does
    not guard are shown by [surveyor_leaks] and [surveyor_negative_deadline]. *)

From stdpp Require Import base gmap list sets.
From Stdlib Require Import ZArith Lia.
From S2P Require Import Prelude Wire ListHeap Priolist Sched Pipe Lb Fq Sock Message Fsm Timer Inbox SockBase FqInbox Xsurveyor.

Open Scope Z_scope.

(** ** Data *)

Inductive survey_state : Type :=
| SURVEYOR_IDLE | SURVEYOR_PASSIVE | SURVEYOR_ACTIVE | SURVEYOR_CANCELLING
| SURVEYOR_STOPPING_TIMER | SURVEYOR_STOPPING.

#[export] Instance survey_state_eq_dec : EqDecision survey_state.
Proof. solve_decision. Defined.

Definition NN_SURVEYOR_DEFAULT_DEADLINE : Z := 1000.
Definition NN_SURVEYOR_ACTION_START : Z := 1.
Definition NN_SURVEYOR_ACTION_CANCEL : Z := 2.
Definition NN_SURVEYOR_SRC_DEADLINE_TIMER : Z := 1.
Definition NN_SURVEYOR_TIMEDOUT : Z := 1.
Definition NN_SURVEYOR_DEADLINE : Z := 1.
Definition ETIMEDOUT : Z := 110.

(** [stopped] says that [nn_sockbase_stopped] was called. *)
Record nn_surveyor (S : Type) : Type := Surveyor {
  xsurveyor : nn_xsurveyor S; sfsm : nn_fsm; state : survey_state; surveyid : Z;
  timer : nn_timer; tosend : nn_msg; deadline : Z; timedout : Z; stopped : bool
}.
Arguments Surveyor {S}.
Arguments xsurveyor {S}.
Arguments sfsm {S}.
Arguments state {S}.
Arguments surveyid {S}.
Arguments timer {S}.
Arguments tosend {S}.
Arguments deadline {S}.
Arguments timedout {S}.
Arguments stopped {S}.

Section surveyor.
  Context {S : Type} `{Scheduler S}.

Definition set_state (self : nn_surveyor S) (st : survey_state) : nn_surveyor S :=
  Surveyor (xsurveyor self) (sfsm self) st (surveyid self) (timer self) (tosend self)
    (deadline self) (timedout self) (stopped self).
Definition set_sfsm (self : nn_surveyor S) (f : nn_fsm) : nn_surveyor S :=
  Surveyor (xsurveyor self) f (state self) (surveyid self) (timer self) (tosend self)
    (deadline self) (timedout self) (stopped self).
Definition set_raw (self : nn_surveyor S) (x : nn_xsurveyor S) : nn_surveyor S :=
  Surveyor x (sfsm self) (state self) (surveyid self) (timer self) (tosend self)
    (deadline self) (timedout self) (stopped self).
Definition set_timer (self : nn_surveyor S) (t : nn_timer) : nn_surveyor S :=
  Surveyor (xsurveyor self) (sfsm self) (state self) (surveyid self) t (tosend self)
    (deadline self) (timedout self) (stopped self).
Definition set_timedout (self : nn_surveyor S) (v : Z) : nn_surveyor S :=
  Surveyor (xsurveyor self) (sfsm self) (state self) (surveyid self) (timer self) (tosend self)
    (deadline self) v (stopped self).

(** The state machine also writes to pipes, which answer with [ans]. *)
Abbreviation sobj := (nn_surveyor S * pipemap)%type.

(** ** The state machine *)

Section handlers.
  Context (ans : loc -> answer unit).

Definition nn_surveyor_resend (o : sobj) : outcome sobj :=
  let '(self, ps) := o in
  '(x, ps, rc, _) ← nn_xsurveyor_send (xsurveyor self) ps ans (tosend self);
  _ ← check (rc =? 0);
  Ret (set_raw self x, ps).

(** [nn_surveyor_resend], [nn_timer_start] and the state ACTIVE. *)
Definition start_survey (o : sobj) : outcome sobj :=
  '(self, ps) ← nn_surveyor_resend o;
  t ← nn_timer_start (timer self) (deadline self);
  Ret (set_state (set_timer self t) SURVEYOR_ACTIVE, ps).

(** [nn_timer_stop] and the state [st]. *)
Definition stop_timer (o : sobj) (st : survey_state) : outcome sobj :=
  let '(self, ps) := o in
  t ← nn_timer_stop (timer self);
  Ret (set_state (set_timer self t) st, ps).

Definition handle_idle (o : sobj) (src type : Z) : outcome sobj :=
  let '(self, ps) := o in
  if src =? NN_FSM_ACTION then
    if type =? NN_FSM_START then Ret (set_state self SURVEYOR_PASSIVE, ps) else Abort
  else Abort.

Definition handle_passive (o : sobj) (src type : Z) : outcome sobj :=
  if src =? NN_FSM_ACTION then
    if type =? NN_SURVEYOR_ACTION_START then start_survey o else Abort
  else Abort.

Definition handle_active (o : sobj) (src type : Z) : outcome sobj :=
  if src =? NN_FSM_ACTION then
    if type =? NN_SURVEYOR_ACTION_CANCEL then stop_timer o SURVEYOR_CANCELLING else Abort
  else if src =? NN_SURVEYOR_SRC_DEADLINE_TIMER then
    if type =? NN_TIMER_TIMEOUT then
      '(self, ps) ← stop_timer o SURVEYOR_STOPPING_TIMER;
      Ret (set_timedout self NN_SURVEYOR_TIMEDOUT, ps)
    else Abort
  else Abort.

Definition handle_cancelling (o : sobj) (src type : Z) : outcome sobj :=
  if src =? NN_FSM_ACTION then
    if type =? NN_SURVEYOR_ACTION_CANCEL then Ret o else Abort
  else if src =? NN_SURVEYOR_SRC_DEADLINE_TIMER then
    if type =? NN_TIMER_STOPPED then start_survey o else Abort
  else Abort.

Definition handle_stopping_timer (o : sobj) (src type : Z) : outcome sobj :=
  let '(self, ps) := o in
  if src =? NN_FSM_ACTION then
    if type =? NN_SURVEYOR_ACTION_CANCEL then Ret (set_state self SURVEYOR_CANCELLING, ps) else Abort
  else if src =? NN_SURVEYOR_SRC_DEADLINE_TIMER then
    if type =? NN_TIMER_STOPPED then Ret (set_state self SURVEYOR_PASSIVE, ps) else Abort
  else Abort.

Definition nn_surveyor_handler (o : sobj) (src type srcptr : Z) : outcome sobj :=
  match state (fst o) with
  | SURVEYOR_IDLE => handle_idle o src type
  | SURVEYOR_PASSIVE => handle_passive o src type
  | SURVEYOR_ACTIVE => handle_active o src type
  | SURVEYOR_CANCELLING => handle_cancelling o src type
  | SURVEYOR_STOPPING_TIMER => handle_stopping_timer o src type
  | SURVEYOR_STOPPING => Abort
  end.

(** The second half: wait for the timer, then report the end. *)
Definition nn_surveyor_stopping (o : sobj) : outcome sobj :=
  let '(self, ps) := o in
  if negb (nn_timer_isidle (timer self)) then Ret o else
  let self := set_state self SURVEYOR_IDLE in
  f ← nn_fsm_stopped_noevent (sfsm self);
  Ret (Surveyor (xsurveyor self) f (state self) (surveyid self) (timer self) (tosend self)
         (deadline self) (timedout self) true, ps).

Definition nn_surveyor_shutdown (o : sobj) (src type srcptr : Z) : outcome sobj :=
  let '(self, ps) := o in
  if (src =? NN_FSM_ACTION) && (type =? NN_FSM_STOP) then
    t ← nn_timer_stop (timer self);
    nn_surveyor_stopping (set_state (set_timer self t) SURVEYOR_STOPPING, ps)
  else if decide (state self = SURVEYOR_STOPPING) then nn_surveyor_stopping o
  else Abort.

#[local] Instance surveyor_object : FsmObject sobj := {|
  fsm o := sfsm (fst o);
  with_fsm o f := (set_sfsm (fst o) f, snd o);
  fn := nn_surveyor_handler;
  shutdown_fn := nn_surveyor_shutdown
|}.

(** ** Calls of the socket *)

(** [random] is what [nn_random_generate] stores. *)
Definition nn_surveyor_init (random : Z) : outcome (nn_surveyor S) :=
  let self := Surveyor nn_xsurveyor_init nn_fsm_init SURVEYOR_IDLE random nn_timer_init (Msg [] [])
    NN_SURVEYOR_DEFAULT_DEADLINE 0 false in
  fst <$> nn_fsm_start ((self, ∅) : sobj).

Definition nn_surveyor_term (self : nn_surveyor S) : outcome unit :=
  _ ← nn_timer_term (timer self);
  _ ← nn_fsm_term (sfsm self);
  nn_xsurveyor_term (xsurveyor self).

Definition nn_surveyor_stop (o : sobj) : outcome sobj := nn_fsm_stop o.

Definition nn_surveyor_inprogress (self : nn_surveyor S) : bool :=
  match state self with
  | SURVEYOR_IDLE | SURVEYOR_PASSIVE | SURVEYOR_STOPPING => false
  | _ => true
  end.

Definition nn_surveyor_events (self : nn_surveyor S) : Z :=
  let rc := nn_xsurveyor_events (xsurveyor self) in
  if negb (nn_surveyor_inprogress self) then Z.lor rc NN_SOCKBASE_EVENT_IN else rc.

Definition nn_surveyor_send (o : sobj) (msg : nn_msg) : outcome (sobj * Z) :=
  let '(self, ps) := o in
  let id := Z.lor (u32 (surveyid self + 1)) 0x80000000 in
  _ ← check (size (sphdr msg) =? 0);
  hdr ← nn_putl [0; 0; 0; 0] id;
  let self := Surveyor (xsurveyor self) (sfsm self) (state self) id (timer self)
    (Msg hdr (body msg)) (deadline self) (timedout self) (stopped self) in
  if nn_surveyor_inprogress self then
    if Z.land (nn_xsurveyor_events (xsurveyor self)) NN_SOCKBASE_EVENT_OUT =? 0
    then Ret ((self, ps), - EAGAIN) else
    o ← nn_fsm_action ((self, ps) : sobj) NN_SURVEYOR_ACTION_CANCEL; Ret (o, 0)
  else
    o ← nn_fsm_action ((self, ps) : sobj) NN_SURVEYOR_ACTION_START; Ret (o, 0).

(** The loop of [nn_surveyor_recv].  A response that is not for the current
    survey is forgotten without being terminated; [lost] collects these. *)
Fixpoint next_response (fuel : nat) (x : nn_xsurveyor S) (id : Z) (ps : pipemap) (ib : inbox)
    (lost : list nn_msg) : outcome (nn_xsurveyor S * pipemap * inbox * Z * received * list nn_msg) :=
  match fuel with
  | O => NoFuel
  | Datatypes.S fuel =>
      '(x, ps, ib, rc, got) ← nn_xsurveyor_recv x ps ib;
      if rc =? - EAGAIN then Ret (x, ps, ib, - EAGAIN, got, lost) else
      _ ← check (rc =? 0);
      match got with
      | Received m =>
          if negb (size (sphdr m) =? 4) then next_response fuel x id ps ib (lost ++ [m]) else
          surveyid ← nn_getl (sphdr m);
          if negb (surveyid =? id) then next_response fuel x id ps ib (lost ++ [m])
          else Ret (x, ps, ib, 0, Received (Msg [] (body m)), lost)
      | _ => Undef
      end
  end.

Definition nn_surveyor_recv (self : nn_surveyor S) (ps : pipemap) (ib : inbox)
    : outcome (nn_surveyor S * pipemap * inbox * Z * received * list nn_msg) :=
  if negb (nn_surveyor_inprogress self) then
    if timedout self =? NN_SURVEYOR_TIMEDOUT
    then Ret (set_timedout self 0, ps, ib, - ETIMEDOUT, Untouched, [])
    else Ret (self, ps, ib, - EFSM, Untouched, [])
  else
    '(x, ps, ib, rc, got, lost) ←
       next_response (Datatypes.S (pending ib)) (xsurveyor self) (surveyid self) ps ib [];
    Ret (set_raw self x, ps, ib, rc, got, lost).

Definition nn_surveyor_setopt (self : nn_surveyor S) (level opt : Z) (optval : list Z)
    : nn_surveyor S * Z :=
  if negb (level =? NN_SURVEYOR) then (self, - ENOPROTOOPT) else
  if opt =? NN_SURVEYOR_DEADLINE then
    if negb (size optval =? 4) then (self, - EINVAL) else
    (Surveyor (xsurveyor self) (sfsm self) (state self) (surveyid self) (timer self) (tosend self)
       (bytes_int optval) (timedout self) (stopped self), 0)
  else (self, - ENOPROTOOPT).

(** The value is written to the caller's buffer of [len] bytes. *)
Definition nn_surveyor_getopt (self : nn_surveyor S) (level opt len : Z) : Z * list Z :=
  if negb (level =? NN_SURVEYOR) then (- ENOPROTOOPT, []) else
  if opt =? NN_SURVEYOR_DEADLINE then
    if len <? 4 then (- EINVAL, []) else (0, int_bytes (deadline self))
  else (- ENOPROTOOPT, []).
End handlers.
End surveyor.

(** ** The socket with its pipes, its timer and the application *)

Section system.
  Context {S : Type} `{SchedulerLaws S}.

Abbreviation sobj := (nn_surveyor S * pipemap)%type.

Record ssys : Type := Ssys {
  sv : nn_surveyor S; st : statistics; ps : pipemap; events : list (loc * pipe_event);
  ib : inbox; firing : bool
}.

(** The raw socket and its pipes. *)
Definition raw (s : ssys) : bsys (T := nn_xsurveyor S) :=
  Bsys (xsurveyor (sv s)) (st s) (ps s) (events s) (ib s).

Definition with_raw (s : ssys) (b : bsys (T := nn_xsurveyor S)) : ssys :=
  Ssys (set_raw (sv s) (proto b)) (bstats b) (SockBase.ps b) (SockBase.events b) (SockBase.ib b) (firing s).

Inductive slabel : Type :=
| SRaw (l : blabel)                               (* the pipes *)
| SSend (ans : loc -> answer unit) (m : nn_msg)   (* nn_send *)
| SRecv                                           (* nn_recv *)
| SSetopt (v : Z)                                 (* nn_setsockopt *)
| SWorker (l : label)                             (* the worker thread *)
| STimer (ans : loc -> answer unit)               (* the event the timer raised *)
| SClose (ans : loc -> answer unit).              (* the socket stops its protocol *)

Definition sstep (s : ssys) (l : slabel) : outcome ssys :=
  let 'Ssys self st ps evs ib fi := s in
  match l with
  | SRaw l => b ← bstep (raw s) l; Ret (with_raw s b)
  | SSend ans m => '((self, ps), _) ← nn_surveyor_send ans (self, ps) m; Ret (Ssys self st ps evs ib fi)
  | SRecv => '(self, ps, ib, _, _, _) ← nn_surveyor_recv self ps ib; Ret (Ssys self st ps evs ib fi)
  | SSetopt v =>
      Ret (Ssys (fst (nn_surveyor_setopt self NN_SURVEYOR NN_SURVEYOR_DEADLINE (int_bytes v))) st ps evs ib fi)
  | SWorker l =>
      ts ← step (Sys (timer self) fi) l;
      Ret (Ssys (set_timer self (Timer.timer ts)) st ps evs ib (Timer.firing ts))
  | STimer ans =>
      match raised (tfsm (timer self)) with
      | [] => Undef
      | (_, type) :: rest =>
          let t := set_tfsm (timer self) (Fsm (fsm_st (tfsm (timer self))) rest) in
          '(self, ps) ← @nn_fsm_feed sobj (surveyor_object ans) (set_timer self t, ps)
             NN_SURVEYOR_SRC_DEADLINE_TIMER type 0;
          Ret (Ssys self st ps evs ib fi)
      end
  | SClose ans => '(self, ps) ← nn_surveyor_stop ans (self, ps); Ret (Ssys self st ps evs ib fi)
  end.

Definition is_worker (l : label) : Prop := l = LTask \/ l = LExpire \/ l = LFeed.

(** The event of the timer is delivered before the context is left; a socket
    that stops its protocol has no pipes and no callers any more. *)
Definition open (s : ssys) : Prop :=
  raised (tfsm (timer (sv s))) = [] /\
  state (sv s) <> SURVEYOR_IDLE /\ state (sv s) <> SURVEYOR_STOPPING.

Definition is_pipe_step (l : blabel) : Prop :=
  match l with BSend _ _ | BRecv _ => False | _ => True end.

Definition senabled (s : ssys) (l : slabel) : Prop :=
  match l with
  | SRaw l => open s /\ is_pipe_step l /\ benabled (raw s) l
  | SSend ans m => open s /\ sphdr m = [] /\ forall p, good_answer (ans p)
  | SRecv => open s
  | SSetopt v => open s /\ 0 <= v < 2 ^ 31
  | SWorker l => is_worker l /\ enabled (Sys (timer (sv s)) (firing s)) l = true
  | STimer ans => raised (tfsm (timer (sv s))) <> [] /\ forall p, good_answer (ans p)
  | SClose _ => open s /\ ps s = ∅
  end.

Inductive sreach : ssys -> Prop :=
| sreach_init random self : nn_surveyor_init (fun _ => Answer 0 true tt) random = Ret self ->
    sreach (Ssys self init_stats ∅ [] ∅ false)
| sreach_step s l s' : sreach s -> senabled s l -> sstep s l = Ret s' -> sreach s'.

(** ** The invariant *)

Definition running (self : nn_surveyor S) : Prop :=
  sfsm self = Fsm FSM_ACTIVE [] /\ stopped self = false.

Definition timer_stops (t : nn_timer) : Prop :=
  looks t FSM_STOPPING [] \/ looks t FSM_IDLE [(0, NN_TIMER_STOPPED)].

(** In which states the timer runs. *)
Definition life (self : nn_surveyor S) : Prop :=
  let t := timer self in
  match state self with
  | SURVEYOR_PASSIVE => running self /\ looks t FSM_IDLE []
  | SURVEYOR_ACTIVE =>
      running self /\ (looks t FSM_ACTIVE [] \/ looks t FSM_ACTIVE [(EV_DONE, NN_TIMER_TIMEOUT)])
  | SURVEYOR_CANCELLING | SURVEYOR_STOPPING_TIMER => running self /\ timer_stops t
  | SURVEYOR_STOPPING => sfsm self = Fsm FSM_STOPPING [] /\ timer_stops t /\ stopped self = false
  | SURVEYOR_IDLE => sfsm self = Fsm FSM_IDLE [] /\ looks t FSM_IDLE [] /\ stopped self = true
  end.

(** The parts around the state machine. *)
Definition parts (s : ssys) : Prop :=
  binv (raw s) /\ inv (Sys (timer (sv s)) (firing s)) /\ 0 <= deadline (sv s).

Definition sinv (s : ssys) : Prop := parts s /\ life (sv s).

Lemma sv_running_of_life (self : nn_surveyor S) :
  life self -> state self <> SURVEYOR_IDLE -> state self <> SURVEYOR_STOPPING -> running self.
Proof. unfold life. destruct (state self); naive_solver. Qed.

Lemma sv_running_feed ans (self : nn_surveyor S) (ps : pipemap) src type ptr :
  running self ->
  @nn_fsm_feed sobj (surveyor_object ans) (self, ps) src type ptr =
  nn_surveyor_handler ans (self, ps) src type ptr.
Proof. intros [Hf _]. unfold nn_fsm_feed. cbn. by rewrite Hf, decide_True. Qed.

Lemma sv_running_action ans (self : nn_surveyor S) (ps : pipemap) type :
  running self -> (type >? 0) = true ->
  @nn_fsm_action sobj (surveyor_object ans) (self, ps) type =
  nn_surveyor_handler ans (self, ps) NN_FSM_ACTION type 0.
Proof. intros Hf Ht. unfold nn_fsm_action. rewrite Ht. cbn [check mbind outcome_bind]. by apply sv_running_feed. Qed.

(** The survey is passed to the raw socket. *)
Lemma resend_ok ans self st ps evs ib fi :
  parts (Ssys self st ps evs ib fi) -> (forall p, good_answer (ans p)) ->
  exists x ps', nn_surveyor_resend ans (self, ps) = Ret (set_raw self x, ps') /\
    parts (Ssys (set_raw self x) st ps' evs ib fi).
Proof.
  intros (Hb & Ht & Hd) Hans. unfold nn_surveyor_resend. cbn [raw sv] in Hb.
  destruct (binv_send (raw (Ssys self st ps evs ib fi)) ans (tosend self) Hb) as (b & Hs & Hb'); [by split_and!|].
  destruct Hb as (oa & ia & Hi & _ & _ & _ & Hps & _). destruct (sb_inv_sub _ _ _ _ Hi) as [Hoa _].
  destruct (xsurveyor_send_ok (xsurveyor self) (dom ps) oa ia ps ans (tosend self) Hi)
    as (x & ps' & to & oa' & Hx & _); [by eapply out_writable|done|].
  cbn -[nn_xsurveyor_send] in Hs.
  rewrite Hx in *. cbn [mbind outcome_bind] in Hs. injection Hs as <-.
  exists x, ps'. split; [done|]. by split_and!.
Qed.

Lemma start_survey_ok ans self st ps evs ib fi :
  parts (Ssys self st ps evs ib fi) -> running self -> looks (timer self) FSM_IDLE [] ->
  (forall p, good_answer (ans p)) ->
  exists self' ps', start_survey ans (self, ps) = Ret (self', ps') /\ sinv (Ssys self' st ps' evs ib fi) /\
    state self' = SURVEYOR_ACTIVE /\ surveyid self' = surveyid self.
Proof.
  intros Hp Hrun Hl Hans. unfold start_survey.
  destruct (resend_ok ans self st ps evs ib fi Hp Hans) as (x & ps' & -> & (Hb & Ht & Hd)).
  cbn [mbind outcome_bind timer deadline set_raw] in *. destruct (start_idle (timer self) fi (deadline self) Ht Hl Hd) as (t & -> & Ht' & Hl').
  cbn [mbind outcome_bind]. eexists _, _. split; [reflexivity|]. split; [|done].
  split; [by split_and!|]. split; [done|by left].
Qed.

Lemma sv_stop_timer_ok self st ps evs ib fi stt :
  parts (Ssys self st ps evs ib fi) -> running self -> looks (timer self) FSM_ACTIVE [] ->
  stt = SURVEYOR_CANCELLING \/ stt = SURVEYOR_STOPPING_TIMER ->
  exists self', stop_timer (self, ps) stt = Ret (self', ps) /\ sinv (Ssys self' st ps evs ib fi) /\
    state self' = stt /\ surveyid self' = surveyid self.
Proof.
  intros (Hb & Ht & Hd) Hrun Hl Hst. unfold stop_timer. destruct (stop_active (timer self) fi Ht Hl) as (t' & -> & Ht' & Hl').
  cbn [mbind outcome_bind]. eexists. split; [reflexivity|]. split; [|done].
  split; [by split_and!|]. destruct Hst as [-> | ->]; (split; [done|by left]).
Qed.

(** A new survey, in any state. *)
Lemma send_ok ans self st ps evs ib fi m :
  sinv (Ssys self st ps evs ib fi) -> open (Ssys self st ps evs ib fi) -> sphdr m = [] -> (forall p, good_answer (ans p)) ->
  exists self' ps', nn_surveyor_send ans (self, ps) m = Ret ((self', ps'), 0) /\
    sinv (Ssys self' st ps' evs ib fi) /\ nn_surveyor_inprogress self' = true /\
    surveyid self' = Z.lor (u32 (surveyid self + 1)) 0x80000000.
Proof.
  intros [Hp Hl] (Hr & Hni & Hns) Hm Hans. cbn [sv] in Hr, Hni, Hns, Hl.
  pose proof (sv_running_of_life _ Hl Hni Hns) as Hrun.
  unfold nn_surveyor_send. rewrite Hm. change (size [] =? 0) with true. cbn [check mbind outcome_bind].
  destruct (nn_putl [0; 0; 0; 0] _) as [hdr| | |] eqn:Ehdr; try discriminate Ehdr. cbn [mbind outcome_bind].
  set (self' := Surveyor _ _ _ _ _ _ _ _ _).
  assert (Hp' : parts (Ssys self' st ps evs ib fi)) by exact Hp.
  assert (Hev : (Z.land (nn_xsurveyor_events (xsurveyor self')) NN_SOCKBASE_EVENT_OUT =? 0) = false).
  { unfold nn_xsurveyor_events. by destruct (nn_fq_can_recv _ =? 0). }
  unfold nn_surveyor_inprogress. change (state self') with (state self).
  rewrite Hev. unfold life in Hl. rewrite (sv_running_action ans self') by done.
  rewrite (sv_running_action ans self') by done. unfold nn_surveyor_handler. cbn [fst].
  change (state self') with (state self). destruct (state self) eqn:Est; try done.
  - destruct (start_survey_ok ans self' st ps evs ib fi Hp' Hrun) as (s2 & ps2 & Hs & Hi & Hst & Hid); [apply Hl|done|].
    unfold handle_passive. cbn [NN_FSM_ACTION Z.eqb Pos.eqb NN_SURVEYOR_ACTION_START]. rewrite Hs.
    cbn [mbind outcome_bind]. eexists _, _. split; [reflexivity|]. by rewrite Hst, Hid.
  - destruct Hl as (_ & [Hl|[_ Hl]]); [|congruence].
    destruct (sv_stop_timer_ok self' st ps evs ib fi SURVEYOR_CANCELLING Hp' Hrun Hl) as (s2 & Hs & Hi & Hst & Hid); [auto|].
    unfold handle_active. cbn [NN_FSM_ACTION Z.eqb Pos.eqb NN_SURVEYOR_ACTION_CANCEL]. rewrite Hs.
    cbn [mbind outcome_bind]. eexists _, _. split; [reflexivity|]. by rewrite Hst, Hid.
  - eexists _, _. split; [reflexivity|]. split; [by split|done].
  - eexists _, _. split; [reflexivity|]. split; [by split|done].
Qed.

(** ** Responses *)

(** The response belongs to the survey. *)
Definition current (id : Z) (m : nn_msg) : Prop := size (sphdr m) = 4 /\ nn_getl (sphdr m) = Ret id.

(** The raw socket takes the message [m] from the transport of [p]. *)
Definition takes (ib : inbox) (p : loc) (m : nn_msg) : Prop :=
  exists r msg ms, ib !! p = Some ((r, msg) :: ms) /\ nn_xsurveyor_split r msg = Ret (Some m).

(** Responses taken that do not belong to the survey. *)
Inductive ignores (id : Z) : inbox -> list nn_msg -> inbox -> Prop :=
| ignores_nil ib : ignores id ib [] ib
| ignores_cons ib p m lost ib' : takes ib p m -> ~ current id m ->
    ignores id (take_message ib (Some p)) lost ib' -> ignores id ib (m :: lost) ib'.

Definition response_result (id : Z) (ib ib' : inbox) (rc : Z) (got : received) (lost : list nn_msg) : Prop :=
  (rc = - EAGAIN /\ (forall m, got <> Received m) /\ exists ib0, ignores id ib lost ib0) \/
  exists ib0 p m, rc = 0 /\ ignores id ib lost ib0 /\ takes ib0 p m /\ current id m /\
    got = Received (Msg [] (body m)) /\ ib' = take_message ib0 (Some p).

Lemma response_result_ignore (id : Z) (ib : inbox) p m (ib' : inbox) (rc : Z) got lost :
  takes ib p m -> ~ current id m -> response_result id (take_message ib (Some p)) ib' rc got lost ->
  response_result id ib ib' rc got (m :: lost).
Proof.
  intros Ht Hc [(-> & Hg & ib0 & Hi)|(ib0 & q & m' & -> & Hi & Ht' & Hc' & -> & ->)].
  - left. split_and!; [done|done|]. exists ib0. by eapply ignores_cons.
  - right. exists ib0, q, m'. split_and!; try done. by eapply ignores_cons.
Qed.

Lemma current_word (m : nn_msg) : size (sphdr m) = 4 -> exists w, nn_getl (sphdr m) = Ret w.
Proof.
  unfold size. intros Hs. destruct (sphdr m) as [|a [|b [|c [|d [|]]]]]; cbn in Hs; try lia.
  eexists. unfold nn_getl, nth_c. cbn. reflexivity.
Qed.

Lemma next_response_ok fuel x id st ps evs ib lost :
  (pending ib < fuel)%nat -> binv (T := nn_xsurveyor S) (Bsys x st ps evs ib) ->
  exists x' ps' ib' rc got lost', next_response fuel x id ps ib lost = Ret (x', ps', ib', rc, got, lost ++ lost') /\
    binv (T := nn_xsurveyor S) (Bsys x' st ps' evs ib') /\ response_result id ib ib' rc got lost'.
Proof.
  revert x ps ib lost. induction fuel as [|fuel IH]; [lia|]. intros x ps ib lost Hf Hb.
  cbn [next_response]. destruct (binv_recv _ 0 Hb) as (b & Hs & Hb'); [done|].
  destruct Hb as (oa & ia & Hi & _ & _ & _ & Hps & Hib & _). destruct (sb_inv_sub _ _ _ _ Hi) as [_ Hia].
  destruct (xsurveyor_recv_ok x (dom ps) oa ia ps ib Hi) as (x' & ps' & ib' & rc & got & ia' & Hx & _ & _ & _ & Hcase);
    [by eapply in_readable|done|].
  cbn -[nn_xsurveyor_recv] in Hs. rewrite Hx in Hs. cbn [mbind outcome_bind] in Hs. injection Hs as <-.
  rewrite Hx. cbn [mbind outcome_bind].
  destruct Hcase as [[-> Hgot]|(p & r & msg & ms & m & -> & -> & Hms & Hib' & Hsp & Hpend)].
  - rewrite Z.eqb_refl. eexists _, _, _, _, _, []. rewrite app_nil_r. split; [reflexivity|].
    split; [done|]. left. split_and!; [done|done|]. exists ib. constructor.
  - change (0 =? - EAGAIN) with false. change (0 =? 0) with true. cbn [check mbind outcome_bind].
    assert (Ht : takes ib p m) by by exists r, msg, ms.
    assert (Hnext : ~ current id m -> exists x2 ps2 ib2 rc2 got2 lost2,
      next_response fuel x' id ps' ib' (lost ++ [m]) = Ret (x2, ps2, ib2, rc2, got2, lost ++ lost2) /\
      binv (T := nn_xsurveyor S) (Bsys x2 st ps2 evs ib2) /\ response_result id ib ib2 rc2 got2 lost2).
    { intros Hc. destruct (IH x' ps' ib' (lost ++ [m])) as (x2 & ps2 & ib2 & rc2 & got2 & lost2 & Hn & Hb2 & Hres); [lia|done|].
      rewrite <-app_assoc in Hn. eexists x2, ps2, ib2, rc2, got2, (m :: lost2). split; [exact Hn|].
      split; [done|]. subst ib'. by eapply response_result_ignore. }
    destruct (Z.eqb_spec (size (sphdr m)) 4) as [E4|E4]; cbn [negb].
    2: { apply Hnext. by intros [? _]. }
    destruct (current_word m E4) as (w & Hw). rewrite Hw. cbn [mbind outcome_bind].
    destruct (Z.eqb_spec w id) as [->|Hne]; cbn [negb].
    + eexists _, _, _, _, _, []. rewrite app_nil_r. split; [reflexivity|]. split; [done|]. right.
      exists ib, p, m. split_and!; try done. constructor.
    + apply Hnext. intros [_ Hc]. rewrite Hw in Hc. by injection Hc.
Qed.

Lemma recv_ok self st ps evs ib fi :
  sinv (Ssys self st ps evs ib fi) ->
  exists self' ps' ib' rc got lost, nn_surveyor_recv self ps ib = Ret (self', ps', ib', rc, got, lost) /\
    sinv (Ssys self' st ps' evs ib' fi) /\
    if nn_surveyor_inprogress self then response_result (surveyid self) ib ib' rc got lost
    else ps' = ps /\ ib' = ib /\ got = Untouched /\ lost = [] /\
         rc = (if decide (timedout self = NN_SURVEYOR_TIMEDOUT) then - ETIMEDOUT else - EFSM) /\
         timedout self' <> NN_SURVEYOR_TIMEDOUT.
Proof.
  intros [(Hb & Ht & Hd) Hl]. unfold nn_surveyor_recv. destruct (nn_surveyor_inprogress self) eqn:Ep; cbn [negb].
  - destruct (next_response_ok (Datatypes.S (pending ib)) (xsurveyor self) (surveyid self) st ps evs ib [])
      as (x & ps' & ib' & rc & got & lost & -> & Hb' & Hres); [lia|done|]. cbn [mbind outcome_bind app].
    eexists _, _, _, _, _, _. split; [reflexivity|]. split; [|done]. split; [by split_and!|done].
  - destruct (Z.eqb_spec (timedout self) NN_SURVEYOR_TIMEDOUT) as [E|E].
    + eexists _, _, _, _, _, _. split; [reflexivity|]. split; [by split|]. split_and!; try done. by rewrite decide_True.
    + eexists _, _, _, _, _, _. split; [reflexivity|]. split; [by split|]. split_and!; try done. by rewrite decide_False.
Qed.

(** ** One step of the system *)

Definition stepped (s : ssys) (l : slabel) : Prop := exists s', sstep s l = Ret s' /\ sinv s'.

Lemma step_raw s l : sinv s -> senabled s (SRaw l) -> stepped s (SRaw l).
Proof.
  destruct s as [self st ps evs ib fi]. intros [(Hb & Ht & Hd) Hl] (Ho & Hk & He).
  destruct (binv_step _ l Hb He) as (b & Hs & Hb'). unfold stepped. cbn [sstep]. rewrite Hs.
  cbn [mbind outcome_bind]. eexists. split; [reflexivity|]. split; [|exact Hl]. split_and!; [|done|done].
  by destruct b.
Qed.

Lemma sv_step_setopt s v : sinv s -> senabled s (SSetopt v) -> stepped s (SSetopt v).
Proof.
  destruct s as [self st ps evs ib fi]. intros [(Hb & Ht & Hd) Hl] (_ & Hv).
  unfold stepped. cbn [sstep]. unfold nn_surveyor_setopt.
  change (NN_SURVEYOR =? NN_SURVEYOR) with true. change (NN_SURVEYOR_DEADLINE =? NN_SURVEYOR_DEADLINE) with true.
  change (size (int_bytes v) =? 4) with true. cbn [negb fst]. rewrite int_round_trip by (unfold int_range; lia).
  eexists. split; [reflexivity|]. split; [|done]. split_and!; [done|done|apply Hv].
Qed.

Lemma step_worker_thread s l : sinv s -> senabled s (SWorker l) -> stepped s (SWorker l).
Proof.
  destruct s as [self st ps evs ib fi]. intros [(Hb & Ht & Hd) Hl] (Hw & Hen). cbn [sv firing] in *.
  assert (Hr : raised (tfsm (timer self)) = []).
  { unfold enabled in Hen. cbn [Timer.timer] in Hen. destruct (raised _); [done|].
    destruct Hw as [-> | [-> | ->]]; done. }
  destruct (worker_step _ _ _ (fsm_st (tfsm (timer self))) Ht (conj eq_refl Hr) Hen Hw)
    as (t' & fi' & Hs & Ht' & Hlook).
  unfold stepped. cbn [sstep]. rewrite Hs. cbn [mbind outcome_bind Timer.timer Timer.firing].
  eexists. split; [reflexivity|]. split; [by split_and!|].
  unfold life, timer_stops, running, looks in *. cbn [sv state set_timer timer sfsm stopped].
  destruct (state self); destruct (fsm_st (tfsm (timer self))) eqn:Ef; try done; naive_solver.
Qed.

(** A socket that stops waits for the timer, or is done. *)
Lemma sv_stopping_ok (self : nn_surveyor S) st ps evs ib fi :
  parts (Ssys self st ps evs ib fi) -> state self = SURVEYOR_STOPPING -> sfsm self = Fsm FSM_STOPPING [] ->
  stopped self = false -> looks (timer self) FSM_STOPPING [] \/ looks (timer self) FSM_IDLE [] ->
  exists self', nn_surveyor_stopping (self, ps) = Ret (self', ps) /\ sinv (Ssys self' st ps evs ib fi) /\
    xsurveyor self' = xsurveyor self /\ (looks (timer self) FSM_IDLE [] -> stopped self' = true).
Proof.
  intros Hp Hst Hf Hs Hl. unfold nn_surveyor_stopping, nn_timer_isidle, nn_fsm_isidle, nn_fsm_event_active.
  destruct Hl as [[Hls Hlr]|[Hls Hlr]]; rewrite Hls, Hlr; cbn [existsb negb andb].
  - exists self. split; [done|]. split; [|split; [done|]].
    + split; [done|]. unfold life. cbn [sv]. rewrite Hst. split_and!; try done. by left.
    + intros [Hl' _]. congruence.
  - unfold nn_fsm_stopped_noevent. cbn [sfsm set_state]. rewrite Hf. cbn.
    eexists. split; [reflexivity|]. split; [|done]. split; [exact Hp|]. by cbn.
Qed.

(** The event a timer raised reaches a socket that stops: it has stopped. *)
Lemma sv_timer_ends ans (self : nn_surveyor S) st ps evs ib fi :
  sinv (Ssys self st ps evs ib fi) -> state self = SURVEYOR_STOPPING -> raised (tfsm (timer self)) <> [] ->
  exists s2, sstep (Ssys self st ps evs ib fi) (STimer ans) = Ret (Ssys s2 st ps evs ib fi) /\
    sinv (Ssys s2 st ps evs ib fi) /\ stopped s2 = true /\ xsurveyor s2 = xsurveyor self.
Proof.
  intros [(Hb & Ht & Hd) Hl] Est Hne. cbn [sv] in Hl.
  destruct (raised (tfsm (timer self))) as [|[e ty] rest] eqn:Er; [done|].
  destruct (deliver_event _ _ _ (e, ty) rest Ht (conj eq_refl Er)) as (-> & Ht' & _).
  unfold life in Hl. rewrite Est in Hl. destruct Hl as (Hfsm & [[_ Hto]|[Hf Hto]] & Hsp); [congruence|].
  cbn [sstep]. rewrite Er. cbn [sv] in Ht'. set (t' := set_tfsm (timer self) _) in *.
  set (self' := set_timer self t').
  assert (Hlook : looks t' FSM_IDLE []) by done.
  destruct (sv_stopping_ok self' st ps evs ib fi) as (s2 & Hs & Hi & Hx & Hstop); [by split_and!|done..|by right|].
  exists s2. split; [|auto]. unfold nn_fsm_feed. cbn [fsm surveyor_object fst]. change (sfsm self') with (sfsm self).
  rewrite Hfsm, decide_False by (cbn; tauto). cbn [shutdown_fn surveyor_object]. unfold nn_surveyor_shutdown.
  change ((NN_SURVEYOR_SRC_DEADLINE_TIMER =? NN_FSM_ACTION) && (ty =? NN_FSM_STOP)) with false. cbv beta iota.
  change (state self') with (state self). rewrite decide_True by done. by rewrite Hs.
Qed.

Lemma sv_step_timer s ans : sinv s -> senabled s (STimer ans) -> stepped s (STimer ans).
Proof.
  destruct s as [self st ps evs ib fi]. intros Hsi (Hne & Hans). cbn [sv] in Hne.
  destruct (decide (state self = SURVEYOR_STOPPING)) as [Est|Hns].
  { destruct (sv_timer_ends ans self st ps evs ib fi Hsi Est Hne) as (s2 & Hs & Hi & _). by eexists. }
  destruct Hsi as [(Hb & Ht & Hd) Hl]. cbn [sv] in Hl.
  destruct (raised (tfsm (timer self))) as [|[e ty] rest] eqn:Er; [done|].
  destruct (deliver_event _ _ _ (e, ty) rest Ht (conj eq_refl Er)) as (-> & Ht' & _).
  unfold stepped. cbn [sstep]. rewrite Er. cbn [sv] in Ht'. set (t' := set_tfsm (timer self) _) in *.
  set (self' := set_timer self t').
  assert (Hp : parts (Ssys self' st ps evs ib fi)) by by split_and!.
  assert (Hlook : looks t' (fsm_st (tfsm (timer self))) []) by done.
  unfold life in Hl. destruct (state self) eqn:Est; [| | | | |done].
  1,2: exfalso; destruct Hl as (_ & [_ Hl] & _) || destruct Hl as (_ & [_ Hl]); congruence.
  all: destruct Hl as (Hrun & Hto); rewrite (sv_running_feed ans self') by done;
    unfold nn_surveyor_handler; cbn [fst]; change (state self') with (state self); rewrite Est.
  - destruct Hto as [[_ Hto]|[Hf Hto]]; [congruence|]. rewrite Er in Hto. injection Hto as -> ->. rewrite Hf in Hlook.
    destruct (sv_stop_timer_ok self' st ps evs ib fi SURVEYOR_STOPPING_TIMER Hp Hrun Hlook) as (s2 & Hs & [Hp2 Hl2] & _); [auto|].
    unfold handle_active. cbn [NN_SURVEYOR_SRC_DEADLINE_TIMER NN_FSM_ACTION Z.eqb Pos.eqb NN_TIMER_TIMEOUT].
    rewrite Hs. cbn [mbind outcome_bind]. eexists. split; [reflexivity|]. by split.
  - destruct Hto as [[_ Hto]|[Hf Hto]]; [congruence|]. rewrite Er in Hto. injection Hto as -> ->. rewrite Hf in Hlook.
    destruct (start_survey_ok ans self' st ps evs ib fi Hp Hrun Hlook Hans) as (s2 & ps2 & Hs & Hi & _).
    unfold handle_cancelling. cbn [NN_SURVEYOR_SRC_DEADLINE_TIMER NN_FSM_ACTION Z.eqb Pos.eqb NN_TIMER_STOPPED].
    rewrite Hs. cbn [mbind outcome_bind]. eexists. by split.
  - destruct Hto as [[_ Hto]|[Hf Hto]]; [congruence|]. rewrite Er in Hto. injection Hto as -> ->. rewrite Hf in Hlook.
    eexists. split; [reflexivity|]. by split.
Qed.

Lemma stop_step ans self st evs ib fi :
  sinv (Ssys self st ∅ evs ib fi) -> open (Ssys self st ∅ evs ib fi) ->
  exists s1, sstep (Ssys self st ∅ evs ib fi) (SClose ans) = Ret (Ssys s1 st ∅ evs ib fi) /\
    sinv (Ssys s1 st ∅ evs ib fi) /\ xsurveyor s1 = xsurveyor self /\
    (stopped s1 = true \/ (state s1 = SURVEYOR_STOPPING /\ looks (timer s1) FSM_STOPPING [])).
Proof.
  intros [(Hb & Ht & Hd) Hl] (Hr & Hni & Hns). cbn [sv] in *.
  destruct (sv_running_of_life _ Hl Hni Hns) as [Hf Hsp].
  cbn [sstep]. unfold nn_surveyor_stop, nn_fsm_stop. cbn [fsm surveyor_object fst]. rewrite Hf.
  rewrite decide_False by (cbn; naive_solver). unfold set_fsm_state. cbn [fsm surveyor_object fst snd with_fsm].
  rewrite Hf. cbn [shutdown_fn surveyor_object raised]. unfold nn_surveyor_shutdown.
  change ((NN_FSM_ACTION =? NN_FSM_ACTION) && (NN_FSM_STOP =? NN_FSM_STOP)) with true. cbv beta iota.
  change (timer (set_sfsm self _)) with (timer self).
  assert (Hfin : exists t', nn_timer_stop (timer self) = Ret t' /\ inv (Sys t' fi) /\
    (looks t' FSM_STOPPING [] \/ looks t' FSM_IDLE [])).
  { destruct (fsm_st (tfsm (timer self))) eqn:Eft.
    - exists (timer self). rewrite (stop_inactive (timer self) [] FSM_IDLE); [|by split|done].
      split; [done|]. split; [done|]. right. by split.
    - destruct (stop_active (timer self) fi Ht) as (t' & Hs & Ht' & Hl'); [by split|]. eauto.
    - exists (timer self). rewrite (stop_inactive (timer self) [] FSM_STOPPING); [|by split|done].
      split; [done|]. split; [done|]. left. by split. }
  destruct Hfin as (t' & -> & Ht' & Hl'). cbn [mbind outcome_bind].
  set (self' := set_state _ _).
  destruct (sv_stopping_ok self' st ∅ evs ib fi) as (s2 & Hs & Hi & Hx & Hend); [by split_and!|done..|].
  change ((∅ : pipemap)) with (∅ : pipemap) in Hs. rewrite Hs. cbn [mbind outcome_bind].
  eexists. split; [reflexivity|]. split; [done|]. split; [done|].
  destruct Hl' as [Hls|Hli]; [right|left; by apply Hend].
  revert Hs. unfold nn_surveyor_stopping, nn_timer_isidle, nn_fsm_isidle. cbn [timer self' set_state set_timer].
  destruct Hls as [Hls Hlr]. rewrite Hls. cbn [negb andb]. intros [= <-]. by split.
Qed.

Lemma sv_sinv_step s l : sinv s -> senabled s l -> stepped s l.
Proof.
  destruct l as [l|ans m| |v|l|ans|ans]; intros Hi He.
  - by apply step_raw.
  - destruct s as [self st ps evs ib fi]. destruct He as (Ho & Hm & Hans).
    destruct (send_ok ans self st ps evs ib fi m Hi Ho Hm Hans) as (s' & ps' & Hs & Hi' & _).
    unfold stepped. cbn [sstep]. rewrite Hs. cbn [mbind outcome_bind]. eauto.
  - destruct s as [self st ps evs ib fi].
    destruct (recv_ok self st ps evs ib fi Hi) as (s' & ps' & ib' & rc & got & lost & Hs & Hi' & _).
    unfold stepped. cbn [sstep]. rewrite Hs. cbn [mbind outcome_bind]. eauto.
  - by apply sv_step_setopt.
  - by apply step_worker_thread.
  - by apply sv_step_timer.
  - destruct s as [self st ps evs ib fi]. destruct He as [Ho He].
    assert (ps = ∅) as -> by exact He.
    destruct (stop_step ans self st evs ib fi Hi Ho) as (s1 & Hs & Hi' & _). unfold stepped. eauto.
Qed.

Lemma sinv_init random self :
  nn_surveyor_init (fun _ => Answer 0 true tt) random = Ret self -> sinv (Ssys self init_stats ∅ [] ∅ false).
Proof.
  intros Hi. cbn in Hi. injection Hi as <-. split; [|by cbn].
  split_and!; [exact (binv_init (T := nn_xsurveyor S) 0)|apply inv_init|done].
Qed.

Lemma sreach_inv s : sreach s -> sinv s.
Proof.
  induction 1 as [random self Hi|s l s' _ IH He Hs]; [by eapply sinv_init|].
  destruct (sv_sinv_step s l IH He) as (s2 & Hs2 & Hi). congruence.
Qed.

(** ** Runs *)

Inductive spath : ssys -> list slabel -> ssys -> Prop :=
| spath_nil s : spath s [] s
| spath_cons s l s1 ls s2 : senabled s l -> sstep s l = Ret s1 -> spath s1 ls s2 -> spath s (l :: ls) s2.

Lemma spath_app s ls s1 ls' s2 : spath s ls s1 -> spath s1 ls' s2 -> spath s (ls ++ ls') s2.
Proof. induction 1; [done|]. intros. eapply spath_cons; eauto. Qed.

Lemma spath_inv s ls s' : spath s ls s' -> sinv s -> sinv s'.
Proof.
  induction 1 as [s|s l s1 ls s2 He Hs _ IH]; intros Hi; [done|].
  destruct (sv_sinv_step s l Hi He) as (s1' & Hs' & Hi'). rewrite Hs in Hs'. injection Hs' as <-. by apply IH.
Qed.

Lemma sv_worker_path (self : nn_surveyor S) st ps evs ib fi ls ts :
  Forall is_worker ls -> steps (Sys (timer self) fi) ls = Ret ts ->
  spath (Ssys self st ps evs ib fi) (SWorker <$> ls)
    (Ssys (set_timer self (Timer.timer ts)) st ps evs ib (Timer.firing ts)).
Proof.
  intros Hw. revert self fi. induction Hw as [|l ls Hl _ IH]; intros self fi Hs; cbn [steps] in Hs.
  - injection Hs as <-. replace (set_timer self _) with self by by destruct self. constructor.
  - destruct (enabled _ l) eqn:He; [|done]. apply bind_Ret in Hs as ([t' fi'] & Hst & Hs).
    cbn [fmap list_fmap]. eapply spath_cons; [by split| |].
    + cbn [sstep]. rewrite Hst. reflexivity.
    + apply (IH (set_timer self t') fi' Hs).
Qed.

(** A socket that has stopped is destroyed without a failed assertion. *)
Lemma sv_stopped_term (self : nn_surveyor S) st evs ib fi :
  sinv (Ssys self st ∅ evs ib fi) -> stopped self = true -> nn_surveyor_term self = Ret tt.
Proof.
  intros [(Hb & Ht & _) Hl] Hs. cbn [sv firing] in *.
  assert (Hend : sfsm self = Fsm FSM_IDLE [] /\ looks (timer self) FSM_IDLE []).
  { unfold life, running in Hl. destruct (state self); try (destruct Hl as ((_ & ?) & _); congruence).
    - by destruct Hl as (? & ? & _).
    - destruct Hl as (_ & _ & ?). congruence. }
  destruct Hend as [Hf [Htf Hte]]. unfold nn_surveyor_term.
  assert (Htm : nn_timer_term (timer self) = Ret tt).
  { destruct (timer self) as [[fs ev] ts to tk ar]. cbn in Htf, Hte. subst.
    destruct ts; cbn in Ht; try done. by destruct Ht as (-> & -> & _). }
  rewrite Htm. cbn [mbind outcome_bind]. rewrite Hf.
  change (nn_fsm_term (Fsm FSM_IDLE [])) with (Ret tt). cbn [mbind outcome_bind].
  destruct Hb as (oa & ia & Hi & _).
  change (sb_inv (xsurveyor self) (dom (∅ : pipemap)) oa ia) in Hi. rewrite dom_empty_L in Hi. destruct (sb_inv_sub _ _ _ _ Hi) as [Ho Hin].
  change (sb_term (xsurveyor self) = Ret tt). apply sb_term_ok. replace oa with (∅ : gset loc) in Hi by set_solver.
  by replace ia with (∅ : gset loc) in Hi by set_solver.
Qed.

Definition is_wait (l : slabel) : Prop := match l with SWorker _ | STimer _ => True | _ => False end.

Lemma sv_close_path ans (self : nn_surveyor S) st evs ib fi :
  sinv (Ssys self st ∅ evs ib fi) -> open (Ssys self st ∅ evs ib fi) -> (forall p, good_answer (ans p)) ->
  exists ls s2, spath (Ssys self st ∅ evs ib fi) (SClose ans :: ls) s2 /\ sinv s2 /\ ps s2 = ∅ /\
    stopped (sv s2) = true /\ Forall is_wait ls.
Proof.
  intros Hi Ho Hans. destruct (stop_step ans self st evs ib fi Hi Ho) as (s1 & Hs & Hi1 & _ & [Hst|[Est Hlook]]).
  - exists [], (Ssys s1 st ∅ evs ib fi). split; [|done]. eapply spath_cons; [by split|exact Hs|constructor].
  - pose proof Hi1 as [(_ & Ht & _) _]. cbn [sv firing] in Ht.
    destruct (stop_drains _ Ht (proj1 Hlook)) as (ts & Hd & Hl' & _).
    pose proof (sv_worker_path s1 st ∅ evs ib fi _ ts (drain_worker _) Hd) as Hp.
    pose proof (spath_inv _ _ _ Hp Hi1) as Hi2.
    destruct (sv_timer_ends ans _ st ∅ evs ib _ Hi2 Est) as (s2 & Hs2 & Hi3 & Hst & _).
    { cbn [timer set_timer]. destruct Hl' as [_ ->]. done. }
    eexists _, _. split; [|split; [exact Hi3|split; [done|split; [done|]]]].
    + eapply spath_cons; [by split|exact Hs|]. eapply spath_app; [exact Hp|].
      eapply spath_cons; [|exact Hs2|constructor]. split; [|done]. cbn [sv timer set_timer].
      destruct Hl' as [_ ->]. done.
    + apply Forall_app. split; [|by repeat constructor]. apply Forall_fmap, Forall_true. done.
Qed.
End system.

(** Whatever the order of connections, responses, deadlines, calls of the
    application and the stop, no state of a SURVEYOR socket gets an event it
    does not expect and no assertion fails in surveyor.c or below it, the
    survey always goes out when its state machine sends it, and the connection
    statistic is the number of pipes.  (The deadline set is not negative, see
    [surveyor_negative_deadline].) *)
Theorem surveyor_never_fails {S} `{SchedulerLaws S} (s : ssys (S := S)) (l : slabel) :
  sreach s -> senabled s l ->
  exists s', sstep s l = Ret s' /\ sreach s' /\
    current_connections (st s') = Z.of_nat (base.size (ps s')).
Proof.
  intros Hr He. destruct (sv_sinv_step s l (sreach_inv s Hr) He) as (s' & Hs & Hi). exists s'.
  split; [done|]. split; [by eapply sreach_step|]. destruct s' as [self st ps evs ib fi].
  destruct Hi as [(Hb & _) _]. by destruct Hb as (oa & ia & _ & _ & _ & _ & _ & _ & Hc & _).
Qed.

(** C18.  The functional behaviour of a receive: without a survey in progress it
    returns -ETIMEDOUT once after a deadline and -EFSM otherwise, and takes
    nothing; during a survey it returns the first response whose header is the
    identifier of the current survey, without the header, having passed over
    responses to other surveys only, or -EAGAIN. *)
Theorem survey_matches_responses {S} `{SchedulerLaws S} (s : ssys (S := S)) :
  sreach s ->
  exists self' ps' ib' rc got lost, nn_surveyor_recv (sv s) (ps s) (ib s) =
      Ret (self', ps', ib', rc, got, lost) /\
    if nn_surveyor_inprogress (sv s) then response_result (surveyid (sv s)) (ib s) ib' rc got lost
    else ps' = ps s /\ ib' = ib s /\ got = Untouched /\ lost = [] /\
         rc = (if decide (timedout (sv s) = NN_SURVEYOR_TIMEDOUT) then - ETIMEDOUT else - EFSM) /\
         timedout self' <> NN_SURVEYOR_TIMEDOUT.
Proof.
  intros Hr. apply sreach_inv in Hr. destruct s as [self st ps evs ib fi].
  destruct (recv_ok self st ps evs ib fi Hr) as (self' & ps' & ib' & rc & got & lost & Hs & _ & Hres).
  exists self', ps', ib', rc, got, lost. by split.
Qed.

(** A SURVEYOR socket without connections that stops its protocol, in
    whatever state its timer is, comes to its end: the worker has only to
    finish the tasks of the timer, the socket then reports that it has stopped,
    and it is destroyed without a failed assertion. *)
Theorem surveyor_close_completes {S} `{SchedulerLaws S} (s : ssys (S := S)) ans :
  sreach s -> open s -> ps s = ∅ -> (forall p, good_answer (ans p)) ->
  exists ls s', spath s (SClose ans :: ls) s' /\ Forall is_wait ls /\ stopped (sv s') = true /\
    nn_surveyor_term (sv s') = Ret tt.
Proof.
  intros Hr Ho Hps Hans. destruct s as [self st pm evs ib fi]. assert (pm = ∅) as -> by exact Hps.
  destruct (sv_close_path ans self st evs ib fi (sreach_inv _ Hr) Ho Hans) as (ls & s2 & Hp & Hi & Hps2 & Hst & Hw).
  exists ls, s2. split; [done|]. split; [done|]. split; [done|].
  destruct s2 as [self2 st2 pm2 evs2 ib2 fi2]. assert (pm2 = ∅) as -> by exact Hps2. by eapply sv_stopped_term.
Qed.

(** ** Runs with one respondent *)

Fixpoint run (s : ssys (S := priosched)) (ls : list slabel) : outcome ssys :=
  match ls with [] => Ret s | l :: ls => s ← sstep s l; run s ls end.

Fixpoint enables (s : ssys (S := priosched)) (ls : list slabel) : Prop :=
  match ls with
  | [] => True
  | l :: ls => senabled s l /\ match sstep s l with Ret s => enables s ls | _ => False end
  end.

Lemma sreach_run s ls s' : sreach s -> enables s ls -> run s ls = Ret s' -> sreach s'.
Proof.
  revert s. induction ls as [|l ls IH]; intros s Hr He Hs; [by injection Hs as <-|].
  cbn in He, Hs. destruct He as [Hl He]. destruct (sstep s l) as [s1| | |] eqn:E; [|done..].
  eapply IH; [by eapply sreach_step|done..].
Qed.

Definition always_done : loc -> answer unit := fun _ => Answer 0 true tt.

Definition fresh_surveyor (random : Z) : ssys (S := priosched) :=
  match nn_surveyor_init always_done random with
  | Ret self => Ssys self init_stats ∅ [] ∅ false
  | _ => Ssys (Surveyor nn_xsurveyor_init nn_fsm_init SURVEYOR_IDLE 0 nn_timer_init (Msg [] []) 0 0 false)
           init_stats ∅ [] ∅ false
  end.

Lemma fresh_reachable random : sreach (fresh_surveyor random).
Proof. apply (sreach_init (S := priosched) random). reflexivity. Qed.

(** A respondent connects, the survey goes out, and these responses come. *)
Definition survey_run (ms : list nn_msg) : list slabel :=
  [SRaw (BStart 1%positive (EpOptions 8 8 1)); SRaw BDeliver; SSend always_done (Msg [] [63])] ++
  ((fun m => SRaw (BArrive 1%positive 0 m)) <$> ms) ++ [SRaw BDeliver].

Lemma always_done_good p : good_answer (always_done p).
Proof. by split. Qed.

Ltac solve_enables :=
  vm_compute;
  repeat lazymatch goal with
    | |- _ /\ _ => split
    | |- forall p, _ /\ _ => exact always_done_good
    | |- ex _ => eexists
    | |- True => exact I
    | |- _ = _ => reflexivity
    | |- _ = _ -> False => discriminate
    | |- _ -> _ => intro
    end; try discriminate.

Definition stale : nn_msg := Msg [] [128; 0; 0; 7; 1].
Definition answer_ : nn_msg := Msg [] [128; 0; 0; 8; 2].

Lemma stale_enables : enables (fresh_surveyor 7) (survey_run [stale; answer_]).
Proof. solve_enables. Qed.

Lemma survey_matches_responses_witness :
  exists s self ps' ib', sreach s /\ run (fresh_surveyor 7) (survey_run [stale; answer_]) = Ret s /\
    nn_surveyor_recv (sv s) (ps s) (ib s) =
      Ret (self, ps', ib', 0, Received (Msg [] [2]), [Msg [128; 0; 0; 7] [1]]) /\
    response_result (surveyid (sv s)) (ib s) ib' 0 (Received (Msg [] [2])) [Msg [128; 0; 0; 7] [1]].
Proof.
  destruct (run (fresh_surveyor 7) (survey_run [stale; answer_])) as [s| | |] eqn:Hrun; [|by vm_compute in Hrun..].
  assert (Hs : sreach s) by (eapply sreach_run; [apply fresh_reachable|apply stale_enables|exact Hrun]).
  destruct (survey_matches_responses s Hs) as (self & ps' & ib' & rc & got & lost & Hr & Hres).
  assert (Hval : rc = 0 /\ got = Received (Msg [] [2]) /\ lost = [Msg [128; 0; 0; 7] [1]] /\
    nn_surveyor_inprogress (sv s) = true).
  { vm_compute in Hrun. injection Hrun as <-. vm_compute in Hr. injection Hr as _ _ _ <- <- <-. done. }
  destruct Hval as (-> & -> & -> & Hip). rewrite Hip in Hres. exists s, self, ps', ib'. auto.
Defined.

Lemma surveyor_never_fails_witness :
  exists s', sstep (fresh_surveyor 7) (SSend always_done (Msg [] [63])) = Ret s' /\ sreach s' /\
    current_connections (st s') = Z.of_nat (base.size (ps s')).
Proof.
  apply (surveyor_never_fails (fresh_surveyor 7) (SSend always_done (Msg [] [63]))); [apply fresh_reachable|].
  split; [by split_and!|]. split; [reflexivity|apply always_done_good].
Defined.

(** A survey is in progress when the socket is closed. *)
Lemma surveyor_close_completes_witness :
  exists s ls s', run (fresh_surveyor 7) [SSend always_done (Msg [] [63])] = Ret s /\
    spath s (SClose always_done :: ls) s' /\ stopped (sv s') = true /\ nn_surveyor_term (sv s') = Ret tt.
Proof.
  destruct (run (fresh_surveyor 7) [SSend always_done (Msg [] [63])]) as [s| | |] eqn:Hrun; [|by vm_compute in Hrun..].
  assert (Hs : sreach s).
  { eapply sreach_run; [apply (fresh_reachable 7)| |exact Hrun]. solve_enables. }
  destruct (surveyor_close_completes s always_done Hs) as (ls & s' & Hp & _ & Hst & Ht).
  - vm_compute in Hrun. injection Hrun as <-. by split_and!.
  - vm_compute in Hrun. by injection Hrun as <-.
  - apply always_done_good.
  - exists s, ls, s'. auto.
Defined.

(** ** What the code does not guard *)

(** A response to an earlier survey is never terminated: after a receive
    that passed over one and returned -EAGAIN, the message is neither with the
    transport nor with the caller.  Every late response leaks its memory. *)
Theorem surveyor_leaks :
  exists s self ps' ib', sreach s /\
    nn_surveyor_recv (sv s) (ps s) (ib s) =
      Ret (self, ps', ib', - EAGAIN, Untouched, [Msg [128; 0; 0; 7] [1]]) /\
    ib s !! 1%positive = Some [(0, stale)] /\ ib' !! 1%positive = Some [].
Proof.
  destruct (run (fresh_surveyor 7) (survey_run [stale])) as [s| | |] eqn:Hrun; [|by vm_compute in Hrun..].
  assert (Hs : sreach s).
  { eapply sreach_run; [apply (fresh_reachable 7)| |exact Hrun]. solve_enables. }
  vm_compute in Hrun. injection Hrun as <-. eexists _, _, _, _. split; [exact Hs|]. vm_compute. auto.
Qed.

(** A negative deadline is accepted by nn_setsockopt, and the next survey
    aborts the process. *)
Theorem surveyor_negative_deadline :
  let self := sv (fresh_surveyor 7) in
  exists self', nn_surveyor_setopt self NN_SURVEYOR NN_SURVEYOR_DEADLINE (int_bytes (-1)) = (self', 0) /\
    nn_surveyor_send always_done (self', ∅) (Msg [] [63]) = Abort.
Proof. eexists. split; [reflexivity|]. vm_compute. reflexivity. Qed.
