(* ===== verification/Protocols.v ===== *)
(** * Protocols: the safety of all sockets over SockBase.v

    Every protocol whose laws are proved runs with the scheduler of
    Priolist.v. *)

From stdpp Require Import base gmap list sets.
From Stdlib Require Import ZArith Lia.
From S2P Require Import Prelude ListHeap Priolist Sched Pipe Sock Message Inbox SockBase Excl Pipeline Pubsub Bus Xrep Rep Xsurveyor.

Open Scope Z_scope.

(** C1.  In every state a raw PAIR, PUSH, PULL, PUB, BUS, REP (RESPONDENT) or
    SURVEYOR socket, or a cooked BUS or REP (RESPONDENT) socket, can get into
    with its pipes, its queued events and the messages its transports hold, and
    for every step that may come next (a connection established or closed, a
    send finished, a message arrived, an event processed, a call to send or
    receive, whatever the transports answer), no assertion of the protocol, its
    utilities, the pipes or the statistics fails, no null or dangling pointer is
    followed, and no loop runs on; the connection statistic is the number of
    pipes; and a socket without pipes is destroyed without a failed
    assertion. *)
Theorem sockets_never_fail :
  never_fails nn_xpair /\ never_fails (nn_xpush priosched) /\ never_fails (nn_xpull priosched) /\
  never_fails nn_xpub /\ never_fails (nn_xbus priosched) /\ never_fails (nn_bus priosched) /\
  never_fails (nn_xrep priosched) /\ never_fails (nn_rep priosched) /\
  never_fails (nn_xsurveyor priosched).
Proof. split_and!; apply base_never_fails. Qed.
