(* ===== verification/Base64.v ===== *)
(** * Base64: the codec of the WebSocket handshake (src/transports/utils/base64.c)

    Both functions write into a buffer of the caller's and report [-ENOBUFS]
    when it is too small.  [encoding] is the encoding of RFC 4648; the theorems
    show that [nn_base64_encode] writes it, and a terminating zero, exactly when
    there is room, and that [nn_base64_decode] inverts it.

    [in] holds the bytes of the input; for the decoder the values of its [char]s,
    which are signed.  Lengths are below 2^32, as the indices are [unsigned]. *)

From stdpp Require Import base list.
From Stdlib Require Import ZArith Lia.
From S2P Require Import Prelude Wire Message.

Open Scope Z_scope.

(** "A...Z", "a...z", "0...9", "+/". *)
Definition ENCODEMAP : list Z :=
  (Z.of_nat <$> seq 65 26) ++ (Z.of_nat <$> seq 97 26) ++ (Z.of_nat <$> seq 48 10) ++ [43; 47].

Definition DECODEMAP : list Z :=
  replicate 43 255 ++ [62] ++ replicate 3 255 ++ [63] ++ (Z.of_nat <$> seq 52 10) ++
  replicate 3 255 ++ [62] ++ replicate 3 255 ++ (Z.of_nat <$> seq 0 26) ++ replicate 6 255 ++
  (Z.of_nat <$> seq 26 26) ++ replicate 133 255.

(** What is written so far, and the index behind it; [None] is the early return
    of [-ENOBUFS]. *)
Abbreviation progress := (list Z * option Z)%type.

(** [if (io >= out_len) return -ENOBUFS; out [io++] = c;] *)
Definition put (out : list Z) (io c : Z) : outcome progress :=
  if io >=? size out then Ret (out, None) else
  out ← upd_c out io c;
  Ret (out, Some (u32 (io + 1))).

(** Go on unless the function has returned. *)
Definition and_then (p : outcome progress) (f : list Z -> Z -> outcome progress) : outcome progress :=
  '(out, r) ← p;
  match r with Some io => f out io | None => Ret (out, None) end.

(** [while (rem >= 6)]; returns [rem] behind the loop. *)
Fixpoint encode_while (fuel : nat) (v rem : Z) (out : list Z) (io : Z) : outcome (progress * Z) :=
  match fuel with
  | O => NoFuel
  | S fuel =>
      if rem >=? 6 then
        let rem := rem - 6 in
        c ← nth_c ENCODEMAP (Z.land (Z.shiftr v rem) 63);
        '(out, r) ← put out io c;
        match r with
        | Some io => encode_while fuel v rem out io
        | None => Ret ((out, None), rem)
        end
      else Ret ((out, Some io), rem)
  end.

(** The loop over the input and the bits that are left. *)
Fixpoint encode_loop (i : list Z) (v rem : Z) (out : list Z) (io : Z) : outcome progress :=
  match i with
  | ch :: i =>
      let v := Z.lor (u32 (Z.shiftl v 8)) ch in
      '(p, rem) ← encode_while 3 v (rem + 8) out io;
      and_then (Ret p) (encode_loop i v rem)
  | [] =>
      if rem =? 0 then Ret (out, Some io) else
      let v := u32 (Z.shiftl v (6 - rem)) in
      c ← nth_c ENCODEMAP (Z.land v 63);
      put out io c
  end.

(** [while (io & 3)] *)
Fixpoint encode_pad (fuel : nat) (out : list Z) (io : Z) : outcome progress :=
  match fuel with
  | O => NoFuel
  | S fuel =>
      if Z.land io 3 =? 0 then Ret (out, Some io)
      else and_then (put out io 61) (encode_pad fuel)
  end.

Definition nn_base64_encode (i out : list Z) : outcome (Z * list Z) :=
  '(out, r) ← and_then (encode_loop i 0 0 out 0) (encode_pad 4);
  match r with
  | None => Ret (- ENOBUFS, out)
  | Some io =>
      if io >=? size out then Ret (- ENOBUFS, out) else
      out ← upd_c out io 0;
      Ret (io, out)
  end.

(** [isspace] of the C locale. *)
Definition isspace (c : Z) : bool := (c =? 32) || ((9 <=? c) && (c <=? 13)).

(** The loop of the decoder. *)
Fixpoint decode_loop (i : list Z) (v rem : Z) (out : list Z) (io : Z) : outcome (progress * (Z * Z)) :=
  match i with
  | [] => Ret ((out, Some io), (v, rem))
  | c :: i =>
      if isspace c then decode_loop i v rem out io else
      if c =? 61 then Ret ((out, Some io), (v, rem)) else
      ch ← nth_c DECODEMAP c;
      if ch =? 255 then Ret ((out, Some io), (v, rem)) else
      let v := Z.lor (u32 (Z.shiftl v 6)) ch in
      let rem := rem + 6 in
      if rem >=? 8 then
        let rem := rem - 8 in
        '(out, r) ← put out io (Z.land (Z.shiftr v rem) 255);
        match r with
        | Some io => decode_loop i v rem out io
        | None => Ret ((out, None), (v, rem))
        end
      else decode_loop i v rem out io
  end.

Definition nn_base64_decode (i out : list Z) : outcome (Z * list Z) :=
  '((out, r), (v, rem)) ← decode_loop i 0 0 out 0;
  '(out, r) ← and_then (Ret (out, r)) (fun out io =>
      if rem >=? 8 then put out io (Z.land (Z.shiftr v (rem - 8)) 255) else Ret (out, Some io));
  match r with
  | None => Ret (- ENOBUFS, out)
  | Some io => Ret (io, out)
  end.

(** ** The reference *)

Definition digit64 (d : Z) : Z :=
  if d <? 26 then 65 + d else if d <? 52 then 71 + d else if d <? 62 then d - 4 else
  if d =? 62 then 43 else 47.

(** Three bytes are four digits; one or two bytes at the end are padded. *)
Fixpoint encoding (i : list Z) : list Z :=
  match i with
  | a :: b :: c :: i =>
      digit64 (a / 4) :: digit64 (a mod 4 * 16 + b / 16) :: digit64 (b mod 16 * 4 + c / 64) ::
      digit64 (c mod 64) :: encoding i
  | [a; b] => [digit64 (a / 4); digit64 (a mod 4 * 16 + b / 16); digit64 (b mod 16 * 4); 61]
  | [a] => [digit64 (a / 4); digit64 (a mod 4 * 16); 61; 61]
  | [] => []
  end.

Example encode_Man : nn_base64_encode [77; 97; 110; 77] (replicate 9 1) =
  Ret (8, [84; 87; 70; 117; 84; 81; 61; 61; 0]).
Proof. vm_compute. reflexivity. Qed.

(** ** Writing in sequence *)

Definition writes (out : list Z) (io : Z) (cs : list Z) : progress :=
  if io + size cs <=? size out
  then (take (Z.to_nat io) out ++ cs ++ drop (Z.to_nat (io + size cs)) out, Some (io + size cs))
  else (take (Z.to_nat io) out ++ take (Z.to_nat (size out - io)) cs, None).

Lemma writes_nil out io : 0 <= io <= size out -> writes out io [] = (out, Some io).
Proof.
  intros. unfold writes. change (size []) with 0. rewrite Z.add_0_r, (proj2 (Z.leb_le _ _)) by lia.
  cbn [app]. by rewrite take_drop.
Qed.

Lemma writes_size out io cs : 0 <= io <= size out -> size (fst (writes out io cs)) = size out.
Proof.
  intros. unfold writes. pose proof (size_nonneg cs). destruct (Z.leb_spec (io + size cs) (size out)); cbn [fst];
    unfold size in *; rewrite ?length_app, ?length_take, ?length_drop; lia.
Qed.

Lemma writes_app out io cs ds :
  0 <= io <= size out ->
  match writes out io cs with
  | (o, Some j) => writes o j ds
  | (o, None) => (o, None)
  end = writes out io (cs ++ ds).
Proof.
  intros Hio. pose proof (size_nonneg cs) as Hc. pose proof (size_nonneg ds) as Hd.
  pose proof (writes_size out io cs Hio) as Hw. unfold writes at 1.
  unfold writes in Hw. destruct (Z.leb_spec (io + size cs) (size out)) as [Hle|Hgt]; cbn [fst] in Hw.
  - unfold writes. rewrite Hw, size_app, Z.add_assoc.
    assert (Hpre : size (take (Z.to_nat io) out ++ cs) = io + size cs)
      by (rewrite size_app; destruct (size_take_drop out io Hio) as [-> _]; done).
    rewrite (app_assoc (take _ out)).
    rewrite (take_app_length' (take _ out ++ cs)) by (unfold size in *; lia).
    destruct (Z.leb_spec (io + size cs + size ds) (size out)).
    + rewrite <-!app_assoc. do 4 f_equal.
      rewrite app_assoc, drop_app_ge by (unfold size in *; lia).
      rewrite drop_drop. f_equal. unfold size in *. lia.
    + rewrite <-!app_assoc. do 2 f_equal. rewrite take_app_ge by (unfold size in *; lia).
      do 2 f_equal. unfold size in *. lia.
  - unfold writes. rewrite size_app, (proj2 (Z.leb_gt _ (size out))) by lia.
    do 2 f_equal. rewrite take_app_le by (unfold size in *; lia). done.
Qed.

(** The rest of a function that writes goes on where it stopped. *)
Lemma go_on out io cs ds f :
  0 <= io <= size out ->
  (forall o, size o = size out -> io + size cs <= size out ->
     f o (io + size cs) = Ret (writes o (io + size cs) ds)) ->
  and_then (Ret (writes out io cs)) f = Ret (writes out io (cs ++ ds)).
Proof.
  intros Hio Hf. rewrite <-writes_app by done. pose proof (writes_size out io cs Hio) as Hw.
  unfold writes in *. destruct (Z.leb_spec (io + size cs) (size out)); cbn [and_then mbind outcome_bind fst] in *;
    [|done]. by apply Hf.
Qed.

Lemma and_then_assoc p f g : and_then (and_then p f) g = and_then p (fun o io => and_then (f o io) g).
Proof. destruct p as [[o [io|]]| | |]; done. Qed.

Lemma put_writes out io c :
  0 <= io <= size out -> size out < 2 ^ 32 -> put out io c = Ret (writes out io [c]).
Proof.
  intros Hio Hlt. unfold put, writes. change (size [c]) with 1. rewrite Z.geb_leb.
  destruct (Z.leb_spec (size out) io) as [Hle|Hgt].
  - rewrite (proj2 (Z.leb_gt _ _)) by lia. replace (size out - io) with 0 by lia. cbn [Z.to_nat take].
    by rewrite app_nil_r, take_ge by (unfold size in *; lia).
  - rewrite (proj2 (Z.leb_le _ _)) by lia. rewrite upd_c_ok by (unfold size in *; lia).
    cbn [mbind outcome_bind]. rewrite u32_small by lia. do 2 f_equal.
    rewrite insert_take_drop by (unfold size in *; lia). do 3 f_equal. lia.
Qed.

(** ** The encoder *)

Lemma encodemap d : 0 <= d < 64 -> nth_c ENCODEMAP d = Ret (digit64 d).
Proof.
  intros Hd. assert (H : forallb (fun n => match ENCODEMAP !! n with
      Some c => c =? digit64 (Z.of_nat n) | None => false end) (seq 0 64) = true) by (vm_compute; done).
  rewrite forallb_forall in H. specialize (H (Z.to_nat d)). rewrite in_seq, Z2Nat.id in H by lia.
  specialize (H ltac:(lia)). destruct (ENCODEMAP !! Z.to_nat d) as [c|] eqn:E; [|done].
  apply Z.eqb_eq in H as ->. by apply nth_c_Z; [lia|].
Qed.

(** The digits come from the [rem] low bits of the accumulator. *)
Lemma sextet v k : 0 <= k -> Z.land (Z.shiftr v k) 63 = v / 2 ^ k mod 64.
Proof.
  intros. change 63 with (Z.ones 6). rewrite Z.land_ones, Z.shiftr_div_pow2 by lia. done.
Qed.

Lemma land63 v : Z.land v 63 = v mod 64.
Proof. change 63 with (Z.ones 6). by rewrite Z.land_ones. Qed.

Lemma shift_in v k ch : 0 <= k <= 32 -> 0 <= ch < 2 ^ k ->
  Z.lor (u32 (Z.shiftl v k)) ch = v mod 2 ^ (32 - k) * 2 ^ k + ch.
Proof.
  intros Hk Hch. unfold u32. rewrite Z.shiftl_mul_pow2 by lia.
  replace 32 with (32 - k + k) at 1 by lia. rewrite Z.pow_add_r, Z.mul_mod_distr_r by lia.
  rewrite <-Z.shiftl_mul_pow2 by lia. rewrite lor_add by lia. by rewrite <-Z.shiftl_mul_pow2 by lia.
Qed.

Ltac bits := unfold is_byte in *; change (2 ^ 0) with 1 in *; change (2 ^ 2) with 4 in *;
  change (2 ^ 4) with 16 in *; change (2 ^ 6) with 64 in *; change (2 ^ 8) with 256 in *;
  change (2 ^ 24) with 16777216 in *; change (2 ^ 26) with 67108864 in *.

Lemma while_stop fuel v rem out io : rem < 6 -> encode_while (S fuel) v rem out io = Ret ((out, Some io), rem).
Proof. intros. cbn [encode_while]. by rewrite Z.geb_leb, (proj2 (Z.leb_gt _ _)). Qed.

(** One digit, and the rest of the loop. *)
Lemma while_digit fuel v rem out io :
  6 <= rem -> 0 <= io <= size out -> size out < 2 ^ 32 ->
  encode_while (S fuel) v rem out io =
    match writes out io [digit64 (v / 2 ^ (rem - 6) mod 64)] with
    | (o, Some j) => encode_while fuel v (rem - 6) o j
    | (o, None) => Ret ((o, None), rem - 6)
    end.
Proof.
  intros Hr Hio Hlt. cbn [encode_while]. rewrite Z.geb_leb, (proj2 (Z.leb_le _ _)) by done.
  rewrite sextet by lia. rewrite encodemap by (apply Z.mod_pos_bound; lia). cbn [mbind outcome_bind].
  rewrite put_writes by done. cbn [mbind outcome_bind]. by destruct (writes _ _ _) as [o [j|]].
Qed.

Lemma loop_one i v rem ch out io :
  0 <= rem < 4 -> 0 <= io <= size out -> size out < 2 ^ 32 -> is_byte ch ->
  let w := v mod 2 ^ 24 * 256 + ch in
  encode_loop (ch :: i) v rem out io =
    and_then (Ret (writes out io [digit64 (w / 2 ^ (rem + 2) mod 64)])) (encode_loop i w (rem + 2)).
Proof.
  intros Hr Hio Hlt Hch w. cbn [encode_loop]. rewrite shift_in by (unfold is_byte in *; lia).
  change (v mod 2 ^ (32 - 8) * 2 ^ 8 + ch) with w. rewrite while_digit by (done || lia).
  replace (rem + 8 - 6) with (rem + 2) by lia.
  destruct (writes _ _ _) as [o [j|]]; [|done].
  rewrite while_stop by lia. done.
Qed.

Lemma loop_two i v ch out io :
  0 <= io <= size out -> size out < 2 ^ 32 -> is_byte ch ->
  let w := v mod 2 ^ 24 * 256 + ch in
  encode_loop (ch :: i) v 4 out io =
    and_then (Ret (writes out io [digit64 (w / 64 mod 64); digit64 (w mod 64)])) (encode_loop i w 0).
Proof.
  intros Hio Hlt Hch w. cbn [encode_loop]. rewrite shift_in by (unfold is_byte in *; lia).
  change (v mod 2 ^ (32 - 8) * 2 ^ 8 + ch) with w. rewrite while_digit by (done || lia).
  change [digit64 (w / 64 mod 64); digit64 (w mod 64)]
    with ([digit64 (w / 64 mod 64)] ++ [digit64 (w mod 64)]).
  rewrite <-writes_app by done. change (2 ^ (4 + 8 - 6)) with 64.
  destruct (writes out io [digit64 (w / 64 mod 64)]) as [o [j|]] eqn:E; [|done].
  assert (Hj : 0 <= j <= size o /\ size o < 2 ^ 32).
  { pose proof (writes_size out io [digit64 (w / 64 mod 64)] Hio) as Hs. rewrite E in Hs. cbn [fst] in Hs.
    unfold writes in E. change (size [_]) with 1 in E. destruct (Z.leb_spec (io + 1) (size out)); [|done].
    injection E as _ <-. lia. }
  rewrite while_digit by lia. change (4 + 8 - 6 - 6) with 0. rewrite Z.div_1_r.
  destruct (writes o j _) as [o' [j'|]]; [|done]. by rewrite while_stop by lia.
Qed.

Lemma loop_end v rem out io :
  0 < rem < 6 -> 0 <= io <= size out -> size out < 2 ^ 32 ->
  encode_loop [] v rem out io = Ret (writes out io [digit64 (v mod 2 ^ rem * 2 ^ (6 - rem))]).
Proof.
  intros Hr Hio Hlt. cbn [encode_loop]. rewrite (proj2 (Z.eqb_neq _ _)) by lia. rewrite land63.
  assert (E : u32 (Z.shiftl v (6 - rem)) mod 64 = v mod 2 ^ rem * 2 ^ (6 - rem)).
  { unfold u32. rewrite Z.shiftl_mul_pow2 by lia.
    rewrite Z.mod_mod_divide by (by exists (2 ^ 26)).
    change 64 with (2 ^ 6). replace 6 with (rem + (6 - rem)) at 2 by lia.
    rewrite Z.pow_add_r, Z.mul_mod_distr_r by lia. done. }
  rewrite E, encodemap; [by rewrite <-put_writes|].
  pose proof (Z.mod_pos_bound v (2 ^ rem) ltac:(lia)). split; [nia|].
  apply Z.lt_le_trans with (2 ^ rem * 2 ^ (6 - rem)); [nia|]. rewrite <-Z.pow_add_r by lia.
  by replace (rem + (6 - rem)) with 6 by lia.
Qed.

(** The padding, at an index that is [k] short of a multiple of four. *)
Lemma pad_writes k fuel out io :
  (k < fuel)%nat -> (k < 4)%nat -> (io + Z.of_nat k) mod 4 = 0 -> 0 <= io <= size out -> size out < 2 ^ 32 ->
  encode_pad fuel out io = Ret (writes out io (replicate k 61)).
Proof.
  revert k out io; induction fuel as [|fuel IH]; intros k out io Hk Hk4 Hio Hr Hlt; [lia|].
  cbn [encode_pad]. change (Z.land io 3) with (Z.land io (Z.ones 2)). rewrite Z.land_ones by lia.
  change (2 ^ 2) with 4. destruct k as [|k].
  - rewrite Z.add_0_r in Hio. rewrite Hio, writes_nil by done. done.
  - rewrite (proj2 (Z.eqb_neq _ _)) by (intros E; pose proof (Z.div_mod io 4); pose proof (Z.div_mod (io + Z.of_nat (S k)) 4); lia).
    rewrite put_writes by done. change (replicate (S k) 61) with ([61] ++ replicate k 61).
    apply go_on; [done|]. intros o Ho Hle. change (size [61]) with 1 in *.
    apply IH; [lia|lia| |lia..]. rewrite <-Hio. f_equal. lia.
Qed.

Lemma list_ind3 {A} (P : list A -> Prop) :
  P [] -> (forall a, P [a]) -> (forall a b, P [a; b]) -> (forall a b c l, P l -> P (a :: b :: c :: l)) ->
  forall l, P l.
Proof.
  intros H0 H1 H2 H3 l. assert (H : P l /\ (forall a, P (a :: l)) /\ (forall a b, P (a :: b :: l))).
  { induction l as [|x l (Ha & Hb & Hc)]; [done|]. split_and!; [apply Hb|intros a; apply Hc|intros a b; by apply H3]. }
  apply H.
Qed.

(** What the digits of a group are, whatever the accumulator held before. *)
Lemma digit_1 x a : is_byte a -> (x * 256 + a) / 2 ^ 2 mod 64 = a / 4 /\ (x * 256 + a) mod 4 = a mod 4.
Proof. bits. intros. Z.to_euclidean_division_equations. lia. Qed.

Lemma digit_2 w x b : is_byte b -> x mod 4 = w mod 4 ->
  (x * 256 + b) / 2 ^ 4 mod 64 = w mod 4 * 16 + b / 16 /\ (x * 256 + b) mod 16 = b mod 16.
Proof. bits. intros. Z.to_euclidean_division_equations. lia. Qed.

Lemma digit_3 w x c : is_byte c -> x mod 16 = w mod 16 ->
  (x * 256 + c) / 64 mod 64 = w mod 16 * 4 + c / 64 /\ (x * 256 + c) mod 64 = c mod 64.
Proof. bits. intros. Z.to_euclidean_division_equations. lia. Qed.

Lemma low_bits v : (v mod 2 ^ 24) mod 4 = v mod 4 /\ (v mod 2 ^ 24) mod 16 = v mod 16.
Proof. split; apply Z.mod_mod_divide; [by exists (2 ^ 22)|by exists (2 ^ 20)]. Qed.

Lemma encode_groups i : bytes i -> forall v out io,
  io mod 4 = 0 -> 0 <= io <= size out -> size out < 2 ^ 32 ->
  and_then (encode_loop i v 0 out io) (encode_pad 4) = Ret (writes out io (encoding i)).
Proof.
  induction i as [|a|a b|a b c i IH] using list_ind3; intros Hb v out io Hio Hr Hlt; cbn [encoding].
  - change (and_then (encode_loop [] v 0 out io) (encode_pad 4)) with (encode_pad 4 out io).
    apply (pad_writes 0); rewrite ?Z.add_0_r; (lia || done).
  - apply Forall_cons in Hb as [Ha _]. rewrite loop_one, and_then_assoc by (done || lia). change (0 + 2) with 2.
    destruct (digit_1 (v mod 2 ^ 24) a Ha) as [-> Hw].
    apply (go_on _ _ [_] [_; 61; 61]); [done|]. intros o Ho Hle. change (size [_]) with 1 in *.
    rewrite loop_end by lia. change (6 - 2) with 4. bits. rewrite Hw.
    apply (go_on _ _ [_] [61; 61]); [lia|]. intros o' Ho' Hle'. change (size [_]) with 1 in *.
    apply (pad_writes 2); [lia..| |lia|lia]. rewrite <-Hio. rewrite <-(Z_mod_plus_full io 1 4). f_equal. lia.
  - apply Forall_cons in Hb as [Ha Hb]. apply Forall_cons in Hb as [Hb _].
    rewrite loop_one, and_then_assoc by (done || lia). set (w := v mod 2 ^ 24 * 256 + a).
    destruct (digit_1 (v mod 2 ^ 24) a Ha) as [Hd Hw]. fold w in Hd, Hw. change (0 + 2) with 2. rewrite Hd.
    destruct (digit_2 w (w mod 2 ^ 24) b Hb) as [Hd2 Hw2]; [apply low_bits|].
    apply (go_on _ _ [_] [_; _; 61]); [done|]. intros o Ho Hle. change (size [_]) with 1 in *.
    rewrite loop_one, and_then_assoc by (done || lia). change (2 + 2) with 4. rewrite Hd2, Hw.
    apply (go_on _ _ [_] [_; 61]); [lia|]. intros o' Ho' Hle'. change (size [_]) with 1 in *.
    rewrite loop_end by lia. change (6 - 4) with 2. bits. rewrite Hw2.
    apply (go_on _ _ [_] [61]); [lia|]. intros o2 Ho2 Hle2. change (size [_]) with 1 in *.
    apply (pad_writes 1); [lia..| |lia|lia]. rewrite <-Hio. rewrite <-(Z_mod_plus_full io 1 4). f_equal. lia.
  - apply Forall_cons in Hb as [Ha Hb]. apply Forall_cons in Hb as [Hb Hc]. apply Forall_cons in Hc as [Hc Hi].
    rewrite loop_one, and_then_assoc by (done || lia). set (w := v mod 2 ^ 24 * 256 + a).
    destruct (digit_1 (v mod 2 ^ 24) a Ha) as [Hd Hw]. fold w in Hd, Hw. change (0 + 2) with 2. rewrite Hd.
    destruct (digit_2 w (w mod 2 ^ 24) b Hb) as [Hd2 Hw2]; [apply low_bits|].
    apply (go_on _ _ [_] (_ :: _ :: _ :: _)); [done|]. intros o Ho Hle. change (size [_]) with 1 in *.
    rewrite loop_one, and_then_assoc by (done || lia). change (2 + 2) with 4. rewrite Hd2, Hw.
    set (w2 := w mod 2 ^ 24 * 256 + b) in *.
    destruct (digit_3 w2 (w2 mod 2 ^ 24) c Hc) as [Hd3 Hd4]; [apply low_bits|].
    apply (go_on _ _ [_] (_ :: _ :: _)); [lia|]. intros o' Ho' Hle'. change (size [_]) with 1 in *.
    rewrite loop_two, and_then_assoc by (done || lia). rewrite Hd3, Hd4, Hw2.
    apply (go_on _ _ [_; _]); [lia|]. intros o2 Ho2 Hle2. change (size [_; _]) with 2 in *.
    apply IH; [done| |lia..]. rewrite <-Hio. rewrite <-(Z_mod_plus_full io 1 4). f_equal. lia.
Qed.

(** ** The decoder *)

Lemma decodemap d : 0 <= d < 64 ->
  isspace (digit64 d) = false /\ (digit64 d =? 61) = false /\ nth_c DECODEMAP (digit64 d) = Ret d.
Proof.
  intros Hd. assert (H : forallb (fun n => let c := digit64 (Z.of_nat n) in
      negb (isspace c) && negb (c =? 61) && (0 <=? c) && match DECODEMAP !! Z.to_nat c with
      Some e => e =? Z.of_nat n | None => false end) (seq 0 64) = true) by (vm_compute; done).
  rewrite forallb_forall in H. specialize (H (Z.to_nat d)). rewrite in_seq, Z2Nat.id in H by lia.
  specialize (H ltac:(lia)). cbn zeta in H. rewrite !andb_true_iff, !negb_true_iff in H.
  destruct H as [[[Hs He] Hp] Hm]. split_and!; [done..|].
  destruct (DECODEMAP !! Z.to_nat (digit64 d)) as [e|] eqn:E; [|done].
  apply Z.eqb_eq in Hm as ->. apply Z.leb_le in Hp. by apply nth_c_Z.
Qed.

Lemma digit_in v d : 0 <= d < 64 -> Z.lor (u32 (Z.shiftl v 6)) d = v mod 2 ^ 26 * 64 + d.
Proof. intros. rewrite shift_in by lia. done. Qed.

Lemma land255 v k : 0 <= k -> Z.land (Z.shiftr v k) 255 = v / 2 ^ k mod 256.
Proof. intros. change 255 with (Z.ones 8). rewrite Z.land_ones, Z.shiftr_div_pow2 by lia. done. Qed.

(** A digit that does not complete a byte, and one that does. *)
Lemma decode_first i v d out io :
  0 <= d < 64 ->
  decode_loop (digit64 d :: i) v 0 out io = decode_loop i (v mod 2 ^ 26 * 64 + d) 6 out io.
Proof.
  intros Hd. destruct (decodemap d Hd) as (Hs & He & Hm). cbn [decode_loop]. rewrite Hs, He, Hm.
  cbn [mbind outcome_bind]. rewrite (proj2 (Z.eqb_neq d 255)) by lia. by rewrite digit_in.
Qed.

Lemma decode_digit i v d rem out io :
  0 <= d < 64 -> 2 <= rem <= 6 -> 0 <= io <= size out -> size out < 2 ^ 32 ->
  let w := v mod 2 ^ 26 * 64 + d in
  decode_loop (digit64 d :: i) v rem out io =
    match writes out io [w / 2 ^ (rem - 2) mod 256] with
    | (o, Some j) => decode_loop i w (rem - 2) o j
    | (o, None) => Ret ((o, None), (w, rem - 2))
    end.
Proof.
  intros Hd Hr Hio Hlt w. destruct (decodemap d Hd) as (Hs & He & Hm). cbn [decode_loop].
  rewrite Hs, He, Hm. cbn [mbind outcome_bind]. rewrite (proj2 (Z.eqb_neq d 255)) by lia.
  rewrite digit_in by done. rewrite Z.geb_leb, (proj2 (Z.leb_le _ _)) by lia.
  rewrite land255 by lia. replace (rem + 6 - 8) with (rem - 2) by lia. rewrite put_writes by done.
  cbn [mbind outcome_bind]. by destruct (writes _ _ _) as [o [j|]].
Qed.

Lemma decode_stop i v rem out io : decode_loop (61 :: i) v rem out io = Ret ((out, Some io), (v, rem)).
Proof. done. Qed.

(** The decoder writes [cs] and stops with less than a byte left. *)
Definition decodes (r : outcome (progress * (Z * Z))) (p : progress) : Prop :=
  exists v rem, r = Ret (p, (v, rem)) /\ rem < 8.

Lemma decode_on out io c ds f v rem :
  0 <= io <= size out -> rem < 8 ->
  (forall o, size o = size out -> io + 1 <= size out -> decodes (f o (io + 1)) (writes o (io + 1) ds)) ->
  decodes (match writes out io [c] with
           | (o, Some j) => f o j
           | (o, None) => Ret ((o, None), (v, rem))
           end) (writes out io (c :: ds)).
Proof.
  intros Hio Hr Hf. change (c :: ds) with ([c] ++ ds). rewrite <-writes_app by done.
  pose proof (writes_size out io [c] Hio) as Hw. unfold writes in *. change (size [c]) with 1 in *.
  destruct (Z.leb_spec (io + 1) (size out)); cbn [fst] in *; [by apply Hf|]. by exists v, rem.
Qed.

Lemma byte_1 w a b : is_byte a -> is_byte b -> w mod 64 = a / 4 ->
  (w mod 2 ^ 26 * 64 + (a mod 4 * 16 + b / 16)) / 2 ^ 4 mod 256 = a /\
  (w mod 2 ^ 26 * 64 + (a mod 4 * 16 + b / 16)) mod 16 = b / 16.
Proof.
  bits. intros Ha Hb Hw. assert (Hm : (w mod 67108864) mod 64 = a / 4)
    by (rewrite Z.mod_mod_divide by (by exists 1048576); done).
  Z.to_euclidean_division_equations. lia.
Qed.

Lemma byte_2 w b c : is_byte b -> is_byte c -> w mod 16 = b / 16 ->
  (w mod 2 ^ 26 * 64 + (b mod 16 * 4 + c / 64)) / 2 ^ 2 mod 256 = b /\
  (w mod 2 ^ 26 * 64 + (b mod 16 * 4 + c / 64)) mod 4 = c / 64.
Proof.
  bits. intros Ha Hb Hw. assert (Hm : (w mod 67108864) mod 16 = b / 16)
    by (rewrite Z.mod_mod_divide by (by exists 4194304); done).
  Z.to_euclidean_division_equations. lia.
Qed.

Lemma byte_3 w c : is_byte c -> w mod 4 = c / 64 ->
  (w mod 2 ^ 26 * 64 + c mod 64) / 2 ^ 0 mod 256 = c.
Proof.
  bits. intros Hc Hw. assert (Hm : (w mod 67108864) mod 4 = c / 64)
    by (rewrite Z.mod_mod_divide by (by exists 16777216); done).
  Z.to_euclidean_division_equations. lia.
Qed.

Lemma byte_digits a b : is_byte a -> is_byte b ->
  0 <= a / 4 < 64 /\ 0 <= a mod 4 * 16 + b / 16 < 64 /\ 0 <= a mod 16 * 4 + b / 64 < 64 /\ 0 <= a mod 64 < 64.
Proof. bits. intros. Z.to_euclidean_division_equations. lia. Qed.

Lemma first_digit v d : 0 <= d < 64 -> (v mod 2 ^ 26 * 64 + d) mod 64 = d.
Proof. intros. rewrite Z.add_comm, Z.mod_add by lia. by rewrite Z.mod_small. Qed.

Lemma zero_byte : is_byte 0.
Proof. unfold is_byte. lia. Qed.

Lemma decode_groups i : bytes i -> forall v out io,
  0 <= io <= size out -> size out < 2 ^ 32 ->
  decodes (decode_loop (encoding i) v 0 out io) (writes out io i).
Proof.
  induction i as [|a|a b|a b c i IH] using list_ind3; intros Hb v out io Hio Hlt; cbn [encoding].
  - rewrite writes_nil by done. by exists v, 0.
  - apply Forall_cons in Hb as [Ha _]. destruct (byte_digits a 0 Ha zero_byte) as (Hd1 & Hd2 & _).
    change (0 / 16) with 0 in Hd2. rewrite Z.add_0_r in Hd2.
    rewrite decode_first by done. rewrite decode_digit by (done || lia). change (6 - 2) with 4.
    destruct (byte_1 (v mod 2 ^ 26 * 64 + a / 4) a 0 Ha zero_byte) as [Hv _]; [by apply first_digit|].
    change (0 / 16) with 0 in Hv. rewrite Z.add_0_r in Hv. rewrite Hv.
    apply decode_on; [done|lia|]. intros o Ho Hle. rewrite decode_stop, writes_nil by lia. by eexists _, _.
  - apply Forall_cons in Hb as [Ha Hb]. apply Forall_cons in Hb as [Hb _].
    destruct (byte_digits a b Ha Hb) as (Hd1 & Hd2 & _). destruct (byte_digits b 0 Hb zero_byte) as (_ & _ & Hd3 & _).
    change (0 / 64) with 0 in Hd3. rewrite Z.add_0_r in Hd3.
    rewrite decode_first by done. rewrite decode_digit by (done || lia). change (6 - 2) with 4.
    destruct (byte_1 (v mod 2 ^ 26 * 64 + a / 4) a b Ha Hb) as [-> Hw]; [by apply first_digit|].
    apply decode_on; [done|lia|]. intros o Ho Hle. rewrite decode_digit by (done || lia). change (4 - 2) with 2.
    destruct (byte_2 _ b 0 Hb zero_byte Hw) as [Hv _]. change (0 / 64) with 0 in Hv. rewrite !Z.add_0_r in Hv. rewrite Hv.
    apply decode_on; [lia|lia|]. intros o2 Ho2 Hle2. rewrite decode_stop, writes_nil by lia. by eexists _, _.
  - apply Forall_cons in Hb as [Ha Hb]. apply Forall_cons in Hb as [Hb Hc]. apply Forall_cons in Hc as [Hc Hi].
    destruct (byte_digits a b Ha Hb) as (Hd1 & Hd2 & _). destruct (byte_digits b c Hb Hc) as (_ & _ & Hd3 & _).
    destruct (byte_digits c c Hc Hc) as (_ & _ & _ & Hd4).
    rewrite decode_first by done. rewrite decode_digit by (done || lia). change (6 - 2) with 4.
    destruct (byte_1 (v mod 2 ^ 26 * 64 + a / 4) a b Ha Hb) as [-> Hw]; [by apply first_digit|].
    apply decode_on; [done|lia|]. intros o Ho Hle. rewrite decode_digit by (done || lia). change (4 - 2) with 2.
    destruct (byte_2 _ b c Hb Hc Hw) as [-> Hw2].
    apply decode_on; [lia|lia|]. intros o2 Ho2 Hle2. rewrite decode_digit by (done || lia). change (2 - 2) with 0.
    rewrite (byte_3 _ c Hc Hw2).
    apply decode_on; [lia|lia|]. intros o3 Ho3 Hle3. apply IH; [done|lia..].
Qed.

(** ** What the functions promise *)

Lemma encoding_size i : size (encoding i) = (size i + 2) / 3 * 4.
Proof.
  induction i as [|a|a b|a b c i IH] using list_ind3; [done..|]. cbn [encoding].
  unfold size in *. cbn [length]. rewrite !Nat2Z.inj_succ. pose proof (Z.div_add (Z.of_nat (length i) + 2) 1 3).
  replace (Z.succ (Z.succ (Z.succ (Z.of_nat (length i)))) + 2) with (Z.of_nat (length i) + 2 + 1 * 3) by lia. lia.
Qed.

Lemma encode_result (i out : list Z) :
  bytes i -> size out < 2 ^ 32 ->
  exists rc out', nn_base64_encode i out = Ret (rc, out') /\ size out' = size out /\
    if size (encoding i) + 1 <=? size out
    then rc = size (encoding i) /\
         out' = encoding i ++ 0 :: drop (Z.to_nat (size (encoding i) + 1)) out
    else rc = - ENOBUFS.
Proof.
  intros Hb Hlt. pose proof (size_nonneg out) as Hout.
  unfold nn_base64_encode. rewrite encode_groups by (done || lia).
  pose proof (writes_size out 0 (encoding i) ltac:(lia)) as Hw. pose proof (size_nonneg (encoding i)).
  unfold writes in *. rewrite Z.add_0_l in *. change (take (Z.to_nat 0) out) with (@nil Z) in *. cbn [app] in *.
  destruct (Z.leb_spec (size (encoding i)) (size out)); cbn [fst mbind outcome_bind] in *.
  2:{ rewrite (proj2 (Z.leb_gt _ _)) by lia. by eexists _, _. }
  rewrite Hw, Z.geb_leb. destruct (Z.leb_spec (size out) (size (encoding i))) as [Hge|Hgt].
  { rewrite (proj2 (Z.leb_gt _ _)) by lia. by eexists _, _. }
  rewrite (proj2 (Z.leb_le _ (size out))) by lia. rewrite upd_c_ok by (unfold size in *; lia).
  cbn [mbind outcome_bind]. eexists _, _. split; [reflexivity|].
  split; [unfold size in *; by rewrite length_insert|]. split; [done|].
  assert (Hn : Z.to_nat (size (encoding i)) = length (encoding i)) by apply Nat2Z.id.
  replace (Z.to_nat (size (encoding i) + 1)) with (length (encoding i) + 1)%nat by lia. rewrite Hn.
  rewrite insert_app_r_alt, Nat.sub_diag by done. f_equal.
  destruct (drop (length (encoding i)) out) as [|x r] eqn:E.
  { apply (f_equal length) in E. rewrite length_drop in E. unfold size in *. cbn in E. lia. }
  cbn. f_equal. by rewrite <-drop_drop, E.
Qed.

(** The characters of an encoding are printable. *)
Lemma encoding_chars i : bytes i -> Forall (fun c => 43 <= c <= 122) (encoding i).
Proof.
  assert (Hd : forall d, 43 <= digit64 d <= 122 \/ d < 0 \/ 64 <= d).
  { intros d. unfold digit64. repeat case_match; lia. }
  assert (Hd' : forall d, 0 <= d < 64 -> 43 <= digit64 d <= 122) by (intros d ?; destruct (Hd d); lia).
  induction i as [|a|a b|a b c i IH] using list_ind3; cbn [encoding]; intros Hb; [constructor| | |];
    repeat match goal with H : bytes (_ :: _) |- _ => apply Forall_cons in H as [? H] end; unfold is_byte in *;
    repeat (constructor; [first [apply Hd'; Z.to_euclidean_division_equations; lia | lia]|]); [constructor..|by apply IH].
Qed.

(** [nn_base64_encode] computes the encoding of RFC 4648: it writes it and
    a terminating zero to the front of the buffer and returns its length, four
    characters for every three bytes begun, exactly when there is room for both;
    otherwise it returns [-ENOBUFS].  It never writes behind the buffer. *)
Theorem base64_encode_correct (i out : list Z) :
  bytes i -> size out < 2 ^ 32 ->
  size (encoding i) = (size i + 2) / 3 * 4 /\
  exists rc out', nn_base64_encode i out = Ret (rc, out') /\ size out' = size out /\
    if size (encoding i) + 1 <=? size out
    then rc = size (encoding i) /\
         out' = encoding i ++ 0 :: drop (Z.to_nat (size (encoding i) + 1)) out
    else rc = - ENOBUFS.
Proof. intros Hb Hlt. split; [apply encoding_size|]. by apply encode_result. Qed.

Lemma base64_encode_correct_witness :
  size (encoding [0; 255]) = (size [0; 255] + 2) / 3 * 4 /\
  exists rc out', nn_base64_encode [0; 255] (replicate 4 1) = Ret (rc, out') /\
    size out' = 4 /\ rc = - ENOBUFS.
Proof.
  destruct (base64_encode_correct [0; 255] (replicate 4 1)) as (Hs & rc & out' & E & Ho & H).
  - repeat constructor; unfold is_byte; lia.
  - done.
  - split; [done|]. by exists rc, out'.
Defined.


(** Decoding inverts encoding: from what [nn_base64_encode] wrote,
    [nn_base64_decode] restores the bytes in any buffer with room for them and
    leaves the rest of it alone, and reports [-ENOBUFS] for a smaller buffer. *)
Theorem base64_round_trip (i out buf : list Z) (n : Z) (text : list Z) :
  bytes i -> size out < 2 ^ 32 -> size buf < 2 ^ 32 ->
  nn_base64_encode i out = Ret (n, text) -> 0 <= n ->
  exists rc buf', nn_base64_decode (take (Z.to_nat n) text) buf = Ret (rc, buf') /\
    if size i <=? size buf
    then rc = size i /\ buf' = i ++ drop (Z.to_nat (size i)) buf
    else rc = - ENOBUFS.
Proof.
  intros Hb Hout Hbuf E Hn.
  destruct (encode_result i out Hb Hout) as (rc & o & E' & _ & H). rewrite E in E'.
  injection E' as -> ->. destruct (Z.leb_spec (size (encoding i) + 1) (size out)).
  2:{ subst rc. unfold ENOBUFS in Hn. lia. }
  destruct H as [-> ->]. rewrite take_app_length' by (unfold size; lia).
  pose proof (size_nonneg buf). unfold nn_base64_decode.
  destruct (decode_groups i Hb 0 buf 0) as (v & rem & -> & Hrem); [lia|done|]. cbn [mbind outcome_bind].
  unfold writes. rewrite Z.add_0_l. change (take (Z.to_nat 0) buf) with (@nil Z). cbn [app].
  destruct (Z.leb_spec (size i) (size buf)); cbn [and_then mbind outcome_bind].
  - rewrite Z.geb_leb, (proj2 (Z.leb_gt _ _)) by lia. cbn [mbind outcome_bind]. by eexists _, _.
  - by eexists _, _.
Qed.

Lemma base64_round_trip_witness :
  exists rc buf', nn_base64_decode [65; 80; 56; 61] [9; 9; 9] = Ret (rc, buf') /\
    rc = 2 /\ buf' = [0; 255; 9].
Proof.
  apply (base64_round_trip [0; 255] (replicate 6 1) [9; 9; 9] 4 [65; 80; 56; 61; 0; 1]).
  - repeat constructor; unfold is_byte; lia.
  - done.
  - done.
  - by vm_compute.
  - lia.
Defined.
