(* ===== verification/Backoff.v ===== *)
(** * Backoff: the delays between reconnections (src/transports/utils/backoff.c)

    A connecter waits before it connects again: not at all the first time, then
    [minivl], three times that, seven times, and so on up to [maxivl].  The
    fields are C [int]s; arithmetic that leaves their range is [Undef]. *)

From stdpp Require Import base list.
From Stdlib Require Import ZArith Lia.
From S2P Require Import Prelude Fsm Timer.

Open Scope Z_scope.

Definition INT_MAX : Z := 2 ^ 31 - 1.

(** The result of an operation on [int]s. *)
Definition int (z : Z) : outcome Z :=
  if (- 2 ^ 31 <=? z) && (z <=? INT_MAX) then Ret z else Undef.

Record nn_backoff : Type := Backoff { timer : nn_timer; minivl : Z; maxivl : Z; n : Z }.

Definition nn_backoff_init (mini maxi : Z) : nn_backoff := Backoff nn_timer_init mini maxi 1.

Definition nn_backoff_term (self : nn_backoff) : outcome unit := nn_timer_term (timer self).

Definition nn_backoff_isidle (self : nn_backoff) : bool := nn_timer_isidle (timer self).

(** The timeout, and [n] for the next one. *)
Definition next_timeout (self : nn_backoff) : outcome (Z * Z) :=
  k ← int (n self - 1);
  timeout ← int (k * minivl self);
  if timeout >? maxivl self then Ret (maxivl self, n self)
  else n' ← int (n self * 2); Ret (timeout, n').

Definition nn_backoff_start (self : nn_backoff) : outcome nn_backoff :=
  '(timeout, n') ← next_timeout self;
  t ← nn_timer_start (timer self) timeout;
  Ret (Backoff t (minivl self) (maxivl self) n').

Definition nn_backoff_stop (self : nn_backoff) : outcome nn_backoff :=
  t ← nn_timer_stop (timer self);
  Ret (Backoff t (minivl self) (maxivl self) (n self)).

Definition nn_backoff_reset (self : nn_backoff) : nn_backoff :=
  Backoff (timer self) (minivl self) (maxivl self) 1.

(** ** A run of failed attempts *)

(** [k] delays, one after another; the timer has become idle in between. *)
Fixpoint delays (k : nat) (self : nn_backoff) : outcome (list Z) :=
  match k with
  | O => Ret []
  | S k =>
      self ← nn_backoff_start (Backoff nn_timer_init (minivl self) (maxivl self) (n self));
      ds ← delays k self;
      Ret (timeout (timer self) :: ds)
  end.

Example delays_100_1000 : delays 7 (nn_backoff_init 100 1000) = Ret [0; 100; 300; 700; 1000; 1000; 1000].
Proof. vm_compute. reflexivity. Qed.

Lemma int_ok z : - 2 ^ 31 <= z < 2 ^ 31 -> int z = Ret z.
Proof.
  intros Hz. unfold int, INT_MAX. by rewrite (proj2 (Z.leb_le _ _)), (proj2 (Z.leb_le _ _)) by lia.
Qed.

Lemma start_fresh t : 0 <= t -> exists x, nn_timer_start nn_timer_init t = Ret x /\ timeout x = t.
Proof.
  intros Ht. unfold nn_timer_start. rewrite Z.geb_leb, (proj2 (Z.leb_le _ _)) by done.
  eexists. split; [reflexivity|done].
Qed.

Section delays.
Context (mini maxi : Z) (Hmin : 1 <= mini) (Hmax : 0 <= maxi) (Hroom : 2 * maxi + mini < INT_MAX).

(** The [i]-th delay. *)
Definition delay (i : nat) : Z := Z.min ((2 ^ Z.of_nat i - 1) * mini) maxi.

(** After [i] attempts, or after more that do not change the delay. *)
Definition attempt (i : nat) (b : Z) : Prop :=
  exists j : nat, b = 2 ^ Z.of_nat j /\ (j = i \/ (j < i)%nat /\ maxi < (2 ^ Z.of_nat j - 1) * mini) /\
    (forall i' : nat, j = S i' -> (2 ^ Z.of_nat i' - 1) * mini <= maxi).

Lemma pow2_S j : 2 ^ Z.of_nat (S j) = 2 * 2 ^ Z.of_nat j.
Proof. rewrite Nat2Z.inj_succ, Z.pow_succ_r by lia. done. Qed.

Lemma pow2_mono i j : (i <= j)%nat -> 2 ^ Z.of_nat i <= 2 ^ Z.of_nat j.
Proof. intros. apply Z.pow_le_mono_r; lia. Qed.

Lemma attempt_next i b t :
  attempt i b -> exists b', next_timeout (Backoff t mini maxi b) = Ret (delay i, b') /\ attempt (S i) b'.
Proof.
  intros (j & -> & Hj & Hprev). pose proof (Z.pow_pos_nonneg 2 (Z.of_nat j) ltac:(lia) ltac:(lia)) as Hpos.
  assert (Hbound : 2 ^ Z.of_nat j <= 2 * maxi + 2 /\ (2 ^ Z.of_nat j - 1) * mini <= 2 * maxi + mini).
  { destruct j as [|j]; [change (2 ^ Z.of_nat 0) with 1; lia|]. specialize (Hprev j eq_refl). rewrite pow2_S in *. nia. }
  assert (Hr : 2 * maxi + mini < 2 ^ 31 - 1) by (unfold INT_MAX in Hroom; lia).
  unfold next_timeout. cbn [n minivl maxivl].
  rewrite (int_ok (2 ^ Z.of_nat j - 1)) by lia. cbn [mbind outcome_bind].
  rewrite (int_ok ((2 ^ Z.of_nat j - 1) * mini)) by nia. cbn [mbind outcome_bind].
  rewrite Z.gtb_ltb. destruct (Z.ltb_spec maxi ((2 ^ Z.of_nat j - 1) * mini)) as [Hgt|Hle].
  - exists (2 ^ Z.of_nat j). split.
    + do 2 f_equal. unfold delay. assert (2 ^ Z.of_nat j <= 2 ^ Z.of_nat i) by (apply pow2_mono; lia). nia.
    + exists j. split_and!; [done| |done]. right. lia.
  - destruct Hj as [->|[_ Hj]]; [|lia]. rewrite int_ok by nia. cbn [mbind outcome_bind].
    exists (2 ^ Z.of_nat i * 2). split; [do 2 f_equal; unfold delay; lia|].
    exists (S i). rewrite pow2_S. split_and!; [lia|by left|]. by intros i' [= ->].
Qed.

Lemma delays_from k i b t :
  attempt i b -> delays k (Backoff t mini maxi b) = Ret (delay <$> seq i k).
Proof.
  revert i b t. induction k as [|k IH]; intros i b t Hb; [done|]. cbn [delays seq fmap list_fmap].
  unfold nn_backoff_start. cbn [minivl maxivl n].
  destruct (attempt_next i b nn_timer_init Hb) as (b' & -> & Hb'). cbn [mbind outcome_bind timer].
  assert (Hd : 0 <= delay i).
  { unfold delay. pose proof (Z.pow_pos_nonneg 2 (Z.of_nat i) ltac:(lia) ltac:(lia)). nia. }
  destruct (start_fresh (delay i) Hd) as (x & -> & Hx). cbn [mbind outcome_bind minivl maxivl n].
  rewrite (IH (S i) b' x Hb'). cbn [mbind outcome_bind timer]. by rewrite Hx.
Qed.
End delays.

(** With a positive interval, and a maximum small enough that the sum of
    twice the maximum and the interval is an [int], every start of the backoff
    timer succeeds however often the connection fails: the delays are
    [(2^i - 1) * minivl], cut at [maxivl], and no arithmetic overflows.  Outside
    of these bounds, which the options allow, it does overflow: with an interval
    of zero the counter doubles for ever and overflows at the 31st attempt, and
    with the largest maximum the delay itself does, at the 26th for 100 ms. *)
Theorem backoff_bounds (mini maxi : Z) (k : nat) :
  1 <= mini -> 0 <= maxi -> 2 * maxi + mini < INT_MAX ->
  delays k (nn_backoff_init mini maxi) =
    Ret ((fun i => Z.min ((2 ^ Z.of_nat i - 1) * mini) maxi) <$> seq 0 k) /\
  delays 30 (nn_backoff_init 0 0) = Ret (replicate 30 0) /\
  delays 31 (nn_backoff_init 0 0) = Undef /\
  delays 26 (nn_backoff_init 100 INT_MAX) = Undef.
Proof.
  intros Hmin Hmax Hroom. split; [|by vm_compute]. apply (delays_from mini maxi Hmin Hmax Hroom k 0).
  exists 0%nat. split_and!; [done|by left|done].
Qed.

Lemma backoff_bounds_witness :
  delays 20 (nn_backoff_init 100 60000) = Ret ((fun i => Z.min ((2 ^ Z.of_nat i - 1) * 100) 60000) <$> seq 0 20).
Proof.
  destruct (backoff_bounds 100 60000 20) as [H _]; [lia|lia|unfold INT_MAX; lia|exact H].
Defined.
