(* ===== verification/MsgQueue.v ===== *)
(** * MsgQueue: the message queue of an inproc session
    (src/transports/inproc/msgqueue.c)

    Messages are written to chunks of 126 slots, chained in the order of
    writing; a chunk that was read to its end is kept as a cache for the writer,
    or freed if there is one already.  The chunks live in a heap; a slot that was
    never written is [None], and a slot that was read keeps its bits.

    [queue_rep] relates the chunks to the sequence of messages in them;
    [msgqueue_refines_fifo] shows that the queue is a FIFO queue bounded by the
    size of its messages, and that terminating it frees every chunk. *)

From stdpp Require Import base gmap list.
From Stdlib Require Import ZArith Lia.
From S2P Require Import Prelude ListHeap Message.

Open Scope Z_scope.

Definition NN_MSGQUEUE_GRANULARITY : Z := 126.

Record nn_msgqueue_chunk : Type := QChunk { msgs : list (option nn_msg); qnext : link }.

Abbreviation qheap := (gmap positive nn_msgqueue_chunk).

Record nn_msgqueue : Type := MsgQueue {
  out_chunk : loc; out_pos : Z; in_chunk : loc; in_pos : Z;
  count : Z; qmem : Z; maxmem : Z; cache : option loc
}.

(** A new chunk, with [next] set to null. *)
Definition new_chunk : nn_msgqueue_chunk :=
  QChunk (replicate (Z.to_nat NN_MSGQUEUE_GRANULARITY) None) Null.

(** [fresh] is what the allocator returns; running out of memory aborts. *)
Definition nn_msgqueue_init (h : qheap) (fresh : option loc) (maxmem : Z)
    : outcome (qheap * nn_msgqueue) :=
  match fresh with
  | None => Abort
  | Some c => Ret (<[c := new_chunk]> h, MsgQueue c 0 c 0 0 0 maxmem None)
  end.

Definition nn_msgqueue_empty (self : nn_msgqueue) : Z := c_bool (count self =? 0).

Definition msg_size (m : nn_msg) : Z := size (sphdr m) + size (body m).

Definition nn_msgqueue_send (h : qheap) (fresh : option loc) (self : nn_msgqueue) (msg : nn_msg)
    : outcome (qheap * nn_msgqueue * Z) :=
  let msgsz := msg_size msg in
  if (count self >? 0) && (u64 (qmem self + msgsz) >=? maxmem self)
  then Ret (h, self, - EAGAIN) else
  c ← deref h (out_chunk self);
  ms ← upd_c (msgs c) (out_pos self) (Some msg);
  let h := <[out_chunk self := QChunk ms (qnext c)]> h in
  let cnt := u64 (count self + 1) in
  let mem := u64 (qmem self + msgsz) in
  let pos := out_pos self + 1 in
  if pos =? NN_MSGQUEUE_GRANULARITY then
    '(h, new) ← match cache self with
                | Some n => Ret (h, n)
                | None => match fresh with
                          | Some n => Ret (<[n := new_chunk]> h, n)
                          | None => Abort
                          end
                end;
    c ← deref h (out_chunk self);
    let h := <[out_chunk self := QChunk (msgs c) (At new)]> h in
    Ret (h, MsgQueue new 0 (in_chunk self) (in_pos self) cnt mem (maxmem self) None, 0)
  else
    Ret (h, MsgQueue (out_chunk self) pos (in_chunk self) (in_pos self) cnt mem (maxmem self)
              (cache self), 0).

Definition nn_msgqueue_recv (h : qheap) (self : nn_msgqueue)
    : outcome (qheap * nn_msgqueue * Z * option nn_msg) :=
  if count self =? 0 then Ret (h, self, - EAGAIN, None) else
  c ← deref h (in_chunk self);
  slot ← nth_c (msgs c) (in_pos self);
  match slot with
  | None => Undef
  | Some msg =>
      let cnt := u64 (count self - 1) in
      let mem := u64 (qmem self - msg_size msg) in
      let pos := in_pos self + 1 in
      if pos =? NN_MSGQUEUE_GRANULARITY then
        match qnext c with
        | At next =>
            match cache self with
            | None => Ret (h, MsgQueue (out_chunk self) (out_pos self) next 0 cnt mem (maxmem self)
                                (Some (in_chunk self)), 0, Some msg)
            | Some o => Ret (delete (in_chunk self) h,
                             MsgQueue (out_chunk self) (out_pos self) next 0 cnt mem (maxmem self)
                                (Some o), 0, Some msg)
            end
        | _ => Undef
        end
      else Ret (h, MsgQueue (out_chunk self) (out_pos self) (in_chunk self) pos cnt mem (maxmem self)
                     (cache self), 0, Some msg)
  end.

(** The loop of [nn_msgqueue_term]; returns the messages it terminates. *)
Fixpoint drain (fuel : nat) (h : qheap) (self : nn_msgqueue) (done : list nn_msg)
    : outcome (qheap * nn_msgqueue * list nn_msg) :=
  match fuel with
  | O => NoFuel
  | S fuel =>
      '(h, self, rc, got) ← nn_msgqueue_recv h self;
      if rc =? - EAGAIN then Ret (h, self, done) else
      _ ← check (rc >=? 0);
      match got with
      | Some m => drain fuel h self (done ++ [m])
      | None => Undef
      end
  end.

Definition nn_msgqueue_term (h : qheap) (self : nn_msgqueue) : outcome (qheap * list nn_msg) :=
  '(h, self, ms) ← drain (S (Z.to_nat (count self))) h self [];
  _ ← check (bool_decide (in_chunk self = out_chunk self));
  _ ← deref h (in_chunk self);
  let h := delete (in_chunk self) h in
  match cache self with
  | None => Ret (h, ms)
  | Some c => _ ← deref h c; Ret (delete c h, ms)
  end.

(** ** The sequence in the chunks *)

Definition G : nat := Z.to_nat NN_MSGQUEUE_GRANULARITY.

Lemma G_pos : (0 < G)%nat.
Proof. unfold G, NN_MSGQUEUE_GRANULARITY. lia. Qed.

Lemma G_Z : NN_MSGQUEUE_GRANULARITY = Z.of_nat G.
Proof. reflexivity. Qed.

(** From slot [i] of the first of the chunks [cs] up to slot [o] of the last. *)
Fixpoint pieces (h : qheap) (cs : list loc) (i o : nat) (xs : list nn_msg) : Prop :=
  match cs with
  | [] => False
  | c :: cs' =>
      exists k, h !! c = Some k /\ length (msgs k) = G /\ (i < G)%nat /\
      match cs' with
      | [] => (o < G)%nat /\ (i + length xs = o)%nat /\ take (length xs) (drop i (msgs k)) = Some <$> xs
      | c' :: _ =>
          exists x1 x2, qnext k = At c' /\ xs = x1 ++ x2 /\ drop i (msgs k) = Some <$> x1 /\
            pieces h cs' 0 o x2
      end
  end.

Definition total (xs : list nn_msg) : Z := foldr (fun m s => msg_size m + s) 0 xs.

Record queue_rep (h : qheap) (q : nn_msgqueue) (xs : list nn_msg) : Prop := {
  qr_chunks : exists cs i o,
    pieces h cs i o xs /\ NoDup (cs ++ option_list (cache q)) /\
    hd_error cs = Some (in_chunk q) /\ (exists pre, cs = pre ++ [out_chunk q]) /\
    in_pos q = Z.of_nat i /\ out_pos q = Z.of_nat o /\
    (forall c, is_Some (h !! c) <-> c ∈ cs ++ option_list (cache q)) /\
    (forall c k, cache q = Some c -> h !! c = Some k -> length (msgs k) = G);
  qr_count : count q = Z.of_nat (length xs);
  qr_mem : qmem q = total xs;
  qr_fits : Z.of_nat (length xs) < 2 ^ 64 /\ total xs < 2 ^ 64
}.

Lemma msg_size_nonneg m : 0 <= msg_size m.
Proof. unfold msg_size. pose proof (size_nonneg (sphdr m)). pose proof (size_nonneg (body m)). lia. Qed.

Lemma total_nonneg xs : 0 <= total xs.
Proof. induction xs as [|m xs IH]; cbn; [lia|]. pose proof (msg_size_nonneg m). fold (total xs). lia. Qed.

Lemma total_app xs ys : total (xs ++ ys) = total xs + total ys.
Proof.
  induction xs as [|m xs IH]; cbn; [done|]. fold (total xs) (total (xs ++ ys)). rewrite IH. lia.
Qed.

Lemma pieces_frame (h h' : qheap) cs i o xs :
  (forall c, c ∈ cs -> h' !! c = h !! c) -> pieces h cs i o xs -> pieces h' cs i o xs.
Proof.
  revert i xs. induction cs as [|c cs IH]; intros i xs Hh; [done|]. cbn [pieces].
  intros (k & Hk & Hl & Hi & H). exists k. rewrite Hh by left. split_and!; [done..|].
  destruct cs as [|c' cs]; [done|]. destruct H as (x1 & x2 & Hn & Hx & Hd & Hp).
  exists x1, x2. split_and!; [done..|]. apply IH; [|done]. intros y Hy. apply Hh. by right.
Qed.

Lemma pieces_range h cs i o xs : pieces h cs i o xs -> (i < G)%nat /\ (o < G)%nat.
Proof.
  revert i xs. induction cs as [|c cs IH]; intros i xs; [done|]. cbn [pieces].
  intros (k & _ & _ & Hi & H). split; [done|]. destruct cs as [|c' cs]; [tauto|].
  destruct H as (x1 & x2 & _ & _ & _ & Hp). by apply IH in Hp as [_ ?].
Qed.

(** The first message, and what is left without it. *)
Lemma pieces_head h c cs i o m xs :
  pieces h (c :: cs) i o (m :: xs) ->
  exists k, h !! c = Some k /\ msgs k !! i = Some (Some m) /\
    if decide (S i = G)
    then exists c' cs', cs = c' :: cs' /\ qnext k = At c' /\ pieces h cs 0 o xs
    else pieces h (c :: cs) (S i) o xs.
Proof.
  cbn [pieces]. intros (k & Hk & Hl & Hi & H). exists k. split; [done|]. destruct cs as [|c' cs].
  - destruct H as (Ho & Hlen & Ht). cbn [length] in *. 
    destruct (drop i (msgs k)) as [|s r] eqn:Ed; [done|]. cbn [take fmap list_fmap] in Ht.
    injection Ht as -> Ht. split.
    + rewrite <-(Nat.add_0_r i), <-lookup_drop, Ed. done.
    + rewrite decide_False by lia. exists k. split_and!; [done|done|lia|done|lia|].
      rewrite <-Nat.add_1_r, <-drop_drop, Ed. exact Ht.
  - destruct H as (x1 & x2 & Hn & Hx & Hd & Hp).
    assert (Hne : x1 <> []).
    { intros ->. apply (f_equal length) in Hd. rewrite length_drop in Hd. cbn in Hd. lia. }
    destruct x1 as [|m' x1]; [done|]. injection Hx as <- ->. split.
    + rewrite <-(Nat.add_0_r i), <-lookup_drop, Hd. done.
    + assert (Hd' : drop (S i) (msgs k) = Some <$> x1) by (rewrite <-Nat.add_1_r, <-drop_drop, Hd; done).
      destruct (decide _) as [E|E].
      * exists c', cs. split_and!; [done|done|]. rewrite drop_ge in Hd' by lia.
        destruct x1; [done|discriminate].
      * exists k. split_and!; [done|done|lia|]. by exists x1, x2.
Qed.

(** A message is written behind the last one; the last chunk is full then, and
    another one follows, or it is not. *)
Lemma write_slot (ms : list (option nn_msg)) i (xs : list nn_msg) o m :
  (o < length ms)%nat -> (i + length xs = o)%nat -> take (length xs) (drop i ms) = Some <$> xs ->
  take (length (xs ++ [m])) (drop i (<[o := Some m]> ms)) = Some <$> (xs ++ [m]).
Proof.
  intros Ho Hlen Ht. rewrite length_app, fmap_app. cbn [length fmap list_fmap].
  rewrite drop_insert_ge by lia. replace (o - i)%nat with (length xs) by lia.
  rewrite insert_take_drop by (rewrite length_drop; lia).
  rewrite take_app_ge by (rewrite length_take; lia). rewrite length_take, length_drop.
  replace (length xs + 1 - length xs `min` (length ms - i))%nat with 1%nat by lia. by rewrite Ht.
Qed.

Lemma pieces_snoc h pre i o xs m c k :
  pieces h (pre ++ [c]) i o xs -> NoDup (pre ++ [c]) -> h !! c = Some k ->
  length (msgs k) = G /\
  (S o <> G -> pieces (<[c := QChunk (<[o := Some m]> (msgs k)) (qnext k)]> h) (pre ++ [c]) i (S o) (xs ++ [m])) /\
  (forall new kn h', S o = G -> length (msgs kn) = G ->
     h' !! c = Some (QChunk (<[o := Some m]> (msgs k)) (At new)) -> h' !! new = Some kn ->
     (forall c', c' ∈ pre -> h' !! c' = h !! c') ->
     pieces h' (pre ++ [c; new]) i 0 (xs ++ [m])).
Proof.
  revert i xs. induction pre as [|c0 pre IH]; intros i xs Hp Hnd Hk; cbn [app pieces] in *.
  - destruct Hp as (k0 & Hk0 & Hl & Hi & Ho & Hlen & Ht). rewrite Hk in Hk0. injection Hk0 as <-.
    assert (Hw := write_slot (msgs k) i xs o m ltac:(lia) Hlen Ht). split; [done|]. split.
    + intros Hne. eexists. rewrite lookup_insert_eq. split; [done|]. cbn [msgs].
      rewrite length_insert. split_and!; [done|done|lia|rewrite length_app; cbn; lia|done].
    + intros new kn h' Ho' Hln Hc Hnew _. eexists. split; [exact Hc|]. cbn [msgs qnext].
      rewrite length_insert. split_and!; [done|done|]. exists (xs ++ [m]), [].
      split_and!; [done|by rewrite app_nil_r| |].
      * rewrite <-Hw. symmetry. apply take_ge. rewrite length_drop, length_insert, length_app. cbn. lia.
      * exists kn. split_and!; [done..|lia|pose proof G_pos; lia|done|done].
  - apply NoDup_cons in Hnd as [Hc0 Hnd]. destruct Hp as (k0 & Hk0 & Hl & Hi & Hrest).
    assert (Hsplit : exists c' r, pre ++ [c] = c' :: r) by (destruct pre; eexists _, _; done).
    destruct Hsplit as (c' & r & Er). rewrite Er in Hrest. destruct Hrest as (x1 & x2 & Hn & -> & Hd & Hp).
    rewrite <-Er in Hp. destruct (IH 0%nat x2 Hp Hnd Hk) as (Hlk & Hsame & Hnew).
    assert (Hne : c <> c0) by (intros ->; apply Hc0, elem_of_app; right; by left).
    split; [done|]. split.
    + intros Ho. exists k0. rewrite lookup_insert_ne by done. split_and!; [done..|]. rewrite Er.
      exists x1, (x2 ++ [m]). split_and!; [done|by rewrite app_assoc|done|]. rewrite <-Er. by apply Hsame.
    + intros new kn h' Ho Hln Hc Hkn Hh'. exists k0. rewrite Hh' by left. split_and!; [done..|].
      assert (Er2 : pre ++ [c; new] = c' :: r ++ [new]).
      { change [c; new] with ([c] ++ [new]). by rewrite app_assoc, Er. }
      rewrite Er2. exists x1, (x2 ++ [m]). split_and!; [done|by rewrite app_assoc|done|]. rewrite <-Er2.
      apply (Hnew new kn); [done..|]. intros y Hy. apply Hh'. by right.
Qed.

(** ** The operations *)

Lemma init_rep n mm :
  exists h q, nn_msgqueue_init ∅ (Some n) mm = Ret (h, q) /\ queue_rep h q [] /\ maxmem q = mm.
Proof.
  eexists _, _. split; [reflexivity|]. split; [|done]. split; [|done|done|done].
  exists [n], 0%nat, 0%nat. cbn [cache option_list app in_chunk out_chunk in_pos out_pos].
  pose proof G_pos. split_and!; [|apply NoDup_singleton|done|by exists []|done|done| |done].
  - exists new_chunk. rewrite lookup_insert_eq. split_and!; [done|by vm_compute|done|done|done|done].
  - intros c. rewrite list_elem_of_singleton, <-elem_of_dom. set_solver.
Qed.

Lemma recv_empty h q : queue_rep h q [] -> nn_msgqueue_recv h q = Ret (h, q, - EAGAIN, None).
Proof. intros [_ Hc _ _]. unfold nn_msgqueue_recv. rewrite Hc. done. Qed.

(** One message less in the counters. *)
Lemma counters_tail m (xs : list nn_msg) c mm :
  c = Z.of_nat (length (m :: xs)) -> mm = total (m :: xs) -> c < 2 ^ 64 -> mm < 2 ^ 64 ->
  u64 (c - 1) = Z.of_nat (length xs) /\ u64 (mm - msg_size m) = total xs.
Proof.
  intros -> -> H1 H2. cbn [length total foldr] in *. fold (total xs) in *.
  pose proof (msg_size_nonneg m). pose proof (total_nonneg xs).
  rewrite !u64_small by lia. split; lia.
Qed.

Lemma recv_rep h q m xs :
  queue_rep h q (m :: xs) ->
  exists h' q', nn_msgqueue_recv h q = Ret (h', q', 0, Some m) /\ queue_rep h' q' xs /\ maxmem q' = maxmem q.
Proof.
  intros [(cs & i & o & Hp & Hnd & Hhd & [pre Hlast] & Hi & Ho & Hdom & Hcache) Hc Hm [Hf1 Hf2]].
  destruct cs as [|c cs]; [done|]. injection Hhd as ->.
  destruct (counters_tail m xs _ _ Hc Hm) as [Ec Em]; [lia|lia|].
  assert (Hfits : Z.of_nat (length xs) < 2 ^ 64 /\ total xs < 2 ^ 64).
  { cbn [length total foldr] in *. fold (total xs) in *. pose proof (msg_size_nonneg m). lia. }
  destruct (pieces_range _ _ _ _ _ Hp) as [Hir _].
  destruct (pieces_head _ _ _ _ _ _ _ Hp) as (k & Hk & Hslot & Hnext).
  unfold nn_msgqueue_recv. rewrite (proj2 (Z.eqb_neq (count q) 0)) by (rewrite Hc; cbn; lia).
  load Hk. rewrite Hi, (nth_c_Some _ _ _ Hslot). cbn [mbind outcome_bind]. rewrite Ec, Em, G_Z.
  assert (Hgk : length (msgs k) = G).
  { cbn [pieces] in Hp. destruct Hp as (k' & Hk' & Hl & _). rewrite Hk in Hk'. by injection Hk' as <-. }
  destruct (decide (S i = G)) as [E|E].
  - rewrite (proj2 (Z.eqb_eq _ _)) by lia. destruct Hnext as (c' & cs' & -> & -> & Hp').
    assert (Hpre : exists pre', c' :: cs' = pre' ++ [out_chunk q]).
    { destruct pre as [|p0 pre]; [discriminate|]. injection Hlast as _ Hlast. by exists pre. }
    cbn [app] in Hnd. apply NoDup_cons in Hnd as [Hin Hnd]. destruct (cache q) as [o'|] eqn:Eca.
    + eexists _, _. split; [reflexivity|]. split; [|done]. split; [|done|done|done].
      exists (c' :: cs'), 0%nat, o. cbn [cache in_chunk out_chunk in_pos out_pos option_list].
      split_and!; try done.
      * apply (pieces_frame h); [|done]. intros y Hy. apply lookup_delete_ne. intros <-.
        apply Hin. clear -Hy. set_solver.
      * intros y. destruct (decide (y = in_chunk q)) as [->|].
        -- rewrite lookup_delete_eq. split; [by intros []|done].
        -- rewrite lookup_delete_ne, Hdom by done. cbn [app]. set_solver.
      * intros y ky [= <-] [_ Hy]%lookup_delete_Some. by apply (Hcache o').
    + eexists _, _. split; [reflexivity|]. split; [|done]. split; [|done|done|done].
      exists (c' :: cs'), 0%nat, o. cbn [cache in_chunk out_chunk in_pos out_pos option_list] in *.
      rewrite app_nil_r in *. split_and!; try done.
      * apply NoDup_app. split_and!; [done| |apply NoDup_singleton].
        intros y Hy ->%list_elem_of_singleton. done.
      * intros y. rewrite Hdom. cbn [app]. set_solver.
      * intros y ky [= <-] Hy. rewrite Hk in Hy. by injection Hy as <-.
  - rewrite (proj2 (Z.eqb_neq _ _)) by lia. eexists _, _. split; [reflexivity|]. split; [|done].
    split; [|done|done|done]. exists (in_chunk q :: cs), (S i), o.
    cbn [cache in_chunk out_chunk in_pos out_pos]. split_and!; try done; [by exists pre|lia].
Qed.

(** Whether the queue has room: the first message always fits. *)
Definition full (mm : Z) (xs : list nn_msg) (m : nn_msg) : bool :=
  match xs with [] => false | _ => total xs + msg_size m >=? mm end.

(** The chunk that comes next, the cached one or a new one, once the last one
    has been rewritten. *)
Lemma next_chunk_ok (h : qheap) q pre n k1 :
  NoDup ((pre ++ [out_chunk q]) ++ option_list (cache q)) ->
  (forall c, is_Some (h !! c) <-> c ∈ (pre ++ [out_chunk q]) ++ option_list (cache q)) ->
  (forall c k, cache q = Some c -> h !! c = Some k -> length (msgs k) = G) ->
  h !! n = None ->
  let h1 := <[out_chunk q := k1]> h in
  exists h2 new kn,
    (match cache q with Some n => Ret (h1, n) | None => Ret (<[n := new_chunk]> h1, n) end) = Ret (h2, new) /\
    length (msgs kn) = G /\ h2 !! new = Some kn /\ new <> out_chunk q /\ (new ∉ pre) /\
    (forall c, c <> new -> h2 !! c = h1 !! c) /\
    (forall c, is_Some (h2 !! c) <-> c ∈ pre ++ [out_chunk q; new]).
Proof.
  intros Hnd Hdom Hcache Hn h1. apply NoDup_app in Hnd as (_ & Hdisj & _).
  destruct (cache q) as [n0|] eqn:Eca; cbn [option_list] in *.
  - destruct (Hdom n0) as [_ [kn Hkn]]; [apply elem_of_app; right; by left|].
    assert (Hn0 : n0 ∉ pre ++ [out_chunk q]) by (intros Hx; apply (Hdisj n0 Hx); by left).
    exists h1, n0, kn. split_and!; [done|by apply (Hcache n0)| |set_solver|set_solver|done|].
    + unfold h1. rewrite lookup_insert_ne; [done|set_solver].
    + intros c. unfold h1. rewrite lookup_insert_is_Some'. rewrite Hdom. set_solver.
  - exists (<[n := new_chunk]> h1), n, new_chunk.
    assert (Hn' : n ∉ pre ++ [out_chunk q]).
    { intros Hx. destruct (proj2 (Hdom n)) as [? ?]; [by rewrite app_nil_r|congruence]. }
    split_and!; [done|by vm_compute|apply lookup_insert_eq|set_solver|set_solver| |].
    + intros c Hne. by rewrite lookup_insert_ne.
    + intros c. unfold h1. rewrite !lookup_insert_is_Some'. rewrite Hdom, app_nil_r. set_solver.
Qed.

Lemma send_rep h q m xs n :
  queue_rep h q xs -> h !! n = None ->
  Z.of_nat (S (length xs)) < 2 ^ 64 -> total xs + msg_size m < 2 ^ 64 ->
  exists h' q', nn_msgqueue_send h (Some n) q m =
      Ret (h', q', (if full (maxmem q) xs m then - EAGAIN else 0)) /\
    queue_rep h' q' (if full (maxmem q) xs m then xs else xs ++ [m]) /\ maxmem q' = maxmem q.
Proof.
  intros Hq Hn Hlen Htot. pose proof Hq as [(cs & i & o & Hp & Hnd & Hhd & [pre ->] & Hi & Ho & Hdom & Hcache) Hc Hm _].
  pose proof (total_nonneg xs) as Ht0. pose proof (msg_size_nonneg m) as Hm0.
  assert (Efull : ((count q >? 0) && (u64 (qmem q + msg_size m) >=? maxmem q)) = full (maxmem q) xs m).
  { rewrite Hc, Hm, u64_small by lia. destruct xs; [done|]. rewrite (proj2 (Z.gtb_lt _ _)) by (cbn; lia). done. }
  unfold nn_msgqueue_send. rewrite Efull. destruct (full (maxmem q) xs m); [by eexists _, _|].
  assert (Hout : exists k, h !! out_chunk q = Some k).
  { apply Hdom, elem_of_app. left. apply elem_of_app. right. by left. }
  destruct Hout as [k Hk]. apply NoDup_app in Hnd as (Hnd & Hdisj & Hndc).
  destruct (pieces_range _ _ _ _ _ Hp) as [_ Hor].
  destruct (pieces_snoc _ _ _ _ _ m _ _ Hp Hnd Hk) as (Hl & Hsame & Hnew).
  load Hk. rewrite Ho, upd_c_nat by lia. cbn [mbind outcome_bind].
  assert (Ec : u64 (count q + 1) = Z.of_nat (length (xs ++ [m]))).
  { rewrite Hc, length_app, u64_small by lia. cbn. lia. }
  assert (Em : u64 (qmem q + msg_size m) = total (xs ++ [m])).
  { rewrite Hm, total_app, u64_small by lia. cbn. lia. }
  assert (Hfits : Z.of_nat (length (xs ++ [m])) < 2 ^ 64 /\ total (xs ++ [m]) < 2 ^ 64).
  { rewrite length_app, total_app. cbn. lia. }
  rewrite Ec, Em, G_Z. destruct (decide (S o = G)) as [E|E].
  2:{ rewrite (proj2 (Z.eqb_neq _ _)) by lia. eexists _, _. split; [reflexivity|]. split; [|done].
      split; [|done|done|done]. exists (pre ++ [out_chunk q]), i, (S o).
      cbn [cache in_chunk out_chunk in_pos out_pos].
      split_and!; [by apply Hsame|by apply NoDup_app|done|by exists pre|done|lia| |].
      - intros c. rewrite <-Hdom, lookup_insert_is_Some. split; [|destruct (decide (out_chunk q = c)); auto].
        intros [<-|[_ ?]]; [by eexists|done].
      - intros c kc Hca Hkc. rewrite lookup_insert_ne in Hkc; [by apply (Hcache c)|]. intros <-.
        apply (Hdisj (out_chunk q)); [apply elem_of_app; right; by left|]. rewrite Hca. by left. }
  rewrite (proj2 (Z.eqb_eq _ _)) by lia.
  set (h1 := <[out_chunk q := QChunk (<[o := Some m]> (msgs k)) (qnext k)]> h).
  destruct (next_chunk_ok h q pre n (QChunk (<[o := Some m]> (msgs k)) (qnext k))) as
    (h2 & new & kn & Enc & Hlkn & Hkn & Hno & Hnp & Hh2 & Hd2); [by apply NoDup_app|done..|].
  fold h1 in Hh2, Enc. rewrite Enc.
  cbn [mbind outcome_bind].
  rewrite (deref_Some h2 (out_chunk q) (QChunk (<[o := Some m]> (msgs k)) (qnext k)))
    by (rewrite Hh2 by done; apply lookup_insert_eq).
  cbn [mbind outcome_bind msgs]. eexists _, _. split; [reflexivity|]. split; [|done].
  split; [|done|done|done]. exists (pre ++ [out_chunk q; new]), i, 0%nat.
  cbn [cache in_chunk out_chunk in_pos out_pos option_list]. rewrite app_nil_r.
  split_and!; [| | | |done|done| |done].
  - apply (Hnew new kn); [done|done|apply lookup_insert_eq|by rewrite lookup_insert_ne|].
    intros c Hc'. assert (c <> out_chunk q).
    { intros ->. apply NoDup_app in Hnd as (_ & Hx & _). apply (Hx _ Hc'). by left. }
    rewrite lookup_insert_ne, Hh2 by set_solver. unfold h1. by rewrite lookup_insert_ne.
  - change [out_chunk q; new] with ([out_chunk q] ++ [new]). rewrite app_assoc. apply NoDup_app.
    split_and!; [done| |apply NoDup_singleton]. intros x Hx ->%list_elem_of_singleton. set_solver.
  - destruct pre; [|done]. done.
  - exists (pre ++ [out_chunk q]). by rewrite <-app_assoc.
  - intros c. rewrite lookup_insert_is_Some', Hd2. set_solver.
Qed.

Lemma drain_rep h q xs done' fuel :
  queue_rep h q xs -> (length xs < fuel)%nat ->
  exists h' q', drain fuel h q done' = Ret (h', q', done' ++ xs) /\ queue_rep h' q' [].
Proof.
  revert h q xs done'. induction fuel as [|fuel IH]; intros h q xs done' Hq Hf; [lia|]. cbn [drain].
  destruct xs as [|m xs].
  - rewrite recv_empty by done. cbn [mbind outcome_bind]. rewrite Z.eqb_refl, app_nil_r. by exists h, q.
  - destruct (recv_rep h q m xs Hq) as (h1 & q1 & -> & Hq1 & _). cbn [mbind outcome_bind].
    change (0 =? - EAGAIN) with false. cbn [check mbind outcome_bind Z.geb Z.compare].
    destruct (IH h1 q1 xs (done' ++ [m]) Hq1) as (h2 & q2 & -> & Hq2); [cbn in Hf; lia|].
    exists h2, q2. by rewrite <-app_assoc.
Qed.

(** The queue is terminated with everything in it. *)
Lemma term_rep h q xs : queue_rep h q xs -> nn_msgqueue_term h q = Ret (∅, xs).
Proof.
  intros Hq. unfold nn_msgqueue_term. pose proof Hq as [_ Hc _ _]. rewrite Hc, Nat2Z.id.
  destruct (drain_rep h q xs [] (S (length xs)) Hq) as (h' & q' & -> & Hq'); [lia|]. cbn [mbind outcome_bind app].
  destruct Hq' as [(cs & i & o & Hp & Hnd & Hhd & [pre Hlast] & _ & _ & Hdom & _) _ _ _].
  assert (Hcs : cs = [in_chunk q'] /\ in_chunk q' = out_chunk q').
  { destruct cs as [|c cs]; [done|]. injection Hhd as ->. destruct cs as [|c' cs].
    - destruct pre as [|p [|]]; try discriminate. injection Hlast as E. split; [done|exact E].
    - cbn [pieces] in Hp. destruct Hp as (k & _ & Hl & Hi & x1 & x2 & _ & Hx & Hd & _).
      symmetry in Hx. apply app_nil in Hx as [-> ->]. apply (f_equal length) in Hd.
      rewrite length_drop in Hd. cbn in Hd. lia. }
  destruct Hcs as [-> Hio]. rewrite bool_decide_eq_true_2 by done. cbn [check mbind outcome_bind].
  destruct (proj2 (Hdom (in_chunk q'))) as [k Hk]; [by left|]. load Hk.
  assert (Hgone : forall c, c ∉ option_list (cache q') -> delete (in_chunk q') h' !! c = None).
  { intros c Hc'. apply eq_None_not_Some. intros [Hne Hx%Hdom]%lookup_delete_is_Some.
    apply elem_of_app in Hx as [Hx%list_elem_of_singleton|]; [congruence|done]. }
  destruct (cache q') as [c|] eqn:Eca; cbn [option_list app] in *.
  - apply NoDup_cons in Hnd as [Hne _]. destruct (proj2 (Hdom c)) as [kc Hkc]; [right; by left|].
    rewrite (deref_Some _ c kc) by (rewrite lookup_delete_ne; [done|set_solver]). cbn [mbind outcome_bind].
    do 2 f_equal. apply map_eq. intros y. rewrite lookup_empty.
    destruct (decide (c = y)) as [->|]; [apply lookup_delete_eq|]. rewrite lookup_delete_ne by done.
    apply Hgone. set_solver.
  - do 2 f_equal. apply map_eq. intros y. rewrite lookup_empty. apply Hgone. set_solver.
Qed.

(** ** Histories *)

(** [QSend m n]: the allocator would return [n] for a new chunk. *)
Inductive mqop : Type := QSend (m : nn_msg) (n : loc) | QRecv.

Definition mqstep (h : qheap) (q : nn_msgqueue) (o : mqop)
    : outcome (qheap * nn_msgqueue * Z * option nn_msg) :=
  match o with
  | QSend m n => '(h, q, rc) ← nn_msgqueue_send h (Some n) q m; Ret (h, q, rc, None)
  | QRecv => nn_msgqueue_recv h q
  end.

Fixpoint mqrun (h : qheap) (q : nn_msgqueue) (os : list mqop)
    : outcome (qheap * nn_msgqueue * list (Z * option nn_msg)) :=
  match os with
  | [] => Ret (h, q, [])
  | o :: os =>
      '(h, q, rc, got) ← mqstep h q o;
      '(h, q, rest) ← mqrun h q os;
      Ret (h, q, (rc, got) :: rest)
  end.

(** The bounded FIFO queue. *)
Definition fifo_step (mm : Z) (xs : list nn_msg) (o : mqop) : list nn_msg * (Z * option nn_msg) :=
  match o with
  | QSend m _ => if full mm xs m then (xs, (- EAGAIN, None)) else (xs ++ [m], (0, None))
  | QRecv => match xs with [] => ([], (- EAGAIN, None)) | m :: xs => (xs, (0, Some m)) end
  end.

Fixpoint fifo_run (mm : Z) (xs : list nn_msg) (os : list mqop) : list nn_msg * list (Z * option nn_msg) :=
  match os with
  | [] => (xs, [])
  | o :: os =>
      let '(xs, r) := fifo_step mm xs o in
      let '(xs, rs) := fifo_run mm xs os in (xs, r :: rs)
  end.

(** The allocator returns free memory, and the counters, of type [size_t], do
    not overflow. *)
Fixpoint mq_legal (h : qheap) (q : nn_msgqueue) (xs : list nn_msg) (os : list mqop) : Prop :=
  match os with
  | [] => True
  | o :: os =>
      match o with
      | QSend m n => h !! n = None /\ Z.of_nat (S (length xs)) < 2 ^ 64 /\ total xs + msg_size m < 2 ^ 64
      | QRecv => True
      end /\
      match mqstep h q o with
      | Ret (h', q', _, _) => mq_legal h' q' (fst (fifo_step (maxmem q) xs o)) os
      | _ => True
      end
  end.

Lemma mqstep_rep h q xs o :
  queue_rep h q xs ->
  match o with
  | QSend m n => h !! n = None /\ Z.of_nat (S (length xs)) < 2 ^ 64 /\ total xs + msg_size m < 2 ^ 64
  | QRecv => True
  end ->
  exists h' q', mqstep h q o =
      Ret (h', q', (snd (fifo_step (maxmem q) xs o)).1, (snd (fifo_step (maxmem q) xs o)).2) /\
    queue_rep h' q' (fst (fifo_step (maxmem q) xs o)) /\ maxmem q' = maxmem q.
Proof.
  intros Hq Hl. destruct o as [m n|]; cbn [mqstep fifo_step].
  - destruct Hl as (Hn & Hlen & Htot). destruct (send_rep h q m xs n Hq Hn Hlen Htot) as (h' & q' & -> & Hq' & Hm).
    cbn [mbind outcome_bind]. exists h', q'. by destruct (full (maxmem q) xs m).
  - destruct xs as [|m xs].
    + rewrite recv_empty by done. by exists h, q.
    + by apply recv_rep.
Qed.

Lemma mqrun_rep h q xs os :
  queue_rep h q xs -> mq_legal h q xs os ->
  exists h' q', mqrun h q os = Ret (h', q', snd (fifo_run (maxmem q) xs os)) /\
    queue_rep h' q' (fst (fifo_run (maxmem q) xs os)).
Proof.
  revert h q xs. induction os as [|o os IH]; intros h q xs Hq; cbn [mqrun fifo_run mq_legal]; [by exists h, q|].
  intros [Ho Hrest]. destruct (mqstep_rep h q xs o Hq Ho) as (h1 & q1 & E & Hq1 & Hm). rewrite E in *.
  cbn [mbind outcome_bind]. destruct (IH h1 q1 _ Hq1 Hrest) as (h2 & q2 & -> & Hq2). cbn [mbind outcome_bind].
  rewrite Hm in *. exists h2, q2. destruct (fifo_step (maxmem q) xs o) as [xs1 [rc got]]. cbn [fst snd] in *.
  by destruct (fifo_run (maxmem q) xs1 os) as [xs2 rs].
Qed.

(** The message queue of an inproc session is a FIFO queue: every history
    of sends and receives returns the messages in the order they were sent,
    refuses a message with [-EAGAIN] exactly when the queue is not empty and its
    messages and the new one would together reach the limit, so that a message
    of any size passes through an empty queue, and never fails an assertion or
    follows a wild pointer.  Terminating the queue then terminates the messages
    left in it and frees every chunk. *)
Theorem msgqueue_refines_fifo (mm : Z) (n : loc) (os : list mqop) :
  exists h0 q0, nn_msgqueue_init ∅ (Some n) mm = Ret (h0, q0) /\
    (mq_legal h0 q0 [] os ->
     exists h q, mqrun h0 q0 os = Ret (h, q, snd (fifo_run mm [] os)) /\
       nn_msgqueue_term h q = Ret (∅, fst (fifo_run mm [] os))).
Proof.
  destruct (init_rep n mm) as (h0 & q0 & E & Hq & Hm). exists h0, q0. split; [done|]. intros Hl.
  destruct (mqrun_rep h0 q0 [] os Hq Hl) as (h & q & -> & Hq'). rewrite Hm in *. exists h, q.
  split; [done|]. by apply term_rep.
Qed.

(** A queue with a limit of ten bytes: the second message does not fit, and 130
    empty ones use a second chunk. *)
Definition two_chunks : list mqop :=
  QSend (Msg [] (replicate 20 1)) 2 :: QSend (Msg [] [1]) 2 :: QRecv ::
  ((fun i => QSend (Msg [] []) (Pos.of_nat (2 + i))) <$> seq 0 130) ++ replicate 128 QRecv.

Fixpoint mq_legalb (h : qheap) (q : nn_msgqueue) (xs : list nn_msg) (os : list mqop) : bool :=
  match os with
  | [] => true
  | o :: os =>
      match o with
      | QSend m n => bool_decide (h !! n = None) && (Z.of_nat (S (length xs)) <? 2 ^ 64) &&
                     (total xs + msg_size m <? 2 ^ 64)
      | QRecv => true
      end &&
      match mqstep h q o with
      | Ret (h', q', _, _) => mq_legalb h' q' (fst (fifo_step (maxmem q) xs o)) os
      | _ => true
      end
  end.

Lemma mq_legalb_ok h q xs os : mq_legalb h q xs os = true -> mq_legal h q xs os.
Proof.
  revert h q xs. induction os as [|o os IH]; intros h q xs; cbn [mq_legalb mq_legal]; [done|].
  intros [Ho Hr]%andb_true_iff. split.
  - destruct o as [m n|]; [|done]. rewrite !andb_true_iff, bool_decide_eq_true, !Z.ltb_lt in Ho. tauto.
  - destruct (mqstep h q o) as [[[[h' q'] rc] got]| | |]; auto.
Qed.

Lemma msgqueue_refines_fifo_witness :
  exists h0 q0 h q rs, nn_msgqueue_init ∅ (Some 1%positive) 10 = Ret (h0, q0) /\
    mqrun h0 q0 two_chunks = Ret (h, q, rs) /\ take 3 rs = [(0, None); (- EAGAIN, None); (0, Some (Msg [] (replicate 20 1)))] /\
    nn_msgqueue_term h q = Ret (∅, replicate 2 (Msg [] [])).
Proof.
  destruct (msgqueue_refines_fifo 10 1 two_chunks) as (h0 & q0 & E & H).
  destruct H as (h & q & Hrun & Hterm).
  - injection E as <- <-. apply mq_legalb_ok. by vm_compute.
  - exists h0, q0, h, q, (snd (fifo_run 10 [] two_chunks)). split_and!; [done|done|by vm_compute|].
    rewrite Hterm. by vm_compute.
Defined.
