(* ===== verification/Sha1.v ===== *)
(** * Sha1: the hash of the WebSocket handshake (src/transports/ws/sha1.c)

    [nn_sha1_hashbyte] takes a message byte by byte; when 64 bytes are there the
    block is mixed into the state, in a buffer of sixteen words that is both the
    block and a window of the message schedule.  The bytes are written into the
    words through a byte pointer, so that the code depends on the byte order of
    the machine: the flag [is_little_endian].

    [sha1_correct] compares it with the definition of FIPS 180-4, where the
    padded message is cut into blocks, each is expanded to eighty words and
    compressed. *)

From stdpp Require Import base list.
From Stdlib Require Import ZArith Lia ZifyNat.
From S2P Require Import Prelude.

Open Scope Z_scope.

Definition SHA1_BLOCK_LEN : Z := 64.

Record nn_sha1 : Type := Sha1 {
  buffer : list Z; state : list Z; bytes_hashed : Z; buffer_offset : Z; is_little_endian : bool
}.

(** [sha1_rol32], on [uint32_t]. *)
Definition sha1_rol32 (num bits : Z) : Z := Z.lor (u32 (Z.shiftl num bits)) (Z.shiftr num (32 - bits)).

(** The buffer is not initialised; it holds [junk]. *)
Definition nn_sha1_init (le : bool) (junk : list Z) : nn_sha1 :=
  Sha1 junk [0x67452301; 0xefcdab89; 0x98badcfe; 0x10325476; 0xc3d2e1f0] 0 0 le.

(** The byte at memory address [i] of an array of words. *)
Definition byte_shift (le : bool) (i : Z) : Z := if le then 8 * (i mod 4) else 24 - 8 * (i mod 4).

Definition store_byte (le : bool) (ws : list Z) (i : Z) (b : Z) : outcome (list Z) :=
  w ← nth_c ws (i / 4);
  let sh := byte_shift le i in
  upd_c ws (i / 4) (Z.lor (Z.land w (Z.lxor (2 ^ 32 - 1) (Z.shiftl 255 sh))) (Z.shiftl b sh)).

Definition load_byte (le : bool) (ws : list Z) (i : Z) : outcome Z :=
  w ← nth_c ws (i / 4);
  Ret (Z.land (Z.shiftr w (byte_shift le i)) 255).

(** The working variables [a] to [e]. *)
Definition vars : Type := Z * Z * Z * Z * Z.

(** [~x] does not occur in the code; the functions are those of the rounds. *)
Definition mix (i : Z) (b c d : Z) : Z :=
  if i <? 20 then u32 (Z.lxor d (Z.land b (Z.lxor c d)) + 0x5A827999)
  else if i <? 40 then u32 (Z.lxor (Z.lxor b c) d + 0x6ED9EBA1)
  else if i <? 60 then u32 (Z.lor (Z.land b c) (Z.land d (Z.lor b c)) + 0x8F1BBCDC)
  else u32 (Z.lxor (Z.lxor b c) d + 0xCA62C1D6).

(** One round; [i] counts up, [n] is the number of rounds left. *)
Fixpoint rounds (n : nat) (i : Z) (buf : list Z) (v : vars) : outcome (list Z * vars) :=
  match n with
  | O => Ret (buf, v)
  | S n =>
      buf ← (if i >=? 16 then
               x13 ← nth_c buf (Z.land (i + 13) 15);
               x8 ← nth_c buf (Z.land (i + 8) 15);
               x2 ← nth_c buf (Z.land (i + 2) 15);
               x0 ← nth_c buf (Z.land i 15);
               upd_c buf (Z.land i 15) (sha1_rol32 (Z.lxor (Z.lxor (Z.lxor x13 x8) x2) x0) 1)
             else Ret buf);
      let '(a, b, c, d, e) := v in
      w ← nth_c buf (Z.land i 15);
      let t := u32 (mix i b c d + u32 (u32 (sha1_rol32 a 5 + e) + w)) in
      rounds n (i + 1) buf (t, a, sha1_rol32 b 30, c, d)
  end.

(** The state with the working variables added. *)
Definition add_vars (st : list Z) (v : vars) : outcome (list Z) :=
  let '(a, b, c, d, e) := v in
  match st with
  | [s0; s1; s2; s3; s4] => Ret [u32 (s0 + a); u32 (s1 + b); u32 (s2 + c); u32 (s3 + d); u32 (s4 + e)]
  | _ => Undef
  end.

Definition process_block (self : nn_sha1) : outcome nn_sha1 :=
  match state self with
  | [s0; s1; s2; s3; s4] =>
      '(buf, v) ← rounds 80 0 (buffer self) (s0, s1, s2, s3, s4);
      st ← add_vars (state self) v;
      Ret (Sha1 buf st (bytes_hashed self) 0 (is_little_endian self))
  | _ => Undef
  end.

Definition nn_sha1_add (self : nn_sha1) (data : Z) : outcome nn_sha1 :=
  let i := if is_little_endian self then Z.lxor (buffer_offset self) 3 else buffer_offset self in
  buf ← store_byte (is_little_endian self) (buffer self) i (u8 data);
  let self := Sha1 buf (state self) (bytes_hashed self) (u8 (buffer_offset self + 1)) (is_little_endian self) in
  if buffer_offset self =? SHA1_BLOCK_LEN then process_block self else Ret self.

Definition nn_sha1_hashbyte (self : nn_sha1) (data : Z) : outcome nn_sha1 :=
  nn_sha1_add (Sha1 (buffer self) (state self) (u32 (bytes_hashed self + 1)) (buffer_offset self) (is_little_endian self)) data.

(** [nn_sha1_add] of every byte. *)
Fixpoint add_all (self : nn_sha1) (ds : list Z) : outcome nn_sha1 :=
  match ds with
  | [] => Ret self
  | d :: ds => self ← nn_sha1_add self d; add_all self ds
  end.

(** The loop that pads with zeros. *)
Fixpoint pad_zeros (fuel : nat) (self : nn_sha1) : outcome nn_sha1 :=
  if buffer_offset self =? 56 then Ret self else
  match fuel with
  | O => NoFuel
  | S fuel => self ← nn_sha1_add self 0; pad_zeros fuel self
  end.

Definition swap_word (w : Z) : Z :=
  Z.lor (Z.lor (Z.lor (Z.land (u32 (Z.shiftl w 24)) 0xFF000000) (Z.land (u32 (Z.shiftl w 8)) 0x00FF0000))
    (Z.land (Z.shiftr w 8) 0x0000FF00)) (Z.land (Z.shiftr w 24) 0x000000FF).

(** The memory of the state, byte after byte. *)
Fixpoint load_bytes (le : bool) (ws : list Z) (is_ : list Z) : outcome (list Z) :=
  match is_ with
  | [] => Ret []
  | i :: is_ => b ← load_byte le ws i; bs ← load_bytes le ws is_; Ret (b :: bs)
  end.

Definition nn_sha1_result (self : nn_sha1) : outcome (list Z) :=
  self ← nn_sha1_add self 0x80;
  self ← pad_zeros 64 self;
  let n := bytes_hashed self in
  self ← add_all self [0; 0; 0; Z.shiftr n 29; Z.shiftr n 21; Z.shiftr n 13; Z.shiftr n 5; u32 (Z.shiftl n 3)];
  let st := if is_little_endian self then swap_word <$> state self else state self in
  load_bytes (is_little_endian self) st (Z.of_nat <$> seq 0 20).

(** The hash of a string: [nn_sha1_init], a byte at a time, the result. *)
Fixpoint hash_bytes (self : nn_sha1) (ds : list Z) : outcome nn_sha1 :=
  match ds with
  | [] => Ret self
  | d :: ds => self ← nn_sha1_hashbyte self d; hash_bytes self ds
  end.

Definition sha1 (le : bool) (junk ds : list Z) : outcome (list Z) :=
  self ← hash_bytes (nn_sha1_init le junk) ds;
  nn_sha1_result self.

(** The three letters of FIPS 180. *)
Example sha1_abc : sha1 true (replicate 16 7) [0x61; 0x62; 0x63] =
  Ret [0xa9; 0x99; 0x3e; 0x36; 0x47; 0x06; 0x81; 0x6a; 0xba; 0x3e; 0x25; 0x71; 0x78; 0x50; 0xc2; 0x6c; 0x9c; 0xd0; 0xd8; 0x9d].
Proof. vm_compute. reflexivity. Qed.

Example sha1_big_endian : sha1 false (replicate 16 7) (replicate 70 5) = sha1 true (replicate 16 9) (replicate 70 5).
Proof. vm_compute. reflexivity. Qed.

(** ** FIPS 180-4 *)

Module Fips.

Definition rotl (n x : Z) : Z := Z.lor (u32 (Z.shiftl x n)) (Z.shiftr x (32 - n)).

Definition Ch (x y z : Z) : Z := Z.lxor (Z.land x y) (Z.ldiff z x).
Definition Parity (x y z : Z) : Z := Z.lxor (Z.lxor x y) z.
Definition Maj (x y z : Z) : Z := Z.lxor (Z.lxor (Z.land x y) (Z.land x z)) (Z.land y z).

Definition f (t : nat) : Z -> Z -> Z -> Z :=
  if decide (t < 20)%nat then Ch else if decide (t < 40)%nat then Parity
  else if decide (t < 60)%nat then Maj else Parity.

Definition K (t : nat) : Z :=
  if decide (t < 20)%nat then 0x5A827999 else if decide (t < 40)%nat then 0x6ED9EBA1
  else if decide (t < 60)%nat then 0x8F1BBCDC else 0xCA62C1D6.

(** The message schedule, extended by [n] words. *)
Fixpoint schedule (n : nat) (W : list Z) : list Z :=
  match n with
  | O => W
  | S n =>
      let t := length W in
      let w i := nth (t - i) W 0 in
      schedule n (W ++ [rotl 1 (Z.lxor (Z.lxor (Z.lxor (w 3%nat) (w 8%nat)) (w 14%nat)) (w 16%nat))])
  end.

Fixpoint compress (n t : nat) (W : list Z) (v : vars) : vars :=
  match n with
  | O => v
  | S n =>
      let '(a, b, c, d, e) := v in
      let T := (rotl 5 a + f t b c d + e + K t + nth t W 0) mod 2 ^ 32 in
      compress n (S t) W (T, a, rotl 30 b, c, d)
  end.

Definition add_state (H v : vars) : vars :=
  let '(a, b, c, d, e) := v in
  let '(h0, h1, h2, h3, h4) := H in
  ((h0 + a) mod 2 ^ 32, (h1 + b) mod 2 ^ 32, (h2 + c) mod 2 ^ 32, (h3 + d) mod 2 ^ 32, (h4 + e) mod 2 ^ 32).

Definition block (H : vars) (M : list Z) : vars := add_state H (compress 80 0 (schedule 64 M) H).

(** Big-endian words of a string of bytes. *)
Fixpoint words (bs : list Z) : list Z :=
  match bs with
  | b0 :: b1 :: b2 :: b3 :: bs => b0 * 2 ^ 24 + b1 * 2 ^ 16 + b2 * 2 ^ 8 + b3 :: words bs
  | _ => []
  end.

Fixpoint blocks (n : nat) (H : vars) (msg : list Z) : vars :=
  match n with
  | O => H
  | S n => blocks n (block H (words (take 64 msg))) (drop 64 msg)
  end.

Definition be64 (n : Z) : list Z := (fun i => (n / 2 ^ i) mod 256) <$> [56; 48; 40; 32; 24; 16; 8; 0].

(** A one bit, zeros up to 448 modulo 512 bits, and the number of bits. *)
Definition pad (msg : list Z) : list Z :=
  msg ++ 0x80 :: replicate (Z.to_nat ((55 - Z.of_nat (length msg)) mod 64)) 0 ++ be64 (8 * Z.of_nat (length msg)).

Definition H0 : vars := (0x67452301, 0xefcdab89, 0x98badcfe, 0x10325476, 0xc3d2e1f0).

Definition digest (H : vars) : list Z :=
  let '(h0, h1, h2, h3, h4) := H in
  h ← [h0; h1; h2; h3; h4]; (fun i => (h / 2 ^ i) mod 256) <$> [24; 16; 8; 0].

Definition sha1 (msg : list Z) : list Z :=
  digest (blocks (Nat.div (length (pad msg)) 64) H0 (pad msg)).

End Fips.

(** ** The compression *)

Definition is_word (w : Z) : Prop := 0 <= w < 2 ^ 32.

Lemma mix_eq t b c d : mix (Z.of_nat t) b c d = u32 (Fips.f t b c d + Fips.K t).
Proof.
  assert (Hch : Z.lxor d (Z.land b (Z.lxor c d)) = Fips.Ch b c d).
  { apply Z.bits_inj'. intros n _. unfold Fips.Ch. rewrite !Z.lxor_spec, !Z.land_spec, Z.lxor_spec, Z.ldiff_spec.
    by destruct (Z.testbit b n), (Z.testbit c n), (Z.testbit d n). }
  assert (Hmaj : Z.lor (Z.land b c) (Z.land d (Z.lor b c)) = Fips.Maj b c d).
  { apply Z.bits_inj'. intros n _. unfold Fips.Maj. rewrite !Z.lxor_spec, Z.lor_spec, !Z.land_spec, Z.lor_spec.
    by destruct (Z.testbit b n), (Z.testbit c n), (Z.testbit d n). }
  unfold mix, Fips.f, Fips.K. rewrite Hch, Hmaj.
  destruct (Z.ltb_spec (Z.of_nat t) 20), (Z.ltb_spec (Z.of_nat t) 40), (Z.ltb_spec (Z.of_nat t) 60); try lia;
    repeat case_decide; try lia; reflexivity.
Qed.

Lemma round_sum t a b c d e w :
  u32 (mix (Z.of_nat t) b c d + u32 (u32 (sha1_rol32 a 5 + e) + w)) =
  (Fips.rotl 5 a + Fips.f t b c d + e + Fips.K t + w) mod 2 ^ 32.
Proof.
  rewrite mix_eq. unfold u32. rewrite Zplus_mod_idemp_l, Zplus_mod_idemp_r, Z.add_assoc.
  rewrite (Z.add_comm _ w), Z.add_assoc, Zplus_mod_idemp_r. f_equal. change (sha1_rol32 a 5) with (Fips.rotl 5 a). lia.
Qed.

Lemma schedule_prefix n W : exists W', Fips.schedule n W = W ++ W'.
Proof.
  revert W. induction n as [|n IH]; intros W; cbn; [exists []; by rewrite app_nil_r|].
  destruct (IH (W ++ [Fips.rotl 1 (Z.lxor (Z.lxor (Z.lxor (nth (length W - 3) W 0) (nth (length W - 8) W 0))
    (nth (length W - 14) W 0)) (nth (length W - 16) W 0))])) as [W' ->].
  eexists. by rewrite <-app_assoc.
Qed.

Lemma schedule_length n W : length (Fips.schedule n W) = (n + length W)%nat.
Proof. revert W. induction n as [|n IH]; intros W; cbn; [done|]. rewrite IH, length_app. cbn. lia. Qed.

(** Every word after the sixteenth is made of the words before it. *)
Lemma schedule_nth n M t :
  length M = 16%nat -> (16 <= t < n + 16)%nat ->
  let W := Fips.schedule n M in
  nth t W 0 = Fips.rotl 1 (Z.lxor (Z.lxor (Z.lxor (nth (t - 3) W 0) (nth (t - 8) W 0)) (nth (t - 14) W 0)) (nth (t - 16) W 0)).
Proof.
  intros HM. assert (Hgen : forall n W, (16 <= length W)%nat ->
    (forall t, (16 <= t < length W)%nat -> nth t W 0 = Fips.rotl 1 (Z.lxor (Z.lxor (Z.lxor (nth (t - 3) W 0)
      (nth (t - 8) W 0)) (nth (t - 14) W 0)) (nth (t - 16) W 0))) ->
    forall t, (16 <= t < n + length W)%nat -> nth t (Fips.schedule n W) 0 = Fips.rotl 1 (Z.lxor (Z.lxor (Z.lxor
      (nth (t - 3) (Fips.schedule n W) 0) (nth (t - 8) (Fips.schedule n W) 0)) (nth (t - 14) (Fips.schedule n W) 0))
      (nth (t - 16) (Fips.schedule n W) 0))).
  { clear n t. intros n. induction n as [|n IH]; intros W Hlen HW t Ht; [by apply HW|]. cbn.
    apply IH; rewrite ?length_app; cbn [length]; [lia| |lia]. clear t Ht. intros t Ht.
    destruct (decide (t = length W)) as [->|].
    - rewrite (app_nth2 _ _ 0 (n := length W)) by lia. rewrite Nat.sub_diag. cbn [nth].
      rewrite !app_nth1 by lia. done.
    - rewrite !app_nth1 by lia. apply HW. lia. }
  intros Ht. cbn. apply Hgen; rewrite ?HM; lia.
Qed.

(** The buffer as a window of the schedule. *)
Definition window (W buf : list Z) (i : nat) : Prop :=
  length buf = 16%nat /\
  forall j, (Nat.max i 16 - 16 <= j < Nat.max i 16)%nat -> buf !! (j mod 16)%nat = Some (nth j W 0).

Lemma land15 (z : Z) : Z.land z 15 = z mod 16.
Proof. change 15 with (Z.ones 4). by rewrite Z.land_ones by lia. Qed.

Lemma window_read W buf i j :
  window W buf i -> (Nat.max i 16 - 16 <= j < Nat.max i 16)%nat ->
  forall z : Z, z = Z.of_nat j \/ z = Z.of_nat j + 1 * 16 -> nth_c buf (Z.land z 15) = Ret (nth j W 0).
Proof.
  intros [_ Hw] Hj z Hz. rewrite land15.
  replace (z mod 16) with (Z.of_nat j mod 16) by (destruct Hz as [->| ->]; [|rewrite Z_mod_plus_full]; done). change 16 with (Z.of_nat 16). rewrite <-Nat2Z.inj_mod.
  apply nth_c_Some, Hw, Hj.
Qed.

Lemma window_write W buf i :
  window W buf i -> (16 <= i)%nat ->
  exists buf', upd_c buf (Z.land (Z.of_nat i) 15) (nth i W 0) = Ret buf' /\ window W buf' (S i).
Proof.
  intros [Hl Hw] Hi. rewrite land15. change 16 with (Z.of_nat 16). rewrite <-Nat2Z.inj_mod.
  assert (Hm : (i mod 16 < 16)%nat) by (apply Nat.mod_upper_bound; lia).
  rewrite upd_c_nat by lia. eexists. split; [done|]. split; [by rewrite length_insert|]. intros j Hj.
  destruct (decide (j = i)) as [->|Hne]; [by rewrite list_lookup_insert_eq by lia|].
  rewrite list_lookup_insert_ne; [apply Hw; lia|]. intros E.
  assert (Hd : (exists k, i = j + 16 * k)%nat).
  { exists (i / 16 - j / 16)%nat. pose proof (Nat.div_mod_eq i 16). pose proof (Nat.div_mod_eq j 16). nia. }
  destruct Hd as [k Hk]. destruct k; lia.
Qed.

Lemma rounds_ok (M : list Z) n i buf v :
  length M = 16%nat -> (n + i = 80)%nat -> window (Fips.schedule 64 M) buf i ->
  exists buf', rounds n (Z.of_nat i) buf v = Ret (buf', Fips.compress n i (Fips.schedule 64 M) v) /\ length buf' = 16%nat.
Proof.
  intros HM. pose proof (fun t => schedule_nth 64 M t HM) as HW. cbv zeta in HW.
  revert i buf v. generalize dependent (Fips.schedule 64 M). intros W HW. induction n as [|n IH]; intros i buf v Hn Hw.
  { exists buf. split; [done|apply Hw]. }
  cbn [rounds Fips.compress].
  assert (Hstep : exists buf1, (if Z.of_nat i >=? 16 then
               x13 ← nth_c buf (Z.land (Z.of_nat i + 13) 15);
               x8 ← nth_c buf (Z.land (Z.of_nat i + 8) 15);
               x2 ← nth_c buf (Z.land (Z.of_nat i + 2) 15);
               x0 ← nth_c buf (Z.land (Z.of_nat i) 15);
               upd_c buf (Z.land (Z.of_nat i) 15) (sha1_rol32 (Z.lxor (Z.lxor (Z.lxor x13 x8) x2) x0) 1)
             else Ret buf) = Ret buf1 /\ window W buf1 (S i) /\ nth_c buf1 (Z.land (Z.of_nat i) 15) = Ret (nth i W 0)).
  { rewrite Z.geb_leb. destruct (Z.leb_spec 16 (Z.of_nat i)).
    - rewrite (window_read W buf i (i - 3) Hw ltac:(lia) (Z.of_nat i + 13)) by lia.
      rewrite (window_read W buf i (i - 8) Hw ltac:(lia) (Z.of_nat i + 8)) by lia.
      rewrite (window_read W buf i (i - 14) Hw ltac:(lia) (Z.of_nat i + 2)) by lia.
      rewrite (window_read W buf i (i - 16) Hw ltac:(lia) (Z.of_nat i)) by lia.
      cbn [mbind outcome_bind].
      change (sha1_rol32 ?x 1) with (Fips.rotl 1 x). rewrite <-(HW i) by lia.
      destruct (window_write W buf i Hw ltac:(lia)) as (buf1 & -> & Hw1). exists buf1. split_and!; [done..|].
      apply (window_read W buf1 (S i) i Hw1); [lia|by left].
    - exists buf. split_and!; [done| |apply (window_read W buf i i Hw); [lia|by left]].
      destruct Hw as [Hl Hw]. split; [done|]. intros j Hj. apply Hw. lia. }
  destruct Hstep as (buf1 & -> & Hw1 & Hx). cbn [mbind outcome_bind]. destruct v as [[[[a b] c] d] e].
  rewrite Hx. cbn [mbind outcome_bind]. rewrite round_sum.
  replace (Z.of_nat i + 1) with (Z.of_nat (S i)) by lia. change (sha1_rol32 b 30) with (Fips.rotl 30 b).
  apply IH; [lia|done].
Qed.

(** The buffer stays made of words. *)
Lemma is_word_land w : is_word w <-> Z.land w (2 ^ 32 - 1) = w.
Proof.
  change (2 ^ 32 - 1) with (Z.ones 32). rewrite Z.land_ones by lia. unfold is_word.
  split; [intros; by apply Z.mod_small|intros <-; apply Z.mod_pos_bound; lia].
Qed.

Lemma lor_word a b : is_word a -> is_word b -> is_word (Z.lor a b).
Proof. rewrite !is_word_land. intros Ha Hb. by rewrite Z.land_lor_distr_l, Ha, Hb. Qed.

Lemma land_word a b : is_word a -> is_word (Z.land a b).
Proof. rewrite !is_word_land. intros Ha. by rewrite <-Z.land_assoc, (Z.land_comm b), Z.land_assoc, Ha. Qed.

Lemma lxor_word a b : is_word a -> is_word b -> is_word (Z.lxor a b).
Proof.
  rewrite !is_word_land. intros Ha Hb. rewrite <-Ha, <-Hb at 2. apply Z.bits_inj'. intros n _.
  rewrite Z.land_spec, !Z.lxor_spec, !Z.land_spec.
  by destruct (Z.testbit a n), (Z.testbit b n), (Z.testbit (2 ^ 32 - 1) n).
Qed.

Lemma shiftr_word w n : 0 <= n -> is_word w -> is_word (Z.shiftr w n).
Proof.
  intros Hn [H1 H2]. rewrite Z.shiftr_div_pow2 by done. split; [apply Z.div_pos; lia|].
  apply Z.le_lt_trans with w; [|done]. apply Z.div_le_upper_bound; [lia|]. nia.
Qed.

Lemma rol_word x : is_word x -> is_word (sha1_rol32 x 1).
Proof. intros H. apply lor_word; [apply u32_range|by apply shiftr_word]. Qed.

Lemma nth_c_Forall {A} (P : A -> Prop) l i a : Forall P l -> nth_c l i = Ret a -> P a.
Proof. intros Hl [_ H]%nth_c_Ret. by eapply Forall_lookup_1. Qed.

Lemma upd_c_Forall {A} (P : A -> Prop) l i a l' : Forall P l -> P a -> upd_c l i a = Ret l' -> Forall P l'.
Proof. unfold upd_c. case_match; [|done]. intros Hl Ha [= <-]. by apply Forall_insert. Qed.

Lemma rounds_words n i buf v buf' v' :
  rounds n i buf v = Ret (buf', v') -> Forall is_word buf -> Forall is_word buf'.
Proof.
  revert i buf v. induction n as [|n IH]; intros i buf v; cbn [rounds].
  { by intros [= <- <-]. }
  intros (buf1 & H1 & H)%bind_Ret Hb. destruct v as [[[[a b] c] d] e].
  apply bind_Ret in H as (w & _ & H). apply (IH _ _ _ H). clear IH H w.
  destruct (i >=? 16); [|by injection H1 as <-]. inv_ret.
  eapply upd_c_Forall; [done| |done].
  apply rol_word. repeat apply lxor_word; eapply nth_c_Forall; done.
Qed.

Definition st_list (H : vars) : list Z := let '(a, b, c, d, e) := H in [a; b; c; d; e].

Lemma window_start M W' buf : buf = M -> length M = 16%nat -> window (M ++ W') buf 0.
Proof.
  intros -> Hl. split; [done|]. intros j Hj. cbn in Hj. rewrite Nat.mod_small, app_nth1 by lia.
  destruct (nth_lookup_or_length M j 0) as [->|]; [done|lia].
Qed.

(** The rounds of the code against those of the standard, for a block. *)
Lemma all_rounds M v :
  length M = 16%nat -> Forall is_word M ->
  exists buf', rounds 80 0 M v = Ret (buf', Fips.compress 80 0 (Fips.schedule 64 M) v) /\
    length buf' = 16%nat /\ Forall is_word buf'.
Proof.
  intros Hl Hb. destruct (schedule_prefix 64 M) as [W' HW].
  destruct (rounds_ok M 80 0 M v Hl eq_refl) as (buf' & E & Hl').
  { rewrite HW. by apply window_start. }
  exists buf'. split; [exact E|]. split; [exact Hl'|]. exact (rounds_words _ _ _ _ _ _ E Hb).
Qed.

Lemma add_vars_ok H v : add_vars (st_list H) v = Ret (st_list (Fips.add_state H v)).
Proof. by destruct H as [[[[? ?] ?] ?] ?], v as [[[[? ?] ?] ?] ?]. Qed.

Lemma process_block_ok self H :
  state self = st_list H -> length (buffer self) = 16%nat -> Forall is_word (buffer self) ->
  exists buf', process_block self =
      Ret (Sha1 buf' (st_list (Fips.block H (buffer self))) (bytes_hashed self) 0 (is_little_endian self)) /\
    length buf' = 16%nat /\ Forall is_word buf'.
Proof.
  intros HH Hl Hb. destruct (all_rounds (buffer self) H Hl Hb) as (buf' & E & Hl' & Hb').
  exists buf'. split; [|done]. unfold process_block. rewrite HH.
  unfold Fips.block.
  generalize dependent (Fips.compress 80 0 (Fips.schedule 64 (buffer self)) H). intros v E.
  assert (Ht : forall t, t = rounds 80 0 (buffer self) H ->
    ('(buf, v) ← t; st ← add_vars (st_list H) v;
     Ret (Sha1 buf st (bytes_hashed self) 0 (is_little_endian self))) =
    Ret (Sha1 buf' (st_list (Fips.add_state H v)) (bytes_hashed self) 0 (is_little_endian self))).
  { intros t ->. rewrite E. cbn [mbind outcome_bind]. by rewrite add_vars_ok. }
  rewrite <-(Ht _ eq_refl). by destruct H as [[[[? ?] ?] ?] ?].
Qed.

(** ** The bytes of the block *)

(** The byte of a word at a shift. *)
Definition byte_at (w sh : Z) : Z := (w / 2 ^ sh) mod 256.

Lemma land_byte w sh : 0 <= sh -> Z.land (Z.shiftr w sh) 255 = byte_at w sh.
Proof. intros. change 255 with (Z.ones 8). by rewrite Z.land_ones, Z.shiftr_div_pow2 by lia. Qed.

Definition set_byte (w sh b : Z) : Z := Z.lor (Z.land w (Z.lxor (2 ^ 32 - 1) (Z.shiftl 255 sh))) (Z.shiftl b sh).

Lemma byte_testbit b n : is_byte b -> 8 <= n \/ n < 0 -> Z.testbit b n = false.
Proof.
  intros Hb [Hn|Hn]; [|by apply Z.testbit_neg_r].
  rewrite <-(Z.mod_small b (2 ^ 8)) by apply Hb. apply Z.mod_pow2_bits_high. lia.
Qed.

Lemma byte_at_ext w w' sh sh' :
  0 <= sh -> 0 <= sh' -> (forall n, 0 <= n < 8 -> Z.testbit w (n + sh) = Z.testbit w' (n + sh')) -> byte_at w sh = byte_at w' sh'.
Proof.
  intros Hs Hs' Hn. unfold byte_at. rewrite <-!Z.shiftr_div_pow2 by done. change 256 with (2 ^ 8).
  apply Z.bits_inj'. intros n Hn0. destruct (Z.ltb_spec n 8).
  - rewrite !Z.mod_pow2_bits_low, !Z.shiftr_spec by lia. apply Hn. lia.
  - by rewrite !Z.mod_pow2_bits_high by lia.
Qed.

Lemma byte_at_byte b : is_byte b -> byte_at b 0 = b.
Proof. intros. unfold byte_at. rewrite Z.div_1_r. by apply Z.mod_small. Qed.

Lemma set_byte_same w sh b : is_byte b -> 0 <= sh <= 24 -> byte_at (set_byte w sh b) sh = b.
Proof.
  intros Hb Hs. rewrite <-(byte_at_byte b Hb) at 2. apply byte_at_ext; [lia..|]. intros n Hn.
  unfold set_byte. change (2 ^ 32 - 1) with (Z.ones 32). change 255 with (Z.ones 8).
  rewrite Z.lor_spec, Z.land_spec, Z.lxor_spec, !Z.shiftl_spec, !Z.testbit_ones by lia.
  rewrite (proj2 (Z.leb_le 0 (n + sh))), (proj2 (Z.ltb_lt (n + sh) 32)) by lia.
  rewrite (proj2 (Z.leb_le 0 (n + sh - sh))), (proj2 (Z.ltb_lt (n + sh - sh) 8)) by lia. cbn.
  rewrite andb_false_r. cbn. f_equal. lia.
Qed.

Lemma set_byte_other w sh sh' b :
  is_byte b -> 0 <= sh -> 0 <= sh' <= 24 -> sh' + 8 <= sh \/ sh + 8 <= sh' ->
  byte_at (set_byte w sh b) sh' = byte_at w sh'.
Proof.
  intros Hb Hs Hs' Hd. apply byte_at_ext; [lia..|]. intros n Hn.
  unfold set_byte. change (2 ^ 32 - 1) with (Z.ones 32). change 255 with (Z.ones 8).
  rewrite Z.lor_spec, Z.land_spec, Z.lxor_spec, !Z.shiftl_spec, Z.testbit_ones by lia.
  rewrite (byte_testbit b), (byte_testbit (Z.ones 8)) by (try done; lia).
  rewrite (proj2 (Z.leb_le 0 (n + sh'))), (proj2 (Z.ltb_lt (n + sh') 32)) by lia. cbn.
  by rewrite andb_true_r, orb_false_r.
Qed.

Lemma set_byte_word w sh b : is_word w -> is_byte b -> 0 <= sh <= 24 -> is_word (set_byte w sh b).
Proof.
  intros Hw Hb Hs. apply lor_word; [by apply land_word|]. rewrite Z.shiftl_mul_pow2 by lia.
  assert (2 ^ sh <= 2 ^ 24) by (apply Z.pow_le_mono_r; lia). unfold is_byte in Hb. unfold is_word.
  assert (0 < 2 ^ sh) by (apply Z.pow_pos_nonneg; lia). nia.
Qed.

(** The place of byte [k] of the block: through the byte pointer, on machines
    of either byte order, it is the same byte of the same word. *)
Definition address (le : bool) (k : Z) : Z := if le then Z.lxor k 3 else k.

Lemma address_ok le (k : nat) :
  (k < 64)%nat ->
  address le (Z.of_nat k) / 4 = Z.of_nat (k / 4) /\ byte_shift le (address le (Z.of_nat k)) = 24 - 8 * Z.of_nat (k mod 4).
Proof.
  intros Hk. pose proof (proj1 (forallb_forall (fun k => (address le (Z.of_nat k) / 4 =? Z.of_nat (k / 4)) &&
    (byte_shift le (address le (Z.of_nat k)) =? 24 - 8 * Z.of_nat (k mod 4)))%bool (List.seq 0 64))) as H.
  specialize (H ltac:(destruct le; vm_compute; reflexivity) k ltac:(apply in_seq; lia)).
  apply andb_prop in H as [H1%Z.eqb_eq H2%Z.eqb_eq]. done.
Qed.

(** Byte [p] of an array of words, the most significant first. *)
Definition byte_of (ws : list Z) (p : nat) : option Z :=
  (fun w => byte_at w (24 - 8 * Z.of_nat (p mod 4))) <$> ws !! (p / 4)%nat.

Lemma shift_range (p : nat) : 0 <= 24 - 8 * Z.of_nat (p mod 4) <= 24.
Proof. pose proof (Nat.mod_upper_bound p 4). lia. Qed.

Lemma store_byte_ok le ws (k : nat) b :
  length ws = 16%nat -> Forall is_word ws -> (k < 64)%nat -> is_byte b ->
  exists ws', store_byte le ws (address le (Z.of_nat k)) b = Ret ws' /\ length ws' = 16%nat /\ Forall is_word ws' /\
    byte_of ws' k = Some b /\ forall p, (p < 64)%nat -> p <> k -> byte_of ws' p = byte_of ws p.
Proof.
  intros Hl Hw Hk Hb. destruct (address_ok le k Hk) as [E1 E2]. unfold store_byte. rewrite E1, E2.
  assert (Hk4 : (k / 4 < 16)%nat) by (apply Nat.Div0.div_lt_upper_bound; lia).
  destruct (lookup_lt_is_Some_2 ws (k / 4)%nat ltac:(lia)) as [w Ew].
  rewrite (nth_c_Some _ _ _ Ew). cbn [mbind outcome_bind]. rewrite upd_c_nat by lia.
  fold (set_byte w (24 - 8 * Z.of_nat (k mod 4)) b). pose proof (shift_range k).
  eexists. split; [done|]. rewrite length_insert. split; [done|]. split; [|split].
  - apply Forall_insert; [done|]. apply set_byte_word; [by eapply Forall_lookup_1|done|lia].
  - unfold byte_of. rewrite list_lookup_insert_eq by lia. cbn. by rewrite set_byte_same by (done || lia).
  - intros p Hp Hne. unfold byte_of. destruct (decide (p / 4 = k / 4)%nat) as [E|].
    + rewrite E, list_lookup_insert_eq, Ew by lia. cbn [fmap option_fmap option_map]. f_equal. pose proof (shift_range p).
      apply set_byte_other; [done|lia..|].
      assert (p mod 4 <> k mod 4)%nat; [|lia].
      intros Em. apply Hne. by rewrite (Nat.div_mod_eq p 4), E, Em, <-Nat.div_mod_eq.
    + by rewrite list_lookup_insert_ne by done.
Qed.

(** Sixty-four bytes make sixteen words. *)
Lemma word_of_bytes w :
  is_word w -> w = byte_at w 24 * 2 ^ 24 + byte_at w 16 * 2 ^ 16 + byte_at w 8 * 2 ^ 8 + byte_at w 0.
Proof.
  unfold is_word, byte_at. change (2 ^ 24) with 16777216. change (2 ^ 16) with 65536. change (2 ^ 8) with 256.
  change (2 ^ 0) with 1. change (2 ^ 32) with 4294967296. intros. Z.to_euclidean_division_equations. lia.
Qed.

Lemma words_of_bytes ws bs :
  Forall is_word ws -> length bs = (4 * length ws)%nat ->
  (forall p b, bs !! p = Some b -> byte_of ws p = Some b) -> ws = Fips.words bs.
Proof.
  revert bs. induction ws as [|w ws IH]; intros bs Hw Hl Hp.
  { destruct bs; [done|cbn in Hl; lia]. }
  destruct bs as [|b0 [|b1 [|b2 [|b3 bs]]]]; cbn in Hl; try lia. apply Forall_cons in Hw as [Hw0 Hw]. cbn [Fips.words].
  assert (E : forall i b, (b0 :: b1 :: b2 :: b3 :: bs) !! i = Some b -> (i < 4)%nat -> byte_at w (24 - 8 * Z.of_nat (i mod 4)) = b).
  { intros i b Hi Hi4. specialize (Hp i b Hi). unfold byte_of in Hp.
    rewrite Nat.div_small in Hp by lia. by injection Hp. }
  f_equal.
  { rewrite <-(E 0%nat b0), <-(E 1%nat b1), <-(E 2%nat b2), <-(E 3%nat b3) by (done || lia).
    exact (word_of_bytes w Hw0). }
  apply IH; [done|cbn; lia|]. intros p b Hb. specialize (Hp (4 + p)%nat b Hb). unfold byte_of in Hp |- *.
  replace (4 + p)%nat with (p + 1 * 4)%nat in Hp by lia.
  rewrite Nat.Div0.mod_add, Nat.div_add in Hp by lia. by rewrite Nat.add_1_r in Hp.
Qed.

(** ** The hash as a stream

    [absorb] is what a byte does to the state and the bytes of the block that is
    being filled. *)

Definition absorb (s : vars * list Z) (d : Z) : vars * list Z :=
  if decide (length (s.2 ++ [d]) = 64%nat) then (Fips.block s.1 (Fips.words (s.2 ++ [d])), []) else (s.1, s.2 ++ [d]).

Definition absorbs (s : vars * list Z) (ds : list Z) : vars * list Z := fold_left absorb ds s.

Record repr (self : nn_sha1) (s : vars * list Z) : Prop := Repr {
  r_state : state self = st_list s.1;
  r_length : length (buffer self) = 16%nat;
  r_words : Forall is_word (buffer self);
  r_pending : (length s.2 < 64)%nat;
  r_offset : buffer_offset self = Z.of_nat (length s.2);
  r_bytes : forall p b, s.2 !! p = Some b -> byte_of (buffer self) p = Some b
}.

Lemma nn_sha1_add_ok self s d :
  repr self s ->
  exists self', nn_sha1_add self d = Ret self' /\ repr self' (absorb s (u8 d)) /\
    bytes_hashed self' = bytes_hashed self /\ is_little_endian self' = is_little_endian self.
Proof.
  intros [Hs Hl Hw Hn Ho Hb]. destruct s as [H bs]. cbn [fst snd] in *. unfold nn_sha1_add.
  fold (address (is_little_endian self) (buffer_offset self)). rewrite Ho.
  destruct (store_byte_ok (is_little_endian self) (buffer self) (length bs) (u8 d) Hl Hw Hn (u8_range d))
    as (ws & -> & Hl' & Hw' & Hnew & Hold). cbn [mbind outcome_bind buffer_offset].
  rewrite u8_small by lia.
  assert (Hb' : forall p b, (bs ++ [u8 d]) !! p = Some b -> byte_of ws p = Some b).
  { intros p b [Hp|[Hp Hx]]%lookup_app_Some.
    - pose proof (lookup_lt_Some _ _ _ Hp). rewrite Hold by lia. by apply Hb.
    - destruct (p - length bs)%nat eqn:E; [|done]. injection Hx as <-. by replace p with (length bs) by lia. }
  unfold absorb. cbn [fst snd]. rewrite length_app. cbn [length]. unfold SHA1_BLOCK_LEN.
  destruct (Z.eqb_spec (Z.of_nat (length bs) + 1) 64); [rewrite decide_True by lia|rewrite decide_False by lia].
  - destruct (process_block_ok (Sha1 ws (state self) (bytes_hashed self) (Z.of_nat (length bs) + 1) (is_little_endian self)) H
      Hs Hl' Hw') as (buf' & -> & Hbl & Hbw). cbn [buffer bytes_hashed is_little_endian].
    rewrite (words_of_bytes ws (bs ++ [u8 d])) by (try done; rewrite length_app; cbn; lia).
    eexists. split; [done|]. split; [|done]. split; cbn; done || lia.
  - eexists. split; [done|]. split; [|done]. split; cbn; try done; rewrite ?length_app; cbn; lia.
Qed.

Lemma add_all_ok self s ds :
  repr self s ->
  exists self', add_all self ds = Ret self' /\ repr self' (absorbs s (u8 <$> ds)) /\
    bytes_hashed self' = bytes_hashed self /\ is_little_endian self' = is_little_endian self.
Proof.
  revert self s. induction ds as [|d ds IH]; intros self s Hr; [by exists self|].
  destruct (nn_sha1_add_ok self s d Hr) as (s1 & E & Hr1 & Hh1 & He1). cbn [add_all]. rewrite E. cbn [mbind outcome_bind].
  destruct (IH s1 _ Hr1) as (s2 & -> & Hr2 & Hh2 & He2). exists s2. split_and!; [done..|congruence|congruence].
Qed.

Lemma absorbs_app s ds es : absorbs s (ds ++ es) = absorbs (absorbs s ds) es.
Proof. apply fold_left_app. Qed.

(** The number of pending bytes. *)
Lemma absorb_pending s d :
  (length s.2 < 64)%nat -> length (absorb s d).2 = ((length s.2 + 1) mod 64)%nat.
Proof.
  intros Hs. unfold absorb. rewrite length_app. cbn [length]. case_decide as E.
  - by rewrite E.
  - cbn [snd]. rewrite length_app. cbn [length]. symmetry. apply Nat.mod_small. lia.
Qed.

Lemma absorbs_pending s ds :
  (length s.2 < 64)%nat -> length (absorbs s ds).2 = ((length s.2 + length ds) mod 64)%nat.
Proof.
  revert s. induction ds as [|d ds IH]; intros s Hs; cbn [absorbs fold_left length].
  { rewrite Nat.add_0_r. symmetry. by apply Nat.mod_small. }
  fold (absorbs (absorb s d) ds). pose proof (absorb_pending s d Hs) as E.
  rewrite IH, E by (rewrite E; apply Nat.mod_upper_bound; lia).
  rewrite Nat.Div0.add_mod_idemp_l. f_equal. lia.
Qed.

(** Bytes that do not fill the block, and bytes that just fill it. *)
Lemma absorbs_short H bs ds : (length (bs ++ ds) < 64)%nat -> absorbs (H, bs) ds = (H, bs ++ ds).
Proof.
  revert bs. induction ds as [|d ds IH]; intros bs Hl; cbn [absorbs fold_left]; [by rewrite app_nil_r|].
  rewrite length_app in Hl. cbn [length] in Hl.
  unfold absorb at 2. cbn [fst snd]. rewrite decide_False by (rewrite length_app; cbn; lia).
  fold (absorbs (H, bs ++ [d]) ds). rewrite IH by (rewrite !length_app; cbn; lia). by rewrite <-app_assoc.
Qed.

Lemma absorbs_block H bs : length bs = 64%nat -> absorbs (H, []) bs = (Fips.block H (Fips.words bs), []).
Proof.
  intros Hl. destruct (exists_last (l := bs)) as (front & d & ->); [by intros ->|].
  rewrite length_app in Hl. cbn [length] in Hl.
  rewrite absorbs_app, absorbs_short by (cbn; lia). cbn [app absorbs fold_left]. unfold absorb. cbn [fst snd].
  by rewrite decide_True by (rewrite length_app; cbn; lia).
Qed.

Lemma absorbs_blocks n H msg :
  length msg = (64 * n)%nat -> absorbs (H, []) msg = (Fips.blocks n H msg, []).
Proof.
  revert H msg. induction n as [|n IH]; intros H msg Hl; [by destruct msg|].
  rewrite <-(take_drop 64 msg) at 1. cbn [Fips.blocks].
  rewrite absorbs_app, absorbs_block by (rewrite length_take; lia).
  apply IH. rewrite length_drop. lia.
Qed.

(** The zeros of the padding. *)
Lemma pad_zeros_ok fuel self s z :
  repr self s -> (z <= fuel)%nat -> z = ((56 + (64 - length s.2)) mod 64)%nat ->
  pad_zeros fuel self = add_all self (replicate z 0).
Proof.
  revert self s z. induction fuel as [|fuel IH]; intros self s z Hr Hz Ez.
  - cbn [pad_zeros]. rewrite (r_offset _ _ Hr). pose proof (r_pending _ _ Hr).
    assert (z = 0)%nat as -> by lia. destruct (Z.eqb_spec (Z.of_nat (length s.2)) 56); [done|].
    exfalso. symmetry in Ez. zify. Z.to_euclidean_division_equations. lia.
  - cbn [pad_zeros]. rewrite (r_offset _ _ Hr). pose proof (r_pending _ _ Hr) as Hp.
    destruct (Z.eqb_spec (Z.of_nat (length s.2)) 56) as [E|E].
    + replace (length s.2) with 56%nat in Ez by lia. by rewrite Ez.
    + assert (Hpos : (0 < z)%nat) by (rewrite Ez; zify; Z.to_euclidean_division_equations; lia).
      destruct z as [|z]; [lia|]. destruct (nn_sha1_add_ok self s 0 Hr) as (self' & E1 & Hr' & _).
      cbn [replicate add_all]. rewrite E1. cbn [mbind outcome_bind].
      apply (IH self' _ z Hr'); [lia|]. rewrite absorb_pending by done.
      zify. Z.to_euclidean_division_equations. lia.
Qed.

(** ** The result *)

Lemma swap_word_byte w sh :
  sh ∈ [0; 8; 16; 24] -> byte_at (swap_word w) sh = byte_at w (24 - sh).
Proof.
  intros Hs. assert (Hr : 0 <= sh <= 24) by (rewrite !elem_of_cons, elem_of_nil in Hs; lia).
  apply byte_at_ext; [lia..|]. intros n Hn. unfold swap_word, u32.
  rewrite !Z.lor_spec, !Z.land_spec, !Z.shiftr_spec by lia.
  change 0xFF000000 with (Z.shiftl (Z.ones 8) 24). change 0x00FF0000 with (Z.shiftl (Z.ones 8) 16).
  change 0x0000FF00 with (Z.shiftl (Z.ones 8) 8). change 0x000000FF with (Z.ones 8).
  rewrite !Z.mod_pow2_bits_low, !Z.shiftl_spec, !Z.testbit_ones by lia.
  rewrite !elem_of_cons, elem_of_nil in Hs.
  destruct Hs as [->|[->|[->|[->|[]]]]];
    repeat match goal with
    | |- context [?a <=? ?b] => destruct (Z.leb_spec a b); try lia
    | |- context [?a <? ?b] => destruct (Z.ltb_spec a b); try lia
    end; cbn [andb]; rewrite ?andb_false_r, ?andb_true_r, ?orb_false_r, ?orb_false_l; f_equal; lia.
Qed.

(** The bytes of five words, from their memory. *)
Lemma bytes_of_words (ws shs : list Z) :
  Forall (fun sh => 0 <= sh) shs ->
  (w ← ws; (fun sh => Z.land (Z.shiftr w sh) 255) <$> shs) = (w ← ws; byte_at w <$> shs).
Proof.
  intros Hs. induction ws as [|w ws IH]; [done|]. cbn. f_equal; [|exact IH].
  apply list_fmap_ext. intros i sh Hi. apply land_byte. by apply (Forall_lookup_1 _ _ _ _ Hs Hi).
Qed.

Lemma load_bytes_ok le (ws : list Z) :
  length ws = 5%nat ->
  load_bytes le ws (Z.of_nat <$> seq 0 20) =
  Ret (w ← ws; byte_at w <$> (if le then [0; 8; 16; 24] else [24; 16; 8; 0])).
Proof.
  intros Hl. rewrite <-bytes_of_words by (destruct le; repeat constructor; lia).
  destruct ws as [|h0 [|h1 [|h2 [|h3 [|h4 [|]]]]]]; try done. by destruct le.
Qed.

Lemma load_digest le (H : vars) :
  load_bytes le (if le then swap_word <$> st_list H else st_list H) (Z.of_nat <$> seq 0 20) = Ret (Fips.digest H).
Proof.
  destruct H as [[[[h0 h1] h2] h3] h4]. rewrite load_bytes_ok by (by destruct le). f_equal. destruct le; [|done].
  cbn. rewrite !(swap_word_byte _ 0), !(swap_word_byte _ 8), !(swap_word_byte _ 16), !(swap_word_byte _ 24)
    by (rewrite !elem_of_cons; auto). done.
Qed.

(** The whole padding, as the bytes the code appends. *)
Lemma length_bytes n :
  0 <= n < 2 ^ 32 ->
  u8 <$> [0; 0; 0; Z.shiftr n 29; Z.shiftr n 21; Z.shiftr n 13; Z.shiftr n 5; u32 (Z.shiftl n 3)] = Fips.be64 (8 * n).
Proof.
  intros Hn. unfold Fips.be64. rewrite !Z.shiftr_div_pow2, Z.shiftl_mul_pow2 by lia. cbn [fmap list_fmap].
  unfold u8, u32. change (2 ^ 32) with 4294967296 in *.
  repeat match goal with |- context [2 ^ ?k] => let v := eval vm_compute in (2 ^ k) in change (2 ^ k) with v end.
  repeat (f_equal; [Z.to_euclidean_division_equations; lia|]).
  f_equal. Z.to_euclidean_division_equations. lia.
Qed.

Lemma be64_length n : length (Fips.be64 n) = 8%nat.
Proof. done. Qed.

Lemma pad_length msg : exists n, length (Fips.pad msg) = (64 * n)%nat.
Proof.
  unfold Fips.pad. rewrite length_app. cbn [length]. rewrite length_app, length_replicate, be64_length.
  exists (Z.to_nat ((Z.of_nat (length msg) + 72) / 64)). zify. Z.to_euclidean_division_equations. lia.
Qed.

Lemma hash_bytes_ok self s ds :
  repr self s ->
  exists self', hash_bytes self ds = Ret self' /\ repr self' (absorbs s (u8 <$> ds)) /\
    (0 <= bytes_hashed self -> bytes_hashed self + Z.of_nat (length ds) < 2 ^ 32 ->
      bytes_hashed self' = bytes_hashed self + Z.of_nat (length ds)) /\
    is_little_endian self' = is_little_endian self.
Proof.
  revert self s. induction ds as [|d ds IH]; intros self s Hr.
  { exists self. split_and!; [done..|cbn; lia|done]. }
  cbn [hash_bytes]. unfold nn_sha1_hashbyte.
  edestruct (nn_sha1_add_ok (Sha1 (buffer self) (state self) (u32 (bytes_hashed self + 1)) (buffer_offset self)
    (is_little_endian self)) s d) as (s1 & E & Hr1 & Hh1 & He1); [by destruct Hr|].
  rewrite E. cbn [mbind outcome_bind]. cbn [bytes_hashed is_little_endian] in Hh1, He1.
  destruct (IH s1 _ Hr1) as (s2 & -> & Hr2 & Hh2 & He2).
  exists s2. split; [done|]. split; [done|]. split; [|congruence]. cbn [length]. intros H0 Hlt.
  rewrite u32_small in Hh1 by lia. rewrite Hh2; lia.
Qed.

Lemma digest_length H : length (Fips.digest H) = 20%nat.
Proof. by destruct H as [[[[? ?] ?] ?] ?]. Qed.

Lemma digest_bytes H : bytes (Fips.digest H).
Proof.
  destruct H as [[[[? ?] ?] ?] ?]. cbn [Fips.digest].
  apply Forall_bind, Forall_true. intros h. apply Forall_fmap, Forall_true. intros i.
  apply Z.mod_pos_bound. lia.
Qed.

Lemma nn_sha1_result_ok self msg :
  repr self (absorbs (Fips.H0, []) msg) -> bytes_hashed self = Z.of_nat (length msg) -> Z.of_nat (length msg) < 2 ^ 32 ->
  nn_sha1_result self = Ret (Fips.sha1 msg).
Proof.
  intros Hr Hh Hlt. unfold nn_sha1_result. pose proof (absorbs_pending (Fips.H0, []) msg) as Hp.
  specialize (Hp ltac:(cbn; lia)). cbn [snd length] in Hp. rewrite Nat.add_0_l in Hp.
  destruct (nn_sha1_add_ok self _ 0x80 Hr) as (s1 & -> & Hr1 & Hh1 & He1). cbn [mbind outcome_bind].
  set (z := Z.to_nat ((55 - Z.of_nat (length msg)) mod 64)).
  rewrite (pad_zeros_ok 64 s1 _ z Hr1); [|subst z; zify; Z.to_euclidean_division_equations; lia|].
  2: { rewrite absorb_pending, Hp by (apply Hr). subst z. zify. Z.to_euclidean_division_equations. lia. }
  destruct (add_all_ok s1 _ (replicate z 0) Hr1) as (s2 & -> & Hr2 & Hh2 & He2). cbn [mbind outcome_bind].
  replace (bytes_hashed s2) with (Z.of_nat (length msg)) by congruence.
  match goal with |- context [add_all s2 ?l] => destruct (add_all_ok s2 _ l Hr2) as (s3 & -> & Hr3 & _ & He3) end. cbn [mbind outcome_bind].
  rewrite (length_bytes (Z.of_nat (length msg))) in Hr3 by lia.
  change (absorb ?s ?d) with (absorbs s [d]) in Hr3. rewrite fmap_replicate, <-!absorbs_app in Hr3.
  change (u8 128) with 0x80 in Hr3. change (u8 0) with 0 in Hr3.
  replace (((msg ++ [0x80]) ++ replicate z 0) ++ Fips.be64 (8 * Z.of_nat (length msg))) with (Fips.pad msg) in Hr3
    by (unfold Fips.pad; rewrite <-!app_assoc; reflexivity).
  destruct (pad_length msg) as [n Hn]. rewrite (absorbs_blocks n) in Hr3 by done.
  rewrite (r_state _ _ Hr3). cbn [fst]. rewrite load_digest. unfold Fips.sha1.
  by rewrite Hn, Nat.mul_comm, Nat.div_mul by lia.
Qed.

Lemma sha1_is_fips le junk ds :
  length junk = 16%nat -> Forall is_word junk -> bytes ds -> Z.of_nat (length ds) < 2 ^ 32 ->
  sha1 le junk ds = Ret (Fips.sha1 ds).
Proof.
  intros Hl Hj Hb Hlt. unfold sha1.
  assert (Hr : repr (nn_sha1_init le junk) (Fips.H0, [])) by (split; cbn; done || lia).
  destruct (hash_bytes_ok _ _ ds Hr) as (self & -> & Hr' & Hh & _). cbn [mbind outcome_bind].
  cbn [bytes_hashed nn_sha1_init] in Hh. specialize (Hh ltac:(lia) ltac:(lia)).
  replace (u8 <$> ds) with ds in Hr'; [by apply nn_sha1_result_ok|].
  symmetry. rewrite <-(list_fmap_id ds) at 2. apply list_fmap_ext. intros i d Hi.
  apply u8_small. by apply (Forall_lookup_1 _ _ _ _ Hb Hi).
Qed.

(** C33.  The hash of any string shorter than 4 GiB, on machines of either byte
    order and whatever the buffer held, is the hash FIPS 180-4 defines. *)
Theorem sha1_correct le junk ds :
  length junk = 16%nat -> Forall is_word junk -> bytes ds -> Z.of_nat (length ds) < 2 ^ 32 ->
  sha1 le junk ds = Ret (Fips.sha1 ds).
Proof. apply sha1_is_fips. Qed.

Lemma sha1_correct_witness : sha1 true (replicate 16 7) [0x61; 0x62; 0x63] = Ret (Fips.sha1 [0x61; 0x62; 0x63]).
Proof.
  apply sha1_correct; [reflexivity| | |cbn; lia]; repeat constructor; unfold is_word, is_byte; lia.
Defined.
