(* ===== verification/WsHandshake.v ===== *)
(** * WsHandshake: the opening handshake of WebSocket (src/transports/ws/ws_handshake.c)

    A client sends an HTTP request with its socket type and a random key; the
    server parses it and answers with the hash of the key, or with an error.
    This file is the code: the string functions, the two parsers, the request
    and the reply, the loop that receives the peer's header a few bytes at a
    time, and the state machine with its timer.  The theorems are in
    WsHandshakeSpec.v.

    A string is the list of its bytes without the terminating zero.  A pointer
    into a string is the part of the string from there on ([pos]), a field (a
    pointer and a length) is the bytes it covers, or [None] for a null pointer.
    What the handshake asks of the socket below it is collected in [io]; the
    bytes that arrive are written into the buffer by [usock_received]. *)

From stdpp Require Import base list strings.
From Stdlib Require Import ZArith Lia Ascii.
From S2P Require Import Prelude Message Fsm Timer Base64 Sha1.

Open Scope Z_scope.

(** The bytes of a string constant. *)
Definition str (s : string) : list Z := (fun c => Z.of_N (N_of_ascii c)) <$> String.list_ascii_of_string s.
Arguments str s%_string_scope.

(** ** Constants *)

Definition NN_WS_HANDSHAKE_OK : Z := 1.
Definition NN_WS_HANDSHAKE_ERROR : Z := 2.
Definition NN_WS_HANDSHAKE_STOPPED : Z := 3.
Definition NN_WS_CLIENT : Z := 1.
Definition NN_WS_SERVER : Z := 2.
Definition NN_WS_HANDSHAKE_MAX_SIZE : Z := 4096.
Definition RESPONSE_SIZE : Z := 512.
Definition NN_WS_HANDSHAKE_ACCEPT_KEY_LEN : Z := 28.
Definition NN_WS_HANDSHAKE_TIMEOUT : Z := 5000.
Definition NN_WS_HANDSHAKE_MAGIC_GUID : list Z := str "258EAFA5-E914-47DA-95CA-C5AB0DC85B11".
Definition CRLF : list Z := [13; 10].
Definition TERMSEQ : list Z := [13; 10; 13; 10].

Definition NN_WS_HANDSHAKE_SRC_USOCK : Z := 1.
Definition NN_WS_HANDSHAKE_SRC_TIMER : Z := 2.

(** Events of the socket (src/aio/usock.h). *)
Definition NN_USOCK_SENT : Z := 3.
Definition NN_USOCK_RECEIVED : Z := 4.
Definition NN_USOCK_ERROR : Z := 5.
Definition NN_USOCK_SHUTDOWN : Z := 8.

Inductive hs_state : Type :=
  HS_IDLE | SERVER_RECV | SERVER_REPLY | CLIENT_SEND | CLIENT_RECV | HANDSHAKE_SENT
| STOPPING_TIMER_ERROR | STOPPING_TIMER_DONE | HS_DONE | HS_STOPPING.

#[export] Instance hs_state_eq_dec : EqDecision hs_state.
Proof. solve_decision. Defined.

(** What a parser returns. *)
Inductive verdict : Type := VALID | RECV_MORE | INVALID.

#[export] Instance verdict_eq_dec : EqDecision verdict.
Proof. solve_decision. Defined.

Definition RESPONSE_NULL : Z := -1.
Definition RESPONSE_OK : Z := 0.
Definition RESPONSE_TOO_BIG : Z := 1.
Definition RESPONSE_WSPROTO : Z := 3.
Definition RESPONSE_WSVERSION : Z := 4.
Definition RESPONSE_NNPROTO : Z := 5.
Definition RESPONSE_NOTPEER : Z := 6.
Definition RESPONSE_UNKNOWNTYPE : Z := 7.

Definition NN_PAIR : Z := 16.
Definition NN_PUB : Z := 32.
Definition NN_SUB : Z := 33.
Definition NN_REQ : Z := 48.
Definition NN_REP : Z := 49.
Definition NN_PUSH : Z := 80.
Definition NN_PULL : Z := 81.
Definition NN_SURVEYOR : Z := 98.
Definition NN_RESPONDENT : Z := 99.
Definition NN_BUS : Z := 112.

Record nn_ws_sp_map : Type := SpMap { sp_server : Z; sp_client : Z; ws_sp : list Z }.

Definition NN_WS_HANDSHAKE_SP_MAP : list nn_ws_sp_map := [
  SpMap NN_PAIR NN_PAIR (str "pair.sp.nanomsg.org");
  SpMap NN_REQ NN_REP (str "req.sp.nanomsg.org");
  SpMap NN_REP NN_REQ (str "rep.sp.nanomsg.org");
  SpMap NN_PUB NN_SUB (str "pub.sp.nanomsg.org");
  SpMap NN_SUB NN_PUB (str "sub.sp.nanomsg.org");
  SpMap NN_SURVEYOR NN_RESPONDENT (str "surveyor.sp.nanomsg.org");
  SpMap NN_RESPONDENT NN_SURVEYOR (str "respondent.sp.nanomsg.org");
  SpMap NN_PUSH NN_PULL (str "push.sp.nanomsg.org");
  SpMap NN_PULL NN_PUSH (str "pull.sp.nanomsg.org");
  SpMap NN_BUS NN_BUS (str "bus.sp.nanomsg.org")
].

(** ** Strings *)

Definition is_nil {A} (l : list A) : bool := match l with [] => true | _ => false end.

(** The string at the start of a buffer. *)
Fixpoint c_str (buf : list Z) : list Z :=
  match buf with
  | [] => []
  | c :: buf => if c =? 0 then [] else c :: c_str buf
  end.

Fixpoint skip_spaces (s : list Z) : list Z :=
  match s with
  | c :: s' => if c =? 32 then skip_spaces s' else s
  | [] => []
  end.

(** In the "C" locale. *)
Definition tolower (c : Z) : Z := if (65 <=? c) && (c <=? 90) then c + 32 else c.

Definition same_char (ci : bool) (c d : Z) : bool := if ci then tolower c =? tolower d else c =? d.

(** The comparing loops: what is left of both when one has ended. *)
Fixpoint match_chars (ci : bool) (token pos : list Z) : option (list Z * list Z) :=
  match token, pos with
  | t :: token', p :: pos' => if same_char ci t p then match_chars ci token' pos' else None
  | _, _ => Some (token, pos)
  end.

(** The new position, or [None] for NOMATCH. *)
Definition nn_ws_match_token (token pos : list Z) (case_insensitive ignore_leading_sp : bool) : outcome (option (list Z)) :=
  let pos := if ignore_leading_sp then skip_spaces pos else pos in
  match match_chars case_insensitive token pos with
  | None => Ret None
  | Some (token, pos) =>
      if is_nil pos && negb (is_nil token) then Ret None else
      _ ← check (is_nil token);
      Ret (Some pos)
  end.

(** [strstr], as what is before the first occurrence and what is behind it. *)
Fixpoint strstr (needle s : list Z) : option (list Z * list Z) :=
  if decide (take (length needle) s = needle) then Some ([], drop (length needle) s) else
  match s with
  | [] => None
  | c :: s => '(before, after) ← strstr needle s; Some (c :: before, after)
  end.

(** The field and the new position; NOMATCH leaves a null pointer. *)
Definition nn_ws_match_value (termseq pos : list Z) (ignore_leading_sp ignore_trailing_sp : bool) : option (list Z * list Z) :=
  match strstr termseq pos with
  | None => None
  | Some (v, pos) =>
      let v := if ignore_leading_sp then skip_spaces v else v in
      let v := if ignore_trailing_sp then reverse (skip_spaces (reverse v)) else v in
      Some (v, pos)
  end.

Definition nn_ws_validate_value (expected subj : list Z) (case_insensitive : bool) : bool :=
  if negb (size expected =? size subj) then false else
  match match_chars case_insensitive expected subj with Some _ => true | None => false end.

(** ** The object *)

Inductive field : Type :=
  HOST | ORIGIN | KEY | UPGRADE | CONN | VERSION | PROTOCOL | EXTENSIONS | URI
| STATUS_CODE | REASON_PHRASE | SERVER_ | ACCEPT_KEY.

#[export] Instance field_eq_dec : EqDecision field.
Proof. solve_decision. Defined.

Abbreviation fields := (field -> option (list Z)).

Definition set_field (fs : fields) (x : field) (v : option (list Z)) : fields :=
  fun y => if decide (x = y) then v else fs y.

(** [nn_usock_recv] of so many bytes at [recv_pos], [nn_usock_send],
    [nn_usock_swap_owner]. *)
Inductive io_request : Type :=
| IoRecv (len : Z)
| IoSend (text : list Z)
| IoSwapOwner.

(** [hfields] is [None] as long as no parser has set the pointers. *)
Record nn_ws_handshake : Type := Hs {
  hfsm : nn_fsm; hs_st : hs_state; hs_mode : Z; hs_timer : nn_timer; usock : bool;
  resource : list Z; remote_host : list Z;
  opening_hs : list Z; response : list Z;
  retries : Z; recv_pos : Z; recv_len : Z;
  hfields : option fields; expected_accept_key : list Z; response_code : Z;
  io : list io_request
}.

(** [response_code] is not initialised. *)
Definition nn_ws_handshake_init (junk_ohs junk_response : list Z) (junk_code : Z) : nn_ws_handshake :=
  Hs nn_fsm_init HS_IDLE 0 nn_timer_init false [] [] junk_ohs junk_response 0 0 0 None [] junk_code [].

Definition with_state (self : nn_ws_handshake) (st : hs_state) : nn_ws_handshake :=
  Hs (hfsm self) st (hs_mode self) (hs_timer self) (usock self) (resource self) (remote_host self) (opening_hs self)
    (response self) (retries self) (recv_pos self) (recv_len self) (hfields self) (expected_accept_key self)
    (response_code self) (io self).
Definition with_hfsm (self : nn_ws_handshake) (f : nn_fsm) : nn_ws_handshake :=
  Hs f (hs_st self) (hs_mode self) (hs_timer self) (usock self) (resource self) (remote_host self) (opening_hs self)
    (response self) (retries self) (recv_pos self) (recv_len self) (hfields self) (expected_accept_key self)
    (response_code self) (io self).
Definition with_timer (self : nn_ws_handshake) (t : nn_timer) : nn_ws_handshake :=
  Hs (hfsm self) (hs_st self) (hs_mode self) t (usock self) (resource self) (remote_host self) (opening_hs self)
    (response self) (retries self) (recv_pos self) (recv_len self) (hfields self) (expected_accept_key self)
    (response_code self) (io self).
Definition with_recv (self : nn_ws_handshake) (r p l : Z) : nn_ws_handshake :=
  Hs (hfsm self) (hs_st self) (hs_mode self) (hs_timer self) (usock self) (resource self) (remote_host self)
    (opening_hs self) (response self) r p l (hfields self) (expected_accept_key self) (response_code self) (io self).
Definition with_fields (self : nn_ws_handshake) (fs : fields) (code : Z) : nn_ws_handshake :=
  Hs (hfsm self) (hs_st self) (hs_mode self) (hs_timer self) (usock self) (resource self) (remote_host self)
    (opening_hs self) (response self) (retries self) (recv_pos self) (recv_len self) (Some fs)
    (expected_accept_key self) code (io self).
Definition with_code (self : nn_ws_handshake) (code : Z) : nn_ws_handshake :=
  Hs (hfsm self) (hs_st self) (hs_mode self) (hs_timer self) (usock self) (resource self) (remote_host self)
    (opening_hs self) (response self) (retries self) (recv_pos self) (recv_len self) (hfields self)
    (expected_accept_key self) code (io self).
Definition with_buffers (self : nn_ws_handshake) (ohs resp : list Z) : nn_ws_handshake :=
  Hs (hfsm self) (hs_st self) (hs_mode self) (hs_timer self) (usock self) (resource self) (remote_host self)
    ohs resp (retries self) (recv_pos self) (recv_len self) (hfields self) (expected_accept_key self)
    (response_code self) (io self).
Definition with_key (self : nn_ws_handshake) (key : list Z) : nn_ws_handshake :=
  Hs (hfsm self) (hs_st self) (hs_mode self) (hs_timer self) (usock self) (resource self) (remote_host self)
    (opening_hs self) (response self) (retries self) (recv_pos self) (recv_len self) (hfields self) key
    (response_code self) (io self).
Definition with_usock (self : nn_ws_handshake) (b : bool) (q : list io_request) : nn_ws_handshake :=
  Hs (hfsm self) (hs_st self) (hs_mode self) (hs_timer self) b (resource self) (remote_host self)
    (opening_hs self) (response self) (retries self) (recv_pos self) (recv_len self) (hfields self)
    (expected_accept_key self) (response_code self) q.
Definition ask (self : nn_ws_handshake) (r : io_request) : nn_ws_handshake :=
  with_usock self (usock self) (io self ++ [r]).

(** ** The parsers *)

(** The headers both loops look for, in the order of the tests. *)
Definition client_headers : list (list Z * field) := [
  (str "Host:", HOST); (str "Origin:", ORIGIN); (str "Sec-WebSocket-Key:", KEY); (str "Upgrade:", UPGRADE);
  (str "Connection:", CONN); (str "Sec-WebSocket-Version:", VERSION); (str "Sec-WebSocket-Protocol:", PROTOCOL);
  (str "Sec-WebSocket-Extensions:", EXTENSIONS)
].

Definition server_headers : list (list Z * field) := [
  (str "Server:", SERVER_); (str "Sec-WebSocket-Accept:", ACCEPT_KEY); (str "Upgrade:", UPGRADE);
  (str "Connection:", CONN); (str "Sec-WebSocket-Version-Server:", VERSION);
  (str "Sec-WebSocket-Protocol-Server:", PROTOCOL); (str "Sec-WebSocket-Extensions:", EXTENSIONS)
].

(** The chain of [nn_ws_match_token]s. *)
Fixpoint match_header (table : list (list Z * field)) (pos : list Z) : outcome (option (field * list Z)) :=
  match table with
  | [] => Ret None
  | (name, x) :: table =>
      r ← nn_ws_match_token name pos true false;
      match r with
      | Some pos => Ret (Some (x, pos))
      | None => match_header table pos
      end
  end.

(** [while (strlen (pos))]; no position is the return of RECV_MORE. *)
Fixpoint parse_headers (fuel : nat) (table : list (list Z * field)) (fs : fields) (pos : list Z) : outcome (fields * option (list Z)) :=
  if is_nil pos then Ret (fs, Some pos) else
  match fuel with
  | O => NoFuel
  | S fuel =>
      h ← match_header table pos;
      match h with
      | Some (x, pos) =>
          match nn_ws_match_value CRLF pos true true with
          | Some (v, pos) => parse_headers fuel table (set_field fs x (Some v)) pos
          | None => Ret (set_field fs x None, None)
          end
      | None =>
          e ← nn_ws_match_token CRLF pos true false;
          match e with
          | Some pos => Ret (fs, Some pos)
          | None =>
              match nn_ws_match_value CRLF pos true true with
              | Some (_, pos) => parse_headers fuel table fs pos
              | None => Ret (fs, None)
              end
          end
      end
  end.

(** All pointers null, except the one that the code forgets. *)
Definition clear_fields (self : nn_ws_handshake) : fields :=
  fun x => if decide (x = EXTENSIONS) then match hfields self with Some fs => fs EXTENSIONS | None => None end else None.

(** A field that is there, and its value. *)
Definition is_value (fs : fields) (x : field) (expected : list Z) : bool :=
  match fs x with Some v => nn_ws_validate_value expected v true | None => false end.

Definition present (fs : fields) (x : field) : bool := match fs x with Some _ => true | None => false end.

Section parsers.
  (** The type of the local socket, and what [nn_pipebase_ispeer] says. *)
  Context (local : Z) (ispeer : Z -> bool).

(** The checks behind the loop; the response code and the result. *)
Fixpoint find_peer (table : list nn_ws_sp_map) (protocol : list Z) : Z * verdict :=
  match table with
  | [] => (RESPONSE_UNKNOWNTYPE, INVALID)
  | e :: table =>
      if nn_ws_validate_value (ws_sp e) protocol true then
        if local =? sp_server e then (RESPONSE_OK, VALID) else (RESPONSE_NOTPEER, INVALID)
      else find_peer table protocol
  end.

Definition check_opening (fs : fields) : Z * verdict :=
  if negb (present fs HOST) || negb (present fs UPGRADE) || negb (present fs CONN) ||
     negb (present fs KEY) || negb (present fs VERSION) then (RESPONSE_WSPROTO, INVALID)
  else if negb (is_value fs VERSION (str "13")) then (RESPONSE_WSVERSION, INVALID)
  else if negb (is_value fs UPGRADE (str "websocket")) then (RESPONSE_WSPROTO, INVALID)
  else if negb (is_value fs CONN (str "Upgrade")) then (RESPONSE_WSPROTO, INVALID)
  else match fs PROTOCOL with
       | Some protocol => find_peer NN_WS_HANDSHAKE_SP_MAP protocol
       | None => if ispeer NN_PAIR then (RESPONSE_OK, VALID) else (RESPONSE_NOTPEER, INVALID)
       end.

(** The request line; no position is the return of RECV_MORE. *)
Definition request_line (fs : fields) (pos : list Z) : outcome (fields * option (list Z)) :=
  r ← nn_ws_match_token (str "GET ") pos false false;
  match r with
  | None => Ret (fs, None)
  | Some pos =>
      match nn_ws_match_value (str " ") pos false false with
      | None => Ret (set_field fs URI None, None)
      | Some (v, pos) =>
          let fs := set_field fs URI (Some v) in
          r ← nn_ws_match_token (str "HTTP/1.1") pos false false;
          match r with
          | None => Ret (fs, None)
          | Some pos => r ← nn_ws_match_token CRLF pos false false; Ret (fs, r)
          end
      end
  end.

(** [memchr (buf, '\0', size)]. *)
Definition has_zero (buf : list Z) : bool := existsb (Z.eqb 0) buf.

Definition nn_ws_handshake_parse_client_opening (self : nn_ws_handshake) : outcome (verdict * nn_ws_handshake) :=
  _ ← check (has_zero (opening_hs self));
  let pos := c_str (opening_hs self) in
  _ ← check (size pos <? size (opening_hs self));
  match strstr TERMSEQ pos with
  | None => Ret (RECV_MORE, self)
  | Some _ =>
      '(fs, p) ← request_line (clear_fields self) pos;
      match p with
      | None => Ret (RECV_MORE, with_fields self fs RESPONSE_NULL)
      | Some pos =>
          '(fs, p) ← parse_headers (length pos) client_headers fs pos;
          match p with
          | None => Ret (RECV_MORE, with_fields self fs RESPONSE_NULL)
          | Some pos =>
              _ ← check (is_nil pos);
              let '(code, v) := check_opening fs in
              Ret (v, with_fields self fs code)
          end
      end
  end.

(** The status line, as [request_line]. *)
Definition status_line (fs : fields) (pos : list Z) : outcome (fields * option (list Z)) :=
  r ← nn_ws_match_token (str "HTTP/1.1 ") pos false false;
  match r with
  | None => Ret (fs, None)
  | Some pos =>
      match nn_ws_match_value (str " ") pos false false with
      | None => Ret (set_field fs STATUS_CODE None, None)
      | Some (v, pos) =>
          let fs := set_field fs STATUS_CODE (Some v) in
          match nn_ws_match_value CRLF pos false false with
          | None => Ret (set_field fs REASON_PHRASE None, None)
          | Some (v, pos) => Ret (set_field fs REASON_PHRASE (Some v), Some pos)
          end
      end
  end.

Definition check_response (expected : list Z) (fs : fields) : verdict :=
  if negb (present fs STATUS_CODE) || negb (present fs UPGRADE) || negb (present fs CONN) ||
     negb (present fs ACCEPT_KEY) then INVALID
  else if negb (is_value fs STATUS_CODE (str "101")) then INVALID
  else if negb (is_value fs UPGRADE (str "websocket")) then INVALID
  else if negb (is_value fs CONN (str "Upgrade")) then INVALID
  else if negb (is_value fs ACCEPT_KEY expected) then INVALID
  else VALID.

(** The URI is a field of the request only. *)
Definition clear_response_fields (self : nn_ws_handshake) : fields :=
  fun x => if decide (x = EXTENSIONS \/ x = URI) then match hfields self with Some fs => fs x | None => None end else None.

Definition nn_ws_handshake_parse_server_response (self : nn_ws_handshake) : outcome (verdict * nn_ws_handshake) :=
  _ ← check (has_zero (response self));
  let pos := c_str (response self) in
  _ ← check (size pos <? size (response self));
  let code := response_code self in
  match strstr TERMSEQ pos with
  | None => Ret (RECV_MORE, self)
  | Some _ =>
      '(fs, p) ← status_line (clear_response_fields self) pos;
      match p with
      | None => Ret (RECV_MORE, with_fields self fs code)
      | Some pos =>
          '(fs, p) ← parse_headers (length pos) server_headers fs pos;
          match p with
          | None => Ret (RECV_MORE, with_fields self fs code)
          | Some pos =>
              _ ← check (is_nil pos);
              Ret (check_response (expected_accept_key self) fs, with_fields self fs code)
          end
      end
  end.

(** ** Request and reply *)

Section hash.
  (** Whether the machine is little-endian, and what the hash's buffer holds. *)
  Context (le : bool) (junk : list Z).

(** What [nn_base64_encode] returned, and the buffer. *)
Definition nn_ws_handshake_hash_key (key hashed : list Z) : outcome (Z * list Z) :=
  h ← sha1 le junk (key ++ NN_WS_HANDSHAKE_MAGIC_GUID);
  nn_base64_encode h hashed.

(** The text with its zero, in a buffer of that size. *)
Definition sprintf (buf text : list Z) : outcome (list Z) :=
  if size text + 1 <=? size buf then Ret (text ++ 0 :: drop (S (length text)) buf) else Undef.

Fixpoint find_type (table : list nn_ws_sp_map) : outcome (list Z) :=
  match table with
  | [] => Abort
  | e :: table => if sp_client e =? local then Ret (ws_sp e) else find_type table
  end.

Definition request_text (res host key sp : list Z) : list Z :=
  str "GET " ++ res ++ str " HTTP/1.1" ++ CRLF ++
  str "Host: " ++ host ++ CRLF ++
  str "Upgrade: websocket" ++ CRLF ++
  str "Connection: Upgrade" ++ CRLF ++
  str "Sec-WebSocket-Key: " ++ key ++ CRLF ++
  str "Sec-WebSocket-Version: 13" ++ CRLF ++
  str "Sec-WebSocket-Protocol: " ++ sp ++ CRLF ++ CRLF.

(** [rand_key] is what [nn_random_generate] stores. *)
Definition nn_ws_handshake_client_request (rand_key : list Z) (self : nn_ws_handshake) : outcome nn_ws_handshake :=
  '(rc, encoded) ← nn_base64_encode rand_key (replicate 25 0);
  _ ← check (rc >=? 0);
  let encoded := c_str encoded in
  _ ← check (size encoded =? 24);
  '(rc, hashed) ← nn_ws_handshake_hash_key encoded (replicate 29 0);
  _ ← check (rc =? NN_WS_HANDSHAKE_ACCEPT_KEY_LEN);
  sp ← find_type NN_WS_HANDSHAKE_SP_MAP;
  ohs ← sprintf (opening_hs self) (request_text (resource self) (remote_host self) encoded sp);
  let self := with_buffers (with_key self (c_str hashed)) ohs (response self) in
  Ret (ask self (IoSend (c_str ohs))).

Definition reply_text (accept protocol : list Z) : list Z :=
  str "HTTP/1.1 101 Switching Protocols" ++ CRLF ++
  str "Upgrade: websocket" ++ CRLF ++
  str "Connection: Upgrade" ++ CRLF ++
  str "Sec-WebSocket-Accept: " ++ accept ++ CRLF ++
  str "Sec-WebSocket-Protocol: " ++ protocol ++ CRLF ++ CRLF.

Definition refusal_text (code version : list Z) : list Z :=
  str "HTTP/1.1 " ++ code ++ CRLF ++ str "Sec-WebSocket-Version: " ++ version ++ CRLF.

Definition reason (code : Z) : outcome (list Z) :=
  if code =? RESPONSE_TOO_BIG then Ret (str "400 Opening Handshake Too Long")
  else if code =? RESPONSE_WSPROTO then Ret (str "400 Cannot Have Body")
  else if code =? RESPONSE_WSVERSION then Ret (str "400 Unsupported WebSocket Version")
  else if code =? RESPONSE_NNPROTO then Ret (str "400 Missing nanomsg Required Headers")
  else if code =? RESPONSE_NOTPEER then Ret (str "400 Incompatible Socket Type")
  else if code =? RESPONSE_UNKNOWNTYPE then Ret (str "400 Unrecognized Socket Type")
  else Abort.

(** The bytes of a field; copying none from a null pointer is harmless. *)
Definition field_text (self : nn_ws_handshake) (x : field) : outcome (list Z) :=
  match hfields self with
  | None => Undef
  | Some fs => Ret (match fs x with Some v => v | None => [] end)
  end.

Definition nn_ws_handshake_server_reply (self : nn_ws_handshake) : outcome nn_ws_handshake :=
  let buf := replicate (Z.to_nat RESPONSE_SIZE) 0 in
  resp ← (if response_code self =? RESPONSE_OK then
            key ← field_text self KEY;
            '(rc, accept) ← nn_ws_handshake_hash_key key (replicate 29 0);
            _ ← check (rc >=? 0);
            let accept := c_str accept in
            _ ← check (size accept =? NN_WS_HANDSHAKE_ACCEPT_KEY_LEN);
            protocol ← field_text self PROTOCOL;
            sprintf buf (reply_text accept protocol)
          else
            code ← reason (response_code self);
            version ← field_text self VERSION;
            sprintf buf (refusal_text code version));
  let self := with_buffers self (opening_hs self) resp in
  Ret (ask self (IoSend (c_str resp))).

(** ** Receiving

    The peer's header is read until it ends with TERMSEQ: the longest beginning
    of TERMSEQ the buffer ends with decides how many bytes cannot yet be
    behind the header. *)

Fixpoint overlap (i : nat) (buf : list Z) (pos : Z) : nat :=
  match i with
  | O => O
  | S j =>
      if decide (take i TERMSEQ = take i (drop (Z.to_nat (pos - Z.of_nat i)) buf)) then i else overlap j buf pos
  end.

(** The common part of both RECV_MORE branches: the new object, and whether the
    header fits the buffer. *)
Definition recv_more (self : nn_ws_handshake) (buf : list Z) : outcome (nn_ws_handshake * bool) :=
  let pos := recv_pos self + recv_len self in
  _ ← check (pos <? size buf);
  _ ← check (pos >=? 4);
  let i := overlap 4 buf pos in
  _ ← check (Z.of_nat i <? 4);
  let len := 4 - Z.of_nat i in
  if len + pos >? size buf then Ret (with_recv self (retries self) pos len, false)
  else Ret (ask (with_recv self (retries self + 1) pos len) (IoRecv len), true).

(** ** The state machine *)

Definition stop_timer (self : nn_ws_handshake) (st : hs_state) : outcome nn_ws_handshake :=
  t ← nn_timer_stop (hs_timer self);
  Ret (with_state (with_timer self t) st).

Definition nn_ws_handshake_leave (self : nn_ws_handshake) (rc : Z) : outcome nn_ws_handshake :=
  let self := with_usock self false (io self ++ [IoSwapOwner]) in
  f ← nn_fsm_raise (hfsm self) EV_DONE rc;
  Ret (with_hfsm (with_state self HS_DONE) f).

Section handlers.
  (** The random key of a client. *)
  Context (rand_key : list Z).

Definition handle_idle (self : nn_ws_handshake) (src type : Z) : outcome nn_ws_handshake :=
  if (src =? NN_FSM_ACTION) && (type =? NN_FSM_START) then
    _ ← check (recv_pos self =? 0);
    _ ← check (recv_len self >=? 4);
    t ← nn_timer_start (hs_timer self) NN_WS_HANDSHAKE_TIMEOUT;
    let self := with_timer self t in
    if hs_mode self =? NN_WS_CLIENT then
      _ ← check (recv_len self <=? size (response self));
      nn_ws_handshake_client_request rand_key (with_state self CLIENT_SEND)
    else if hs_mode self =? NN_WS_SERVER then
      _ ← check (recv_len self <=? size (opening_hs self));
      Ret (ask (with_state self SERVER_RECV) (IoRecv (recv_len self)))
    else Abort
  else Abort.

(** The timer's part, the same in every state that waits for the socket. *)
Definition handle_timeout (self : nn_ws_handshake) (type : Z) : outcome nn_ws_handshake :=
  if type =? NN_TIMER_TIMEOUT then stop_timer self STOPPING_TIMER_ERROR else Abort.

(** SHUTDOWN and ERROR, the same in every state that waits for the socket. *)
Definition handle_error (self : nn_ws_handshake) (type : Z) : outcome nn_ws_handshake :=
  if type =? NN_USOCK_SHUTDOWN then Ret self
  else if type =? NN_USOCK_ERROR then stop_timer self STOPPING_TIMER_ERROR
  else Abort.

Definition server_received (self : nn_ws_handshake) : outcome nn_ws_handshake :=
  '(v, self) ← nn_ws_handshake_parse_client_opening self;
  match v with
  | INVALID | VALID => nn_ws_handshake_server_reply (with_state self SERVER_REPLY)
  | RECV_MORE =>
      '(self, fits) ← recv_more self (opening_hs self);
      if (fits : bool) then Ret self
      else nn_ws_handshake_server_reply (with_state (with_code self RESPONSE_TOO_BIG) SERVER_REPLY)
  end.

Definition handle_server_recv (self : nn_ws_handshake) (src type : Z) : outcome nn_ws_handshake :=
  if src =? NN_WS_HANDSHAKE_SRC_USOCK then
    if type =? NN_USOCK_RECEIVED then server_received self else handle_error self type
  else if src =? NN_WS_HANDSHAKE_SRC_TIMER then handle_timeout self type
  else Abort.

(** States SERVER_REPLY and HANDSHAKE_SENT. *)
Definition handle_reply (self : nn_ws_handshake) (src type : Z) : outcome nn_ws_handshake :=
  if src =? NN_WS_HANDSHAKE_SRC_USOCK then
    if type =? NN_USOCK_SENT then stop_timer self STOPPING_TIMER_DONE else handle_error self type
  else if src =? NN_WS_HANDSHAKE_SRC_TIMER then handle_timeout self type
  else Abort.

Definition handle_client_send (self : nn_ws_handshake) (src type : Z) : outcome nn_ws_handshake :=
  if src =? NN_WS_HANDSHAKE_SRC_USOCK then
    if type =? NN_USOCK_SENT then Ret (ask (with_state self CLIENT_RECV) (IoRecv (recv_len self)))
    else handle_error self type
  else if src =? NN_WS_HANDSHAKE_SRC_TIMER then handle_timeout self type
  else Abort.

Definition client_received (self : nn_ws_handshake) : outcome nn_ws_handshake :=
  '(v, self) ← nn_ws_handshake_parse_server_response self;
  match v with
  | INVALID => stop_timer self STOPPING_TIMER_ERROR
  | VALID => stop_timer self STOPPING_TIMER_DONE
  | RECV_MORE =>
      '(self, fits) ← recv_more self (response self);
      if (fits : bool) then Ret self else stop_timer self STOPPING_TIMER_ERROR
  end.

Definition handle_client_recv (self : nn_ws_handshake) (src type : Z) : outcome nn_ws_handshake :=
  if src =? NN_WS_HANDSHAKE_SRC_USOCK then
    if type =? NN_USOCK_RECEIVED then client_received self else handle_error self type
  else if src =? NN_WS_HANDSHAKE_SRC_TIMER then handle_timeout self type
  else Abort.

(** States STOPPING_TIMER_ERROR and STOPPING_TIMER_DONE. *)
Definition handle_stopping (self : nn_ws_handshake) (rc src type : Z) : outcome nn_ws_handshake :=
  if src =? NN_WS_HANDSHAKE_SRC_USOCK then Ret self
  else if src =? NN_WS_HANDSHAKE_SRC_TIMER then
    if type =? NN_TIMER_STOPPED then nn_ws_handshake_leave self rc else Abort
  else Abort.

Definition nn_ws_handshake_handler (self : nn_ws_handshake) (src type srcptr : Z) : outcome nn_ws_handshake :=
  match hs_st self with
  | HS_IDLE => handle_idle self src type
  | SERVER_RECV => handle_server_recv self src type
  | SERVER_REPLY | HANDSHAKE_SENT => handle_reply self src type
  | CLIENT_SEND => handle_client_send self src type
  | CLIENT_RECV => handle_client_recv self src type
  | STOPPING_TIMER_ERROR => handle_stopping self NN_WS_HANDSHAKE_ERROR src type
  | STOPPING_TIMER_DONE => handle_stopping self NN_WS_HANDSHAKE_OK src type
  | HS_DONE | HS_STOPPING => Abort
  end.

Definition nn_ws_handshake_stopping (self : nn_ws_handshake) : outcome nn_ws_handshake :=
  if negb (nn_timer_isidle (hs_timer self)) then Ret self else
  f ← nn_fsm_stopped (hfsm self) NN_WS_HANDSHAKE_STOPPED;
  Ret (with_hfsm (with_state self HS_IDLE) f).

Definition nn_ws_handshake_shutdown (self : nn_ws_handshake) (src type srcptr : Z) : outcome nn_ws_handshake :=
  if (src =? NN_FSM_ACTION) && (type =? NN_FSM_STOP) then
    self ← stop_timer self HS_STOPPING;
    nn_ws_handshake_stopping self
  else if decide (hs_st self = HS_STOPPING) then nn_ws_handshake_stopping self
  else Abort.

#[local] Instance handshake_object : FsmObject nn_ws_handshake := {|
  fsm := hfsm; with_fsm := with_hfsm; fn := nn_ws_handshake_handler; shutdown_fn := nn_ws_handshake_shutdown
|}.

Definition server_recv_len : Z :=
  size (str "GET x HTTP/1.1" ++ CRLF ++ str "Upgrade: websocket" ++ CRLF ++ str "Connection: Upgrade" ++ CRLF ++
    str "Host: x" ++ CRLF ++ str "Origin: x" ++ CRLF ++ str "Sec-WebSocket-Key: xxxxxxxxxxxxxxxxxxxxxxxx" ++ CRLF ++
    str "Sec-WebSocket-Version: xx" ++ CRLF ++ CRLF).

Definition client_recv_len : Z := size (str "HTTP/1.1 xxx" ++ CRLF ++ CRLF).

Definition nn_ws_handshake_start (self : nn_ws_handshake) (mode : Z) (res host : list Z) : outcome nn_ws_handshake :=
  _ ← check (negb (mode =? NN_WS_CLIENT) || (size res >=? 1));
  _ ← check (negb (usock self));
  len ← (if mode =? NN_WS_SERVER then Ret server_recv_len
         else if mode =? NN_WS_CLIENT then Ret client_recv_len
         else Abort);
  nn_fsm_start (Hs (hfsm self) (hs_st self) mode (hs_timer self) true res host
    (replicate (Z.to_nat NN_WS_HANDSHAKE_MAX_SIZE) 0) (replicate (Z.to_nat RESPONSE_SIZE) 0) 0 0 len (hfields self)
    (expected_accept_key self) (response_code self) (io self ++ [IoSwapOwner])).

Definition nn_ws_handshake_stop (self : nn_ws_handshake) : outcome nn_ws_handshake := nn_fsm_stop self.

Definition nn_ws_handshake_isidle (self : nn_ws_handshake) : bool := nn_fsm_isidle (hfsm self).

Definition nn_ws_handshake_term (self : nn_ws_handshake) : outcome unit :=
  _ ← check (bool_decide (hs_st self = HS_IDLE));
  _ ← check (negb (nn_fsm_event_active (hfsm self) EV_DONE));
  _ ← nn_timer_term (hs_timer self);
  nn_fsm_term (hfsm self).

(** ** The socket below

    A receive that was asked for is done when all its bytes are in the buffer;
    then the socket raises RECEIVED. *)

Definition write_at (buf : list Z) (pos : Z) (data : list Z) : list Z :=
  take (Z.to_nat pos) buf ++ data ++ drop (Z.to_nat pos + length data) buf.

Definition fill (self : nn_ws_handshake) (data : list Z) : nn_ws_handshake :=
  if hs_mode self =? NN_WS_SERVER
  then with_buffers self (write_at (opening_hs self) (recv_pos self) data) (response self)
  else with_buffers self (opening_hs self) (write_at (response self) (recv_pos self) data).

Definition usock_received (self : nn_ws_handshake) (data : list Z) : outcome nn_ws_handshake :=
  nn_fsm_feed (fill self data) NN_WS_HANDSHAKE_SRC_USOCK NN_USOCK_RECEIVED 0.

(** The socket has sent what it was given. *)
Definition usock_sent (self : nn_ws_handshake) : outcome nn_ws_handshake :=
  nn_fsm_feed self NN_WS_HANDSHAKE_SRC_USOCK NN_USOCK_SENT 0.

(** The peer's bytes, as long as receives are asked for: the object, and the
    bytes it was not asked for. *)
Fixpoint feed (fuel : nat) (self : nn_ws_handshake) (stream : list Z) : outcome (nn_ws_handshake * list Z) :=
  if decide (hs_st self = SERVER_RECV \/ hs_st self = CLIENT_RECV) then
    let n := Z.to_nat (recv_len self) in
    if decide (length stream < n)%nat then Ret (self, stream) else
    match fuel with
    | O => NoFuel
    | S fuel =>
        self ← usock_received self (take n stream);
        feed fuel self (drop n stream)
    end
  else Ret (self, stream).
End handlers.
End hash.
End parsers.
