(* ===== verification/WsHandshakeSpec.v ===== *)
(** * WsHandshakeSpec: what the opening handshake does

    [handshake_connects_peers] runs a nanomsg client against a nanomsg server;
    [header_read_exactly] is the loop that receives a header; the last theorem
    shows the headers that abort the process or are not answered well. *)

From stdpp Require Import base list strings.
From Stdlib Require Import ZArith Lia Ascii.
From S2P Require Import Prelude Message Fsm Timer Base64 Sha1 WsHandshake.

Open Scope Z_scope.

(** ** Strings *)

Definition prepend (v : list Z) (r : option (list Z * list Z)) : option (list Z * list Z) :=
  '(b, a) ← r; Some (v ++ b, a).

Lemma prepend_nil r : prepend [] r = r.
Proof. by destruct r as [[? ?]|]. Qed.

Lemma prepend_app v w r : prepend (v ++ w) r = prepend v (prepend w r).
Proof. destruct r as [[? ?]|]; [|done]. cbn. by rewrite app_assoc. Qed.

Lemma strstr_here needle s : strstr needle (needle ++ s) = Some ([], s).
Proof.
  assert (Hd : take (length needle) (needle ++ s) = needle) by apply take_app_length.
  destruct needle as [|c needle]; [by destruct s|]. cbn [app strstr].
  rewrite decide_True by exact Hd. do 2 f_equal. exact (drop_app_length (c :: needle) s).
Qed.

Lemma strstr_step needle x s :
  take (length needle) (x :: s) <> needle -> strstr needle (x :: s) = prepend [x] (strstr needle s).
Proof. intros H. cbn [strstr]. by rewrite decide_False. Qed.

(** Characters that do not begin the needle are skipped. *)
Lemma strstr_skip c n v s : Forall (fun x => x <> c) v -> strstr (c :: n) (v ++ s) = prepend v (strstr (c :: n) s).
Proof.
  induction v as [|x v IH]; intros Hv; [by rewrite prepend_nil|]. apply Forall_cons in Hv as [Hx Hv].
  cbn [app strstr]. rewrite decide_False by (cbn; congruence). rewrite IH by done.
  by destruct (strstr (c :: n) s) as [[? ?]|].
Qed.

Lemma strstr_first c n v s : Forall (fun x => x <> c) v -> strstr (c :: n) (v ++ (c :: n) ++ s) = Some (v, s).
Proof. intros Hv. rewrite strstr_skip, strstr_here by done. cbn. by rewrite app_nil_r. Qed.

Lemma strstr_Some needle s b a : strstr needle s = Some (b, a) -> s = b ++ needle ++ a.
Proof.
  revert b. induction s as [|c s IH]; intros b; cbn [strstr].
  - case_decide as E; [|done]. intros [= <- <-]. rewrite take_nil in E. by rewrite <-E, drop_nil.
  - case_decide as E.
    + intros [= <- <-]. cbn [app]. rewrite <-(take_drop (length needle) (c :: s)) at 1. by rewrite E.
    + destruct (strstr needle s) as [[b' a']|] eqn:Es; [|done]. intros [= <- <-]. cbn [app]. by rewrite (IH b').
Qed.

(** ... and it is the first occurrence. *)
Lemma strstr_earliest needle s b a b' a' :
  strstr needle s = Some (b, a) -> s = b' ++ needle ++ a' -> (length b <= length b')%nat.
Proof.
  revert b b'. induction s as [|c s IH]; intros b b'; cbn [strstr].
  - case_decide as E; [|done]. intros [= <- <-] _. cbn. lia.
  - case_decide as E; [intros [= <- <-] _; cbn; lia|].
    destruct (strstr needle s) as [[b1 a1]|] eqn:Es; [|done]. intros [= <- <-] Hs.
    destruct b' as [|c' b']; cbn [app length] in *.
    + exfalso. apply E. rewrite Hs. apply take_app_length.
    + injection Hs as <- Hs. pose proof (IH b1 b' eq_refl Hs). lia.
Qed.

Lemma strstr_complete needle b a : exists b' a', strstr needle (b ++ needle ++ a) = Some (b', a').
Proof.
  induction b as [|c b IH]; cbn [app]; [rewrite strstr_here; eauto|]. cbn [strstr].
  case_decide; [eauto|]. destruct IH as (b' & a' & ->). eauto.
Qed.

(** Comparing with a text whose beginning is known. *)
Lemma match_chars_differ ci t l s : match_chars ci t l = None -> match_chars ci t (l ++ s) = None.
Proof.
  revert l. induction t as [|x t IH]; intros [|y l]; cbn; try done. destruct (same_char ci x y); [apply IH|done].
Qed.

Lemma match_chars_prefix ci t l r s :
  match_chars ci t l = Some ([], r) -> match_chars ci t (l ++ s) = Some ([], r ++ s).
Proof.
  revert l. induction t as [|x t IH]; intros [|y l]; cbn; try done.
  - by intros [= <-].
  - by intros [= <-].
  - destruct (same_char ci x y); [apply IH|done].
Qed.

Lemma match_chars_refl ci t : match_chars ci t t = Some ([], []).
Proof. induction t as [|x t IH]; [done|]. cbn. unfold same_char. destruct ci; by rewrite Z.eqb_refl. Qed.

Lemma match_token_prefix ci t l r s :
  match_chars ci t l = Some ([], r) -> nn_ws_match_token t (l ++ s) ci false = Ret (Some (r ++ s)).
Proof. intros H. unfold nn_ws_match_token. rewrite (match_chars_prefix _ _ _ _ _ H). cbn. by rewrite andb_false_r. Qed.

Lemma match_token_differ ci t l s : match_chars ci t l = None -> nn_ws_match_token t (l ++ s) ci false = Ret None.
Proof. intros H. unfold nn_ws_match_token. by rewrite (match_chars_differ _ _ _ _ H). Qed.

(** The value up to the end of the line. *)
Lemma match_value_line v s lead trail :
  Forall (fun c => c <> 13) v ->
  nn_ws_match_value CRLF (v ++ CRLF ++ s) lead trail =
  Some (let v := if lead then skip_spaces v else v in if trail then reverse (skip_spaces (reverse v)) else v, s).
Proof. intros Hv. unfold nn_ws_match_value, CRLF. by rewrite strstr_first by done. Qed.

(** ** Lines of a header *)

(** The header a literal begins with, when all comparisons are decided by it. *)
Fixpoint header_of (table : list (list Z * field)) (lit : list Z) : option (field * list Z) :=
  match table with
  | [] => None
  | (name, x) :: table =>
      match match_chars true name lit with
      | Some ([], r) => Some (x, r)
      | Some _ => None
      | None => header_of table lit
      end
  end.

Lemma match_header_app table lit x r s :
  header_of table lit = Some (x, r) -> match_header table (lit ++ s) = Ret (Some (x, r ++ s)).
Proof.
  induction table as [|[name y] table IH]; [done|]. cbn [header_of match_header].
  destruct (match_chars true name lit) as [[[|t l] r']|] eqn:E; intros H; try done.
  - injection H as -> ->. by rewrite (match_token_prefix _ _ _ _ _ E).
  - rewrite (match_token_differ _ _ _ _ E). cbn [mbind outcome_bind]. by apply IH.
Qed.

Definition trim (v : list Z) : list Z := reverse (skip_spaces (reverse (skip_spaces v))).

Lemma parse_line fuel table fs lit x r v s :
  header_of table lit = Some (x, r) -> lit <> [] -> Forall (fun c => c <> 13) r -> Forall (fun c => c <> 13) v ->
  parse_headers (S fuel) table fs (lit ++ v ++ CRLF ++ s) = parse_headers fuel table (set_field fs x (Some (trim (r ++ v)))) s.
Proof.
  intros Hh Hl Hr Hv. destruct lit as [|c lit]; [done|]. cbn [parse_headers app is_nil].
  change (c :: lit ++ v ++ CRLF ++ s) with ((c :: lit) ++ v ++ CRLF ++ s).
  rewrite (match_header_app _ _ _ _ _ Hh). cbn [mbind outcome_bind].
  rewrite (app_assoc r v), match_value_line by (by apply Forall_app). done.
Qed.

(** A word: no spaces at its ends. *)
Lemma trim_word v : Forall (fun c => c <> 32) v -> trim (32 :: v) = v.
Proof.
  intros Hv. unfold trim. change (skip_spaces (32 :: v)) with (skip_spaces v).
  assert (Hs : forall w, Forall (fun c => c <> 32) w -> skip_spaces w = w).
  { intros [|c w] Hw; [done|]. apply Forall_cons in Hw as [Hc _]. cbn. by rewrite (proj2 (Z.eqb_neq _ _) Hc). }
  rewrite (Hs v Hv), (Hs (reverse v)); [apply reverse_involutive|by apply Forall_reverse].
Qed.

(** ** Receiving a header *)

Definition no_zero : list Z -> Prop := Forall (fun c => c <> 0).

Lemma c_str_zeros g n : no_zero g -> c_str (g ++ replicate n 0) = g.
Proof.
  induction g as [|c g IH]; intros Hg; cbn; [by destruct n|]. apply Forall_cons in Hg as [Hc Hg].
  by rewrite (proj2 (Z.eqb_neq _ _) Hc), IH.
Qed.

Lemma has_zero_zeros g n : has_zero (g ++ replicate (S n) 0) = true.
Proof. unfold has_zero. rewrite existsb_app. cbn. apply orb_true_r. Qed.

Lemma overlap_spec n buf pos :
  let k := overlap n buf pos in
  (k <= n)%nat /\ take k TERMSEQ = take k (drop (Z.to_nat (pos - Z.of_nat k)) buf) /\
  forall j, (k < j <= n)%nat -> take j TERMSEQ <> take j (drop (Z.to_nat (pos - Z.of_nat j)) buf).
Proof.
  induction n as [|n IH]; cbn zeta.
  { cbn. split_and!; [lia|done|lia]. }
  cbn [overlap]. case_decide as E; [split_and!; [lia|done|lia]|].
  destruct IH as (H1 & H2 & H3). split_and!; [lia|done|]. intros j Hj.
  destruct (decide (j = S n)) as [->|]; [done|]. apply H3. lia.
Qed.

(** A header: it ends with TERMSEQ, which it does not contain before. *)
Definition header (h : list Z) : Prop := exists b, strstr TERMSEQ h = Some (b, []).

Lemma header_split h : header h -> exists b, h = b ++ TERMSEQ /\ forall b' a', h = b' ++ TERMSEQ ++ a' -> a' = [].
Proof.
  intros [b Hb]. pose proof (strstr_Some _ _ _ _ Hb) as E. rewrite app_nil_r in E. exists b. split; [done|].
  intros b' a' E'. pose proof (strstr_earliest _ _ _ _ _ _ Hb E') as Hl.
  apply (f_equal length) in E, E'. rewrite !length_app in E, E'. destruct a'; [done|]. cbn in *. lia.
Qed.

Lemma header_incomplete h p : header h -> (p < length h)%nat -> strstr TERMSEQ (take p h) = None.
Proof.
  intros Hh Hp. destruct (header_split h Hh) as (b & _ & Hlast).
  destruct (strstr TERMSEQ (take p h)) as [[b' a']|] eqn:E; [|done].
  apply strstr_Some in E. exfalso. assert (Hd : a' ++ drop p h = []).
  { apply (Hlast b'). rewrite !app_assoc, <-(app_assoc b'), <-E. symmetry. apply take_drop. }
  apply app_eq_nil in Hd as [_ Hd]. apply (f_equal length) in Hd. rewrite length_drop in Hd. cbn in Hd. lia.
Qed.

(** The bytes that are asked for next are not behind the header. *)
Lemma overlap_header h p n :
  header h -> (4 <= p < length h)%nat ->
  let i := overlap 4 (take p h ++ replicate n 0) (Z.of_nat p) in (i < 4)%nat /\ (p + (4 - i) <= length h)%nat.
Proof.
  intros Hh Hp i. destruct (overlap_spec 4 (take p h ++ replicate n 0) (Z.of_nat p)) as (H1 & H2 & H3). fold i in H1, H2, H3.
  assert (Hslice : forall j, (j <= 4)%nat ->
    take j (drop (Z.to_nat (Z.of_nat p - Z.of_nat j)) (take p h ++ replicate n 0)) = drop (p - j) (take p h)).
  { intros j Hj. replace (Z.to_nat (Z.of_nat p - Z.of_nat j)) with (p - j)%nat by lia.
    rewrite drop_app_le by (rewrite length_take; lia). apply take_app_length'. rewrite length_drop, length_take. lia. }
  assert (Hi : (i < 4)%nat).
  { destruct (decide (i = 4)%nat) as [E|]; [|lia]. exfalso. rewrite Hslice in H2 by lia. rewrite E in H2.
    pose proof (header_incomplete h p Hh ltac:(lia)) as Hn.
    destruct (strstr_complete TERMSEQ (take (p - 4) (take p h)) []) as (b & a & Hb).
    rewrite app_nil_r in Hb. change (take 4 TERMSEQ) with TERMSEQ in H2. rewrite H2, take_drop in Hb. congruence. }
  split; [done|]. destruct (header_split h Hh) as (b & Eh & _).
  assert (Hlen : length h = (length b + 4)%nat) by (rewrite Eh, length_app; done).
  destruct (decide (p + (4 - i) <= length h)%nat); [done|]. exfalso.
  apply (H3 (p - length b)%nat); [lia|]. rewrite Hslice by lia.
  replace (p - (p - length b))%nat with (length b) by lia. rewrite Eh.
  rewrite take_app_ge by lia. rewrite drop_app_le by lia. rewrite drop_ge by lia. cbn [app]. done.
Qed.

Definition zero_pad (n : nat) (g : list Z) : list Z := g ++ replicate (n - length g) 0.

Lemma write_at_pad n g d :
  (length g + length d <= n)%nat -> write_at (zero_pad n g) (Z.of_nat (length g)) d = zero_pad n (g ++ d).
Proof.
  intros Hl. unfold write_at, zero_pad. rewrite Nat2Z.id, take_app_length, <-app_assoc, length_app. do 2 f_equal.
  rewrite drop_app_ge by lia. rewrite drop_replicate. f_equal. lia.
Qed.

Lemma size_pad n g : (length g <= n)%nat -> size (zero_pad n g) = Z.of_nat n.
Proof. intros. unfold size, zero_pad. rewrite length_app, length_replicate. lia. Qed.

Section receive.
  Context (local : Z) (ispeer : Z -> bool) (le : bool) (junk rand_key : list Z).

Definition capacity (self : nn_ws_handshake) : nat := if hs_mode self =? NN_WS_SERVER then 4096 else 512.
Definition buffer_of (self : nn_ws_handshake) : list Z := if hs_mode self =? NN_WS_SERVER then opening_hs self else response self.

(** Waiting for bytes, on either side. *)
Definition receives (self : nn_ws_handshake) : Prop :=
  fsm_st (hfsm self) = FSM_ACTIVE /\
  ((hs_st self = SERVER_RECV /\ hs_mode self = NN_WS_SERVER) \/ (hs_st self = CLIENT_RECV /\ hs_mode self = NN_WS_CLIENT)).

Definition received (self : nn_ws_handshake) : outcome nn_ws_handshake :=
  if hs_mode self =? NN_WS_SERVER then server_received local ispeer le junk self else client_received self.

Definition set_buffer (self : nn_ws_handshake) (buf : list Z) : nn_ws_handshake :=
  if hs_mode self =? NN_WS_SERVER then with_buffers self buf (response self) else with_buffers self (opening_hs self) buf.

(** All but the receiving is as it was, and the buffer holds [g]. *)
Definition got (self self' : nn_ws_handshake) (g : list Z) : Prop :=
  exists r p l q, self' = with_usock (with_recv (set_buffer self (zero_pad (capacity self) g)) r p l) (usock self) q.

(** The object in the middle of the header [h]. *)
Record amid (self : nn_ws_handshake) (h : list Z) (p l : nat) : Prop := Amid {
  a_receives : receives self;
  a_buffer : buffer_of self = zero_pad (capacity self) (take p h);
  a_pos : recv_pos self = Z.of_nat p;
  a_len : recv_len self = Z.of_nat l;
  a_next : (1 <= l)%nat /\ (4 <= p + l <= length h)%nat
}.

Lemma usock_received_eq self d :
  receives self -> usock_received local ispeer le junk rand_key self d = received (fill self d).
Proof.
  intros [Hf Hr]. unfold usock_received, nn_fsm_feed, received.
  assert (E1 : hfsm (fill self d) = hfsm self) by (unfold fill; by case_match).
  assert (E2 : hs_st (fill self d) = hs_st self) by (unfold fill; by case_match).
  assert (E3 : hs_mode (fill self d) = hs_mode self) by (unfold fill; by case_match).
  cbn [fsm handshake_object fn]. rewrite E1, Hf, decide_True by done. unfold nn_ws_handshake_handler. rewrite E2, E3.
  by destruct Hr as [[-> ->]|[-> ->]].
Qed.

Lemma got_trans self self' self'' g g' : got self self' g -> got self' self'' g' -> got self self'' g'.
Proof.
  intros (r & p & l & q & ->) (r' & p' & l' & q' & ->). exists r', p', l', q'.
  unfold set_buffer, capacity. destruct (hs_mode self =? NN_WS_SERVER) eqn:E; cbn; by rewrite E.
Qed.

Lemma fill_got self h p l :
  amid self h p l -> (length h < capacity self)%nat ->
  got self (fill self (take l (drop p h))) (take (p + l) h).
Proof.
  intros [Hr Hb Hp Hl Hn] Hc. exists (retries self), (recv_pos self), (recv_len self), (io self).
  assert (E : write_at (buffer_of self) (recv_pos self) (take l (drop p h)) = zero_pad (capacity self) (take (p + l) h)).
  { rewrite Hb, Hp. replace p with (length (take p h)) at 2 by (rewrite length_take; lia).
    rewrite write_at_pad by (rewrite !length_take, length_drop; lia). by rewrite take_take_drop. }
  unfold fill, set_buffer, buffer_of in *. destruct self; cbn in *. destruct (hs_mode =? NN_WS_SERVER); by rewrite E.
Qed.

(** An incomplete header is not parsed, and the next bytes are asked for. *)
Lemma received_more self h p l :
  receives self -> buffer_of self = zero_pad (capacity self) (take (p + l) h) -> header h -> no_zero h ->
  recv_pos self = Z.of_nat p -> recv_len self = Z.of_nat l -> (4 <= p + l < length h)%nat -> (length h < capacity self)%nat ->
  exists self' l', received self = Ret self' /\ got self self' (take (p + l) h) /\ amid self' h (p + l) l'.
Proof.
  intros Hr Hb Hh Hz Hp Hl Hn Hc. set (g := take (p + l) h) in *.
  assert (Hg : length g = (p + l)%nat) by (unfold g; rewrite length_take; lia).
  assert (Hgz : no_zero g) by (by apply Forall_take).
  assert (Hcap : (capacity self - length g = S (capacity self - length g - 1))%nat) by lia.
  assert (Ezero : has_zero (buffer_of self) = true) by (rewrite Hb; unfold zero_pad; rewrite Hcap; apply has_zero_zeros).
  assert (Estr : c_str (buffer_of self) = g) by (rewrite Hb; by apply c_str_zeros).
  assert (Esize : size (buffer_of self) = Z.of_nat (capacity self)) by (rewrite Hb; apply size_pad; lia).
  assert (Hnone : strstr TERMSEQ g = None) by (by apply header_incomplete; [|lia]).
  destruct (overlap_header h (p + l) (capacity self - length g) Hh ltac:(lia)) as [Hi1 Hi2]. fold g in Hi1, Hi2.
  change (g ++ replicate (capacity self - length g) 0) with (zero_pad (capacity self) g) in Hi1, Hi2.
  rewrite <-Hb in Hi1, Hi2. set (i := overlap 4 (buffer_of self) (Z.of_nat (p + l))) in *.
  set (self' := ask (with_recv self (retries self + 1) (Z.of_nat (p + l)) (4 - Z.of_nat i)) (IoRecv (4 - Z.of_nat i))).
  assert (Emore : recv_more self (buffer_of self) = Ret (self', true)).
  { unfold recv_more. rewrite Hp, Hl, <-Nat2Z.inj_add. fold i. rewrite Esize.
    rewrite (proj2 (Z.ltb_lt (Z.of_nat (p + l)) _)), (proj2 (Z.geb_le _ _)), (proj2 (Z.ltb_lt (Z.of_nat i) 4)) by lia.
    cbn [check mbind outcome_bind]. rewrite Z.gtb_ltb, (proj2 (Z.ltb_ge _ _)) by lia. done. }
  exists self', (4 - i)%nat. split; [|split].
  - unfold received, server_received, client_received, nn_ws_handshake_parse_client_opening, nn_ws_handshake_parse_server_response.
    unfold buffer_of in *. destruct (hs_mode self =? NN_WS_SERVER); rewrite Ezero; cbn [check mbind outcome_bind];
      rewrite Estr, Esize, (proj2 (Z.ltb_lt _ _)) by (unfold size; lia); cbn [check mbind outcome_bind]; rewrite Hnone;
      cbn [mbind outcome_bind]; by rewrite Emore.
  - exists (retries self + 1), (Z.of_nat (p + l)), (4 - Z.of_nat i), (io self ++ [IoRecv (4 - Z.of_nat i)]).
    unfold self', set_buffer. unfold buffer_of in Hb. destruct self; cbn in *. destruct (hs_mode =? NN_WS_SERVER); by rewrite <-Hb.
  - split; [exact Hr|exact Hb|done| |lia]. change (4 - Z.of_nat i = Z.of_nat (4 - i)). lia.
Qed.

Lemma got_buffer self self' g : got self self' g -> buffer_of self' = zero_pad (capacity self) g.
Proof.
  intros (r & p & l & q & ->). unfold buffer_of, set_buffer. destruct (hs_mode self =? NN_WS_SERVER) eqn:E; cbn; by rewrite E.
Qed.

Lemma got_capacity self self' g : got self self' g -> capacity self' = capacity self.
Proof.
  intros (r & p & l & q & ->). unfold capacity, set_buffer. destruct (hs_mode self =? NN_WS_SERVER) eqn:E; cbn; by rewrite E.
Qed.

(** Filling the buffer changes nothing else. *)
Lemma fill_keeps self d :
  let self' := fill self d in
  capacity self' = capacity self /\ (receives self -> receives self') /\
  recv_pos self' = recv_pos self /\ recv_len self' = recv_len self.
Proof. unfold fill. by destruct (hs_mode self =? NN_WS_SERVER). Qed.

(** The whole header is read, not a byte more, and then parsed. *)
Lemma feed_header fuel self h p l rest :
  amid self h p l -> header h -> no_zero h -> (length h < capacity self)%nat -> (length h - p < fuel)%nat ->
  exists self' fuel', got self self' h /\ receives self' /\ recv_pos self' + recv_len self' = Z.of_nat (length h) /\
    feed local ispeer le junk rand_key fuel self (drop p h ++ rest) =
    (s ← received self'; feed local ispeer le junk rand_key fuel' s rest).
Proof.
  revert self p l. induction fuel as [|fuel IH]; intros self p l Ha Hh Hz Hc Hf; [lia|].
  pose proof (fill_got self h p l Ha Hc) as Hg. destruct Ha as [Hr Hb Hp Hl [Hl1 Hn]].
  assert (Hst : hs_st self = SERVER_RECV \/ hs_st self = CLIENT_RECV) by (destruct Hr as [_ [[? _]|[? _]]]; auto).
  cbn [feed]. rewrite decide_True by done. rewrite Hl, Nat2Z.id.
  rewrite decide_False by (rewrite length_app, length_drop; lia).
  rewrite take_app_le, drop_app_le by (rewrite length_drop; lia). rewrite drop_drop.
  rewrite usock_received_eq by done. set (filled := fill self (take l (drop p h))) in *.
  destruct (fill_keeps self (take l (drop p h))) as (Hcap & Hrec & Hp' & Hl'). fold filled in Hcap, Hrec, Hp', Hl'.
  specialize (Hrec Hr). destruct (decide (p + l = length h)%nat) as [E|].
  - exists filled, fuel. rewrite E in *. rewrite take_ge in Hg by lia. rewrite drop_ge by lia.
    split; [done|]. split; [done|]. split; [lia|done].
  - destruct (received_more filled h p l) as (self' & l' & -> & Hg' & Ha'); try done; try congruence; try lia.
    { rewrite Hcap. by apply got_buffer. }
    cbn [mbind outcome_bind].
    pose proof (got_capacity _ _ _ Hg') as Hcap'.
    destruct (IH self' (p + l)%nat l' Ha' Hh Hz) as (last & fuel' & Hgl & Hrl & Hpl & Hfeed); [congruence|lia|].
    exists last, fuel'. split; [|split; [done|split; [done|exact Hfeed]]].
    eapply got_trans; [|exact Hgl]. eapply got_trans; [exact Hg|exact Hg'].
Qed.
End receive.

(** ** The request and the reply, parsed *)

(** Text without spaces and control characters. *)
Definition text (v : list Z) : Prop := Forall (fun c => 32 < c < 127) v.

Lemma text_without c v : text v -> c <= 32 -> Forall (fun x => x <> c) v.
Proof. intros Hv Hc. eapply Forall_impl; [exact Hv|]. cbn. lia. Qed.

Lemma literal_without c lit : forallb (fun x => negb (x =? c)) lit = true -> Forall (fun x => x <> c) lit.
Proof.
  intros H. apply Forall_forall. intros x Hx. rewrite forallb_forall in H.
  specialize (H x (proj1 (list_elem_of_In _ _) Hx)). by apply negb_true_iff, Z.eqb_neq in H.
Qed.

(** [plain] solves [Forall (fun x => x <> c) v] for texts, constants and their
    concatenations. *)
Ltac plain :=
  repeat apply Forall_app_2;
  first [apply literal_without; vm_compute; reflexivity | apply text_without; [assumption|lia]].

Lemma header_skip v s : Forall (fun x => x <> 13) v -> header s -> header (v ++ s).
Proof. intros Hv [b Hb]. exists (v ++ b). unfold TERMSEQ in *. by rewrite strstr_skip, Hb by done. Qed.

Lemma header_line lit s :
  match lit with c :: _ => c <> 13 | [] => False end -> header (lit ++ s) -> header (CRLF ++ lit ++ s).
Proof.
  destruct lit as [|c lit]; [done|]. intros Hc [b Hb]. exists (CRLF ++ b). cbn [app CRLF] in *.
  rewrite 2!strstr_step, Hb by (unfold TERMSEQ; cbn; congruence). done.
Qed.

Lemma header_end : header (CRLF ++ CRLF).
Proof. by exists []. Qed.

Lemma request_header res host key sp :
  text res -> text host -> text key -> text sp -> header (request_text res host key sp).
Proof.
  intros. unfold request_text.
  repeat first [apply header_end | apply header_skip; [plain|] | apply header_line; [vm_compute; discriminate|]].
Qed.

Lemma request_no_zero res host key sp :
  text res -> text host -> text key -> text sp -> no_zero (request_text res host key sp).
Proof. intros. unfold request_text, no_zero. plain. Qed.

Lemma reply_header accept sp : text accept -> text sp -> header (reply_text accept sp).
Proof.
  intros. unfold reply_text.
  repeat first [apply header_end | apply header_skip; [plain|] | apply header_line; [vm_compute; discriminate|]].
Qed.

Lemma reply_no_zero accept sp : text accept -> text sp -> no_zero (reply_text accept sp).
Proof. intros. unfold reply_text, no_zero. plain. Qed.

(** A line whose value is text, and one that is a constant. *)
Lemma parse_text fuel table fs lit x v s :
  header_of table lit = Some (x, [32]) -> lit <> [] -> text v ->
  parse_headers (S fuel) table fs (lit ++ v ++ CRLF ++ s) = parse_headers fuel table (set_field fs x (Some v)) s.
Proof.
  intros Hh Hl Hv. rewrite (parse_line _ _ _ _ _ [32]) by first [exact Hh | exact Hl | plain].
  cbn [app]. by rewrite trim_word by plain.
Qed.

Lemma parse_constant fuel table fs lit x r s :
  header_of table lit = Some (x, r) -> lit <> [] -> forallb (fun c => negb (c =? 13)) r = true ->
  parse_headers (S fuel) table fs (lit ++ CRLF ++ s) = parse_headers fuel table (set_field fs x (Some (trim r))) s.
Proof.
  intros Hh Hl Hr. change (lit ++ CRLF ++ s) with (lit ++ [] ++ CRLF ++ s).
  rewrite (parse_line _ _ _ _ _ r) by first [exact Hh | exact Hl | by apply literal_without]. by rewrite app_nil_r.
Qed.

Lemma parse_end fuel table fs :
  match_header table CRLF = Ret None -> parse_headers (S fuel) table fs CRLF = Ret (fs, Some []).
Proof. intros H. cbn [parse_headers]. unfold CRLF in *. cbn [is_nil]. by rewrite H. Qed.

(** A line with an unknown header. *)
Lemma parse_unknown fuel table fs lit v s :
  (forall s, match_header table (lit ++ s) = Ret None) -> match_chars true CRLF lit = None -> lit <> [] ->
  Forall (fun c => c <> 13) (lit ++ v) ->
  parse_headers (S fuel) table fs (lit ++ v ++ CRLF ++ s) = parse_headers fuel table fs s.
Proof.
  intros Hh Hc Hl Hv. destruct lit as [|c lit]; [done|]. cbn [parse_headers app is_nil].
  change (c :: lit ++ v ++ CRLF ++ s) with ((c :: lit) ++ v ++ CRLF ++ s).
  rewrite Hh, (match_token_differ _ _ _ _ Hc). cbn [mbind outcome_bind].
  by rewrite app_assoc, match_value_line.
Qed.

(** All headers of the table differ from the literal. *)
Fixpoint all_differ (table : list (list Z * field)) (lit : list Z) : bool :=
  match table with
  | [] => true
  | (name, _) :: table => match match_chars true name lit with None => all_differ table lit | Some _ => false end
  end.

Lemma match_header_none table lit s : all_differ table lit = true -> match_header table (lit ++ s) = Ret None.
Proof.
  induction table as [|[name x] table IH]; [done|]. cbn [all_differ match_header].
  destruct (match_chars true name lit) eqn:E; [done|]. intros H. rewrite (match_token_differ _ _ _ _ E). by apply IH.
Qed.

(** The fields of a nanomsg request. *)
Definition request_fields (fs : fields) (res host key sp : list Z) : fields :=
  set_field (set_field (set_field (set_field (set_field (set_field (set_field fs URI (Some res)) HOST (Some host))
    UPGRADE (Some (str "websocket"))) CONN (Some (str "Upgrade"))) KEY (Some key)) VERSION (Some (str "13")))
    PROTOCOL (Some sp).

Ltac constant_line := erewrite parse_constant; [|cbv; reflexivity|discriminate|vm_compute; reflexivity].
Ltac text_line := erewrite parse_text; [|cbv; reflexivity|discriminate|assumption].

Lemma request_headers fuel fs host key sp :
  text host -> text key -> text sp ->
  parse_headers (7 + fuel) client_headers fs
    (str "Host: " ++ host ++ CRLF ++ str "Upgrade: websocket" ++ CRLF ++ str "Connection: Upgrade" ++ CRLF ++
     str "Sec-WebSocket-Key: " ++ key ++ CRLF ++ str "Sec-WebSocket-Version: 13" ++ CRLF ++
     str "Sec-WebSocket-Protocol: " ++ sp ++ CRLF ++ CRLF) =
  Ret (set_field (set_field (set_field (set_field (set_field (set_field fs HOST (Some host))
    UPGRADE (Some (str "websocket"))) CONN (Some (str "Upgrade"))) KEY (Some key)) VERSION (Some (str "13")))
    PROTOCOL (Some sp), Some []).
Proof.
  intros. cbn [Nat.add]. text_line. constant_line. constant_line. text_line. constant_line. text_line.
  rewrite parse_end by (vm_compute; reflexivity). reflexivity.
Qed.

Lemma request_line_ok fs res s :
  text res -> request_line fs (str "GET " ++ res ++ str " HTTP/1.1" ++ CRLF ++ s) = Ret (set_field fs URI (Some res), Some s).
Proof.
  intros Hr. unfold request_line. rewrite (match_token_prefix _ _ _ []) by (vm_compute; reflexivity).
  cbn [mbind outcome_bind app]. unfold nn_ws_match_value. change (str " HTTP/1.1") with (str " " ++ str "HTTP/1.1").
  change (str " ") with [32]. rewrite <-app_assoc, strstr_first by plain.
  rewrite (match_token_prefix _ _ _ []) by (vm_compute; reflexivity). cbn [mbind outcome_bind app].
  by rewrite (match_token_prefix _ _ _ []) by (vm_compute; reflexivity).
Qed.

Lemma fuel_enough {A} (l : list A) n : (n <= length l)%nat -> exists k, length l = (n + k)%nat.
Proof. intros. exists (length l - n)%nat. lia. Qed.

(** What the server makes of a nanomsg request. *)
Lemma parse_request local ispeer self res host key sp :
  opening_hs self = zero_pad 4096 (request_text res host key sp) -> size (request_text res host key sp) < 4096 ->
  text res -> text host -> text key -> text sp ->
  let '(code, v) := find_peer local NN_WS_HANDSHAKE_SP_MAP sp in
  nn_ws_handshake_parse_client_opening local ispeer self =
  Ret (v, with_fields self (request_fields (clear_fields self) res host key sp) code).
Proof.
  intros Hb Hl Hr Hh Hk Hs. set (req := request_text res host key sp) in *.
  unfold nn_ws_handshake_parse_client_opening. rewrite Hb.
  replace (has_zero (zero_pad 4096 req)) with true.
  2: { symmetry. unfold zero_pad. replace (4096 - length req)%nat with (S (4095 - length req)) by (unfold size in Hl; lia).
       apply has_zero_zeros. }
  cbn [check mbind outcome_bind]. assert (Estr : c_str (zero_pad 4096 req) = req) by (by apply c_str_zeros, request_no_zero).
  rewrite Estr.  rewrite size_pad by (unfold size in Hl; lia). rewrite (proj2 (Z.ltb_lt _ _)) by lia. cbn [check mbind outcome_bind].
  destruct (request_header res host key sp Hr Hh Hk Hs) as [b Hfound]. fold req in Hfound. rewrite Hfound.
  unfold req, request_text. rewrite request_line_ok by done. cbn [mbind outcome_bind].
  match goal with |- context [parse_headers (length ?l) _ _ ?l] =>
    destruct (fuel_enough l 7) as [k ->]; [rewrite !length_app; cbn; lia|] end.
  rewrite request_headers by done. cbn [mbind outcome_bind is_nil check].
  fold (request_fields (clear_fields self) res host key sp).
  replace (check_opening local ispeer (request_fields (clear_fields self) res host key sp))
    with (find_peer local NN_WS_HANDSHAKE_SP_MAP sp) by reflexivity.
  by destruct (find_peer local NN_WS_HANDSHAKE_SP_MAP sp).
Qed.

(** ** Keys *)

Lemma text_bytes v : text v -> bytes v.
Proof. intros Hv. eapply Forall_impl; [exact Hv|]. unfold is_byte. cbn. lia. Qed.

Lemma encoding_text i : bytes i -> text (encoding i).
Proof. intros Hi. eapply Forall_impl; [by apply encoding_chars|]. cbn. lia. Qed.

(** Encoding into a buffer that is just large enough. *)
Lemma encode_exact i n :
  bytes i -> size (encoding i) = Z.of_nat n -> Z.of_nat n < 2 ^ 31 ->
  nn_base64_encode i (replicate (S n) 0) = Ret (Z.of_nat n, encoding i ++ [0]).
Proof.
  intros Hi Hs Hn. assert (Hr : size (replicate (S n) 0) = Z.of_nat n + 1) by (unfold size; rewrite length_replicate; lia).
  destruct (encode_result i (replicate (S n) 0) Hi) as (rc & out & -> & _ & H); [lia|].
  rewrite Hr, Hs, Z.leb_refl in H. destruct H as [-> ->].
  rewrite drop_ge by (rewrite length_replicate; lia). done.
Qed.

(** The accept key of RFC 6455 for a key. *)
Definition accept_of (key : list Z) : list Z := encoding (Fips.sha1 (key ++ NN_WS_HANDSHAKE_MAGIC_GUID)).

Lemma accept_size key : size (accept_of key) = 28.
Proof. unfold accept_of. rewrite encoding_size. unfold Fips.sha1, size. by rewrite digest_length. Qed.

Lemma accept_text key : text (accept_of key).
Proof. apply encoding_text, digest_bytes. Qed.

Section keys.
  Context (le : bool) (junk : list Z).
  Hypothesis (Hjunk : length junk = 16%nat) (Hwords : Forall is_word junk).

Lemma hash_key_ok key :
  text key -> size key < 2 ^ 31 ->
  nn_ws_handshake_hash_key le junk key (replicate 29 0) = Ret (28, accept_of key ++ [0]).
Proof.
  intros Hk Hs. unfold nn_ws_handshake_hash_key. rewrite sha1_is_fips; try done.
  - apply (encode_exact _ 28); [apply digest_bytes|apply accept_size|done].
  - apply Forall_app_2; [by apply text_bytes|]. apply Forall_forall. intros x Hx.
    assert (Hall : forallb (fun c => (0 <=? c) && (c <? 256)) NN_WS_HANDSHAKE_MAGIC_GUID = true) by (vm_compute; reflexivity).
    rewrite forallb_forall in Hall. specialize (Hall x (proj1 (list_elem_of_In _ _) Hx)). unfold is_byte. lia.
  - rewrite length_app. unfold size in Hs. change (length NN_WS_HANDSHAKE_MAGIC_GUID) with 36%nat. lia.
Qed.
End keys.

Lemma c_str_end v : no_zero v -> c_str (v ++ [0]) = v.
Proof. apply (c_str_zeros v 1). Qed.

Lemma c_str_text v : text v -> c_str (v ++ [0]) = v.
Proof. intros Hv. apply c_str_end. unfold no_zero. plain. Qed.

(** ** The reply, parsed by the client *)

Definition reply_fields (fs : fields) (accept : list Z) : fields :=
  set_field (set_field (set_field (set_field (set_field fs STATUS_CODE (Some (str "101")))
    REASON_PHRASE (Some (str "Switching Protocols"))) UPGRADE (Some (str "websocket"))) CONN (Some (str "Upgrade")))
    ACCEPT_KEY (Some accept).

Lemma status_line_ok fs s :
  status_line fs (str "HTTP/1.1 101 Switching Protocols" ++ CRLF ++ s) =
  Ret (set_field (set_field fs STATUS_CODE (Some (str "101"))) REASON_PHRASE (Some (str "Switching Protocols")), Some s).
Proof.
  unfold status_line. rewrite (match_token_prefix _ _ _ (str "101 Switching Protocols")) by (vm_compute; reflexivity).
  cbn [mbind outcome_bind]. unfold nn_ws_match_value at 1.
  change (str "101 Switching Protocols") with (str "101" ++ [32] ++ str "Switching Protocols").
  rewrite <-!app_assoc. change (str " ") with [32]. rewrite strstr_first by plain.
  by rewrite match_value_line by plain.
Qed.

(** The reply behind the status line. *)
Definition reply_rest (accept sp : list Z) : list Z :=
  str "Upgrade: websocket" ++ CRLF ++ str "Connection: Upgrade" ++ CRLF ++
  str "Sec-WebSocket-Accept: " ++ accept ++ CRLF ++ str "Sec-WebSocket-Protocol: " ++ sp ++ CRLF ++ CRLF.

Lemma status_reply fs accept sp :
  status_line fs (reply_text accept sp) =
  Ret (set_field (set_field fs STATUS_CODE (Some (str "101"))) REASON_PHRASE (Some (str "Switching Protocols")),
       Some (reply_rest accept sp)).
Proof. apply status_line_ok. Qed.

Lemma reply_headers fuel fs accept sp :
  text accept -> text sp ->
  parse_headers (5 + fuel) server_headers fs (reply_rest accept sp) =
  Ret (set_field (set_field (set_field fs UPGRADE (Some (str "websocket"))) CONN (Some (str "Upgrade")))
    ACCEPT_KEY (Some accept), Some []).
Proof.
  intros. unfold reply_rest. cbn [Nat.add]. constant_line. constant_line. text_line.
  rewrite parse_unknown; [|intros s; apply match_header_none; vm_compute; reflexivity|vm_compute; reflexivity|discriminate|plain].
  rewrite parse_end by (vm_compute; reflexivity). reflexivity.
Qed.

Lemma check_reply fs accept : check_response accept (reply_fields fs accept) = VALID.
Proof.
  assert (Ek : is_value (reply_fields fs accept) ACCEPT_KEY accept = true).
  { change (nn_ws_validate_value accept accept true = true). unfold nn_ws_validate_value.
    by rewrite Z.eqb_refl, match_chars_refl. }
  unfold check_response. rewrite Ek. reflexivity.
Qed.

Lemma parse_reply self accept sp :
  expected_accept_key self = accept -> response self = zero_pad 512 (reply_text accept sp) ->
  size (reply_text accept sp) < 512 -> text accept -> text sp ->
  nn_ws_handshake_parse_server_response self =
  Ret (VALID, with_fields self (reply_fields (clear_response_fields self) accept) (response_code self)).
Proof.
  intros He Hb Hl Ha Hs. unfold nn_ws_handshake_parse_server_response. rewrite Hb, He.
  assert (Ezero : has_zero (zero_pad 512 (reply_text accept sp)) = true).
  { unfold zero_pad. replace (512 - length (reply_text accept sp))%nat
      with (S (511 - length (reply_text accept sp))) by (unfold size in Hl; lia). apply has_zero_zeros. }
  assert (Estr : c_str (zero_pad 512 (reply_text accept sp)) = reply_text accept sp) by (by apply c_str_zeros, reply_no_zero).
  rewrite Ezero, Estr. cbn [check mbind outcome_bind].
  rewrite size_pad by (unfold size in Hl; lia). rewrite (proj2 (Z.ltb_lt _ _)) by lia. cbn [check mbind outcome_bind].
  destruct (reply_header accept sp Ha Hs) as [b ->]. rewrite status_reply, bind_of_Ret.
  destruct (fuel_enough (reply_rest accept sp) 5) as [k ->]; [unfold reply_rest; rewrite !length_app; cbn; lia|].
  rewrite reply_headers by done. rewrite !bind_of_Ret. cbn [is_nil check]. rewrite bind_of_Ret.
  fold (reply_fields (clear_response_fields self) accept). rewrite check_reply. reflexivity.
Qed.

(** ** A client against a server *)

(** The text the object sent last. *)
Definition sent (self : nn_ws_handshake) : list Z :=
  match last (io self) with Some (IoSend t) => t | _ => [] end.

(** The ten socket types. *)
Definition socket_type (p : Z) : Prop := existsb (fun e => sp_client e =? p) NN_WS_HANDSHAKE_SP_MAP = true.

(** What a socket of type [p] connects to. *)
Definition peer_of (p : Z) : option Z := sp_server <$> List.find (fun e => sp_client e =? p) NN_WS_HANDSHAKE_SP_MAP.

Lemma find_peer_entry q table sp :
  find_peer q table sp =
  match List.find (fun e => nn_ws_validate_value (ws_sp e) sp true) table with
  | Some e => if q =? sp_server e then (RESPONSE_OK, VALID) else (RESPONSE_NOTPEER, INVALID)
  | None => (RESPONSE_UNKNOWNTYPE, INVALID)
  end.
Proof. induction table as [|e table IH]; [done|]. cbn. by destruct (nn_ws_validate_value (ws_sp e) sp true). Qed.

Lemma literal_text lit : forallb (fun c => (32 <? c) && (c <? 127)) lit = true -> text lit.
Proof.
  intros H. apply Forall_forall. intros x Hx. rewrite forallb_forall in H.
  specialize (H x (proj1 (list_elem_of_In _ _) Hx)). lia.
Qed.

(** The name a client announces is understood by the server. *)
Lemma find_type_ok p :
  socket_type p ->
  exists sp, find_type p NN_WS_HANDSHAKE_SP_MAP = Ret sp /\ text sp /\ size sp <= 26 /\
    forall q, find_peer q NN_WS_HANDSHAKE_SP_MAP sp =
      if decide (peer_of p = Some q) then (RESPONSE_OK, VALID) else (RESPONSE_NOTPEER, INVALID).
Proof.
  intros (e & He%list_elem_of_In & <-%Z.eqb_eq)%existsb_exists. exists (ws_sp e).
  assert (Hall : Forall (fun e => find_type (sp_client e) NN_WS_HANDSHAKE_SP_MAP = Ret (ws_sp e) /\ text (ws_sp e) /\
    size (ws_sp e) <= 26 /\ peer_of (sp_client e) = Some (sp_server e) /\
    List.find (fun e' => nn_ws_validate_value (ws_sp e') (ws_sp e) true) NN_WS_HANDSHAKE_SP_MAP = Some e) NN_WS_HANDSHAKE_SP_MAP).
  { repeat (constructor; [split_and!; [vm_compute; reflexivity|apply literal_text; vm_compute; reflexivity
      |vm_compute; discriminate|vm_compute; reflexivity|vm_compute; reflexivity]|]). constructor. }
  destruct (proj1 (Forall_forall _ _) Hall e He) as (H1 & H2 & H3 & H4 & H5).
  split; [done|]. split; [done|]. split; [done|]. intros q. rewrite find_peer_entry, H4, H5.
  destruct (Z.eqb_spec q (sp_server e)); [rewrite decide_True by congruence|rewrite decide_False by congruence]; done.
Qed.

Lemma sprintf_pad n t : size t < Z.of_nat n -> sprintf (replicate n 0) t = Ret (zero_pad n t).
Proof.
  intros Hs. unfold sprintf, size in *. rewrite length_replicate, (proj2 (Z.leb_le _ _)) by lia. do 2 f_equal.
  unfold zero_pad. f_equal. rewrite drop_replicate. by replace (n - length t)%nat with (S (n - S (length t))) by lia.
Qed.

Lemma feed_done local ispeer le junk rand_key fuel self rest :
  hs_st self <> SERVER_RECV -> hs_st self <> CLIENT_RECV ->
  feed local ispeer le junk rand_key fuel self rest = Ret (self, rest).
Proof. intros H1 H2. destruct fuel; cbn [feed]; by rewrite decide_False by naive_solver. Qed.

Lemma amid_start self h l :
  receives self -> buffer_of self = replicate (capacity self) 0 -> recv_pos self = 0 -> recv_len self = Z.of_nat l ->
  (4 <= l <= length h)%nat -> amid self h 0 l.
Proof. intros Hr Hb Hp Hl Hn. split; [done| |done|done|lia]. rewrite Hb. unfold zero_pad. cbn. by rewrite Nat.sub_0_r. Qed.

Lemma request_size res host key sp :
  size (request_text res host key sp) = 140 + size res + size host + size key + size sp.
Proof. unfold size, request_text. rewrite !length_app. cbn. lia. Qed.

Lemma reply_size accept sp : size (reply_text accept sp) = 127 + size accept + size sp.
Proof. unfold size, reply_text. rewrite !length_app. cbn. lia. Qed.

(** A timer that runs, as a handshake starts it. *)
Definition running : nn_timer := Timer (Fsm FSM_ACTIVE []) TIMER_ACTIVE NN_WS_HANDSHAKE_TIMEOUT [NN_TIMER_SRC_START_TASK] false.
Definition halted : nn_timer :=
  Timer (Fsm FSM_STOPPING []) TIMER_STOPPING NN_WS_HANDSHAKE_TIMEOUT [NN_TIMER_SRC_START_TASK; NN_TIMER_SRC_STOP_TASK] false.

Lemma timer_runs : nn_timer_start nn_timer_init NN_WS_HANDSHAKE_TIMEOUT = Ret running.
Proof. reflexivity. Qed.

Lemma timer_halts : nn_timer_stop running = Ret halted.
Proof. reflexivity. Qed.

(** The client recognises the server's answer. *)
Lemma client_accepts le junk p ispeer self accept sp :
  hs_mode self = NN_WS_CLIENT -> hs_timer self = running -> expected_accept_key self = accept ->
  response self = zero_pad 512 (reply_text accept sp) -> text accept -> size accept = 28 -> text sp -> size sp <= 26 ->
  exists self', received p ispeer le junk self = Ret self' /\ hs_st self' = STOPPING_TIMER_DONE.
Proof.
  intros Hm Ht He Hb Ha Has Hs Hss. unfold received. rewrite Hm. change (NN_WS_CLIENT =? NN_WS_SERVER) with false.
  unfold client_received. erewrite parse_reply, bind_of_Ret; [|done|exact Hb|rewrite reply_size; lia|done|done].
  unfold stop_timer. cbn [with_fields hs_timer]. rewrite Ht, timer_halts, bind_of_Ret. by eexists.
Qed.

Section run.
  Context (le : bool) (junk : list Z).
  Hypothesis (Hjunk : length junk = 16%nat) (Hwords : Forall is_word junk).

Section client.
  Context (p : Z) (ispeer : Z -> bool) (rand_key sp : list Z).
  Hypothesis (Hkey : bytes rand_key) (Hkeylen : size rand_key = 16).
  Hypothesis (Hsp : find_type p NN_WS_HANDSHAKE_SP_MAP = Ret sp) (Htext : text sp).

Lemma key_size : size (encoding rand_key) = 24.
Proof. by rewrite encoding_size, Hkeylen. Qed.

Lemma client_request_ok self :
  opening_hs self = replicate 4096 0 ->
  size (request_text (resource self) (remote_host self) (encoding rand_key) sp) < 4096 ->
  text (resource self) -> text (remote_host self) ->
  nn_ws_handshake_client_request p le junk rand_key self =
  Ret (ask (with_buffers (with_key self (accept_of (encoding rand_key)))
    (zero_pad 4096 (request_text (resource self) (remote_host self) (encoding rand_key) sp)) (response self))
    (IoSend (request_text (resource self) (remote_host self) (encoding rand_key) sp))).
Proof.
  intros Hb Hs Hr Hh. unfold nn_ws_handshake_client_request.
  pose proof (encoding_text rand_key Hkey) as Hkt. pose proof key_size as Hks.
  rewrite (encode_exact rand_key 24 Hkey Hks), bind_of_Ret by lia.
  rewrite (proj2 (Z.geb_le _ _)) by lia. cbn [check]. rewrite bind_of_Ret, c_str_text, Hks by done.
  cbn [check Z.eqb Pos.eqb]. rewrite bind_of_Ret, hash_key_ok by (done || lia). rewrite bind_of_Ret. cbn [check].
  rewrite (Z.eqb_refl NN_WS_HANDSHAKE_ACCEPT_KEY_LEN : (28 =? NN_WS_HANDSHAKE_ACCEPT_KEY_LEN) = true). cbn [check].
  rewrite bind_of_Ret, Hsp, bind_of_Ret, Hb, sprintf_pad, bind_of_Ret by lia.
  rewrite (c_str_text (accept_of _)) by apply accept_text.
  unfold zero_pad at 2. by rewrite c_str_zeros by (by apply request_no_zero).
Qed.

(** A client that has sent its request and waits for the reply. *)
Definition waiting (self : nn_ws_handshake) : Prop :=
  receives self /\ hs_mode self = NN_WS_CLIENT /\ hs_timer self = running /\ response self = replicate 512 0 /\
  recv_pos self = 0 /\ recv_len self = 16 /\ expected_accept_key self = accept_of (encoding rand_key).

Lemma client_start_ok j1 j2 code res host :
  let req := request_text res host (encoding rand_key) sp in
  text res -> text host -> 1 <= size res -> size req < 4096 ->
  exists c c', nn_ws_handshake_start p ispeer le junk rand_key (nn_ws_handshake_init j1 j2 code) NN_WS_CLIENT res host = Ret c /\
    sent c = req /\ usock_sent p ispeer le junk rand_key c = Ret c' /\ waiting c'.
Proof.
  intros req Hr Hh Hres Hreq. unfold nn_ws_handshake_start. rewrite (proj2 (Z.geb_le _ _)) by lia. cbn [orb negb check].
  rewrite orb_true_r. cbn [check]. rewrite bind_of_Ret. cbn [usock nn_ws_handshake_init negb check]. rewrite bind_of_Ret.
  change (NN_WS_CLIENT =? NN_WS_SERVER) with false. change (NN_WS_CLIENT =? NN_WS_CLIENT) with true. cbn [negb]. rewrite bind_of_Ret.
  unfold nn_fsm_start. cbn [fsm handshake_object fn with_fsm].
  set (self := Hs _ _ _ _ _ _ _ _ _ _ _ _ _ _ _ _).
  assert (Hc := client_request_ok (with_state (with_timer self running) CLIENT_SEND) eq_refl Hreq Hr Hh).
  assert (Hi : nn_ws_handshake_handler p ispeer le junk rand_key self NN_FSM_ACTION NN_FSM_START 0 =
    nn_ws_handshake_client_request p le junk rand_key (with_state (with_timer self running) CLIENT_SEND)) by reflexivity.
  rewrite Hi, Hc. eexists _, _. split; [reflexivity|]. split; [reflexivity|]. split; [reflexivity|].
  split; [split; [done|by right]|done].
Qed.
End client.
Section server.
  Context (q : Z) (ispeer : Z -> bool) (rand_key : list Z).

Definition listening (self : nn_ws_handshake) : Prop :=
  receives self /\ hs_mode self = NN_WS_SERVER /\ hs_timer self = running /\ opening_hs self = replicate 4096 0 /\
  recv_pos self = 0 /\ recv_len self = 151.

Lemma server_start_ok j1 j2 code :
  exists s, nn_ws_handshake_start q ispeer le junk rand_key (nn_ws_handshake_init j1 j2 code) NN_WS_SERVER [] [] = Ret s /\
    listening s.
Proof. eexists. split; [reflexivity|]. split; [split; [done|by left]|done]. Qed.

End server.

Lemma server_accepts self fs res host key sp :
  hfields self = Some (request_fields fs res host key sp) -> response_code self = RESPONSE_OK ->
  text key -> size key < 2 ^ 31 -> text sp -> size sp <= 26 ->
  nn_ws_handshake_server_reply le junk self =
  Ret (ask (with_buffers self (opening_hs self) (zero_pad 512 (reply_text (accept_of key) sp)))
    (IoSend (reply_text (accept_of key) sp))).
Proof.
  intros Hf Hc Hk Hks Hs Hss. unfold nn_ws_handshake_server_reply. rewrite Hc. change (RESPONSE_OK =? RESPONSE_OK) with true.
  cbv iota. assert (Ekey : field_text self KEY = Ret key) by (unfold field_text; rewrite Hf; reflexivity).
  assert (Eprot : field_text self PROTOCOL = Ret sp) by (unfold field_text; rewrite Hf; reflexivity).
  rewrite Ekey, bind_of_Ret, hash_key_ok by done. rewrite bind_of_Ret. cbn [check Z.geb Z.compare]. rewrite bind_of_Ret.
  rewrite (c_str_text (accept_of _)) by apply accept_text.
  rewrite (proj2 (Z.eqb_eq (size (accept_of key)) _)) by apply accept_size.
  cbn [check]. rewrite bind_of_Ret, Eprot, bind_of_Ret, sprintf_pad, bind_of_Ret
    by (rewrite reply_size, accept_size; change (Z.of_nat (Z.to_nat RESPONSE_SIZE)) with 512; lia).
  unfold zero_pad at 2. rewrite c_str_zeros by (by apply reply_no_zero; [apply accept_text|]). done.
Qed.

(** The answer to a client of a type that is no peer. *)
Definition not_peer : list Z := refusal_text (str "400 Incompatible Socket Type") (str "13").

Lemma server_refuses self fs res host key sp :
  hfields self = Some (request_fields fs res host key sp) -> response_code self = RESPONSE_NOTPEER ->
  nn_ws_handshake_server_reply le junk self =
  Ret (ask (with_buffers self (opening_hs self) (zero_pad 512 not_peer)) (IoSend not_peer)).
Proof.
  intros Hf Hc. unfold nn_ws_handshake_server_reply. rewrite Hc. change (RESPONSE_NOTPEER =? RESPONSE_OK) with false.
  cbv iota. assert (Ever : field_text self VERSION = Ret (str "13")) by (unfold field_text; rewrite Hf; reflexivity).
  rewrite Ever. reflexivity.
Qed.

(** Behind a request the server has answered, it waits for the answer to be sent. *)
Lemma server_answers q ispeer self res host key sp :
  hs_mode self = NN_WS_SERVER -> opening_hs self = zero_pad 4096 (request_text res host key sp) ->
  size (request_text res host key sp) < 4096 ->
  text res -> text host -> text key -> size key < 2 ^ 31 -> text sp -> size sp <= 26 ->
  forall code v, find_peer q NN_WS_HANDSHAKE_SP_MAP sp = (code, v) -> code = RESPONSE_OK \/ code = RESPONSE_NOTPEER ->
  v <> RECV_MORE ->
  exists self', received q ispeer le junk self = Ret self' /\ hs_st self' = SERVER_REPLY /\ response_code self' = code /\
    sent self' = if decide (code = RESPONSE_OK) then reply_text (accept_of key) sp else not_peer.
Proof.
  intros Hm Hb Hl Hr Hh Hk Hks Hs Hss code v Hfind Hcode Hv. unfold received. rewrite Hm. change (NN_WS_SERVER =? NN_WS_SERVER) with true.
  unfold server_received. pose proof (parse_request q ispeer self res host key sp Hb Hl Hr Hh Hk Hs) as Hp.
  rewrite Hfind in Hp. rewrite Hp, bind_of_Ret.
  set (fs := clear_fields self). set (self1 := with_state (with_fields self (request_fields fs res host key sp) code) SERVER_REPLY).
  assert (E : exists text', nn_ws_handshake_server_reply le junk self1 =
      Ret (ask (with_buffers self1 (opening_hs self1) (zero_pad 512 text')) (IoSend text')) /\
    text' = if decide (code = RESPONSE_OK) then reply_text (accept_of key) sp else not_peer).
  { destruct Hcode as [->| ->]; eexists.
    - split; [by apply (server_accepts self1 fs res host key sp)|done].
    - split; [by apply (server_refuses self1 fs res host key sp)|done]. }
  destruct E as (text' & E & Et). eexists. split; [destruct v; [exact E|done|exact E]|]. split; [done|]. split; [done|].
  rewrite <-Et. unfold sent. cbn [io ask with_usock]. by rewrite last_snoc.
Qed.


End run.

(** Running both sides. *)
Section connect.
  Context (le : bool) (junk : list Z) (ispeer : Z -> Z -> bool) (rand_key : list Z).

(** What the server of type [q] makes of a stream, and what the client [c] of
    type [p] makes of one after it has sent its request. *)
Definition serve (q : Z) (s : nn_ws_handshake) (stream : list Z) : outcome (nn_ws_handshake * list Z) :=
  feed q (ispeer q) le junk rand_key 4096 s stream.

Definition conclude (p : Z) (c : nn_ws_handshake) (stream : list Z) : outcome (nn_ws_handshake * list Z) :=
  c ← usock_sent p (ispeer p) le junk rand_key c;
  feed p (ispeer p) le junk rand_key 4096 c stream.

(** C17.  A nanomsg client and a nanomsg server of any socket types, with any
    resource, host and random key: the server reads the request and not a byte
    of what follows it; if its type is what the client's type connects to it
    accepts, and the client reads the reply, and not a byte of what follows it,
    and concludes that the connection is there; otherwise the server's answer
    says that the types are incompatible.  No assertion fails on the way. *)
Theorem handshake_connects_peers p q res host j1 j2 code j1' j2' code' more more' :
  length junk = 16%nat -> Forall is_word junk -> bytes rand_key -> size rand_key = 16 ->
  socket_type p -> text res -> 1 <= size res -> text host -> size res + size host < 3800 ->
  exists c s s',
    nn_ws_handshake_start p (ispeer p) le junk rand_key (nn_ws_handshake_init j1 j2 code) NN_WS_CLIENT res host = Ret c /\
    nn_ws_handshake_start q (ispeer q) le junk rand_key (nn_ws_handshake_init j1' j2' code') NN_WS_SERVER [] [] = Ret s /\
    serve q s (sent c ++ more) = Ret (s', more) /\ hs_st s' = SERVER_REPLY /\
    if decide (peer_of p = Some q) then
      response_code s' = RESPONSE_OK /\
      exists c', conclude p c (sent s' ++ more') = Ret (c', more') /\ hs_st c' = STOPPING_TIMER_DONE
    else response_code s' = RESPONSE_NOTPEER /\ sent s' = not_peer.
Proof.
  intros Hj Hw Hk Hks Hp Hr Hrs Hh Hsizes.
  destruct (find_type_ok p Hp) as (sp & Hsp & Hst & Hss & Hpeer). pose proof (encoding_text rand_key Hk) as Hkt.
  pose proof (key_size rand_key Hks) as Hke.
  assert (Hreq : size (request_text res host (encoding rand_key) sp) < 4096) by (rewrite request_size, Hke; lia).
  destruct (client_start_ok le junk Hj Hw p (ispeer p) rand_key sp Hk Hks Hsp Hst j1 j2 code res host Hr Hh Hrs Hreq)
    as (c & c1 & Hc & Hsent & Hc1 & Hwait).
  destruct (server_start_ok le junk q (ispeer q) rand_key j1' j2' code') as (s & Hs & Hlisten).
  exists c, s. set (req := request_text res host (encoding rand_key) sp) in *.
  destruct Hlisten as (Hrec & Hm & Htm & Hbuf & Hpos & Hlen).
  assert (Hcap : capacity s = 4096%nat) by (unfold capacity; by rewrite Hm).
  destruct (feed_header q (ispeer q) le junk rand_key 4096 s req 0 151 more) as (s1 & fuel1 & Hgot & Hrec1 & _ & Hfeed).
  { apply amid_start; try done; [unfold buffer_of; by rewrite Hm, Hcap|].
    pose proof (request_size res host (encoding rand_key) sp) as Hz. fold req in Hz. unfold size in *. lia. }
  { by apply request_header. }
  { by apply request_no_zero. }
  { rewrite Hcap. unfold size in Hreq. lia. }
  { unfold size in Hreq. lia. }
  pose proof (got_buffer _ _ _ Hgot) as Hbuf1. rewrite Hcap in Hbuf1.
  assert (Hm1 : hs_mode s1 = NN_WS_SERVER) by (destruct Hgot as (? & ? & ? & ? & ->); unfold set_buffer; by rewrite Hm).
  unfold buffer_of in Hbuf1. rewrite Hm1 in Hbuf1. change (NN_WS_SERVER =? NN_WS_SERVER) with true in Hbuf1.
  destruct (server_answers le junk Hj Hw q (ispeer q) s1 res host (encoding rand_key) sp) with
    (code := if decide (peer_of p = Some q) then RESPONSE_OK else RESPONSE_NOTPEER)
    (v := if decide (peer_of p = Some q) then VALID else INVALID) as (s' & Hrecv & Hst' & Hcode & Hans); try done; try lia.
  { rewrite Hpeer. by case_decide. }
  { case_decide; auto. }
  { by case_decide. }
  exists s'. split; [exact Hc|]. split; [exact Hs|]. unfold serve. rewrite Hsent. split.
  { change (drop 0 req) with req in Hfeed. rewrite Hfeed, Hrecv, bind_of_Ret. apply feed_done; by rewrite Hst'. }
  split; [exact Hst'|]. revert Hcode Hans. case_decide as Hpq; intros Hcode Hans; [|by split].
  split; [done|]. rewrite decide_True in Hans by done. rewrite Hans.
  set (rep := reply_text (accept_of (encoding rand_key)) sp) in *.
  destruct Hwait as (Hrecc & Hmc & Htc & Hbufc & Hposc & Hlenc & Hexp).
  assert (Hcapc : capacity c1 = 512%nat) by (unfold capacity; by rewrite Hmc).
  pose proof (reply_size (accept_of (encoding rand_key)) sp) as Hrz. rewrite accept_size in Hrz. fold rep in Hrz.
  destruct (feed_header p (ispeer p) le junk rand_key 4096 c1 rep 0 16 more') as (c2 & fuel2 & Hgot2 & Hrec2 & _ & Hfeed2).
  { apply amid_start; try done; [unfold buffer_of; by rewrite Hmc, Hcapc|]. unfold size in *. lia. }
  { apply reply_header; [apply accept_text|done]. }
  { apply reply_no_zero; [apply accept_text|done]. }
  { rewrite Hcapc. unfold size in *. lia. }
  { unfold size in *. lia. }
  pose proof (got_buffer _ _ _ Hgot2) as Hbuf2. rewrite Hcapc in Hbuf2.
  unfold buffer_of in Hbuf2. destruct Hgot2 as (r & ps & l & io' & Hc2).
  assert (Hm2 : hs_mode c2 = NN_WS_CLIENT) by (rewrite Hc2; unfold set_buffer; by rewrite Hmc).
  assert (Ht2 : hs_timer c2 = running) by (rewrite Hc2; unfold set_buffer; by rewrite Hmc).
  assert (He2 : expected_accept_key c2 = accept_of (encoding rand_key)) by (rewrite Hc2; unfold set_buffer; by rewrite Hmc).
  rewrite Hm2 in Hbuf2. change (NN_WS_CLIENT =? NN_WS_SERVER) with false in Hbuf2.
  destruct (client_accepts le junk p (ispeer p) c2 (accept_of (encoding rand_key)) sp) as (c' & Hr2 & Hst2);
    try done; [apply accept_text|apply accept_size|].
  exists c'. split; [|done]. unfold conclude. rewrite Hc1, bind_of_Ret. change (drop 0 rep) with rep in Hfeed2.
  rewrite Hfeed2, Hr2, bind_of_Ret. apply feed_done; by rewrite Hst2.
Qed.
End connect.

Lemma handshake_connects_peers_witness :
  exists c s s',
    nn_ws_handshake_start NN_REQ (Z.eqb NN_REQ) true (replicate 16 0) (replicate 16 7) (nn_ws_handshake_init [] [] 0)
      NN_WS_CLIENT (str "/") (str "localhost:80") = Ret c /\
    nn_ws_handshake_start NN_REP (Z.eqb NN_REP) true (replicate 16 0) (replicate 16 7) (nn_ws_handshake_init [] [] 0)
      NN_WS_SERVER [] [] = Ret s /\
    serve true (replicate 16 0) Z.eqb (replicate 16 7) NN_REP s (sent c ++ [1; 2]) = Ret (s', [1; 2]) /\
    hs_st s' = SERVER_REPLY /\ response_code s' = RESPONSE_OK /\
    exists c', conclude true (replicate 16 0) Z.eqb (replicate 16 7) NN_REQ c (sent s' ++ [3]) = Ret (c', [3]) /\
      hs_st c' = STOPPING_TIMER_DONE.
Proof.
  pose proof (handshake_connects_peers true (replicate 16 0) Z.eqb (replicate 16 7) NN_REQ NN_REP (str "/") (str "localhost:80")
    [] [] 0 [] [] 0 [1; 2] [3] eq_refl) as H.
  destruct H as (c & s & s' & H1 & H2 & H3 & H4 & H5).
  - repeat constructor; done.
  - repeat constructor; done.
  - reflexivity.
  - reflexivity.
  - apply literal_text. vm_compute. reflexivity.
  - vm_compute. discriminate.
  - apply literal_text. vm_compute. reflexivity.
  - vm_compute. reflexivity.
  - exists c, s, s'. destruct H5 as [H5 H6]. split_and!; done.
Defined.

(** ** What goes wrong *)

(** A header that is complete but not understood: the parser asks for more, and
    the next step finds TERMSEQ at the end of the buffer. *)
Lemma overlap_complete h n : header h -> overlap 4 (h ++ replicate n 0) (Z.of_nat (length h)) = 4%nat.
Proof.
  intros Hh. destruct (header_split h Hh) as (b & -> & _). cbn [overlap]. apply decide_True.
  rewrite length_app. change (length TERMSEQ) with 4%nat. replace (Z.to_nat (Z.of_nat (length b + 4) - Z.of_nat 4)) with (length b) by lia.
  by rewrite <-app_assoc, drop_app_length.
Qed.

Lemma recv_more_complete self h n :
  header h -> recv_pos self + recv_len self = Z.of_nat (length h) -> recv_more self (zero_pad n h) = Abort.
Proof.
  intros Hh Hp. unfold recv_more. rewrite Hp. unfold zero_pad. rewrite (overlap_complete h _ Hh).
  destruct (check (Z.of_nat (length h) <? _)) as [[]| | |] eqn:E1; try done; [|unfold check in E1; by case_match..].
  cbn [mbind outcome_bind]. destruct (check (Z.of_nat (length h) >=? 4)) as [[]| | |] eqn:E2; try done;
    unfold check in E2; by case_match.
Qed.

(** A server behind a whole request that its parser does not take. *)
Lemma server_gives_up local ispeer le junk self h :
  hs_mode self = NN_WS_SERVER -> opening_hs self = zero_pad 4096 h -> recv_pos self + recv_len self = Z.of_nat (length h) ->
  header h -> no_zero h -> (length h < 4096)%nat -> match_chars false (str "GET ") h = None ->
  received local ispeer le junk self = Abort.
Proof.
  intros Hm Hb Hp Hh Hz Hl Hget. unfold received. rewrite Hm. change (NN_WS_SERVER =? NN_WS_SERVER) with true.
  unfold server_received, nn_ws_handshake_parse_client_opening. rewrite Hb.
  assert (Ezero : has_zero (zero_pad 4096 h) = true).
  { unfold zero_pad. replace (4096 - length h)%nat with (S (4095 - length h)) by lia. apply has_zero_zeros. }
  assert (Estr : c_str (zero_pad 4096 h) = h) by (by apply c_str_zeros).
  rewrite Ezero, Estr, size_pad by lia. cbn [check]. rewrite bind_of_Ret, (proj2 (Z.ltb_lt _ _)) by (unfold size; lia).
  cbn [check]. rewrite bind_of_Ret. destruct Hh as [b Hfound] eqn:Eh. rewrite Hfound.
  unfold request_line. rewrite <-(app_nil_r h) at 1. rewrite match_token_differ, bind_of_Ret by done. rewrite !bind_of_Ret.
  change (opening_hs (with_fields ?s _ _)) with (opening_hs s). rewrite Hb.
  rewrite recv_more_complete by (done || by exists b). done.
Qed.

(** The handshake is over for the server when its answer is sent, whatever it
    said. *)
Lemma refused_counts_as_connected local ispeer le junk rand_key self :
  hs_st self = SERVER_REPLY -> hfsm self = Fsm FSM_ACTIVE [] -> hs_timer self = running ->
  exists self' self'', usock_sent local ispeer le junk rand_key self = Ret self' /\
    nn_fsm_feed (H := handshake_object local ispeer le junk rand_key) (with_timer self' nn_timer_init)
      NN_WS_HANDSHAKE_SRC_TIMER NN_TIMER_STOPPED 0 = Ret self'' /\
    hs_st self'' = HS_DONE /\ raised (hfsm self'') = [(EV_DONE, NN_WS_HANDSHAKE_OK)].
Proof.
  intros Hs Hf Ht. destruct self; cbn in Hs, Hf, Ht; subst. eexists _, _. split; [reflexivity|]. split; [reflexivity|]. done.
Qed.

Lemma refusal_size code version : size (refusal_text code version) = 36 + size code + size version.
Proof. unfold size, refusal_text. rewrite !length_app. cbn. lia. Qed.

(** C37.  What goes wrong, on inputs of the peer: a complete request of at least
    151 bytes that does not start with GET makes an assertion of the server
    fail; so does data that arrives together with a shorter request.  A version
    of 443 characters or more is written behind the end of the reply buffer.
    The refusal of a client does not end with an empty line, so that the client
    waits for the rest of it.  And the server that has refused a client reports
    to its owner that the handshake succeeded. *)
Theorem handshake_weaknesses q ispeer le junk rand_key :
  (forall h more j1 j2 code,
    header h -> no_zero h -> (151 <= length h < 4096)%nat -> match_chars false (str "GET ") h = None ->
    exists s, nn_ws_handshake_start q ispeer le junk rand_key (nn_ws_handshake_init j1 j2 code) NN_WS_SERVER [] [] = Ret s /\
      feed q ispeer le junk rand_key 4096 s (h ++ more) = Abort) /\
  (forall self, opening_hs self = zero_pad 4096 (str "GET / HTTP/1.1" ++ CRLF ++ CRLF ++ [120]) ->
    nn_ws_handshake_parse_client_opening q ispeer self = Abort) /\
  (forall self fs version, hfields self = Some fs -> fs VERSION = Some version -> response_code self = RESPONSE_WSVERSION ->
    443 <= size version -> nn_ws_handshake_server_reply le junk self = Undef) /\
  (strstr TERMSEQ not_peer = None /\
    forall self, response self = zero_pad 512 not_peer -> nn_ws_handshake_parse_server_response self = Ret (RECV_MORE, self)) /\
  (forall self, hs_st self = SERVER_REPLY -> hfsm self = Fsm FSM_ACTIVE [] -> hs_timer self = running ->
    exists self' self'', usock_sent q ispeer le junk rand_key self = Ret self' /\
      nn_fsm_feed (H := handshake_object q ispeer le junk rand_key) (with_timer self' nn_timer_init)
        NN_WS_HANDSHAKE_SRC_TIMER NN_TIMER_STOPPED 0 = Ret self'' /\
      hs_st self'' = HS_DONE /\ raised (hfsm self'') = [(EV_DONE, NN_WS_HANDSHAKE_OK)]).
Proof.
  split_and!.
  - intros h more j1 j2 code Hh Hz Hl Hget.
    destruct (server_start_ok le junk q ispeer rand_key j1 j2 code) as (s & Hs & Hrec & Hm & _ & Hbuf & Hpos & Hlen).
    exists s. split; [exact Hs|]. assert (Hcap : capacity s = 4096%nat) by (unfold capacity; by rewrite Hm).
    destruct (feed_header q ispeer le junk rand_key 4096 s h 0 151 more) as (s1 & fuel1 & Hgot & Hrec1 & Hp1 & Hfeed);
      try done; try lia.
    { apply amid_start; try done; [unfold buffer_of; by rewrite Hm, Hcap|lia]. }
    change (drop 0 h) with h in Hfeed. rewrite Hfeed. pose proof (got_buffer _ _ _ Hgot) as Hb1. rewrite Hcap in Hb1.
    assert (Hm1 : hs_mode s1 = NN_WS_SERVER) by (destruct Hgot as (? & ? & ? & ? & ->); unfold set_buffer; by rewrite Hm).
    unfold buffer_of in Hb1. rewrite Hm1 in Hb1. rewrite (server_gives_up _ _ _ _ s1 h); try done. lia.
  - intros self Hb. unfold nn_ws_handshake_parse_client_opening. rewrite Hb. vm_compute. reflexivity.
  - intros self fs version Hf Hv Hc Hl. unfold nn_ws_handshake_server_reply, field_text. rewrite Hc, Hf, Hv.
    change (RESPONSE_WSVERSION =? RESPONSE_OK) with false. change (reason RESPONSE_WSVERSION) with
      (Ret (str "400 Unsupported WebSocket Version")). rewrite !bind_of_Ret. unfold sprintf.
    rewrite (proj2 (Z.leb_gt _ _)); [done|]. rewrite refusal_size. change (size (str "400 Unsupported WebSocket Version")) with 33.
    unfold size at 1. rewrite length_replicate. unfold RESPONSE_SIZE. lia.
  - vm_compute. reflexivity.
  - intros self Hb. unfold nn_ws_handshake_parse_server_response. rewrite Hb.
    assert (Estr : c_str (zero_pad 512 not_peer) = not_peer) by (vm_compute; reflexivity). rewrite Estr.
    assert (Ez : has_zero (zero_pad 512 not_peer) = true) by (vm_compute; reflexivity). rewrite Ez.
    cbn [check]. rewrite bind_of_Ret. vm_compute (check _). rewrite bind_of_Ret.
    assert (En : strstr TERMSEQ not_peer = None) by (vm_compute; reflexivity). by rewrite En.
  - intros self. apply refused_counts_as_connected.
Qed.

Definition post_request : list Z := str "POST / HTTP/1.1" ++ CRLF ++ str "Origin: " ++ replicate 130 97 ++ CRLF ++ CRLF.

Lemma handshake_weaknesses_witness :
  exists s, nn_ws_handshake_start NN_REP (Z.eqb NN_REP) true [] [] (nn_ws_handshake_init [] [] 0) NN_WS_SERVER [] [] = Ret s /\
    feed NN_REP (Z.eqb NN_REP) true [] [] 4096 s (post_request ++ []) = Abort.
Proof.
  destruct (handshake_weaknesses NN_REP (Z.eqb NN_REP) true [] []) as [H _].
  apply (H post_request [] [] [] 0).
  - eexists. vm_compute. reflexivity.
  - apply literal_without. vm_compute. reflexivity.
  - split; [apply Nat.leb_le|apply Nat.ltb_lt]; vm_compute; reflexivity.
  - vm_compute. reflexivity.
Defined.
