(* ===== verification/Sinproc.v ===== *)
(** * Sinproc: inproc sessions (src/transports/inproc/sinproc.c)

    An inproc connection is a pair of sessions, one in each of the two sockets.
    A session raises events to its peer with [nn_fsm_raiseto]; they wait in a
    queue of the raising session's context and are delivered, in order, under
    the peer's lock.  A message is handed over in place: the sender puts it in
    its own session and raises SENT, the receiver moves it to its queue and
    raises RECEIVED; a receiver whose queue is full remembers the message with a
    flag and takes it when the queue is next read.

    The code is written over the class [MsgQueueOps], the functions of
    msgqueue.c.  [conn] is the connection: the memory of both sessions and the
    events in flight in each direction.  [conn_step] is everything that can
    happen to it: delivery of an event to a session or to the endpoint it is
    raised to, the socket sending to or receiving from the pipe, the endpoint
    being stopped; each ends with the endpoint reacting to the events of its
    session, as in binproc.c and cinproc.c.  SinprocSpec.v holds the proofs. *)

From stdpp Require Import base gmap list.
From Stdlib Require Import ZArith Lia.
From S2P Require Import Prelude.
From S2P Require Import Fsm.
From S2P Require Import Message.
From S2P Require Pipe.

Open Scope Z_scope.

(** ** Interface of the message queue *)

Class MsgQueueOps (Q : Type) := {
  mq_init : Z -> outcome Q;
  mq_term : Q -> outcome unit;
  mq_empty : Q -> bool;
  mq_send : Q -> nn_msg -> outcome (Q * Z);
  mq_recv : Q -> outcome (Q * Z * option nn_msg)
}.

(** ** Data *)

Inductive side : Type := SA | SB.

Definition other (x : side) : side := match x with SA => SB | SB => SA end.

Inductive sinproc_state : Type :=
| NN_SINPROC_STATE_IDLE | NN_SINPROC_STATE_CONNECTING | NN_SINPROC_STATE_READY
| NN_SINPROC_STATE_ACTIVE | NN_SINPROC_STATE_DISCONNECTED
| NN_SINPROC_STATE_STOPPING_PEER | NN_SINPROC_STATE_STOPPING.

Inductive event_name : Type := event_connect | event_sent | event_received | event_disconnect.

#[export] Instance side_eq_dec : EqDecision side.
Proof. solve_decision. Defined.
#[export] Instance sinproc_state_eq_dec : EqDecision sinproc_state.
Proof. solve_decision. Defined.
#[export] Instance event_name_eq_dec : EqDecision event_name.
Proof. solve_decision. Defined.

Definition NN_SINPROC_ACTION_READY : Z := 1.
Definition NN_SINPROC_FLAG_SENDING : Z := 1.
Definition NN_SINPROC_FLAG_RECEIVING : Z := 2.

Definition NN_SINPROC_CONNECT : Z := 1.
Definition NN_SINPROC_READY : Z := 2.
Definition NN_SINPROC_ACCEPTED : Z := 3.
Definition NN_SINPROC_SENT : Z := 4.
Definition NN_SINPROC_RECEIVED : Z := 5.
Definition NN_SINPROC_DISCONNECT : Z := 6.
Definition NN_SINPROC_STOPPED : Z := 7.
Definition NN_SINPROC_SRC_PEER : Z := 27713.

Definition ECONNRESET : Z := 104.

(** [peer] names the session pointed to; [fsm_] carries the events the session
    raised to its owner, numbered 0 for [fsm.stopped] and 1 for
    [event_disconnect]. *)
Record nn_sinproc (Q : Type) : Type := Sinproc {
  fsm_ : nn_fsm; state : sinproc_state; flags : Z; peer : option side;
  pipebase : Pipe.nn_pipebase; msgqueue : Q; msg : nn_msg
}.
Arguments Sinproc {Q}.
Arguments fsm_ {Q}.
Arguments state {Q}.
Arguments flags {Q}.
Arguments peer {Q}.
Arguments pipebase {Q}.
Arguments msgqueue {Q}.
Arguments msg {Q}.

(** An event in flight: the event object, in which session it is, and the type
    it was raised with.  The source is always [NN_SINPROC_SRC_PEER] and the
    source pointer the session at the other end. *)
Record event : Type := Event { obj : side * event_name; type : Z }.

#[export] Instance event_eq_dec : EqDecision event.
Proof. solve_decision. Defined.

(** The sessions that exist, and the events raised to each side. *)
Record conn (Q : Type) : Type := Conn {
  sa : option (nn_sinproc Q); sb : option (nn_sinproc Q);
  to_a : list event; to_b : list event
}.
Arguments Conn {Q}.
Arguments sa {Q}.
Arguments sb {Q}.
Arguments to_a {Q}.
Arguments to_b {Q}.

Definition slot {Q} (s : conn Q) (x : side) : option (nn_sinproc Q) :=
  match x with SA => sa s | SB => sb s end.

Definition set_slot {Q} (s : conn Q) (x : side) (o : option (nn_sinproc Q)) : conn Q :=
  match x with
  | SA => Conn o (sb s) (to_a s) (to_b s)
  | SB => Conn (sa s) o (to_a s) (to_b s)
  end.

Definition inbound {Q} (s : conn Q) (x : side) : list event :=
  match x with SA => to_a s | SB => to_b s end.

Definition set_inbound {Q} (s : conn Q) (x : side) (es : list event) : conn Q :=
  match x with
  | SA => Conn (sa s) (sb s) es (to_b s)
  | SB => Conn (sa s) (sb s) (to_a s) es
  end.

(** Access through a pointer to the session. *)
Definition get {Q} (s : conn Q) (x : side) : outcome (nn_sinproc Q) :=
  match slot s x with Some me => Ret me | None => Undef end.

Definition put {Q} (s : conn Q) (x : side) (me : nn_sinproc Q) : conn Q := set_slot s x (Some me).

(** Access through the [peer] pointer. *)
Definition the_peer {Q} (me : nn_sinproc Q) : outcome side :=
  match peer me with Some y => Ret y | None => Undef end.

Section fields.
  Context {Q : Type}.

Definition with_fsm_ (me : nn_sinproc Q) f := Sinproc f (state me) (flags me) (peer me) (pipebase me) (msgqueue me) (msg me).
Definition with_state (me : nn_sinproc Q) st := Sinproc (fsm_ me) st (flags me) (peer me) (pipebase me) (msgqueue me) (msg me).
Definition with_flags (me : nn_sinproc Q) fl := Sinproc (fsm_ me) (state me) fl (peer me) (pipebase me) (msgqueue me) (msg me).
Definition with_peer (me : nn_sinproc Q) p := Sinproc (fsm_ me) (state me) (flags me) p (pipebase me) (msgqueue me) (msg me).
Definition with_pipe (me : nn_sinproc Q) p := Sinproc (fsm_ me) (state me) (flags me) (peer me) p (msgqueue me) (msg me).
Definition with_queue (me : nn_sinproc Q) (q : Q) := Sinproc (fsm_ me) (state me) (flags me) (peer me) (pipebase me) q (msg me).
Definition with_msg (me : nn_sinproc Q) m := Sinproc (fsm_ me) (state me) (flags me) (peer me) (pipebase me) (msgqueue me) m.

Definition has_flag (me : nn_sinproc Q) (f : Z) : bool := negb (Z.land (flags me) f =? 0).
Definition set_flag (me : nn_sinproc Q) (f : Z) := with_flags me (Z.lor (flags me) f).
Definition clear_flag (me : nn_sinproc Q) (f : Z) := with_flags me (Z.land (flags me) (Z.lnot f)).
End fields.

Definition empty_msg : nn_msg := Msg [] [].

(** ** Raising and handling events *)

Section sinproc.
  Context {Q : Type} `{MsgQueueOps Q}.

  (** [NN_RCVBUF] of each socket, the options of its endpoint, what the socket
      answers when the session offers it a pipe, and which side is the
      connecting endpoint (cinproc.c), the other being the bound one
      (binproc.c). *)
  Variable rcvbuf : side -> Z.
  Variable options : side -> Pipe.nn_ep_options.
  Variable sock_add : side -> Z.
  Variable cin : side.

Definition nn_sinproc_init (x : side) : outcome (nn_sinproc Q) :=
  q ← mq_init (rcvbuf x);
  Ret (Sinproc nn_fsm_init NN_SINPROC_STATE_IDLE 0 None (Pipe.nn_pipebase_init (options x)) q empty_msg).

Definition nn_sinproc_term (me : nn_sinproc Q) : outcome unit :=
  _ ← mq_term (msgqueue me);
  _ ← Pipe.nn_pipebase_term (pipebase me);
  nn_fsm_term (fsm_ me).

Definition nn_sinproc_isidle (me : nn_sinproc Q) : bool := nn_fsm_isidle (fsm_ me).

(** [nn_fsm_event_active] of an event object of a session. *)
Definition event_active (s : conn Q) (x : side) (n : event_name) : bool :=
  bool_decide ((x, n) ∈ obj <$> (to_a s ++ to_b s)) ||
  match slot s x with
  | Some me => bool_decide (n = event_disconnect) && nn_fsm_event_active (fsm_ me) 1
  | None => false
  end.

(** An event object that is queued already aborts; the object may belong to
    either session, which must exist. *)
Definition nn_fsm_raiseto (s : conn Q) (dst : side) (ev : side * event_name) (ty : Z)
    : outcome (conn Q) :=
  _ ← get s (fst ev);
  _ ← check (negb (event_active s (fst ev) (snd ev)));
  Ret (set_inbound s dst (inbound s dst ++ [Event ev ty])).

(** [nn_fsm_raise] of [event_disconnect] to the session's owner. *)
Definition raise_disconnect (s : conn Q) (x : side) : outcome (conn Q) :=
  _ ← check (negb (event_active s x event_disconnect));
  me ← get s x;
  f ← nn_fsm_raise (fsm_ me) 1 NN_SINPROC_DISCONNECT;
  Ret (put s x (with_fsm_ me f)).

(** [nn_pipebase_start], whose failure is an assertion here. *)
Definition start_pipe (s : conn Q) (x : side) : outcome (conn Q) :=
  me ← get s x;
  '(_, p, rc, _) ← Pipe.nn_pipebase_start (pipebase me) (fun _ => Ret (tt, sock_add x));
  _ ← check (rc =? 0);
  Ret (put s x (with_pipe me p)).

Definition stop_pipe (s : conn Q) (x : side) : outcome (conn Q) :=
  me ← get s x;
  '(_, p) ← Pipe.nn_pipebase_stop (pipebase me) tt Ret;
  Ret (put s x (with_pipe me p)).

Definition update (s : conn Q) (x : side) (f : nn_sinproc Q -> nn_sinproc Q) : outcome (conn Q) :=
  me ← get s x;
  Ret (put s x (f me)).

(** *** nn_sinproc_shutdown *)

Definition nn_sinproc_shutdown_events (s : conn Q) (x : side) (src ty : Z) : outcome (conn Q) :=
  me ← get s x;
  if (src =? NN_FSM_ACTION) && (ty =? NN_FSM_STOP) then
    if negb (bool_decide (state me = NN_SINPROC_STATE_IDLE)) &&
       negb (bool_decide (state me = NN_SINPROC_STATE_DISCONNECTED))
    then
      s ← stop_pipe s x;
      _ ← check (bool_decide (fsm_st (fsm_ me) = FSM_ACTIVE) || bool_decide (fsm_st (fsm_ me) = FSM_STOPPING));
      y ← the_peer me;
      s ← nn_fsm_raiseto s y (y, event_disconnect) NN_SINPROC_DISCONNECT;
      update s x (fun me => with_state me NN_SINPROC_STATE_STOPPING_PEER)
    else update s x (fun me => with_state me NN_SINPROC_STATE_STOPPING)
  else if ((src =? NN_FSM_ACTION) || (src =? NN_SINPROC_SRC_PEER)) && (ty =? NN_SINPROC_RECEIVED)
  then Ret s
  else match state me with
  | NN_SINPROC_STATE_STOPPING_PEER =>
      _ ← check (src =? NN_SINPROC_SRC_PEER);
      _ ← check (ty =? NN_SINPROC_DISCONNECT);
      update s x (fun me => with_state me NN_SINPROC_STATE_STOPPING)
  | _ => Abort
  end.

Definition nn_sinproc_shutdown (s : conn Q) (x : side) (src ty : Z) : outcome (conn Q) :=
  me ← get s x;
  _ ← check (bool_decide (fsm_st (fsm_ me) = FSM_STOPPING));
  s ← nn_sinproc_shutdown_events s x src ty;
  me ← get s x;
  if negb (bool_decide (state me = NN_SINPROC_STATE_STOPPING)) then Ret s else
  if event_active s x event_received || event_active s x event_disconnect then Ret s else
  _ ← check (negb (event_active s x event_connect));
  _ ← check (negb (event_active s x event_sent));
  f ← nn_fsm_stopped (fsm_ me) NN_SINPROC_STOPPED;
  Ret (put s x (with_fsm_ me f)).

(** *** nn_sinproc_handler *)

(** The branches of the ACTIVE state. *)
Definition active_sent (s : conn Q) (x : side) : outcome (conn Q) :=
  me ← get s x;
  let empty := mq_empty (msgqueue me) in
  y ← the_peer me;
  them ← get s y;
  '(q, rc) ← mq_send (msgqueue me) (msg them);
  s ← update s x (fun me => with_queue me q);
  if rc =? - EAGAIN then update s x (fun me => set_flag me NN_SINPROC_FLAG_RECEIVING) else
  _ ← check (rc =? 0);
  s ← update s y (fun them => with_msg them empty_msg);
  s ← (if empty
       then '(p, _) ← Pipe.nn_pipebase_received (pipebase me);
            update s x (fun me => with_pipe me p)
       else Ret s);
  nn_fsm_raiseto s y (y, event_received) NN_SINPROC_RECEIVED.

Definition active_received (s : conn Q) (x : side) : outcome (conn Q) :=
  me ← get s x;
  _ ← check (has_flag me NN_SINPROC_FLAG_SENDING);
  '(p, _) ← Pipe.nn_pipebase_sent (pipebase me);
  Ret (put s x (clear_flag (with_pipe me p) NN_SINPROC_FLAG_SENDING)).

Definition active_disconnect (s : conn Q) (x : side) : outcome (conn Q) :=
  s ← stop_pipe s x;
  me ← get s x;
  y ← the_peer me;
  s ← nn_fsm_raiseto s y (y, event_disconnect) NN_SINPROC_DISCONNECT;
  s ← update s x (fun me => with_peer (with_state me NN_SINPROC_STATE_DISCONNECTED) None);
  raise_disconnect s x.

(** Events of the peer carry the peer's session as source pointer. *)
Definition nn_sinproc_handler (s : conn Q) (x : side) (src ty : Z) : outcome (conn Q) :=
  me ← get s x;
  match state me with
  | NN_SINPROC_STATE_IDLE =>
      _ ← check (src =? NN_FSM_ACTION);
      _ ← check (ty =? NN_FSM_START);
      update s x (fun me => with_state me NN_SINPROC_STATE_CONNECTING)
  | NN_SINPROC_STATE_CONNECTING =>
      if src =? NN_FSM_ACTION then
        _ ← check (ty =? NN_SINPROC_ACTION_READY);
        update s x (fun me => with_state me NN_SINPROC_STATE_READY)
      else if src =? NN_SINPROC_SRC_PEER then
        _ ← check (ty =? NN_SINPROC_READY);
        s ← update s x (fun me => with_peer me (Some (other x)));
        s ← start_pipe s x;
        s ← update s x (fun me => with_state me NN_SINPROC_STATE_ACTIVE);
        nn_fsm_raiseto s (other x) (x, event_connect) NN_SINPROC_ACCEPTED
      else Abort
  | NN_SINPROC_STATE_READY =>
      _ ← check (src =? NN_SINPROC_SRC_PEER);
      _ ← check ((ty =? NN_SINPROC_READY) || (ty =? NN_SINPROC_ACCEPTED));
      s ← start_pipe s x;
      update s x (fun me => with_state me NN_SINPROC_STATE_ACTIVE)
  | NN_SINPROC_STATE_ACTIVE =>
      _ ← check (src =? NN_SINPROC_SRC_PEER);
      if ty =? NN_SINPROC_SENT then active_sent s x else
      if ty =? NN_SINPROC_RECEIVED then active_received s x else
      if ty =? NN_SINPROC_DISCONNECT then active_disconnect s x else Abort
  | NN_SINPROC_STATE_DISCONNECTED =>
      _ ← check (src =? NN_SINPROC_SRC_PEER);
      _ ← check (ty =? NN_SINPROC_RECEIVED);
      Ret s
  | NN_SINPROC_STATE_STOPPING_PEER | NN_SINPROC_STATE_STOPPING => Abort
  end.

(** The session of one side as the object of a state machine. *)
Definition session (x : side) : FsmObject (conn Q) := {|
  fsm s := match slot s x with Some me => fsm_ me | None => nn_fsm_init end;
  with_fsm s f := match slot s x with Some me => put s x (with_fsm_ me f) | None => s end;
  fn s src ty _ := nn_sinproc_handler s x src ty;
  shutdown_fn s src ty _ := nn_sinproc_shutdown s x src ty
|}.

(** *** Functions of the endpoints *)

Definition nn_sinproc_connect (s : conn Q) (x : side) : outcome (conn Q) :=
  s ← nn_fsm_start (H := session x) s;
  nn_fsm_raiseto s (other x) (x, event_connect) NN_SINPROC_CONNECT.

Definition nn_sinproc_accept (s : conn Q) (x : side) : outcome (conn Q) :=
  me ← get s x;
  _ ← check (bool_decide (peer me = None));
  let s := put s x (with_peer me (Some (other x))) in
  s ← nn_fsm_raiseto s (other x) (x, event_connect) NN_SINPROC_READY;
  s ← nn_fsm_start (H := session x) s;
  nn_fsm_action (H := session x) s NN_SINPROC_ACTION_READY.

Definition nn_sinproc_stop (s : conn Q) (x : side) : outcome (conn Q) :=
  nn_fsm_stop (H := session x) s.

(** *** Functions of the pipe *)

Definition nn_sinproc_send (s : conn Q) (x : side) (m : nn_msg) : outcome (conn Q * Z) :=
  me ← get s x;
  if decide (state me = NN_SINPROC_STATE_DISCONNECTED) then Ret (s, - ECONNRESET) else
  _ ← check (bool_decide (state me = NN_SINPROC_STATE_ACTIVE));
  _ ← check (negb (has_flag me NN_SINPROC_FLAG_SENDING));
  let nmsg := Msg [] (sphdr m ++ body m) in
  let s := put s x (set_flag (with_msg me nmsg) NN_SINPROC_FLAG_SENDING) in
  y ← the_peer me;
  s ← nn_fsm_raiseto s y (y, event_sent) NN_SINPROC_SENT;
  Ret (s, 0).

(** The message the peer was waiting to hand over is queued now, if it fits. *)
Definition take_pending (s : conn Q) (me : nn_sinproc Q) (q : Q) (x : side) : outcome (conn Q) :=
  y ← the_peer me;
  them ← get s y;
  '(q, rc) ← mq_send q (msg them);
  s ← update s x (fun me => with_queue me q);
  _ ← check ((rc =? 0) || (rc =? - EAGAIN));
  if rc =? 0 then
    s ← update s y (fun them => with_msg them empty_msg);
    s ← nn_fsm_raiseto s y (y, event_received) NN_SINPROC_RECEIVED;
    update s x (fun me => clear_flag me NN_SINPROC_FLAG_RECEIVING)
  else Ret s.

(** Returns the message and whether [nn_pipebase_received] is called, the queue
    not being empty. *)
Definition nn_sinproc_recv (s : conn Q) (x : side) : outcome (conn Q * bool * nn_msg) :=
  me ← get s x;
  _ ← check (bool_decide (state me = NN_SINPROC_STATE_ACTIVE) ||
             bool_decide (state me = NN_SINPROC_STATE_DISCONNECTED));
  '(q, rc, got) ← mq_recv (msgqueue me);
  _ ← check (rc =? 0);
  m ← match got with Some m => Ret m | None => Undef end;
  s ← update s x (fun me => with_queue me q);
  s ← (if negb (bool_decide (state me = NN_SINPROC_STATE_DISCONNECTED)) &&
          has_flag me NN_SINPROC_FLAG_RECEIVING
       then take_pending s me q x
       else Ret s);
  me ← get s x;
  Ret (s, negb (mq_empty (msgqueue me)), m).

(** [nn_pipe_send] and [nn_pipe_recv] of core/pipe.c, over this transport. *)
Definition pipe_send (s : conn Q) (x : side) (m : nn_msg) : outcome (conn Q) :=
  '(s, rc) ← nn_sinproc_send s x m;
  me ← get s x;
  '(p, _) ← Pipe.nn_pipe_send (pipebase me) (Pipe.Answer rc false tt);
  Ret (put s x (with_pipe me p)).

Definition pipe_recv (s : conn Q) (x : side) : outcome (conn Q * nn_msg) :=
  '(s, sync, m) ← nn_sinproc_recv s x;
  me ← get s x;
  '(p, _, m) ← Pipe.nn_pipe_recv (pipebase me) (Pipe.Answer 0 sync m);
  Ret (put s x (with_pipe me p), m).

(** ** The endpoints *)

(** Terminates and releases a session. *)
Definition free_session (s : conn Q) (x : side) : outcome (conn Q) :=
  me ← get s x;
  _ ← nn_sinproc_term me;
  Ret (set_slot s x None).

(** What the endpoint does with an event of its session: the connecting one
    makes the session ready for the next connection when the peer is gone, the
    bound one leaves it; both release a session that has stopped. *)
Definition owner_event (s : conn Q) (x : side) (ty : Z) : outcome (conn Q) :=
  if ty =? NN_SINPROC_DISCONNECT then
    if decide (x = cin) then
      me ← nn_sinproc_init x;
      Ret (put s x me)
    else Ret s
  else free_session s x.

(** [nn_ctx_leave] delivers the events raised to the owner. *)
Definition leave (s : conn Q) (x : side) : outcome (conn Q) :=
  match slot s x with
  | Some me =>
      match raised (fsm_ me) with
      | [] => Ret s
      | (_, ty) :: rest =>
          let s := put s x (with_fsm_ me (Fsm (fsm_st (fsm_ me)) rest)) in
          owner_event s x ty
      end
  | None => Ret s
  end.

(** An endpoint that is stopped stops its session; a connecting endpoint
    releases an idle one at once. *)
Definition stop_endpoint (s : conn Q) (x : side) : outcome (conn Q) :=
  s ← nn_sinproc_stop s x;
  me ← get s x;
  if bool_decide (x = cin) && nn_sinproc_isidle me then free_session s x else Ret s.

(** The next event to [x]: CONNECT is raised to the endpoint, which accepts, the
    others to the session. *)
Definition deliver (s : conn Q) (x : side) : outcome (conn Q) :=
  match inbound s x with
  | [] => Ret s
  | e :: es =>
      let s := set_inbound s x es in
      if type e =? NN_SINPROC_CONNECT then nn_sinproc_accept s x else
      _ ← get s x;
      nn_fsm_feed (H := session x) s NN_SINPROC_SRC_PEER (type e) 0
  end.

Inductive label : Type :=
| LDeliver (x : side)
| LSend (x : side) (m : nn_msg)
| LRecv (x : side)
| LStop (x : side).

Definition label_side (l : label) : side :=
  match l with LDeliver x | LSend x _ | LRecv x | LStop x => x end.

Definition conn_step (s : conn Q) (l : label) : outcome (conn Q * option nn_msg) :=
  '(s, got) ← match l with
              | LDeliver x => s ← deliver s x; Ret (s, None)
              | LSend x m => s ← pipe_send s x m; Ret (s, None)
              | LRecv x => '(s, m) ← pipe_recv s x; Ret (s, Some m)
              | LStop x => s ← stop_endpoint s x; Ret (s, None)
              end;
  s ← leave s (label_side l);
  Ret (s, got).

(** Two new sessions; one of them connects. *)
Definition conn_init : outcome (conn Q) :=
  a ← nn_sinproc_init SA;
  b ← nn_sinproc_init SB;
  nn_sinproc_connect (Conn (Some a) (Some b) [] []) SA.

End sinproc.
