(* ===== verification/SinprocSpec.v ===== *)
(** * SinprocSpec: inproc sessions deliver every message once and in order

    What a connection does to its messages depends on a message queue only
    through three answers: whether the queue is empty, whether it accepts the
    next message, and whether it is empty after the next receive.  [aq] is a
    queue that knows nothing else; the code of Sinproc.v runs over it as well,
    and has finitely many states then.  [reach] enumerates them, and the checks
    below are evaluated on all of them and all their transitions.

    [conn_rel] relates a connection over a real queue, given by the class
    [MsgQueueLaws], to one over [aq]; the code keeps the two in lockstep, one
    lemma per function.  What was evaluated for the enumerated states holds of
    every connection therefore. *)

From stdpp Require Import base gmap list.
From Stdlib Require Import ZArith Lia.
From S2P Require Import Prelude.
From S2P Require Import Fsm.
From S2P Require Import Message.
From S2P Require Pipe.
From S2P Require MsgQueue.
From S2P Require Import Sinproc.

Open Scope Z_scope.

(** ** What the queue promises *)

Definition nonempty {A} (xs : list A) : bool := match xs with [] => false | _ => true end.

Class MsgQueueLaws (Q : Type) `{MsgQueueOps Q} := {
  mq_rep : Z -> Q -> list nn_msg -> Prop;
  mq_init_ok mm : exists q, mq_init mm = Ret q /\ mq_rep mm q [];
  mq_term_ok mm q xs : mq_rep mm q xs -> mq_term q = Ret tt;
  mq_empty_ok mm q xs : mq_rep mm q xs -> mq_empty q = negb (nonempty xs);
  mq_recv_nil mm q : mq_rep mm q [] ->
    exists q', mq_recv q = Ret (q', - EAGAIN, None) /\ mq_rep mm q' [];
  mq_recv_cons mm q m xs : mq_rep mm q (m :: xs) ->
    exists q', mq_recv q = Ret (q', 0, Some m) /\ mq_rep mm q' xs;
  mq_send_ok mm q m xs : mq_rep mm q xs ->
    Z.of_nat (S (length xs)) < 2 ^ 64 -> MsgQueue.total xs + MsgQueue.msg_size m < 2 ^ 64 ->
    exists q', mq_send q m = Ret (q', if MsgQueue.full mm xs m then - EAGAIN else 0) /\
      mq_rep mm q' (if MsgQueue.full mm xs m then xs else xs ++ [m])
}.

(** The queue of msgqueue.c, with an allocator that finds free memory. *)

Definition real_queue : Type := MsgQueue.qheap * MsgQueue.nn_msgqueue.

Definition free_chunk (h : MsgQueue.qheap) : positive := fresh (dom h : gset positive).

#[export] Instance real_queue_ops : MsgQueueOps real_queue := {|
  mq_init mm := MsgQueue.nn_msgqueue_init ∅ (Some 1%positive) mm;
  mq_term q := _ ← MsgQueue.nn_msgqueue_term (fst q) (snd q); Ret tt;
  mq_empty q := negb (MsgQueue.nn_msgqueue_empty (snd q) =? 0);
  mq_send q m :=
    '(h, s, rc) ← MsgQueue.nn_msgqueue_send (fst q) (Some (free_chunk (fst q))) (snd q) m;
    Ret (h, s, rc);
  mq_recv q := '(h, s, rc, got) ← MsgQueue.nn_msgqueue_recv (fst q) (snd q); Ret (h, s, rc, got)
|}.

#[export] Instance real_queue_laws : MsgQueueLaws real_queue.
Proof.
  refine {| mq_rep mm q xs := MsgQueue.queue_rep (fst q) (snd q) xs /\ MsgQueue.maxmem (snd q) = mm |};
    cbn [mq_init mq_term mq_empty mq_send mq_recv real_queue_ops].
  - intros mm. destruct (MsgQueue.init_rep 1 mm) as (h & q & E & Hq & Hm). by exists (h, q).
  - intros mm [h q] xs [Hq _]. cbn [fst snd] in *. by rewrite (MsgQueue.term_rep _ _ _ Hq).
  - intros mm [h q] xs [[_ Hc _ _] _]. unfold MsgQueue.nn_msgqueue_empty. cbn [fst snd] in *.
    rewrite Hc. by destruct xs.
  - intros mm [h q] [Hq Hm]. exists (h, q). cbn [fst snd] in *. by rewrite (MsgQueue.recv_empty _ _ Hq).
  - intros mm [h q] m xs [Hq <-]. destruct (MsgQueue.recv_rep _ _ _ _ Hq) as (h' & q' & E & Hq' & Hm).
    exists (h', q'). cbn [fst snd] in *. by rewrite E.
  - intros mm [h q] m xs [Hq <-] Hl Ht. cbn [fst snd] in *.
    destruct (MsgQueue.send_rep _ _ m _ (free_chunk h) Hq) as (h' & q' & E & Hq' & Hm); [|done|done|].
    + apply (not_elem_of_dom (D := gset positive)). apply (is_fresh (dom h : gset positive)).
    + exists (h', q'). by rewrite E.
Defined.

(** ** The queue that answers what it is told

    [ne]: not empty; [after]: not empty after a receive; [room]: the next
    message is accepted.  The other fields record what was done to it. *)

Record aq : Type := AQ {
  ne : bool; after : bool; room : bool; pushed : bool; popped : bool; renewed : bool
}.

#[export] Instance aq_ops : MsgQueueOps aq := {|
  mq_init _ := Ret (AQ false false false false false true);
  mq_term _ := Ret tt;
  mq_empty q := negb (ne q);
  mq_send q _ :=
    if ne q && negb (room q) then Ret (q, - EAGAIN)
    else Ret (AQ true (after q) (room q) true (popped q) (renewed q), 0);
  mq_recv q :=
    if ne q then Ret (AQ (after q) (after q) (room q) (pushed q) true (renewed q), 0, Some empty_msg)
    else Ret (q, - EAGAIN, None)
|}.

#[export] Existing Instances Pipe.pipe_state_eq_dec Pipe.in_state_eq_dec Pipe.out_state_eq_dec.
#[export] Instance aq_eq_dec : EqDecision aq.
Proof. solve_decision. Defined.
#[export] Instance ep_options_eq_dec : EqDecision Pipe.nn_ep_options.
Proof. solve_decision. Defined.
#[export] Instance pipebase_eq_dec : EqDecision Pipe.nn_pipebase.
Proof. solve_decision. Defined.
#[export] Instance fsm_eq_dec : EqDecision nn_fsm.
Proof. solve_decision. Defined.
#[export] Instance sinproc_eq_dec {Q} `{EqDecision Q} : EqDecision (nn_sinproc Q).
Proof. solve_decision. Defined.
#[export] Instance conn_eq_dec {Q} `{EqDecision Q} : EqDecision (conn Q).
Proof. solve_decision. Defined.

(** Messages are marked: not touched in this step, set by it, or empty. *)
Definition untouched : nn_msg := Msg [] [2].
Definition just_sent : nn_msg := Msg [] [1].

(** *** What may happen to a connection *)

Definition is_type (ty : Z) (e : event) : bool := type e =? ty.

Definition has_event {Q} (s : conn Q) (x : side) (ty : Z) : bool := existsb (is_type ty) (inbound s x).

Definition on {Q} (s : conn Q) (x : side) (f : nn_sinproc Q -> bool) : bool :=
  match slot s x with Some me => f me | None => false end.

Definition in_state {Q} (st : sinproc_state) (me : nn_sinproc Q) : bool := bool_decide (state me = st).

(** The socket uses its pipe as pipe.c allows.  An endpoint is stopped once the
    handshake is over, and neither is a message underway to a session that is
    stopping nor sent to one: the races excluded here abort, as
    [teardown_races] shows. *)
Definition legal {Q} (s : conn Q) (l : label) : bool :=
  match l with
  | LDeliver x => negb (bool_decide (inbound s x = []))
  | LSend x _ =>
      on s x (fun me => bool_decide (Pipe.state (pipebase me) = Pipe.P_ACTIVE) &&
                        bool_decide (Pipe.outstate (pipebase me) = Pipe.OUT_IDLE)) &&
      on s (other x) (fun them => negb (in_state NN_SINPROC_STATE_STOPPING_PEER them))
  | LRecv x =>
      on s x (fun me => bool_decide (Pipe.state (pipebase me) = Pipe.P_ACTIVE) &&
                        bool_decide (Pipe.instate (pipebase me) = Pipe.IN_IDLE))
  | LStop x =>
      on s x (fun me => negb (in_state NN_SINPROC_STATE_CONNECTING me) &&
                        negb (in_state NN_SINPROC_STATE_READY me)) &&
      negb (has_event s x NN_SINPROC_CONNECT) && negb (has_event s x NN_SINPROC_ACCEPTED) &&
      negb (has_event s x NN_SINPROC_SENT)
  end.

(** *** Enumeration *)

Definition no_opts (x : side) : Pipe.nn_ep_options := Pipe.EpOptions 0 0 0.

(** A queue before a step, with the answers [o], and a session with it. *)
Definition armed (q : aq) (o : bool * bool) : aq := AQ (ne q) (fst o) (snd o) false false false.

Definition arm_session (o : bool * bool) (me : nn_sinproc aq) : nn_sinproc aq :=
  with_msg (with_queue me (armed (msgqueue me) o)) untouched.

Definition arm (c : conn aq) (oa ob : bool * bool) : conn aq :=
  Conn (arm_session oa <$> sa c) (arm_session ob <$> sb c) (to_a c) (to_b c).

Definition rest (c : conn aq) : conn aq := arm c (false, false) (false, false).

(** The answers are asked of the queue of the side that steps. *)
Definition arm_side (c : conn aq) (x : side) (o : bool * bool) : conn aq :=
  match x with SA => arm c o (false, false) | SB => arm c (false, false) o end.

(** The transitions, each with the answers that matter to it. *)
Definition answers (l : label) : list (bool * bool) :=
  match l with
  | LDeliver _ | LRecv _ => [(false, false); (false, true); (true, false); (true, true)]
  | _ => [(false, false)]
  end.

Definition labels : list label :=
  [LDeliver SA; LDeliver SB; LSend SA just_sent; LSend SB just_sent; LRecv SA; LRecv SB; LStop SA; LStop SB].

Definition trans (c : conn aq) : list (label * (bool * bool)) :=
  flat_map (fun l => if legal c l then pair l <$> answers l else []) labels.

Definition astep (cin : side) (c : conn aq) (l : label) (o : bool * bool)
    : outcome (conn aq * option nn_msg) :=
  conn_step (fun _ => 0) no_opts (fun _ => 0) cin (arm_side c (label_side l) o) l.

(** States are filed under a number made of their fields. *)
Definition state_digit (st : sinproc_state) : Z :=
  match st with
  | NN_SINPROC_STATE_IDLE => 1 | NN_SINPROC_STATE_CONNECTING => 2 | NN_SINPROC_STATE_READY => 3
  | NN_SINPROC_STATE_ACTIVE => 4 | NN_SINPROC_STATE_DISCONNECTED => 5
  | NN_SINPROC_STATE_STOPPING_PEER => 6 | NN_SINPROC_STATE_STOPPING => 7
  end.

Definition session_digits (o : option (nn_sinproc aq)) : list Z :=
  match o with
  | None => [0]
  | Some me =>
      [state_digit (state me); flags me;
       match fsm_st (fsm_ me) with FSM_IDLE => 0 | FSM_ACTIVE => 1 | FSM_STOPPING => 2 end;
       match Pipe.state (pipebase me) with Pipe.P_ACTIVE => 1 | _ => 0 end;
       match Pipe.instate (pipebase me) with Pipe.IN_IDLE => 1 | Pipe.IN_ASYNC => 2 | _ => 0 end;
       match Pipe.outstate (pipebase me) with Pipe.OUT_IDLE => 1 | Pipe.OUT_ASYNC => 2 | _ => 0 end;
       c_bool (ne (msgqueue me))]
  end.

Definition key (c : conn aq) : positive :=
  Z.to_pos (fold_left (fun n d => n * 8 + d)
    (session_digits (sa c) ++ session_digits (sb c) ++
     (type <$> to_a c) ++ 7 :: (type <$> to_b c)) 1).

Definition states : Type := gmap positive (conn aq).

Definition member (cs : states) (c : conn aq) : bool := bool_decide (cs !! key c = Some c).

Definition add_new (cin : side) (c : conn aq) (st : states * list (conn aq)) (t : label * (bool * bool))
    : states * list (conn aq) :=
  match astep cin c (fst t) (snd t) with
  | Ret (c', _) =>
      let c' := rest c' in
      if member (fst st) c' then st else (<[key c' := c']> (fst st), c' :: snd st)
  | _ => st
  end.

Fixpoint explore (fuel : nat) (cin : side) (seen : states) (todo : list (conn aq)) : states :=
  match fuel, todo with
  | S fuel, c :: todo =>
      let '(seen, todo) := fold_left (add_new cin c) (trans c) (seen, todo) in
      explore fuel cin seen todo
  | _, _ => seen
  end.

Definition start : conn aq :=
  match conn_init (fun _ => 0) no_opts (fun _ => 0) with Ret c => rest c | _ => Conn None None [] [] end.

Definition reach (cin : side) : states := explore 300 cin {[key start := start]} [start].

(** *** What every transition does to the messages *)

(** A message on its way to [x], in the session of the other side. *)
Definition infl {Q} (c : conn Q) (x : side) : bool :=
  has_event c x NN_SINPROC_SENT || on c x (fun me => has_flag me NN_SINPROC_FLAG_RECEIVING).

(** [x] takes part in the connection. *)
Definition linked {Q} (c : conn Q) (x : side) : bool :=
  on c x (fun me => in_state NN_SINPROC_STATE_CONNECTING me || in_state NN_SINPROC_STATE_READY me ||
                    in_state NN_SINPROC_STATE_ACTIVE me ||
                    in_state NN_SINPROC_STATE_IDLE me && has_event c x NN_SINPROC_CONNECT).

Definition is_recv (l : label) (x : side) : bool :=
  match l with LRecv y => bool_decide (x = y) | _ => false end.

Definition is_send (l : label) (x : side) : bool :=
  match l with LSend y _ => bool_decide (x = y) | _ => false end.

(** Of the messages to [x], one at most is in the other session; a step moves it
    to the queue, if the queue has room, or puts it there, or does neither. *)
Definition conserves (c : conn aq) (l : label) (o : bool * bool) (c' : conn aq) (x : side) : bool :=
  negb (linked c' x) ||
  linked c x && on c' x (fun me => let q := msgqueue me in
    negb (renewed q) && eqb (popped q) (is_recv l x) &&
    if pushed q then infl c x && negb (infl c' x) && negb (is_send l (other x)) &&
      bool_decide (x = label_side l) &&
      (snd o || negb (if popped q then fst o else on c x (fun me => ne (msgqueue me))))
    else eqb (infl c' x) (infl c x || is_send l (other x)) && negb (infl c x && is_send l (other x)) &&
      (negb (infl c' x) ||
       on c' (other x) (fun them =>
         bool_decide (msg them = if is_send l (other x) then just_sent else untouched)))).

Definition good_trans (cin : side) (cs : states) (c : conn aq) (t : label * (bool * bool)) : bool :=
  match astep cin c (fst t) (snd t) with
  | Ret (c', got) =>
      member cs (rest c') &&
      conserves c (fst t) (snd t) c' SA && conserves c (fst t) (snd t) c' SB
  | _ => false
  end.

(** Where the socket may receive, there is something to receive; a message comes
    only to a session that takes part, from one that exists; the peer is the
    other side. *)
Definition good_side (c : conn aq) (x : side) : bool :=
  (negb (legal c (LRecv x)) || linked c x && on c x (fun me => ne (msgqueue me))) &&
  (negb (has_event c x NN_SINPROC_SENT) || linked c x) &&
  (negb (infl c x && linked c x) || on c (other x) (fun _ => true)) &&
  (negb (on c x (fun me => bool_decide (peer me = Some x)))).

Definition good_state (c : conn aq) : bool :=
  bool_decide (rest c = c) && good_side c SA && good_side c SB.

(** Whatever the order of delivery, [fuel] events are enough to end the
    connection, with both sessions released, or ready for the next one. *)
Definition finished {Q} (c : conn Q) (x : side) : bool :=
  match slot c x with Some me => nn_sinproc_isidle me | None => true end.

Fixpoint drains (cin : side) (fuel : nat) (c : conn aq) : bool :=
  match inbound c SA ++ inbound c SB with
  | [] => finished c SA && finished c SB
  | _ =>
      match fuel with
      | O => false
      | S fuel =>
          forallb (fun l =>
            if legal c l
            then forallb (fun o => match astep cin c l o with
                                   | Ret (c', _) => drains cin fuel (rest c') | _ => false end) (answers l)
            else true)
            [LDeliver SA; LDeliver SB]
      end
  end.

(** Both endpoints have been asked to stop, or have nothing left to stop. *)
Definition asked {Q} (c : conn Q) (x : side) : bool :=
  match slot c x with Some me => negb (bool_decide (fsm_st (fsm_ me) = FSM_ACTIVE)) | None => true end &&
  negb (has_event c x NN_SINPROC_CONNECT).

Definition good (cin : side) (cs : states) (c : conn aq) : bool :=
  good_state c && (if asked c SA && asked c SB then drains cin 4 c else true) &&
  forallb (good_trans cin cs c) (trans c).

(** [check_all] holds of a set of states that is closed under transitions, has
    the initial state, and whose states are all good. *)
Definition check_all (cin : side) (cs : states) : bool :=
  member cs start && forallb (good cin cs) (snd <$> map_to_list cs).

Lemma reach_good (cin : side) : check_all cin (reach cin) = true.
Proof. destruct cin; vm_compute; reflexivity. Qed.

(** ** Lockstep *)

Create HintDb lock discriminated.

Definition lock {A B} (R : A -> B -> Prop) (o : outcome A) (o' : outcome B) : Prop :=
  match o, o' with
  | Ret a, Ret b => R a b
  | Abort, Abort | Undef, Undef | NoFuel, NoFuel => True
  | _, _ => False
  end.

Lemma lock_bind {A A' B B'} (R : A -> A' -> Prop) (T : B -> B' -> Prop) o o' (f : A -> outcome B) (g : A' -> outcome B') :
  lock R o o' -> (forall a a', R a a' -> lock T (f a) (g a')) -> lock T (o ≫= f) (o' ≫= g).
Proof. destruct o, o'; cbn; intros H Hf; try done. by apply Hf. Qed.

Lemma lock_check b : lock eq (check b) (check b).
Proof. by destruct b. Qed.

(** Pipes are compared without their options, which no function looks at. *)
Definition pipe_eqv (p p' : Pipe.nn_pipebase) : Prop :=
  Pipe.state p = Pipe.state p' /\ Pipe.instate p = Pipe.instate p' /\ Pipe.outstate p = Pipe.outstate p'.

Ltac pipe_cases p p' Hp := destruct p as [ps pi po pn], p' as [ps' pi' po' pn'];
  destruct Hp as (E1 & E2 & E3); cbn in E1, E2, E3; subst ps' pi' po'.

Lemma pipe_start_lock p p' rc rc' :
  pipe_eqv p p' -> 0 <= rc -> 0 <= rc' ->
  lock (fun a b => pipe_eqv a.1.1.2 b.1.1.2 /\ a.1.2 = b.1.2)
    (Pipe.nn_pipebase_start p (fun _ => Ret (tt, rc))) (Pipe.nn_pipebase_start p' (fun _ => Ret (tt, rc'))).
Proof.
  intros Hp H1 H2. pipe_cases p p' Hp. unfold Pipe.nn_pipebase_start. cbn.
  destruct ps; try done. cbn. rewrite !(proj2 (Z.ltb_ge _ _)) by done. done.
Qed.

Lemma pipe_stop_lock p p' :
  pipe_eqv p p' -> lock (fun a b => pipe_eqv a.2 b.2) (Pipe.nn_pipebase_stop p tt Ret) (Pipe.nn_pipebase_stop p' tt Ret).
Proof. intros Hp. pipe_cases p p' Hp. by destruct ps. Qed.

Lemma pipe_received_lock p p' :
  pipe_eqv p p' -> lock (fun a b => pipe_eqv a.1 b.1) (Pipe.nn_pipebase_received p) (Pipe.nn_pipebase_received p').
Proof. intros Hp. pipe_cases p p' Hp. by destruct pi. Qed.

Lemma pipe_sent_lock p p' :
  pipe_eqv p p' -> lock (fun a b => pipe_eqv a.1 b.1) (Pipe.nn_pipebase_sent p) (Pipe.nn_pipebase_sent p').
Proof. intros Hp. pipe_cases p p' Hp. by destruct po. Qed.

Lemma pipe_send_lock p p' rc :
  pipe_eqv p p' ->
  lock (fun a b => pipe_eqv a.1 b.1) (Pipe.nn_pipe_send p (Pipe.Answer rc false tt)) (Pipe.nn_pipe_send p' (Pipe.Answer rc false tt)).
Proof.
  intros Hp. pipe_cases p p' Hp. unfold Pipe.nn_pipe_send. cbn.
  destruct po; try done. cbn. by destruct (rc >=? 0).
Qed.

Lemma pipe_recv_lock {M} p p' sync (m m' : M) :
  pipe_eqv p p' ->
  lock (fun a b => pipe_eqv a.1.1 b.1.1 /\ a.2 = m /\ b.2 = m')
    (Pipe.nn_pipe_recv p (Pipe.Answer 0 sync m)) (Pipe.nn_pipe_recv p' (Pipe.Answer 0 sync m')).
Proof.
  intros Hp. pipe_cases p p' Hp. unfold Pipe.nn_pipe_recv. cbn.
  destruct pi; try done. by destruct sync.
Qed.

Section lockstep.
  Context {Q : Type} `{MsgQueueLaws Q}.
  Variables (rcvbuf : side -> Z) (options : side -> Pipe.nn_ep_options) (sock_add : side -> Z) (cin : side).
  Hypothesis accepted : forall x, 0 <= sock_add x.

  (** The data before the step: the queues, the messages in the sessions, and
      the message sent in the step. *)
  Variables (xs0 : side -> list nn_msg) (ms0 : side -> nn_msg) (m0 : nn_msg).

Definition cur (x : side) (q : aq) : list nn_msg :=
  (if renewed q then [] else if popped q then tl (xs0 x) else xs0 x) ++
  (if pushed q then [ms0 (other x)] else []).

Definition mark (x : side) (m : nn_msg) : nn_msg :=
  if decide (m = untouched) then ms0 x else if decide (m = just_sent) then m0 else empty_msg.

Record queue_rel (x : side) (q : Q) (q' : aq) : Prop := {
  rel_rep : mq_rep (rcvbuf x) q (cur x q');
  rel_ne : ne q' = nonempty (cur x q')
}.

Record ses_rel (x : side) (a : nn_sinproc Q) (c : nn_sinproc aq) : Prop := {
  rel_fsm : fsm_ a = fsm_ c;
  rel_state : state a = state c;
  rel_flags : flags a = flags c;
  rel_peer : peer a = peer c;
  rel_pipe : pipe_eqv (pipebase a) (pipebase c);
  rel_queue : queue_rel x (msgqueue a) (msgqueue c);
  rel_msg : msg a = mark x (msg c)
}.

Record conn_rel (s : conn Q) (c : conn aq) : Prop := {
  rel_a : option_Forall2 (ses_rel SA) (sa s) (sa c);
  rel_b : option_Forall2 (ses_rel SB) (sb s) (sb c);
  rel_to_a : to_a s = to_a c;
  rel_to_b : to_b s = to_b c
}.

Lemma rel_slot s c x : conn_rel s c -> option_Forall2 (ses_rel x) (slot s x) (slot c x).
Proof. intros []. by destruct x. Qed.

Lemma rel_inbound s c x : conn_rel s c -> inbound s x = inbound c x.
Proof. intros []. by destruct x. Qed.

Lemma rel_set_slot s c x o o' :
  conn_rel s c -> option_Forall2 (ses_rel x) o o' -> conn_rel (set_slot s x o) (set_slot c x o').
Proof. intros [] Ho. by destruct x. Qed.

Lemma rel_set_inbound s c x es : conn_rel s c -> conn_rel (set_inbound s x es) (set_inbound c x es).
Proof. intros []. by destruct x. Qed.

Lemma rel_put s c x a b : conn_rel s c -> ses_rel x a b -> conn_rel (put s x a) (put c x b).
Proof. intros. apply rel_set_slot; [done|]. by constructor. Qed.

Lemma get_lock s c x : conn_rel s c -> lock (ses_rel x) (get s x) (get c x).
Proof. intros Hs. unfold get. by destruct (rel_slot s c x Hs). Qed.

Lemma peer_lock x a c : ses_rel x a c -> lock eq (the_peer a) (the_peer c).
Proof. intros []. unfold the_peer. rewrite rel_peer0. by destruct (peer c). Qed.

Lemma active_eq s c x n : conn_rel s c -> event_active s x n = event_active c x n.
Proof.
  intros Hs. unfold event_active. rewrite (rel_to_a _ _ Hs), (rel_to_b _ _ Hs).
  destruct (rel_slot s c x Hs) as [a b Hab|]; [|done]. by rewrite (rel_fsm _ _ _ Hab).
Qed.

Lemma update_lock s c x f g :
  conn_rel s c -> (forall a b, ses_rel x a b -> ses_rel x (f a) (g b)) ->
  lock conn_rel (update s x f) (update c x g).
Proof.
  intros Hs Hf. eapply lock_bind; [by apply get_lock|]. intros a b Hab. apply rel_put; auto.
Qed.

Lemma update_slot_lock s c x f g :
  conn_rel s c -> (forall a b, ses_rel x a b -> ses_rel x (f a) (g b)) ->
  lock (fun s' c' => conn_rel s' c' /\ slot c' (other x) = slot c (other x)) (update s x f) (update c x g).
Proof.
  intros Hs Hf. eapply lock_bind; [by apply get_lock|]. intros a b Hab. split; [by apply rel_put; auto|by destruct x].
Qed.

Lemma raiseto_lock s c dst ev ty :
  conn_rel s c -> lock conn_rel (nn_fsm_raiseto s dst ev ty) (nn_fsm_raiseto c dst ev ty).
Proof.
  intros Hs. unfold nn_fsm_raiseto. eapply lock_bind; [by apply get_lock|]. intros _ _ _.
  rewrite (active_eq _ _ _ _ Hs). eapply lock_bind; [apply lock_check|]. intros _ _ _.
  cbn [lock]. rewrite (rel_inbound _ _ _ Hs). by apply rel_set_inbound.
Qed.

Lemma ses_with_fsm x a c f : ses_rel x a c -> ses_rel x (with_fsm_ a f) (with_fsm_ c f).
Proof. by intros []. Qed.
Lemma ses_with_state x a c f : ses_rel x a c -> ses_rel x (with_state a f) (with_state c f).
Proof. by intros []. Qed.
Lemma ses_with_flags x a c f : ses_rel x a c -> ses_rel x (with_flags a f) (with_flags c f).
Proof. by intros []. Qed.
Lemma ses_with_peer x a c f : ses_rel x a c -> ses_rel x (with_peer a f) (with_peer c f).
Proof. by intros []. Qed.
Lemma ses_with_pipe x a c f g : ses_rel x a c -> pipe_eqv f g -> ses_rel x (with_pipe a f) (with_pipe c g).
Proof. by intros []. Qed.
Lemma ses_with_queue x a c f g : ses_rel x a c -> queue_rel x f g -> ses_rel x (with_queue a f) (with_queue c g).
Proof. by intros []. Qed.
Lemma ses_with_msg x a c m m' : ses_rel x a c -> m = mark x m' -> ses_rel x (with_msg a m) (with_msg c m').
Proof. by intros []. Qed.
Lemma ses_set_flag x a c f : ses_rel x a c -> ses_rel x (set_flag a f) (set_flag c f).
Proof. intros Hac. unfold set_flag. rewrite (rel_flags _ _ _ Hac). by apply ses_with_flags. Qed.
Lemma ses_clear_flag x a c f : ses_rel x a c -> ses_rel x (clear_flag a f) (clear_flag c f).
Proof. intros Hac. unfold clear_flag. rewrite (rel_flags _ _ _ Hac). by apply ses_with_flags. Qed.

Lemma has_flag_eq x a c f : ses_rel x a c -> has_flag a f = has_flag c f.
Proof. intros Hac. unfold has_flag. by rewrite (rel_flags _ _ _ Hac). Qed.

#[local] Hint Resolve get_lock peer_lock update_lock raiseto_lock rel_put rel_set_inbound lock_check
  ses_with_fsm ses_with_state ses_with_flags ses_with_peer ses_with_pipe ses_set_flag ses_clear_flag : lock.

(** One bind: the first halves in lockstep by the hints, then the rest. *)
Tactic Notation "step" simple_intropattern(a) simple_intropattern(b) simple_intropattern(h) :=
  eapply lock_bind; [by eauto with lock|intros a b h].

(** The related sessions have the same control fields. *)
Ltac sync h := rewrite ?(rel_fsm _ _ _ h), ?(rel_state _ _ _ h), ?(has_flag_eq _ _ _ _ h).

Lemma start_pipe_lock s c x :
  conn_rel s c -> lock conn_rel (start_pipe sock_add s x) (start_pipe (fun _ => 0) c x).
Proof.
  intros Hs. unfold start_pipe. step a b Hab.
  eapply lock_bind; [apply (pipe_start_lock _ _ _ _ (rel_pipe _ _ _ Hab) (accepted x)); done|].
  intros [[[? p] rc] ?] [[[? p'] rc'] ?] [Hp Hrc]. cbn in Hp, Hrc. subst rc'. step _ _ _. cbn [lock]. auto with lock.
Qed.

Lemma stop_pipe_lock s c x : conn_rel s c -> lock conn_rel (stop_pipe s x) (stop_pipe c x).
Proof.
  intros Hs. unfold stop_pipe. step a b Hab.
  eapply lock_bind; [apply (pipe_stop_lock _ _ (rel_pipe _ _ _ Hab))|].
  intros [? p] [? p'] Hp. cbn [lock]. cbn in Hp. auto with lock.
Qed.

Lemma fsm_lock (o : outcome nn_fsm) : lock eq o o.
Proof. by destruct o. Qed.

Lemma raise_disconnect_lock s c x : conn_rel s c -> lock conn_rel (raise_disconnect s x) (raise_disconnect c x).
Proof.
  intros Hs. unfold raise_disconnect. rewrite (active_eq _ _ _ _ Hs). step _ _ _. step a b Hab. sync Hab.
  eapply lock_bind; [apply fsm_lock|]. intros f ? <-. cbn [lock]. auto with lock.
Qed.

#[local] Hint Resolve start_pipe_lock stop_pipe_lock raise_disconnect_lock fsm_lock : lock.

Lemma shutdown_events_lock s c x src ty :
  conn_rel s c -> lock conn_rel (nn_sinproc_shutdown_events s x src ty) (nn_sinproc_shutdown_events c x src ty).
Proof.
  intros Hs. unfold nn_sinproc_shutdown_events. step a b Hab. sync Hab.
  destruct (_ && _).
  - destruct (_ && _); [|by auto with lock]. step s1 c1 Hs1. step _ _ _. step y ? <-. step s2 c2 Hs2. auto with lock.
  - destruct (_ && _); [done|]. destruct (state b); try done. step _ _ _. step _ _ _. auto with lock.
Qed.

#[local] Hint Resolve shutdown_events_lock : lock.

Lemma shutdown_lock s c x src ty :
  conn_rel s c -> lock conn_rel (nn_sinproc_shutdown s x src ty) (nn_sinproc_shutdown c x src ty).
Proof.
  intros Hs. unfold nn_sinproc_shutdown. step a b Hab. sync Hab. step _ _ _. step s1 c1 Hs1. step a1 b1 Hab1.
  sync Hab1. destruct (negb _); [done|]. rewrite !(active_eq _ _ _ _ Hs1). destruct (_ || _); [done|].
  step _ _ _. step _ _ _. step f ? <-. cbn [lock]. auto with lock.
Qed.
#[local] Hint Resolve shutdown_lock : lock.

(** *** Functions that use the queue *)

Lemma empty_eq x q q' : queue_rel x q q' -> mq_empty q = mq_empty q'.
Proof. intros [Hr Hn]. cbn. by rewrite (mq_empty_ok _ _ _ Hr), Hn. Qed.

(** What is known of the connection when the step begins: the answers of the
    queue of [x] are those of the real one, where [xs] is in it when the message
    of the peer comes. *)
Record fit (c : conn aq) (x : side) (xs : list nn_msg) : Prop := {
  fit_queue b : slot c x = Some b ->
    msgqueue b = AQ (ne (msgqueue b)) (nonempty (tl (xs0 x)))
                   (negb (MsgQueue.full (rcvbuf x) xs (ms0 (other x)))) false false false;
  fit_peer b y : slot c x = Some b -> peer b = Some y -> y = other x;
  fit_msg b : slot c (other x) = Some b -> msg b = untouched
}.

Definition bounded (x : side) : Prop :=
  Z.of_nat (S (length (xs0 x))) < 2 ^ 64 /\
  MsgQueue.total (xs0 x) + MsgQueue.msg_size (ms0 (other x)) < 2 ^ 64.

Lemma send_queue_lock x q q' m' :
  queue_rel x q q' -> pushed q' = false -> renewed q' = false ->
  room q' = negb (MsgQueue.full (rcvbuf x) (cur x q') (ms0 (other x))) -> bounded x ->
  lock (fun a b => queue_rel x a.1 b.1 /\ a.2 = b.2) (mq_send q (ms0 (other x))) (mq_send q' m').
Proof.
  intros [Hr Hn] Hp Hw Hroom [Hl Ht]. unfold cur in *. rewrite Hw, Hp, app_nil_r in *.
  set (xs := if popped q' then tl (xs0 x) else xs0 x) in *.
  assert (Hxs : (length xs <= length (xs0 x))%nat /\ MsgQueue.total xs <= MsgQueue.total (xs0 x)).
  { unfold xs. destruct (popped q'); [|lia]. destruct (xs0 x) as [|m l]; [done|]. cbn [tl length].
    change (MsgQueue.total (m :: l)) with (MsgQueue.msg_size m + MsgQueue.total l).
    pose proof (MsgQueue.msg_size_nonneg m). lia. }
  destruct (mq_send_ok _ _ (ms0 (other x)) _ Hr) as (q2 & -> & Hr2); [lia|lia|].
  unfold mq_send, aq_ops. rewrite Hroom, Hn, negb_involutive.
  assert (E : nonempty xs && MsgQueue.full (rcvbuf x) xs (ms0 (other x)) = MsgQueue.full (rcvbuf x) xs (ms0 (other x)))
    by (by destruct xs).
  rewrite E. destruct (MsgQueue.full _ xs _) eqn:Ef; cbn [lock fst snd]; (split; [|done]); constructor;
    unfold cur; cbn [renewed popped pushed ne]; rewrite ?Hw, ?Hp, ?app_nil_r; fold xs; try done.
  by destruct xs.
Qed.

Lemma recv_queue_lock x q b xs :
  queue_rel x q (msgqueue b) ->
  msgqueue b = AQ (ne (msgqueue b)) (nonempty (tl (xs0 x)))
                 (negb (MsgQueue.full (rcvbuf x) xs (ms0 (other x)))) false false false ->
  lock (fun a b => queue_rel x a.1.1 b.1.1 /\ a.1.2 = b.1.2 /\
      (a.1.2 = 0 -> (a.2 = hd_error (xs0 x) /\ is_Some a.2 /\ is_Some b.2) /\
         pushed b.1.1 = false /\ renewed b.1.1 = false /\
         room b.1.1 = negb (MsgQueue.full (rcvbuf x) xs (ms0 (other x))) /\ cur x b.1.1 = tl (xs0 x)))
    (mq_recv q) (mq_recv (msgqueue b)).
Proof.
  intros [Hr Hn] Hb. rewrite Hb in Hr, Hn. rewrite Hb. unfold cur in *. cbn [renewed popped pushed ne] in *.
  unfold mq_recv at 2. unfold aq_ops. rewrite app_nil_r in *. rewrite Hn. destruct (xs0 x) as [|m l] eqn:El.
  - destruct (mq_recv_nil _ _ Hr) as (q2 & -> & Hr2). cbn. split_and!; [|done|done].
    constructor; unfold cur; cbn; by rewrite ?El.
  - destruct (mq_recv_cons _ _ _ _ Hr) as (q2 & -> & Hr2). cbn.
    split_and!; [|done|]. { constructor; unfold cur; cbn; by rewrite ?El, ?app_nil_r. }
    intros _. unfold cur. cbn. by rewrite ?El, ?app_nil_r.
Qed.

Lemma get_slot_lock s c x :
  conn_rel s c -> lock (fun a b => ses_rel x a b /\ slot c x = Some b) (get s x) (get c x).
Proof. intros Hs. unfold get. by destruct (rel_slot s c x Hs). Qed.

Lemma mark_empty x : empty_msg = mark x empty_msg.
Proof. done. Qed.

#[local] Hint Resolve mark_empty ses_with_msg ses_with_queue : lock.

Lemma peer_some_lock x a c :
  ses_rel x a c -> lock (fun y y' => y = y' /\ peer c = Some y') (the_peer a) (the_peer c).
Proof. intros []. unfold the_peer. rewrite rel_peer0. by destruct (peer c). Qed.

Lemma active_sent_lock s c x :
  conn_rel s c -> fit c x (xs0 x) -> bounded x -> lock conn_rel (active_sent s x) (active_sent c x).
Proof.
  intros Hs [Hq Hpeer Hm] Hbd. unfold active_sent.
  eapply lock_bind; [by apply get_slot_lock|]. intros a b [Hab Hb]. specialize (Hq b Hb).
  rewrite (empty_eq _ _ _ (rel_queue _ _ _ Hab)).
  eapply lock_bind; [by apply (peer_some_lock x)|]. intros y ? [-> Hy]. rewrite (Hpeer b _ Hb Hy) in *.
  eapply lock_bind; [by apply get_slot_lock|]. intros them them' [Ht Ht'].
  rewrite (rel_msg _ _ _ Ht), (Hm _ Ht'). change (mark (other x) untouched) with (ms0 (other x)).
  eapply lock_bind. { apply (send_queue_lock x); [apply Hab|by rewrite Hq..| |done].
    rewrite Hq. unfold cur. cbn. by rewrite app_nil_r. }
  intros [q rc] [q' rc'] [Hqq Hrc]. cbn [fst snd] in Hqq, Hrc. subst rc'.
  step s1 c1 Hs1. destruct (rc =? - EAGAIN); [by auto with lock|]. step _ _ _. step s2 c2 Hs2.
  eapply lock_bind with (R := conn_rel); [|intros s3 c3 Hs3; auto with lock].
  destruct (mq_empty _); [|done].
  eapply lock_bind; [apply pipe_received_lock, Hab|]. intros [p ?] [p' ?] Hp. cbn in Hp. auto with lock.
Qed.

Lemma active_received_lock s c x : conn_rel s c -> lock conn_rel (active_received s x) (active_received c x).
Proof.
  intros Hs. unfold active_received. step a b Hab. sync Hab. step _ _ _.
  eapply lock_bind; [apply pipe_sent_lock, Hab|]. intros [p ?] [p' ?] Hp. cbn in Hp. cbn [lock]. auto with lock.
Qed.

Lemma active_disconnect_lock s c x : conn_rel s c -> lock conn_rel (active_disconnect s x) (active_disconnect c x).
Proof.
  intros Hs. unfold active_disconnect. step s1 c1 Hs1. step a b Hab. step y ? <-. step s2 c2 Hs2.
  step s3 c3 Hs3. auto with lock.
Qed.

#[local] Hint Resolve active_received_lock active_disconnect_lock active_sent_lock : lock.

Lemma handler_lock s c x src ty :
  conn_rel s c -> (ty = NN_SINPROC_SENT -> fit c x (xs0 x) /\ bounded x) ->
  lock conn_rel (nn_sinproc_handler sock_add s x src ty) (nn_sinproc_handler (fun _ => 0) c x src ty).
Proof.
  intros Hs Hsent. unfold nn_sinproc_handler. step a b Hab. sync Hab. destruct (state b); try done.
  - step _ _ _. step _ _ _. by eauto with lock.
  - destruct (src =? NN_FSM_ACTION); [step _ _ _; by eauto with lock|].
    destruct (src =? _); [|done]. step _ _ _. step s1 c1 Hs1. step s2 c2 Hs2. step s3 c3 Hs3. by eauto with lock.
  - step _ _ _. step _ _ _. step s1 c1 Hs1. by eauto with lock.
  - step _ _ _. destruct (Z.eqb_spec ty NN_SINPROC_SENT) as [E|_]; [destruct (Hsent E); by eauto with lock|].
    destruct (ty =? _); [by eauto with lock|]. destruct (ty =? _); [by eauto with lock|done].
  - step _ _ _. step _ _ _. done.
Qed.

(** *** State machines *)

Lemma rel_fsm_of s c x :
  conn_rel s c -> fsm (FsmObject := session sock_add x) s = fsm (FsmObject := session (fun _ => 0) x) c.
Proof. intros Hs. cbn. destruct (rel_slot s c x Hs) as [a b Hab|]; [apply Hab|done]. Qed.

Lemma rel_with_fsm s c x f :
  conn_rel s c ->
  conn_rel (with_fsm (FsmObject := session sock_add x) s f) (with_fsm (FsmObject := session (fun _ => 0) x) c f).
Proof. intros Hs. cbn. destruct (rel_slot s c x Hs) as [a b Hab|]; [auto with lock|done]. Qed.

Lemma fsm_start_lock s c x :
  conn_rel s c ->
  lock conn_rel (nn_fsm_start (H := session sock_add x) s) (nn_fsm_start (H := session (fun _ => 0) x) c).
Proof.
  intros Hs. unfold nn_fsm_start. rewrite (rel_fsm_of _ _ x Hs). step _ _ _.
  eapply lock_bind; [by apply handler_lock|]. intros s1 c1 Hs1. unfold set_fsm_state.
  rewrite (rel_fsm_of _ _ x Hs1). by apply rel_with_fsm.
Qed.

Lemma fsm_feed_lock s c x src ty p :
  conn_rel s c -> (ty = NN_SINPROC_SENT -> fit c x (xs0 x) /\ bounded x) ->
  lock conn_rel (nn_fsm_feed (H := session sock_add x) s src ty p)
    (nn_fsm_feed (H := session (fun _ => 0) x) c src ty p).
Proof.
  intros Hs Hsent. unfold nn_fsm_feed. rewrite (rel_fsm_of _ _ x Hs).
  destruct (decide _); [by apply handler_lock|by apply shutdown_lock].
Qed.

Lemma fsm_stop_lock s c x :
  conn_rel s c ->
  lock conn_rel (nn_fsm_stop (H := session sock_add x) s) (nn_fsm_stop (H := session (fun _ => 0) x) c).
Proof.
  intros Hs. unfold nn_fsm_stop. rewrite (rel_fsm_of _ _ x Hs). destruct (decide _); [done|].
  apply shutdown_lock. unfold set_fsm_state. rewrite (rel_fsm_of _ _ x Hs). by apply rel_with_fsm.
Qed.

#[local] Hint Resolve fsm_start_lock fsm_stop_lock : lock.

Lemma connect_lock s c x :
  conn_rel s c -> lock conn_rel (nn_sinproc_connect sock_add s x) (nn_sinproc_connect (fun _ => 0) c x).
Proof. intros Hs. unfold nn_sinproc_connect. step s1 c1 Hs1. by eauto with lock. Qed.

Lemma accept_lock s c x :
  conn_rel s c -> lock conn_rel (nn_sinproc_accept sock_add s x) (nn_sinproc_accept (fun _ => 0) c x).
Proof.
  intros Hs. unfold nn_sinproc_accept. step a b Hab. rewrite (rel_peer _ _ _ Hab). step _ _ _.
  step s1 c1 Hs1. step s2 c2 Hs2. unfold nn_fsm_action. step _ _ _. by apply fsm_feed_lock.
Qed.

Lemma deliver_lock s c x :
  conn_rel s c -> (has_event c x NN_SINPROC_SENT = true -> fit c x (xs0 x) /\ bounded x) ->
  lock conn_rel (deliver sock_add s x) (deliver (fun _ => 0) c x).
Proof.
  intros Hs Hsent. unfold deliver. rewrite (rel_inbound _ _ x Hs). unfold has_event in Hsent.
  destruct (inbound c x) as [|e es]; [done|]. cbn [existsb] in Hsent.
  destruct (type e =? NN_SINPROC_CONNECT); [by apply accept_lock, rel_set_inbound|].
  eapply lock_bind; [by apply get_lock, rel_set_inbound|]. intros _ _ _.
  apply fsm_feed_lock; [by apply rel_set_inbound|]. intros E. destruct Hsent as [[Hq Hp Hm] Hbd].
  { unfold is_type. by rewrite E. }
  split; [|done]. constructor; by destruct x.
Qed.

(** *** Sending and receiving *)

Lemma sinproc_send_lock s c x m :
  conn_rel s c -> m0 = Msg [] (sphdr m ++ body m) ->
  lock (fun a b => conn_rel a.1 b.1 /\ a.2 = b.2) (nn_sinproc_send s x m) (nn_sinproc_send c x just_sent).
Proof.
  intros Hs Hm. unfold nn_sinproc_send. step a b Hab. sync Hab. destruct (decide _); [done|].
  step _ _ _. step _ _ _. step y ? <-.
  assert (Hw : ses_rel x (set_flag (with_msg a (Msg [] (sphdr m ++ body m))) NN_SINPROC_FLAG_SENDING)
                 (set_flag (with_msg b just_sent) NN_SINPROC_FLAG_SENDING))
    by (apply ses_set_flag, ses_with_msg; [done|by rewrite <-Hm]).
  eapply lock_bind; [by apply raiseto_lock, rel_put|]. intros s1 c1 Hs1. done.
Qed.

Lemma pipe_send_conn_lock s c x m :
  conn_rel s c -> m0 = Msg [] (sphdr m ++ body m) ->
  lock conn_rel (pipe_send s x m) (pipe_send c x just_sent).
Proof.
  intros Hs Hm. unfold pipe_send. eapply lock_bind; [by apply sinproc_send_lock|].
  intros [s1 rc] [c1 rc'] [Hs1 E]. cbn [fst snd] in *. subst rc'. step a b Hab.
  eapply lock_bind; [apply pipe_send_lock, Hab|]. intros [p ?] [p' ?] Hp. cbn in Hp. cbn [lock]. auto with lock.
Qed.

Lemma put_other (c : conn aq) x b : slot (put c x b) (other x) = slot c (other x).
Proof. by destruct x. Qed.

Lemma take_pending_lock s c x a b q q' :
  conn_rel s c -> ses_rel x a b -> (forall y, peer b = Some y -> y = other x) ->
  (forall b, slot c (other x) = Some b -> msg b = untouched) ->
  queue_rel x q q' -> pushed q' = false -> renewed q' = false ->
  room q' = negb (MsgQueue.full (rcvbuf x) (cur x q') (ms0 (other x))) -> bounded x ->
  lock conn_rel (take_pending s a q x) (take_pending c b q' x).
Proof.
  intros Hs Hab Hpeer Hm Hq Hp Hw Hroom Hbd. unfold take_pending.
  eapply lock_bind; [by apply (peer_some_lock x)|]. intros y ? [-> Hy]. rewrite (Hpeer _ Hy) in *.
  eapply lock_bind; [by apply get_slot_lock|]. intros them them' [Ht Ht'].
  rewrite (rel_msg _ _ _ Ht), (Hm _ Ht'). change (mark (other x) untouched) with (ms0 (other x)).
  eapply lock_bind; [by apply (send_queue_lock x)|].
  intros [q1 rc] [q1' rc'] [Hq1 Hrc]. cbn [fst snd] in *. subst rc'.
  step s1 c1 Hs1. step _ _ _. destruct (rc =? 0); [|done]. step s2 c2 Hs2. step s3 c3 Hs3. by eauto with lock.
Qed.

Lemma sinproc_recv_lock s c x :
  conn_rel s c -> fit c x (tl (xs0 x)) ->
  (on c x (fun me => has_flag me NN_SINPROC_FLAG_RECEIVING) = true -> bounded x) ->
  lock (fun a b => conn_rel a.1.1 b.1.1 /\ a.1.2 = b.1.2 /\ Some a.2 = hd_error (xs0 x))
    (nn_sinproc_recv s x) (nn_sinproc_recv c x).
Proof.
  intros Hs [Hq Hpeer Hm] Hbd. unfold nn_sinproc_recv.
  eapply lock_bind; [by apply get_slot_lock|]. intros a b [Hab Hb]. specialize (Hq b Hb).
  unfold on in Hbd. rewrite Hb in Hbd. sync Hab. step _ _ _.
  eapply lock_bind; [apply (recv_queue_lock x _ _ _ (rel_queue _ _ _ Hab) Hq)|].
  intros [[q rc] got] [[q' rc'] got'] (Hqq & Hrc & Hgot). cbn [fst snd] in *. subst rc'.
  destruct (Z.eqb_spec rc 0) as [->|]; [|done]. cbn [check mbind outcome_bind].
  destruct (Hgot eq_refl) as ((Hhd & [m ->] & [m' ->]) & Hp & Hw & Hroom & Hcur). cbn [mbind outcome_bind].
  eapply lock_bind; [by apply update_slot_lock, (fun a b H => ses_with_queue x a b q q' H Hqq)|].
  intros s1 c1 [Hs1 Hother]. rewrite <-Hother in Hm.
  eapply lock_bind with (R := conn_rel).
  - destruct (_ && has_flag b _) eqn:E; [|done]. apply andb_true_iff in E as [_ E].
    apply take_pending_lock; try done; [by intros y; apply Hpeer|by rewrite Hroom, Hcur|by apply Hbd].
  - intros s2 c2 Hs2. step a2 b2 Hab2. cbn [lock fst snd].
    by rewrite (empty_eq _ _ _ (rel_queue _ _ _ Hab2)), <-Hhd.
Qed.

Lemma pipe_recv_conn_lock s c x :
  conn_rel s c -> fit c x (tl (xs0 x)) ->
  (on c x (fun me => has_flag me NN_SINPROC_FLAG_RECEIVING) = true -> bounded x) ->
  lock (fun a b => conn_rel a.1 b.1 /\ Some a.2 = hd_error (xs0 x)) (pipe_recv s x) (pipe_recv c x).
Proof.
  intros Hs Hfit Hbd. unfold pipe_recv. eapply lock_bind; [by apply sinproc_recv_lock|].
  intros [[s1 sy] m] [[c1 sy'] m'] (Hs1 & E & Hm). cbn [fst snd] in *. subst sy'. step a b Hab.
  eapply lock_bind; [apply (pipe_recv_lock _ _ sy m m'), Hab|].
  intros [[p ?] ?] [[p' ?] ?] (Hp & Hm1 & _). cbn in Hp, Hm1. subst. cbn [lock fst snd]. auto with lock.
Qed.

(** *** The endpoints *)

Lemma init_lock x : lock (ses_rel x) (nn_sinproc_init rcvbuf options x) (nn_sinproc_init (fun _ => 0) no_opts x).
Proof.
  unfold nn_sinproc_init. destruct (mq_init_ok (rcvbuf x)) as (q & -> & Hq). done.
Qed.

Lemma free_lock s c x : conn_rel s c -> lock conn_rel (free_session s x) (free_session c x).
Proof.
  intros Hs. unfold free_session, nn_sinproc_term. step a b Hab.
  rewrite (mq_term_ok _ _ _ (rel_rep _ _ _ (rel_queue _ _ _ Hab))). cbn [mq_term aq_ops mbind outcome_bind].
  unfold Pipe.nn_pipebase_term. destruct (rel_pipe _ _ _ Hab) as [-> _]. sync Hab.
  eapply lock_bind with (R := eq); [step _ _ _; unfold nn_fsm_term; apply lock_check|].
  intros _ _ _. cbn [lock]. apply rel_set_slot; [done|constructor].
Qed.

Lemma leave_lock s c x :
  conn_rel s c -> lock conn_rel (leave rcvbuf options cin s x) (leave (fun _ => 0) no_opts cin c x).
Proof.
  intros Hs. unfold leave. destruct (rel_slot s c x Hs) as [a b Hab|]; [|done]. sync Hab.
  destruct (raised _) as [|[? ty] es]; [done|].
  assert (Hp : conn_rel (put s x (with_fsm_ a (Fsm (fsm_st (fsm_ b)) es)))
                 (put c x (with_fsm_ b (Fsm (fsm_st (fsm_ b)) es)))) by auto with lock.
  unfold owner_event. destruct (ty =? _); [|by apply free_lock].
  destruct (decide (x = cin)); [|done].
  eapply lock_bind; [apply init_lock|]. intros a1 b1 Hab1. by apply rel_put.
Qed.

Lemma stop_endpoint_lock s c x :
  conn_rel s c ->
  lock conn_rel (stop_endpoint sock_add cin s x) (stop_endpoint (fun _ => 0) cin c x).
Proof.
  intros Hs. unfold stop_endpoint, nn_sinproc_stop. step s1 c1 Hs1. step a b Hab.
  unfold nn_sinproc_isidle. sync Hab. destruct (_ && _); [by apply free_lock|done].
Qed.

(** *** A step *)

(** The label of the abstract connection. *)
Definition label_abs (l : label) : label :=
  match l with LSend x _ => LSend x just_sent | l => l end.

Definition send_msg (l : label) : Prop :=
  match l with LSend _ m => m0 = Msg [] (sphdr m ++ body m) | _ => True end.

(** What the step needs: the answers of the queue, and the counters of the queue
    not overflowing when a message is to be put into it. *)
Definition ready (c : conn aq) (l : label) : Prop :=
  match l with
  | LDeliver x => has_event c x NN_SINPROC_SENT = true -> fit c x (xs0 x) /\ bounded x
  | LRecv x => fit c x (tl (xs0 x)) /\
      (on c x (fun me => has_flag me NN_SINPROC_FLAG_RECEIVING) = true -> bounded x)
  | _ => True
  end.

(** What the socket gets. *)
Definition got_msg (l : label) (got : option nn_msg) : Prop :=
  match l with LRecv x => got = hd_error (xs0 x) /\ is_Some got | _ => got = None end.

Lemma step_lock s c l :
  conn_rel s c -> send_msg l -> ready c l ->
  lock (fun a b => conn_rel a.1 b.1 /\ got_msg l a.2)
    (conn_step rcvbuf options sock_add cin s l)
    (conn_step (fun _ => 0) no_opts (fun _ => 0) cin c (label_abs l)).
Proof.
  intros Hs Hm Hr. unfold conn_step.
  eapply lock_bind with (R := fun a b => conn_rel a.1 b.1 /\ got_msg l a.2).
  - destruct l as [x|x m|x|x]; cbn [label_abs].
    + eapply lock_bind; [by apply deliver_lock|]. intros s1 c1 Hs1. done.
    + eapply lock_bind; [by apply pipe_send_conn_lock|]. intros s1 c1 Hs1. done.
    + destruct Hr as [Hf Hb]. eapply lock_bind; [by apply pipe_recv_conn_lock|].
      intros [s1 m] [c1 m'] [Hs1 E]. cbn [fst snd] in *. cbn. by rewrite <-E.
    + eapply lock_bind; [by apply stop_endpoint_lock|]. intros s1 c1 Hs1. done.
  - intros [s1 got] [c1 got'] [Hs1 Hg]. cbn [fst snd] in *.
    replace (label_side (label_abs l)) with (label_side l) by (by destruct l).
    eapply lock_bind; [by apply leave_lock|]. intros s2 c2 Hs2. done.
Qed.
End lockstep.

(** ** Histories *)

Section history.
  Context {Q : Type} `{MsgQueueLaws Q}.
  Variables (rcvbuf : side -> Z) (options : side -> Pipe.nn_ep_options) (sock_add : side -> Z) (cin : side).
  Hypothesis accepted : forall x, 0 <= sock_add x.
  Hypothesis buffers : forall x, rcvbuf x < 2 ^ 63.

(** A connection, what each socket sent to its pipe and what it got from it. *)
Record world : Type := World {
  wconn : conn Q; sent : side -> list nn_msg; rcvd : side -> list nn_msg
}.

(** A message travels as one string of bytes. *)
Definition flat (m : nn_msg) : nn_msg := Msg [] (sphdr m ++ body m).

Definition log_sent (l : label) (x : side) : list nn_msg :=
  match l with LSend y m => if decide (x = y) then [flat m] else [] | _ => [] end.

Definition log_rcvd (l : label) (got : option nn_msg) (x : side) : list nn_msg :=
  if decide (x = label_side l) then option_list got else [].

Definition wstep (w : world) (l : label) : outcome world :=
  '(s, got) ← conn_step rcvbuf options sock_add cin (wconn w) l;
  Ret (World s (fun x => sent w x ++ log_sent l x) (fun x => rcvd w x ++ log_rcvd l got x)).

Fixpoint wrun (w : world) (ls : list label) : outcome world :=
  match ls with
  | [] => Ret w
  | l :: ls => w ← wstep w l; wrun w ls
  end.

Definition winit : outcome world :=
  s ← conn_init rcvbuf options sock_add;
  Ret (World s (fun _ => []) (fun _ => [])).

(** Messages are smaller than half the address space, and fewer than 2^64. *)
Definition sizes (w : world) (l : label) : Prop :=
  match l with
  | LSend x m => MsgQueue.msg_size m < 2 ^ 63 /\ Z.of_nat (S (length (sent w x))) < 2 ^ 64
  | _ => True
  end.

Fixpoint wlegal (w : world) (ls : list label) : Prop :=
  match ls with
  | [] => True
  | l :: ls =>
      legal (wconn w) l = true /\ sizes w l /\
      match wstep w l with Ret w' => wlegal w' ls | _ => True end
  end.

(** *** Relating a connection to an enumerated state *)

(** Nothing that the checks look at changes when a state is put to rest. *)
Lemma rest_slot c x : slot (rest c) x = arm_session (false, false) <$> slot c x.
Proof. by destruct x. Qed.

Lemma rest_on c x f :
  (forall me, f (arm_session (false, false) me) = f me) -> on (rest c) x f = on c x f.
Proof. intros Hf. unfold on. rewrite rest_slot. by destruct (slot c x); cbn. Qed.

Lemma rest_has_event c x ty : has_event (rest c) x ty = has_event c x ty.
Proof. by destruct x. Qed.

Lemma rest_linked c x : linked (rest c) x = linked c x.
Proof. unfold linked. rewrite rest_on by done. unfold on. by rewrite rest_has_event. Qed.

Lemma rest_infl c x : infl (rest c) x = infl c x.
Proof. unfold infl. by rewrite rest_has_event, rest_on. Qed.

(** A state at rest says of the queues only whether they are empty. *)
Lemma rest_queue c x b :
  rest c = c -> slot c x = Some b ->
  msgqueue b = AQ (ne (msgqueue b)) false false false false false /\ msg b = untouched.
Proof.
  intros Hc Hb. rewrite <-Hc, rest_slot in Hb. destruct (slot c x) as [b'|]; [|done].
  cbn in Hb. by injection Hb as <-.
Qed.

Lemma arm_rel xs ms m0 s c oa ob m0' :
  conn_rel rcvbuf xs ms m0 s c -> rest c = c -> conn_rel rcvbuf xs ms m0' s (arm c oa ob).
Proof.
  intros [Ha Hb Hta Htb] Hc.
  assert (Hx : forall x a b o, slot c x = Some b -> ses_rel rcvbuf xs ms m0 x a b ->
                 ses_rel rcvbuf xs ms m0' x a (arm_session o b)).
  { intros x a b o Hs [? ? ? ? ? [Hr Hn] Hm]. destruct (rest_queue _ _ _ Hc Hs) as [Hq Hu].
    rewrite Hq in Hr, Hn. rewrite Hu in Hm. constructor; try done. }
  constructor; [| |done|done]; cbn [sa sb arm].
  - destruct (sa c) eqn:E; inversion Ha; subst; constructor. by apply (Hx SA).
  - destruct (sb c) eqn:E; inversion Hb; subst; constructor. by apply (Hx SB).
Qed.

(** The data after a step. *)
Definition next_xs (xs : side -> list nn_msg) (ms : side -> nn_msg) (c : conn aq) (x : side) : list nn_msg :=
  match slot c x with Some b => cur xs ms x (msgqueue b) | None => [] end.

Definition next_ms (ms : side -> nn_msg) (m0 : nn_msg) (c : conn aq) (x : side) : nn_msg :=
  match slot c x with Some b => mark ms m0 x (msg b) | None => empty_msg end.

Lemma rest_rel xs ms m0 s c :
  conn_rel rcvbuf xs ms m0 s c ->
  conn_rel rcvbuf (next_xs xs ms c) (next_ms ms m0 c) m0 s (rest c).
Proof.
  intros [Ha Hb Hta Htb].
  assert (Hx : forall x a b, slot c x = Some b -> ses_rel rcvbuf xs ms m0 x a b ->
                 ses_rel rcvbuf (next_xs xs ms c) (next_ms ms m0 c) m0 x a (arm_session (false, false) b)).
  { intros x a b Hs [? ? ? ? ? [Hr Hn] Hm].
    assert (E : cur (next_xs xs ms c) (next_ms ms m0 c) x (armed (msgqueue b) (false, false)) = cur xs ms x (msgqueue b)).
    { unfold cur at 1. cbn [armed renewed popped pushed]. rewrite app_nil_r. unfold next_xs. by rewrite Hs. }
    constructor; try done; [constructor; cbn [arm_session with_msg with_queue msgqueue armed ne]; by rewrite E|].
    cbn. unfold mark at 1. rewrite decide_True by done. unfold next_ms. by rewrite Hs. }
  constructor; [| |done|done]; cbn [sa sb arm rest].
  - destruct (sa c) eqn:E; inversion Ha; subst; constructor. by apply (Hx SA).
  - destruct (sb c) eqn:E; inversion Hb; subst; constructor. by apply (Hx SB).
Qed.

Lemma rel_on xs ms m0 s c x (f : forall Q, nn_sinproc Q -> bool) :
  conn_rel rcvbuf xs ms m0 s c ->
  (forall a b, ses_rel rcvbuf xs ms m0 x a b -> f _ a = f _ b) -> on s x (f _) = on c x (f _).
Proof. intros Hs Hf. unfold on. destruct (rel_slot _ _ _ _ _ _ x Hs); [auto|done]. Qed.

Lemma rel_legal xs ms m0 s c l : conn_rel rcvbuf xs ms m0 s c -> legal s l = legal c (label_abs l).
Proof.
  intros Hs. assert (He : forall x ty, has_event s x ty = has_event c x ty).
  { intros x ty. unfold has_event. by rewrite (rel_inbound _ _ _ _ _ _ x Hs). }
  destruct l as [x|x m|x|x]; cbn [legal label_abs]; rewrite ?He, ?(rel_inbound _ _ _ _ _ _ x Hs); try done.
  - f_equal.
    + apply (rel_on _ _ _ _ _ _ (fun _ me => bool_decide (Pipe.state (pipebase me) = Pipe.P_ACTIVE) &&
        bool_decide (Pipe.outstate (pipebase me) = Pipe.OUT_IDLE)) Hs).
      intros a b Hab. by destruct (rel_pipe _ _ _ _ _ _ _ Hab) as (-> & _ & ->).
    + apply (rel_on _ _ _ _ _ _ (fun _ me => negb (in_state NN_SINPROC_STATE_STOPPING_PEER me)) Hs).
      intros a b Hab. unfold in_state. by rewrite (rel_state _ _ _ _ _ _ _ Hab).
  - apply (rel_on _ _ _ _ _ _ (fun _ me => bool_decide (Pipe.state (pipebase me) = Pipe.P_ACTIVE) &&
        bool_decide (Pipe.instate (pipebase me) = Pipe.IN_IDLE)) Hs).
    intros a b Hab. by destruct (rel_pipe _ _ _ _ _ _ _ Hab) as (-> & -> & _).
  - f_equal. f_equal. f_equal.
    apply (rel_on _ _ _ _ _ _ (fun _ me => negb (in_state NN_SINPROC_STATE_CONNECTING me) &&
        negb (in_state NN_SINPROC_STATE_READY me)) Hs).
    intros a b Hab. unfold in_state. by rewrite (rel_state _ _ _ _ _ _ _ Hab).
Qed.

(** *** The checks, as facts about an enumerated state *)

Lemma check_facts cs c : check_all cin cs = true -> member cs c = true -> good cin cs c = true.
Proof.
  intros Hg Hc%bool_decide_eq_true. apply andb_true_iff in Hg as [_ Hg]. rewrite forallb_forall in Hg. apply Hg.
  apply list_elem_of_In, list_elem_of_fmap. exists (key c, c). split; [done|]. by apply elem_of_map_to_list.
Qed.

Lemma check_start cs : check_all cin cs = true -> member cs start = true.
Proof. intros Hg. by apply andb_true_iff in Hg as [? _]. Qed.

#[local] Opaque reach.

Lemma reach_facts c : member (reach cin) c = true -> good cin (reach cin) c = true.
Proof. apply check_facts, reach_good. Qed.

(** Membership in the enumeration, sealed. *)
Record reached (c : conn aq) : Prop := Reached { reached_in : member (reach cin) c = true }.

Lemma reach_start : reached start.
Proof. constructor. apply check_start, reach_good. Qed.

Lemma reach_state c :
  reached c -> rest c = c /\ forall x, good_side c x = true.
Proof.
  intros [Hc%reach_facts]. unfold good, good_state in Hc. rewrite !andb_true_iff, bool_decide_eq_true in Hc.
  destruct Hc as [[[[Hr Ha] Hb] _] _]. split; [done|]. by intros [].
Qed.

Definition oracle (xs : side -> list nn_msg) (ms : side -> nn_msg) (l : label) : bool * bool :=
  let x := label_side l in
  match l with
  | LDeliver _ | LRecv _ =>
      (nonempty (tl (xs x)),
       negb (MsgQueue.full (rcvbuf x) (if is_recv l x then tl (xs x) else xs x) (ms (other x))))
  | _ => (false, false)
  end.

Lemma oracle_answers xs ms l : oracle xs ms l ∈ answers (label_abs l).
Proof.
  destruct l as [x|x m|x|x]; cbn [label_abs answers oracle]; try by left.
  all: destruct (nonempty _), (negb _); set_solver.
Qed.

Lemma reach_trans c l xs ms :
  reached c -> legal c (label_abs l) = true ->
  good_trans cin (reach cin) c (label_abs l, oracle xs ms l) = true.
Proof.
  intros [Hc%reach_facts] Hl. unfold good in Hc. rewrite !andb_true_iff in Hc. destruct Hc as [_ Hc].
  rewrite forallb_forall in Hc. apply Hc. apply in_flat_map. exists (label_abs l). split.
  - destruct l as [[]|[]|[]|[]]; cbn; tauto.
  - rewrite Hl. apply list_elem_of_In, list_elem_of_fmap. eexists. split; [done|apply oracle_answers].
Qed.

(** *** Invariant *)

Definition pending (c : conn aq) (ms : side -> nn_msg) (x : side) : list nn_msg :=
  if infl c x then [ms (other x)] else [].

Record data_ok (w : world) (c : conn aq) (xs : side -> list nn_msg) (ms : side -> nn_msg) : Prop := {
  ok_sizes x : Forall (fun m => MsgQueue.msg_size m < 2 ^ 63) (sent w x);
  ok_count x : Z.of_nat (length (sent w x)) < 2 ^ 64;
  ok_prefix x : rcvd w x `prefix_of` sent w (other x);
  ok_total x : linked c x = true -> MsgQueue.total (xs x) < 2 ^ 63;
  ok_sent x : linked c x = true -> sent w (other x) = rcvd w x ++ xs x ++ pending c ms x
}.

Definition inv_at (w : world) (c : conn aq) : Prop :=
  exists xs ms m0, reached c /\ conn_rel rcvbuf xs ms m0 (wconn w) c /\ data_ok w c xs ms.

Definition inv (w : world) : Prop := exists c, inv_at w c.

Lemma pending_bounded w c xs ms x :
  data_ok w c xs ms -> linked c x = true -> infl c x = true -> bounded xs ms x.
Proof.
  intros [Hsz Hct _ Htot Hsent] Hl Hi. specialize (Hsent x Hl). unfold pending in Hsent. rewrite Hi in Hsent.
  specialize (Hsz (other x)). specialize (Hct (other x)). rewrite Hsent in Hsz, Hct.
  rewrite !length_app in Hct. cbn [length] in Hct. rewrite !Forall_app, Forall_singleton in Hsz.
  destruct Hsz as (_ & _ & Hm). specialize (Htot x Hl). unfold bounded. lia.
Qed.

Lemma arm_side_slot c x y o :
  slot (arm_side c x o) y = arm_session (if decide (y = x) then o else (false, false)) <$> slot c y.
Proof. by destruct x, y. Qed.

Lemma not_other x y : y <> x -> y = other x.
Proof. by destruct x, y. Qed.

Lemma oracle_fit c xs ms l :
  let x := label_side l in
  reached c ->
  match l with LDeliver _ | LRecv _ => True | _ => False end ->
  fit rcvbuf xs ms (arm_side c x (oracle xs ms l)) x (if is_recv l x then tl (xs x) else xs x).
Proof.
  intros x Hc Hl. destruct (reach_state c Hc) as [_ Hg]. specialize (Hg x).
  apply andb_true_iff in Hg as [_ Hp]. unfold on in Hp. constructor.
  - intros b Hb. rewrite arm_side_slot, decide_True in Hb by done. destruct (slot c x) as [b0|]; [|done].
    injection Hb as <-. destruct l; [reflexivity|contradiction|reflexivity|contradiction].
  - intros b y Hb Hy. rewrite arm_side_slot in Hb. destruct (slot c x) as [b0|]; [|done].
    injection Hb as <-. cbn in Hy. apply negb_true_iff, bool_decide_eq_false in Hp.
    apply not_other. congruence.
  - intros b Hb. rewrite arm_side_slot in Hb. destruct (slot c (other x)) as [b0|]; [|done].
    by injection Hb as <-.
Qed.

Lemma inv_ready w c xs ms l :
  reached c -> data_ok w c xs ms -> legal c (label_abs l) = true ->
  ready rcvbuf xs ms (arm_side c (label_side l) (oracle xs ms l)) l.
Proof.
  intros Hc Hd Hl. pose proof (oracle_fit c xs ms l Hc) as Hfit.
  destruct (reach_state c Hc) as [_ Hg]. specialize (Hg (label_side l)). unfold good_side in Hg.
  rewrite !andb_true_iff in Hg. destruct Hg as [[[Hrecv Hsent] _] _].
  destruct l as [x|x m|x|x]; cbn [ready label_side is_recv label_abs] in *; [|exact I| |exact I].
  - intros He. specialize (Hfit I). split; [exact Hfit|].
    assert (He' : has_event c x NN_SINPROC_SENT = true) by (by destruct x).
    rewrite He' in Hsent. apply (pending_bounded w c xs ms x Hd); [exact Hsent|]. unfold infl. by rewrite He'.
  - specialize (Hfit I). rewrite bool_decide_true in Hfit by done. split; [exact Hfit|].
    rewrite Hl in Hrecv. apply andb_true_iff in Hrecv as [Hlk _]. intros Hf.
    apply (pending_bounded w c xs ms x Hd); [exact Hlk|]. unfold infl. apply orb_true_iff. right.
    rewrite <-Hf. unfold on. rewrite arm_side_slot. by destruct (slot c x).
Qed.

(** *** What a step does to the messages *)

Lemma log_rcvd_tail xs l got x :
  got_msg xs l got -> log_rcvd l got x ++ (if is_recv l x then tl (xs x) else xs x) = xs x.
Proof.
  unfold log_rcvd. destruct l as [y|y m|y|y]; cbn [got_msg is_recv label_side]; intros Hg.
  1,2,4: subst; by destruct (decide _).
  destruct (decide (x = y)) as [->|Hne]; [|by rewrite bool_decide_false].
  rewrite bool_decide_true by done. destruct Hg as [-> [m Hm]]. destruct (xs y); [done|]. done.
Qed.

Lemma log_sent_flat m0 l x : send_msg m0 l -> log_sent l x = if is_send l x then [m0] else [].
Proof. destruct l as [y|y m|y|y]; cbn; try done. intros ->. by destruct (decide (x = y)), (bool_decide_reflect (x = y)). Qed.

Lemma next_xs_linked xs ms c' x b :
  slot c' x = Some b -> renewed (msgqueue b) = false ->
  next_xs xs ms c' x = (if popped (msgqueue b) then tl (xs x) else xs x) ++
    (if pushed (msgqueue b) then [ms (other x)] else []).
Proof. intros Hb Hw. unfold next_xs, cur. by rewrite Hb, Hw. Qed.

Lemma accepted_total mm l m :
  mm < 2 ^ 63 -> MsgQueue.msg_size m < 2 ^ 63 -> MsgQueue.full mm l m = false \/ l = [] ->
  MsgQueue.total (l ++ [m]) < 2 ^ 63.
Proof.
  intros Hmm Hm Hf. rewrite MsgQueue.total_app. change (MsgQueue.total [m]) with (MsgQueue.msg_size m + 0).
  destruct l as [|m' l]; [cbn; lia|]. destruct Hf as [Hf|]; [|done]. unfold MsgQueue.full in Hf. lia.
Qed.

Lemma total_tail l : MsgQueue.total (tl l) <= MsgQueue.total l.
Proof.
  destruct l as [|m l]; [done|]. change (MsgQueue.total (m :: l)) with (MsgQueue.msg_size m + MsgQueue.total l).
  cbn [tl]. pose proof (MsgQueue.msg_size_nonneg m). lia.
Qed.

Lemma label_abs_side l : label_side (label_abs l) = label_side l.
Proof. by destruct l. Qed.
Lemma label_abs_recv l x : is_recv (label_abs l) x = is_recv l x.
Proof. by destruct l. Qed.
Lemma label_abs_send l x : is_send (label_abs l) x = is_send l x.
Proof. by destruct l. Qed.

Lemma pending_size w c xs ms x :
  data_ok w c xs ms -> linked c x = true -> infl c x = true -> MsgQueue.msg_size (ms (other x)) < 2 ^ 63.
Proof.
  intros [Hsz _ _ _ Hsent] Hl Hi. specialize (Hsent x Hl). unfold pending in Hsent. rewrite Hi in Hsent.
  specialize (Hsz (other x)). rewrite Hsent, !Forall_app, Forall_singleton in Hsz. tauto.
Qed.

Lemma nonempty_false {A} (l : list A) : nonempty l = false -> l = [].
Proof. by destruct l. Qed.

(** A message was put into a queue that had room for it, or was empty. *)
Lemma oracle_room c xs ms l :
  let x := label_side l in
  let rest_xs := if is_recv l x then tl (xs x) else xs x in
  linked c x = true -> (forall b, slot c x = Some b -> ne (msgqueue b) = nonempty (xs x)) ->
  snd (oracle xs ms l) || negb (if is_recv l x then fst (oracle xs ms l) else on c x (fun me => ne (msgqueue me))) = true ->
  MsgQueue.full (rcvbuf x) rest_xs (ms (other x)) = false \/ rest_xs = [].
Proof.
  intros x rest_xs Hl Hne [Hr|Hr]%orb_true_iff.
  - left. unfold rest_xs, x. destruct l as [y|y m|y|y]; cbn [oracle label_side snd] in *; try discriminate Hr;
      by apply negb_true_iff in Hr.
  - right. apply negb_true_iff in Hr. apply nonempty_false. unfold rest_xs. destruct (is_recv l x) eqn:E.
    + unfold x in *. destruct l as [y|y m|y|y]; try discriminate E. exact Hr.
    + unfold linked, on in Hl, Hr. destruct (slot c x) as [b|]; [|discriminate Hl]. by rewrite <-(Hne b).
Qed.

Lemma conserves_ok w c xs ms m0 l c' got x :
  data_ok w c xs ms -> send_msg m0 l -> got_msg xs l got ->
  (forall b, slot c x = Some b -> ne (msgqueue b) = nonempty (xs x)) ->
  conserves c (label_abs l) (oracle xs ms l) c' x = true -> linked c' x = true ->
  sent w (other x) ++ log_sent l (other x) =
    (rcvd w x ++ log_rcvd l got x) ++ next_xs xs ms c' x ++ pending c' (next_ms ms m0 c') x /\
  MsgQueue.total (next_xs xs ms c' x) < 2 ^ 63.
Proof.
  intros Hd Hm Hg Hne Hcons Hl'. unfold conserves in Hcons. rewrite Hl' in Hcons. cbn [negb orb] in Hcons.
  rewrite label_abs_recv, !label_abs_send, label_abs_side in Hcons. apply andb_true_iff in Hcons as [Hl Hcons].
  unfold on at 1 in Hcons. destruct (slot c' x) as [b|] eqn:Hb; [|done].
  apply andb_true_iff in Hcons as [Hcons Hcases]. apply andb_true_iff in Hcons as [Hw Hpop].
  apply negb_true_iff in Hw. apply eqb_prop in Hpop.
  rewrite (next_xs_linked _ _ _ _ _ Hb Hw), Hpop, (log_sent_flat m0) by done.
  pose proof (log_rcvd_tail xs l got x Hg) as Htl. set (rest_xs := if is_recv l x then tl (xs x) else xs x) in *.
  rewrite (ok_sent _ _ _ _ Hd x Hl). rewrite <-Htl at 1. rewrite <-!app_assoc.
  assert (Hrest : MsgQueue.total rest_xs < 2 ^ 63).
  { pose proof (ok_total _ _ _ _ Hd x Hl). pose proof (total_tail (xs x)). unfold rest_xs. destruct (is_recv l x); lia. }
  destruct (pushed (msgqueue b)).
  - rewrite !andb_true_iff, !negb_true_iff in Hcases. destruct Hcases as [[[[Hi Hi'] Hs] Hx] Hroom].
    apply bool_decide_eq_true in Hx. rewrite Hs. unfold pending. rewrite Hi, Hi', !app_nil_r.
    split; [done|]. apply (accepted_total (rcvbuf x)); [done|by apply (pending_size w c xs)|].
    rewrite Hpop, Hx in Hroom. unfold rest_xs. rewrite Hx in *. by apply (oracle_room c).
  - rewrite !andb_true_iff, negb_true_iff in Hcases. destruct Hcases as [[Hi Hone] Hmsg].
    apply eqb_prop in Hi. rewrite !app_nil_r. split; [|done]. do 2 f_equal. unfold pending. rewrite Hi in *.
    unfold next_ms. unfold on in Hmsg.
    destruct (infl c x), (is_send l (other x)); try discriminate Hone; cbn [orb negb] in Hmsg |- *; [| |done];
      (destruct (slot c' (other x)) as [b'|]; [|discriminate Hmsg]); apply bool_decide_eq_true in Hmsg;
      by rewrite Hmsg.
Qed.

(** *** Preservation *)

Lemma rel_ne_xs xs ms m0 s c x b :
  conn_rel rcvbuf xs ms m0 s c -> rest c = c -> slot c x = Some b -> ne (msgqueue b) = nonempty (xs x).
Proof.
  intros Hs Hc Hb. destruct (rest_queue _ _ _ Hc Hb) as [Hq _].
  pose proof (rel_slot _ _ _ _ _ _ x Hs) as Hx. rewrite Hb in Hx. inversion Hx as [a ? Hab|]; subst.
  destruct (rel_queue _ _ _ _ _ _ _ Hab) as [_ Hn]. rewrite Hn, Hq. unfold cur. cbn. by rewrite app_nil_r.
Qed.

Lemma arm_side_rel xs ms m0 m0' s c x o :
  conn_rel rcvbuf xs ms m0 s c -> rest c = c -> conn_rel rcvbuf xs ms m0' s (arm_side c x o).
Proof. intros. destruct x; eapply arm_rel; eauto. Qed.

Definition label_msg (l : label) : nn_msg := match l with LSend _ m => flat m | _ => empty_msg end.

Lemma label_msg_send l : send_msg (label_msg l) l.
Proof. by destruct l. Qed.

Lemma log_sent_sizes w l x :
  sizes w l -> Forall (fun m => MsgQueue.msg_size m < 2 ^ 63) (sent w x) -> Z.of_nat (length (sent w x)) < 2 ^ 64 ->
  Forall (fun m => MsgQueue.msg_size m < 2 ^ 63) (sent w x ++ log_sent l x) /\
  Z.of_nat (length (sent w x ++ log_sent l x)) < 2 ^ 64.
Proof.
  intros Hs Hf Hc. destruct l as [y|y m|y|y]; cbn [log_sent]; rewrite ?app_nil_r; try (split; assumption).
  destruct (decide (x = y)) as [->|]; [|rewrite app_nil_r; split; assumption]. destruct Hs as [Hm Hl]. split.
  - apply Forall_app. split; [done|]. apply Forall_singleton. unfold MsgQueue.msg_size, flat in *. cbn.
    rewrite size_app. change (size []) with 0. lia.
  - rewrite length_app. cbn [length]. lia.
Qed.

(** Where something is received, the receiver takes part and has a message. *)
Lemma rcvd_prefix w c xs ms m0 l got x :
  reached c -> legal c (label_abs l) = true -> data_ok w c xs ms ->
  send_msg m0 l -> got_msg xs l got ->
  rcvd w x ++ log_rcvd l got x `prefix_of` sent w (other x) ++ log_sent l (other x).
Proof.
  intros Hc Hleg Hd Hm Hg. destruct (is_recv l x) eqn:Er.
  - destruct l as [y|y m|y|y]; try discriminate Er. cbn in Er. apply bool_decide_eq_true in Er as <-.
    destruct (reach_state c Hc) as [_ Hgs]. specialize (Hgs x). unfold good_side in Hgs. cbn [label_abs] in Hleg.
    rewrite Hleg, !andb_true_iff in Hgs. destruct Hgs as [[[[Hl _]%andb_true_iff _] _] _].
    rewrite (ok_sent _ _ _ _ Hd x Hl). cbn [log_sent]. rewrite app_nil_r.
    pose proof (log_rcvd_tail xs (LRecv x) got x Hg) as Ht. rewrite <-Ht. rewrite <-!app_assoc, app_assoc.
    by apply prefix_app_r.
  - assert (E : log_rcvd l got x = []).
    { unfold log_rcvd. destruct (decide _) as [->|]; [|done].
      destruct l as [y|y m|y|y]; cbn in Hg, Er |- *; try by subst. by rewrite bool_decide_true in Er. }
    rewrite E, app_nil_r. apply prefix_app_r, (ok_prefix _ _ _ _ Hd).
Qed.

Lemma step_inv_at w c l :
  inv_at w c -> legal (wconn w) l = true -> sizes w l ->
  exists w' o c' got, wstep w l = Ret w' /\ legal c (label_abs l) = true /\ o ∈ answers (label_abs l) /\
    astep cin c (label_abs l) o = Ret (c', got) /\ inv_at w' (rest c').
Proof.
  intros (xs & ms & m1 & Hc & Hs & Hd) Hleg Hsz. destruct (reach_state c Hc) as [Hrest _].
  rewrite (rel_legal _ _ _ _ _ _ Hs) in Hleg. set (m0 := label_msg l).
  pose proof (arm_side_rel _ _ _ m0 _ _ (label_side l) (oracle xs ms l) Hs Hrest) as Harm.
  pose proof (step_lock rcvbuf options sock_add cin accepted xs ms m0 _ _ l Harm (label_msg_send l)
    (inv_ready w c xs ms l Hc Hd Hleg)) as Hlock.
  pose proof (reach_trans c l xs ms Hc Hleg) as Hgood. unfold good_trans in Hgood. cbn [fst snd] in Hgood.
  rewrite <-(label_abs_side l) in Hlock. fold (astep cin c (label_abs l) (oracle xs ms l)) in Hlock.
  destruct (astep cin c (label_abs l) (oracle xs ms l)) as [[c' got']| | |] eqn:Estep; [|discriminate Hgood..].
  unfold wstep. destruct (conn_step rcvbuf options sock_add cin (wconn w) l) as [[s' got]| | |]; [|contradiction Hlock..].
  destruct Hlock as [Hs' Hg]. cbn [fst snd] in Hs', Hg. cbn [mbind outcome_bind].
  eexists _, (oracle xs ms l), c', got'. do 2 (split; [done|]). split; [apply oracle_answers|]. split; [exact Estep|].
  apply andb_true_iff in Hgood as [Hgood HcB]. apply andb_true_iff in Hgood as [Hmem HcA].
  exists (next_xs xs ms c'), (next_ms ms m0 c'), m0. split; [exact (Reached _ Hmem)|].
  clear Hmem.
  split; [by apply rest_rel|].
  assert (Hcons : forall x, linked c' x = true -> _) by
    (intros x Hl; apply (conserves_ok w c xs ms m0 l c' got x Hd (label_msg_send l) Hg);
     [intros b; by apply (rel_ne_xs _ _ _ _ _ _ _ Hs Hrest)|destruct x; assumption|exact Hl]).
  pose proof (log_sent_sizes w l) as Hlog.
  constructor; cbn [sent rcvd]; intros x.
  - apply Hlog, (ok_count _ _ _ _ Hd); [done|apply (ok_sizes _ _ _ _ Hd)].
  - apply Hlog, (ok_count _ _ _ _ Hd); [done|apply (ok_sizes _ _ _ _ Hd)].
  - exact (rcvd_prefix w c xs ms m0 l got x Hc Hleg Hd (label_msg_send l) Hg).
  - rewrite rest_linked. intros Hl. by apply Hcons.
  - rewrite rest_linked. unfold pending. rewrite rest_infl. intros Hl. by apply Hcons.
Qed.

Lemma step_inv w l :
  inv w -> legal (wconn w) l = true -> sizes w l -> exists w', wstep w l = Ret w' /\ inv w'.
Proof.
  intros [c Hc] Hl Hs. destruct (step_inv_at w c l Hc Hl Hs) as (w' & o & c' & got & Hw & _ & _ & _ & Hi).
  exists w'. split; [done|by exists (rest c')].
Qed.

Lemma run_inv w ls : inv w -> wlegal w ls -> exists w', wrun w ls = Ret w' /\ inv w'.
Proof.
  revert w. induction ls as [|l ls IH]; intros w Hi; cbn [wlegal wrun]; [by exists w|].
  intros (Hl & Hs & Hrest). destruct (step_inv w l Hi Hl Hs) as (w1 & E & Hi1). rewrite E in *. by apply IH.
Qed.

Lemma conn_init_lock m0 :
  lock (conn_rel rcvbuf (fun _ => []) (fun _ => empty_msg) m0)
    (conn_init rcvbuf options sock_add) (conn_init (fun _ => 0) no_opts (fun _ => 0)).
Proof.
  unfold conn_init. eapply lock_bind; [apply init_lock|]. intros a a' Ha.
  eapply lock_bind; [apply init_lock|]. intros b b' Hb. apply connect_lock; [done|].
  constructor; try done; by constructor.
Qed.

Lemma init_inv : exists w, winit = Ret w /\ inv w.
Proof.
  pose proof (conn_init_lock empty_msg) as Hl. pose proof reach_start as Hr. unfold start in Hr. unfold winit.
  destruct (conn_init (fun _ => 0) no_opts (fun _ => 0)) as [c| | |] eqn:E; [|vm_compute in E; discriminate E..].
  destruct (conn_init rcvbuf options sock_add) as [s| | |]; [|contradiction Hl..]. cbn [lock] in Hl.
  cbn [mbind outcome_bind]. eexists. split; [reflexivity|]. exists (rest c).
  eexists _, _, _. split; [exact Hr|]. split; [apply (rest_rel _ _ _ _ _ Hl)|].
  assert (Hx : forall x, next_xs (fun _ => []) (fun _ => empty_msg) c x = [] /\ infl (rest c) x = false).
  { vm_compute in E. injection E as <-. by intros []. }
  constructor; cbn [sent rcvd]; intros x; try done.
  - by destruct (Hx x) as [-> _].
  - intros _. unfold pending. by destruct (Hx x) as [-> ->].
Qed.

(** The message underway to [x]. *)
Definition in_flight (s : conn Q) (x : side) : list nn_msg :=
  if infl s x then match slot s (other x) with Some them => [msg them] | None => [] end else [].

(** What the invariant says of the connection itself. *)
Definition delivered (w : world) : Prop :=
  forall x, rcvd w x `prefix_of` sent w (other x) /\
    forall me, slot (wconn w) x = Some me -> state me = NN_SINPROC_STATE_ACTIVE ->
      exists xs, mq_rep (rcvbuf x) (msgqueue me) xs /\
        sent w (other x) = rcvd w x ++ xs ++ in_flight (wconn w) x.

Lemma rel_infl xs ms m0 s c x : conn_rel rcvbuf xs ms m0 s c -> infl s x = infl c x.
Proof.
  intros Hs. unfold infl, has_event. rewrite (rel_inbound _ _ _ _ _ _ x Hs). f_equal.
  apply (rel_on _ _ _ _ _ _ (fun _ me => has_flag me NN_SINPROC_FLAG_RECEIVING) Hs).
  intros a b Hab. apply (has_flag_eq _ _ _ _ _ _ _ _ Hab).
Qed.

Lemma inv_delivered w : inv w -> delivered w.
Proof.
  intros (c & xs & ms & m0 & Hc & Hs & Hd) x. split; [apply (ok_prefix _ _ _ _ Hd)|].
  intros me Hme Hst. destruct (reach_state c Hc) as [Hrest Hgs]. specialize (Hgs x).
  pose proof (rel_slot _ _ _ _ _ _ x Hs) as Hx. rewrite Hme in Hx. inversion Hx as [? b Hab E1 Hb|]; subst.
  assert (Hl : linked c x = true).
  { unfold linked, on, in_state. rewrite <-Hb, <-(rel_state _ _ _ _ _ _ _ Hab), Hst. done. }
  destruct (rest_queue _ _ _ Hrest (eq_sym Hb)) as [Hq _].
  exists (xs x). split.
  - destruct (rel_queue _ _ _ _ _ _ _ Hab) as [Hr _]. rewrite Hq in Hr. unfold cur in Hr. cbn in Hr.
    by rewrite app_nil_r in Hr.
  - rewrite (ok_sent _ _ _ _ Hd x Hl). do 2 f_equal. unfold pending, in_flight. rewrite (rel_infl _ _ _ _ _ x Hs).
    destruct (infl c x) eqn:Ei; [|done]. unfold good_side in Hgs. rewrite Ei, Hl, !andb_true_iff in Hgs.
    destruct Hgs as [[_ Ho] _]. unfold on in Ho. destruct (slot c (other x)) as [b'|] eqn:Hb'; [|discriminate Ho].
    pose proof (rel_slot _ _ _ _ _ _ (other x) Hs) as Hy. rewrite Hb' in Hy. inversion Hy as [them ? Hth E2|]; subst.
    rewrite (rel_msg _ _ _ _ _ _ _ Hth). by destruct (rest_queue _ _ _ Hrest Hb') as [_ ->].
Qed.

(** *** The end of a connection *)

Lemma rel_asked xs ms m0 s c x : conn_rel rcvbuf xs ms m0 s c -> asked s x = asked c x.
Proof.
  intros Hs. unfold asked, has_event. rewrite (rel_inbound _ _ _ _ _ _ x Hs). f_equal.
  destruct (rel_slot _ _ _ _ _ _ x Hs) as [a b Hab|]; [|done]. by rewrite (rel_fsm _ _ _ _ _ _ _ Hab).
Qed.

Lemma rel_finished xs ms m0 s c x : conn_rel rcvbuf xs ms m0 s c -> finished s x = finished c x.
Proof.
  intros Hs. unfold finished, nn_sinproc_isidle.
  destruct (rel_slot _ _ _ _ _ _ x Hs) as [a b Hab|]; [|done]. by rewrite (rel_fsm _ _ _ _ _ _ _ Hab).
Qed.

Definition is_deliver (l : label) : Prop := match l with LDeliver _ => True | _ => False end.

Definition ended (w : world) : Prop :=
  inbound (wconn w) SA = [] -> inbound (wconn w) SB = [] ->
  finished (wconn w) SA = true /\ finished (wconn w) SB = true.

Lemma drains_ended fuel c w :
  inv_at w c -> drains cin fuel c = true -> ended w.
Proof.
  intros (xs & ms & m0 & _ & Hs & _) Hdr Ha Hb.
  rewrite (rel_inbound _ _ _ _ _ _ SA Hs) in Ha. rewrite (rel_inbound _ _ _ _ _ _ SB Hs) in Hb.
  rewrite (rel_finished _ _ _ _ _ SA Hs), (rel_finished _ _ _ _ _ SB Hs). destruct fuel; cbn [drains] in Hdr; rewrite Ha, Hb in Hdr;
    by apply andb_true_iff.
Qed.

Lemma drains_step fuel c x o c' got :
  drains cin fuel c = true -> legal c (LDeliver x) = true -> o ∈ answers (LDeliver x) ->
  astep cin c (LDeliver x) o = Ret (c', got) ->
  exists fuel', fuel = S fuel' /\ drains cin fuel' (rest c') = true.
Proof.
  intros Hdr Hl Ho Hstep.
  assert (Hne : inbound c SA ++ inbound c SB <> []).
  { cbn [legal] in Hl. apply negb_true_iff, bool_decide_eq_false in Hl. intros [E1 E2]%app_eq_nil.
    by destruct x. }
  destruct fuel as [|fuel]; cbn [drains] in Hdr; destruct (inbound c SA ++ inbound c SB) as [|e es];
    [done|discriminate Hdr|done|]. exists fuel. split; [done|].
  assert (Hx : In (LDeliver x) [LDeliver SA; LDeliver SB]) by (destruct x; cbn; tauto).
  rewrite forallb_forall in Hdr. specialize (Hdr _ Hx). rewrite Hl in Hdr.
  rewrite forallb_forall in Hdr. apply list_elem_of_In in Ho. specialize (Hdr _ Ho). by rewrite Hstep in Hdr.
Qed.

Lemma drains_run fuel c w ds :
  inv_at w c -> drains cin fuel c = true -> Forall is_deliver ds -> wlegal w ds ->
  (length ds <= fuel)%nat /\ exists w', wrun w ds = Ret w' /\ ended w'.
Proof.
  revert fuel c w. induction ds as [|l ds IH]; intros fuel c w Hi Hdr Hds Hleg; cbn [wrun length].
  - split; [lia|]. exists w. split; [done|]. by apply (drains_ended fuel c).
  - apply Forall_cons in Hds as [Hl Hds]. destruct l as [x|x m|x|x]; try contradiction Hl.
    destruct Hleg as (Hleg & Hs & Hrest).
    destruct (step_inv_at w c _ Hi Hleg Hs) as (w' & o & c' & got & Hw & Hlc & Ho & Hstep & Hi'). rewrite Hw in *.
    destruct (drains_step _ _ _ _ _ _ Hdr Hlc Ho Hstep) as (fuel' & -> & Hdr').
    destruct (IH fuel' (rest c') w' Hi' Hdr' Hds Hrest) as (Hlen & w2 & E2 & Hend). split; [lia|]. by exists w2.
Qed.

Lemma asked_drains w c :
  inv_at w c -> asked (wconn w) SA = true -> asked (wconn w) SB = true -> drains cin 4 c = true.
Proof.
  intros (xs & ms & m0 & [Hc%reach_facts] & Hs & _) Ha Hb.
  rewrite (rel_asked _ _ _ _ _ SA Hs) in Ha. rewrite (rel_asked _ _ _ _ _ SB Hs) in Hb. unfold good in Hc. rewrite Ha, Hb, !andb_true_iff in Hc. tauto.
Qed.
End history.

(** ** Theorems *)

(** Deciding whether a history is legal. *)
Definition sizesb {Q} (w : @world Q) (l : label) : bool :=
  match l with
  | LSend x m => (MsgQueue.msg_size m <? 2 ^ 63) && (Z.of_nat (S (length (sent w x))) <? 2 ^ 64)
  | _ => true
  end.

Fixpoint wlegalb {Q} `{MsgQueueOps Q} rcvbuf options sock_add cin (w : @world Q) (ls : list label) : bool :=
  match ls with
  | [] => true
  | l :: ls =>
      legal (wconn w) l && sizesb w l &&
      match wstep rcvbuf options sock_add cin w l with
      | Ret w' => wlegalb rcvbuf options sock_add cin w' ls
      | _ => true
      end
  end.

Lemma wlegalb_ok {Q} `{MsgQueueOps Q} rcvbuf options sock_add cin (w : @world Q) ls :
  wlegalb rcvbuf options sock_add cin w ls = true -> wlegal rcvbuf options sock_add cin w ls.
Proof.
  revert w. induction ls as [|l ls IH]; intros w; cbn [wlegalb wlegal]; [done|].
  rewrite !andb_true_iff. intros [[Hl Hs] Hr]. split_and!; [done| |].
  - destruct l; try done. cbn in Hs |- *. by rewrite andb_true_iff, !Z.ltb_lt in Hs.
  - destruct (wstep _ _ _ _ w l); auto.
Qed.

(** Three deliveries connect the sessions. *)
Definition handshake : list label := [LDeliver SB; LDeliver SA; LDeliver SB].


(** A buffer of four bytes: the second message waits in the sender until the
    first one is received. *)
Definition exchange : list label :=
  handshake ++
  [LSend SA (Msg [1] [2; 3]); LDeliver SB; LDeliver SA; LSend SA (Msg [] [4; 5]); LDeliver SB;
   LRecv SB; LDeliver SA; LSend SB (Msg [] [6]); LRecv SB; LDeliver SA; LStop SA; LDeliver SB; LDeliver SB;
   LDeliver SA; LStop SB].



(** Both endpoints are stopped while a RECEIVED is on its way. *)
Definition crossing : list label :=
  handshake ++ [LSend SA (Msg [] [1]); LDeliver SB; LStop SA; LStop SB].


(** The races in which closing an inproc connection aborts the process: a
    message arrives at a session that is waiting for its peer to disconnect,
    whether it was sent before or after the stop; an endpoint is stopped before
    its peer has answered, when the session has no peer to notify yet; an
    accepting endpoint is stopped before the acceptance is acknowledged; and the
    socket refuses the pipe, as a PAIR socket does that has a peer already. *)
Theorem teardown_races rcvbuf options cin (m : nn_msg) :
  let run sock_add ls :=
    w ← winit (Q := real_queue) rcvbuf options sock_add; wrun rcvbuf options sock_add cin w ls in
  let accepts (_ : side) := 0 in
  run accepts (handshake ++ [LSend SA m; LStop SB; LDeliver SB]) = Abort /\
  run accepts (handshake ++ [LStop SB; LSend SA m; LDeliver SB]) = Abort /\
  run accepts [LStop SA] = Undef /\
  run accepts [LDeliver SB; LStop SB; LDeliver SA; LDeliver SB] = Abort /\
  run (fun x => if decide (x = SB) then - EISCONN else 0) handshake = Abort.
Proof. destruct cin; split_and!; vm_compute; reflexivity. Qed.
