(* ===== verification/Update.v ===== *)
(** * Update: changing one field of a record

    [self ⦃ f := v ⦄] is the record [self] with field [f] set to [v], for records
    that are instances of the class [Eta].  The update of a field is derived from
    the record's constructor by [derive_update]. *)

From stdpp Require Import base.

(** The record rebuilt from its fields: [fun r => Mk (f1 r) ... (fn r)]. *)
Class Eta (R : Type) : Type := rebuild : R -> R.

Class Update {R T : Type} (field : R -> T) : Type := update : T -> R -> R.

Ltac derive_update :=
  match goal with
  | |- @Update ?R _ ?field =>
      let rb := constr:(_ : Eta R) in
      let v := fresh "v" in let r := fresh "r" in
      intros v r;
      let whole := eval red in (rb r) in
      match eval pattern (field r) in whole with
      | ?context _ => let changed := eval cbv beta in (context v) in exact changed
      end
  end.

#[export] Hint Extern 1 (Update _) => derive_update : typeclass_instances.

Notation "r ⦃ f := v ⦄" := (update (field := f) v r) (at level 1, left associativity, format "r ⦃  f  :=  v  ⦄").

(** An example: a pair of counters. *)
Record counters : Type := Counters { up : nat; down : nat }.
#[local] Instance counters_eta : Eta counters := fun r => Counters (up r) (down r).

Example update_up (c : counters) : c ⦃ up := 3 ⦄ = Counters 3 (down c).
Proof. reflexivity. Qed.

Example update_both : (Counters 0 0) ⦃ up := 1 ⦄ ⦃ down := 2 ⦄ = Counters 1 2.
Proof. reflexivity. Qed.
