(* ===== verification/Utf8.v ===== *)
(** * Utf8: the validator of code points (src/transports/ws/sws.c)

    [nn_utf8_code_point] looks at the front of a buffer and tells the length of
    the code point there, or that there is none, or that the buffer is too short
    to tell.  [utf8_code_point_correct] compares it with the encoding RFC 3629
    defines. *)

From stdpp Require Import base list.
From Stdlib Require Import ZArith Lia.
From S2P Require Import Prelude Message.

Open Scope Z_scope.

Definition NN_SWS_UTF8_INVALID : Z := -2.
Definition NN_SWS_UTF8_FRAGMENT : Z := -1.
Definition NN_SWS_UTF8_MAX_CODEPOINT_LEN : Z := 4.

(** [(b & 0xC0) != 0x80] *)
Definition no_continuation (b : Z) : bool := negb (Z.land b 0xC0 =? 0x80).

Definition nn_utf8_code_point (buffer : list Z) : outcome Z :=
  let len := size buffer in
  if len =? 0 then Ret NN_SWS_UTF8_FRAGMENT else
  b0 ← nth_c buffer 0;
  if b0 <=? 0x7F then Ret 1
  else if b0 <? 0xC2 then Ret NN_SWS_UTF8_INVALID
  else if b0 <=? 0xDF then
    if len <? 2 then Ret NN_SWS_UTF8_FRAGMENT else
    b1 ← nth_c buffer 1;
    if no_continuation b1 then Ret NN_SWS_UTF8_INVALID else Ret 2
  else if b0 <=? 0xEF then
    if len <? 2 then Ret NN_SWS_UTF8_FRAGMENT else
    b1 ← nth_c buffer 1;
    if (b0 =? 0xE0) && ((b1 <? 0xA0) || (b1 =? 0x80)) then Ret NN_SWS_UTF8_INVALID
    else if (b0 =? 0xED) && (b1 >=? 0xA0) then Ret NN_SWS_UTF8_INVALID
    else if len <? 3 then Ret NN_SWS_UTF8_FRAGMENT else
    b2 ← nth_c buffer 2;
    if no_continuation b1 || no_continuation b2 then Ret NN_SWS_UTF8_INVALID else Ret 3
  else if b0 <=? 0xF4 then
    if len <? 2 then Ret NN_SWS_UTF8_FRAGMENT else
    b1 ← nth_c buffer 1;
    if (b0 =? 0xF0) && (b1 <? 0x90) then Ret NN_SWS_UTF8_INVALID
    else if (b0 =? 0xF4) && (b1 >=? 0x90) then Ret NN_SWS_UTF8_INVALID
    else if len <? 4 then Ret NN_SWS_UTF8_FRAGMENT else
    b2 ← nth_c buffer 2;
    b3 ← nth_c buffer 3;
    if no_continuation b1 || no_continuation b2 || no_continuation b3 then Ret NN_SWS_UTF8_INVALID else Ret 4
  else if b0 >=? 0xF5 then Ret NN_SWS_UTF8_INVALID
  else Abort.

(** ** RFC 3629 *)

(** Code points, without the surrogates. *)
Definition scalar (cp : Z) : Prop := 0 <= cp < 0x110000 /\ ~ (0xD800 <= cp < 0xE000).

Definition utf8 (cp : Z) : list Z :=
  if cp <? 0x80 then [cp]
  else if cp <? 0x800 then [0xC0 + cp / 64; 0x80 + cp mod 64]
  else if cp <? 0x10000 then [0xE0 + cp / 4096; 0x80 + cp / 64 mod 64; 0x80 + cp mod 64]
  else [0xF0 + cp / 262144; 0x80 + cp / 4096 mod 64; 0x80 + cp / 64 mod 64; 0x80 + cp mod 64].

Lemma continuation b : is_byte b -> no_continuation b = negb ((128 <=? b) && (b <? 192)).
Proof.
  intros Hb. unfold no_continuation. f_equal.
  pose proof (proj1 (forallb_forall (fun n => Bool.eqb (Z.land (Z.of_nat n) 0xC0 =? 0x80)
    ((128 <=? Z.of_nat n) && (Z.of_nat n <? 192))) (List.seq 0 256))) as H.
  specialize (H ltac:(vm_compute; reflexivity) (Z.to_nat b)). cbv beta in H.
  rewrite Z2Nat.id in H by (unfold is_byte in Hb; lia). apply Bool.eqb_prop, H, in_seq. unfold is_byte in Hb. lia.
Qed.

(** The same by cases on the buffer. *)
Definition code_point (buf : list Z) : Z :=
  match buf with
  | [] => NN_SWS_UTF8_FRAGMENT
  | b0 :: buf =>
      if b0 <=? 0x7F then 1
      else if b0 <? 0xC2 then NN_SWS_UTF8_INVALID
      else if b0 <=? 0xDF then
        match buf with
        | [] => NN_SWS_UTF8_FRAGMENT
        | b1 :: _ => if no_continuation b1 then NN_SWS_UTF8_INVALID else 2
        end
      else if b0 <=? 0xEF then
        match buf with
        | [] => NN_SWS_UTF8_FRAGMENT
        | b1 :: buf =>
            if (b0 =? 0xE0) && ((b1 <? 0xA0) || (b1 =? 0x80)) then NN_SWS_UTF8_INVALID
            else if (b0 =? 0xED) && (b1 >=? 0xA0) then NN_SWS_UTF8_INVALID
            else match buf with
                 | [] => NN_SWS_UTF8_FRAGMENT
                 | b2 :: _ => if no_continuation b1 || no_continuation b2 then NN_SWS_UTF8_INVALID else 3
                 end
        end
      else if b0 <=? 0xF4 then
        match buf with
        | [] => NN_SWS_UTF8_FRAGMENT
        | b1 :: buf =>
            if (b0 =? 0xF0) && (b1 <? 0x90) then NN_SWS_UTF8_INVALID
            else if (b0 =? 0xF4) && (b1 >=? 0x90) then NN_SWS_UTF8_INVALID
            else match buf with
                 | b2 :: b3 :: _ =>
                     if no_continuation b1 || no_continuation b2 || no_continuation b3 then NN_SWS_UTF8_INVALID else 4
                 | _ => NN_SWS_UTF8_FRAGMENT
                 end
        end
      else NN_SWS_UTF8_INVALID
  end.

Lemma code_point_eq buf : nn_utf8_code_point buf = Ret (code_point buf).
Proof.
  assert (Hlast : forall b0, (b0 <=? 0xF4) = false -> (b0 >=? 0xF5) = true)
    by (intros b0 Hb; rewrite Z.geb_leb; apply Z.leb_gt in Hb; apply Z.leb_le; lia).
  assert (Hif : forall (b : bool) (x y : Z), (if b then Ret x else Ret y) = Ret (if b then x else y)) by (by intros []).
  destruct buf as [|b0 [|b1 [|b2 [|b3 buf]]]]; unfold nn_utf8_code_point, code_point; [done|..].
  4: assert (Hs : forall k, k <= 4 -> (size (b0 :: b1 :: b2 :: b3 :: buf) <? k) = false)
       by (intros k Hk; apply Z.ltb_ge; unfold size; cbn [length]; lia);
     rewrite !Hs by lia;
     change (size (b0 :: b1 :: b2 :: b3 :: buf) =? 0) with false.
  all: repeat match goal with |- context [size ?l =? 0] => change (size l =? 0) with false end.
  all: repeat match goal with |- context [size ?l <? ?k] =>
         let v := eval cbv in (size l <? k) in change (size l <? k) with v end.
  all: repeat match goal with
       | |- context [nth_c (?a :: ?t) 0] => change (nth_c (a :: t) 0) with (Ret a)
       | |- context [nth_c (?z :: ?a :: ?t) 1] => change (nth_c (z :: a :: t) 1) with (Ret a)
       | |- context [nth_c (?y :: ?z :: ?a :: ?t) 2] => change (nth_c (y :: z :: a :: t) 2) with (Ret a)
       | |- context [nth_c (?x :: ?y :: ?z :: ?a :: ?t) 3] => change (nth_c (x :: y :: z :: a :: t) 3) with (Ret a)
       end; rewrite ?bind_of_Ret; cbv iota.
  all: rewrite <-!Hif.
  all: repeat match goal with |- context [if ?b then _ else _] => destruct b eqn:?; try done end.
  all: match goal with H1 : (?b0 <=? 244) = false, H2 : (?b0 >=? 245) = false |- _ => by rewrite (Hlast _ H1) in H2 end.
Qed.

Ltac split_tests :=
  repeat match goal with
  | H : context [if ?a <=? ?b then _ else _] |- _ => destruct (Z.leb_spec a b)
  | H : context [if ?a <? ?b then _ else _] |- _ => destruct (Z.ltb_spec a b)
  | |- context [if ?a <=? ?b then _ else _] => destruct (Z.leb_spec a b)
  | |- context [if ?a <? ?b then _ else _] => destruct (Z.ltb_spec a b)
  end.

Lemma tests_E0 b0 b1 : ((b0 =? 0xE0) && ((b1 <? 0xA0) || (b1 =? 0x80)))%bool = true <-> b0 = 0xE0 /\ b1 < 0xA0.
Proof. rewrite andb_true_iff, orb_true_iff, !Z.eqb_eq, Z.ltb_lt. lia. Qed.

Lemma tests_ED b0 b1 k : ((b0 =? k) && (b1 >=? 0xA0))%bool = true <-> b0 = k /\ 0xA0 <= b1.
Proof. rewrite andb_true_iff, Z.eqb_eq, Z.geb_le. done. Qed.

Lemma tests_F0 b0 b1 : ((b0 =? 0xF0) && (b1 <? 0x90))%bool = true <-> b0 = 0xF0 /\ b1 < 0x90.
Proof. rewrite andb_true_iff, Z.eqb_eq, Z.ltb_lt. done. Qed.

Lemma tests_F4 b0 b1 : ((b0 =? 0xF4) && (b1 >=? 0x90))%bool = true <-> b0 = 0xF4 /\ 0x90 <= b1.
Proof. rewrite andb_true_iff, Z.eqb_eq, Z.geb_le. done. Qed.

Lemma continuation_true b : is_byte b -> no_continuation b = true <-> b < 128 \/ 192 <= b.
Proof.
  intros Hb. rewrite continuation by done. rewrite negb_true_iff, andb_false_iff, Z.leb_gt, Z.ltb_ge. done.
Qed.

(** Four lemmas, one for each length. *)
Lemma utf8_1 cp : 0 <= cp < 0x80 -> utf8 cp = [cp].
Proof. intros. unfold utf8. by rewrite (proj2 (Z.ltb_lt _ _)) by lia. Qed.

Lemma utf8_2 cp : 0x80 <= cp < 0x800 -> utf8 cp = [0xC0 + cp / 64; 0x80 + cp mod 64].
Proof. intros. unfold utf8. by rewrite (proj2 (Z.ltb_ge _ _)), (proj2 (Z.ltb_lt _ _)) by lia. Qed.

Lemma utf8_3 cp : 0x800 <= cp < 0x10000 -> utf8 cp = [0xE0 + cp / 4096; 0x80 + cp / 64 mod 64; 0x80 + cp mod 64].
Proof. intros. unfold utf8. by rewrite !(proj2 (Z.ltb_ge _ _)), (proj2 (Z.ltb_lt _ _)) by lia. Qed.

Lemma utf8_4 cp : 0x10000 <= cp ->
  utf8 cp = [0xF0 + cp / 262144; 0x80 + cp / 4096 mod 64; 0x80 + cp / 64 mod 64; 0x80 + cp mod 64].
Proof. intros. unfold utf8. by rewrite !(proj2 (Z.ltb_ge _ _)) by lia. Qed.

Ltac cut_front :=
  lazymatch goal with |- take (Z.to_nat ?k) _ = _ => let n := eval compute in (Z.to_nat k) in change (Z.to_nat k) with n end;
  cbn [take]; repeat (apply f_equal2; [lia|]); reflexivity.

(** What is recognised is a code point ... *)
Lemma code_point_sound buf :
  bytes buf -> 0 < code_point buf -> exists cp, scalar cp /\ take (Z.to_nat (code_point buf)) buf = utf8 cp.
Proof.
  assert (Hdigits : forall a b, 0 <= b < 64 -> (a * 64 + b) / 64 = a /\ (a * 64 + b) mod 64 = b).
  { intros a b Hb. rewrite Z.add_comm, Z.div_add, Z.mod_add, Z.div_small, Z.mod_small by lia. lia. }
  intros Hb. destruct buf as [|b0 buf]; [unfold code_point, NN_SWS_UTF8_FRAGMENT; intros; lia|]. apply Forall_cons in Hb as [H0 Hb].
  unfold code_point, NN_SWS_UTF8_FRAGMENT, NN_SWS_UTF8_INVALID. unfold is_byte in H0.
  destruct (Z.leb_spec b0 0x7F). { intros _. exists b0. rewrite utf8_1 by lia. split; [unfold scalar; lia|done]. }
  destruct (Z.ltb_spec b0 0xC2); [intros; lia|].
  destruct (Z.leb_spec b0 0xDF).
  { destruct buf as [|b1 buf]; [intros; lia|]. apply Forall_cons in Hb as [H1' Hb].
    destruct (no_continuation b1) eqn:E1; [intros; lia|]. apply not_true_iff_false in E1.
    rewrite continuation_true in E1 by done. intros _. exists ((b0 - 0xC0) * 64 + (b1 - 0x80)). rewrite utf8_2 by lia.
    destruct (Hdigits (b0 - 0xC0) (b1 - 0x80) ltac:(lia)) as [-> ->].
    split; [unfold scalar; lia|]. cut_front. }
  destruct (Z.leb_spec b0 0xEF).
  { destruct buf as [|b1 buf]; [intros; lia|]. apply Forall_cons in Hb as [H1' Hb].
    destruct (_ && _)%bool eqn:EE0; [intros; lia|]. apply not_true_iff_false in EE0. rewrite tests_E0 in EE0.
    destruct (_ && _)%bool eqn:EED; [intros; lia|]. apply not_true_iff_false in EED. rewrite tests_ED in EED.
    destruct buf as [|b2 buf]; [intros; lia|]. apply Forall_cons in Hb as [H2' Hb].
    destruct (_ || _)%bool eqn:E; [intros; lia|]. apply orb_false_iff in E as [E1 E2].
    apply not_true_iff_false in E1, E2. rewrite continuation_true in E1, E2 by done.
    intros _. exists (((b0 - 0xE0) * 64 + (b1 - 0x80)) * 64 + (b2 - 0x80)). rewrite utf8_3 by lia.
    destruct (Hdigits ((b0 - 0xE0) * 64 + (b1 - 0x80)) (b2 - 0x80) ltac:(lia)) as [Ed ->].
    change 4096 with (64 * 64). rewrite <-Z.div_div, Ed by lia.
    destruct (Hdigits (b0 - 0xE0) (b1 - 0x80) ltac:(lia)) as [-> ->].
    split; [unfold scalar; lia|]. cut_front. }
  destruct (Z.leb_spec b0 0xF4); [|intros; lia].
  destruct buf as [|b1 buf]; [intros; lia|]. apply Forall_cons in Hb as [H1' Hb].
  destruct (_ && _)%bool eqn:EF0; [intros; lia|]. apply not_true_iff_false in EF0. rewrite tests_F0 in EF0.
  destruct (_ && _)%bool eqn:EF4; [intros; lia|]. apply not_true_iff_false in EF4. rewrite tests_F4 in EF4.
  destruct buf as [|b2 [|b3 buf]]; [intros; lia..|]. apply Forall_cons in Hb as [H2' Hb]. apply Forall_cons in Hb as [H3' Hb].
  destruct (_ || _)%bool eqn:E; [intros; lia|]. apply orb_false_iff in E as [E E3]. apply orb_false_iff in E as [E1 E2].
  apply not_true_iff_false in E1, E2, E3. rewrite continuation_true in E1, E2, E3 by done.
  intros _. exists ((((b0 - 0xF0) * 64 + (b1 - 0x80)) * 64 + (b2 - 0x80)) * 64 + (b3 - 0x80)). rewrite utf8_4 by lia.
  destruct (Hdigits (((b0 - 0xF0) * 64 + (b1 - 0x80)) * 64 + (b2 - 0x80)) (b3 - 0x80) ltac:(lia)) as [Ed ->].
  destruct (Hdigits ((b0 - 0xF0) * 64 + (b1 - 0x80)) (b2 - 0x80) ltac:(lia)) as [Ed2 Em2].
  change 262144 with (64 * (64 * 64)). change 4096 with (64 * 64).
  rewrite <-!Z.div_div, Ed, Ed2, Em2 by lia.
  destruct (Hdigits (b0 - 0xF0) (b1 - 0x80) ltac:(lia)) as [-> ->].
  split; [unfold scalar; lia|]. cut_front.
Qed.


(** ... and every code point is recognised, whatever follows it. *)
Lemma continuation_digit d : 0 <= d < 64 -> no_continuation (0x80 + d) = false.
Proof.
  intros Hd. apply not_true_iff_false. rewrite continuation_true by (unfold is_byte; lia). lia.
Qed.

Ltac digits := unfold scalar in *; Z.to_euclidean_division_equations; lia.

(** A case of [code_point]: the comparison [t] is decided by arithmetic. *)
Ltac code_point_step :=
  match goal with
  | |- context [if ?a <=? ?b then _ else _] => first
      [ rewrite (proj2 (Z.leb_le a b)) by digits | rewrite (proj2 (Z.leb_gt a b)) by digits ]
  | |- context [if ?a <? ?b then _ else _] => first
      [ rewrite (proj2 (Z.ltb_lt a b)) by digits | rewrite (proj2 (Z.ltb_ge a b)) by digits ]
  | |- context [if ((?x =? 0xE0) && (_ || _))%bool then _ else _] =>
      rewrite (proj1 (not_true_iff_false _)) by (rewrite tests_E0; digits)
  | |- context [if ((?x =? 0xED) && _)%bool then _ else _] =>
      rewrite (proj1 (not_true_iff_false _)) by (rewrite tests_ED; digits)
  | |- context [if ((?x =? 0xF0) && _)%bool then _ else _] =>
      rewrite (proj1 (not_true_iff_false _)) by (rewrite tests_F0; digits)
  | |- context [if ((?x =? 0xF4) && _)%bool then _ else _] =>
      rewrite (proj1 (not_true_iff_false _)) by (rewrite tests_F4; digits)
  end.

Lemma code_point_prefix cp k rest :
  scalar cp ->
  code_point (take k (utf8 cp) ++ (if Nat.leb (length (utf8 cp)) k then rest else [])) =
    if Nat.leb (length (utf8 cp)) k then size (utf8 cp) else NN_SWS_UTF8_FRAGMENT.
Proof.
  intros Hcp. destruct k as [|k].
  { unfold utf8. repeat case_match; done. }
  destruct (Z.lt_ge_cases cp 0x80).
  { rewrite utf8_1 by digits. cbn -[Z.add]. destruct k; cbn; by repeat code_point_step. }
  destruct (Z.lt_ge_cases cp 0x800).
  { rewrite utf8_2 by digits. destruct k as [|k]; cbn -[Z.add Z.div Z.modulo Z.leb Z.ltb]; repeat code_point_step; [done|].
    destruct k; cbn -[Z.add Z.div Z.modulo Z.leb Z.ltb]; by rewrite continuation_digit by digits. }
  destruct (Z.lt_ge_cases cp 0x10000).
  { rewrite utf8_3 by digits. destruct k as [|[|k]]; cbn -[Z.add Z.div Z.modulo Z.leb Z.ltb Z.eqb Z.geb]; repeat code_point_step; [done..|].
    destruct k; cbn -[Z.add Z.div Z.modulo Z.leb Z.ltb]; by rewrite !continuation_digit by digits. }
  rewrite utf8_4 by digits.
  destruct k as [|[|[|k]]]; cbn -[Z.add Z.div Z.modulo Z.leb Z.ltb Z.eqb Z.geb]; repeat code_point_step; [done..|].
  destruct k; cbn -[Z.add Z.div Z.modulo Z.leb Z.ltb]; by rewrite !continuation_digit by digits.
Qed.

Lemma code_point_front cp rest : scalar cp -> code_point (utf8 cp ++ rest) = size (utf8 cp).
Proof.
  intros Hcp. pose proof (code_point_prefix cp (length (utf8 cp)) rest Hcp) as H.
  by rewrite take_ge, Nat.leb_refl in H.
Qed.

Lemma code_point_fragment cp buf : scalar cp -> buf `prefix_of` utf8 cp -> buf <> utf8 cp -> code_point buf = NN_SWS_UTF8_FRAGMENT.
Proof.
  intros Hcp [more E] Hne. pose proof (code_point_prefix cp (length buf) [] Hcp) as H. rewrite E in H.
  rewrite take_app_length, length_app in H. destruct more as [|b more]; [by rewrite app_nil_r in E|].
  rewrite (proj2 (Nat.leb_gt _ _)) in H by (cbn; lia). by rewrite app_nil_r in H.
Qed.

Lemma code_point_values buf :
  code_point buf = NN_SWS_UTF8_INVALID \/ code_point buf = NN_SWS_UTF8_FRAGMENT \/ 1 <= code_point buf <= 4.
Proof.
  unfold code_point, NN_SWS_UTF8_INVALID, NN_SWS_UTF8_FRAGMENT.
  repeat match goal with |- context [match ?b with _ => _ end] => destruct b end; lia.
Qed.

Lemma code_point_le buf : code_point buf <= size buf.
Proof.
  destruct buf as [|b0 [|b1 [|b2 [|b3 buf]]]]; unfold code_point, NN_SWS_UTF8_INVALID, NN_SWS_UTF8_FRAGMENT, size;
    cbn [length]; repeat match goal with |- context [if ?b then _ else _] => destruct b end; lia.
Qed.

(** A buffer of four bytes is never too short. *)
Lemma code_point_decided buf : (4 <= length buf)%nat -> code_point buf <> NN_SWS_UTF8_FRAGMENT.
Proof.
  destruct buf as [|b0 [|b1 [|b2 [|b3 buf]]]]; cbn [length]; [lia..|]. intros _.
  unfold code_point, NN_SWS_UTF8_INVALID, NN_SWS_UTF8_FRAGMENT.
  repeat match goal with |- context [if ?b then _ else _] => destruct b end; lia.
Qed.

(** C34.  The validator of UTF-8 agrees with RFC 3629: it returns for every buffer
    of bytes, reading nothing beyond the buffer's end; a positive result is the
    length of the encoding of a code point found at the front, and every
    encoding at the front is found, whatever follows it; a cut-off encoding is
    reported as a fragment; a buffer reported invalid neither starts with the encoding of a
    code point nor can be completed to one; four bytes are always enough for a
    verdict.  (A fragment need not be completable: [0xE1 0x00] is one.) *)
Theorem utf8_code_point_correct (buf : list Z) :
  bytes buf ->
  exists r, nn_utf8_code_point buf = Ret r /\
    (0 < r <-> exists cp, scalar cp /\ utf8 cp `prefix_of` buf) /\
    (forall cp, scalar cp -> utf8 cp `prefix_of` buf -> r = size (utf8 cp)) /\
    (forall cp, scalar cp -> buf `prefix_of` utf8 cp -> buf <> utf8 cp -> r = NN_SWS_UTF8_FRAGMENT) /\
    (r = NN_SWS_UTF8_INVALID -> forall cp more, scalar cp -> ~ (utf8 cp `prefix_of` buf ++ more)) /\
    (r = NN_SWS_UTF8_FRAGMENT -> size buf < NN_SWS_UTF8_MAX_CODEPOINT_LEN).
Proof.
  intros Hb. exists (code_point buf). split; [apply code_point_eq|].
  assert (Hfront : forall cp, scalar cp -> utf8 cp `prefix_of` buf -> code_point buf = size (utf8 cp)).
  { intros cp Hcp [rest ->]. by apply code_point_front. }
  assert (Hlen : forall cp, 0 < size (utf8 cp)) by (intros cp; unfold utf8; repeat case_match; done).
  split; [split|split; [|split; [|split]]].
  - intros Hr. destruct (code_point_sound buf Hb Hr) as (cp & Hcp & Ht). exists cp. split; [done|].
    rewrite <-Ht. exists (drop (Z.to_nat (code_point buf)) buf). by rewrite take_drop.
  - intros (cp & Hcp & Hp). rewrite (Hfront cp) by done. done.
  - done.
  - intros cp Hcp. by apply code_point_fragment.
  - intros Hr cp more Hcp Hp. destruct (prefix_weak_total _ _ _ Hp (prefix_app_r buf buf more ltac:(done))) as [H|H].
    + rewrite (Hfront cp Hcp H) in Hr. specialize (Hlen cp). unfold NN_SWS_UTF8_INVALID in Hr. lia.
    + destruct (decide (buf = utf8 cp)) as [->|Hne].
      * rewrite (Hfront cp Hcp ltac:(done)) in Hr. specialize (Hlen cp). unfold NN_SWS_UTF8_INVALID in Hr. lia.
      * rewrite (code_point_fragment cp buf) in Hr by done. done.
  - intros Hr. unfold NN_SWS_UTF8_MAX_CODEPOINT_LEN. destruct (decide (4 <= length buf)%nat) as [Hl|Hl].
    + by destruct (code_point_decided buf Hl).
    + unfold size. lia.
Qed.

(** The first two bytes of the euro sign. *)
Lemma utf8_code_point_correct_witness :
  utf8 0x20AC = [0xE2; 0x82; 0xAC] /\
  exists r, nn_utf8_code_point [0xE2; 0x82] = Ret r /\ r = NN_SWS_UTF8_FRAGMENT.
Proof.
  split; [reflexivity|].
  destruct (utf8_code_point_correct [0xE2; 0x82]) as (r & E & _ & _ & Hf & _).
  - repeat constructor; unfold is_byte; lia.
  - exists r. split; [exact E|]. apply (Hf 0x20AC).
    + unfold scalar. lia.
    + exists [0xAC]. reflexivity.
    + discriminate.
Defined.
