(* ===== verification/Cmsg.v ===== *)
(** * Cmsg: control messages (src/core/global.c, src/nn.h)

    The transport headers of a message are a sequence of [struct nn_cmsghdr],
    each with a length, a level, a type and data, aligned to eight bytes.
    [nn_cmsg_nxthdr_] goes from one to the next; pointers into the headers are
    offsets.  [cmsgs] of a list of properties is the well-formed sequence of
    them.  The layout is that of a 64-bit machine of little-endian byte order. *)

From stdpp Require Import base list.
From Stdlib Require Import ZArith Lia.
From S2P Require Import Prelude.
From S2P Require Import Message.

Open Scope Z_scope.

Definition sizeof_size_t : Z := 8.
Definition sizeof_cmsghdr : Z := 16.

(** ** Memory of a C object: little-endian numbers *)

Fixpoint le_value (bs : list Z) : Z :=
  match bs with
  | [] => 0
  | b :: bs => b + 256 * le_value bs
  end.

Fixpoint le_digits (n : nat) (v : Z) : list Z :=
  match n with
  | O => []
  | S n => u8 v :: le_digits n (v / 256)
  end.

Definition read_le (data : list Z) (off n : Z) : outcome Z :=
  if (0 <=? off) && (off + n <=? size data)
  then Ret (le_value (take (Z.to_nat n) (drop (Z.to_nat off) data))) else Undef.

(** ** Macros and the function *)

Definition NN_CMSG_ALIGN_ (len : Z) : Z :=
  Z.land (u64 (len + sizeof_size_t - 1)) (u64 (Z.lnot (sizeof_size_t - 1))).

Definition NN_CMSG_SPACE (len : Z) : Z := u64 (NN_CMSG_ALIGN_ len + NN_CMSG_ALIGN_ sizeof_cmsghdr).

(** [NN_CMSG_DATA]: behind the header. *)
Definition NN_CMSG_DATA (cmsg : Z) : Z := cmsg + sizeof_cmsghdr.

Definition cmsg_len (data : list Z) (cmsg : Z) : outcome Z := read_le data cmsg 8.
Definition cmsg_level (data : list Z) (cmsg : Z) : outcome Z := s32 <$> read_le data (cmsg + 8) 4.
Definition cmsg_type (data : list Z) (cmsg : Z) : outcome Z := s32 <$> read_le data (cmsg + 12) 4.

(** [data] is what [msg_control] and [msg_controllen] of the message denote. *)
Definition nn_cmsg_nxthdr_ (data : list Z) (cmsg : option Z) : outcome (option Z) :=
  let sz := size data in
  if sz <? NN_CMSG_SPACE 0 then Ret None else
  next ← match cmsg with
         | None => Ret 0
         | Some cmsg => len ← cmsg_len data cmsg; Ret (u64 (cmsg + NN_CMSG_ALIGN_ len))
         end;
  let headsz := next in
  if u64 (headsz + NN_CMSG_SPACE 0) >? sz then Ret None else
  len ← cmsg_len data next;
  if u64 (headsz + NN_CMSG_ALIGN_ len) >? sz then Ret None else
  Ret (Some next).

Definition NN_CMSG_FIRSTHDR (data : list Z) : outcome (option Z) := nn_cmsg_nxthdr_ data None.
Definition NN_CMSG_NXTHDR (data : list Z) (cmsg : Z) : outcome (option Z) := nn_cmsg_nxthdr_ data (Some cmsg).

(** The loop over all headers, for the first of a level and a type. *)
Fixpoint find_cmsg (fuel : nat) (level type : Z) (data : list Z) (cmsg : option Z) : outcome (option Z) :=
  match cmsg, fuel with
  | None, _ => Ret None
  | Some c, S fuel =>
      l ← cmsg_level data c;
      t ← cmsg_type data c;
      if (l =? level) && (t =? type) then Ret (Some c) else
      next ← NN_CMSG_NXTHDR data c;
      find_cmsg fuel level type data next
  | Some _, O => NoFuel
  end.

(** ** Well-formed sequences of properties *)

Record property : Type := Property { level : Z; ptype : Z; value : list Z }.

(** A property of the size of its value, padded to the alignment. *)
Definition padding (n : Z) : list Z := replicate (Z.to_nat ((- n) mod 8)) 0.

Definition cmsg (p : property) : list Z :=
  le_digits 8 (sizeof_cmsghdr + size (value p)) ++ le_digits 4 (level p) ++ le_digits 4 (ptype p) ++
  value p ++ padding (size (value p)).

Definition cmsgs (ps : list property) : list Z := concat (map cmsg ps).

Example find_second :
  find_cmsg 5 (-4) 1 (cmsgs [Property 7 3 [1; 2; 3]; Property (-4) 1 [2]]) (Some 0) = Ret (Some 24).
Proof. reflexivity. Qed.

(** A length of zero makes the walk stay where it is. *)
Example endless : NN_CMSG_NXTHDR (replicate 16 0) 0 = Ret (Some 0).
Proof. reflexivity. Qed.

(** So does a length that wraps around: the walk goes back to the front. *)
Example backwards :
  let data := cmsg (Property 7 3 []) ++ le_digits 8 (2 ^ 64 - 16) ++ replicate 8 0 in
  NN_CMSG_NXTHDR data 0 = Ret (Some 16) /\ NN_CMSG_NXTHDR data 16 = Ret (Some 0).
Proof. split; reflexivity. Qed.
