(* ===== verification/Sws.v ===== *)
(** * Sws: WebSocket sessions (src/transports/ws/sws.c)

    After the handshake of ws_handshake.c a session turns messages into frames of
    RFC 6455 and back.  The inbound part reads a header of two bytes, the rest of
    the header, the payload; it unmasks the payload, checks text for UTF-8,
    collects the fragments of a message, answers a close frame, and refuses
    whatever the protocol forbids by sending a close frame of its own.  The
    outbound part writes one frame per message and, in a client, masks the
    message in place.

    The message being sent may share its bytes with others, so it lives in the
    memory of Chunk.v; the fragments of the message being received belong to the
    session alone and are kept by value.  Pointers into the record ([mask],
    [inmsg_current_chunk_buf]) are offsets and names.  The socket below is the
    pair of requests [rx] and [tx] the session has made of it; [usock_received]
    and [usock_sent] are its answers. *)

From Stdlib Require Import String.
From stdpp Require Import base gmap list.
From Stdlib Require Import ZArith Lia.
From S2P Require Import Prelude.
From S2P Require Import Update.
From S2P Require Import Wire.
From S2P Require Import Message.
From S2P Require Import Fsm.
From S2P Require Import Utf8.
From S2P Require Import Cmsg.
From S2P Require ListHeap.
Import ListHeap (loc).
From S2P Require Chunk.
From S2P Require Pipe.
From S2P Require WsHandshake.
Import WsHandshake (str, is_nil, NN_WS_CLIENT, NN_WS_SERVER, NN_WS_HANDSHAKE_OK, NN_WS_HANDSHAKE_ERROR,
  NN_WS_HANDSHAKE_STOPPED, NN_USOCK_SENT, NN_USOCK_RECEIVED, NN_USOCK_ERROR, NN_USOCK_SHUTDOWN).
Import Chunk (memory, data_ptr, read_at, write_at, load_data, store_data, nn_chunkref_data, nn_chunkref_size,
  nn_msg_init, nn_msg_term, nn_msg_mv).

Open Scope Z_scope.

(** ** Constants *)

Definition NN_SWS_RETURN_ERROR : Z := 1.
Definition NN_SWS_RETURN_CLOSE_HANDSHAKE : Z := 2.
Definition NN_SWS_RETURN_STOPPED : Z := 3.

Definition NN_SWS_SRC_USOCK : Z := 1.
Definition NN_SWS_SRC_HANDSHAKE : Z := 2.

Definition NN_SWS_FRAME_SIZE_INITIAL : Z := 2.
Definition NN_SWS_FRAME_SIZE_PAYLOAD_0 : Z := 0.
Definition NN_SWS_FRAME_SIZE_PAYLOAD_16 : Z := 2.
Definition NN_SWS_FRAME_SIZE_PAYLOAD_63 : Z := 8.
Definition NN_SWS_FRAME_SIZE_MASK : Z := 4.
Definition NN_SWS_FRAME_MAX_HDR_LEN : Z := 14.

Definition NN_SWS_FRAME_BITMASK_FIN : Z := 0x80.
Definition NN_SWS_FRAME_BITMASK_RSV1 : Z := 0x40.
Definition NN_SWS_FRAME_BITMASK_RSV2 : Z := 0x20.
Definition NN_SWS_FRAME_BITMASK_RSV3 : Z := 0x10.
Definition NN_SWS_FRAME_BITMASK_OPCODE : Z := 0x0F.
Definition NN_SWS_FRAME_BITMASK_MASKED : Z := 0x80.
Definition NN_SWS_FRAME_BITMASK_NOT_MASKED : Z := 0x00.
Definition NN_SWS_FRAME_BITMASK_LENGTH : Z := 0x7F.

Definition NN_SWS_PAYLOAD_MAX_LENGTH : Z := 125.
Definition NN_SWS_PAYLOAD_MAX_LENGTH_16 : Z := 65535.
Definition NN_SWS_PAYLOAD_FRAME_16 : Z := 0x7E.
Definition NN_SWS_PAYLOAD_FRAME_63 : Z := 0x7F.
Definition NN_SWS_CLOSE_CODE_LEN : Z := 2.

Definition NN_WS : Z := -4.
Definition NN_WS_MSG_TYPE : Z := 1.
Definition NN_WS_OPCODE_FRAGMENT : Z := 0x00.
Definition NN_WS_OPCODE_TEXT : Z := 0x01.
Definition NN_WS_OPCODE_BINARY : Z := 0x02.
Definition NN_WS_OPCODE_CLOSE : Z := 0x08.
Definition NN_WS_OPCODE_PING : Z := 0x09.
Definition NN_WS_OPCODE_PONG : Z := 0x0A.

Definition NN_SWS_CLOSE_NORMAL : Z := 1000.
Definition NN_SWS_CLOSE_GOING_AWAY : Z := 1001.
Definition NN_SWS_CLOSE_ERR_PROTO : Z := 1002.
Definition NN_SWS_CLOSE_ERR_WUT : Z := 1003.
Definition NN_SWS_CLOSE_ERR_INVALID_FRAME : Z := 1007.
Definition NN_SWS_CLOSE_ERR_POLICY : Z := 1008.
Definition NN_SWS_CLOSE_ERR_TOOBIG : Z := 1009.
Definition NN_SWS_CLOSE_ERR_EXTENSION : Z := 1010.
Definition NN_SWS_CLOSE_ERR_SERVER : Z := 1011.

(** The event [done] of the session, for its owner. *)
Definition EV_DONE : Z := 1.

(** ** Data *)

Inductive sws_state : Type :=
| SWS_IDLE | HANDSHAKE | STOPPING_HANDSHAKE | ACTIVE | CLOSING_CONNECTION | BROKEN_CONNECTION | DONE | STOPPING.

Inductive sws_instate : Type :=
| INSTATE_NONE | RECV_HDR | RECV_HDREXT | RECV_PAYLOAD | RECVD_CHUNKED | RECVD_CONTROL | CLOSED.

Inductive sws_outstate : Type := OUTSTATE_NONE | OUTSTATE_IDLE | OUTSTATE_SENDING.

#[export] Instance sws_state_eq_dec : EqDecision sws_state.
Proof. solve_decision. Defined.
#[export] Instance sws_instate_eq_dec : EqDecision sws_instate.
Proof. solve_decision. Defined.
#[export] Instance sws_outstate_eq_dec : EqDecision sws_outstate.
Proof. solve_decision. Defined.

(** Where [inmsg_current_chunk_buf] points: nowhere, to [inmsg_control], or to
    the data of a chunk of [inmsg_array]. *)
Inductive chunk_buf : Type := BufNull | BufControl | BufChunk (i : nat).

(** Where [nn_usock_recv] puts the bytes: into [inhdr] from an offset on, or to
    where [inmsg_current_chunk_buf] pointed. *)
Inductive rx_dst : Type := RxInhdr (off : Z) | RxPayload (buf : chunk_buf).

(** What [nn_usock_send] reads: so many bytes of [outhdr], of [fail_msg], or of
    the data of a chunk reference. *)
Inductive nn_iovec : Type := IovOuthdr (len : Z) | IovFail (len : Z) | IovData (d : data_ptr) (len : Z).

(** [usock] tells whether the session has a socket.  [outmsg] is the location of
    the message.  [mask] is an offset in [inhdr]. *)
Record nn_sws : Type := Sws {
  sfsm : nn_fsm; state : sws_state; msg_type : Z; mode : Z; usock : bool;
  handshaker : WsHandshake.nn_ws_handshake; pipebase : Pipe.nn_pipebase;
  resource : list Z; remote_host : list Z;
  instate : sws_instate; inhdr : list Z;
  opcode : Z; payload_ctl : Z; masked : bool; mask : option Z; ext_hdr_len : Z;
  is_final_frame : bool; is_control_frame : bool; continuing : bool;
  utf8_code_pt_fragment : list Z; utf8_code_pt_fragment_len : Z;
  pings_received : Z; pongs_received : Z;
  inmsg_array : list (list Z); inmsg_current_chunk_buf : chunk_buf; inmsg_current_chunk_len : Z;
  inmsg_total_size : Z; inmsg_chunks : Z; inmsg_hdr : Z; inmsg_control : list Z;
  fail_msg : list Z; fail_msg_len : Z;
  outstate : sws_outstate; outhdr : list Z; outmsg : loc;
  rx : option (rx_dst * Z); tx : option (list nn_iovec)
}.

#[export] Instance nn_sws_eta : Eta nn_sws := fun r =>
  Sws (sfsm r) (state r) (msg_type r) (mode r) (usock r) (handshaker r) (pipebase r) (resource r) (remote_host r)
    (instate r) (inhdr r) (opcode r) (payload_ctl r) (masked r) (mask r) (ext_hdr_len r) (is_final_frame r)
    (is_control_frame r) (continuing r) (utf8_code_pt_fragment r) (utf8_code_pt_fragment_len r)
    (pings_received r) (pongs_received r) (inmsg_array r) (inmsg_current_chunk_buf r) (inmsg_current_chunk_len r)
    (inmsg_total_size r) (inmsg_chunks r) (inmsg_hdr r) (inmsg_control r) (fail_msg r) (fail_msg_len r)
    (outstate r) (outhdr r) (outmsg r) (rx r) (tx r).

(** A message handed to the core: the opcode in its transport headers, and its body. *)
Record ws_message : Type := WsMessage { hdrs : list Z; wbody : list Z }.

Definition is_set (byte bit : Z) : bool := negb (Z.land byte bit =? 0).

Definition assert_state (self : nn_sws) (st : sws_state) : outcome unit := check (bool_decide (state self = st)).

(** ** Masking *)

(** The mask is repeated from index [i] on. *)
Fixpoint mask_bytes (mask : list Z) (i : Z) (payload : list Z) : outcome (list Z) :=
  match payload with
  | [] => Ret []
  | b :: payload =>
      m ← nth_c mask (i mod size mask);
      payload ← mask_bytes mask (i + 1) payload;
      Ret (Z.lxor b m :: payload)
  end.

(** The payload masked and the new position.  The index is [unsigned]: over a
    payload of [2 ^ 32] bytes the loop does not end. *)
Definition nn_sws_mask_payload (payload mask : list Z) (mask_start_pos : option Z) : outcome (list Z * option Z) :=
  if size payload >=? 2 ^ 32 then NoFuel else
  match mask_start_pos with
  | Some start =>
      payload ← mask_bytes mask start payload;
      Ret (payload, Some ((size payload + start) mod size mask))
  | None => payload ← mask_bytes mask 0 payload; Ret (payload, None)
  end.

(** ** Requests to the socket *)

Definition nn_usock_recv (self : nn_sws) (dst : rx_dst) (len : Z) : nn_sws := self ⦃ rx := Some (dst, len) ⦄.
Definition nn_usock_send (self : nn_sws) (iov : list nn_iovec) : nn_sws := self ⦃ tx := Some iov ⦄.

(** ** The pipe *)

(** [nn_pipebase_received], [nn_pipebase_sent], [nn_pipebase_stop]; the events
    for the core are not needed below. *)
Definition pipe_received (self : nn_sws) : outcome nn_sws :=
  '(p, _) ← Pipe.nn_pipebase_received (pipebase self); Ret (self ⦃ pipebase := p ⦄).
Definition pipe_sent (self : nn_sws) : outcome nn_sws :=
  '(p, _) ← Pipe.nn_pipebase_sent (pipebase self); Ret (self ⦃ pipebase := p ⦄).
Definition pipe_stop (self : nn_sws) : outcome nn_sws :=
  '(_, p) ← Pipe.nn_pipebase_stop (pipebase self) tt Ret; Ret (self ⦃ pipebase := p ⦄).

Definition raise_done (self : nn_sws) (type : Z) : outcome nn_sws :=
  f ← nn_fsm_raise (sfsm self) EV_DONE type; Ret (self ⦃ sfsm := f ⦄).

(** ** Life of the object *)

(** The record before any function ran on it: [handshaker] and [outmsg] are
    initialised, the rest has any value. *)
Definition nn_sws_init (blank : nn_sws) (m : memory) (a : Chunk.allocation) (hs : WsHandshake.nn_ws_handshake)
    (opts : Pipe.nn_ep_options) : outcome (memory * nn_sws) :=
  m ← nn_msg_init m a (outmsg blank) 0;
  Ret (m, blank ⦃ sfsm := nn_fsm_init ⦄ ⦃ state := SWS_IDLE ⦄ ⦃ handshaker := hs ⦄ ⦃ usock := false ⦄
    ⦃ pipebase := Pipe.nn_pipebase_init opts ⦄ ⦃ instate := INSTATE_NONE ⦄ ⦃ inmsg_array := [] ⦄
    ⦃ outstate := OUTSTATE_NONE ⦄ ⦃ continuing := false ⦄
    ⦃ utf8_code_pt_fragment := replicate (Z.to_nat NN_SWS_UTF8_MAX_CODEPOINT_LEN) 0 ⦄
    ⦃ utf8_code_pt_fragment_len := 0 ⦄ ⦃ pings_received := 0 ⦄ ⦃ pongs_received := 0 ⦄ ⦃ rx := None ⦄ ⦃ tx := None ⦄).

(** Releases the fragments. *)
Definition nn_msg_array_term (self : nn_sws) : nn_sws := self ⦃ inmsg_array := [] ⦄.

Definition nn_sws_term (self : nn_sws) (m : memory) : outcome memory :=
  _ ← assert_state self SWS_IDLE;
  _ ← check (negb (nn_fsm_event_active (sfsm self) EV_DONE));
  m ← nn_msg_term m (outmsg self);
  _ ← Pipe.nn_pipebase_term (pipebase self);
  _ ← WsHandshake.nn_ws_handshake_term (handshaker self);
  _ ← nn_fsm_term (sfsm self);
  Ret m.

Definition nn_sws_isidle (self : nn_sws) : bool := nn_fsm_isidle (sfsm self).

Section inbound.
  (** What the allocator returns for a chunk of a size; the mask of the next
      close frame of a client; the [NN_RCVMAXSIZE] option of the socket. *)
  Context (alloc : Z -> option (list Z)) (rand_mask : list Z) (rcvmaxsize : Z).

(** [nn_chunkref_init]: the allocation must succeed. *)
Definition nn_chunkref_init (size : Z) : outcome (list Z) :=
  match alloc size with Some data => Ret data | None => Abort end.

(** Appends a chunk; the pointer to its data. *)
Definition nn_msg_chunk_new (self : nn_sws) (size : Z) : outcome (nn_sws * chunk_buf) :=
  data ← nn_chunkref_init size;
  Ret (self ⦃ inmsg_array := inmsg_array self ++ [data] ⦄, BufChunk (length (inmsg_array self))).

(** Memory behind [inmsg_current_chunk_buf]. *)
Definition load_buf (self : nn_sws) (buf : chunk_buf) : outcome (list Z) :=
  match buf with
  | BufNull => Undef
  | BufControl => Ret (inmsg_control self)
  | BufChunk i => match inmsg_array self !! i with Some data => Ret data | None => Undef end
  end.

Definition store_buf (self : nn_sws) (buf : chunk_buf) (data : list Z) : outcome nn_sws :=
  old ← load_buf self buf;
  new ← write_at old 0 data;
  match buf with
  | BufNull => Undef
  | BufControl => Ret (self ⦃ inmsg_control := new ⦄)
  | BufChunk i => Ret (self ⦃ inmsg_array := <[i := new]> (inmsg_array self) ⦄)
  end.

(** The payload of the current frame. *)
Definition payload (self : nn_sws) : outcome (list Z) :=
  data ← load_buf self (inmsg_current_chunk_buf self);
  read_at data 0 (inmsg_current_chunk_len self).

Definition nn_sws_recv_hdr (self : nn_sws) : outcome nn_sws :=
  self ← (if negb (continuing self) then
            _ ← check (is_nil (inmsg_array self));
            Ret (self ⦃ inmsg_current_chunk_buf := BufNull ⦄ ⦃ inmsg_chunks := 0 ⦄
                   ⦃ inmsg_current_chunk_len := 0 ⦄ ⦃ inmsg_total_size := 0 ⦄)
          else Ret self);
  Ret (nn_usock_recv
         (self ⦃ inmsg_control := replicate (Z.to_nat NN_SWS_PAYLOAD_MAX_LENGTH) 0 ⦄
               ⦃ inhdr := replicate (Z.to_nat NN_SWS_FRAME_MAX_HDR_LEN) 0 ⦄ ⦃ instate := RECV_HDR ⦄)
         (RxInhdr 0) NN_SWS_FRAME_SIZE_INITIAL).

(** ** Failing the connection *)

(** The close frame in [fail_msg]. *)
Definition close_frame (self : nn_sws) (code : Z) (reason : list Z) : outcome nn_sws :=
  let payload_len := size reason + NN_SWS_CLOSE_CODE_LEN in
  _ ← check (payload_len <=? NN_SWS_PAYLOAD_MAX_LENGTH);
  msg ← upd_c (fail_msg self) 0 (Z.lor NN_SWS_FRAME_BITMASK_FIN NN_WS_OPCODE_CLOSE);
  msg ← upd_c msg 1 (u8 payload_len);
  '(msg, len) ←
    (if mode self =? NN_WS_SERVER then
       msg ← upd_c msg 1 (Z.lor (u8 payload_len) NN_SWS_FRAME_BITMASK_NOT_MASKED);
       Ret (msg, NN_SWS_FRAME_SIZE_INITIAL)
     else if mode self =? NN_WS_CLIENT then
       msg ← upd_c msg 1 (Z.lor (u8 payload_len) NN_SWS_FRAME_BITMASK_MASKED);
       msg ← write_at msg NN_SWS_FRAME_SIZE_INITIAL rand_mask;
       Ret (msg, NN_SWS_FRAME_SIZE_INITIAL + NN_SWS_FRAME_SIZE_MASK)
     else Abort);
  let payload_pos := len in
  code ← nn_puts [0; 0] (u16 code);
  msg ← write_at msg payload_pos code;
  let len := len + NN_SWS_CLOSE_CODE_LEN in
  msg ← write_at msg (payload_pos + NN_SWS_CLOSE_CODE_LEN) reason;
  msg ← (if mode self =? NN_WS_CLIENT then
           p ← read_at msg payload_pos payload_len;
           '(p, _) ← nn_sws_mask_payload p rand_mask None;
           write_at msg payload_pos p
         else Ret msg);
  let len := len + payload_len in
  Ret (self ⦃ fail_msg := msg ⦄ ⦃ fail_msg_len := len ⦄).

Definition nn_sws_fail_conn (self : nn_sws) (code : Z) (reason : list Z) : outcome nn_sws :=
  _ ← assert_state self ACTIVE;
  self ← pipe_stop (self ⦃ instate := CLOSED ⦄);
  self ← close_frame (nn_msg_array_term self) code reason;
  if decide (outstate self = OUTSTATE_IDLE) then
    Ret ((nn_usock_send self [IovFail (fail_msg_len self)]) ⦃ outstate := OUTSTATE_SENDING ⦄ ⦃ state := CLOSING_CONNECTION ⦄)
  else raise_done (self ⦃ state := DONE ⦄) NN_SWS_RETURN_CLOSE_HANDSHAKE.

(** ** Text *)

(** Code points are skipped as long as there are any: [None] at the end of the
    text, or the verdict on what is left. *)
Fixpoint skip_code_points (fuel : nat) (pos : list Z) : outcome (option (Z * list Z)) :=
  if negb (size pos >? 0) then Ret None else
  match fuel with
  | O => NoFuel
  | S fuel =>
      code_point_len ← nn_utf8_code_point pos;
      if code_point_len >? 0 then
        _ ← check (size pos >=? code_point_len);
        skip_code_points fuel (drop (Z.to_nat code_point_len) pos)
      else Ret (Some (code_point_len, pos))
  end.

(** The code point the last chunk ended in takes bytes from this one: the
    fragment, what is left of the chunk, and the verdict if the loop left off
    with one. *)
Fixpoint complete_fragment (frag : list Z) (flen : Z) (pos : list Z) : outcome (list Z * Z * list Z * option Z) :=
  match pos with
  | [] => Ret (frag, flen, [], None)
  | b :: pos =>
      frag ← upd_c frag flen b;
      let flen := flen + 1 in
      code_point_len ← nn_utf8_code_point (take (Z.to_nat flen) frag);
      if (code_point_len >? 0) || (code_point_len =? NN_SWS_UTF8_INVALID) || (code_point_len =? NN_SWS_UTF8_FRAGMENT)
      then Ret (frag, flen, pos, Some code_point_len)
      else complete_fragment frag flen pos
  end.

(** The message is complete, or the next frame is needed. *)
Definition chunk_done (self : nn_sws) : outcome nn_sws :=
  if is_final_frame self then pipe_received (self ⦃ instate := RECVD_CHUNKED ⦄) else nn_sws_recv_hdr self.

Definition no_fragment : list Z := replicate (Z.to_nat NN_SWS_UTF8_MAX_CODEPOINT_LEN) 0.

(** The second loop, over what the first has left. *)
Definition validate_rest (self : nn_sws) (pos : list Z) : outcome nn_sws :=
  _ ← check (negb (utf8_code_pt_fragment_len self >=? NN_SWS_UTF8_MAX_CODEPOINT_LEN));
  stop ← skip_code_points (length pos) pos;
  match stop with
  | None => chunk_done (self ⦃ utf8_code_pt_fragment_len := 0 ⦄ ⦃ utf8_code_pt_fragment := no_fragment ⦄)
  | Some (code_point_len, rest) =>
      if code_point_len =? NN_SWS_UTF8_INVALID then
        nn_sws_fail_conn (self ⦃ utf8_code_pt_fragment_len := 0 ⦄ ⦃ utf8_code_pt_fragment := no_fragment ⦄)
          NN_SWS_CLOSE_ERR_INVALID_FRAME (str "Invalid UTF-8 code point in payload.")
      else
        _ ← check (size rest <? NN_SWS_UTF8_MAX_CODEPOINT_LEN);
        frag ← write_at (utf8_code_pt_fragment self) 0 rest;
        let self := self ⦃ utf8_code_pt_fragment_len := size rest ⦄ ⦃ utf8_code_pt_fragment := frag ⦄ in
        if is_final_frame self then
          nn_sws_fail_conn self NN_SWS_CLOSE_ERR_INVALID_FRAME (str "Truncated UTF-8 payload with invalid code point.")
        else nn_sws_recv_hdr self
  end.

Definition nn_sws_validate_utf8_chunk (self : nn_sws) : outcome nn_sws :=
  pos ← payload self;
  if negb (utf8_code_pt_fragment_len self =? 0) then
    _ ← check (utf8_code_pt_fragment_len self <? NN_SWS_UTF8_MAX_CODEPOINT_LEN);
    '(frag, flen, rest, stop) ← complete_fragment (utf8_code_pt_fragment self) (utf8_code_pt_fragment_len self) pos;
    let self := self ⦃ utf8_code_pt_fragment := frag ⦄ ⦃ utf8_code_pt_fragment_len := flen ⦄ in
    match stop with
    | Some code_point_len =>
        if code_point_len =? NN_SWS_UTF8_INVALID then
          nn_sws_fail_conn self NN_SWS_CLOSE_ERR_INVALID_FRAME (str "Invalid UTF-8 code point split on previous frame.")
        else if code_point_len =? NN_SWS_UTF8_FRAGMENT then
          if is_final_frame self then
            nn_sws_fail_conn self NN_SWS_CLOSE_ERR_INVALID_FRAME (str "Truncated UTF-8 payload with invalid code point.")
          else nn_sws_recv_hdr self
        else validate_rest self rest
    | None => validate_rest self rest
    end
  else validate_rest self pos.

(** ** The close handshake *)

Definition known_close_code (close_code : Z) : bool :=
  (close_code =? NN_SWS_CLOSE_NORMAL) || (close_code =? NN_SWS_CLOSE_GOING_AWAY) ||
  (close_code =? NN_SWS_CLOSE_ERR_PROTO) || (close_code =? NN_SWS_CLOSE_ERR_WUT) ||
  (close_code =? NN_SWS_CLOSE_ERR_INVALID_FRAME) || (close_code =? NN_SWS_CLOSE_ERR_POLICY) ||
  (close_code =? NN_SWS_CLOSE_ERR_TOOBIG) || (close_code =? NN_SWS_CLOSE_ERR_EXTENSION) ||
  (close_code =? NN_SWS_CLOSE_ERR_SERVER) ||
  ((close_code >=? 3000) && (close_code <=? 3999)) || ((close_code >=? 4000) && (close_code <=? 4999)).

Definition nn_sws_acknowledge_close_handshake (self : nn_sws) : outcome nn_sws :=
  let len := inmsg_current_chunk_len self in
  if len =? 0 then nn_sws_fail_conn self NN_SWS_CLOSE_NORMAL [] else
  _ ← check (len >=? NN_SWS_CLOSE_CODE_LEN);
  pos ← payload self;
  stop ← skip_code_points (length pos) (drop (Z.to_nat NN_SWS_CLOSE_CODE_LEN) pos);
  match stop with
  | Some _ => nn_sws_fail_conn self NN_SWS_CLOSE_ERR_PROTO (str "Invalid UTF-8 sent as Close Reason.")
  | None =>
      close_code ← nn_gets pos;
      if known_close_code close_code then nn_sws_fail_conn self close_code []
      else nn_sws_fail_conn self NN_SWS_CLOSE_ERR_PROTO (str "Unrecognized close code.")
  end.

(** ** Frames coming in *)

(** The frame without payload or mask, of which all is there. *)
Definition is_bare (self : nn_sws) : bool := (ext_hdr_len self =? 0) && (payload_ctl self =? 0).

(** The handlers of the opcodes return whether more of the frame is to be
    received. *)
Definition empty_frame (self : nn_sws) : outcome (nn_sws * bool) :=
  _ ← check (mode self =? NN_WS_CLIENT);
  let self := self ⦃ inmsg_current_chunk_len := 0 ⦄ in
  self ← (if continuing self then nn_sws_recv_hdr self else pipe_received (self ⦃ instate := RECVD_CHUNKED ⦄));
  Ret (self, false).

Definition data_opcode (self : nn_sws) : outcome (nn_sws * bool) :=
  let self := self ⦃ is_control_frame := false ⦄ in
  if continuing self then
    self ← nn_sws_fail_conn self NN_SWS_CLOSE_ERR_PROTO (str "Expected continuation frame opcode.");
    Ret (self, false)
  else
    let self := if negb (is_final_frame self) then self ⦃ continuing := true ⦄ else self in
    if is_bare self then empty_frame self else Ret (self, true).

Definition fragment_opcode (self : nn_sws) : outcome (nn_sws * bool) :=
  let self := self ⦃ is_control_frame := false ⦄ ⦃ continuing := negb (is_final_frame self) ⦄ in
  if is_bare self then empty_frame self else Ret (self, true).

(** PING and PONG. *)
Definition ping_pong_opcode (self : nn_sws) : outcome (nn_sws * bool) :=
  if payload_ctl self >? NN_SWS_PAYLOAD_MAX_LENGTH then
    self ← nn_sws_fail_conn self NN_SWS_CLOSE_ERR_PROTO (str "Control frame payload exceeds allowable length.");
    Ret (self, false)
  else if negb (is_final_frame self) then
    self ← nn_sws_fail_conn self NN_SWS_CLOSE_ERR_PROTO (str "Cannot fragment control message (FIN=0).");
    Ret (self, false)
  else if is_bare self then
    self ← pipe_received (self ⦃ inmsg_current_chunk_len := 0 ⦄ ⦃ instate := RECVD_CONTROL ⦄);
    Ret (self, false)
  else Ret (self, true).

Definition close_opcode (self : nn_sws) : outcome (nn_sws * bool) :=
  let self := self ⦃ is_control_frame := true ⦄ in
  if negb (is_final_frame self) then
    self ← nn_sws_fail_conn self NN_SWS_CLOSE_ERR_PROTO (str "Cannot fragment control message (FIN=0).");
    Ret (self, false)
  else if payload_ctl self >? NN_SWS_PAYLOAD_MAX_LENGTH then
    self ← nn_sws_fail_conn self NN_SWS_CLOSE_ERR_PROTO (str "Control frame payload exceeds allowable length.");
    Ret (self, false)
  else if payload_ctl self =? 1 then
    self ← nn_sws_fail_conn self NN_SWS_CLOSE_ERR_PROTO (str "Expected 2byte close code.");
    Ret (self, false)
  else if is_bare self then
    self ← nn_sws_acknowledge_close_handshake (self ⦃ inmsg_current_chunk_len := 0 ⦄);
    Ret (self, false)
  else Ret (self, true).

Definition handle_opcode (self : nn_sws) : outcome (nn_sws * bool) :=
  if (opcode self =? NN_WS_OPCODE_TEXT) || (opcode self =? NN_WS_OPCODE_BINARY) then data_opcode self
  else if opcode self =? NN_WS_OPCODE_FRAGMENT then fragment_opcode self
  else if opcode self =? NN_WS_OPCODE_PING then
    ping_pong_opcode (self ⦃ is_control_frame := true ⦄ ⦃ pings_received := pings_received self + 1 ⦄)
  else if opcode self =? NN_WS_OPCODE_PONG then
    ping_pong_opcode (self ⦃ is_control_frame := true ⦄ ⦃ pongs_received := pongs_received self + 1 ⦄)
  else if opcode self =? NN_WS_OPCODE_CLOSE then close_opcode self
  else
    self ← nn_sws_fail_conn self NN_SWS_CLOSE_ERR_PROTO (str "Invalid opcode.");
    Ret (self, false).

(** Room for a payload of [inmsg_current_chunk_len] bytes, and the request for
    it; [refusal] is the reason given when the message gets too large. *)
Definition recv_payload (self : nn_sws) (refusal : list Z) : outcome nn_sws :=
  let go self := Ret (nn_usock_recv (self ⦃ instate := RECV_PAYLOAD ⦄) (RxPayload (inmsg_current_chunk_buf self))
                        (inmsg_current_chunk_len self)) in
  if is_control_frame self then go (self ⦃ inmsg_current_chunk_buf := BufControl ⦄)
  else
    let self := self ⦃ inmsg_total_size := u64 (inmsg_total_size self + inmsg_current_chunk_len self) ⦄ in
    if (rcvmaxsize >=? 0) && (inmsg_total_size self >? rcvmaxsize) then
      nn_sws_fail_conn self NN_SWS_CLOSE_ERR_TOOBIG refusal
    else
      let self := self ⦃ inmsg_chunks := inmsg_chunks self + 1 ⦄ in
      '(self, buf) ← nn_msg_chunk_new self (inmsg_current_chunk_len self);
      go (self ⦃ inmsg_current_chunk_buf := buf ⦄).

(** The mask bit a peer must set, and what the extended header has of it. *)
Definition mask_rule (self : nn_sws) : outcome (Z + list Z) :=
  if mode self =? NN_WS_SERVER then
    Ret (if masked self then inl NN_SWS_FRAME_SIZE_MASK else inr (str "Server expects MASK bit to be set."))
  else if mode self =? NN_WS_CLIENT then
    Ret (if masked self then inr (str "Client expects MASK bit to be unset.") else inl 0)
  else Abort.

(** The rest of the header, or the payload when there is no more header. *)
Definition recv_rest (self : nn_sws) : outcome nn_sws :=
  if ext_hdr_len self =? 0 then
    _ ← check (mode self =? NN_WS_CLIENT);
    _ ← check ((0 <? payload_ctl self) && (payload_ctl self <=? NN_SWS_PAYLOAD_MAX_LENGTH));
    recv_payload (self ⦃ inmsg_current_chunk_len := payload_ctl self ⦄) (str "Message larger than application allows.")
  else
    Ret (nn_usock_recv (self ⦃ instate := RECV_HDREXT ⦄) (RxInhdr NN_SWS_FRAME_SIZE_INITIAL) (ext_hdr_len self)).

Definition handle_hdr (self : nn_sws) : outcome nn_sws :=
  b0 ← nth_c (inhdr self) 0;
  b1 ← nth_c (inhdr self) 1;
  if is_set b0 NN_SWS_FRAME_BITMASK_RSV1 || is_set b0 NN_SWS_FRAME_BITMASK_RSV2 || is_set b0 NN_SWS_FRAME_BITMASK_RSV3 then
    nn_sws_fail_conn self NN_SWS_CLOSE_ERR_PROTO (str "RSV1, RSV2, and RSV3 must be unset.")
  else
    let self := self ⦃ is_final_frame := is_set b0 NN_SWS_FRAME_BITMASK_FIN ⦄
                     ⦃ masked := is_set b1 NN_SWS_FRAME_BITMASK_MASKED ⦄ in
    rule ← mask_rule self;
    match rule with
    | inr reason => nn_sws_fail_conn self NN_SWS_CLOSE_ERR_PROTO reason
    | inl ext =>
        let self := self ⦃ ext_hdr_len := ext ⦄ ⦃ opcode := Z.land b0 NN_SWS_FRAME_BITMASK_OPCODE ⦄
                         ⦃ payload_ctl := Z.land b1 NN_SWS_FRAME_BITMASK_LENGTH ⦄ in
        if negb (continuing self) && (opcode self =? NN_WS_OPCODE_FRAGMENT) then
          nn_sws_fail_conn self NN_SWS_CLOSE_ERR_PROTO (str "No message to continue.")
        else
          let self := if negb (continuing self) then self ⦃ inmsg_hdr := Z.lor b0 NN_SWS_FRAME_BITMASK_FIN ⦄ else self in
          more ← (if payload_ctl self <=? NN_SWS_PAYLOAD_MAX_LENGTH then Ret NN_SWS_FRAME_SIZE_PAYLOAD_0
                  else if payload_ctl self =? NN_SWS_PAYLOAD_FRAME_16 then Ret NN_SWS_FRAME_SIZE_PAYLOAD_16
                  else if payload_ctl self =? NN_SWS_PAYLOAD_FRAME_63 then Ret NN_SWS_FRAME_SIZE_PAYLOAD_63
                  else Abort);
          '(self, continue) ← handle_opcode (self ⦃ ext_hdr_len := ext_hdr_len self + more ⦄);
          if (continue : bool) then recv_rest self else Ret self
    end.

Definition handle_hdrext (self : nn_sws) : outcome nn_sws :=
  _ ← check (ext_hdr_len self >? 0);
  let mask_at off := if masked self then Some off else None in
  if (payload_ctl self >? NN_SWS_PAYLOAD_MAX_LENGTH) && negb (payload_ctl self =? NN_SWS_PAYLOAD_FRAME_16) &&
     negb (payload_ctl self =? NN_SWS_PAYLOAD_FRAME_63) then
    nn_sws_fail_conn self NN_SWS_CLOSE_ERR_PROTO (str "Invalid payload length.")
  else
    '(len, m) ←
      (if payload_ctl self <=? NN_SWS_PAYLOAD_MAX_LENGTH then
         Ret (payload_ctl self, mask_at NN_SWS_FRAME_SIZE_INITIAL)
       else if payload_ctl self =? NN_SWS_PAYLOAD_FRAME_16 then
         len ← nn_gets (drop (Z.to_nat NN_SWS_FRAME_SIZE_INITIAL) (inhdr self));
         Ret (len, mask_at (NN_SWS_FRAME_SIZE_INITIAL + NN_SWS_FRAME_SIZE_PAYLOAD_16))
       else
         len ← nn_getll (drop (Z.to_nat NN_SWS_FRAME_SIZE_INITIAL) (inhdr self));
         Ret (len, mask_at (NN_SWS_FRAME_SIZE_INITIAL + NN_SWS_FRAME_SIZE_PAYLOAD_63)));
    let self := self ⦃ inmsg_current_chunk_len := len ⦄ ⦃ mask := m ⦄ in
    if inmsg_current_chunk_len self =? 0 then
      if is_final_frame self then
        if opcode self =? NN_WS_OPCODE_CLOSE then nn_sws_acknowledge_close_handshake self
        else pipe_received (self ⦃ instate := if is_control_frame self then RECVD_CONTROL else RECVD_CHUNKED ⦄)
      else nn_sws_recv_hdr self
    else recv_payload self (str "Message size exceeds limit.").

(** Unmasking, where the client that sent the frame masked it. *)
Definition unmask (self : nn_sws) : outcome nn_sws :=
  if masked self then
    off ← match mask self with Some off => Ret off | None => Undef end;
    key ← read_at (inhdr self) off NN_SWS_FRAME_SIZE_MASK;
    data ← payload self;
    '(data, _) ← nn_sws_mask_payload data key None;
    store_buf self (inmsg_current_chunk_buf self) data
  else Ret self.

Definition handle_payload (self : nn_sws) : outcome nn_sws :=
  self ← unmask self;
  if opcode self =? NN_WS_OPCODE_TEXT then nn_sws_validate_utf8_chunk self
  else if opcode self =? NN_WS_OPCODE_BINARY then chunk_done self
  else if opcode self =? NN_WS_OPCODE_FRAGMENT then
    if Z.land (inmsg_hdr self) NN_SWS_FRAME_BITMASK_OPCODE =? NN_WS_OPCODE_TEXT
    then nn_sws_validate_utf8_chunk self else chunk_done self
  else if (opcode self =? NN_WS_OPCODE_PING) || (opcode self =? NN_WS_OPCODE_PONG) then
    pipe_received (self ⦃ instate := RECVD_CONTROL ⦄)
  else if opcode self =? NN_WS_OPCODE_CLOSE then nn_sws_acknowledge_close_handshake self
  else Abort.

Definition handle_received (self : nn_sws) : outcome nn_sws :=
  match instate self with
  | RECV_HDR => handle_hdr self
  | RECV_HDREXT => handle_hdrext self
  | RECV_PAYLOAD => handle_payload self
  | _ => Abort
  end.

(** ** Receiving a message from the pipe *)

(** The transport headers of a received message: one property, the opcode; the
    padding is not initialised. *)
Definition opcode_hdrs (opcode_hdr : Z) (junk : list Z) : list Z :=
  le_digits 8 (NN_CMSG_SPACE 1) ++ le_digits 4 (u32 NN_WS) ++ le_digits 4 NN_WS_MSG_TYPE ++ [opcode_hdr] ++ junk.

(** The chunks are copied one behind the other. *)
Fixpoint reassemble (data : list Z) (pos : Z) (chunks : list (list Z)) : outcome (list Z * Z) :=
  match chunks with
  | [] => Ret (data, pos)
  | ch :: chunks => data ← write_at data pos ch; reassemble data (u64 (pos + size ch)) chunks
  end.

Definition final_opcode (self : nn_sws) (opcode_hdr : Z) (o1 o2 : Z) : outcome Z :=
  _ ← check (is_final_frame self);
  _ ← check (is_set opcode_hdr NN_SWS_FRAME_BITMASK_FIN);
  let opcode_hdr := Z.land opcode_hdr (Z.lnot NN_SWS_FRAME_BITMASK_FIN) in
  let opcode := Z.land opcode_hdr NN_SWS_FRAME_BITMASK_OPCODE in
  _ ← check ((opcode =? o1) || (opcode =? o2));
  Ret opcode_hdr.

Definition nn_sws_recv (self : nn_sws) (junk : list Z) : outcome (nn_sws * ws_message) :=
  _ ← assert_state self ACTIVE;
  '(self, opcode_hdr, data) ←
    match instate self with
    | RECVD_CHUNKED =>
        opcode_hdr ← final_opcode self (inmsg_hdr self) NN_WS_OPCODE_BINARY NN_WS_OPCODE_TEXT;
        data ← nn_chunkref_init (inmsg_total_size self);
        '(data, pos) ← reassemble data 0 (inmsg_array self);
        _ ← check (pos =? inmsg_total_size self);
        self ← nn_sws_recv_hdr ((nn_msg_array_term self) ⦃ continuing := false ⦄);
        Ret (self, opcode_hdr, data)
    | RECVD_CONTROL =>
        b0 ← nth_c (inhdr self) 0;
        opcode_hdr ← final_opcode self b0 NN_WS_OPCODE_PING NN_WS_OPCODE_PONG;
        data ← nn_chunkref_init (inmsg_current_chunk_len self);
        control ← read_at (inmsg_control self) 0 (inmsg_current_chunk_len self);
        data ← write_at data 0 control;
        self ← nn_sws_recv_hdr self;
        Ret (self, opcode_hdr, data)
    | _ => Abort
    end;
  Ret (self, WsMessage (opcode_hdrs opcode_hdr junk) data).

(** The socket has received what was asked for. *)
Definition usock_fill (self : nn_sws) (data : list Z) : outcome nn_sws :=
  match rx self with
  | Some (dst, len) =>
      if negb (size data =? len) then Undef else
      let self := self ⦃ rx := None ⦄ in
      match dst with
      | RxInhdr off => hdr ← write_at (inhdr self) off data; Ret (self ⦃ inhdr := hdr ⦄)
      | RxPayload buf => store_buf self buf data
      end
  | None => Undef
  end.

(** ** The state machine *)

  (** What the handshake depends on (see WsHandshake.v), and what the core
      answers when the session offers it a pipe. *)
  Context (local : Z) (ispeer : Z -> bool) (le : bool) (hash_junk rand_key : list Z) (sock_add : Z).

Definition handshake_stop (self : nn_sws) : outcome nn_sws :=
  hs ← WsHandshake.nn_ws_handshake_stop local ispeer le hash_junk rand_key (handshaker self);
  Ret (self ⦃ handshaker := hs ⦄).

Definition handle_idle (self : nn_sws) (src type : Z) : outcome nn_sws :=
  if (src =? NN_FSM_ACTION) && (type =? NN_FSM_START) then
    hs ← WsHandshake.nn_ws_handshake_start local ispeer le hash_junk rand_key (handshaker self) (mode self)
           (resource self) (remote_host self);
    Ret (self ⦃ handshaker := hs ⦄ ⦃ state := HANDSHAKE ⦄)
  else Abort.

Definition handle_handshake (self : nn_sws) (src type : Z) : outcome nn_sws :=
  if src =? NN_SWS_SRC_HANDSHAKE then
    if type =? NN_WS_HANDSHAKE_OK then
      self ← handshake_stop self;
      Ret (self ⦃ state := STOPPING_HANDSHAKE ⦄)
    else if type =? NN_WS_HANDSHAKE_ERROR then
      raise_done (self ⦃ state := DONE ⦄) NN_SWS_RETURN_CLOSE_HANDSHAKE
    else Abort
  else Abort.

Definition handle_stopping_handshake (self : nn_sws) (src type : Z) : outcome nn_sws :=
  if (src =? NN_SWS_SRC_HANDSHAKE) && (type =? NN_WS_HANDSHAKE_STOPPED) then
    '(_, p, rc, _) ← Pipe.nn_pipebase_start (pipebase self) (fun _ => Ret (tt, sock_add));
    let self := self ⦃ pipebase := p ⦄ in
    if rc <? 0 then raise_done (self ⦃ state := DONE ⦄) NN_SWS_RETURN_ERROR else
    self ← nn_sws_recv_hdr self;
    Ret (self ⦃ outstate := OUTSTATE_IDLE ⦄ ⦃ state := ACTIVE ⦄)
  else Abort.

Definition handle_sent (self : nn_sws) (m : memory) : outcome (memory * nn_sws) :=
  _ ← check (bool_decide (outstate self = OUTSTATE_SENDING));
  m ← nn_msg_term m (outmsg self);
  m ← nn_msg_init m (Chunk.Allocation None []) (outmsg self) 0;
  self ← pipe_sent (self ⦃ outstate := OUTSTATE_IDLE ⦄);
  Ret (m, self).

Definition handle_active (self : nn_sws) (m : memory) (src type : Z) : outcome (memory * nn_sws) :=
  if src =? NN_SWS_SRC_USOCK then
    if type =? NN_USOCK_SENT then handle_sent self m
    else if type =? NN_USOCK_RECEIVED then self ← handle_received self; Ret (m, self)
    else if type =? NN_USOCK_SHUTDOWN then
      self ← pipe_stop self;
      Ret (m, self ⦃ state := BROKEN_CONNECTION ⦄)
    else if type =? NN_USOCK_ERROR then
      self ← pipe_stop self;
      self ← raise_done (self ⦃ state := DONE ⦄) NN_SWS_RETURN_ERROR;
      Ret (m, self)
    else Abort
  else Abort.

Definition handle_closing (self : nn_sws) (src type : Z) : outcome nn_sws :=
  if src =? NN_SWS_SRC_USOCK then
    if type =? NN_USOCK_SENT then
      _ ← check (bool_decide (outstate self = OUTSTATE_SENDING));
      raise_done (self ⦃ outstate := OUTSTATE_IDLE ⦄ ⦃ state := DONE ⦄) NN_SWS_RETURN_CLOSE_HANDSHAKE
    else if type =? NN_USOCK_SHUTDOWN then Ret self
    else if type =? NN_USOCK_ERROR then raise_done (self ⦃ state := DONE ⦄) NN_SWS_RETURN_ERROR
    else Abort
  else Abort.

Definition handle_broken (self : nn_sws) (src type : Z) : outcome nn_sws :=
  if (src =? NN_SWS_SRC_USOCK) && (type =? NN_USOCK_ERROR) then raise_done (self ⦃ state := DONE ⦄) NN_SWS_RETURN_ERROR
  else Abort.

Definition nn_sws_handler (self : nn_sws) (m : memory) (src type : Z) : outcome (memory * nn_sws) :=
  let same o := self ← o; Ret (m, self) in
  match state self with
  | SWS_IDLE => same (handle_idle self src type)
  | HANDSHAKE => same (handle_handshake self src type)
  | STOPPING_HANDSHAKE => same (handle_stopping_handshake self src type)
  | ACTIVE => handle_active self m src type
  | CLOSING_CONNECTION => same (handle_closing self src type)
  | BROKEN_CONNECTION => same (handle_broken self src type)
  | DONE | STOPPING => Abort
  end.

Definition nn_sws_shutdown (self : nn_sws) (src type : Z) : outcome nn_sws :=
  self ← (if (src =? NN_FSM_ACTION) && (type =? NN_FSM_STOP) then
            self ← pipe_stop self;
            self ← handshake_stop self;
            Ret (self ⦃ state := STOPPING ⦄)
          else Ret self);
  if decide (state self = STOPPING) then
    if WsHandshake.nn_ws_handshake_isidle (handshaker self) then
      let self := self ⦃ usock := false ⦄ ⦃ state := SWS_IDLE ⦄ in
      f ← nn_fsm_stopped (sfsm self) NN_SWS_RETURN_STOPPED;
      Ret (self ⦃ sfsm := f ⦄)
    else Ret self
  else Abort.

(** The session, with the memory its messages are in, as a state machine. *)
Definition session : FsmObject (memory * nn_sws) := {|
  fsm s := sfsm (snd s);
  with_fsm s f := (fst s, (snd s) ⦃ sfsm := f ⦄);
  fn s src type _ := nn_sws_handler (snd s) (fst s) src type;
  shutdown_fn s src type _ := self ← nn_sws_shutdown (snd s) src type; Ret (fst s, self)
|}.

Definition nn_sws_start (self : nn_sws) (m : memory) (md : Z) (res host : list Z) (mt : Z) : outcome (memory * nn_sws) :=
  _ ← check (negb (usock self));
  nn_fsm_start (H := session)
    (m, self ⦃ usock := true ⦄ ⦃ mode := md ⦄ ⦃ resource := res ⦄ ⦃ remote_host := host ⦄ ⦃ msg_type := mt ⦄).

Definition nn_sws_stop (self : nn_sws) (m : memory) : outcome (memory * nn_sws) := nn_fsm_stop (H := session) (m, self).

(** The socket below: a receive that is done, a send that is done. *)
Definition usock_received (self : nn_sws) (m : memory) (data : list Z) : outcome (memory * nn_sws) :=
  self ← usock_fill self data;
  nn_fsm_feed (H := session) (m, self) NN_SWS_SRC_USOCK NN_USOCK_RECEIVED 0.

Definition usock_sent (self : nn_sws) (m : memory) : outcome (memory * nn_sws) :=
  nn_fsm_feed (H := session) (m, self ⦃ tx := None ⦄) NN_SWS_SRC_USOCK NN_USOCK_SENT 0.

(** The handshake's events are the session's. *)
Definition handshake_event (self : nn_sws) (m : memory) : outcome (memory * nn_sws) :=
  let f := WsHandshake.hfsm (handshaker self) in
  match raised f with
  | [] => Ret (m, self)
  | (_, type) :: rest =>
      let hs := WsHandshake.with_hfsm (handshaker self) (Fsm (fsm_st f) rest) in
      nn_fsm_feed (H := session) (m, self ⦃ handshaker := hs ⦄) NN_SWS_SRC_HANDSHAKE type 0
  end.

(** The peer's bytes, as long as the session asks for them; the bytes it has not
    asked for. *)
Fixpoint feed (fuel : nat) (self : nn_sws) (m : memory) (stream : list Z) : outcome (memory * nn_sws * list Z) :=
  match rx self with
  | None => Ret (m, self, stream)
  | Some (_, len) =>
      if size stream <? len then Ret (m, self, stream) else
      match fuel with
      | O => NoFuel
      | S fuel =>
          '(m, self) ← usock_received self m (take (Z.to_nat len) stream);
          feed fuel self m (drop (Z.to_nat len) stream)
      end
  end.

(** [nn_pipe_recv] of core/pipe.c over the session: nothing is ever at hand at
    once. *)
Definition pipe_recv (self : nn_sws) (junk : list Z) : outcome (nn_sws * ws_message) :=
  '(self, msg) ← nn_sws_recv self junk;
  '(p, _, msg) ← Pipe.nn_pipe_recv (pipebase self) (Pipe.Answer 0 false msg);
  Ret (self ⦃ pipebase := p ⦄, msg).

End inbound.

(** ** Sending a message to the pipe *)

(** The opcode byte: of the message's headers, or the one of the option. *)
Definition send_opcode (self : nn_sws) (data : list Z) : outcome Z :=
  cmsg ← (if size data >? 0 then
            first ← NN_CMSG_FIRSTHDR data;
            find_cmsg (length data) NN_WS NN_WS_MSG_TYPE data first
          else Ret None);
  match cmsg with
  | Some c => nth_c data (NN_CMSG_DATA c)
  | None => Ret (msg_type self)
  end.

(** Opcode, length and, for a client, the mask; the header and its length. *)
Definition frame_header (self : nn_sws) (opcode nn_msg_size : Z) (rand_mask : list Z) : outcome (list Z * Z) :=
  hdr ← upd_c (replicate (Z.to_nat NN_SWS_FRAME_MAX_HDR_LEN) 0) 0 (Z.lor opcode NN_SWS_FRAME_BITMASK_FIN);
  let hdr_len := NN_SWS_FRAME_SIZE_INITIAL in
  '(hdr, hdr_len, b1) ←
    (if nn_msg_size <=? NN_SWS_PAYLOAD_MAX_LENGTH then
       Ret (hdr, hdr_len + NN_SWS_FRAME_SIZE_PAYLOAD_0, u8 nn_msg_size)
     else if nn_msg_size <=? NN_SWS_PAYLOAD_MAX_LENGTH_16 then
       len ← nn_puts [0; 0] (u16 nn_msg_size);
       hdr ← write_at hdr hdr_len len;
       Ret (hdr, hdr_len + NN_SWS_FRAME_SIZE_PAYLOAD_16, NN_SWS_PAYLOAD_FRAME_16)
     else
       len ← nn_putll [0; 0; 0; 0; 0; 0; 0; 0] (u64 nn_msg_size);
       hdr ← write_at hdr hdr_len len;
       Ret (hdr, hdr_len + NN_SWS_FRAME_SIZE_PAYLOAD_63, NN_SWS_PAYLOAD_FRAME_63));
  if mode self =? NN_WS_CLIENT then
    hdr ← upd_c hdr 1 (Z.lor b1 NN_SWS_FRAME_BITMASK_MASKED);
    hdr ← write_at hdr hdr_len rand_mask;
    Ret (hdr, hdr_len + NN_SWS_FRAME_SIZE_MASK)
  else if mode self =? NN_WS_SERVER then
    hdr ← upd_c hdr 1 (Z.lor b1 NN_SWS_FRAME_BITMASK_NOT_MASKED);
    Ret (hdr, hdr_len)
  else Abort.

(** A chunk masked where it is. *)
Definition mask_chunk (m : memory) (ref : Chunk.cref) (rand_mask : list Z) (pos : option Z) : outcome (memory * option Z) :=
  d ← nn_chunkref_data m ref;
  len ← nn_chunkref_size m ref;
  data ← load_data m d 0 len;
  '(data, pos) ← nn_sws_mask_payload data rand_mask pos;
  m ← store_data m d 0 data;
  Ret (m, pos).

Definition mask_message (m : memory) (msg : loc) (rand_mask : list Z) : outcome memory :=
  '(m, pos) ← mask_chunk m (msg, Chunk.Sphdr) rand_mask (Some 0);
  '(m, _) ← mask_chunk m (msg, Chunk.Body) rand_mask pos;
  Ret m.

Definition chunk_iov (m : memory) (ref : Chunk.cref) : outcome nn_iovec :=
  d ← nn_chunkref_data m ref;
  len ← nn_chunkref_size m ref;
  Ret (IovData d len).

(** [msg] is the caller's message; the mask is what [nn_random_generate] gives. *)
Definition nn_sws_send (self : nn_sws) (m : memory) (msg : loc) (rand_mask : list Z) : outcome (memory * nn_sws) :=
  _ ← assert_state self ACTIVE;
  _ ← check (bool_decide (outstate self = OUTSTATE_IDLE));
  m ← nn_msg_term m (outmsg self);
  m ← nn_msg_mv m (outmsg self) msg;
  d ← nn_chunkref_data m (outmsg self, Chunk.Hdrs);
  hdrs_len ← nn_chunkref_size m (outmsg self, Chunk.Hdrs);
  data ← load_data m d 0 hdrs_len;
  opcode ← send_opcode self data;
  sphdr_len ← nn_chunkref_size m (outmsg self, Chunk.Sphdr);
  body_len ← nn_chunkref_size m (outmsg self, Chunk.Body);
  '(hdr, hdr_len) ← frame_header self opcode (u64 (sphdr_len + body_len)) rand_mask;
  m ← (if mode self =? NN_WS_CLIENT then mask_message m (outmsg self) rand_mask else Ret m);
  iov1 ← chunk_iov m (outmsg self, Chunk.Sphdr);
  iov2 ← chunk_iov m (outmsg self, Chunk.Body);
  let self := self ⦃ outhdr := hdr ⦄ in
  Ret (m, (nn_usock_send self [IovOuthdr hdr_len; iov1; iov2]) ⦃ outstate := OUTSTATE_SENDING ⦄).

(** The bytes the socket reads from the buffers when it sends. *)
Definition gather_one (self : nn_sws) (m : memory) (v : nn_iovec) : outcome (list Z) :=
  match v with
  | IovOuthdr len => read_at (outhdr self) 0 len
  | IovFail len => read_at (fail_msg self) 0 len
  | IovData d len => load_data m d 0 len
  end.

Fixpoint gather (self : nn_sws) (m : memory) (iov : list nn_iovec) : outcome (list Z) :=
  match iov with
  | [] => Ret []
  | v :: iov => bs ← gather_one self m v; rest ← gather self m iov; Ret (bs ++ rest)
  end.
