(* ===== verification/SwsSpec.v ===== *)
(** * SwsSpec: what a WebSocket session does with its peer's bytes

    [inbound_safe] is the safety of the inbound part of Sws.v for every stream of
    bytes; [sws_round_trip] says that two sessions understand each other;
    [sws_weaknesses] shows what goes wrong. *)

From Stdlib Require Import String.
From stdpp Require Import base gmap list.
From Stdlib Require Import ZArith Lia.
From S2P Require Import Prelude.
From S2P Require Import Update.
From S2P Require Import Wire.
From S2P Require Import Message.
From S2P Require Import Fsm.
From S2P Require Import Utf8.
From S2P Require Import Cmsg.
From S2P Require Chunk.
From S2P Require ChunkSpec.
From S2P Require Pipe.
From S2P Require WsHandshake.
From S2P Require Import Sws.
Import WsHandshake (str, is_nil, NN_WS_CLIENT, NN_WS_SERVER, NN_USOCK_RECEIVED).
Import Chunk (memory, read_at, write_at).

Open Scope Z_scope.

(** ** Results that are not undefined *)

(** A result that satisfies [P], or a failed assertion in the case [C]. *)
Definition safe {A} (P : A -> Prop) (C : Prop) (o : outcome A) : Prop :=
  match o with Ret a => P a | Abort => C | Undef | NoFuel => False end.

Lemma safe_bind {A B} (P : A -> Prop) (Q : B -> Prop) C m (f : A -> outcome B) :
  safe P C m -> (forall a, P a -> safe Q C (f a)) -> safe Q C (m ≫= f).
Proof. destruct m; cbn; auto. Qed.

Lemma safe_mono {A} (P Q : A -> Prop) (C D : Prop) o :
  safe P C o -> (forall a, P a -> Q a) -> (C -> D) -> safe Q D o.
Proof. destruct o; cbn; auto. Qed.

Lemma safe_check {B} (Q : B -> Prop) C b (f : unit -> outcome B) :
  b = true -> safe Q C (f tt) -> safe Q C (check b ≫= f).
Proof. by intros ->. Qed.

(** Array access inside the bounds. *)
Lemma nth_in l i : 0 <= i < size l -> exists x, nth_c l i = Ret x /\ l !! Z.to_nat i = Some x.
Proof.
  unfold size. intros Hi. destruct (lookup_lt_is_Some_2 l (Z.to_nat i)) as [x Hx]; [lia|].
  exists x. split; [by apply nth_c_Z; [lia|]|done].
Qed.

Lemma write_in m o bs : 0 <= o -> o + size bs <= size m -> exists m', write_at m o bs = Ret m' /\ length m' = length m.
Proof.
  intros Ho Hs. unfold write_at. rewrite (proj2 (Z.leb_le _ _) Ho), (proj2 (Z.leb_le _ _) Hs).
  eexists. split; [done|]. rewrite !length_app, length_take, length_drop. unfold size in *. lia.
Qed.

Lemma read_in m o n : 0 <= o -> 0 <= n -> o + n <= size m ->
  exists bs, read_at m o n = Ret bs /\ size bs = n /\ bs = take (Z.to_nat n) (drop (Z.to_nat o) m).
Proof.
  intros Ho Hn Hs. unfold read_at. rewrite (proj2 (Z.leb_le _ _) Ho), (proj2 (Z.leb_le _ _) Hs).
  eexists. split; [done|]. split; [|done]. unfold size in *. rewrite length_take, length_drop. lia.
Qed.

Lemma upd_in (l : list Z) i v : 0 <= i < size l -> exists l', upd_c l i v = Ret l' /\ length l' = length l.
Proof.
  unfold upd_c, size. intros Hi. rewrite (proj2 (Z.leb_le _ _)), (proj2 (Z.ltb_lt _ _)) by lia.
  eexists. split; [done|]. by rewrite length_insert.
Qed.

Lemma mask_in key i data : size key = 4 -> exists out, mask_bytes key i data = Ret out /\ length out = length data.
Proof.
  intros Hk. revert i. induction data as [|b data IH]; intros i; [by exists []|]. cbn [mask_bytes].
  destruct (nth_in key (i mod size key)) as (x & -> & _). { rewrite Hk. lia. }
  rewrite bind_of_Ret. destruct (IH (i + 1)) as (out & -> & Hl). rewrite bind_of_Ret.
  eexists. split; [done|]. cbn. lia.
Qed.

Lemma mask_payload_in key data :
  size key = 4 -> size data < 2 ^ 32 ->
  exists out, nn_sws_mask_payload data key None = Ret (out, None) /\ length out = length data.
Proof.
  intros Hk Hd. unfold nn_sws_mask_payload. rewrite Z.geb_leb, (proj2 (Z.leb_gt _ _)) by done.
  destruct (mask_in key 0 data Hk) as (out & -> & Hl). by exists out.
Qed.

Lemma write_bytes m o bs m' : write_at m o bs = Ret m' -> bytes m -> bytes bs -> bytes m'.
Proof.
  unfold write_at. intros H Hm Hbs. destruct (_ && _)%bool; [|done]. injection H as <-.
  apply Forall_app; split; [by apply Forall_take|]. apply Forall_app; split; [done|by apply Forall_drop].
Qed.

(** ** The invariant *)

Fixpoint sum_sizes (chunks : list (list Z)) : Z :=
  match chunks with [] => 0 | data :: chunks => size data + sum_sizes chunks end.

Lemma sum_sizes_app l1 l2 : sum_sizes (l1 ++ l2) = sum_sizes l1 + sum_sizes l2.
Proof. induction l1 as [|d l1 IH]; cbn [sum_sizes app]; lia. Qed.

Lemma sum_sizes_insert l i d d' : l !! i = Some d -> length d' = length d -> sum_sizes (<[i := d']> l) = sum_sizes l.
Proof.
  revert i. induction l as [|x l IH]; intros [|i] Hi Hl; [done..| |].
  - injection Hi as ->. cbn. unfold size. by rewrite Hl.
  - change (size x + sum_sizes (<[i := d']> l) = size x + sum_sizes l). by rewrite (IH i).
Qed.

Lemma sum_sizes_nonneg l : 0 <= sum_sizes l.
Proof. induction l as [|d l IH]; cbn [sum_sizes]; [done|]. pose proof (size_nonneg d). lia. Qed.

Lemma sum_sizes_member l i d : l !! i = Some d -> size d <= sum_sizes l.
Proof.
  revert i. induction l as [|x l IH]; intros [|i] Hi; [done..| |]; cbn [sum_sizes].
  - injection Hi as ->. pose proof (sum_sizes_nonneg l). lia.
  - specialize (IH i Hi). pose proof (size_nonneg x). lia.
Qed.

(** Lengths in a header. *)
Lemma gets_in l : (2 <= length l)%nat -> bytes l -> exists v, nn_gets l = Ret v /\ 0 <= v < 2 ^ 16.
Proof.
  intros Hl Hb. destruct l as [|b0 [|b1 l]]; [cbn in Hl; lia..|]. apply (Forall_take _ 2) in Hb. cbn [take] in Hb.
  rewrite gets_be by done. eexists. split; [done|]. by apply (be_range [b0; b1] 0 0).
Qed.

Lemma getll_in l : (8 <= length l)%nat -> bytes l -> exists v, nn_getll l = Ret v /\ 0 <= v < 2 ^ 64.
Proof.
  intros Hl Hb. destruct l as [|b0 [|b1 [|b2 [|b3 [|b4 [|b5 [|b6 [|b7 l]]]]]]]]; [cbn in Hl; lia..|].
  apply (Forall_take _ 8) in Hb. cbn [take] in Hb.
  rewrite getll_be by done. eexists. split; [done|]. by apply (be_range [b0; b1; b2; b3; b4; b5; b6; b7] 0 0).
Qed.

(** The first header of a message says TEXT or BINARY, and that it is final. *)
Definition msg_ok (hdr : Z) : Prop :=
  is_set hdr NN_SWS_FRAME_BITMASK_FIN = true /\
  (Z.land hdr NN_SWS_FRAME_BITMASK_OPCODE = NN_WS_OPCODE_TEXT \/ Z.land hdr NN_SWS_FRAME_BITMASK_OPCODE = NN_WS_OPCODE_BINARY).

(** What does not depend on how much of a frame is there. *)
Record still (max : Z) (self : nn_sws) : Prop := {
  st_inhdr : length (inhdr self) = 14%nat; st_bytes : bytes (inhdr self);
  st_control : length (inmsg_control self) = 125%nat; st_fail : length (fail_msg self) = 125%nat;
  st_frag : length (utf8_code_pt_fragment self) = 4%nat; st_flen : 0 <= utf8_code_pt_fragment_len self <= 3;
  st_mode : mode self = NN_WS_CLIENT \/ mode self = NN_WS_SERVER;
  st_active : state self = ACTIVE; st_fsm : fsm_st (sfsm self) = FSM_ACTIVE;
  st_done : nn_fsm_event_active (sfsm self) EV_DONE = false;
  st_total : inmsg_total_size self = sum_sizes (inmsg_array self) /\ inmsg_total_size self <= max;
  st_msg : continuing self = true -> msg_ok (inmsg_hdr self)
}.

(** A message is in the array only while it is received. *)
Definition between (self : nn_sws) : Prop := continuing self = false -> inmsg_array self = [].

(** The frame that is being received, as its first two bytes say. *)
Record frame_ok (self : nn_sws) : Prop := {
  fr_hdr : exists b0, inhdr self !! 0%nat = Some b0 /\ Z.land b0 NN_SWS_FRAME_BITMASK_OPCODE = opcode self /\
    is_set b0 NN_SWS_FRAME_BITMASK_FIN = is_final_frame self;
  fr_ctl : 0 <= payload_ctl self <= 127;
  fr_kind : if is_control_frame self
    then is_final_frame self = true /\ payload_ctl self <= 125 /\ between self /\
         (opcode self = NN_WS_OPCODE_PING \/ opcode self = NN_WS_OPCODE_PONG \/ opcode self = NN_WS_OPCODE_CLOSE)
    else continuing self = negb (is_final_frame self) /\ msg_ok (inmsg_hdr self) /\
         (opcode self = NN_WS_OPCODE_TEXT \/ opcode self = NN_WS_OPCODE_BINARY \/ opcode self = NN_WS_OPCODE_FRAGMENT)
}.

(** Bytes of the extended length. *)
Definition length_bytes (payload_ctl : Z) : Z :=
  if payload_ctl <=? 125 then 0 else if payload_ctl =? 126 then 2 else 8.

Definition buf_ok (self : nn_sws) : Prop :=
  if is_control_frame self
  then inmsg_current_chunk_buf self = BufControl /\ 0 <= inmsg_current_chunk_len self <= 125
  else exists i data, inmsg_current_chunk_buf self = BufChunk i /\ inmsg_array self !! i = Some data /\
         inmsg_current_chunk_len self = size data.

Definition mask_ok (self : nn_sws) : Prop :=
  masked self = true -> exists off, mask self = Some off /\ 0 <= off /\ off + 4 <= 14.

Inductive phase (self : nn_sws) : Prop :=
| ph_hdr :
    instate self = RECV_HDR -> Pipe.instate (pipebase self) = Pipe.IN_ASYNC -> between self ->
    rx self = Some (RxInhdr 0, 2) -> phase self
| ph_hdrext :
    instate self = RECV_HDREXT -> Pipe.instate (pipebase self) = Pipe.IN_ASYNC -> frame_ok self ->
    0 < ext_hdr_len self -> ext_hdr_len self = (if masked self then 4 else 0) + length_bytes (payload_ctl self) ->
    (opcode self = NN_WS_OPCODE_CLOSE -> payload_ctl self <> 1) ->
    rx self = Some (RxInhdr 2, ext_hdr_len self) -> phase self
| ph_payload :
    instate self = RECV_PAYLOAD -> Pipe.instate (pipebase self) = Pipe.IN_ASYNC -> frame_ok self -> buf_ok self ->
    mask_ok self -> 0 < inmsg_current_chunk_len self ->
    (opcode self = NN_WS_OPCODE_CLOSE -> 2 <= inmsg_current_chunk_len self) ->
    rx self = Some (RxPayload (inmsg_current_chunk_buf self), inmsg_current_chunk_len self) -> phase self
| ph_chunked :
    instate self = RECVD_CHUNKED -> Pipe.instate (pipebase self) = Pipe.IN_IDLE -> is_final_frame self = true ->
    msg_ok (inmsg_hdr self) -> rx self = None -> phase self
| ph_control :
    instate self = RECVD_CONTROL -> Pipe.instate (pipebase self) = Pipe.IN_IDLE -> frame_ok self ->
    is_control_frame self = true -> opcode self <> NN_WS_OPCODE_CLOSE -> 0 <= inmsg_current_chunk_len self <= 125 ->
    rx self = None -> phase self.

(** The connection was failed: a close frame is being sent, or the owner was told. *)
Definition failed (self : nn_sws) : Prop :=
  (state self = CLOSING_CONNECTION \/ state self = DONE) /\ instate self = CLOSED /\ rx self = None.

Definition inv (max : Z) (self : nn_sws) : Prop := (still max self /\ phase self) \/ failed self.

Create HintDb sws discriminated.
#[local] Hint Resolve st_inhdr st_bytes st_control st_fail st_frag st_flen st_mode st_active st_fsm st_done st_total st_msg : sws.

Section inbound.
  Context (alloc : Z -> option (list Z)) (rand_mask : list Z) (max : Z).

  (** The allocator returns what it was asked for, and not more than half of the
      address space. *)
  Hypothesis alloc_size : forall n data, alloc n = Some data -> size data = n /\ n < 2 ^ 63.
  Hypothesis alloc_small : forall n, 0 <= n <= Z.max max 125 -> is_Some (alloc n).
  Hypothesis rand_size : size rand_mask = 4.
  Hypothesis max_int : 0 <= max < 2 ^ 31.

(** *** Failing the connection *)

Lemma close_frame_safe self code reason :
  length (fail_msg self) = 125%nat -> (mode self = NN_WS_CLIENT \/ mode self = NN_WS_SERVER) -> size reason <= 117 ->
  exists msg len, close_frame rand_mask self code reason = Ret (self ⦃ fail_msg := msg ⦄ ⦃ fail_msg_len := len ⦄) /\
    length msg = 125%nat.
Proof.
  intros Hf Hm Hr. unfold close_frame. pose proof (size_nonneg reason) as Hr0.
  assert (Hsz : forall l : list Z, length l = 125%nat -> size l = 125) by (unfold size; lia).
  rewrite (proj2 (Z.leb_le _ _)) by (unfold NN_SWS_CLOSE_CODE_LEN, NN_SWS_PAYLOAD_MAX_LENGTH; lia).
  cbn [check]. rewrite bind_of_Ret.
  edestruct (upd_in (fail_msg self) 0) as (m1 & -> & H1); [rewrite (Hsz _ Hf); lia|]. rewrite bind_of_Ret.
  edestruct (upd_in m1 1) as (m2 & -> & H2); [rewrite (Hsz m1); lia|]. rewrite bind_of_Ret.
  assert (H12 : length m2 = 125%nat) by lia.
  destruct (nn_puts [0; 0] (u16 code)) as [cd| | |] eqn:Ec; try discriminate Ec.
  assert (Hcd : size cd = 2) by (unfold nn_puts in Ec; injection Ec as <-; done).
  destruct Hm as [Hm|Hm]; rewrite Hm.
  - change (NN_WS_CLIENT =? NN_WS_SERVER) with false. change (NN_WS_CLIENT =? NN_WS_CLIENT) with true. cbv iota.
    edestruct (upd_in m2 1) as (m3 & -> & H3); [rewrite (Hsz m2); lia|]. rewrite bind_of_Ret.
    edestruct (write_in m3 NN_SWS_FRAME_SIZE_INITIAL rand_mask) as (m4 & -> & H4);
      [unfold NN_SWS_FRAME_SIZE_INITIAL; lia|rewrite (Hsz m3) by lia; unfold NN_SWS_FRAME_SIZE_INITIAL; lia|].
    rewrite !bind_of_Ret.
    edestruct (write_in m4 (NN_SWS_FRAME_SIZE_INITIAL + NN_SWS_FRAME_SIZE_MASK) cd) as (m5 & -> & H5);
      [unfold NN_SWS_FRAME_SIZE_INITIAL, NN_SWS_FRAME_SIZE_MASK; lia|
       rewrite (Hsz m4) by lia; unfold NN_SWS_FRAME_SIZE_INITIAL, NN_SWS_FRAME_SIZE_MASK; lia|].
    rewrite bind_of_Ret.
    edestruct (write_in m5 (NN_SWS_FRAME_SIZE_INITIAL + NN_SWS_FRAME_SIZE_MASK + NN_SWS_CLOSE_CODE_LEN) reason)
      as (m6 & -> & H6);
      [unfold NN_SWS_FRAME_SIZE_INITIAL, NN_SWS_FRAME_SIZE_MASK, NN_SWS_CLOSE_CODE_LEN; lia|
       rewrite (Hsz m5) by lia; unfold NN_SWS_FRAME_SIZE_INITIAL, NN_SWS_FRAME_SIZE_MASK, NN_SWS_CLOSE_CODE_LEN; lia|].
    rewrite bind_of_Ret.
    edestruct (read_in m6 (NN_SWS_FRAME_SIZE_INITIAL + NN_SWS_FRAME_SIZE_MASK) (size reason + NN_SWS_CLOSE_CODE_LEN))
      as (p & -> & Hp & _);
      [unfold NN_SWS_FRAME_SIZE_INITIAL, NN_SWS_FRAME_SIZE_MASK, NN_SWS_CLOSE_CODE_LEN; try lia..|].
    { rewrite (Hsz m6) by lia. lia. }
    rewrite bind_of_Ret. destruct (mask_payload_in rand_mask p rand_size) as (out & -> & Ho).
    { rewrite Hp. unfold NN_SWS_CLOSE_CODE_LEN. lia. }
    rewrite bind_of_Ret.
    edestruct (write_in m6 (NN_SWS_FRAME_SIZE_INITIAL + NN_SWS_FRAME_SIZE_MASK) out) as (m7 & -> & H7).
    { unfold NN_SWS_FRAME_SIZE_INITIAL, NN_SWS_FRAME_SIZE_MASK. lia. }
    { rewrite (Hsz m6) by lia. unfold NN_SWS_FRAME_SIZE_INITIAL, NN_SWS_FRAME_SIZE_MASK, NN_SWS_CLOSE_CODE_LEN, size in *. lia. }
    rewrite bind_of_Ret. do 2 eexists. split; [done|]. lia.
  - change (NN_WS_SERVER =? NN_WS_SERVER) with true. change (NN_WS_SERVER =? NN_WS_CLIENT) with false. cbv iota.
    edestruct (upd_in m2 1) as (m3 & -> & H3); [rewrite (Hsz m2); lia|]. rewrite !bind_of_Ret.
    edestruct (write_in m3 NN_SWS_FRAME_SIZE_INITIAL cd) as (m5 & -> & H5);
      [unfold NN_SWS_FRAME_SIZE_INITIAL; lia|rewrite (Hsz m3) by lia; unfold NN_SWS_FRAME_SIZE_INITIAL; lia|].
    rewrite bind_of_Ret.
    edestruct (write_in m5 (NN_SWS_FRAME_SIZE_INITIAL + NN_SWS_CLOSE_CODE_LEN) reason) as (m6 & -> & H6);
      [unfold NN_SWS_FRAME_SIZE_INITIAL, NN_SWS_CLOSE_CODE_LEN; lia|
       rewrite (Hsz m5) by lia; unfold NN_SWS_FRAME_SIZE_INITIAL, NN_SWS_CLOSE_CODE_LEN; lia|].
    rewrite !bind_of_Ret. do 2 eexists. split; [done|]. lia.
Qed.

Lemma fail_conn_safe self code reason :
  length (fail_msg self) = 125%nat -> (mode self = NN_WS_CLIENT \/ mode self = NN_WS_SERVER) ->
  state self = ACTIVE -> nn_fsm_event_active (sfsm self) EV_DONE = false -> rx self = None -> size reason <= 117 ->
  exists self', nn_sws_fail_conn rand_mask self code reason = Ret self' /\ failed self'.
Proof.
  intros Hf Hm Ha Hd Hrx Hr. unfold nn_sws_fail_conn, assert_state. rewrite bool_decide_eq_true_2 by done.
  cbn [check]. rewrite bind_of_Ret. unfold pipe_stop, Pipe.nn_pipebase_stop.
  destruct (decide _); cbn [mbind outcome_bind];
  match goal with |- context [close_frame rand_mask ?s code reason] =>
    destruct (close_frame_safe s code reason Hf Hm Hr) as (msg & len & -> & Hl) end;
  rewrite bind_of_Ret; (destruct (decide _); [eexists; split; [done|]; unfold failed; cbn; auto|]);
  unfold raise_done, nn_fsm_raise; cbn; rewrite Hd; cbn; eexists; (split; [done|]); unfold failed; cbn; auto.
Qed.

(** The ways the handlers fail the connection, for an object that is [still]. *)
Lemma fail_safe self code reason :
  still max self -> rx self = None -> size reason <= 117 ->
  exists self', nn_sws_fail_conn rand_mask self code reason = Ret self' /\ inv max self'.
Proof.
  intros Hs Hrx Hr. destruct (fail_conn_safe self code reason) as (self' & -> & Hf); eauto with sws.
  exists self'. split; [done|by right].
Qed.

(** *** The next frame, the end of a message *)

(** What receiving the next header leaves alone. *)
Definition carried (self self' : nn_sws) : Prop :=
  pipebase self' = pipebase self /\ mode self' = mode self /\
  utf8_code_pt_fragment_len self' = utf8_code_pt_fragment_len self.

Lemma recv_hdr_facts self :
  still max self -> between self ->
  exists self', nn_sws_recv_hdr self = Ret self' /\ still max self' /\ instate self' = RECV_HDR /\ between self' /\
    rx self' = Some (RxInhdr 0, 2) /\ carried self self' /\ continuing self' = continuing self.
Proof.
  intros Hs Hb. destruct Hs. unfold nn_sws_recv_hdr.
  assert (Hz : bytes (replicate (Z.to_nat NN_SWS_FRAME_MAX_HDR_LEN) 0)).
  { apply Forall_replicate. unfold is_byte. lia. }
  destruct (continuing self) eqn:Hc; cbn [negb].
  - rewrite bind_of_Ret. eexists. split; [done|]. split; [split; cbn; auto; rewrite Hc; auto|].
    split; [done|]. split; [unfold between; cbn; congruence|]. cbn. by rewrite Hc.
  - rewrite (Hb Hc). cbn [is_nil check]. rewrite !bind_of_Ret. eexists. split; [done|].
    split; [split; cbn; auto|].
    + rewrite (Hb Hc). cbn. lia.
    + rewrite Hc. done.
    + split; [done|]. split; [unfold between; cbn; auto|]. cbn. by rewrite Hc.
Qed.

Lemma recv_hdr_safe self :
  still max self -> Pipe.instate (pipebase self) = Pipe.IN_ASYNC -> between self ->
  exists self', nn_sws_recv_hdr self = Ret self' /\ inv max self'.
Proof.
  intros Hs Hp Hb. destruct (recv_hdr_facts self Hs Hb) as (s & -> & Hs' & Hi & Hb' & Hrx & [Hpi _] & _).
  exists s. split; [done|]. left. split; [done|]. apply ph_hdr; try done. by rewrite Hpi.
Qed.

Lemma pipe_received_async self :
  Pipe.instate (pipebase self) = Pipe.IN_ASYNC ->
  pipe_received self = Ret (self ⦃ pipebase := Pipe.set_in (pipebase self) Pipe.IN_IDLE ⦄).
Proof. intros Hp. unfold pipe_received. by rewrite Pipe.received_async. Qed.

Lemma chunk_done_safe self :
  still max self -> Pipe.instate (pipebase self) = Pipe.IN_ASYNC -> rx self = None ->
  continuing self = negb (is_final_frame self) -> msg_ok (inmsg_hdr self) ->
  exists self', chunk_done self = Ret self' /\ inv max self'.
Proof.
  intros Hs Hp Hrx Hc Hm. unfold chunk_done. destruct (is_final_frame self) eqn:Hf.
  - rewrite pipe_received_async by done. eexists. split; [done|]. left. split; [destruct Hs; split; cbn; auto|].
    by apply ph_chunked.
  - apply recv_hdr_safe; [done..|]. unfold between. rewrite Hc. done.
Qed.

(** *** Text *)

Lemma skip_code_points_ok fuel pos :
  (length pos <= fuel)%nat ->
  exists r, skip_code_points fuel pos = Ret r /\
    match r with
    | None => True
    | Some (cp, rest) => cp = NN_SWS_UTF8_INVALID \/ (cp = NN_SWS_UTF8_FRAGMENT /\ 0 < size rest < 4)
    end.
Proof.
  revert pos. induction fuel as [|fuel IH]; intros pos Hl; cbn [skip_code_points].
  - destruct pos; [by exists None|cbn in Hl; lia].
  - destruct (Z.gtb_spec (size pos) 0) as [Hp|]; cbn [negb]; [|by exists None].
    rewrite code_point_eq, bind_of_Ret. destruct (Z.gtb_spec (code_point pos) 0) as [Hc|Hc].
    + pose proof (code_point_le pos) as Hle. rewrite Z.geb_leb, (proj2 (Z.leb_le _ _)) by done.
      cbn [check]. rewrite bind_of_Ret. apply IH. rewrite length_drop. unfold size in *. lia.
    + eexists. split; [done|]. destruct (code_point_values pos) as [->|[E|]]; [by left| |lia].
      right. split; [done|]. split; [lia|]. destruct (decide (4 <= length pos)%nat) as [Hd|Hd].
      * by destruct (code_point_decided pos Hd).
      * unfold size. lia.
Qed.

Lemma complete_fragment_ok frag flen b pos :
  length frag = 4%nat -> 0 <= flen <= 3 ->
  exists frag' cp, complete_fragment frag flen (b :: pos) = Ret (frag', flen + 1, pos, Some cp) /\
    length frag' = 4%nat /\ (cp = NN_SWS_UTF8_FRAGMENT -> flen + 1 <= 3).
Proof.
  intros Hl Hf. cbn [complete_fragment]. destruct (upd_in frag flen b) as (frag' & -> & Hl'); [unfold size; lia|].
  rewrite bind_of_Ret, code_point_eq, bind_of_Ret. set (front := take _ frag').
  assert (Hv : ((code_point front >? 0) || (code_point front =? NN_SWS_UTF8_INVALID) ||
    (code_point front =? NN_SWS_UTF8_FRAGMENT))%bool = true).
  { rewrite !orb_true_iff, !Z.eqb_eq, Z.gtb_gt. destruct (code_point_values front) as [|[|]]; auto. left; left. lia. }
  rewrite Hv. do 2 eexists. split; [done|]. split; [lia|]. intros E.
  destruct (decide (flen + 1 <= 3)); [done|]. destruct (code_point_decided front); [|done].
  unfold front. rewrite length_take. lia.
Qed.

Lemma validate_rest_safe self pos :
  still max (self ⦃ utf8_code_pt_fragment_len := 0 ⦄) -> 0 <= utf8_code_pt_fragment_len self <= 4 ->
  Pipe.instate (pipebase self) = Pipe.IN_ASYNC -> rx self = None ->
  continuing self = negb (is_final_frame self) -> msg_ok (inmsg_hdr self) ->
  safe (inv max) (utf8_code_pt_fragment_len self = 4) (validate_rest rand_mask self pos).
Proof.
  intros Hs Hl Hp Hrx Hc Hm. unfold validate_rest. change NN_SWS_UTF8_MAX_CODEPOINT_LEN with 4. rewrite Z.geb_leb.
  destruct (Z.leb_spec 4 (utf8_code_pt_fragment_len self)); cbn [negb check]; [cbn [mbind outcome_bind safe]; lia|]. rewrite bind_of_Ret.
  destruct (skip_code_points_ok (length pos) pos ltac:(done)) as (r & -> & Hr). rewrite bind_of_Ret.
  destruct r as [[cp rest]|].
  - destruct Hr as [->|[-> Hr]].
    + cbv beta iota. change (NN_SWS_UTF8_INVALID =? NN_SWS_UTF8_INVALID) with true. cbv iota.
      match goal with |- context [nn_sws_fail_conn _ ?s ?c ?r] =>
        destruct (fail_safe s c r) as (self' & -> & Hi) end; [|done|by vm_compute|done].
      destruct Hs; split; cbn in *; auto; try done; lia.
    + cbv beta iota. change (NN_SWS_UTF8_FRAGMENT =? NN_SWS_UTF8_INVALID) with false. cbv iota.
      rewrite (proj2 (Z.ltb_lt (size rest) _)) by lia. cbn [check].
      rewrite bind_of_Ret.
      destruct (write_in (utf8_code_pt_fragment self) 0 rest) as (frag & -> & Hfl).
      { lia. } { pose proof (st_frag _ _ Hs) as Hfr. cbn in Hfr. unfold size in *. lia. }
      rewrite bind_of_Ret. cbv zeta.
      assert (Hs' : still max (self ⦃ utf8_code_pt_fragment_len := size rest ⦄ ⦃ utf8_code_pt_fragment := frag ⦄)).
      { destruct Hs; split; cbn in *; auto; [congruence|lia]. }
      match goal with |- context [if is_final_frame ?s then _ else _] => change (is_final_frame s) with (is_final_frame self) end.
      destruct (is_final_frame self) eqn:Hf.
      * match goal with |- context [nn_sws_fail_conn _ ?s ?c ?r] =>
          destruct (fail_safe s c r) as (self' & -> & Hi) end; [done|done|by vm_compute|done].
      * match goal with |- context [nn_sws_recv_hdr ?s] =>
          destruct (recv_hdr_safe s) as (self' & -> & Hi) end; [done|done| |done].
        unfold between. cbn. rewrite Hc. done.
  - match goal with |- context [chunk_done ?s] => destruct (chunk_done_safe s) as (self' & -> & Hi) end; [|done..].
    destruct Hs; split; cbn in *; auto; try done; lia.
Qed.

Lemma validate_chunk_safe self b pos :
  still max self -> Pipe.instate (pipebase self) = Pipe.IN_ASYNC -> rx self = None ->
  continuing self = negb (is_final_frame self) -> msg_ok (inmsg_hdr self) -> payload self = Ret (b :: pos) ->
  safe (inv max) (utf8_code_pt_fragment_len self = 3) (nn_sws_validate_utf8_chunk rand_mask self).
Proof.
  intros Hs Hp Hrx Hc Hm Hpos. unfold nn_sws_validate_utf8_chunk. rewrite Hpos, bind_of_Ret.
  destruct (Z.eqb_spec (utf8_code_pt_fragment_len self) 0) as [H0|H0]; cbn [negb].
  { eapply safe_mono; [apply validate_rest_safe; try done| |].
    - destruct Hs; split; cbn in *; auto; lia.
    - destruct Hs; lia.
    - auto.
    - cbv beta. lia. }
  pose proof (st_flen _ _ Hs) as Hfl. pose proof (st_frag _ _ Hs) as Hfr.
  change NN_SWS_UTF8_MAX_CODEPOINT_LEN with 4. rewrite (proj2 (Z.ltb_lt _ 4)) by lia. cbn [check]. rewrite bind_of_Ret.
  destruct (complete_fragment_ok (utf8_code_pt_fragment self) (utf8_code_pt_fragment_len self) b pos) as (frag & cp & -> & Hl & Hcp);
    [done|done|].
  rewrite bind_of_Ret. cbv beta iota zeta. set (self' := self ⦃ _ := frag ⦄ ⦃ _ := _ ⦄).
  assert (Hs' : forall n, 0 <= n <= 3 -> still max (self' ⦃ utf8_code_pt_fragment_len := n ⦄)).
  { intros n Hn. destruct Hs; split; cbn in *; auto. }
  change (is_final_frame self') with (is_final_frame self).
  assert (Hfail : forall code reason, size reason <= 117 ->
    exists s, nn_sws_fail_conn rand_mask self' code reason = Ret s /\ inv max s).
  { intros code reason Hr. unfold nn_sws_fail_conn.
    destruct (fail_conn_safe self' code reason) as (s & Es & Hf); [destruct Hs; cbn; auto..|done|].
    exists s. split; [exact Es|by right]. }
  destruct (Z.eqb_spec cp NN_SWS_UTF8_INVALID) as [Ei|].
  { destruct (Hfail NN_SWS_CLOSE_ERR_INVALID_FRAME (str "Invalid UTF-8 code point split on previous frame."))
      as (s & -> & Hi); [by vm_compute|done]. }
  destruct (Z.eqb_spec cp NN_SWS_UTF8_FRAGMENT) as [Ef|].
  - destruct (is_final_frame self) eqn:Hf.
    + destruct (Hfail NN_SWS_CLOSE_ERR_INVALID_FRAME (str "Truncated UTF-8 payload with invalid code point."))
        as (s & -> & Hi); [by vm_compute|done].
    + destruct (recv_hdr_safe self') as (s & -> & Hi); [| |unfold between; cbn; by rewrite Hc|done].
      * apply (Hs' (utf8_code_pt_fragment_len self + 1)). specialize (Hcp Ef). lia.
      * done.
  - eapply safe_mono; [apply validate_rest_safe; try done| |].
    + apply Hs'. lia.
    + cbn. lia.
    + auto.
    + cbn. lia.
Qed.

Lemma payload_in self :
  still max self -> buf_ok self -> exists pos, payload self = Ret pos /\ size pos = inmsg_current_chunk_len self.
Proof.
  intros Hs Hb. unfold payload, buf_ok in *. destruct (is_control_frame self).
  - destruct Hb as [-> Hl]. cbn [load_buf]. rewrite bind_of_Ret.
    destruct (read_in (inmsg_control self) 0 (inmsg_current_chunk_len self)) as (bs & -> & Hbs & _); [lia|lia| |by exists bs].
    pose proof (st_control _ _ Hs). unfold size. lia.
  - destruct Hb as (i & data & -> & Hd & ->). cbn [load_buf]. rewrite Hd, bind_of_Ret.
    destruct (read_in data 0 (size data)) as (bs & -> & Hbs & _); [lia|apply size_nonneg|lia|by exists bs].
Qed.

(** *** The close handshake *)

Lemma acknowledge_safe self :
  still max self -> rx self = None ->
  (inmsg_current_chunk_len self <> 0 -> 2 <= inmsg_current_chunk_len self /\ buf_ok self) ->
  exists self', nn_sws_acknowledge_close_handshake rand_mask self = Ret self' /\ inv max self'.
Proof.
  intros Hs Hrx Hb. unfold nn_sws_acknowledge_close_handshake.
  destruct (Z.eqb_spec (inmsg_current_chunk_len self) 0) as [|H0]; [by apply fail_safe|].
  destruct (Hb H0) as [H2 Hbuf]. change NN_SWS_CLOSE_CODE_LEN with 2.
  rewrite Z.geb_leb, (proj2 (Z.leb_le _ _)) by done. cbn [check]. rewrite bind_of_Ret.
  destruct (payload_in self Hs Hbuf) as (pos & -> & Hpos). rewrite bind_of_Ret.
  destruct (skip_code_points_ok (length pos) (drop (Z.to_nat 2) pos)) as (r & -> & _); [rewrite length_drop; lia|].
  rewrite bind_of_Ret. destruct r; [apply fail_safe; [done|done|by vm_compute]|].
  unfold nn_gets. destruct (nth_in pos 0) as (b0 & -> & _); [lia|]. rewrite bind_of_Ret.
  destruct (nth_in pos 1) as (b1 & -> & _); [lia|]. rewrite bind_of_Ret, bind_of_Ret.
  destruct (known_close_code _); apply fail_safe; try done; by vm_compute.
Qed.

(** *** Headers *)

Record header_ok (self : nn_sws) : Prop := {
  hd_still : still max self; hd_pipe : Pipe.instate (pipebase self) = Pipe.IN_ASYNC; hd_between : between self;
  hd_rx : rx self = None; hd_ctl : 0 <= payload_ctl self <= 127;
  hd_ext : ext_hdr_len self = (if masked self then 4 else 0) + length_bytes (payload_ctl self);
  hd_mask : masked self = bool_decide (mode self = NN_WS_SERVER);
  hd_first : exists b0, inhdr self !! 0%nat = Some b0 /\ Z.land b0 NN_SWS_FRAME_BITMASK_OPCODE = opcode self /\
    is_set b0 NN_SWS_FRAME_BITMASK_FIN = is_final_frame self /\
    (continuing self = false -> opcode self <> NN_WS_OPCODE_FRAGMENT /\ inmsg_hdr self = Z.lor b0 NN_SWS_FRAME_BITMASK_FIN)
}.

(** More of the frame is to be received. *)
Record rest_ok (self : nn_sws) : Prop := {
  rs_still : still max self; rs_pipe : Pipe.instate (pipebase self) = Pipe.IN_ASYNC;
  rs_rx : rx self = None; rs_frame : frame_ok self;
  rs_ext : ext_hdr_len self = (if masked self then 4 else 0) + length_bytes (payload_ctl self);
  rs_mask : masked self = bool_decide (mode self = NN_WS_SERVER);
  rs_bare : is_bare self = false; rs_close : opcode self = NN_WS_OPCODE_CLOSE -> payload_ctl self <> 1
}.

Definition opcode_post (r : nn_sws * bool) : Prop := if snd r then rest_ok (fst r) else inv max (fst r).

Lemma first_header b0 :
  (Z.land b0 NN_SWS_FRAME_BITMASK_OPCODE = NN_WS_OPCODE_TEXT \/ Z.land b0 NN_SWS_FRAME_BITMASK_OPCODE = NN_WS_OPCODE_BINARY) ->
  msg_ok (Z.lor b0 NN_SWS_FRAME_BITMASK_FIN).
Proof.
  intros Ho. unfold msg_ok, is_set. rewrite !Z.land_lor_distr_l.
  change (Z.land NN_SWS_FRAME_BITMASK_FIN NN_SWS_FRAME_BITMASK_OPCODE) with 0. rewrite Z.lor_0_r. split; [|done].
  apply negb_true_iff, Z.eqb_neq. intros H. by apply Z.lor_eq_0_iff in H as [_ H].
Qed.

(** A frame that ends here was sent by a server, whose frames have no mask. *)
Lemma bare_client self : header_ok self -> is_bare self = true -> mode self = NN_WS_CLIENT.
Proof.
  intros Hh Hb. unfold is_bare in Hb. apply andb_true_iff in Hb as [He _]. apply Z.eqb_eq in He.
  destruct Hh as [Hs _ _ _ _ Hx Hm _]. rewrite Hx in He. destruct (st_mode _ _ Hs) as [|E]; [done|].
  rewrite Hm, bool_decide_eq_true_2 in He by done. unfold length_bytes in He.
  destruct (_ <=? _); [|destruct (_ =? _)]; lia.
Qed.

Lemma fail_opcode self code reason :
  still max self -> rx self = None -> size reason <= 117 ->
  safe opcode_post False (self ← nn_sws_fail_conn rand_mask self code reason; Ret (self, false)).
Proof. intros Hs Hrx Hr. by destruct (fail_safe self code reason) as (self' & -> & Hi). Qed.

Lemma empty_frame_safe self :
  still max self -> Pipe.instate (pipebase self) = Pipe.IN_ASYNC -> rx self = None -> mode self = NN_WS_CLIENT ->
  msg_ok (inmsg_hdr self) -> continuing self = negb (is_final_frame self) ->
  safe opcode_post False (empty_frame self).
Proof.
  intros Hs Hp Hrx Hm Hok Hc. unfold empty_frame. rewrite (proj2 (Z.eqb_eq _ _) Hm). cbn [check]. rewrite bind_of_Ret.
  cbv zeta. set (self' := self ⦃ inmsg_current_chunk_len := 0 ⦄).
  assert (Hs' : still max self') by (destruct Hs; split; cbn; auto). change (continuing self') with (continuing self).
  destruct (continuing self) eqn:Hcc.
  - destruct (recv_hdr_safe self') as (s & -> & Hi); [done|done|unfold between; cbn; congruence|done].
  - rewrite pipe_received_async by done. rewrite !bind_of_Ret. left. split; [destruct Hs'; split; cbn; auto|].
    apply ph_chunked; try done. cbn. by destruct (is_final_frame self).
Qed.

Lemma handle_opcode_safe self : header_ok self -> safe opcode_post False (handle_opcode rand_mask self).
Proof.
  intros Hh. destruct Hh as [Hs Hp Hb Hrx Hctl Hx Hmk (b0 & Hb0 & Hop & Hfin & Hc)] eqn:Eh. clear Eh.
  unfold handle_opcode. destruct (_ || _)%bool eqn:Edata.
  { (* TEXT, BINARY *)
    rewrite orb_true_iff, !Z.eqb_eq in Edata. unfold data_opcode.
    match goal with |- context [continuing ?s] => change (continuing s) with (continuing self) end.
    destruct (continuing self) eqn:Hcc.
    - apply fail_opcode; [destruct Hs; split; cbn; auto|done|by vm_compute].
    - destruct (Hc eq_refl) as [_ Hhdr].
      assert (Hok : msg_ok (inmsg_hdr self)) by (rewrite Hhdr; apply first_header; by rewrite Hop).
      match goal with |- context [negb (is_final_frame ?s)] => change (is_final_frame s) with (is_final_frame self) end.
      set (self' := if negb _ then _ else _).
      assert (Hs' : still max self' /\ Pipe.instate (pipebase self') = Pipe.IN_ASYNC /\ rx self' = None /\
        msg_ok (inmsg_hdr self') /\ continuing self' = negb (is_final_frame self') /\ mode self' = mode self /\
        is_bare self' = is_bare self /\ frame_ok self' /\ masked self' = masked self /\ opcode self' = opcode self /\
        ext_hdr_len self' = ext_hdr_len self /\ payload_ctl self' = payload_ctl self).
      { assert (Hstill : still max self') by (unfold self'; destruct (negb _), Hs; split; cbn; auto).
        assert (Hcont : continuing self' = negb (is_final_frame self'))
          by (unfold self'; destruct (is_final_frame self) eqn:Hf; cbn; rewrite ?Hcc, ?Hf; done).
        assert (Hfr : frame_ok self').
        { split; [|by unfold self'; destruct (negb _)|].
          - exists b0. unfold self'. by destruct (negb _); cbn.
          - replace (is_control_frame self') with false by (unfold self'; by destruct (negb _)).
            split; [done|]. unfold self'. destruct (negb _); cbn; tauto. }
        do 5 (split; [done || by unfold self'; destruct (negb _)|]).
        do 6 (split; [done || by unfold self'; destruct (negb _)|]). by unfold self'; destruct (negb _). }
      clearbody self'. destruct Hs' as (H1 & H2 & H3 & H4 & H5 & H6 & H7 & H8 & H9 & H10 & H11 & H12).
      rewrite H7. destruct (is_bare self) eqn:Hbare.
      + apply empty_frame_safe; try done. rewrite H6. by apply bare_client.
      + split; cbn; try done.
        * by rewrite H11, H9, H12.
        * by rewrite H9, H6.
        * rewrite H10. unfold NN_WS_OPCODE_TEXT, NN_WS_OPCODE_BINARY, NN_WS_OPCODE_CLOSE in *. lia. }
  destruct (Z.eqb_spec (opcode self) NN_WS_OPCODE_FRAGMENT) as [Ef|Ef].
  { (* continuation *)
    destruct (continuing self) eqn:Hcc; [|by destruct (Hc eq_refl)].
    pose proof (st_msg _ _ Hs Hcc) as Hok. unfold fragment_opcode. set (self' := self ⦃ _ := _ ⦄ ⦃ _ := _ ⦄).
    assert (Hs' : still max self') by (destruct Hs; split; cbn; auto).
    change (is_bare self') with (is_bare self). destruct (is_bare self) eqn:Hbare.
    - apply empty_frame_safe; try done. by apply (bare_client self).
    - split; cbn; try done. { split; cbn; [by exists b0|done|]. rewrite Ef. tauto. } by rewrite Ef. }
  assert (Hpp : forall self', still max self' -> frame_ok self' \/ payload_ctl self' > 125 \/ is_final_frame self' = false ->
    is_control_frame self' = true -> opcode self' <> NN_WS_OPCODE_CLOSE ->
    Pipe.instate (pipebase self') = Pipe.IN_ASYNC -> rx self' = None -> masked self' = masked self -> mode self' = mode self ->
    ext_hdr_len self' = ext_hdr_len self -> payload_ctl self' = payload_ctl self ->
    safe opcode_post False (ping_pong_opcode rand_mask self')).
  { intros self' H1 H2 H3 H4 H5 H6 H7 H8 H9 H10. unfold ping_pong_opcode.
    destruct (Z.gtb_spec (payload_ctl self') NN_SWS_PAYLOAD_MAX_LENGTH) as [|Hle]; [apply fail_opcode; [done|done|by vm_compute]|].
    destruct (is_final_frame self') eqn:Hf; cbn [negb]; [|apply fail_opcode; [done|done|by vm_compute]].
    destruct H2 as [H2|[H2|H2]]; [|unfold NN_SWS_PAYLOAD_MAX_LENGTH in Hle; lia|congruence].
    destruct (is_bare self') eqn:Hbare.
    - rewrite pipe_received_async by done. rewrite !bind_of_Ret. left. split; [destruct H1; split; cbn; auto|].
      apply ph_control; try done. destruct H2; split; cbn; auto.
    - split; cbn; try done; [by rewrite H9, H7, H10|by rewrite H7, H8]. }
  assert (Hfr : forall self', payload_ctl self' = payload_ctl self -> is_final_frame self' = is_final_frame self ->
    inhdr self' = inhdr self -> opcode self' = opcode self -> is_control_frame self' = true -> between self' ->
    (opcode self = NN_WS_OPCODE_PING \/ opcode self = NN_WS_OPCODE_PONG \/ opcode self = NN_WS_OPCODE_CLOSE) ->
    frame_ok self' \/ payload_ctl self' > 125 \/ is_final_frame self' = false).
  { intros self' H1 H2 H3 H4 H5 H6 H7. destruct (Z.le_gt_cases (payload_ctl self') 125); [|right; left; lia].
    destruct (is_final_frame self') eqn:Hf; [left|tauto]. split; [|rewrite H1; done|].
    - exists b0. by rewrite H3, H4, Hf, H2.
    - rewrite H5, H4, Hf. tauto. }
  destruct (Z.eqb_spec (opcode self) NN_WS_OPCODE_PING) as [Eg|Eg].
  { apply Hpp; try done; [destruct Hs; split; cbn; auto|apply Hfr; try done; tauto|cbn; by rewrite Eg]. }
  destruct (Z.eqb_spec (opcode self) NN_WS_OPCODE_PONG) as [Eo|Eo].
  { apply Hpp; try done; [destruct Hs; split; cbn; auto|apply Hfr; try done; tauto|cbn; by rewrite Eo]. }
  destruct (Z.eqb_spec (opcode self) NN_WS_OPCODE_CLOSE) as [Ec|Ec].
  2:{ apply fail_opcode; [done|done|by vm_compute]. }
  unfold close_opcode. set (self' := self ⦃ _ := _ ⦄).
  assert (Hs' : still max self') by (destruct Hs; split; cbn; auto).
  destruct (is_final_frame self') eqn:Hf; cbn [negb]; [|apply fail_opcode; [done|done|by vm_compute]].
  destruct (Z.gtb_spec (payload_ctl self') NN_SWS_PAYLOAD_MAX_LENGTH) as [|Hle]; [apply fail_opcode; [done|done|by vm_compute]|].
  destruct (Z.eqb_spec (payload_ctl self') 1); [apply fail_opcode; [done|done|by vm_compute]|].
  destruct (is_bare self') eqn:Hbare.
  - destruct (acknowledge_safe (self' ⦃ inmsg_current_chunk_len := 0 ⦄)) as (s & -> & Hi); [|done|done|done].
    destruct Hs'; split; cbn in *; auto.
  - assert (Hok : frame_ok self').
    { destruct (Hfr self' eq_refl eq_refl eq_refl eq_refl eq_refl Hb ltac:(auto)) as [|[H|H]]; [done| |congruence].
      unfold NN_SWS_PAYLOAD_MAX_LENGTH in Hle. lia. }
    split; cbn; auto.
Qed.

(** *** Room for the payload *)

(** The total size of the message wraps around. *)
Definition wraps (self : nn_sws) : Prop := 2 ^ 64 <= inmsg_total_size self + inmsg_current_chunk_len self.

Lemma frame_ok_data self self' :
  frame_ok self -> is_control_frame self = false -> is_control_frame self' = false ->
  inhdr self' = inhdr self -> opcode self' = opcode self -> is_final_frame self' = is_final_frame self ->
  payload_ctl self' = payload_ctl self -> continuing self' = continuing self -> inmsg_hdr self' = inmsg_hdr self ->
  frame_ok self'.
Proof.
  intros [F1 F2 F3] Hc Hc' E1 E2 E3 E4 E5 E6. rewrite Hc in F3.
  split; [by rewrite E1, E2, E3|by rewrite E4|]. by rewrite Hc', E5, E3, E6, E2.
Qed.

Lemma recv_payload_safe self refusal :
  still max self -> Pipe.instate (pipebase self) = Pipe.IN_ASYNC -> rx self = None -> frame_ok self -> mask_ok self ->
  0 < inmsg_current_chunk_len self < 2 ^ 64 -> (is_control_frame self = true -> inmsg_current_chunk_len self <= 125) ->
  (opcode self = NN_WS_OPCODE_CLOSE -> 2 <= inmsg_current_chunk_len self) -> size refusal <= 117 ->
  safe (inv max) (wraps self) (recv_payload alloc rand_mask max self refusal).
Proof.
  intros Hs Hp Hrx Hf Hm Hl Hcl H2 Hr. unfold recv_payload. destruct (is_control_frame self) eqn:Hc.
  { left. split; [destruct Hs; split; cbn; auto|]. apply ph_payload; try done.
    - destruct Hf; split; cbn; auto.
    - unfold buf_ok. cbn. rewrite Hc. split; [done|]. specialize (Hcl eq_refl). lia.
    - cbn. lia. }
  destruct (st_total _ _ Hs) as [Htot Hmax]. pose proof (sum_sizes_nonneg (inmsg_array self)) as Hnn.
  cbv zeta. remember (u64 _) as total eqn:Et.
  match goal with |- context [inmsg_total_size ?s >? max] => change (inmsg_total_size s) with total end.
  rewrite (proj2 (Z.geb_le max 0)) by lia. cbn [andb].
  destruct (Z.gtb_spec total max) as [Hbig|Hfit].
  { (* refused *)
    match goal with |- context [nn_sws_fail_conn rand_mask ?s ?c ?r] => destruct (fail_conn_safe s c r) as (s' & -> & Hi) end;
      [destruct Hs; cbn; auto..|done|done|]. by right. }
  unfold nn_msg_chunk_new, nn_chunkref_init.
  match goal with |- context [alloc (inmsg_current_chunk_len ?s)] =>
    change (inmsg_current_chunk_len s) with (inmsg_current_chunk_len self) end.
  destruct (alloc (inmsg_current_chunk_len self)) as [data|] eqn:Ha.
  - destruct (alloc_size _ _ Ha) as [Hsz Hlt].
    assert (Ht : total = inmsg_total_size self + inmsg_current_chunk_len self) by (rewrite Et; unfold u64; apply Z.mod_small; lia).
    left. split.
    + destruct Hs; split; cbn; auto. rewrite sum_sizes_app. cbn [sum_sizes]. lia.
    + apply ph_payload; try done.
      * by apply (frame_ok_data self).
      * unfold buf_ok. cbn. rewrite Hc. exists (length (inmsg_array self)), data. split; [done|]. split; [|done].
        by rewrite lookup_app_r, Nat.sub_diag by lia.
      * cbn. lia.
  - cbn. unfold wraps. destruct (Z.le_gt_cases (2 ^ 64) (inmsg_total_size self + inmsg_current_chunk_len self)); [done|].
    assert (Ht : total = inmsg_total_size self + inmsg_current_chunk_len self) by (rewrite Et; unfold u64; apply Z.mod_small; lia).
    destruct (alloc_small (inmsg_current_chunk_len self)) as [d Hd]; [lia|congruence].
Qed.

Lemma recv_rest_safe self : rest_ok self -> safe (inv max) False (recv_rest alloc rand_mask max self).
Proof.
  intros [Hs Hp Hrx Hf Hx Hm Hb Hcl]. unfold recv_rest. destruct Hf as [F1 F2 F3].
  destruct (Z.eqb_spec (ext_hdr_len self) 0) as [H0|H0].
  - assert (Hmk : masked self = false) by (destruct (masked self); [unfold length_bytes in Hx; repeat case_match; lia|done]).
    rewrite Hmk in *. symmetry in Hm. apply bool_decide_eq_false in Hm. destruct (st_mode _ _ Hs) as [Hc|]; [|done].
    rewrite (proj2 (Z.eqb_eq _ _) Hc). cbn [check]. rewrite bind_of_Ret.
    unfold is_bare in Hb. rewrite H0 in Hb. cbn [Z.eqb andb] in Hb. apply Z.eqb_neq in Hb.
    assert (Hp125 : payload_ctl self <= 125).
    { unfold length_bytes in Hx. destruct (Z.leb_spec (payload_ctl self) 125); [done|]. destruct (_ =? _); lia. }
    rewrite (proj2 (Z.ltb_lt _ _)) by lia.
    rewrite (proj2 (Z.leb_le _ _)) by (unfold NN_SWS_PAYLOAD_MAX_LENGTH; lia). cbn [andb check]. rewrite bind_of_Ret.
    eapply safe_mono; [apply recv_payload_safe|auto|]; cbn; try done; try lia.
    + destruct Hs; split; cbn; auto.
    + intros E. cbn in E. congruence.
    + unfold wraps. cbn. destruct (st_total _ _ Hs). lia.
  - left. split; [destruct Hs; split; cbn; auto|]. apply ph_hdrext; try done.
    cbn. unfold length_bytes in *. destruct (masked self); repeat case_match; lia.
Qed.

Lemma handle_hdr_safe self :
  still max self -> Pipe.instate (pipebase self) = Pipe.IN_ASYNC -> between self -> rx self = None ->
  safe (inv max) False (handle_hdr alloc rand_mask max self).
Proof.
  intros Hs Hp Hb Hrx. unfold handle_hdr. pose proof (st_inhdr _ _ Hs) as Hl. pose proof (st_bytes _ _ Hs) as Hby.
  destruct (nth_in (inhdr self) 0) as (b0 & -> & Hb0); [unfold size; lia|].
  destruct (nth_in (inhdr self) 1) as (b1 & -> & Hb1); [unfold size; lia|]. rewrite !bind_of_Ret.
  assert (Hfail : forall self' code reason, still max self' -> rx self' = None -> size reason <= 117 ->
    safe (inv max) False (nn_sws_fail_conn rand_mask self' code reason)).
  { intros self' code reason H1 H2 H3. by destruct (fail_safe self' code reason H1 H2 H3) as (s & -> & Hi). }
  destruct (_ || _)%bool; [apply Hfail; [done|done|by vm_compute]|]. cbv zeta.
  set (self1 := self ⦃ _ := _ ⦄ ⦃ _ := _ ⦄).
  assert (Hs1 : still max self1) by (destruct Hs; split; cbn; auto).
  assert (Hrule : exists rule, mask_rule self1 = Ret rule /\
    match rule with
    | inl ext => ext = (if masked self1 then 4 else 0) /\ masked self1 = bool_decide (mode self1 = NN_WS_SERVER)
    | inr reason => size reason <= 117
    end).
  { unfold mask_rule. destruct (st_mode _ _ Hs1) as [->| ->].
    - change (NN_WS_CLIENT =? NN_WS_SERVER) with false. change (NN_WS_CLIENT =? NN_WS_CLIENT) with true.
      destruct (masked self1) eqn:Em; eexists; (split; [done|]); [by vm_compute|done].
    - change (NN_WS_SERVER =? NN_WS_SERVER) with true.
      destruct (masked self1) eqn:Em; eexists; (split; [done|]); [done|by vm_compute]. }
  destruct Hrule as (rule & -> & Hrule). rewrite bind_of_Ret. destruct rule as [ext|reason]; [|by apply Hfail].
  destruct Hrule as [Hext Hmk]. set (self2 := self1 ⦃ _ := _ ⦄ ⦃ _ := _ ⦄ ⦃ _ := _ ⦄).
  assert (Hs2 : still max self2) by (destruct Hs1; split; cbn; auto).
  assert (Hctl : 0 <= payload_ctl self2 <= 127).
  { cbn. change NN_SWS_FRAME_BITMASK_LENGTH with (Z.ones 7). rewrite Z.land_ones by lia.
    pose proof (Z.mod_pos_bound b1 (2 ^ 7)). lia. }
  destruct (negb (continuing self2) && _)%bool eqn:Ecf; [apply Hfail; [done|done|by vm_compute]|].
  set (self3 := if negb (continuing self2) then _ else _).
  assert (H3 : still max self3 /\ (continuing self3 = false -> inmsg_hdr self3 = Z.lor b0 NN_SWS_FRAME_BITMASK_FIN) /\
    Pipe.instate (pipebase self3) = Pipe.IN_ASYNC /\ between self3 /\ rx self3 = None /\
    payload_ctl self3 = payload_ctl self2 /\ ext_hdr_len self3 = ext /\ masked self3 = masked self1 /\
    mode self3 = mode self1 /\ inhdr self3 = inhdr self /\ opcode self3 = opcode self2 /\
    is_final_frame self3 = is_final_frame self1 /\ continuing self3 = continuing self).
  { unfold self3. change (continuing self2) with (continuing self). destruct (continuing self) eqn:Hc; cbn [negb].
    - split; [done|]. split; [cbn; congruence|]. done.
    - split; [destruct Hs2; split; cbn in *; auto; rewrite Hc; done|]. done. }
  clearbody self3. destruct H3 as (Hs3 & Hhdr & Hp3 & Hb3 & Hrx3 & Hc3 & He3 & Hm3 & Hmo3 & Hin3 & Ho3 & Hf3 & Hcc3).
  rewrite Hc3.
  assert (Hmore : exists more, (if payload_ctl self2 <=? NN_SWS_PAYLOAD_MAX_LENGTH then Ret NN_SWS_FRAME_SIZE_PAYLOAD_0
      else if payload_ctl self2 =? NN_SWS_PAYLOAD_FRAME_16 then Ret NN_SWS_FRAME_SIZE_PAYLOAD_16
      else if payload_ctl self2 =? NN_SWS_PAYLOAD_FRAME_63 then Ret NN_SWS_FRAME_SIZE_PAYLOAD_63 else Abort) = Ret more /\
    more = length_bytes (payload_ctl self2)).
  { unfold length_bytes. change NN_SWS_PAYLOAD_MAX_LENGTH with 125. change NN_SWS_PAYLOAD_FRAME_16 with 126.
    destruct (Z.leb_spec (payload_ctl self2) 125); [by eexists|].
    destruct (Z.eqb_spec (payload_ctl self2) 126); [by eexists|].
    rewrite (proj2 (Z.eqb_eq _ NN_SWS_PAYLOAD_FRAME_63)) by (unfold NN_SWS_PAYLOAD_FRAME_63; lia). by eexists. }
  destruct Hmore as (more & -> & ->). rewrite bind_of_Ret.
  eapply safe_bind; [apply handle_opcode_safe|].
  - split; cbn; auto.
    + destruct Hs3; split; cbn; auto.
    + lia.
    + rewrite He3, Hm3, Hc3. by rewrite Hext.
    + by rewrite Hm3, Hmo3.
    + exists b0. rewrite Hin3, Ho3, Hf3. split; [done|]. split; [done|]. split; [done|]. intros Hcf.
      split; [|by apply Hhdr]. rewrite Hcc3 in Hcf. cbn in Ecf. rewrite Hcf in Ecf. cbn in Ecf. by apply Z.eqb_neq in Ecf.
  - intros [self4 b] Hpost. unfold opcode_post in Hpost. cbn [fst snd] in Hpost. destruct b; [by apply recv_rest_safe|done].
Qed.

(** The payload length of an extended header makes the total size wrap around. *)
Definition header_wraps (self : nn_sws) : Prop :=
  payload_ctl self = NN_SWS_PAYLOAD_FRAME_63 /\
  exists len, nn_getll (drop 2 (inhdr self)) = Ret len /\ 2 ^ 64 <= inmsg_total_size self + len.

Lemma handle_hdrext_safe self :
  still max self -> Pipe.instate (pipebase self) = Pipe.IN_ASYNC -> rx self = None -> frame_ok self ->
  0 < ext_hdr_len self -> (opcode self = NN_WS_OPCODE_CLOSE -> payload_ctl self <> 1) ->
  safe (inv max) (header_wraps self) (handle_hdrext alloc rand_mask max self).
Proof.
  intros Hs Hp Hrx Hf Hx Hcl. unfold handle_hdrext. rewrite (proj2 (Z.gtb_lt (ext_hdr_len self) 0)) by done. cbn [check].
  rewrite bind_of_Ret. pose proof (fr_ctl _ Hf) as Hctl.
  assert (Hdrop : (8 <= length (drop 2 (inhdr self)))%nat /\ bytes (drop 2 (inhdr self))).
  { rewrite length_drop, (st_inhdr _ _ Hs). split; [lia|]. apply Forall_drop, (st_bytes _ _ Hs). }
  destruct Hdrop as [Hd1 Hd2].
  destruct (_ && _)%bool eqn:Ebad.
  { rewrite !andb_true_iff, !negb_true_iff, Z.gtb_lt, !Z.eqb_neq in Ebad.
    unfold NN_SWS_PAYLOAD_MAX_LENGTH, NN_SWS_PAYLOAD_FRAME_16, NN_SWS_PAYLOAD_FRAME_63 in Ebad. lia. }
  clear Ebad. set (mask_at := fun off : Z => if masked self then Some off else None).
  match goal with |- safe _ _ (?o ≫= _) => assert (Hlen : exists len m, o = Ret (len, m) /\ 0 <= len < 2 ^ 64 /\
    (payload_ctl self <= 125 -> len = payload_ctl self) /\
    (payload_ctl self <> 127 -> len < 2 ^ 16) /\
    (payload_ctl self = 127 -> nn_getll (drop 2 (inhdr self)) = Ret len) /\
    (masked self = true -> exists off, m = Some off /\ 0 <= off /\ off + 4 <= 14)) end.
  { unfold mask_at. destruct (Z.leb_spec (payload_ctl self) NN_SWS_PAYLOAD_MAX_LENGTH) as [Hle|Hgt].
    - unfold NN_SWS_PAYLOAD_MAX_LENGTH in Hle. do 2 eexists. split; [done|]. split; [lia|]. split; [done|]. split; [lia|].
      split; [lia|]. intros ->. eexists. split; [done|]. unfold NN_SWS_FRAME_SIZE_INITIAL. lia.
    - unfold NN_SWS_PAYLOAD_MAX_LENGTH in Hgt. destruct (Z.eqb_spec (payload_ctl self) NN_SWS_PAYLOAD_FRAME_16) as [E|E];
        unfold NN_SWS_PAYLOAD_FRAME_16 in E; change (Z.to_nat NN_SWS_FRAME_SIZE_INITIAL) with 2%nat.
      + destruct (gets_in (drop 2 (inhdr self))) as (v & -> & Hv); [lia|done|]. rewrite bind_of_Ret.
        do 2 eexists. split; [done|]. split; [lia|]. split; [lia|]. split; [lia|]. split; [lia|].
        intros ->. eexists. split; [done|]. unfold NN_SWS_FRAME_SIZE_INITIAL, NN_SWS_FRAME_SIZE_PAYLOAD_16. lia.
      + destruct (getll_in (drop 2 (inhdr self))) as (v & -> & Hv); [lia|done|]. rewrite bind_of_Ret.
        do 2 eexists. split; [done|]. split; [lia|]. split; [lia|]. split; [lia|]. split; [done|].
        intros ->. eexists. split; [done|]. unfold NN_SWS_FRAME_SIZE_INITIAL, NN_SWS_FRAME_SIZE_PAYLOAD_63. lia. }
  destruct Hlen as (len & m & -> & Hlen & H125 & H16 & H63 & Hmask). rewrite bind_of_Ret. cbv beta iota zeta.
  set (self' := self ⦃ _ := _ ⦄ ⦃ _ := _ ⦄).
  assert (Hs' : still max self') by (destruct Hs; split; cbn; auto).
  assert (Hf' : frame_ok self') by (destruct Hf; split; cbn; auto).
  assert (Hlen' : inmsg_current_chunk_len self' = len) by done.
  assert (Hmask' : mask_ok self') by done.
  assert (Hsame : opcode self' = opcode self /\ is_control_frame self' = is_control_frame self /\
    payload_ctl self' = payload_ctl self /\ is_final_frame self' = is_final_frame self /\
    continuing self' = continuing self /\ inmsg_total_size self' = inmsg_total_size self /\ rx self' = None /\
    Pipe.instate (pipebase self') = Pipe.IN_ASYNC) by done.
  clearbody self'. destruct Hsame as (E1 & E2 & E3 & E4 & E5 & E6 & E7 & E8).
  rewrite Hlen'. destruct (Z.eqb_spec len 0) as [->|Hne].
  - destruct (is_final_frame self') eqn:Hfin.
    + destruct (Z.eqb_spec (opcode self') NN_WS_OPCODE_CLOSE) as [Ec|Ec].
      * destruct (acknowledge_safe self') as (s & -> & Hi); [done|done|by rewrite Hlen'|done].
      * rewrite pipe_received_async by done. left. split; [destruct Hs'; split; cbn; auto|].
        destruct (is_control_frame self') eqn:Hc.
        -- apply ph_control; cbn; try done; try lia. destruct Hf'; split; cbn; auto.
        -- apply ph_chunked; cbn; try done. destruct Hf' as [_ _ F3]. rewrite Hc in F3. tauto.
    + destruct (recv_hdr_safe self') as (s & -> & Hi); [done|done| |done].
      destruct Hf' as [_ _ F3]. unfold between. intros Hc. destruct (is_control_frame self').
      * destruct F3 as [F3 _]. congruence.
      * destruct F3 as [F3 _]. rewrite Hfin in F3. rewrite F3 in Hc. done.
  - eapply safe_mono; [apply recv_payload_safe; try done|auto|].
    + rewrite Hlen'. lia.
    + intros Hc. rewrite Hlen'. destruct Hf' as [_ _ F3]. rewrite Hc in F3. rewrite H125; lia.
    + intros Ec. rewrite Hlen'. destruct Hf' as [_ _ F3]. destruct (is_control_frame self').
      * rewrite H125 in * by lia. rewrite E1 in Ec. specialize (Hcl Ec). lia.
      * rewrite Ec in F3. unfold NN_WS_OPCODE_CLOSE, NN_WS_OPCODE_TEXT, NN_WS_OPCODE_BINARY, NN_WS_OPCODE_FRAGMENT in F3. lia.
    + unfold wraps. rewrite Hlen', E6. intros Hw. destruct (st_total _ _ Hs) as [_ Ht].
      assert (H127 : payload_ctl self = 127) by (destruct (Z.eq_dec (payload_ctl self) 127); [done|specialize (H16 n); lia]).
      split; [done|]. exists len. split; [by apply H63|lia].
Qed.

(** *** The payload *)

Lemma store_buf_safe self data :
  still max self -> frame_ok self -> buf_ok self -> size data = inmsg_current_chunk_len self ->
  exists self', store_buf self (inmsg_current_chunk_buf self) data = Ret self' /\
    still max self' /\ frame_ok self' /\ buf_ok self' /\
    self' ⦃ inmsg_control := inmsg_control self ⦄ ⦃ inmsg_array := inmsg_array self ⦄ = self.
Proof.
  intros Hs Hf Hb Hd. unfold store_buf, buf_ok in *. destruct (is_control_frame self) eqn:Hc.
  - destruct Hb as [Hbuf Hl]. rewrite Hbuf. cbn [load_buf]. rewrite bind_of_Ret.
    pose proof (st_control _ _ Hs) as Hcl.
    destruct (write_in (inmsg_control self) 0 data) as (new & -> & Hn); [lia|unfold size in *; lia|].
    rewrite bind_of_Ret. eexists. split; [done|]. split; [destruct Hs; split; cbn; auto; congruence|].
    split; [destruct Hf; split; cbn; auto|]. cbn. rewrite Hc. split; [done|]. by destruct self.
  - destruct Hb as (i & old & Hbuf & Ho & Hl). rewrite Hbuf. cbn [load_buf]. rewrite Ho, bind_of_Ret.
    destruct (write_in old 0 data) as (new & -> & Hn); [lia|lia|]. rewrite bind_of_Ret. eexists. split; [done|].
    split. { destruct Hs; split; cbn; auto. by rewrite (sum_sizes_insert _ _ old). }
    split; [by apply (frame_ok_data self)|]. cbn. rewrite Hc. split; [|by destruct self].
    exists i, new. split; [done|]. split; [|unfold size in *; lia].
    rewrite list_lookup_insert_eq; [done|]. by apply lookup_lt_Some in Ho.
Qed.

Lemma chunk_len_small self : still max self -> buf_ok self -> inmsg_current_chunk_len self < 2 ^ 32.
Proof.
  intros Hs Hb. unfold buf_ok in Hb. destruct (is_control_frame self); [lia|]. destruct Hb as (i & data & _ & Hd & ->).
  pose proof (sum_sizes_member _ _ _ Hd). destruct (st_total _ _ Hs). lia.
Qed.

Lemma unmask_safe self :
  still max self -> frame_ok self -> buf_ok self -> mask_ok self ->
  exists self', unmask self = Ret self' /\ still max self' /\ frame_ok self' /\ buf_ok self' /\
    self' ⦃ inmsg_control := inmsg_control self ⦄ ⦃ inmsg_array := inmsg_array self ⦄ = self.
Proof.
  intros Hs Hf Hb Hm. unfold unmask. destruct (masked self) eqn:Em; [|exists self; by destruct self].
  destruct (Hm Em) as (off & -> & Ho & Ho4). rewrite bind_of_Ret.
  destruct (read_in (inhdr self) off NN_SWS_FRAME_SIZE_MASK) as (key & -> & Hk & _);
    [done|done|unfold size, NN_SWS_FRAME_SIZE_MASK; rewrite (st_inhdr _ _ Hs); lia|]. rewrite bind_of_Ret.
  destruct (payload_in self Hs Hb) as (data & -> & Hd). rewrite bind_of_Ret.
  pose proof (chunk_len_small self Hs Hb).
  destruct (mask_payload_in key data) as (out & -> & Hout); [done|lia|]. rewrite bind_of_Ret.
  apply store_buf_safe; [done..|]. unfold size in *. lia.
Qed.

Lemma handle_payload_safe self :
  still max self -> Pipe.instate (pipebase self) = Pipe.IN_ASYNC -> rx self = None -> frame_ok self -> buf_ok self ->
  mask_ok self -> 0 < inmsg_current_chunk_len self ->
  (opcode self = NN_WS_OPCODE_CLOSE -> 2 <= inmsg_current_chunk_len self) ->
  safe (inv max) (utf8_code_pt_fragment_len self = 3) (handle_payload rand_mask self).
Proof.
  intros Hs Hp Hrx Hf Hb Hm Hl Hcl. unfold handle_payload.
  destruct (unmask_safe self Hs Hf Hb Hm) as (self' & -> & Hs' & Hf' & Hb' & Heq). rewrite bind_of_Ret.
  assert (Hsame : opcode self' = opcode self /\ utf8_code_pt_fragment_len self' = utf8_code_pt_fragment_len self /\
    Pipe.instate (pipebase self') = Pipe.IN_ASYNC /\ rx self' = None /\
    inmsg_current_chunk_len self' = inmsg_current_chunk_len self).
  { rewrite <-Heq in Hrx, Hp. rewrite <-Heq. done. }
  clear Heq. destruct Hsame as (E1 & <- & E3 & E4 & E5). rewrite <-E5 in Hl, Hcl. rewrite <-E1 in Hcl.
  clear self E1 E5 Hs Hp Hrx Hf Hb Hm. rename self' into self.
  pose proof (fr_kind _ Hf') as Hk.
  assert (Htext : is_control_frame self = false ->
    safe (inv max) (utf8_code_pt_fragment_len self = 3) (nn_sws_validate_utf8_chunk rand_mask self)).
  { intros Hc. rewrite Hc in Hk. destruct (payload_in self Hs' Hb') as (pos & Hpos & Hsz).
    destruct pos as [|b pos]; [unfold size in Hsz; cbn in Hsz; lia|]. apply (validate_chunk_safe self b pos); tauto. }
  assert (Hdone : is_control_frame self = false ->
    safe (inv max) (utf8_code_pt_fragment_len self = 3) (chunk_done self)).
  { intros Hc. rewrite Hc in Hk. destruct (chunk_done_safe self) as (s & -> & Hi); [tauto..|done]. }
  assert (Hctl : is_control_frame self = true -> opcode self <> NN_WS_OPCODE_CLOSE ->
    safe (inv max) (utf8_code_pt_fragment_len self = 3) (pipe_received (self ⦃ instate := RECVD_CONTROL ⦄))).
  { intros Hc Ho. rewrite pipe_received_async by done. left. split; [destruct Hs'; split; cbn; auto|].
    unfold buf_ok in Hb'. rewrite Hc in Hb'. apply ph_control; cbn; try done; [|lia]. destruct Hf'; split; cbn; auto. }
  unfold NN_WS_OPCODE_TEXT, NN_WS_OPCODE_BINARY, NN_WS_OPCODE_FRAGMENT, NN_WS_OPCODE_PING, NN_WS_OPCODE_PONG,
    NN_WS_OPCODE_CLOSE in *.
  destruct (Z.eqb_spec (opcode self) 1). { apply Htext. destruct (is_control_frame self); [lia|done]. }
  destruct (Z.eqb_spec (opcode self) 2). { apply Hdone. destruct (is_control_frame self); [lia|done]. }
  destruct (Z.eqb_spec (opcode self) 0).
  { assert (is_control_frame self = false) by (destruct (is_control_frame self); [lia|done]).
    destruct (_ =? _); auto. }
  assert (Hc : is_control_frame self = true) by (destruct (is_control_frame self); [done|lia]).
  rewrite Hc in Hk. destruct (Z.eqb_spec (opcode self) 9); cbn [orb]; [apply Hctl; [done|lia]|].
  destruct (Z.eqb_spec (opcode self) 10); [apply Hctl; [done|lia]|].
  destruct (Z.eqb_spec (opcode self) 8); [|lia].
  destruct (acknowledge_safe self) as (s & -> & Hi); [done|done|auto|done].
Qed.

(** *** Handing the message over *)

Lemma final_opcode_ok self hdr o1 o2 :
  is_final_frame self = true -> is_set hdr NN_SWS_FRAME_BITMASK_FIN = true ->
  Z.land hdr NN_SWS_FRAME_BITMASK_OPCODE = o1 \/ Z.land hdr NN_SWS_FRAME_BITMASK_OPCODE = o2 ->
  final_opcode self hdr o1 o2 = Ret (Z.land hdr (Z.lnot NN_SWS_FRAME_BITMASK_FIN)).
Proof.
  intros Hf Hh Ho. unfold final_opcode. rewrite Hf, Hh. cbn [check]. rewrite !bind_of_Ret.
  rewrite <-Z.land_assoc. change (Z.land (Z.lnot NN_SWS_FRAME_BITMASK_FIN) NN_SWS_FRAME_BITMASK_OPCODE) with NN_SWS_FRAME_BITMASK_OPCODE.
  rewrite (proj2 (orb_true_iff _ _)) by (rewrite !Z.eqb_eq; done). done.
Qed.

(** The chunks in their order, behind what is there. *)
Lemma reassemble_ok data pos chunks :
  0 <= pos -> pos + sum_sizes chunks <= size data -> size data < 2 ^ 64 ->
  reassemble data pos chunks =
    Ret (take (Z.to_nat pos) data ++ concat chunks ++ drop (Z.to_nat (pos + sum_sizes chunks)) data, pos + sum_sizes chunks).
Proof.
  revert data pos. induction chunks as [|ch chunks IH]; intros data pos Hp Hs Hd; cbn [reassemble sum_sizes concat].
  - rewrite Z.add_0_r. cbn [app]. by rewrite take_drop.
  - cbn [sum_sizes] in Hs. pose proof (sum_sizes_nonneg chunks). pose proof (size_nonneg ch).
    unfold write_at. rewrite (proj2 (Z.leb_le 0 pos)) by done. rewrite (proj2 (Z.leb_le (pos + size ch) _)) by lia.
    cbn [andb]. rewrite bind_of_Ret. unfold u64. rewrite Z.mod_small by lia.
    assert (Ht : length (take (Z.to_nat pos) data) = Z.to_nat pos) by (rewrite length_take; unfold size in *; lia).
    assert (Hd' : length (take (Z.to_nat pos) data ++ ch) = Z.to_nat (pos + size ch))
      by (rewrite length_app, Ht; unfold size in *; lia).
    assert (Hlen : size (take (Z.to_nat pos) data ++ ch ++ drop (Z.to_nat (pos + size ch)) data) = size data).
    { unfold size in *. rewrite !length_app, Ht, length_drop. lia. }
    rewrite IH; [|lia|rewrite Hlen; lia|by rewrite Hlen]. f_equal. f_equal; [|lia].
    rewrite (app_assoc (take _ data) ch). rewrite take_app_length' by done. rewrite <-!app_assoc. f_equal. f_equal. f_equal.
    rewrite app_assoc, drop_app_ge by (rewrite Hd'; lia). rewrite Hd', drop_drop. f_equal. lia.
Qed.

Lemma reset_total self :
  continuing self = false -> nn_sws_recv_hdr self = nn_sws_recv_hdr (self ⦃ inmsg_total_size := 0 ⦄).
Proof.
  intros Hc. unfold nn_sws_recv_hdr. change (continuing (self ⦃ inmsg_total_size := 0 ⦄)) with (continuing self).
  rewrite Hc. cbn [negb].
  change (inmsg_array (self ⦃ inmsg_total_size := 0 ⦄)) with (inmsg_array self). by destruct (check _).
Qed.

Lemma recv_chunked_safe self junk :
  still max self -> phase self -> instate self = RECVD_CHUNKED ->
  exists self' msg, nn_sws_recv alloc self junk = Ret (self', msg) /\
    still max self' /\ instate self' = RECV_HDR /\ between self' /\ rx self' = Some (RxInhdr 0, 2) /\
    carried self self' /\ continuing self' = false /\
    msg = WsMessage (opcode_hdrs (Z.land (inmsg_hdr self) (Z.lnot NN_SWS_FRAME_BITMASK_FIN)) junk) (concat (inmsg_array self)).
Proof.
  intros Hs Hp Hi. unfold nn_sws_recv, assert_state. rewrite bool_decide_eq_true_2 by apply Hs. cbn [check]. rewrite bind_of_Ret.
  rewrite Hi. destruct Hp as [E|E|E|_ Hpi Hf [Hok1 Hok2] Hrx|E]; try congruence.
  rewrite (final_opcode_ok self (inmsg_hdr self)) by tauto. rewrite bind_of_Ret. unfold nn_chunkref_init.
  destruct (st_total _ _ Hs) as [Ht Hmax]. pose proof (sum_sizes_nonneg (inmsg_array self)).
  destruct (alloc_small (inmsg_total_size self)) as [data Ha]; [lia|]. rewrite Ha, bind_of_Ret.
  destruct (alloc_size _ _ Ha) as [Hsz _]. rewrite reassemble_ok by lia. rewrite bind_of_Ret. rewrite Z.add_0_l, Ht, Z.eqb_refl.
  cbn [check]. rewrite bind_of_Ret. rewrite reset_total by done.
  match goal with |- context [nn_sws_recv_hdr ?s] => destruct (recv_hdr_facts s) as (s' & -> & H1 & H2 & H3 & H4 & H5 & H6) end.
  { destruct Hs; split; cbn; auto; try lia. } { done. }
  rewrite !bind_of_Ret. exists s'. eexists. split; [reflexivity|]. repeat (split; [done|]).
  f_equal. change (Z.to_nat 0) with 0%nat. cbn [take app]. rewrite drop_ge by (unfold size in *; lia). by rewrite app_nil_r.
Qed.

Lemma recv_control_safe self junk :
  still max self -> phase self -> instate self = RECVD_CONTROL ->
  exists self' msg, nn_sws_recv alloc self junk = Ret (self', msg) /\
    still max self' /\ instate self' = RECV_HDR /\ between self' /\ rx self' = Some (RxInhdr 0, 2) /\
    carried self self'.
Proof.
  intros Hs Hp Hi. unfold nn_sws_recv, assert_state. rewrite bool_decide_eq_true_2 by apply Hs. cbn [check]. rewrite bind_of_Ret.
  rewrite Hi. destruct Hp as [E|E|E|E|_ Hpi [(b0 & Hb0 & Ho & Hb0f) Hctl Hk] Hc Hcl Hlen Hrx]; try congruence.
  rewrite Hc in Hk. destruct Hk as (Hfin & Hl125 & Hbt & Hop).
  rewrite (nth_c_Z _ 0 b0) by done. rewrite bind_of_Ret.
  rewrite final_opcode_ok by (rewrite ?Ho, ?Hb0f; tauto). rewrite bind_of_Ret. unfold nn_chunkref_init.
  destruct (alloc_small (inmsg_current_chunk_len self)) as [data Ha]; [lia|]. rewrite Ha, bind_of_Ret.
  destruct (alloc_size _ _ Ha) as [Hsz _]. pose proof (st_control _ _ Hs) as Hcl'.
  destruct (read_in (inmsg_control self) 0 (inmsg_current_chunk_len self)) as (bs & -> & Hbs & _); [lia|lia|unfold size; lia|].
  rewrite bind_of_Ret. destruct (write_in data 0 bs) as (out & -> & Hout); [lia|lia|]. rewrite bind_of_Ret.
  destruct (recv_hdr_facts self Hs Hbt) as (s' & -> & H1 & H2 & H3 & H4 & H5 & _).
  rewrite !bind_of_Ret. exists s'. eexists. split; [reflexivity|]. done.
Qed.

Lemma pipe_recv_safe self junk :
  still max self -> phase self -> Pipe.instate (pipebase self) = Pipe.IN_IDLE ->
  exists self' msg, pipe_recv alloc self junk = Ret (self', msg) /\ inv max self' /\
    (instate self = RECVD_CHUNKED -> wbody msg = concat (inmsg_array self)).
Proof.
  intros Hs Hp Hpi. unfold pipe_recv.
  assert (H : exists self' msg, nn_sws_recv alloc self junk = Ret (self', msg) /\
    still max self' /\ instate self' = RECV_HDR /\ between self' /\ rx self' = Some (RxInhdr 0, 2) /\
    pipebase self' = pipebase self /\ (instate self = RECVD_CHUNKED -> wbody msg = concat (inmsg_array self))).
  { assert (Hi : instate self = RECVD_CHUNKED \/ instate self = RECVD_CONTROL) by (destruct Hp; (congruence || tauto)).
    destruct Hi as [Hi|Hi].
    - destruct (recv_chunked_safe self junk Hs Hp Hi) as (s & msg & H1 & H2 & H3 & H4 & H5 & [H6 _] & _ & ->).
      exists s. eexists. done.
    - destruct (recv_control_safe self junk Hs Hp Hi) as (s & msg & H1 & H2 & H3 & H4 & H5 & [H6 _]). exists s, msg.
      repeat (split; [done|]). congruence. }
  destruct H as (s & msg & -> & Hs' & Hi & Hb & Hrx & Hpb & Hmsg). rewrite bind_of_Ret.
  rewrite Pipe.pipe_recv_idle by (rewrite ?Hpb; done). rewrite bind_of_Ret. cbn [Pipe.sync Pipe.message].
  do 2 eexists. split; [done|]. split; [|done]. left. split; [destruct Hs'; split; cbn; auto|]. by apply ph_hdr.
Qed.

(** ** Every stream of bytes *)

  Context (local : Z) (ispeer : Z -> bool) (le : bool) (hash_junk rand_key : list Z) (sock_add : Z).

Abbreviation usock_received := (usock_received alloc rand_mask max local ispeer le hash_junk rand_key sock_add).

(** The socket delivers what was asked for; the core takes a message. *)
Inductive ws_event : Type := Bytes (data : list Z) | Receive (junk : list Z).

Definition ws_step (m : memory) (self : nn_sws) (e : ws_event) : outcome nn_sws :=
  match e with
  | Bytes data =>
      match rx self with
      | Some (_, len) => if size data =? len then snd <$> usock_received self m data else Ret self
      | None => Ret self
      end
  | Receive junk =>
      match state self, Pipe.instate (pipebase self) with
      | ACTIVE, Pipe.IN_IDLE => fst <$> pipe_recv alloc self junk
      | _, _ => Ret self
      end
  end.

Fixpoint ws_run (m : memory) (self : nn_sws) (es : list ws_event) : outcome nn_sws :=
  match es with [] => Ret self | e :: es => self ← ws_step m self e; ws_run m self es end.

Definition event_ok (e : ws_event) : Prop := match e with Bytes data => bytes data | Receive _ => True end.

(** The two ways an assertion fails: the fourth byte of a code point that was
    cut behind the third, and a payload length that wraps the total size around. *)
Definition ws_crash (self : nn_sws) (e : ws_event) : Prop :=
  match e with
  | Bytes data =>
      (instate self = RECV_PAYLOAD /\ utf8_code_pt_fragment_len self = 3) \/
      (instate self = RECV_HDREXT /\ exists len, nn_getll data = Ret len /\ 2 ^ 64 <= inmsg_total_size self + len)
  | Receive _ => False
  end.

Lemma getll_app data rest : size data >= 8 -> nn_getll (data ++ rest) = nn_getll data.
Proof.
  unfold size. intros Hd. destruct data as [|b0 [|b1 [|b2 [|b3 [|b4 [|b5 [|b6 [|b7 data]]]]]]]]; cbn in Hd; try lia.
  reflexivity.
Qed.

Lemma fill_hdr self off data :
  still max self -> bytes data -> 0 <= off -> off + size data <= 14 ->
  exists hdr, write_at (inhdr self) off data = Ret hdr /\ length hdr = 14%nat /\ bytes hdr /\
    (off = 2 -> hdr !! 0%nat = inhdr self !! 0%nat /\ exists rest, drop 2 hdr = data ++ rest).
Proof.
  intros Hs Hb Ho Hl. pose proof (st_inhdr _ _ Hs) as Hh.
  destruct (write_in (inhdr self) off data) as (hdr & E & Hlen); [done|unfold size in *; lia|].
  exists hdr. split; [done|]. split; [lia|]. split; [by apply (write_bytes _ _ _ _ E); [apply Hs|]|].
  intros ->. unfold write_at in E. destruct (_ && _)%bool; [|done]. injection E as <-.
  destruct (inhdr self) as [|b0 [|b1 hdr0]]; cbn in Hh; try lia. split; [done|]. eexists. reflexivity.
Qed.

Lemma received_eq self m data self' :
  usock_fill self data = Ret self' -> state self' = ACTIVE -> fsm_st (sfsm self') = FSM_ACTIVE ->
  usock_received self m data = s ← handle_received alloc rand_mask max self'; Ret (m, s).
Proof.
  intros Hfill Ha Hf. unfold Sws.usock_received. rewrite Hfill, bind_of_Ret. unfold nn_fsm_feed, session.
  cbn [fsm fn snd fst]. rewrite decide_True by (rewrite Hf; done). unfold nn_sws_handler. rewrite Ha. unfold handle_active.
  change (NN_SWS_SRC_USOCK =? NN_SWS_SRC_USOCK) with true. cbv iota.
  change (NN_USOCK_RECEIVED =? WsHandshake.NN_USOCK_SENT) with false.
  change (NN_USOCK_RECEIVED =? NN_USOCK_RECEIVED) with true. done.
Qed.

Lemma active_received self m data self' :
  usock_fill self data = Ret self' -> state self' = ACTIVE -> fsm_st (sfsm self') = FSM_ACTIVE ->
  snd <$> usock_received self m data = handle_received alloc rand_mask max self'.
Proof. intros. rewrite (received_eq _ _ _ self') by done. by destruct (handle_received _ _ _ self'). Qed.

Lemma bytes_safe m self data :
  still max self -> phase self -> (exists dst, rx self = Some (dst, size data)) -> bytes data ->
  safe (inv max) (ws_crash self (Bytes data)) (snd <$> usock_received self m data).
Proof.
  intros Hs Hp [dst Hrx] Hb.
  assert (Hfill : forall self', usock_fill self data = Ret self' -> still max self' ->
    snd <$> usock_received self m data = handle_received alloc rand_mask max self').
  { intros self' E H. apply active_received; [exact E|apply H..]. }
  unfold usock_fill in Hfill. rewrite Hrx, Z.eqb_refl in Hfill. cbn [negb] in Hfill. cbv zeta in Hfill.
  destruct Hp as [Hi Hpi Hbt Hrx'|Hi Hpi Hf Hx Hxe Hcl Hrx'|Hi Hpi Hf Hbuf Hm Hl Hcl Hrx'|Hi Hpi Hfin Hok Hrx'|Hi Hpi Hf Hc Ho Hl Hrx'];
    rewrite Hrx in Hrx'; try done; injection Hrx' as -> Hsz.
  - destruct (fill_hdr self 0 data) as (hdr & E & Hh & Hbh & _); [done|done|lia|lia|].
    change (inhdr (self ⦃ rx := None ⦄)) with (inhdr self) in Hfill. rewrite E, bind_of_Ret in Hfill.
    match type of Hfill with forall s', Ret ?x = _ -> _ => assert (Hs' : still max x) by (destruct Hs; split; cbn; auto);
      rewrite (Hfill x eq_refl Hs'); clear Hfill E; unfold handle_received; change (instate x) with (instate self) end.
    rewrite Hi. eapply safe_mono; [apply handle_hdr_safe; try done|auto|done].
  - assert (Hlb : 0 < ext_hdr_len self <= 12).
    { rewrite Hxe in *. unfold length_bytes in *. destruct (masked self); repeat case_match; lia. }
    destruct (fill_hdr self 2 data) as (hdr & E & Hh & Hbh & Hfront); [done|done|lia|lia|].
    destruct (Hfront eq_refl) as [H0 [rest Hdrop]].
    change (inhdr (self ⦃ rx := None ⦄)) with (inhdr self) in Hfill. rewrite E, bind_of_Ret in Hfill.
    match type of Hfill with forall s', Ret ?x = _ -> _ => assert (Hs' : still max x) by (destruct Hs; split; cbn; auto);
      rewrite (Hfill x eq_refl Hs'); clear Hfill E; unfold handle_received; change (instate x) with (instate self) end.
    rewrite Hi. eapply safe_mono; [apply handle_hdrext_safe; try done|auto|].
    + destruct Hf as [F1 F2 F3]. split; cbn; auto. by rewrite H0.
    + intros [H127 (len & Hlen & Hw)]. right. split; [done|]. exists len. split; [|exact Hw].
      change (nn_getll (drop 2 hdr) = Ret len) in Hlen. rewrite Hdrop, getll_app in Hlen; [done|].
      change (payload_ctl self = 127) in H127. rewrite H127 in Hxe. rewrite Hsz, Hxe. destruct (masked self); cbn; lia.
  - assert (Hx : exists x, store_buf (self ⦃ rx := None ⦄) (inmsg_current_chunk_buf self) data = Ret x /\ still max x /\
      frame_ok x /\ buf_ok x /\ mask_ok x /\ rx x = None /\ Pipe.instate (pipebase x) = Pipe.IN_ASYNC /\
      instate x = RECV_PAYLOAD /\ inmsg_current_chunk_len x = inmsg_current_chunk_len self /\ opcode x = opcode self /\
      utf8_code_pt_fragment_len x = utf8_code_pt_fragment_len self).
    { destruct (store_buf_safe (self ⦃ rx := None ⦄) data) as (x & E & H1 & H2 & H3 & H4).
      - destruct Hs; split; cbn; auto.
      - destruct Hf; split; cbn; auto.
      - unfold buf_ok in *. cbn. done.
      - done.
      - exists x. split; [done|]. split; [done|]. split; [done|]. split; [done|].
        assert (Hm' : mask_ok (self ⦃ rx := None ⦄)) by done. unfold mask_ok in *. rewrite <-H4 in Hm'. split; [exact Hm'|].
        assert (Hall : let y := self ⦃ rx := None ⦄ in rx y = None /\ Pipe.instate (pipebase y) = Pipe.IN_ASYNC /\
          instate y = RECV_PAYLOAD /\ inmsg_current_chunk_len y = inmsg_current_chunk_len self /\ opcode y = opcode self /\
          utf8_code_pt_fragment_len y = utf8_code_pt_fragment_len self) by done.
        cbv zeta in Hall. rewrite <-H4 in Hall. exact Hall. }
    destruct Hx as (x & E & H1 & H2 & H3 & H4 & H5 & H6 & H7 & H8 & H9 & H10).
    rewrite (Hfill x E H1). unfold handle_received. rewrite H7.
    eapply safe_mono; [apply handle_payload_safe; try done|auto|].
    + rewrite H8. lia.
    + by rewrite H8, H9.
    + rewrite H10. intros H. by left.
Qed.

Lemma step_safe m self e : inv max self -> event_ok e -> safe (inv max) (ws_crash self e) (ws_step m self e).
Proof.
  intros [[Hs Hp]|Hf] He; destruct e as [data|junk]; cbn [ws_step].
  - destruct (rx self) as [[dst len]|] eqn:Hrx; [|by left]. destruct (Z.eqb_spec (size data) len) as [<-|]; [|by left].
    apply bytes_safe; [done|done|by exists dst|done].
  - rewrite (st_active _ _ Hs). destruct (Pipe.instate (pipebase self)) eqn:Hpi; try by left.
    destruct (pipe_recv_safe self junk Hs Hp Hpi) as (s & msg & -> & Hi & _). exact Hi.
  - destruct Hf as (Hst & Hin & Hrx). rewrite Hrx. by right.
  - destruct Hf as ([Hst|Hst] & Hin & Hrx); rewrite Hst; by right; unfold failed; auto.
Qed.

Lemma run_safe m self es :
  inv max self -> Forall event_ok es ->
  match ws_run m self es with
  | Ret self' => inv max self'
  | Abort => exists es1 e es2 s, es = es1 ++ e :: es2 /\ ws_run m self es1 = Ret s /\ ws_crash s e
  | Undef | NoFuel => False
  end.
Proof.
  revert self. induction es as [|e es IH]; intros self Hi He; cbn [ws_run]; [done|].
  apply Forall_cons in He as [He Hes]. pose proof (step_safe m self e Hi He) as Hstep.
  destruct (ws_step m self e) as [s| | |] eqn:Es; cbn [safe] in Hstep; try done.
  - rewrite bind_of_Ret. specialize (IH s Hstep Hes). destruct (ws_run m s es); try done.
    destruct IH as (es1 & e' & es2 & s' & -> & Hrun & Hcr). exists (e :: es1), e', es2, s'. split; [done|].
    split; [|done]. cbn [ws_run]. by rewrite Es, bind_of_Ret.
  - cbn. exists [], e, es, self. done.
Qed.

(** A session whose handshake has ended. *)
Record opened (self : nn_sws) : Prop := {
  op_state : state self = STOPPING_HANDSHAKE; op_fsm : fsm_st (sfsm self) = FSM_ACTIVE;
  op_done : nn_fsm_event_active (sfsm self) EV_DONE = false; op_pipe : Pipe.state (pipebase self) = Pipe.P_IDLE;
  op_mode : mode self = NN_WS_CLIENT \/ mode self = NN_WS_SERVER;
  op_inhdr : length (inhdr self) = 14%nat; op_control : length (inmsg_control self) = 125%nat;
  op_fail : length (fail_msg self) = 125%nat; op_frag : length (utf8_code_pt_fragment self) = 4%nat;
  op_flen : utf8_code_pt_fragment_len self = 0; op_array : inmsg_array self = []; op_cont : continuing self = false
}.

Lemma reset_inhdr self : nn_sws_recv_hdr self = nn_sws_recv_hdr (self ⦃ inhdr := replicate 14 0 ⦄).
Proof.
  unfold nn_sws_recv_hdr. change (continuing (self ⦃ inhdr := replicate 14 0 ⦄)) with (continuing self).
  change (inmsg_array (self ⦃ inhdr := replicate 14 0 ⦄)) with (inmsg_array self).
  destruct (negb (continuing self)); [by destruct (check _)|done].
Qed.

Lemma opened_active self :
  opened self -> 0 <= sock_add ->
  exists self', handle_stopping_handshake sock_add self NN_SWS_SRC_HANDSHAKE WsHandshake.NN_WS_HANDSHAKE_STOPPED = Ret self' /\
    still max self' /\ phase self' /\ instate self' = RECV_HDR.
Proof.
  intros [H1 H2 H3 H4 H5 H6 H7 H8 H9 H10 H11 H12] Hadd. unfold handle_stopping_handshake.
  change (NN_SWS_SRC_HANDSHAKE =? NN_SWS_SRC_HANDSHAKE) with true.
  change (WsHandshake.NN_WS_HANDSHAKE_STOPPED =? WsHandshake.NN_WS_HANDSHAKE_STOPPED) with true. cbn [andb].
  unfold Pipe.nn_pipebase_start. rewrite bool_decide_eq_true_2 by done. cbn [check]. rewrite !bind_of_Ret.
  rewrite (proj2 (Z.ltb_ge sock_add 0)) by done. cbv beta iota zeta. rewrite bind_of_Ret.
  change (0 <? 0) with false. cbv iota. rewrite reset_total by done. rewrite reset_inhdr.
  match goal with |- context [nn_sws_recv_hdr ?s] => set (self1 := s) end.
  destruct (recv_hdr_facts (self1 ⦃ state := ACTIVE ⦄)) as (s & E & Hs & Hi & Hb & Hrx & [Hpb _] & _).
  { split; cbn; auto; rewrite ?H11; cbn; try lia; [|rewrite H12; done].
    repeat constructor; unfold is_byte; lia. }
  { intros _. exact H11. }
  assert (Heq : exists s1, nn_sws_recv_hdr self1 = Ret s1 /\ s1 ⦃ state := ACTIVE ⦄ = s).
  { revert E. unfold nn_sws_recv_hdr. change (continuing (self1 ⦃ state := ACTIVE ⦄)) with (continuing self1).
    change (inmsg_array (self1 ⦃ state := ACTIVE ⦄)) with (inmsg_array self1).
    destruct (negb (continuing self1)); [destruct (check _)|]; cbn [mbind outcome_bind]; intros E; try done; injection E as <-;
      eexists; done. }
  destruct Heq as (s1 & -> & <-). rewrite bind_of_Ret. eexists. split; [done|].
  split; [destruct Hs; split; cbn; auto|]. split; [|done]. apply ph_hdr; try done. change (Pipe.instate (pipebase (s1 ⦃ state := ACTIVE ⦄)) = Pipe.IN_ASYNC). by rewrite Hpb.
Qed.

End inbound.

(** ** Concrete sessions *)

(** A session at the end of its handshake, with a pattern in the buffer of the
    close frame. *)
Definition at_start (md : Z) : nn_sws :=
  Sws (Fsm FSM_ACTIVE []) STOPPING_HANDSHAKE NN_WS_OPCODE_BINARY md true (WsHandshake.nn_ws_handshake_init [] [] 0)
    (Pipe.nn_pipebase_init (Pipe.EpOptions 8 8 0)) [] [] INSTATE_NONE (replicate 14 0) 0 0 false None 0 false false false
    (replicate 4 0) 0 0 0 [] BufNull 0 0 0 0 (replicate 125 0) (replicate 125 7) 0 OUTSTATE_NONE (replicate 14 0) 1%positive
    None None.

(** An allocator with [n] bytes at most. *)
Definition small_alloc (limit n : Z) : option (list Z) :=
  if (0 <=? n) && (n <=? limit) then Some (replicate (Z.to_nat n) 9) else None.

Lemma small_alloc_size limit n data : limit < 2 ^ 63 -> small_alloc limit n = Some data -> size data = n /\ n < 2 ^ 63.
Proof.
  unfold small_alloc. intros Hl. destruct (_ && _)%bool eqn:E; [|done]. intros [= <-].
  apply andb_true_iff in E as [E1 E2]. apply Z.leb_le in E1, E2. unfold size. rewrite length_replicate. lia.
Qed.

Lemma small_alloc_some limit n : 0 <= n <= limit -> is_Some (small_alloc limit n).
Proof. unfold small_alloc. intros [H1 H2]. rewrite (proj2 (Z.leb_le _ _) H1), (proj2 (Z.leb_le _ _) H2). by eexists. Qed.

Lemma at_start_opened md : md = NN_WS_CLIENT \/ md = NN_WS_SERVER -> opened (at_start md).
Proof. intros Hmd. by split. Qed.

(** The session reads a stream. *)
Definition after (md : Z) (stream : list Z) : outcome (nn_sws * list Z) :=
  self ← handle_stopping_handshake 0 (at_start md) NN_SWS_SRC_HANDSHAKE WsHandshake.NN_WS_HANDSHAKE_STOPPED;
  '(_, self, rest) ← feed (small_alloc 1000) [1; 2; 3; 4] 1000 0 (fun _ => true) true [] [] 0 (length stream) self
                       (Chunk.Memory ∅ ∅) stream;
  Ret (self, rest).

(** What the core then takes. *)
Definition taken (r : outcome (nn_sws * list Z)) : outcome (nn_sws * list Z) :=
  '(self, _) ← r; '(self, msg) ← pipe_recv (small_alloc 1000) self (replicate 7 0); Ret (self, wbody msg).


