(* ===== verification/SwsTrip.v ===== *)
(** * SwsTrip: messages over a WebSocket connection

    [sws_round_trip]: what [nn_sws_send] of Sws.v writes, a session of the other
    side reads and hands over as the message that was sent.  [shared_message]:
    what becomes of a message that is sent over two connections at once. *)

From Stdlib Require Import String.
From stdpp Require Import base gmap list.
From Stdlib Require Import ZArith Lia.
From S2P Require Import Prelude.
From S2P Require Import Update.
From S2P Require Import Wire.
From S2P Require Import Message.
From S2P Require Import Fsm.
From S2P Require Import Utf8.
From S2P Require Import Cmsg.
From S2P Require ListHeap.
Import ListHeap (loc).
From S2P Require Chunk.
From S2P Require ChunkSpec.
From S2P Require Pipe.
From S2P Require WsHandshake.
From S2P Require Import Sws.
From S2P Require Import SwsSpec.
Import WsHandshake (str, is_nil, NN_WS_CLIENT, NN_WS_SERVER, NN_USOCK_RECEIVED).
Import Chunk (memory, cref, refs, chunks, nn_chunkref, Vsm, Ref, Sphdr, Hdrs, Body, block, refcount, read_at, write_at,
  load_data, store_data, nn_chunkref_data, nn_chunkref_size, nn_msg_term, nn_msg_mv).
Import ChunkSpec (owned, vals, mem_rep, private, keeps, keeps_private, store_keeps).

Open Scope Z_scope.

#[local] Existing Instance Chunk.field_eq_dec.

(** ** Masking *)

(** The mask as a function. *)
Fixpoint masked_with (key : list Z) (i : Z) (data : list Z) : list Z :=
  match data with
  | [] => []
  | b :: data => Z.lxor b (nth (Z.to_nat (i mod 4)) key 0) :: masked_with key (i + 1) data
  end.

Lemma mask_bytes_eq key i data : size key = 4 -> mask_bytes key i data = Ret (masked_with key i data).
Proof.
  intros Hk. revert i. induction data as [|b data IH]; intros i; [done|]. cbn [mask_bytes masked_with].
  destruct (nth_in key (i mod size key)) as (x & Hx & Hl). { rewrite Hk. lia. }
  rewrite Hx, bind_of_Ret, IH, bind_of_Ret. do 2 f_equal. f_equal. rewrite Hk in Hl. symmetry. by apply nth_lookup_Some.
Qed.

Lemma masked_length key i data : length (masked_with key i data) = length data.
Proof. revert i. induction data as [|b data IH]; intros i; cbn; [done|by rewrite IH]. Qed.

Lemma masked_twice key i data : masked_with key i (masked_with key i data) = data.
Proof.
  revert i. induction data as [|b data IH]; intros i; cbn; [done|].
  by rewrite IH, Z.lxor_assoc, Z.lxor_nilpotent, Z.lxor_0_r.
Qed.

Lemma masked_app key i a b : masked_with key i (a ++ b) = masked_with key i a ++ masked_with key (i + size a) b.
Proof.
  revert i. induction a as [|x a IH]; intros i; cbn [masked_with app].
  - unfold size. cbn. by rewrite Z.add_0_r.
  - rewrite IH. f_equal. f_equal. f_equal. unfold size. cbn [length]. lia.
Qed.

Lemma masked_mod key i data : masked_with key (i mod 4) data = masked_with key i data.
Proof.
  revert i. induction data as [|b data IH]; intros i; cbn [masked_with]; [done|]. rewrite Z.mod_mod by lia. f_equal.
  rewrite <-(IH (i mod 4 + 1)), <-(IH (i + 1)). f_equal. rewrite (Z.add_mod_idemp_l i 1 4); [done|lia].
Qed.

Lemma lxor_byte a b : is_byte a -> is_byte b -> is_byte (Z.lxor a b).
Proof.
  unfold is_byte. intros Ha Hb. split; [apply Z.lxor_nonneg; lia|].
  destruct (Z.eq_dec (Z.lxor a b) 0) as [->|]; [lia|]. apply (Z.log2_lt_pow2 _ 8).
  - pose proof (proj2 (Z.lxor_nonneg a b)). lia.
  - pose proof (Z.log2_lxor a b ltac:(lia) ltac:(lia)).
    pose proof (Z.log2_le_mono a 255). pose proof (Z.log2_le_mono b 255). change (Z.log2 255) with 7 in *. lia.
Qed.

Lemma masked_bytes key i data : bytes key -> bytes data -> bytes (masked_with key i data).
Proof.
  intros Hk Hd. revert i. induction Hd as [|b data Hb Hd IH]; intros i; cbn [masked_with]; [constructor|].
  constructor; [|apply IH]. apply lxor_byte; [done|].
  destruct (nth_in_or_default (Z.to_nat (i mod 4)) key 0) as [Hin| ->]; [|unfold is_byte; lia].
  rewrite Forall_forall in Hk. apply Hk. by apply list_elem_of_In.
Qed.

(** ** The header of a frame *)

Definition length_code (n : Z) : Z := if n <=? 125 then n else if n <=? 65535 then 126 else 127.

Definition length_ext (n : Z) : list Z :=
  if n <=? 125 then [] else if n <=? 65535 then be_digits 2 n else be_digits 8 n.

Definition header (client : bool) (op n : Z) (key : list Z) : list Z :=
  [Z.lor op 0x80; Z.lor (length_code n) (if client then 0x80 else 0)] ++ length_ext n ++ (if client then key else []).

Definition is_client (self : nn_sws) : bool := mode self =? NN_WS_CLIENT.

Lemma frame_header_ok self op n key :
  (mode self = NN_WS_CLIENT \/ mode self = NN_WS_SERVER) -> 0 <= n < 2 ^ 64 -> size key = 4 ->
  exists hdr len, frame_header self op n key = Ret (hdr, len) /\
    read_at hdr 0 len = Ret (header (is_client self) op n key).
Proof.
  intros Hm Hn Hk. unfold size in Hk. destruct key as [|k0 [|k1 [|k2 [|k3 [|k4 key]]]]]; cbn in Hk; try lia. clear Hk.
  assert (E2 : exists d0 d1, be_digits 2 n = [d0; d1]) by (do 2 eexists; reflexivity).
  assert (E8 : exists d0 d1 d2 d3 d4 d5 d6 d7, be_digits 8 n = [d0; d1; d2; d3; d4; d5; d6; d7]) by (do 8 eexists; reflexivity).
  destruct E2 as (e0 & e1 & E2). destruct E8 as (d0 & d1 & d2 & d3 & d4 & d5 & d6 & d7 & E8).
  unfold frame_header, header, length_code, length_ext, is_client, NN_SWS_PAYLOAD_MAX_LENGTH, NN_SWS_PAYLOAD_MAX_LENGTH_16.
  destruct (Z.leb_spec n 125) as [H125|H125].
  - unfold u8. rewrite Z.mod_small by lia.
    destruct Hm as [Hm|Hm]; rewrite Hm; do 2 eexists; (split; [reflexivity|]); reflexivity.
  - destruct (Z.leb_spec n 65535) as [H16|H16].
    + unfold u16. rewrite (Z.mod_small n) by lia. rewrite puts_digits, E2.
      destruct Hm as [Hm|Hm]; rewrite Hm; do 2 eexists; (split; [reflexivity|]); reflexivity.
    + unfold u64. rewrite (Z.mod_small n) by lia. rewrite putll_digits, E8.
      destruct Hm as [Hm|Hm]; rewrite Hm; do 2 eexists; (split; [reflexivity|]); reflexivity.
Qed.

(** ** Messages in memory *)

Lemma mask_chunk_ok m g r data key start :
  mem_rep m g -> vals g !! r = Some data -> private m r -> size key = 4 -> size data < 2 ^ 32 ->
  exists m', mask_chunk m r key (Some start) = Ret (m', Some ((size data + start) mod 4)) /\
    mem_rep m' (ChunkSpec.put_val g r (masked_with key start data)) /\ keeps m m'.
Proof.
  intros Hm Hv Hp Hk Hd. unfold mask_chunk.
  destruct (ChunkSpec.data_ok m g r data Hm Hv) as (d & Ed & El).
  rewrite (ChunkSpec.size_ok m g r data Hm Hv), Ed, !bind_of_Ret, El, bind_of_Ret.
  unfold nn_sws_mask_payload. rewrite Z.geb_leb, (proj2 (Z.leb_gt _ _)) by done.
  rewrite mask_bytes_eq, !bind_of_Ret by done.
  assert (Hsz : size (masked_with key start data) = size data) by (unfold size; by rewrite masked_length).
  destruct (ChunkSpec.store_ok m g r data 0 (masked_with key start data)) as (m' & Es & Hm'); [done..|lia|lia|].
  rewrite Ed, bind_of_Ret in Es. rewrite Es, bind_of_Ret, Hsz, Hk. exists m'. split; [done|].
  split; [|by eapply store_keeps]. unfold ChunkSpec.overwrite in Hm'. rewrite Z.add_0_l, Hsz in Hm'. cbn [Z.to_nat take app] in Hm'.
  rewrite drop_ge, app_nil_r in Hm' by (unfold size; lia). done.
Qed.

(** A reference that holds nothing. *)
Definition holds_nothing (m : memory) (r : cref) : Prop := refs m !! r = Some (Vsm []).

Lemma term_nothing m r : holds_nothing m r -> Chunk.nn_chunkref_term m r = Ret m.
Proof. intros H. unfold Chunk.nn_chunkref_term, Chunk.ref_at. by rewrite H. Qed.

Lemma mv_private m d s m' :
  Chunk.nn_chunkref_mv m d s = Ret m' ->
  (private m s -> private m' d) /\ (forall r, r <> d -> private m r -> private m' r).
Proof.
  unfold Chunk.nn_chunkref_mv, Chunk.ref_at. destruct (refs m !! s) as [v|] eqn:E; [|done]. intros [= <-].
  split; [intros Hp|intros r Hr Hp]; intros p c; cbn.
  - rewrite lookup_insert_eq. intros [= ->]. by apply Hp.
  - rewrite lookup_insert_ne by done. apply Hp.
Qed.

(** Moving a message: the fields with their values, and what is not shared stays so. *)
Lemma msg_mv_ok m g dst src h d b :
  mem_rep m g -> dst <> src ->
  vals g !! (src, Sphdr) = Some h -> vals g !! (src, Hdrs) = Some d -> vals g !! (src, Body) = Some b ->
  (forall f, f <> Chunk.Var -> vals g !! (dst, f) = None) ->
  private m (src, Sphdr) -> private m (src, Body) ->
  exists m' g', nn_msg_mv m dst src = Ret m' /\ mem_rep m' g' /\
    vals g' !! (dst, Sphdr) = Some h /\ vals g' !! (dst, Hdrs) = Some d /\ vals g' !! (dst, Body) = Some b /\
    private m' (dst, Sphdr) /\ private m' (dst, Body).
Proof.
  intros Hm Hne H1 H2 H3 Hd P1 P2. unfold nn_msg_mv.
  destruct (ChunkSpec.mv_ok m g (dst, Sphdr) (src, Sphdr) h) as (m1 & E1 & Hm1); [done|done|by apply Hd|].
  rewrite E1, bind_of_Ret.
  destruct (ChunkSpec.mv_ok m1 _ (dst, Hdrs) (src, Hdrs) d Hm1) as (m2 & E2 & Hm2).
  { cbn. rewrite lookup_insert_ne, lookup_delete_ne by congruence. done. }
  { cbn. rewrite lookup_insert_ne, lookup_delete_ne by congruence. by apply Hd. }
  rewrite E2, bind_of_Ret.
  destruct (ChunkSpec.mv_ok m2 _ (dst, Body) (src, Body) b Hm2) as (m3 & E3 & Hm3).
  { cbn. do 2 rewrite lookup_insert_ne, lookup_delete_ne by congruence. done. }
  { cbn. do 2 rewrite lookup_insert_ne, lookup_delete_ne by congruence. by apply Hd. }
  destruct (mv_private _ _ _ _ E1) as [F1 G1]. destruct (mv_private _ _ _ _ E2) as [F2 G2].
  destruct (mv_private _ _ _ _ E3) as [F3 G3].
  exists m3. eexists. split; [done|]. split; [exact Hm3|]. split_and!.
  - cbn. do 2 rewrite lookup_insert_ne, lookup_delete_ne by congruence. by rewrite lookup_insert_eq.
  - cbn. rewrite lookup_insert_ne, lookup_delete_ne by congruence. by rewrite lookup_insert_eq.
  - cbn. by rewrite lookup_insert_eq.
  - apply G3; [congruence|]. apply G2; [congruence|]. by apply F1.
  - apply F3, G2; [congruence|]. by apply G1; [congruence|].
Qed.

(** The message to be sent, with its transport headers [d]; none of its bytes is
    shared; the session has nothing to send yet. *)
Record sendable (m : memory) (g : owned) (self : nn_sws) (msg : loc) (h d b : list Z) : Prop := {
  sn_rep : mem_rep m g; sn_other : outmsg self <> msg;
  sn_sphdr : vals g !! (msg, Sphdr) = Some h; sn_hdrs : vals g !! (msg, Hdrs) = Some d;
  sn_body : vals g !! (msg, Body) = Some b;
  sn_private : private m (msg, Sphdr) /\ private m (msg, Body);
  sn_nothing : forall f, f <> Chunk.Var -> holds_nothing m (outmsg self, f) /\ vals g !! (outmsg self, f) = Some [];
  sn_state : state self = ACTIVE; sn_out : outstate self = OUTSTATE_IDLE;
  sn_mode : mode self = NN_WS_CLIENT \/ mode self = NN_WS_SERVER
}.

Lemma drop_nothing m g r :
  mem_rep m g -> holds_nothing m r -> vals g !! r = Some [] -> mem_rep m (ChunkSpec.drop_val g r).
Proof.
  intros Hm Hn Hv. destruct (ChunkSpec.term_ok m g r [] Hm Hv) as (m' & E & Hm'). rewrite term_nothing in E by done.
  by injection E as <-.
Qed.

(** Moving the message to the session's own storage. *)
Lemma store_message m g self msg h d b :
  sendable m g self msg h d b ->
  nn_msg_term m (outmsg self) = Ret m /\
  exists m' g', nn_msg_mv m (outmsg self) msg = Ret m' /\ mem_rep m' g' /\
    vals g' !! (outmsg self, Sphdr) = Some h /\ vals g' !! (outmsg self, Hdrs) = Some d /\
    vals g' !! (outmsg self, Body) = Some b /\ private m' (outmsg self, Sphdr) /\ private m' (outmsg self, Body).
Proof.
  intros [Hm Ho Hh Hd Hb [P1 P2] Hn _ _ _]. split.
  - unfold nn_msg_term. by do 3 rewrite term_nothing, ?bind_of_Ret by (by apply Hn).
  - assert (Hm1 := drop_nothing _ _ (outmsg self, Sphdr) Hm (proj1 (Hn Sphdr ltac:(done))) (proj2 (Hn Sphdr ltac:(done)))).
    assert (Hm2 := drop_nothing _ _ (outmsg self, Hdrs) Hm1 (proj1 (Hn Hdrs ltac:(done)))
      ltac:(cbn; rewrite lookup_delete_ne by congruence; apply Hn; done)).
    assert (Hm3 := drop_nothing _ _ (outmsg self, Body) Hm2 (proj1 (Hn Body ltac:(done)))
      ltac:(cbn; rewrite !lookup_delete_ne by congruence; apply Hn; done)).
    apply (msg_mv_ok m _ (outmsg self) msg h d b Hm3); try done; try (cbn; by rewrite !lookup_delete_ne by congruence).
    intros f Hf. cbn. destruct f; [| | |done];
      repeat (rewrite lookup_delete_eq || (rewrite lookup_delete_ne by congruence)); done.
Qed.

(** What the socket sends of it: the header, and the message as it is or masked. *)
Definition frame (self : nn_sws) (op : Z) (key data : list Z) : list Z :=
  header (is_client self) op (size data) key ++ (if is_client self then masked_with key 0 data else data).

Lemma sws_send_ok m g self msg h d b op key :
  sendable m g self msg h d b -> send_opcode self d = Ret op -> size key = 4 -> size (h ++ b) < 2 ^ 32 ->
  exists m' self' iov, nn_sws_send self m msg key = Ret (m', self') /\ tx self' = Some iov /\
    gather self' m' iov = Ret (frame self op key (h ++ b)).
Proof.
  intros Hs Hop Hk Hsz. destruct (store_message _ _ _ _ _ _ _ Hs) as (Et & m1 & g1 & Em & Hm1 & V1 & V2 & V3 & P1 & P2).
  destruct Hs as [_ _ _ _ _ _ _ Hst Hout Hmode]. unfold nn_sws_send, assert_state.
  rewrite !bool_decide_eq_true_2 by done. cbn [check]. rewrite !bind_of_Ret, Et, bind_of_Ret, Em, bind_of_Ret.
  destruct (ChunkSpec.data_ok m1 g1 _ d Hm1 V2) as (dd & Ed & El).
  rewrite Ed, bind_of_Ret, (ChunkSpec.size_ok m1 g1 _ d Hm1 V2), bind_of_Ret, El, bind_of_Ret, Hop, bind_of_Ret.
  rewrite (ChunkSpec.size_ok m1 g1 _ h Hm1 V1), bind_of_Ret, (ChunkSpec.size_ok m1 g1 _ b Hm1 V3), bind_of_Ret.
  rewrite size_app in Hsz. pose proof (size_nonneg h). pose proof (size_nonneg b).
  unfold u64. rewrite Z.mod_small by lia.
  destruct (frame_header_ok self op (size h + size b) key Hmode ltac:(lia) Hk) as (hdr & len & -> & Eh).
  rewrite bind_of_Ret. unfold frame. rewrite size_app. fold (is_client self).
  assert (Hmask : exists m2 g2 h' b', (if is_client self then mask_message m1 (outmsg self) key else Ret m1) = Ret m2 /\
    mem_rep m2 g2 /\ vals g2 !! (outmsg self, Sphdr) = Some h' /\ vals g2 !! (outmsg self, Body) = Some b' /\
    h' ++ b' = (if is_client self then masked_with key 0 (h ++ b) else h ++ b)).
  { destruct (is_client self); [|by exists m1, g1, h, b]. unfold mask_message.
    destruct (mask_chunk_ok m1 g1 _ h key 0 Hm1 V1 P1 Hk ltac:(lia)) as (m2 & -> & Hm2 & K2). rewrite bind_of_Ret.
    destruct (mask_chunk_ok m2 _ (outmsg self, Body) b key ((size h + 0) mod 4) Hm2) as (m3 & -> & Hm3 & K3).
    { cbn. by rewrite lookup_insert_ne by congruence. } { by eapply keeps_private. } { done. } { lia. }
    rewrite bind_of_Ret. eexists m3, _, (masked_with key 0 h), _. split; [done|]. split; [exact Hm3|].
    split; [cbn; rewrite lookup_insert_ne by congruence; by rewrite lookup_insert_eq|].
    split; [cbn; by rewrite lookup_insert_eq|]. by rewrite Z.add_0_r, masked_mod, masked_app, Z.add_0_l. }
  destruct Hmask as (m2 & g2 & h' & b' & -> & Hm2 & W1 & W2 & <-). rewrite bind_of_Ret. unfold chunk_iov.
  destruct (ChunkSpec.data_ok m2 g2 _ h' Hm2 W1) as (d1 & Ed1 & El1).
  destruct (ChunkSpec.data_ok m2 g2 _ b' Hm2 W2) as (d2 & Ed2 & El2).
  rewrite Ed1, Ed2, !bind_of_Ret, (ChunkSpec.size_ok m2 g2 _ h' Hm2 W1), (ChunkSpec.size_ok m2 g2 _ b' Hm2 W2), !bind_of_Ret.
  do 3 eexists. split; [done|]. split; [done|]. cbn [gather gather_one]. cbn [outhdr].
  match goal with |- context [read_at (outhdr ?s) 0 len] => change (outhdr s) with hdr end.
  rewrite Eh, El1, El2, !bind_of_Ret. by rewrite app_nil_r.
Qed.

(** ** The other side *)

(** Text: a sequence of code points in UTF-8. *)
Definition is_text (data : list Z) : Prop := exists cps, Forall scalar cps /\ data = concat (utf8 <$> cps).

Lemma skip_text cps fuel :
  Forall scalar cps -> (length (concat (utf8 <$> cps)) <= fuel)%nat -> skip_code_points fuel (concat (utf8 <$> cps)) = Ret None.
Proof.
  intros Hcps. revert fuel. induction Hcps as [|cp cps Hcp Hcps IH]; intros fuel Hl; [by destruct fuel|].
  change (concat (utf8 <$> cp :: cps)) with (utf8 cp ++ concat (utf8 <$> cps)) in *.
  assert (Hpos : 0 < size (utf8 cp)) by (unfold utf8; repeat case_match; done).
  rewrite length_app in Hl. destruct fuel as [|fuel]; [unfold size in Hpos; lia|]. cbn [skip_code_points].
  rewrite size_app. pose proof (size_nonneg (concat (utf8 <$> cps))).
  rewrite (proj2 (Z.gtb_lt _ 0)) by lia. cbn [negb]. rewrite code_point_eq, bind_of_Ret, code_point_front by done.
  rewrite (proj2 (Z.gtb_lt _ 0)) by lia. rewrite Z.geb_leb, (proj2 (Z.leb_le _ _)) by lia. cbn [check].
  rewrite bind_of_Ret. unfold size at 1. rewrite Nat2Z.id, drop_app_length. apply IH. unfold size in Hpos. lia.
Qed.

(** The second byte of a header. *)
Lemma length_byte code : 0 <= code <= 127 ->
  is_set (Z.lor code 0x80) NN_SWS_FRAME_BITMASK_MASKED = true /\ Z.land (Z.lor code 0x80) NN_SWS_FRAME_BITMASK_LENGTH = code /\
  is_set (Z.lor code 0) NN_SWS_FRAME_BITMASK_MASKED = false /\ Z.land (Z.lor code 0) NN_SWS_FRAME_BITMASK_LENGTH = code.
Proof.
  intros Hc.
  pose proof (proj1 (forallb_forall (fun n => let c := Z.of_nat n in
    is_set (Z.lor c 0x80) 0x80 && (Z.land (Z.lor c 0x80) 0x7F =? c) && negb (is_set (Z.lor c 0) 0x80) &&
    (Z.land (Z.lor c 0) 0x7F =? c))%bool (List.seq 0 128))) as H.
  specialize (H ltac:(vm_compute; reflexivity) (Z.to_nat code)). cbv beta zeta in H.
  rewrite Z2Nat.id in H by lia. rewrite !andb_true_iff, negb_true_iff, !Z.eqb_eq in H.
  destruct H as [[[H1 H2] H3] H4]; [apply in_seq; lia|]. done.
Qed.

Lemma length_code_range n : 0 <= n -> 0 <= length_code n <= 127.
Proof. unfold length_code. destruct (Z.leb_spec n 125); [lia|]. destruct (_ <=? _); lia. Qed.

Section receiver.
  Context (alloc : Z -> option (list Z)) (rand_mask : list Z) (max : Z).
  Hypothesis alloc_size : forall n data, alloc n = Some data -> size data = n /\ n < 2 ^ 63.
  Hypothesis alloc_small : forall n, 0 <= n <= Z.max max 125 -> is_Some (alloc n).
  Hypothesis max_int : 0 <= max < 2 ^ 31.
  (** A message of opcode [op]. *)
  Context (op : Z) (op_data : op = NN_WS_OPCODE_TEXT \/ op = NN_WS_OPCODE_BINARY).

(** A frame of one-frame message is being received. *)
Record receiving (self : nn_sws) : Prop := {
  rc_still : still max self; rc_pipe : Pipe.instate (pipebase self) = Pipe.IN_ASYNC; rc_rx : rx self = None;
  rc_final : is_final_frame self = true; rc_op : opcode self = op; rc_hdr : inmsg_hdr self = Z.lor op 0x80;
  rc_ctl : is_control_frame self = false; rc_cont : continuing self = false; rc_flen : utf8_code_pt_fragment_len self = 0
}.

(** The message is there for the core. *)
Record delivered (body : list Z) (md : Z) (self : nn_sws) : Prop := {
  dl_still : still max self; dl_phase : phase self; dl_in : instate self = RECVD_CHUNKED;
  dl_pipe : Pipe.instate (pipebase self) = Pipe.IN_IDLE; dl_rx : rx self = None;
  dl_body : concat (inmsg_array self) = body; dl_hdr : inmsg_hdr self = Z.lor op 0x80;
  dl_flen : utf8_code_pt_fragment_len self = 0; dl_mode : mode self = md
}.

Lemma op_ok : msg_ok (Z.lor op 0x80).
Proof. apply first_header. destruct op_data as [->| ->]; [by left|by right]. Qed.

Lemma deliver self :
  receiving self ->
  exists s, pipe_received (self ⦃ instate := RECVD_CHUNKED ⦄) = Ret s /\ delivered (concat (inmsg_array self)) (mode self) s.
Proof.
  intros []. rewrite pipe_received_async by done. eexists. split; [done|].
  assert (Hs : still max (self ⦃ instate := RECVD_CHUNKED ⦄ ⦃ pipebase := Pipe.set_in (pipebase self) Pipe.IN_IDLE ⦄))
    by (destruct rc_still0; split; cbn; auto).
  split; try done. apply ph_chunked; try done. change (msg_ok (inmsg_hdr self)). rewrite rc_hdr0. apply op_ok.
Qed.

Lemma deliver_done self :
  receiving self -> exists s, chunk_done self = Ret s /\ delivered (concat (inmsg_array self)) (mode self) s.
Proof. intros H. unfold chunk_done. rewrite (rc_final _ H). by apply deliver. Qed.

(** The payload, unmasked, is checked and handed over. *)
Lemma deliver_text self data :
  receiving self -> is_text data -> payload self = Ret data ->
  exists s, nn_sws_validate_utf8_chunk rand_mask self = Ret s /\ delivered (concat (inmsg_array self)) (mode self) s.
Proof.
  intros H (cps & Hcps & ->) Hp. unfold nn_sws_validate_utf8_chunk. rewrite Hp, bind_of_Ret, (rc_flen _ H).
  change (negb (0 =? 0)) with false. cbv iota. unfold validate_rest. rewrite (rc_flen _ H).
  change (negb (0 >=? NN_SWS_UTF8_MAX_CODEPOINT_LEN)) with true. cbn [check]. rewrite bind_of_Ret, skip_text, bind_of_Ret by done.
  match goal with |- context [chunk_done ?x] => destruct (deliver_done x) as (s & -> & Hd) end; [|by exists s].
  destruct H as [Hs]. split; try done. destruct Hs; split; cbn; auto. lia.
Qed.

(** Room for the payload. *)
Lemma room_for_payload self refusal :
  receiving self -> inmsg_array self = [] -> 0 < inmsg_current_chunk_len self <= max ->
  exists s junk, recv_payload alloc rand_mask max self refusal = Ret s /\
    s = self ⦃ inmsg_total_size := inmsg_current_chunk_len self ⦄ ⦃ inmsg_chunks := inmsg_chunks self + 1 ⦄
         ⦃ inmsg_array := [junk] ⦄ ⦃ inmsg_current_chunk_buf := BufChunk 0 ⦄ ⦃ instate := RECV_PAYLOAD ⦄
         ⦃ rx := Some (RxPayload (BufChunk 0), inmsg_current_chunk_len self) ⦄ /\
    size junk = inmsg_current_chunk_len self.
Proof.
  intros H Ha Hl. unfold recv_payload. rewrite (rc_ctl _ H). destruct (st_total _ _ (rc_still _ H)) as [Ht _].
  rewrite Ha in Ht. cbn [sum_sizes] in Ht. rewrite Ht, Z.add_0_l. unfold u64. rewrite Z.mod_small by lia. cbv zeta.
  match goal with |- context [inmsg_total_size ?s >? max] => change (inmsg_total_size s) with (inmsg_current_chunk_len self) end.
  destruct (Z.gtb_spec (inmsg_current_chunk_len self) max); [lia|]. rewrite andb_false_r.
  unfold nn_msg_chunk_new, nn_chunkref_init.
  match goal with |- context [alloc (inmsg_current_chunk_len ?s)] =>
    change (inmsg_current_chunk_len s) with (inmsg_current_chunk_len self) end.
  destruct (alloc_small (inmsg_current_chunk_len self)) as [junk Hj]; [lia|]. rewrite Hj, !bind_of_Ret.
  destruct (alloc_size _ _ Hj) as [Hsz _].
  match goal with |- context [inmsg_array ?s ++ [junk]] => change (inmsg_array s) with (inmsg_array self) end.
  match goal with |- context [length (inmsg_array ?s)] => change (inmsg_array s) with (inmsg_array self) end.
  rewrite Ha. eexists. exists junk. split; [reflexivity|]. split; [reflexivity|done].
Qed.

  Context (local : Z) (ispeer : Z -> bool) (le : bool) (hash_junk rand_key : list Z) (sock_add : Z).

Abbreviation usock_received := (usock_received alloc rand_mask max local ispeer le hash_junk rand_key sock_add).
Abbreviation feed := (feed alloc rand_mask max local ispeer le hash_junk rand_key sock_add).

(** The payload of [n] bytes is all that is missing. *)
Record awaiting (n : Z) (key : list Z) (self : nn_sws) : Prop := {
  aw_receiving : receiving (self ⦃ rx := None ⦄); aw_in : instate self = RECV_PAYLOAD;
  aw_array : exists junk, inmsg_array self = [junk] /\ size junk = n;
  aw_buf : inmsg_current_chunk_buf self = BufChunk 0; aw_len : inmsg_current_chunk_len self = n;
  aw_rx : rx self = Some (RxPayload (BufChunk 0), n);
  aw_mask : masked self = true -> exists off, mask self = Some off /\ read_at (inhdr self) off 4 = Ret key
}.

Lemma write_all junk data : size data = size junk -> write_at junk 0 data = Ret data.
Proof.
  intros Hd. unfold write_at. rewrite Z.add_0_l, Hd, (proj2 (Z.leb_le (size junk) _)) by lia. cbn [Z.leb andb Z.compare].
  rewrite drop_ge, app_nil_r by (unfold size in *; lia). done.
Qed.

Lemma read_all data : read_at data 0 (size data) = Ret data.
Proof.
  unfold read_at. rewrite Z.add_0_l, (Z.leb_refl (size data)). change (0 <=? 0) with true. cbn [andb].
  change (Z.to_nat 0) with 0%nat. rewrite drop_0. by rewrite take_ge by (unfold size; lia).
Qed.

Lemma receiving_chunk self data data' :
  receiving self -> inmsg_array self = [data] -> size data' = size data ->
  receiving (self ⦃ inmsg_array := [data'] ⦄).
Proof.
  intros [Hs] Ha Hd. split; try done. destruct Hs; split; cbn; auto. rewrite Ha in *. cbn [sum_sizes] in *. lia.
Qed.

(** A payload that is in its chunk. *)
Lemma handle_payload_ok self data key body :
  receiving self -> inmsg_array self = [data] -> inmsg_current_chunk_buf self = BufChunk 0 ->
  inmsg_current_chunk_len self = size data -> size data < 2 ^ 32 -> size key = 4 ->
  (masked self = true -> exists off, mask self = Some off /\ read_at (inhdr self) off 4 = Ret key) ->
  body = (if masked self then masked_with key 0 data else data) -> (op = NN_WS_OPCODE_TEXT -> is_text body) ->
  exists s, handle_payload rand_mask self = Ret s /\ delivered body (mode self) s.
Proof.
  intros Hr Ha Hb Hl Hd Hk Hm Hbody Ht. unfold handle_payload.
  assert (Hbs : size body = size data) by (rewrite Hbody; destruct (masked self); unfold size; by rewrite ?masked_length).
  assert (Hu : unmask self = Ret (self ⦃ inmsg_array := [body] ⦄)).
  { unfold unmask. destruct (masked self) eqn:Em.
    - destruct (Hm eq_refl) as (off & -> & Hkey). rewrite bind_of_Ret. change NN_SWS_FRAME_SIZE_MASK with 4.
      rewrite Hkey, bind_of_Ret. unfold payload. rewrite Hb. cbn [load_buf]. rewrite Ha. cbn [lookup list_lookup].
      rewrite bind_of_Ret, Hl, read_all, bind_of_Ret. unfold nn_sws_mask_payload.
      rewrite Z.geb_leb, (proj2 (Z.leb_gt _ _)) by done. rewrite mask_bytes_eq, !bind_of_Ret by done.
      unfold store_buf. cbn [load_buf]. rewrite Ha. cbn [lookup list_lookup]. rewrite bind_of_Ret, <-Hbody, write_all, bind_of_Ret by done.
      done.
    - rewrite Hbody, <-Ha. by destruct self. }
  rewrite Hu, bind_of_Ret. pose proof (receiving_chunk self data body Hr Ha Hbs) as Hr'.
  assert (Hp : payload (self ⦃ inmsg_array := [body] ⦄) = Ret body).
  { unfold payload. cbn. rewrite Hb. cbn. rewrite Hl, <-Hbs. apply read_all. }
  assert (E : concat (inmsg_array (self ⦃ inmsg_array := [body] ⦄)) = body) by (cbn; by rewrite app_nil_r).
  change (opcode (self ⦃ inmsg_array := [body] ⦄)) with (opcode self). rewrite (rc_op _ Hr).
  destruct op_data as [Hop|Hop].
  - rewrite (proj2 (Z.eqb_eq _ _) Hop). destruct (deliver_text _ body Hr' (Ht Hop) Hp) as (s & -> & Hs).
    rewrite E in Hs. by exists s.
  - assert (E1 : (op =? NN_WS_OPCODE_TEXT) = false) by (rewrite Hop; done).
    rewrite E1, (proj2 (Z.eqb_eq op NN_WS_OPCODE_BINARY) Hop).
    destruct (deliver_done _ Hr') as (s & -> & Hs). rewrite E in Hs. by exists s.
Qed.

Lemma payload_arrives n key self m data body :
  awaiting n key self -> size data = n -> n < 2 ^ 32 -> size key = 4 ->
  body = (if masked self then masked_with key 0 data else data) -> (op = NN_WS_OPCODE_TEXT -> is_text body) ->
  exists s, usock_received self m data = Ret (m, s) /\ delivered body (mode self) s.
Proof.
  intros [Hr Hi (junk & Ha & Hj) Hb Hl Hrx Hm] Hd Hn Hk Hbody Ht.
  pose proof (rc_still _ Hr) as Hs.
  rewrite (received_eq alloc rand_mask max local ispeer le hash_junk rand_key sock_add self m data
    (self ⦃ rx := None ⦄ ⦃ inmsg_array := [data] ⦄)).
  - unfold handle_received. change (instate (self ⦃ rx := None ⦄ ⦃ inmsg_array := [data] ⦄)) with (instate self). rewrite Hi.
    destruct (handle_payload_ok (self ⦃ rx := None ⦄ ⦃ inmsg_array := [data] ⦄) data key body) as (s & -> & Hs'); try done.
    + apply (receiving_chunk _ junk); [done|done|congruence].
    + cbn. congruence.
    + lia.
    + rewrite bind_of_Ret. by exists s.
  - unfold usock_fill. rewrite Hrx, (proj2 (Z.eqb_eq _ _) Hd). cbn [negb]. cbv zeta. unfold store_buf. cbn [load_buf].
    change (inmsg_array (self ⦃ rx := None ⦄)) with (inmsg_array self). rewrite Ha. cbn [lookup list_lookup].
    rewrite bind_of_Ret, write_all, bind_of_Ret by congruence. done.
  - apply (st_active _ _ Hs).
  - apply (st_fsm _ _ Hs).
Qed.

(** *** The header *)

(** The session waits for a frame, and no message is in progress. *)
Record ready (self : nn_sws) : Prop := {
  rd_still : still max self; rd_pipe : Pipe.instate (pipebase self) = Pipe.IN_ASYNC; rd_in : instate self = RECV_HDR;
  rd_rx : rx self = Some (RxInhdr 0, 2); rd_cont : continuing self = false; rd_array : inmsg_array self = [];
  rd_flen : utf8_code_pt_fragment_len self = 0
}.

(** Bytes of the header behind the first two. *)
Definition more_header (cs : bool) (n : Z) : Z := (if cs then 4 else 0) + length_bytes (length_code n).

Definition first_bytes (cs : bool) (n : Z) : list Z := [Z.lor op 0x80; Z.lor (length_code n) (if cs then 0x80 else 0)].

(** The first two bytes are in the buffer. *)
Record parsed (cs : bool) (n : Z) (self : nn_sws) : Prop := {
  pa_receiving : receiving self; pa_ctl : payload_ctl self = length_code n; pa_ext : ext_hdr_len self = more_header cs n;
  pa_masked : masked self = cs; pa_array : inmsg_array self = [];
  pa_mode : mode self = (if cs then NN_WS_SERVER else NN_WS_CLIENT);
  pa_inhdr : exists tail, inhdr self = first_bytes cs n ++ tail /\ length tail = 12%nat
}.

Lemma length_bytes_nonneg ctl : 0 <= length_bytes ctl.
Proof. unfold length_bytes. destruct (_ <=? _); [|destruct (_ =? _)]; lia. Qed.

Lemma op_bits :
  (is_set (Z.lor op 0x80) NN_SWS_FRAME_BITMASK_RSV1 || is_set (Z.lor op 0x80) NN_SWS_FRAME_BITMASK_RSV2 ||
   is_set (Z.lor op 0x80) NN_SWS_FRAME_BITMASK_RSV3)%bool = false /\
  is_set (Z.lor op 0x80) NN_SWS_FRAME_BITMASK_FIN = true /\
  Z.land (Z.lor op 0x80) NN_SWS_FRAME_BITMASK_OPCODE = op /\ Z.lor (Z.lor op 0x80) NN_SWS_FRAME_BITMASK_FIN = Z.lor op 0x80 /\
  (op =? NN_WS_OPCODE_FRAGMENT) = false /\ (op =? NN_WS_OPCODE_CLOSE) = false /\
  ((op =? NN_WS_OPCODE_TEXT) || (op =? NN_WS_OPCODE_BINARY))%bool = true.
Proof. destruct op_data as [->| ->]; by vm_compute. Qed.

Lemma more_bytes n : 0 <= n ->
  (if length_code n <=? NN_SWS_PAYLOAD_MAX_LENGTH then Ret NN_SWS_FRAME_SIZE_PAYLOAD_0
   else if length_code n =? NN_SWS_PAYLOAD_FRAME_16 then Ret NN_SWS_FRAME_SIZE_PAYLOAD_16
   else if length_code n =? NN_SWS_PAYLOAD_FRAME_63 then Ret NN_SWS_FRAME_SIZE_PAYLOAD_63
   else Abort) = Ret (length_bytes (length_code n)).
Proof.
  intros Hn. unfold length_bytes, length_code. destruct (Z.leb_spec n 125) as [H|H].
  - rewrite (proj2 (Z.leb_le n NN_SWS_PAYLOAD_MAX_LENGTH)) by (unfold NN_SWS_PAYLOAD_MAX_LENGTH; lia).
    by rewrite (proj2 (Z.leb_le n 125)) by lia.
  - by destruct (n <=? 65535).
Qed.

Lemma handle_hdr_ok (cs : bool) (n : Z) (self : nn_sws) (tail : list Z) :
  still max self -> Pipe.instate (pipebase self) = Pipe.IN_ASYNC -> rx self = None -> continuing self = false ->
  inmsg_array self = [] -> utf8_code_pt_fragment_len self = 0 -> 0 <= n ->
  mode self = (if cs then NN_WS_SERVER else NN_WS_CLIENT) -> inhdr self = first_bytes cs n ++ tail ->
  exists s, parsed cs n s /\
    handle_hdr alloc rand_mask max self =
      if is_bare s then pipe_received (s ⦃ inmsg_current_chunk_len := 0 ⦄ ⦃ instate := RECVD_CHUNKED ⦄)
      else recv_rest alloc rand_mask max s.
Proof.
  intros Hs Hp Hrx Hc Ha Hfl Hn Hm Hin. unfold handle_hdr. rewrite Hin. unfold first_bytes at 1 2.
  cbn [app]. rewrite (nth_c_Z _ 0 (Z.lor op 0x80)), (nth_c_Z _ 1 (Z.lor (length_code n) (if cs then 0x80 else 0))) by done.
  rewrite !bind_of_Ret. destruct op_bits as (-> & -> & -> & Ehdr & Efrag & Eclose & Edata). cbv zeta.
  destruct (length_byte (length_code n) (length_code_range n Hn)) as (B1 & B2 & B3 & B4).
  assert (Ebits : is_set (Z.lor (length_code n) (if cs then 0x80 else 0)) NN_SWS_FRAME_BITMASK_MASKED = cs /\
    Z.land (Z.lor (length_code n) (if cs then 0x80 else 0)) NN_SWS_FRAME_BITMASK_LENGTH = length_code n) by (by destruct cs).
  destruct Ebits as [-> ->].
  set (self1 := self ⦃ _ := _ ⦄ ⦃ _ := _ ⦄).
  assert (Erule : mask_rule self1 = Ret (inl (if cs then 4 else 0))).
  { unfold mask_rule. change (mode self1) with (mode self). change (masked self1) with cs. rewrite Hm. by destruct cs. }
  rewrite Erule, bind_of_Ret. set (self2 := self1 ⦃ _ := _ ⦄ ⦃ _ := _ ⦄ ⦃ _ := _ ⦄).
  change (continuing self2) with (continuing self). rewrite Hc. change (opcode self2) with op. rewrite Efrag. cbn [negb andb].
  rewrite Ehdr. set (self3 := self2 ⦃ _ := _ ⦄). change (payload_ctl self3) with (length_code n).
  rewrite more_bytes, bind_of_Ret by done. set (self4 := self3 ⦃ _ := _ ⦄).
  exists (self4 ⦃ is_control_frame := false ⦄).
  assert (Hext : ext_hdr_len self4 = more_header cs n) by done.
  split.
  { split; try done.
    - split; try done. destruct Hs; split; cbn; auto. rewrite Hc. done.
    - exists tail. split; [exact Hin|]. pose proof (st_inhdr _ _ Hs) as Hl. rewrite Hin, length_app in Hl. cbn in Hl. lia. }
  unfold handle_opcode. change (opcode self4) with op. rewrite Edata. unfold data_opcode. set (self5 := self4 ⦃ _ := _ ⦄).
  change (continuing self5) with (continuing self). rewrite Hc. change (is_final_frame self5) with true. cbn [negb].
  destruct (is_bare self5) eqn:Hb; [|done]. unfold empty_frame. change (mode self5) with (mode self). rewrite Hm.
  assert (cs = false) as ->.
  { destruct cs; [|done]. unfold is_bare in Hb. change (ext_hdr_len self5) with (ext_hdr_len self4) in Hb. rewrite Hext in Hb.
    exfalso. unfold more_header in Hb. apply andb_true_iff in Hb as [Hb _]. apply Z.eqb_eq in Hb.
    pose proof (length_bytes_nonneg (length_code n)). lia. }
  cbn [check]. change (NN_WS_CLIENT =? NN_WS_CLIENT) with true. cbn [check]. rewrite bind_of_Ret. cbv zeta.
  match goal with |- context [continuing ?s] => change (continuing s) with (continuing self) end. rewrite Hc.
  rewrite !pipe_received_async by done. by rewrite !bind_of_Ret.
Qed.

Lemma length_ext_size n : size (length_ext n) = length_bytes (length_code n).
Proof.
  unfold length_ext, length_bytes, length_code. destruct (Z.leb_spec n 125); [by rewrite (proj2 (Z.leb_le n 125)) by lia|].
  by destruct (n <=? 65535).
Qed.

Lemma length_ext_bytes n : bytes (length_ext n).
Proof. unfold length_ext. destruct (_ <=? _); [constructor|]. destruct (_ <=? _); apply be_digits_bytes. Qed.

(** The rest of the header is what [header] has behind the first two bytes. *)
Definition rest_of_header (cs : bool) (n : Z) (key : list Z) : list Z := length_ext n ++ (if cs then key else []).

Lemma rest_size cs n key : size key = 4 -> size (rest_of_header cs n key) = more_header cs n.
Proof. intros Hk. unfold rest_of_header, more_header. rewrite size_app, length_ext_size. destruct cs; [lia|]. change (size []) with 0. lia. Qed.

(** The length and the place of the mask, read back. *)
Lemma read_length (cs : bool) n key rest self (mask_at : Z -> option Z) :
  0 <= n < 2 ^ 64 -> payload_ctl self = length_code n ->
  drop 2 (inhdr self) = rest_of_header cs n key ++ rest ->
  (if payload_ctl self <=? NN_SWS_PAYLOAD_MAX_LENGTH then Ret (payload_ctl self, mask_at NN_SWS_FRAME_SIZE_INITIAL)
   else if payload_ctl self =? NN_SWS_PAYLOAD_FRAME_16 then
     len ← nn_gets (drop (Z.to_nat NN_SWS_FRAME_SIZE_INITIAL) (inhdr self));
     Ret (len, mask_at (NN_SWS_FRAME_SIZE_INITIAL + NN_SWS_FRAME_SIZE_PAYLOAD_16))
   else
     len ← nn_getll (drop (Z.to_nat NN_SWS_FRAME_SIZE_INITIAL) (inhdr self));
     Ret (len, mask_at (NN_SWS_FRAME_SIZE_INITIAL + NN_SWS_FRAME_SIZE_PAYLOAD_63)))
  = Ret (n, mask_at (2 + size (length_ext n))).
Proof.
  intros Hn Hc Hd. change (Z.to_nat NN_SWS_FRAME_SIZE_INITIAL) with 2%nat. rewrite Hd, Hc. unfold rest_of_header, length_ext, length_code.
  change NN_SWS_PAYLOAD_MAX_LENGTH with 125. destruct (Z.leb_spec n 125) as [H|H].
  - by rewrite (proj2 (Z.leb_le n 125)) by lia.
  - destruct (Z.leb_spec n 65535) as [H16|H16].
    + change (126 <=? 125) with false. change (126 =? NN_SWS_PAYLOAD_FRAME_16) with true. cbv iota.
      rewrite <-app_assoc. pose proof (be_digits_bytes 2 n) as Hb.
      assert (E : nn_gets (be_digits 2 n ++ (if cs then key else []) ++ rest) = Ret n).
      { rewrite <-(be_of_digits 2 n) at 2 by (change (8 * Z.of_nat 2) with 16; lia). apply gets_be, Hb. }
      by rewrite E, bind_of_Ret.
    + change (127 <=? 125) with false. change (127 =? NN_SWS_PAYLOAD_FRAME_16) with false. cbv iota.
      rewrite <-app_assoc. pose proof (be_digits_bytes 8 n) as Hb.
      assert (E : nn_getll (be_digits 8 n ++ (if cs then key else []) ++ rest) = Ret n).
      { rewrite <-(be_of_digits 8 n) at 2 by (change (8 * Z.of_nat 8) with 64; lia). apply getll_be, Hb. }
      by rewrite E, bind_of_Ret.
Qed.

Lemma no_bad_length n : 0 <= n ->
  ((length_code n >? NN_SWS_PAYLOAD_MAX_LENGTH) && negb (length_code n =? NN_SWS_PAYLOAD_FRAME_16) &&
   negb (length_code n =? NN_SWS_PAYLOAD_FRAME_63))%bool = false.
Proof.
  intros Hn. unfold length_code. destruct (Z.leb_spec n 125); [|by destruct (n <=? 65535)].
  rewrite Z.gtb_ltb, (proj2 (Z.ltb_ge NN_SWS_PAYLOAD_MAX_LENGTH n)) by (unfold NN_SWS_PAYLOAD_MAX_LENGTH; lia). done.
Qed.

(** A session behind the header: the payload is awaited, or there is none. *)
Definition behind_header (cs : bool) (n : Z) (key : list Z) (s : nn_sws) : Prop :=
  if n =? 0 then delivered [] (if cs then NN_WS_SERVER else NN_WS_CLIENT) s
  else awaiting n key s /\ masked s = cs /\ mode s = (if cs then NN_WS_SERVER else NN_WS_CLIENT).

Lemma receiving_room cs n key self refusal :
  receiving self -> inmsg_array self = [] -> inmsg_current_chunk_len self = n -> 0 < n <= max -> masked self = cs ->
  mode self = (if cs then NN_WS_SERVER else NN_WS_CLIENT) ->
  (masked self = true -> exists off, mask self = Some off /\ read_at (inhdr self) off 4 = Ret key) ->
  exists s, recv_payload alloc rand_mask max self refusal = Ret s /\ behind_header cs n key s.
Proof.
  intros Hr Ha Hl Hn Hmk Hmo Hm. destruct (room_for_payload self refusal Hr Ha) as (s & junk & -> & Es & Hj); [lia|].
  exists s. split; [done|]. unfold behind_header. rewrite (proj2 (Z.eqb_neq n 0)) by lia.
  assert (Hs : still max s).
  { destruct Hr as [Hs]. rewrite Es. destruct Hs; split; cbn; auto. cbn. lia. }
  rewrite Es. split; [|done]. split; try done.
  - rewrite <-Es. destruct Hr. split; try (rewrite Es; done). destruct Hs; split; cbn; auto.
  - exists junk. split; [done|]. by rewrite Hj.
  - cbn. by rewrite Hl.
Qed.

Lemma handle_hdrext_ok cs n key rest self :
  receiving self -> inmsg_array self = [] -> payload_ctl self = length_code n -> 0 < ext_hdr_len self ->
  masked self = cs -> mode self = (if cs then NN_WS_SERVER else NN_WS_CLIENT) -> 0 <= n <= max -> size key = 4 ->
  inhdr self = first_bytes cs n ++ rest_of_header cs n key ++ rest ->
  exists s, handle_hdrext alloc rand_mask max self = Ret s /\ behind_header cs n key s.
Proof.
  intros Hr Ha Hc Hx Hmk Hmo Hn Hk Hin. unfold handle_hdrext. rewrite (proj2 (Z.gtb_lt (ext_hdr_len self) 0)) by done.
  cbn [check]. rewrite bind_of_Ret, Hc, no_bad_length by lia. rewrite <-Hc.
  rewrite (read_length cs n key rest self (fun off => if masked self then Some off else None)) by (rewrite ?Hin; (lia || done)).
  rewrite bind_of_Ret. cbv beta iota zeta. set (self' := self ⦃ _ := _ ⦄ ⦃ _ := _ ⦄).
  assert (Hr' : receiving self') by (destruct Hr as [Hs]; split; try done; destruct Hs; split; cbn; auto).
  change (inmsg_current_chunk_len self') with n. destruct (Z.eqb_spec n 0) as [->|Hne].
  - rewrite (rc_final _ Hr'). rewrite (rc_op _ Hr'). destruct op_bits as (_ & _ & _ & _ & _ & -> & _). rewrite (rc_ctl _ Hr').
    destruct (deliver self' Hr') as (s & -> & Hd). exists s. split; [done|]. unfold behind_header. cbn [Z.eqb].
    change (inmsg_array self') with (inmsg_array self) in Hd. rewrite Ha in Hd.
    change (mode self') with (mode self) in Hd. by rewrite Hmo in Hd.
  - apply receiving_room; try done; [lia|]. intros Hm. change (masked self' = true) with (masked self = true) in Hm.
    change (mask self') with (if masked self then Some (2 + size (length_ext n)) else None). rewrite Hm.
    eexists. split; [done|]. change (inhdr self') with (inhdr self). rewrite Hin. rewrite Hmk in Hm. rewrite Hm.
    unfold rest_of_header. rewrite <-app_assoc, (app_assoc (first_bytes true n)).
    apply ChunkSpec.read_at_app; [|done]. rewrite size_app. done.
Qed.

(** *** The whole frame *)

Lemma feed_stop k self m rest : rx self = None -> feed k self m rest = Ret (m, self, rest).
Proof. intros H. destruct k; cbn [Sws.feed]; by rewrite H. Qed.

Lemma feed_step k self m dst chunk rest s :
  rx self = Some (dst, size chunk) -> usock_received self m chunk = Ret (m, s) ->
  feed (S k) self m (chunk ++ rest) = feed k s m rest.
Proof.
  intros Hrx Hu. cbn [Sws.feed]. rewrite Hrx. rewrite size_app. pose proof (size_nonneg rest).
  rewrite (proj2 (Z.ltb_ge _ (size chunk))) by lia. unfold size. rewrite Nat2Z.id, take_app_length, drop_app_length.
  by rewrite Hu, bind_of_Ret.
Qed.

(** Bytes that go into the header buffer. *)
Lemma header_received self m off data tail front :
  still max self -> rx self = Some (RxInhdr off, size data) -> inhdr self = front ++ tail -> size front = off ->
  size data <= size tail ->
  usock_received self m data =
    s ← handle_received alloc rand_mask max
          (self ⦃ rx := None ⦄ ⦃ inhdr := front ++ data ++ drop (length data) tail ⦄); Ret (m, s).
Proof.
  intros Hs Hrx Hin Hf Hd. rewrite (received_eq alloc rand_mask max local ispeer le hash_junk rand_key sock_add self m data
    (self ⦃ rx := None ⦄ ⦃ inhdr := front ++ data ++ drop (length data) tail ⦄)); [done| |apply Hs|apply Hs].
  unfold usock_fill. rewrite Hrx, Z.eqb_refl. cbn [negb]. cbv zeta.
  change (inhdr (self ⦃ rx := None ⦄)) with (inhdr self). rewrite Hin. unfold write_at.
  pose proof (size_nonneg front). pose proof (size_nonneg data). rewrite size_app.
  rewrite (proj2 (Z.leb_le 0 off)), (proj2 (Z.leb_le (off + size data) _)) by lia. cbn [andb]. rewrite bind_of_Ret.
  do 3 f_equal.
  - rewrite take_app_length'; [done|]. unfold size in *. lia.
  - f_equal. rewrite drop_app_ge by (unfold size in *; lia). f_equal. unfold size in *. lia.
Qed.

Lemma still_inhdr self hdr : still max self -> length hdr = 14%nat -> bytes hdr -> still max (self ⦃ rx := None ⦄ ⦃ inhdr := hdr ⦄).
Proof. intros [] Hl Hb. split; cbn; auto. Qed.

Lemma first_bytes_ok cs n : 0 <= n -> bytes (first_bytes cs n).
Proof.
  intros Hn. pose proof (length_code_range n Hn). unfold first_bytes. constructor; [|constructor; [|constructor]].
  - destruct op_data as [->| ->]; (split; [by apply Z.leb_le|by apply Z.ltb_lt]).
  - pose proof (length_byte (length_code n) ltac:(lia)) as (_ & B & _ & B').
    assert (Hlt : forall a b, 0 <= a < 256 -> 0 <= b < 256 -> is_byte (Z.lor a b)).
    { intros a b Ha Hb. unfold is_byte. split; [apply Z.lor_nonneg; lia|].
      destruct (Z.eq_dec (Z.lor a b) 0) as [->|]; [lia|]. apply (Z.log2_lt_pow2 _ 8).
      - pose proof (proj2 (Z.lor_nonneg a b)). lia.
      - rewrite Z.log2_lor by lia. pose proof (Z.log2_le_mono a 255). pose proof (Z.log2_le_mono b 255).
        change (Z.log2 255) with 7 in *. lia. }
    destruct cs; apply Hlt; lia.
Qed.

Lemma header_is cs n key : header cs op n key = first_bytes cs n ++ rest_of_header cs n key.
Proof. reflexivity. Qed.

(** The header leads behind the header. *)
Lemma header_arrives (cs : bool) (n : Z) (key : list Z) (self : nn_sws) (m : memory) (k : nat) (stream : list Z) :
  ready self -> mode self = (if cs then NN_WS_SERVER else NN_WS_CLIENT) -> 0 <= n <= max -> size key = 4 -> bytes key ->
  exists s, behind_header cs n key s /\
    (exists j, (k <= j)%nat /\ feed (S (S k)) self m (header cs op n key ++ stream) = feed j s m stream).
Proof.
  intros [Hs Hp Hi Hrx Hc Ha Hf] Hmo Hn Hk Hkb. pose proof (first_bytes_ok cs n ltac:(lia)) as Hfb.
  assert (Hsplit : exists a b tail, inhdr self = [a; b] ++ tail /\ length tail = 12%nat /\ bytes tail).
  { pose proof (st_inhdr _ _ Hs) as Hl. pose proof (st_bytes _ _ Hs) as Hb. destruct (inhdr self) as [|a [|b tail]]; cbn in Hl; try lia.
    exists a, b, tail. split; [done|]. split; [lia|]. by apply Forall_cons in Hb as [_ [_ Hb]%Forall_cons]. }
  destruct Hsplit as (a & b & tail & Hin & Htl & Htb).
  pose proof (header_received self m 0 (first_bytes cs n) ([a; b] ++ tail) [] Hs Hrx Hin eq_refl) as Hrec.
  change (drop (length (first_bytes cs n)) ([a; b] ++ tail)) with tail in Hrec. rewrite app_nil_l in Hrec.
  specialize (Hrec ltac:(rewrite size_app; pose proof (size_nonneg tail); change (size (first_bytes cs n)) with 2; change (size [a; b]) with 2; lia)).
  set (self1 := self ⦃ rx := None ⦄ ⦃ inhdr := first_bytes cs n ++ tail ⦄) in Hrec.
  assert (Hs1 : still max self1).
  { apply still_inhdr; [done|rewrite length_app, Htl; done|by apply Forall_app]. }
  destruct (handle_hdr_ok cs n self1 tail) as (x & Hx & Ehdr); try done; [lia|].
  unfold handle_received in Hrec. change (instate self1) with (instate self) in Hrec. rewrite Hi, Ehdr in Hrec. clear Ehdr.
  destruct Hx as [Hxr Hxc Hxe Hxm Hxa Hxmo (tail' & Hxi & Htl')].
  rewrite header_is, <-app_assoc.
  destruct (Z.eq_dec (more_header cs n) 0) as [H0|H0].
  - assert (cs = false) as ->.
    { destruct cs; [|done]. unfold more_header in H0. pose proof (length_bytes_nonneg (length_code n)). lia. }
    assert (H125 : n <= 125).
    { unfold more_header, length_bytes, length_code in H0. destruct (Z.leb_spec n 125); [done|]. by destruct (n <=? 65535). }
    assert (Hcode : length_code n = n) by (unfold length_code; by rewrite (proj2 (Z.leb_le n 125)) by lia).
    assert (Hnil : rest_of_header false n key = []) by (unfold rest_of_header, length_ext; by rewrite (proj2 (Z.leb_le n 125)) by lia).
    rewrite Hnil. cbn [app].
    assert (Hstep : exists s, usock_received self m (first_bytes false n) = Ret (m, s) /\ behind_header false n key s).
    { unfold is_bare in Hrec. rewrite Hxe, H0, Hxc, Hcode in Hrec. change (0 =? 0) with true in Hrec. cbn [andb] in Hrec.
      destruct (Z.eqb_spec n 0) as [->|Hne].
      - assert (Hxr' : receiving (x ⦃ inmsg_current_chunk_len := 0 ⦄)).
        { destruct Hxr as [Hxs]; split; try done; destruct Hxs; split; cbn; auto. }
        destruct (deliver _ Hxr') as (s & Es & Hd). rewrite Es, bind_of_Ret in Hrec. exists s. split; [done|].
        unfold behind_header. cbn [Z.eqb].
        change (inmsg_array (x ⦃ inmsg_current_chunk_len := 0 ⦄)) with (inmsg_array x) in Hd. rewrite Hxa in Hd.
        change (mode (x ⦃ inmsg_current_chunk_len := 0 ⦄)) with (mode x) in Hd. by rewrite Hxmo in Hd.
      - unfold recv_rest in Hrec. rewrite Hxe, H0, Hxmo, Hxc, Hcode in Hrec. change (0 =? 0) with true in Hrec.
        change (NN_WS_CLIENT =? NN_WS_CLIENT) with true in Hrec. cbn [check] in Hrec. rewrite bind_of_Ret in Hrec.
        rewrite (proj2 (Z.ltb_lt 0 n)), (proj2 (Z.leb_le n NN_SWS_PAYLOAD_MAX_LENGTH)) in Hrec
          by (unfold NN_SWS_PAYLOAD_MAX_LENGTH; lia). cbn [andb check] in Hrec. rewrite bind_of_Ret in Hrec.
        assert (Hxr' : receiving (x ⦃ inmsg_current_chunk_len := n ⦄)).
        { destruct Hxr as [Hxs]; split; try done; destruct Hxs; split; cbn; auto. }
        destruct (receiving_room false n key _ (str "Message larger than application allows.") Hxr') as (s & Es & Hd); try done; [lia| |].
        { change (masked (x ⦃ inmsg_current_chunk_len := n ⦄)) with (masked x). rewrite Hxm. done. }
        rewrite Es, bind_of_Ret in Hrec. by exists s. }
    destruct Hstep as (s & Es & Hb). exists s. split; [done|]. exists (S k). split; [lia|].
    exact (feed_step (S k) self m (RxInhdr 0) (first_bytes false n) stream s Hrx Es).
  - assert (Hpos : 0 < more_header cs n).
    { unfold more_header in *. pose proof (length_bytes_nonneg (length_code n)). destruct cs; lia. }
    assert (Hmax : more_header cs n <= 12).
    { unfold more_header, length_bytes. destruct cs; destruct (_ <=? _); try lia; destruct (_ =? _); lia. }
    assert (Hbare : is_bare x = false).
    { unfold is_bare. rewrite Hxe. by rewrite (proj2 (Z.eqb_neq _ 0) H0). }
    rewrite Hbare in Hrec. unfold recv_rest in Hrec. rewrite Hxe, (proj2 (Z.eqb_neq _ 0) H0), bind_of_Ret in Hrec.
    match type of Hrec with _ = Ret (m, ?y) => set (s1 := y) in Hrec end.
    pose proof (feed_step (S k) self m (RxInhdr 0) (first_bytes cs n) (rest_of_header cs n key ++ stream) s1 Hrx Hrec) as Hf1.
    assert (Hs1' : still max s1) by (destruct Hxr as [Hxs]; destruct Hxs; split; cbn; auto).
    pose proof (rest_size cs n key Hk) as Hrs.
    pose proof (header_received s1 m 2 (rest_of_header cs n key) tail' (first_bytes cs n) Hs1') as Hrec2.
    specialize (Hrec2 ltac:(rewrite Hrs; reflexivity) Hxi eq_refl ltac:(rewrite Hrs; unfold size; lia)).
    match type of Hrec2 with _ = _ ← handle_received _ _ _ ?y; _ => set (s2 := y) in Hrec2 end.
    assert (Hr2 : receiving s2).
    { destruct Hxr as [Hxs]. split; try done. apply still_inhdr; [done| |].
      - rewrite !length_app, length_drop, Htl'. change (length (first_bytes cs n)) with 2%nat. unfold size in *. lia.
      - apply Forall_app. split; [done|]. apply Forall_app. split.
        + apply Forall_app. split; [apply length_ext_bytes|destruct cs; [done|constructor]].
        + apply Forall_drop. pose proof (st_bytes _ _ Hxs) as Hby. rewrite Hxi in Hby. by apply Forall_app in Hby as [_ Hby]. }
    destruct (handle_hdrext_ok cs n key (drop (length (rest_of_header cs n key)) tail') s2) as (s & Es & Hb); try done.
    { change (ext_hdr_len s2) with (ext_hdr_len x). by rewrite Hxe. }
    unfold handle_received in Hrec2. change (instate s2) with RECV_HDREXT in Hrec2. rewrite Es, bind_of_Ret in Hrec2.
    exists s. split; [done|]. exists k. split; [lia|]. rewrite Hf1.
    apply (feed_step k s1 m (RxInhdr 2)); [by rewrite Hrs|done].
Qed.

(** A frame of this opcode arrives, whatever follows it. *)
Lemma frame_arrives (cs : bool) (key data : list Z) (self : nn_sws) (m : memory) (k : nat) (stream : list Z) :
  ready self -> mode self = (if cs then NN_WS_SERVER else NN_WS_CLIENT) -> size data <= max -> size key = 4 -> bytes key ->
  (op = NN_WS_OPCODE_TEXT -> is_text data) -> (3 <= k)%nat ->
  exists s, feed k self m (header cs op (size data) key ++ (if cs then masked_with key 0 data else data) ++ stream) = Ret (m, s, stream) /\
    delivered data (mode self) s.
Proof.
  intros Hr Hmo Hd Hk Hkb Ht H3. destruct k as [|[|k]]; try lia. pose proof (size_nonneg data) as Hd0.
  set (wire := if cs then masked_with key 0 data else data).
  assert (Hw : size wire = size data) by (unfold wire; destruct cs; unfold size; by rewrite ?masked_length).
  destruct (header_arrives cs (size data) key self m k (wire ++ stream)) as (s & Hb & j & Hj & ->); try done.
  unfold behind_header in Hb. destruct (Z.eqb_spec (size data) 0) as [H0|H0].
  - assert (data = []) as -> by (destruct data; [done|unfold size in H0; cbn in H0; lia]).
    assert (wire = []) as -> by (unfold wire; by destruct cs). cbn [app]. exists s. rewrite feed_stop by apply Hb.
    split; [done|]. by rewrite Hmo.
  - destruct Hb as (Ha & Hms & Hmd).
    destruct (payload_arrives (size data) key s m wire data Ha Hw) as (s' & Es & Hdl); [lia|done| |done|].
    { rewrite Hms. unfold wire. destruct cs; [by rewrite masked_twice|done]. }
    exists s'. destruct j as [|j]; [lia|]. rewrite (feed_step j s m (RxPayload (BufChunk 0)) wire stream s');
      [|rewrite (aw_rx _ _ _ Ha); by rewrite Hw|done].
    rewrite feed_stop by apply Hdl. split; [done|]. by rewrite Hmo, <-Hmd.
Qed.

(** The message is taken, and the session is ready for the next. *)
Lemma delivered_taken body md s junk :
  delivered body md s ->
  exists s', pipe_recv alloc s junk = Ret (s', WsMessage (opcode_hdrs op junk) body) /\ ready s' /\ mode s' = md.
Proof.
  intros [Hs Hp Hi Hpi Hrx Hb Hh Hf Hm]. unfold pipe_recv.
  destruct (recv_chunked_safe alloc rand_mask max alloc_size alloc_small max_int s junk Hs Hp Hi)
    as (s' & msg & -> & Hs' & Hi' & Hbt & Hrx' & (C1 & C2 & C3) & Hc & ->).
  rewrite bind_of_Ret, Pipe.pipe_recv_idle by (rewrite ?C1; done). rewrite bind_of_Ret. cbn [Pipe.sync Pipe.message].
  eexists. split.
  - rewrite Hh, Hb. assert (E : Z.land (Z.lor op 0x80) (Z.lnot NN_SWS_FRAME_BITMASK_FIN) = op)
      by (destruct op_data as [->| ->]; reflexivity). by rewrite E.
  - split; [|cbn; congruence]. split; try done; [destruct Hs'; split; cbn; auto|by apply Hbt|cbn; congruence].
Qed.
End receiver.

(** The two ends of a connection: the other side of a client is a server. *)
Definition other_side (s r : nn_sws) : Prop :=
  mode r = (if is_client s then NN_WS_SERVER else NN_WS_CLIENT).

(** C11.  Round trip of a message over a WebSocket connection.  The message is sent with the
    opcode its transport headers name, or the default of the endpoint; what is
    then in the buffers given to the socket is one frame, masked with the mask
    drawn for it if the sender is a client.  A session of the other side that is
    between two messages reads the frame, of any length up to its size limit and with
    the short, the 16-bit or the 64-bit length, and not a byte behind it, and the core
    gets the header and the body of the sent message, with the opcode in the
    transport headers; the session is then ready for the next message.  Text must
    be UTF-8. *)
Theorem sws_round_trip
    (* the sender *)
    (m : memory) (g : owned) (s : nn_sws) (msg : loc) (h d b : list Z) (op : Z) (key : list Z)
    (* the receiver *)
    (alloc : Z -> option (list Z)) (rand_mask : list Z) (max : Z) (local : Z) (ispeer : Z -> bool) (le : bool)
    (hash_junk rand_key : list Z) (sock_add : Z) (mr : memory) (r : nn_sws) (fuel : nat) (stream junk : list Z) :
  sendable m g s msg h d b -> send_opcode s d = Ret op -> op = NN_WS_OPCODE_TEXT \/ op = NN_WS_OPCODE_BINARY ->
  size key = 4 -> bytes key ->
  (forall n data, alloc n = Some data -> size data = n /\ n < 2 ^ 63) ->
  (forall n, 0 <= n <= Z.max max 125 -> is_Some (alloc n)) -> 0 <= max < 2 ^ 31 ->
  ready max r -> other_side s r -> size (h ++ b) <= max -> (op = NN_WS_OPCODE_TEXT -> is_text (h ++ b)) -> (3 <= fuel)%nat ->
  exists m' s' iov wire r' r'',
    nn_sws_send s m msg key = Ret (m', s') /\ tx s' = Some iov /\ gather s' m' iov = Ret wire /\
    Sws.feed alloc rand_mask max local ispeer le hash_junk rand_key sock_add fuel r mr (wire ++ stream) = Ret (mr, r', stream) /\
    pipe_recv alloc r' junk = Ret (r'', WsMessage (opcode_hdrs op junk) (h ++ b)) /\
    ready max r'' /\ other_side s r''.
Proof.
  intros Hs Hop Hopd Hk Hkb Ha1 Ha2 Hmax Hr Ho Hd Ht Hf.
  destruct (sws_send_ok m g s msg h d b op key Hs Hop Hk ltac:(lia)) as (m' & s' & iov & E1 & E2 & E3).
  destruct (frame_arrives alloc rand_mask max Ha1 Ha2 Hmax op Hopd local ispeer le hash_junk rand_key sock_add (is_client s)
    key (h ++ b) r mr fuel stream Hr Ho Hd Hk Hkb Ht Hf) as (r' & E4 & Hdl).
  destruct (delivered_taken alloc rand_mask max Ha1 Ha2 Hmax op Hopd (h ++ b) (mode r) r' junk Hdl) as (r'' & E5 & Hr'' & Hm).
  exists m', s', iov. eexists. exists r', r''. split; [done|]. split; [done|]. split; [exact E3|].
  split; [unfold frame; rewrite <-app_assoc; exact E4|]. split; [done|]. split; [done|]. unfold other_side in *. congruence.
Qed.

(** A received message that is sent on keeps its opcode: the transport headers the
    receiving session made are the ones the sending session reads. *)
Lemma forwarded_opcode s op junk : length junk = 7%nat -> send_opcode s (opcode_hdrs op junk) = Ret op.
Proof. intros Hj. do 8 (destruct junk as [|? junk]; try discriminate Hj). reflexivity. Qed.

(** ** Concrete sessions *)

(** A client with an empty message at location 1, and the message [1 2 | 3 4 5]
    at location 2. *)
Definition client : nn_sws :=
  (at_start NN_WS_CLIENT) ⦃ state := ACTIVE ⦄ ⦃ outstate := OUTSTATE_IDLE ⦄.

Definition put (m : memory) (r : cref) (data : list Z) : memory := Chunk.set_ref m r (Vsm data).

Definition memory2 : memory :=
  put (put (put (put (put (put ChunkSpec.no_memory (1%positive, Sphdr) []) (1%positive, Hdrs) []) (1%positive, Body) [])
    (2%positive, Sphdr) [1; 2]) (2%positive, Hdrs) []) (2%positive, Body) [3; 4; 5].

Definition owned2 : owned :=
  let put := ChunkSpec.put_val in
  put (put (put (put (put (put ChunkSpec.nothing (1%positive, Sphdr) []) (1%positive, Hdrs) []) (1%positive, Body) [])
    (2%positive, Sphdr) [1; 2]) (2%positive, Hdrs) []) (2%positive, Body) [3; 4; 5].

Lemma put_rep m g r data :
  mem_rep m g -> vals g !! r = None -> size data < Chunk.NN_CHUNKREF_MAX -> mem_rep (put m r data) (ChunkSpec.put_val g r data).
Proof. intros Hm Hv Hs. apply (ChunkSpec.rep_claim m g r (Vsm data) data Hm Hv); [done|discriminate]. Qed.

Lemma memory2_rep : mem_rep memory2 owned2.
Proof. unfold memory2, owned2. do 6 (apply put_rep; [|reflexivity|reflexivity]). apply ChunkSpec.rep_nothing. Qed.

Lemma client_sendable : sendable memory2 owned2 client 2%positive [1; 2] [] [3; 4; 5].
Proof.
  assert (Hp : forall f, f <> Chunk.Var -> private memory2 (2%positive, f)).
  { intros f Hf p c Hr. exfalso. destruct f; try done; vm_compute in Hr; discriminate. }
  assert (Hn : forall f, f <> Chunk.Var -> holds_nothing memory2 (outmsg client, f) /\ vals owned2 !! (outmsg client, f) = Some [])
    by (intros f Hf; destruct f; done).
  constructor; [apply memory2_rep|done|done|done|done|split; by apply Hp|exact Hn|done|done|by left].
Qed.

(** A server between two messages. *)
Definition server : nn_sws :=
  (at_start NN_WS_SERVER) ⦃ state := ACTIVE ⦄ ⦃ instate := RECV_HDR ⦄ ⦃ rx := Some (RxInhdr 0, 2) ⦄
    ⦃ pipebase := Pipe.Pipebase Pipe.P_ACTIVE Pipe.IN_ASYNC Pipe.OUT_IDLE (Pipe.EpOptions 8 8 0) ⦄.

Lemma server_ready : ready 1000 server.
Proof.
  split; try done. split; cbn; try done; try lia.
  repeat constructor; unfold is_byte; lia.
Qed.

Lemma sws_round_trip_witness :
  send_opcode client [] = Ret NN_WS_OPCODE_BINARY /\
  exists m' s' iov wire r' r'',
    nn_sws_send client memory2 2%positive [10; 20; 30; 40] = Ret (m', s') /\ tx s' = Some iov /\ gather s' m' iov = Ret wire /\
    Sws.feed (small_alloc 1000) [1; 2; 3; 4] 1000 0 (fun _ => true) true [] [] 0 3 server memory2 (wire ++ [9]) =
      Ret (memory2, r', [9]) /\
    pipe_recv (small_alloc 1000) r' [] = Ret (r'', WsMessage (opcode_hdrs NN_WS_OPCODE_BINARY []) [1; 2; 3; 4; 5]) /\
    ready 1000 r'' /\ other_side client r''.
Proof.
  split; [reflexivity|].
  apply (sws_round_trip memory2 owned2 client 2%positive [1; 2] [] [3; 4; 5] NN_WS_OPCODE_BINARY [10; 20; 30; 40]
    (small_alloc 1000) [1; 2; 3; 4] 1000 0 (fun _ => true) true [] [] 0 memory2 server 3 [9] []).
  - apply client_sendable.
  - reflexivity.
  - right. reflexivity.
  - reflexivity.
  - repeat constructor; unfold is_byte; lia.
  - intros n data. apply small_alloc_size. lia.
  - intros n Hn. apply small_alloc_some. lia.
  - lia.
  - apply server_ready.
  - reflexivity.
  - vm_compute. discriminate.
  - discriminate.
  - lia.
Defined.

(** ** A message on two connections

    A publisher that is connected to two servers hands its message to both
    sessions: two references to one chunk of 40 bytes. *)
Definition chunk40 : Chunk.nn_chunk :=
  Chunk.Chunk 2 40 (be_digits 4 0 ++ be_digits 4 Chunk.NN_CHUNK_TAG ++ replicate 40 65).

Definition shared : memory :=
  let empty l m := put (put (put m (l, Sphdr) []) (l, Hdrs) []) (l, Body) [] in
  let copy l m := Chunk.set_ref (put (put m (l, Sphdr) []) (l, Hdrs) []) (l, Body) (Ref (Chunk.Ptr 1%positive 8)) in
  copy 4%positive (copy 3%positive (empty 2%positive (empty 1%positive (Chunk.Memory {[ 1%positive := chunk40 ]} ∅)))).

Definition client2 : nn_sws := client ⦃ outmsg := 2%positive ⦄.

(** The wire of both when the sockets get to send after both calls. *)
Definition sent_twice (k1 k2 : list Z) : outcome (list Z * list Z) :=
  '(m, s1) ← nn_sws_send client shared 3%positive k1;
  '(m, s2) ← nn_sws_send client2 m 4%positive k2;
  match tx s1, tx s2 with
  | Some iov1, Some iov2 => w1 ← gather s1 m iov1; w2 ← gather s2 m iov2; Ret (w1, w2)
  | _, _ => Undef
  end.

(** What a server makes of a wire. *)
Definition understood (wire : list Z) : outcome (list Z) :=
  '(_, r, _) ← Sws.feed (small_alloc 1000) [1; 2; 3; 4] 1000 0 (fun _ => true) true [] [] 0 3 server memory2 wire;
  '(_, msg) ← pipe_recv (small_alloc 1000) r [];
  Ret (wbody msg).

