(* ===== verification/Poller.v ===== *)
(** * Poller: waiting for file descriptors (src/aio/poller_epoll.inc)

    A worker thread waits on an epoll instance.  A handle, [nn_poller_hndl],
    belongs to a file descriptor and remembers what it is polled for; the kernel
    keeps a pointer to the handle with the descriptor and gives it back with an
    event.  The events of one wait are stored and handed out one at a time, so
    that between two of them handles may be removed or stop polling: their
    stored events are then blanked.

    The kernel is the class [Epoll] with the laws [EpollLaws], which say what the
    manual page says of the table of descriptors.  A wait is answered by any list
    of events that [wait_ok] allows. *)

From stdpp Require Import base gmap list.
From Stdlib Require Import ZArith Lia.
From S2P Require Import Prelude.
From S2P Require ListHeap.
Import ListHeap (loc).

Open Scope Z_scope.

Definition EPOLLIN : Z := 0x1.
Definition EPOLLOUT : Z := 0x4.
Definition EPOLLERR : Z := 0x8.
Definition EPOLLHUP : Z := 0x10.

Definition NN_POLLER_IN : Z := 1.
Definition NN_POLLER_OUT : Z := 2.
Definition NN_POLLER_ERR : Z := 3.

Definition ENFILE : Z := 23.
Definition EMFILE : Z := 24.

(** [ptr] is [data.ptr], the handle. *)
Record epoll_event : Type := Ev { events : Z; ptr : loc }.

#[export] Instance epoll_event_eq_dec : EqDecision epoll_event.
Proof. solve_decision. Defined.

(** ** The kernel *)

(** [epoll_ctl] with [EPOLL_CTL_ADD], [_MOD] and [_DEL], whose results the code
    ignores, and the effect of closing a descriptor. *)
Class Epoll (K : Type) := {
  epoll_add : K -> Z -> epoll_event -> K;
  epoll_mod : K -> Z -> epoll_event -> K;
  epoll_del : K -> Z -> K
}.

Class EpollLaws (K : Type) `{Epoll K} := {
  interest : K -> gmap Z epoll_event;
  interest_add k fd ev :
    interest (epoll_add k fd ev) = match interest k !! fd with
                                   | Some _ => interest k
                                   | None => <[fd := ev]> (interest k)
                                   end;
  interest_mod k fd ev :
    interest (epoll_mod k fd ev) = match interest k !! fd with
                                   | Some _ => <[fd := ev]> (interest k)
                                   | None => interest k
                                   end;
  interest_del k fd : interest (epoll_del k fd) = delete fd (interest k)
}.

(** A table of descriptors is such a kernel. *)
#[export] Instance table_epoll : Epoll (gmap Z epoll_event) := {
  epoll_add k fd ev := match k !! fd with Some _ => k | None => <[fd := ev]> k end;
  epoll_mod k fd ev := match k !! fd with Some _ => <[fd := ev]> k | None => k end;
  epoll_del k fd := delete fd k
}.

#[export] Instance table_laws : EpollLaws (gmap Z epoll_event).
Proof. refine {| interest k := k |}; done. Defined.

(** ** The poller *)

Record nn_poller_hndl : Type := Hndl { hfd : Z; hevents : Z }.

(** [evs] holds [nevents] events, those from [index] on are still to be handed
    out.  [hndls] is the memory of the handles. *)
Record nn_poller (K : Type) : Type := Poller {
  ep : K; evs : list epoll_event; index : nat; hndls : gmap loc nn_poller_hndl
}.
Arguments Poller {K}.
Arguments ep {K}.
Arguments evs {K}.
Arguments index {K}.
Arguments hndls {K}.

Section poller.
  Context {K : Type} `{Epoll K}.

(** [fresh] is the new epoll instance, or the negated error. *)
Definition nn_poller_init (fresh : K + Z) (memory : gmap loc nn_poller_hndl) : outcome (nn_poller K + Z) :=
  match fresh with
  | inl k => Ret (inl (Poller k [] 0 memory))
  | inr errno => if (errno =? ENFILE) || (errno =? EMFILE) then Ret (inr (- EMFILE)) else Abort
  end.

Definition nn_poller_add (self : nn_poller K) (fd : Z) (hndl : loc) : nn_poller K :=
  Poller (epoll_add (ep self) fd (Ev 0 hndl)) (evs self) (index self) (<[hndl := Hndl fd 0]> (hndls self)).

(** The loop over the events not yet handed out. *)
Definition invalidate (self : nn_poller K) (hndl : loc) (f : Z -> Z) : list epoll_event :=
  take (index self) (evs self) ++
  map (fun e => if decide (ptr e = hndl) then Ev (f (events e)) (ptr e) else e) (drop (index self) (evs self)).

Definition nn_poller_rm (self : nn_poller K) (hndl : loc) : outcome (nn_poller K) :=
  h ← deref (hndls self) hndl;
  Ret (Poller (epoll_del (ep self) (hfd h)) (invalidate self hndl (fun _ => 0)) (index self) (hndls self)).

(** Polling for a bit starts. *)
Definition set_bit (self : nn_poller K) (hndl : loc) (bit : Z) : outcome (nn_poller K) :=
  h ← deref (hndls self) hndl;
  if negb (Z.land (hevents h) bit =? 0) then Ret self else
  let h := Hndl (hfd h) (Z.lor (hevents h) bit) in
  Ret (Poller (epoll_mod (ep self) (hfd h) (Ev (hevents h) hndl)) (evs self) (index self) (<[hndl := h]> (hndls self))).

(** Polling for a bit stops. *)
Definition reset_bit (self : nn_poller K) (hndl : loc) (bit : Z) : outcome (nn_poller K) :=
  h ← deref (hndls self) hndl;
  if Z.land (hevents h) bit =? 0 then Ret self else
  let h := Hndl (hfd h) (Z.land (hevents h) (Z.lnot bit)) in
  Ret (Poller (epoll_mod (ep self) (hfd h) (Ev (hevents h) hndl))
         (invalidate self hndl (fun e => Z.land e (Z.lnot bit))) (index self) (<[hndl := h]> (hndls self))).

Definition nn_poller_set_in (self : nn_poller K) (hndl : loc) := set_bit self hndl EPOLLIN.
Definition nn_poller_reset_in (self : nn_poller K) (hndl : loc) := reset_bit self hndl EPOLLIN.
Definition nn_poller_set_out (self : nn_poller K) (hndl : loc) := set_bit self hndl EPOLLOUT.
Definition nn_poller_reset_out (self : nn_poller K) (hndl : loc) := reset_bit self hndl EPOLLOUT.

(** [answer] is what [epoll_wait] returned once it was not interrupted. *)
Definition nn_poller_wait (self : nn_poller K) (answer : list epoll_event) : nn_poller K :=
  Poller (ep self) answer 0 (hndls self).

(** How many events are empty in front of the first that is not. *)
Fixpoint leading_empty (es : list epoll_event) : nat :=
  match es with
  | e :: es => if events e =? 0 then S (leading_empty es) else 0%nat
  | [] => 0%nat
  end.

(** The next event and its handle, or none. *)
Definition nn_poller_event (self : nn_poller K) : nn_poller K * option (Z * loc) :=
  let i := (index self + leading_empty (drop (index self) (evs self)))%nat in
  let at_ i es := Poller (ep self) es i (hndls self) in
  match evs self !! i with
  | None => (at_ i (evs self), None)
  | Some e =>
      let without bit := <[i := Ev (Z.land (events e) (Z.lnot bit)) (ptr e)]> (evs self) in
      if negb (Z.land (events e) EPOLLIN =? 0) then (at_ i (without EPOLLIN), Some (NN_POLLER_IN, ptr e))
      else if negb (Z.land (events e) EPOLLOUT =? 0) then (at_ i (without EPOLLOUT), Some (NN_POLLER_OUT, ptr e))
      else (at_ (S i) (evs self), Some (NN_POLLER_ERR, ptr e))
  end.

(** [nn_closefd]: a closed descriptor leaves the epoll instance. *)
Definition closefd (self : nn_poller K) (fd : Z) : nn_poller K :=
  Poller (epoll_del (ep self) fd) (evs self) (index self) (hndls self).
End poller.

(** ** What is handed out is wanted *)

Section spec.
  Context {K : Type} `{EpollLaws K}.

(** The handle is in the kernel's table, under its descriptor. *)
Definition registered (self : nn_poller K) (hndl : loc) : Prop :=
  exists h, hndls self !! hndl = Some h /\ interest (ep self) !! hfd h = Some (Ev (hevents h) hndl).

(** Every bit of [e] is polled for or cannot be masked. *)
Definition allowed (e wanted : Z) : Prop := Z.land e (Z.lnot (Z.lor wanted (Z.lor EPOLLERR EPOLLHUP))) = 0.

(** An event may be handed out: its handle is registered and polls for it. *)
Definition current (self : nn_poller K) (e : epoll_event) : Prop :=
  events e = 0 \/ registered self (ptr e) /\ exists h, hndls self !! ptr e = Some h /\ allowed (events e) (hevents h).

(** The kernel's entries are those of the handles, and what is still to be handed out is current. *)
Record poller_ok (self : nn_poller K) : Prop := {
  entries fd ev : interest (ep self) !! fd = Some ev ->
    exists h, hndls self !! ptr ev = Some h /\ hfd h = fd /\ hevents h = events ev;
  stored e : e ∈ drop (index self) (evs self) -> current self e
}.

(** [epoll_wait] reports descriptors of the table, with bits asked for. *)
Definition wait_ok (self : nn_poller K) (answer : list epoll_event) : Prop :=
  forall e, e ∈ answer -> exists fd ev, interest (ep self) !! fd = Some ev /\ ptr ev = ptr e /\ allowed (events e) (events ev).

Lemma allowed_0 w : allowed 0 w.
Proof. unfold allowed. by rewrite Z.land_0_l. Qed.

Lemma allowed_and e w mask : allowed e w -> allowed (Z.land e mask) w.
Proof.
  unfold allowed. intros E. by rewrite <-Z.land_assoc, (Z.land_comm mask), Z.land_assoc, E, Z.land_0_l.
Qed.

Lemma allowed_less e w bit : allowed e w -> allowed (Z.land e (Z.lnot bit)) (Z.land w (Z.lnot bit)).
Proof.
  unfold allowed. intros E. apply Z.bits_inj'. intros n Hn.
  assert (T := f_equal (fun z => Z.testbit z n) E). cbn in T. revert T.
  rewrite !Z.land_spec, !Z.lnot_spec, !Z.lor_spec, !Z.land_spec, !Z.lnot_spec, Z.bits_0 by done.
  destruct (Z.testbit e n), (Z.testbit w n), (Z.testbit bit n), (Z.testbit EPOLLERR n), (Z.testbit EPOLLHUP n); done.
Qed.

Lemma allowed_more e w bit : allowed e w -> allowed e (Z.lor w bit).
Proof.
  unfold allowed. intros E. apply Z.bits_inj'. intros n Hn.
  assert (T := f_equal (fun z => Z.testbit z n) E). cbn in T. revert T.
  rewrite !Z.land_spec, !Z.lnot_spec, !Z.lor_spec, Z.bits_0 by done.
  destruct (Z.testbit e n), (Z.testbit w n), (Z.testbit bit n), (Z.testbit EPOLLERR n), (Z.testbit EPOLLHUP n); done.
Qed.

Lemma allowed_bit e w bit : allowed e w -> bit = EPOLLIN \/ bit = EPOLLOUT ->
  Z.land e bit <> 0 -> Z.land w bit <> 0.
Proof.
  unfold allowed. intros E Hb He Hw. apply He.
  apply Z.bits_inj'. intros n Hn.
  assert (T := f_equal (fun z => Z.testbit z n) E). assert (W := f_equal (fun z => Z.testbit z n) Hw).
  cbn in T, W. revert T W.
  rewrite !Z.land_spec, !Z.lnot_spec, !Z.lor_spec, !Z.bits_0 by done.
  assert (B : Z.testbit bit n = true -> Z.testbit EPOLLERR n = false /\ Z.testbit EPOLLHUP n = false).
  { destruct Hb; subst bit; intros Hbit;
      assert (n = 0 \/ n = 2) as [-> | ->]; try done;
      (destruct (decide (n < 5)) as [|Hn']; [assert (n = 0 \/ n = 1 \/ n = 2 \/ n = 3 \/ n = 4) as Hc by lia;
         repeat destruct Hc as [-> | Hc]; subst; done || lia
       | exfalso; revert Hbit; unfold EPOLLIN, EPOLLOUT; rewrite Z.bits_above_log2; [done | done |]; cbn; lia]). }
  destruct (Z.testbit e n), (Z.testbit w n), (Z.testbit bit n), (Z.testbit EPOLLERR n), (Z.testbit EPOLLHUP n); try done;
    destruct B; done.
Qed.

Lemma entry_registered self fd ev : poller_ok self -> interest (ep self) !! fd = Some ev -> registered self (ptr ev).
Proof.
  intros [En _] E. destruct (En _ _ E) as (h & Eh & <- & Ee). exists h. split; [done|]. rewrite E.
  destruct ev; cbn in *; by subst.
Qed.

(** No descriptor of the table leads to the handle. *)
Definition unregistered (self : nn_poller K) (hndl : loc) : Prop :=
  forall fd ev, interest (ep self) !! fd = Some ev -> ptr ev <> hndl.

Lemma unregistered_not self hndl : unregistered self hndl -> ~ registered self hndl.
Proof. intros U (h & _ & E). by apply (U _ _ E). Qed.

Lemma not_registered self hndl : poller_ok self -> ~ registered self hndl -> unregistered self hndl.
Proof. intros Ok N fd ev E <-. by apply N, (entry_registered _ _ _ Ok E). Qed.

(** Handles other than [hndl] are as they were. *)
Definition others_keep (self self' : nn_poller K) (hndl : loc) : Prop :=
  forall g h, g <> hndl -> hndls self !! g = Some h -> registered self g -> hndls self' !! g = Some h /\ registered self' g.

Lemma others_refl self hndl : others_keep self self hndl.
Proof. by intros g h _ E R. Qed.

Lemma current_other self self' hndl e :
  others_keep self self' hndl -> ptr e <> hndl -> current self e -> current self' e.
Proof.
  intros K1 Hp [E | [R (h & Eh & A)]]; [by left|]. right.
  destruct (K1 _ _ Hp Eh R) as [Eh' R']. split; [done | by exists h].
Qed.

Lemma elem_invalidate (self : nn_poller K) hndl f e :
  e ∈ drop (index self) (invalidate self hndl f) ->
  exists e0, e0 ∈ drop (index self) (evs self) /\
    (ptr e0 = hndl /\ e = Ev (f (events e0)) hndl \/ ptr e0 <> hndl /\ e = e0).
Proof.
  unfold invalidate. rewrite drop_app, length_take, elem_of_app. intros [E | E].
  { apply list_elem_of_lookup in E as [i Ei]. rewrite lookup_drop, lookup_take_ge in Ei by lia. done. }
  assert (E' : e ∈ map (fun e => if decide (ptr e = hndl) then Ev (f (events e)) (ptr e) else e) (drop (index self) (evs self))).
  { apply list_elem_of_lookup in E as [i Ei]. rewrite lookup_drop in Ei. by eapply list_elem_of_lookup_2. }
  apply list_elem_of_fmap in E' as (e0 & -> & E0). exists e0. split; [done|].
  destruct (decide _) as [<- | Hn]; [by left | by right].
Qed.

Lemma handle_fd_eq self g h ev : poller_ok self -> registered self g -> hndls self !! g = Some h ->
  interest (ep self) !! hfd h = Some ev -> ptr ev = g /\ events ev = hevents h.
Proof. intros _ (h' & E1 & E2) E3 E4. rewrite E3 in E1. injection E1 as <-. rewrite E4 in E2. by injection E2 as ->. Qed.

Lemma handle_fd_inj self g1 g2 h1 h2 : poller_ok self -> registered self g1 ->
  hndls self !! g1 = Some h1 -> hndls self !! g2 = Some h2 -> registered self g2 -> hfd h1 = hfd h2 -> g1 = g2.
Proof.
  intros Ok (h1' & A1 & A2) B1 B2 (h2' & C1 & C2) E.
  rewrite B1 in A1. rewrite B2 in C1. injection A1 as <-. injection C1 as <-. rewrite E, C2 in A2. by injection A2.
Qed.

(** *** Adding *)

Lemma add_ok self fd hndl :
  poller_ok self -> interest (ep self) !! fd = None -> unregistered self hndl ->
  poller_ok (nn_poller_add self fd hndl) /\ registered (nn_poller_add self fd hndl) hndl.
Proof.
  intros Ok Hfd U. destruct Ok as [En St] eqn:EOk. clear EOk.
  assert (I : interest (ep (nn_poller_add self fd hndl)) = <[fd := Ev 0 hndl]> (interest (ep self))).
  { cbn. by rewrite interest_add, Hfd. }
  assert (Oth : others_keep self (nn_poller_add self fd hndl) hndl).
  { intros g h Hg Eh (h' & Eh' & Er). rewrite Eh in Eh'. injection Eh' as <-.
    assert (E : hndls (nn_poller_add self fd hndl) !! g = Some h) by (cbn; by rewrite lookup_insert_ne).
    split; [done|]. exists h. split; [done|]. rewrite I, lookup_insert_ne; [done|]. intros E1. by rewrite <-E1, Hfd in Er. }
  split; [constructor|].
  - intros fd' ev. rewrite I. intros [[<- <-] | [Hne E]]%lookup_insert_Some.
    + exists (Hndl fd 0). cbn. by rewrite lookup_insert_eq.
    + destruct (En _ _ E) as (h & E1 & E2 & E3). exists h. cbn. rewrite lookup_insert_ne; [done|].
      intros Heq. by apply (U _ _ E).
  - cbn. intros e He. destruct (decide (ptr e = hndl)) as [Hp | Hp].
    + destruct (St _ He) as [E0 | [R _]]; [by left|]. rewrite Hp in R. by apply unregistered_not in R.
    + by apply (current_other _ _ _ _ Oth Hp), St.
  - exists (Hndl fd 0). cbn -[nn_poller_add]. rewrite I. cbn. by rewrite !lookup_insert_eq.
Qed.

(** *** Removing *)

Lemma rm_ok self hndl : poller_ok self -> registered self hndl ->
  exists self', nn_poller_rm self hndl = Ret self' /\ poller_ok self' /\ ~ registered self' hndl /\
    others_keep self self' hndl.
Proof.
  intros Ok R. assert (R' := R). destruct R' as (h & Eh & Ei). unfold nn_poller_rm, deref. rewrite Eh. cbn.
  eexists. split; [done|]. set (self' := Poller _ _ _ _).
  assert (I : interest (ep self') = delete (hfd h) (interest (ep self))) by (cbn; by rewrite interest_del).
  assert (Oth : others_keep self self' hndl).
  { intros g h' Hg Eh' Rg. split; [done|]. exists h'. split; [done|]. rewrite I, lookup_delete_ne.
    - destruct Rg as (h'' & E1 & E2). rewrite Eh' in E1. by injection E1 as <-.
    - intros E. apply Hg. symmetry. by apply (handle_fd_inj self hndl g h h'). }
  split; [constructor|split; [|done]].
  - intros fd ev. rewrite I. intros [_ E]%lookup_delete_Some. by apply (entries _ Ok).
  - intros e He. destruct (elem_invalidate self hndl (fun _ => 0) e He) as (e0 & He0 & [[Hp ->] | [Hp ->]]); [by left|].
    by apply (current_other _ _ _ _ Oth Hp), (stored _ Ok).
  - apply unregistered_not. intros fd ev. rewrite I. intros [Hne E]%lookup_delete_Some Hp.
    destruct (entries _ Ok _ _ E) as (h' & E1 & E2 & _). rewrite Hp in E1. rewrite Eh in E1. injection E1 as <-. done.
Qed.

(** *** Changing what is polled for *)

(** A handle's events change, in the kernel and here; [f] is applied to what is stored. *)
Definition repoll (self : nn_poller K) (hndl : loc) (h : nn_poller_hndl) (wanted : Z) (es : list epoll_event) : nn_poller K :=
  Poller (epoll_mod (ep self) (hfd h) (Ev wanted hndl)) es (index self) (<[hndl := Hndl (hfd h) wanted]> (hndls self)).

Lemma repoll_ok self hndl h wanted es :
  poller_ok self -> hndls self !! hndl = Some h -> registered self hndl ->
  (forall e, e ∈ drop (index self) es ->
     exists e0, e0 ∈ drop (index self) (evs self) /\
       (ptr e0 = hndl /\ ptr e = hndl /\ (allowed (events e0) (hevents h) -> allowed (events e) wanted)
        \/ ptr e0 <> hndl /\ e = e0)) ->
  poller_ok (repoll self hndl h wanted es) /\ registered (repoll self hndl h wanted es) hndl /\
  others_keep self (repoll self hndl h wanted es) hndl.
Proof.
  intros Ok Eh R Hes. assert (R' := R). destruct R' as (h' & Eh' & Ei). rewrite Eh in Eh'. injection Eh' as <-.
  set (self' := repoll _ _ _ _ _).
  assert (I : interest (ep self') = <[hfd h := Ev wanted hndl]> (interest (ep self))).
  { cbn. by rewrite interest_mod, Ei. }
  assert (R' : registered self' hndl).
  { exists (Hndl (hfd h) wanted). split; [cbn; by rewrite lookup_insert_eq|]. rewrite I. cbn. by rewrite lookup_insert_eq. }
  assert (Oth : others_keep self self' hndl).
  { intros g hg Hg Eg Rg. assert (E : hndls self' !! g = Some hg) by (cbn; by rewrite lookup_insert_ne).
    split; [done|]. exists hg. split; [done|]. rewrite I, lookup_insert_ne.
    - destruct Rg as (h'' & E1 & E2). rewrite Eg in E1. by injection E1 as <-.
    - intros E1. apply Hg. symmetry. by apply (handle_fd_inj self hndl g h hg). }
  split; [constructor|done].
  - intros fd ev. rewrite I. intros [[<- <-] | [Hne E]]%lookup_insert_Some.
    + exists (Hndl (hfd h) wanted). cbn. by rewrite lookup_insert_eq.
    + destruct (entries _ Ok _ _ E) as (hg & E1 & E2 & E3). exists hg. cbn. rewrite lookup_insert_ne; [done|].
      intros Hp. rewrite <-Hp, Eh in E1. injection E1 as <-. by rewrite E2 in Hne.
  - intros e He. destruct (Hes e He) as (e0 & He0 & [(Hp & Hp' & A) | [Hp ->]]).
    + right. rewrite Hp'. split; [done|]. exists (Hndl (hfd h) wanted). split; [cbn; by rewrite lookup_insert_eq|].
      apply A. destruct (stored _ Ok _ He0) as [-> | [_ (hg & Eg & Ag)]]; [apply allowed_0|].
      rewrite Hp, Eh in Eg. by injection Eg as <-.
    + by apply (current_other _ _ _ _ Oth Hp), (stored _ Ok).
Qed.

Lemma set_bit_ok self hndl bit : poller_ok self -> registered self hndl ->
  exists self', set_bit self hndl bit = Ret self' /\ poller_ok self' /\ registered self' hndl /\ others_keep self self' hndl.
Proof.
  intros Ok R. assert (R' := R). destruct R' as (h & Eh & _). unfold set_bit, deref. rewrite Eh. cbn.
  destruct (negb _); [exists self; auto using others_refl|]. eexists. split; [done|]. cbn.
  change (Poller _ _ _ _) with (repoll self hndl h (Z.lor (hevents h) bit) (evs self)).
  apply repoll_ok; try done. intros e He. exists e. split; [done|].
  destruct (decide (ptr e = hndl)); [left | by right]. do 2 (split; [done|]). apply allowed_more.
Qed.

Lemma reset_bit_ok self hndl bit : poller_ok self -> registered self hndl ->
  exists self', reset_bit self hndl bit = Ret self' /\ poller_ok self' /\ registered self' hndl /\ others_keep self self' hndl.
Proof.
  intros Ok R. assert (R' := R). destruct R' as (h & Eh & _). unfold reset_bit, deref. rewrite Eh. cbn.
  destruct (_ =? 0); [exists self; auto using others_refl|]. eexists. split; [done|]. cbn.
  change (Poller _ _ _ _) with (repoll self hndl h (Z.land (hevents h) (Z.lnot bit))
    (invalidate self hndl (fun e => Z.land e (Z.lnot bit)))).
  apply repoll_ok; try done. intros e He.
  destruct (elem_invalidate _ _ _ _ He) as (e0 & He0 & [[Hp ->] | [Hp ->]]); exists e0; (split; [done|]); [left | by right].
  do 2 (split; [done|]). apply allowed_less.
Qed.

(** A handle that is not registered, of a descriptor the kernel does not watch:
    nothing happens but to the handle. *)
Definition idle (self : nn_poller K) (hndl : loc) : Prop :=
  unregistered self hndl /\ exists h, hndls self !! hndl = Some h /\ interest (ep self) !! hfd h = None.

Lemma set_bit_idle self hndl bit : poller_ok self -> idle self hndl ->
  exists self', set_bit self hndl bit = Ret self' /\ poller_ok self' /\ idle self' hndl /\ others_keep self self' hndl.
Proof.
  intros Ok (U & h & Eh & Ei). unfold set_bit, deref. rewrite Eh. cbn.
  destruct (negb _); [exists self; do 2 (split; [done|]); split; [by split; [|exists h] | apply others_refl]|]. eexists. split; [done|]. set (self' := Poller _ _ _ _).
  assert (I : interest (ep self') = interest (ep self)) by (cbn; by rewrite interest_mod, Ei).
  assert (Oth : others_keep self self' hndl).
  { intros g hg Hg Eg (h' & E1 & E2). assert (E : hndls self' !! g = Some hg) by (cbn; by rewrite lookup_insert_ne).
    split; [done|]. exists hg. rewrite Eg in E1. injection E1 as <-. by rewrite I. }
  split; [constructor|split; [split|done]].
  - intros fd ev. rewrite I. intros E. destruct (entries _ Ok _ _ E) as (hg & E1 & E2 & E3). exists hg. cbn.
    rewrite lookup_insert_ne; [done|]. intros Hp. by apply (U _ _ E).
  - cbn. intros e He. destruct (stored _ Ok _ He) as [E0 | [R C]]; [by left|].
    apply (current_other _ _ _ _ Oth); [|by right]. intros Hp. rewrite Hp in R. by apply unregistered_not in R.
  - intros fd ev. rewrite I. apply U.
  - exists (Hndl (hfd h) (Z.lor (hevents h) bit)). split; [cbn; by rewrite lookup_insert_eq|]. by rewrite I.
Qed.

(** *** Waiting *)

Lemma poller_wait_ok self answer : poller_ok self -> wait_ok self answer -> poller_ok (nn_poller_wait self answer).
Proof.
  intros Ok W. constructor; [apply Ok|]. cbn. intros e He. destruct (W e He) as (fd & ev & E & Hp & A). right.
  destruct (entries _ Ok _ _ E) as (h & E1 & E2 & E3). rewrite <-Hp. split; [by apply (entry_registered _ _ _ Ok E)|].
  exists h. split; [done|]. by rewrite E3.
Qed.

Lemma leading_empty_spec es :
  match es !! leading_empty es with Some e => events e <> 0 | None => True end.
Proof. induction es as [|e es IH]; cbn; [done|]. destruct (Z.eqb_spec (events e) 0); done. Qed.

(** What is handed out: the handle is registered and polls for it. *)
Definition wanted (self : nn_poller K) (out : option (Z * loc)) : Prop :=
  match out with
  | None => True
  | Some (event, hndl) =>
      registered self hndl /\
      exists h, hndls self !! hndl = Some h /\
        (event = NN_POLLER_IN /\ Z.land (hevents h) EPOLLIN <> 0 \/
         event = NN_POLLER_OUT /\ Z.land (hevents h) EPOLLOUT <> 0 \/
         event = NN_POLLER_ERR)
  end.

Lemma poller_event_ok self : poller_ok self ->
  let '(self', out) := nn_poller_event self in
  poller_ok self' /\ wanted self' out /\ ep self' = ep self /\ hndls self' = hndls self.
Proof.
  intros Ok. unfold nn_poller_event. set (n := leading_empty _). set (i := (index self + n)%nat).
  assert (L := leading_empty_spec (drop (index self) (evs self))). fold n in L. rewrite lookup_drop in L. fold i in L.
  assert (Sub : forall j es e, e ∈ drop (i + j) es -> (forall k, (i + j <= k)%nat -> es !! k = evs self !! k) ->
    current self e).
  { intros j es e He Hk. apply (stored _ Ok). apply list_elem_of_lookup in He as [k Ek]. rewrite lookup_drop, Hk in Ek by lia.
    apply list_elem_of_lookup. exists (n + j + k)%nat. rewrite lookup_drop, <-Ek. f_equal. unfold i. lia. }
  assert (Keep : forall j es, (forall e, e ∈ drop j es -> current self e) -> poller_ok (Poller (ep self) es j (hndls self))).
  { intros j es Hes. constructor; [apply Ok|]. exact Hes. }
  destruct (evs self !! i) as [e|] eqn:Ei.
  2: { split; [|done]. apply Keep. intros e He. by apply (Sub 0%nat (evs self)); [rewrite Nat.add_0_r|]. }
  assert (Ce : current self e).
  { apply (Sub 0%nat (evs self)); [|done]. apply list_elem_of_lookup. exists 0%nat. by rewrite lookup_drop, !Nat.add_0_r. }
  destruct Ce as [E0 | [R (h & Eh & A)]]; [done|].
  assert (Without : forall bit, poller_ok (Poller (ep self) (<[i := Ev (Z.land (events e) (Z.lnot bit)) (ptr e)]> (evs self)) i (hndls self))).
  { intros bit. apply Keep. intros e' He. apply list_elem_of_lookup in He as [k Ek]. rewrite lookup_drop in Ek.
    destruct k as [|k].
    - rewrite Nat.add_0_r, list_lookup_insert_eq in Ek by by eapply lookup_lt_Some.
      injection Ek as <-. right. split; [done|]. exists h. split; [done|]. by apply allowed_and.
    - rewrite list_lookup_insert_ne in Ek by lia. apply (Sub 0%nat (evs self)); [|done].
      apply list_elem_of_lookup. exists (S k). by rewrite lookup_drop, Nat.add_0_r. }
  destruct (Z.eqb_spec (Z.land (events e) EPOLLIN) 0) as [Ein | Ein]; cbn;
    [destruct (Z.eqb_spec (Z.land (events e) EPOLLOUT) 0) as [Eout | Eout]; cbn|].
  - split; [|by split; [split; [|exists h; auto]|]].
    apply Keep. intros e' He. by apply (Sub 1%nat (evs self)); [rewrite Nat.add_1_r|].
  - split; [apply Without|]. split; [|done]. split; [done|]. exists h. split; [done|]. right; left. split; [done|].
    apply (allowed_bit (events e)); auto.
  - split; [apply Without|]. split; [|done]. split; [done|]. exists h. split; [done|]. left. split; [done|].
    apply (allowed_bit (events e)); auto.
Qed.

Lemma closefd_ok self fd : poller_ok self -> interest (ep self) !! fd = None ->
  poller_ok (closefd self fd) /\ interest (ep (closefd self fd)) = interest (ep self).
Proof.
  intros Ok Hfd. assert (I : interest (ep (closefd self fd)) = interest (ep self)).
  { cbn. by rewrite interest_del, delete_id. }
  split; [|done]. constructor.
  - intros fd' ev. rewrite I. apply (entries _ Ok).
  - cbn. intros e He. destruct (stored _ Ok _ He) as [E0 | [(h & E1 & E2) C]]; [by left|]. right. split; [|done].
    exists h. by rewrite I.
Qed.

(** *** Histories of a poller *)

Inductive op : Type :=
| OAdd (fd : Z) (hndl : loc) | ORm (hndl : loc)
| OSetIn (hndl : loc) | OResetIn (hndl : loc) | OSetOut (hndl : loc) | OResetOut (hndl : loc)
| OWait (answer : list epoll_event) | OEvent | OClose (fd : Z).

Definition step (self : nn_poller K) (o : op) : outcome (nn_poller K * option (Z * loc)) :=
  let quietly m := self ← m; Ret (self, None) in
  match o with
  | OAdd fd hndl => Ret (nn_poller_add self fd hndl, None)
  | ORm hndl => quietly (nn_poller_rm self hndl)
  | OSetIn hndl => quietly (nn_poller_set_in self hndl)
  | OResetIn hndl => quietly (nn_poller_reset_in self hndl)
  | OSetOut hndl => quietly (nn_poller_set_out self hndl)
  | OResetOut hndl => quietly (nn_poller_reset_out self hndl)
  | OWait answer => Ret (nn_poller_wait self answer, None)
  | OEvent => Ret (nn_poller_event self)
  | OClose fd => Ret (closefd self fd, None)
  end.

(** What the users of a poller keep to: a descriptor is added once, under a
    handle not in use; only a handle that is in use is removed or stops polling;
    a handle out of use may still start polling as long as its descriptor
    stands for nothing else; a descriptor is closed once its handle is removed. *)
Definition legal (self : nn_poller K) (o : op) : Prop :=
  match o with
  | OAdd fd hndl => interest (ep self) !! fd = None /\ unregistered self hndl
  | ORm hndl | OResetIn hndl | OResetOut hndl => registered self hndl
  | OSetIn hndl | OSetOut hndl => registered self hndl \/ idle self hndl
  | OWait answer => wait_ok self answer
  | OEvent => True
  | OClose fd => interest (ep self) !! fd = None
  end.

Inductive history : nn_poller K -> Prop :=
| history_init k : interest k = ∅ -> history (Poller k [] 0 ∅)
| history_step self o self' out : history self -> legal self o -> step self o = Ret (self', out) -> history self'.

Lemma poller_init_ok k : interest k = ∅ -> poller_ok (Poller k [] 0 ∅).
Proof. intros E. constructor; cbn; [by rewrite E | by intros e He%elem_of_nil]. Qed.

Lemma poller_step_ok self o : poller_ok self -> legal self o ->
  exists self' out, step self o = Ret (self', out) /\ poller_ok self' /\ wanted self' out.
Proof.
  intros Ok L.
  assert (Set_ : forall hndl bit, registered self hndl \/ idle self hndl ->
    exists self', set_bit self hndl bit = Ret self' /\ poller_ok self').
  { intros hndl bit [R | R]; [destruct (set_bit_ok self hndl bit) as (self' & E & Ok' & _)
                             | destruct (set_bit_idle self hndl bit) as (self' & E & Ok' & _)]; eauto. }
  assert (Reset_ : forall hndl bit, registered self hndl -> exists self', reset_bit self hndl bit = Ret self' /\ poller_ok self').
  { intros hndl bit R. destruct (reset_bit_ok self hndl bit) as (self' & E & Ok' & _); eauto. }
  destruct o; cbn [legal step] in *;
    unfold nn_poller_set_in, nn_poller_reset_in, nn_poller_set_out, nn_poller_reset_out.
  - destruct L as [L1 L2]. eexists _, _. split; [done|]. split; [by apply add_ok | done].
  - destruct (rm_ok self hndl Ok L) as (self' & -> & Ok' & _). by eexists _, _.
  - destruct (Set_ hndl EPOLLIN L) as (self' & -> & Ok'). by eexists _, _.
  - destruct (Reset_ hndl EPOLLIN L) as (self' & -> & Ok'). by eexists _, _.
  - destruct (Set_ hndl EPOLLOUT L) as (self' & -> & Ok'). by eexists _, _.
  - destruct (Reset_ hndl EPOLLOUT L) as (self' & -> & Ok'). by eexists _, _.
  - eexists _, _. split; [done|]. split; [by apply poller_wait_ok | done].
  - assert (P := poller_event_ok self Ok). destruct (nn_poller_event self) as [self' out]. destruct P as (P1 & P2 & _).
    by eexists _, _.
  - eexists _, _. split; [done|]. split; [by apply closefd_ok | done].
Qed.

Lemma history_ok self : history self -> poller_ok self.
Proof.
  induction 1 as [k E | self o self' out _ IH L E]; [by apply poller_init_ok|].
  destruct (poller_step_ok self o IH L) as (self2 & out2 & E2 & Ok & _). rewrite E in E2. by injection E2 as <- _.
Qed.

(** C28.  No stale event.  After every sequence of legal operations on a poller,
    with waits answered by any events of the descriptors the kernel watches, the
    next legal operation does not fail, and an event that is handed out is for a
    handle that is registered and is polling for it at that moment: what was
    stored for a handle that has been removed since the wait, or has stopped
    polling for the bit, is not handed out. *)
Theorem poller_never_stale (self : nn_poller K) (o : op) : history self -> legal self o ->
  exists self' out, step self o = Ret (self', out) /\ history self' /\ wanted self' out.
Proof.
  intros Hh L. destruct (poller_step_ok self o (history_ok self Hh) L) as (self' & out & E & _ & W).
  exists self', out. split; [done|]. split; [by eapply history_step | done].
Qed.
End spec.

(** Two descriptors are ready in one wait; handling the first removes the second. *)
Definition two_ready : list op :=
  [OAdd 5 1%positive; OAdd 6 2%positive; OSetIn 1%positive; OSetIn 2%positive;
   OWait [Ev EPOLLIN 1%positive; Ev EPOLLIN 2%positive]; OEvent; ORm 2%positive].

Fixpoint perform (self : nn_poller (gmap Z epoll_event)) (os : list op) : outcome (nn_poller (gmap Z epoll_event)) :=
  match os with [] => Ret self | o :: os => r ← step self o; perform (fst r) os end.

Definition after (n : nat) : nn_poller (gmap Z epoll_event) :=
  match perform (Poller ∅ [] 0 ∅) (take n two_ready) with Ret p => p | _ => Poller ∅ [] 0 ∅ end.

Lemma after_S n o : legal (after n) o -> history (after n) -> (r ← step (after n) o; Ret (fst r)) = Ret (after (S n)) ->
  history (after (S n)).
Proof.
  intros L Hh E. destruct (step (after n) o) as [[p out] | | |] eqn:Es; try done. injection E as <-. by eapply history_step.
Qed.

Lemma after_history : history (after 7).
Proof.
  assert (H0 : history (after 0)) by by apply history_init.
  assert (H1 : history (after 1)) by (apply (after_S 0 (OAdd 5 1%positive)); [split; [done | by intros fd ev] | done | by vm_compute]).
  assert (H2 : history (after 2)).
  { apply (after_S 1 (OAdd 6 2%positive)); [split; [done|] | done | by vm_compute].
    intros fd ev E. change (interest (ep (after 1))) with (<[5 := Ev 0 1%positive]> ∅ : gmap Z epoll_event) in E.
    apply lookup_insert_Some in E as [[_ <-] | [_ E]]; [done | by rewrite lookup_empty in E]. }
  assert (H3 : history (after 3)).
  { apply (after_S 2 (OSetIn 1%positive)); [left; exists (Hndl 5 0); by vm_compute | done | by vm_compute]. }
  assert (H4 : history (after 4)).
  { apply (after_S 3 (OSetIn 2%positive)); [left; exists (Hndl 6 0); by vm_compute | done | by vm_compute]. }
  assert (H5 : history (after 5)).
  { apply (after_S 4 (OWait [Ev EPOLLIN 1%positive; Ev EPOLLIN 2%positive])); [| done | by vm_compute].
    intros e [-> | [-> | []%elem_of_nil]%elem_of_cons]%elem_of_cons;
      [exists 5, (Ev EPOLLIN 1%positive) | exists 6, (Ev EPOLLIN 2%positive)]; by vm_compute. }
  assert (H6 : history (after 6)) by (by apply (after_S 5 OEvent)).
  apply (after_S 6 (ORm 2%positive)); [exists (Hndl 6 EPOLLIN); by vm_compute | done | by vm_compute].
Qed.

(** The event of the second is not handed out. *)
Lemma poller_never_stale_witness :
  (exists self' out, step (after 7) OEvent = Ret (self', out) /\ history self' /\ wanted self' out) /\
  (step (after 7) OEvent ≫= fun r => Ret (snd r)) = Ret None.
Proof.
  split; [|vm_compute; reflexivity]. apply (poller_never_stale (after 7) OEvent); [apply after_history | exact I].
Defined.
