(* ===== verification/Usock.v ===== *)
(** * Usock: sockets of the operating system (src/aio/usock_posix.inc)

    An [nn_usock] wraps a file descriptor in an asynchronous object.  What can be
    done at once is done by the calling thread; the rest is left to a worker
    thread (src/aio/worker_posix.inc), which the calling thread asks through a
    queue of tasks, and which waits for the descriptors with the poller of
    Poller.v.  A listening socket and the socket that is being accepted from it
    point at each other.

    [world] is a worker with its sockets: their memory, the queue of tasks, the
    part of it the worker has already taken out, and the poller.  Functions take
    the world and the location of a socket.  The results of system calls are
    arguments, in [answers] where a handler makes them: a negative number is a
    negated [errno].  Buffers are passed by value: [out_iov] is what is left of the
    data to send, [in_buf] what was stored so far in the buffer of the receiver,
    which has room for [in_len] more; the batch buffer is what was read last.
    Settings of fresh descriptors ([fcntl]) succeed or fail an assertion. *)

From stdpp Require Import base gmap list.
From Stdlib Require Import ZArith Lia.
From S2P Require Import Prelude.
From S2P Require Import Update.
From S2P Require Import Message.
From S2P Require Import Fsm.
From S2P Require Import Poller.
From S2P Require ListHeap.
Import ListHeap (loc).
From S2P Require Chunk.
Import Chunk (read_at).

Open Scope Z_scope.

(** ** Constants *)

Inductive usock_state : Type :=
| NN_USOCK_STATE_IDLE | NN_USOCK_STATE_STARTING | NN_USOCK_STATE_BEING_ACCEPTED | NN_USOCK_STATE_ACCEPTED
| NN_USOCK_STATE_CONNECTING | NN_USOCK_STATE_ACTIVE | NN_USOCK_STATE_REMOVING_FD | NN_USOCK_STATE_DONE
| NN_USOCK_STATE_LISTENING | NN_USOCK_STATE_ACCEPTING | NN_USOCK_STATE_CANCELLING | NN_USOCK_STATE_STOPPING
| NN_USOCK_STATE_STOPPING_ACCEPT | NN_USOCK_STATE_ACCEPTING_ERROR.

#[export] Instance usock_state_eq_dec : EqDecision usock_state.
Proof. solve_decision. Defined.

Definition NN_USOCK_ACTION_ACCEPT : Z := 1.
Definition NN_USOCK_ACTION_BEING_ACCEPTED : Z := 2.
Definition NN_USOCK_ACTION_CANCEL : Z := 3.
Definition NN_USOCK_ACTION_LISTEN : Z := 4.
Definition NN_USOCK_ACTION_CONNECT : Z := 5.
Definition NN_USOCK_ACTION_ACTIVATE : Z := 6.
Definition NN_USOCK_ACTION_DONE : Z := 7.
Definition NN_USOCK_ACTION_ERROR : Z := 8.
Definition NN_USOCK_ACTION_STARTED : Z := 9.

Definition NN_USOCK_SRC_FD : Z := 1.

Definition NN_USOCK_CONNECTED : Z := 1.
Definition NN_USOCK_ACCEPTED : Z := 2.
Definition NN_USOCK_SENT : Z := 3.
Definition NN_USOCK_RECEIVED : Z := 4.
Definition NN_USOCK_ERROR : Z := 5.
Definition NN_USOCK_ACCEPT_ERROR : Z := 6.
Definition NN_USOCK_STOPPED : Z := 7.
Definition NN_USOCK_SHUTDOWN : Z := 8.

Definition NN_USOCK_MAX_IOVCNT : Z := 3.
Definition NN_USOCK_BATCH_SIZE : Z := 2048.
Definition NN_WORKER_TASK_EXECUTE : Z := 1.

Definition ENOMEM : Z := 12.
Definition ECONNABORTED : Z := 103.
Definition ECONNRESET : Z := 104.
Definition ENOBUFS : Z := 105.
Definition EINPROGRESS : Z := 115.

(** The events of a socket: [event_established], [event_sent], [event_received],
    [event_error]; 0 is [fsm.stopped]. *)
Definition EV_ESTABLISHED : Z := 1.
Definition EV_SENT : Z := 2.
Definition EV_RECEIVED : Z := 3.
Definition EV_ERROR : Z := 4.

(** The tasks of a socket for its worker. *)
Inductive task : Type :=
| task_connecting | task_connected | task_accept | task_send | task_recv | task_stop.

#[export] Instance task_eq_dec : EqDecision task.
Proof. solve_decision. Defined.

(** [NN_USOCK_SRC_TASK_...]. *)
Definition task_src (t : task) : Z :=
  match t with
  | task_connecting => 2 | task_connected => 3 | task_accept => 4 | task_send => 5 | task_recv => 6 | task_stop => 7
  end.

(** What the worker finds in its queue: a task, or that it has to stop. *)
Inductive work : Type := Task (p : loc) (t : task) | Stop.

#[export] Instance work_eq_dec : EqDecision work.
Proof. solve_decision. Defined.

(** ** Data *)

Record nn_usock : Type := Usock {
  ufsm : nn_fsm; state : usock_state; s : Z; errnum : Z;
  in_buf : list Z; in_len : Z; batch : option (list Z); batch_len : Z; batch_pos : Z; pfd : option loc;
  out_iov : list (list Z); asock : option loc
}.

#[export] Instance nn_usock_eta : Eta nn_usock := fun r =>
  Usock (ufsm r) (state r) (s r) (errnum r) (in_buf r) (in_len r) (batch r) (batch_len r) (batch_pos r) (pfd r)
    (out_iov r) (asock r).

(** [efd] tells whether the worker is signalled; [cells] is the memory for
    received descriptors. *)
Record world (K : Type) : Type := World {
  socks : gmap loc nn_usock; poller : nn_poller K; tasks : list work; running : list work; efd : bool;
  alive : bool; cells : gmap loc Z
}.
Arguments World {K}.
Arguments socks {K}.
Arguments poller {K}.
Arguments tasks {K}.
Arguments running {K}.
Arguments efd {K}.
Arguments alive {K}.
Arguments cells {K}.

#[export] Instance world_eta (K : Type) : Eta (world K) := fun r =>
  World (socks r) (poller r) (tasks r) (running r) (efd r) (alive r) (cells r).

(** The handle of the worker's own descriptor. *)
Definition efd_hndl : loc := 1%positive.

(** Result of [recvmsg]: bytes, none at the end of the stream, with the control
    messages that came along (level, type, data); or an error. *)
Inductive recv_answer : Type := Got (bytes : list Z) (ctrl : list (Z * Z * Z)) | RecvErr (errno : Z).

(** Results of [accept], [recvmsg], [sendmsg], [getsockopt (SO_ERROR)]; whether
    the settings of an accepted descriptor succeed. *)
Record answers : Type := Answers { a_accept : Z; a_recv : recv_answer; a_send : Z; a_sockerr : Z; a_fcntl : bool }.

(** ** Sending and receiving *)

(** The iovecs after [nbytes] bytes were sent. *)
Fixpoint advance (nbytes : Z) (iov : list (list Z)) : outcome (list (list Z) * Z) :=
  match iov with
  | [] => if nbytes =? 0 then Ret ([], 0) else Undef
  | b :: rest =>
      if nbytes =? 0 then Ret (iov, - EAGAIN) else
      if nbytes >=? size b then
        match rest with
        | [] => _ ← check (nbytes =? size b); Ret ([], 0)
        | _ => advance (nbytes - size b) rest
        end
      else Ret (drop (Z.to_nat nbytes) b :: rest, - EAGAIN)
  end.

(** [nbytes] is the result of [sendmsg]. *)
Definition nn_usock_send_raw (self : nn_usock) (nbytes : Z) : outcome (nn_usock * Z) :=
  if (nbytes <? 0) && negb (nbytes =? - EAGAIN) then Ret (self, - ECONNRESET) else
  '(iov, rc) ← advance (if nbytes <? 0 then 0 else nbytes) (out_iov self);
  Ret (self ⦃ out_iov := iov ⦄, rc).

Definition SOL_SOCKET : Z := 1.
Definition SCM_RIGHTS : Z := 1.

(** The descriptor in the first control message that carries one. *)
Fixpoint passed_fd (ctrl : list (Z * Z * Z)) : option Z :=
  match ctrl with
  | (level, type, data) :: ctrl =>
      if (level =? SOL_SOCKET) && (type =? SCM_RIGHTS) then Some data else passed_fd ctrl
  | [] => None
  end.

(** Up to [len] bytes are received: the socket, the bytes stored, the result, and
    a descriptor that came along. *)
Definition nn_usock_recv_raw (self : nn_usock) (len : Z) (ans : recv_answer)
    : outcome (nn_usock * list Z * Z * option Z) :=
  let self := match batch self with Some _ => self | None => self ⦃ batch := Some [] ⦄ end in
  data ← match batch self with Some data => Ret data | None => Undef end;
  let avail := batch_len self - batch_pos self in
  let sz := if avail >? len then len else avail in
  buf ← (if avail =? 0 then Ret [] else read_at data (batch_pos self) sz);
  let self := if avail =? 0 then self else self ⦃ batch_pos := batch_pos self + sz ⦄ in
  let length := if avail =? 0 then len else len - sz in
  if negb (avail =? 0) && (length =? 0) then Ret (self, buf, 0, None) else
  match ans with
  | Got [] _ => Ret (self, buf, - ECONNRESET, None)
  | RecvErr errno =>
      if negb (errno =? EAGAIN) then Ret (self, buf, - ECONNRESET, None)
      else if length >? NN_USOCK_BATCH_SIZE then Ret (self, buf, 0, None)
      else Ret (self ⦃ batch_len := 0 ⦄ ⦃ batch_pos := 0 ⦄, buf, 0, None)
  | Got bytes ctrl =>
      if length >? NN_USOCK_BATCH_SIZE then Ret (self, buf ++ bytes, 0, passed_fd ctrl) else
      let sz := if size bytes >? length then length else size bytes in
      Ret (self ⦃ batch := Some bytes ⦄ ⦃ batch_len := size bytes ⦄ ⦃ batch_pos := sz ⦄,
           buf ++ take (Z.to_nat sz) bytes, 0, passed_fd ctrl)
  end.

(** [nn_usock_geterr]. *)
Definition nn_usock_geterr (sockerr : Z) : Z := sockerr.

(** ** The world *)

Section usock.
  Context {K : Type} `{Epoll K}.

Definition get (w : world K) (p : loc) : outcome nn_usock := deref (socks w) p.
Definition put (w : world K) (p : loc) (u : nn_usock) : world K := w ⦃ socks := <[p := u]> (socks w) ⦄.
Definition set_state (w : world K) (p : loc) (st : usock_state) : outcome (world K) :=
  u ← get w p; Ret (put w p (u ⦃ state := st ⦄)).
Definition assert_state (w : world K) (p : loc) (sts : list usock_state) : outcome unit :=
  u ← get w p; check (bool_decide (state u ∈ sts)).

(** *** The worker, seen from the sockets *)

Definition nn_worker_add_fd (w : world K) (fd : Z) (p : loc) : world K := w ⦃ poller := nn_poller_add (poller w) fd p ⦄.
Definition nn_worker_rm_fd (w : world K) (p : loc) : outcome (world K) :=
  po ← nn_poller_rm (poller w) p; Ret (w ⦃ poller := po ⦄).
Definition nn_worker_set_in (w : world K) (p : loc) : outcome (world K) :=
  po ← nn_poller_set_in (poller w) p; Ret (w ⦃ poller := po ⦄).
Definition nn_worker_reset_in (w : world K) (p : loc) : outcome (world K) :=
  po ← nn_poller_reset_in (poller w) p; Ret (w ⦃ poller := po ⦄).
Definition nn_worker_set_out (w : world K) (p : loc) : outcome (world K) :=
  po ← nn_poller_set_out (poller w) p; Ret (w ⦃ poller := po ⦄).
Definition nn_worker_reset_out (w : world K) (p : loc) : outcome (world K) :=
  po ← nn_poller_reset_out (poller w) p; Ret (w ⦃ poller := po ⦄).

(** The item of a task is in a queue, the worker's or the copy it works off. *)
Definition queued (w : world K) (x : work) : bool := bool_decide (x ∈ tasks w ++ running w).

(** [nn_queue_push] aborts when the item is queued already. *)
Definition nn_worker_execute (w : world K) (p : loc) (t : task) : outcome (world K) :=
  _ ← check (negb (queued w (Task p t)));
  Ret (w ⦃ tasks := tasks w ++ [Task p t] ⦄ ⦃ efd := true ⦄).

(** Removes the item from the worker's queue; it is not found in the copy. *)
Definition nn_worker_cancel (w : world K) (p : loc) (t : task) : world K :=
  w ⦃ tasks := filter (fun x => x <> Task p t) (tasks w) ⦄.

Definition nn_worker_task_term (w : world K) (p : loc) (t : task) : outcome unit := check (negb (queued w (Task p t))).

(** [nn_closefd (self->s); self->s = -1]. *)
Definition close_s (w : world K) (p : loc) : outcome (world K) :=
  u ← get w p;
  Ret (put (w ⦃ poller := closefd (poller w) (s u) ⦄) p (u ⦃ s := -1 ⦄)).

Definition raise (w : world K) (p : loc) (event type : Z) : outcome (world K) :=
  u ← get w p;
  f ← nn_fsm_raise (ufsm u) event type;
  Ret (put w p (u ⦃ ufsm := f ⦄)).

(** *** Life of the object *)

Definition nn_usock_init : nn_usock :=
  Usock nn_fsm_init NN_USOCK_STATE_IDLE (-1) 0 [] 0 None 0 0 None [] None.

(** The socket is released. *)
Definition nn_usock_term (w : world K) (p : loc) : outcome (world K) :=
  _ ← assert_state w p [NN_USOCK_STATE_IDLE];
  let w := nn_worker_cancel w p task_recv in
  _ ← nn_worker_task_term w p task_stop;
  _ ← nn_worker_task_term w p task_recv;
  _ ← nn_worker_task_term w p task_send;
  _ ← nn_worker_task_term w p task_accept;
  _ ← nn_worker_task_term w p task_connected;
  _ ← nn_worker_task_term w p task_connecting;
  u ← get w p;
  _ ← nn_fsm_term (ufsm u);
  Ret (w ⦃ socks := delete p (socks w) ⦄).

Definition nn_usock_isidle (u : nn_usock) : bool := nn_fsm_isidle (ufsm u).

(** The first assertion of the function always holds: its second disjunct is a
    constant. *)
Definition nn_usock_init_from_fd (w : world K) (p : loc) (fd : Z) (fcntl_ok : bool) : outcome (world K) :=
  u ← get w p;
  _ ← check (s u =? -1);
  _ ← check fcntl_ok;
  Ret (put w p (u ⦃ s := fd ⦄)).

Definition nn_usock_async_stop (w : world K) (p : loc) : outcome (world K) :=
  w ← nn_worker_execute w p task_stop;
  raise w p EV_ERROR NN_USOCK_SHUTDOWN.

(** *** The state machine *)

(** [nn_internal_tasks]: [Some] when the event is one of these tasks. *)
Definition nn_internal_tasks (w : world K) (p : loc) (src type : Z) : option (outcome (world K)) :=
  let add := (u ← get w p; Ret (nn_worker_add_fd w (s u) p)) in
  if src =? task_src task_send then
    Some (_ ← check (type =? NN_WORKER_TASK_EXECUTE); nn_worker_set_out w p)
  else if src =? task_src task_recv then
    Some (_ ← check (type =? NN_WORKER_TASK_EXECUTE); nn_worker_set_in w p)
  else if src =? task_src task_connected then
    Some (_ ← check (type =? NN_WORKER_TASK_EXECUTE); add)
  else if src =? task_src task_connecting then
    Some (_ ← check (type =? NN_WORKER_TASK_EXECUTE); w ← add; nn_worker_set_out w p)
  else if src =? task_src task_accept then
    Some (_ ← check (type =? NN_WORKER_TASK_EXECUTE); w ← add; nn_worker_set_in w p)
  else None.

Definition finish2 (w : world K) (p : loc) : outcome (world K) :=
  w ← set_state w p NN_USOCK_STATE_IDLE;
  u ← get w p;
  f ← nn_fsm_stopped (ufsm u) NN_USOCK_STOPPED;
  Ret (put w p (u ⦃ ufsm := f ⦄)).

Definition finish1 (w : world K) (p : loc) : outcome (world K) := w ← close_s w p; finish2 w p.

(** The branch labelled [error]: the connection is over. *)
Definition broken (w : world K) (p : loc) : outcome (world K) :=
  w ← nn_worker_rm_fd w p;
  w ← close_s w p;
  w ← set_state w p NN_USOCK_STATE_DONE;
  raise w p EV_ERROR NN_USOCK_ERROR.

(** A descriptor that was received is stored where [in.pfd] points, or closed. *)
Definition take_fd (w : world K) (p : loc) (fd : option Z) : outcome (world K) :=
  match fd with
  | None => Ret w
  | Some fd =>
      u ← get w p;
      match pfd u with
      | Some c => Ret ((put w p (u ⦃ pfd := None ⦄)) ⦃ cells := <[c := fd]> (cells w) ⦄)
      | None => Ret (w ⦃ poller := closefd (poller w) fd ⦄)
      end
  end.

(** [action] is [nn_fsm_action] on the other socket of a pair. *)
Section handler.
  Variable action : world K -> loc -> Z -> outcome (world K).
  Variable k : answers.

(** The pointer [asock] of a socket. *)
Definition other (w : world K) (p : loc) : outcome loc :=
  u ← get w p; match asock u with Some q => Ret q | None => Undef end.

Definition stop_branch (w : world K) (p : loc) : outcome (world K) :=
  u ← get w p;
  _ ← check (negb (bool_decide (state u = NN_USOCK_STATE_ACCEPTING)) &&
             negb (bool_decide (state u = NN_USOCK_STATE_CANCELLING)));
  let w := put w p (u ⦃ errnum := 0 ⦄) in
  match state u with
  | NN_USOCK_STATE_IDLE => Ret w
  | NN_USOCK_STATE_DONE => finish2 w p
  | NN_USOCK_STATE_STARTING | NN_USOCK_STATE_ACCEPTED
  | NN_USOCK_STATE_ACCEPTING_ERROR | NN_USOCK_STATE_LISTENING => finish1 w p
  | NN_USOCK_STATE_BEING_ACCEPTED =>
      q ← other w p;
      w ← action w q NN_USOCK_ACTION_CANCEL;
      set_state w p NN_USOCK_STATE_STOPPING_ACCEPT
  | NN_USOCK_STATE_REMOVING_FD => set_state w p NN_USOCK_STATE_STOPPING
  | _ =>
      w ← nn_usock_async_stop w p;
      set_state w p NN_USOCK_STATE_STOPPING
  end.

Definition nn_usock_shutdown (w : world K) (p : loc) (src type : Z) : outcome (world K) :=
  match nn_internal_tasks w p src type with
  | Some done => done
  | None =>
      if (src =? NN_FSM_ACTION) && (type =? NN_FSM_STOP) then stop_branch w p else
      u ← get w p;
      match state u with
      | NN_USOCK_STATE_STOPPING_ACCEPT =>
          _ ← check ((src =? NN_FSM_ACTION) && (type =? NN_USOCK_ACTION_DONE));
          finish2 w p
      | NN_USOCK_STATE_STOPPING =>
          if negb (src =? task_src task_stop) then Ret w else
          _ ← check (type =? NN_WORKER_TASK_EXECUTE);
          w ← nn_worker_rm_fd w p;
          finish1 w p
      | _ => Abort
      end
  end.

(** An event of the descriptor of a connected socket. *)
Definition active_fd (w : world K) (p : loc) (type : Z) : outcome (world K) :=
  u ← get w p;
  if type =? NN_POLLER_IN then
    '(u, bytes, rc, fd) ← nn_usock_recv_raw u (in_len u) (a_recv k);
    w ← take_fd (put w p u) p fd;
    if rc =? 0 then
      u ← get w p;
      let u := u ⦃ in_buf := in_buf u ++ bytes ⦄ ⦃ in_len := in_len u - size bytes ⦄ in
      let w := put w p u in
      if in_len u =? 0 then
        w ← nn_worker_reset_in w p;
        raise w p EV_RECEIVED NN_USOCK_RECEIVED
      else Ret w
    else _ ← check (rc =? - ECONNRESET); broken w p
  else if type =? NN_POLLER_OUT then
    '(u, rc) ← nn_usock_send_raw u (a_send k);
    let w := put w p u in
    if rc =? 0 then
      w ← nn_worker_reset_out w p;
      raise w p EV_SENT NN_USOCK_SENT
    else if rc =? - EAGAIN then Ret w
    else _ ← check (rc =? - ECONNRESET); broken w p
  else if type =? NN_POLLER_ERR then broken w p
  else Abort.

(** An event of the descriptor of a socket that is connecting. *)
Definition connecting_fd (w : world K) (p : loc) (type : Z) : outcome (world K) :=
  if type =? NN_POLLER_OUT then
    w ← nn_worker_reset_out w p;
    w ← set_state w p NN_USOCK_STATE_ACTIVE;
    if nn_usock_geterr (a_sockerr k) =? 0 then raise w p EV_ESTABLISHED NN_USOCK_CONNECTED
    else
      u ← get w p;
      broken (put w p (u ⦃ errnum := a_sockerr k ⦄)) p
  else if type =? NN_POLLER_ERR then broken w p
  else Abort.

(** A connection can be accepted. *)
Definition accepting_fd (w : world K) (p : loc) : outcome (world K) :=
  let fd := a_accept k in
  if fd =? - ECONNABORTED then Ret w else
  if (fd =? - ENFILE) || (fd =? - EMFILE) || (fd =? - ENOBUFS) || (fd =? - ENOMEM) then
    u ← get w p;
    let w := put w p (u ⦃ errnum := - fd ⦄ ⦃ state := NN_USOCK_STATE_ACCEPTING_ERROR ⦄) in
    w ← nn_worker_rm_fd w p;
    raise w p EV_ERROR NN_USOCK_ACCEPT_ERROR
  else
    _ ← check (fd >=? 0);
    q ← other w p;
    w ← nn_usock_init_from_fd w q fd (a_fcntl k);
    w ← set_state w q NN_USOCK_STATE_ACCEPTED;
    w ← raise w q EV_ESTABLISHED NN_USOCK_ACCEPTED;
    v ← get w q;
    let w := put w q (v ⦃ asock := None ⦄) in
    u ← get w p;
    let w := put w p (u ⦃ asock := None ⦄) in
    w ← nn_worker_rm_fd w p;
    set_state w p NN_USOCK_STATE_LISTENING.

Definition nn_usock_handler (w : world K) (p : loc) (src type : Z) : outcome (world K) :=
  match nn_internal_tasks w p src type with
  | Some done => done
  | None =>
      u ← get w p;
      let on_action ty (next : outcome (world K)) (otherwise : outcome (world K)) :=
        if (src =? NN_FSM_ACTION) && (type =? ty) then next else otherwise in
      match state u with
      | NN_USOCK_STATE_IDLE => on_action NN_FSM_START (set_state w p NN_USOCK_STATE_STARTING) Abort
      | NN_USOCK_STATE_STARTING =>
          on_action NN_USOCK_ACTION_LISTEN (set_state w p NN_USOCK_STATE_LISTENING)
          (on_action NN_USOCK_ACTION_CONNECT (set_state w p NN_USOCK_STATE_CONNECTING)
          (on_action NN_USOCK_ACTION_BEING_ACCEPTED (set_state w p NN_USOCK_STATE_BEING_ACCEPTED)
          (on_action NN_USOCK_ACTION_STARTED (set_state (nn_worker_add_fd w (s u) p) p NN_USOCK_STATE_ACTIVE) Abort)))
      | NN_USOCK_STATE_BEING_ACCEPTED =>
          on_action NN_USOCK_ACTION_DONE
            (w ← set_state w p NN_USOCK_STATE_ACCEPTED; raise w p EV_ESTABLISHED NN_USOCK_ACCEPTED) Abort
      | NN_USOCK_STATE_ACCEPTED =>
          on_action NN_USOCK_ACTION_ACTIVATE (set_state (nn_worker_add_fd w (s u) p) p NN_USOCK_STATE_ACTIVE) Abort
      | NN_USOCK_STATE_CONNECTING =>
          on_action NN_USOCK_ACTION_DONE
            (w ← set_state w p NN_USOCK_STATE_ACTIVE;
             w ← nn_worker_execute w p task_connected;
             raise w p EV_ESTABLISHED NN_USOCK_CONNECTED)
          (on_action NN_USOCK_ACTION_ERROR
            (w ← close_s w p;
             w ← set_state w p NN_USOCK_STATE_DONE;
             raise w p EV_ERROR NN_USOCK_ERROR)
          (if src =? NN_USOCK_SRC_FD then connecting_fd w p type else Abort))
      | NN_USOCK_STATE_ACTIVE =>
          on_action NN_USOCK_ACTION_ERROR
            (w ← set_state w p NN_USOCK_STATE_REMOVING_FD; nn_usock_async_stop w p)
          (if src =? NN_USOCK_SRC_FD then active_fd w p type else Abort)
      | NN_USOCK_STATE_REMOVING_FD =>
          if src =? task_src task_stop then
            _ ← check (type =? NN_WORKER_TASK_EXECUTE); broken w p
          else if src =? NN_USOCK_SRC_FD then Ret w
          else on_action NN_USOCK_ACTION_ERROR (Ret w) Abort
      | NN_USOCK_STATE_DONE => Ret w
      | NN_USOCK_STATE_LISTENING => on_action NN_USOCK_ACTION_ACCEPT (set_state w p NN_USOCK_STATE_ACCEPTING) Abort
      | NN_USOCK_STATE_ACCEPTING =>
          on_action NN_USOCK_ACTION_DONE (set_state w p NN_USOCK_STATE_LISTENING)
          (on_action NN_USOCK_ACTION_CANCEL
            (w ← set_state w p NN_USOCK_STATE_CANCELLING; nn_worker_execute w p task_stop)
          (if (src =? NN_USOCK_SRC_FD) && (type =? NN_POLLER_IN) then accepting_fd w p else Abort))
      | NN_USOCK_STATE_ACCEPTING_ERROR =>
          on_action NN_USOCK_ACTION_ACCEPT (set_state w p NN_USOCK_STATE_ACCEPTING) Abort
      | NN_USOCK_STATE_CANCELLING =>
          if src =? task_src task_stop then
            _ ← check (type =? NN_WORKER_TASK_EXECUTE);
            w ← nn_worker_rm_fd w p;
            w ← set_state w p NN_USOCK_STATE_LISTENING;
            q ← other w p;
            action w q NN_USOCK_ACTION_DONE
          else if src =? NN_USOCK_SRC_FD then _ ← check (type =? NN_POLLER_IN); Ret w
          else Abort
      | NN_USOCK_STATE_STOPPING | NN_USOCK_STATE_STOPPING_ACCEPT => Abort
      end
  end.

(** The socket at [p] as the object of a state machine. *)
Definition usock_object (p : loc) : FsmObject (world K) := {|
  fsm w := match socks w !! p with Some u => ufsm u | None => nn_fsm_init end;
  with_fsm w f := match socks w !! p with Some u => put w p (u ⦃ ufsm := f ⦄) | None => w end;
  fn w src type _ := nn_usock_handler w p src type;
  shutdown_fn w src type _ := nn_usock_shutdown w p src type
|}.
End handler.

(** [nn_fsm_action] on a socket: a socket being stopped acts on its listener, and
    the listener on the socket it accepted, so calls nest at most twice. *)
Fixpoint usock_action (n : nat) (k : answers) (w : world K) (p : loc) (type : Z) : outcome (world K) :=
  match n with
  | O => NoFuel
  | S n => nn_fsm_action (H := usock_object (usock_action n k) k p) w type
  end.

Definition socket (k : answers) (p : loc) : FsmObject (world K) := usock_object (usock_action 2 k) k p.

Definition feed (k : answers) (w : world K) (p : loc) (src type : Z) : outcome (world K) :=
  nn_fsm_feed (H := socket k p) w src type 0.
Definition start (k : answers) (w : world K) (p : loc) : outcome (world K) := nn_fsm_start (H := socket k p) w.
Definition act (k : answers) (w : world K) (p : loc) (type : Z) : outcome (world K) := nn_fsm_action (H := socket k p) w type.

(** Handlers that make no system call. *)
Definition quiet : answers := Answers 0 (Got [] []) 0 0 true.

(** *** Functions for the owner *)

(** [fd] is the result of [socket]. *)
Definition nn_usock_start (w : world K) (p : loc) (fd : Z) (fcntl_ok : bool) : outcome (world K * Z) :=
  if fd <? 0 then Ret (w, fd) else
  w ← nn_usock_init_from_fd w p fd fcntl_ok;
  w ← start quiet w p;
  Ret (w, 0).

Definition nn_usock_start_fd (w : world K) (p : loc) (fd : Z) (fcntl_ok : bool) : outcome (world K) :=
  w ← nn_usock_init_from_fd w p fd fcntl_ok;
  w ← start quiet w p;
  act quiet w p NN_USOCK_ACTION_STARTED.

Definition nn_usock_stop (w : world K) (p : loc) : outcome (world K) := nn_fsm_stop (H := socket quiet p) w.

(** [rc] is the result of the system call: 0 or a negated error. *)
Definition nn_usock_setsockopt (w : world K) (p : loc) (rc : Z) : outcome Z :=
  _ ← assert_state w p [NN_USOCK_STATE_STARTING; NN_USOCK_STATE_ACCEPTED];
  Ret rc.

(** [reuse_ok]: setting [SO_REUSEADDR] succeeded. *)
Definition nn_usock_bind (w : world K) (p : loc) (reuse_ok : bool) (rc : Z) : outcome Z :=
  _ ← assert_state w p [NN_USOCK_STATE_STARTING];
  _ ← check reuse_ok;
  Ret rc.

Definition nn_usock_listen (w : world K) (p : loc) (rc : Z) : outcome (world K * Z) :=
  _ ← assert_state w p [NN_USOCK_STATE_STARTING];
  if negb (rc =? 0) then Ret (w, rc) else
  w ← act quiet w p NN_USOCK_ACTION_LISTEN;
  Ret (w, 0).

(** [fd] is the result of [accept]. *)
Definition nn_usock_accept (w : world K) (self listener : loc) (fd : Z) (fcntl_ok : bool) : outcome (world K) :=
  u ← get w self;
  w ← (if nn_usock_isidle u then
         w ← start quiet w self;
         act quiet w self NN_USOCK_ACTION_BEING_ACCEPTED
       else Ret w);
  w ← act quiet w listener NN_USOCK_ACTION_ACCEPT;
  if fd >=? 0 then
    l ← get w listener;
    let w := put w listener (l ⦃ asock := None ⦄) in
    u ← get w self;
    let w := put w self (u ⦃ asock := None ⦄) in
    w ← nn_usock_init_from_fd w self fd fcntl_ok;
    w ← act quiet w listener NN_USOCK_ACTION_DONE;
    act quiet w self NN_USOCK_ACTION_DONE
  else
    let errno := - fd in
    _ ← check (bool_decide (errno ∈ [EAGAIN; ECONNABORTED; ENFILE; EMFILE; ENOBUFS; ENOMEM]));
    u ← get w self;
    _ ← check (bool_decide (asock u = None \/ asock u = Some listener));
    let w := put w self (u ⦃ asock := Some listener ⦄) in
    l ← get w listener;
    _ ← check (bool_decide (asock l = None \/ asock l = Some self));
    let w := put w listener (l ⦃ asock := Some self ⦄) in
    if negb (errno =? EAGAIN) && negb (errno =? ECONNABORTED) && negb (errno =? errnum l) then
      l ← get w listener;
      let w := put w listener (l ⦃ errnum := errno ⦄ ⦃ state := NN_USOCK_STATE_ACCEPTING_ERROR ⦄) in
      raise w listener EV_ERROR NN_USOCK_ACCEPT_ERROR
    else nn_worker_execute w listener task_accept.

Definition nn_usock_activate (w : world K) (p : loc) : outcome (world K) := act quiet w p NN_USOCK_ACTION_ACTIVATE.

(** [rc] is the result of [connect]: 0 or a negated error. *)
Definition nn_usock_connect (w : world K) (p : loc) (rc : Z) : outcome (world K) :=
  w ← act quiet w p NN_USOCK_ACTION_CONNECT;
  if rc =? 0 then act quiet w p NN_USOCK_ACTION_DONE
  else if negb (rc =? - EINPROGRESS) then
    u ← get w p;
    act quiet (put w p (u ⦃ errnum := - rc ⦄)) p NN_USOCK_ACTION_ERROR
  else nn_worker_execute w p task_connecting.

(** [nbytes] is the result of [sendmsg].  Empty buffers are left out. *)
Definition nn_usock_send (w : world K) (p : loc) (iov : list (list Z)) (nbytes : Z) : outcome (world K) :=
  u ← get w p;
  if negb (bool_decide (state u = NN_USOCK_STATE_ACTIVE)) then act quiet w p NN_USOCK_ACTION_ERROR else
  _ ← check (Z.of_nat (length iov) <=? NN_USOCK_MAX_IOVCNT);
  '(u, rc) ← nn_usock_send_raw (u ⦃ out_iov := filter (fun b => b <> []) iov ⦄) nbytes;
  let w := put w p u in
  if rc =? 0 then raise w p EV_SENT NN_USOCK_SENT
  else if negb (rc =? - EAGAIN) then
    _ ← check (rc =? - ECONNRESET);
    act quiet w p NN_USOCK_ACTION_ERROR
  else nn_worker_execute w p task_send.

(** A request for [len] bytes. *)
Definition nn_usock_recv (w : world K) (p : loc) (len : Z) (fd : option loc) (ans : recv_answer) : outcome (world K) :=
  u ← get w p;
  if negb (bool_decide (state u = NN_USOCK_STATE_ACTIVE)) then act quiet w p NN_USOCK_ACTION_ERROR else
  '(u, bytes, rc, passed) ← nn_usock_recv_raw (u ⦃ pfd := fd ⦄) len ans;
  w ← take_fd (put w p u) p passed;
  if rc <? 0 then
    _ ← check (rc =? - ECONNRESET);
    act quiet w p NN_USOCK_ACTION_ERROR
  else
    u ← get w p;
    let w := put w p (u ⦃ in_buf := bytes ⦄) in
    if size bytes =? len then raise w p EV_RECEIVED NN_USOCK_RECEIVED
    else
      u ← get w p;
      nn_worker_execute (put w p (u ⦃ in_len := len - size bytes ⦄)) p task_recv.

(** The event at the head of the socket's queue goes to its owner. *)
Definition deliver (w : world K) (p : loc) : outcome (world K * option Z) :=
  u ← get w p;
  match raised (ufsm u) with
  | [] => Ret (w, None)
  | (_, type) :: rest => Ret (put w p (u ⦃ ufsm := Fsm (fsm_st (ufsm u)) rest ⦄), Some type)
  end.

(** *** The worker thread *)

(** [nn_worker_term] asks the thread to stop. *)
Definition nn_worker_term (w : world K) : outcome (world K) :=
  _ ← check (negb (queued w Stop));
  Ret (w ⦃ tasks := tasks w ++ [Stop] ⦄ ⦃ efd := true ⦄).

(** Parts of [nn_worker_routine].  The thread waits when it has handed out all
    events; timers are in Timer.v. *)
Definition worker_wait (w : world K) (answer : list epoll_event) : world K :=
  w ⦃ poller := nn_poller_wait (poller w) answer ⦄.

(** One event of the poller.  The worker's own descriptor means tasks: the queue
    is copied. *)
Definition worker_event (w : world K) (k : answers) : outcome (world K) :=
  let '(po, event) := nn_poller_event (poller w) in
  let w := w ⦃ poller := po ⦄ in
  match event with
  | None => Ret w
  | Some (pevent, hndl) =>
      if decide (hndl = efd_hndl) then
        _ ← check (pevent =? NN_POLLER_IN);
        Ret (w ⦃ efd := false ⦄ ⦃ running := tasks w ⦄ ⦃ tasks := [] ⦄)
      else feed k w hndl NN_USOCK_SRC_FD pevent
  end.

(** One task of the copy. *)
Definition worker_task (w : world K) : outcome (world K) :=
  match running w with
  | [] => Ret w
  | Stop :: _ => Ret (w ⦃ running := [] ⦄ ⦃ alive := false ⦄)
  | Task p t :: rest => feed quiet (w ⦃ running := rest ⦄) p (task_src t) NN_WORKER_TASK_EXECUTE
  end.
End usock.
