(* ===== verification/UsockData.v ===== *)
(** * UsockData: the bytes that pass through a socket

    What [nn_usock_recv] and the events of the descriptor store for the owner is
    what the kernel returned, in order and without gaps, whatever pieces it comes
    in and however much of it went through the batch buffer; what the kernel is
    given is what [nn_usock_send] was given.  Stated for one call, with what the
    call leaves of the world; StcpTrip.v builds on it. *)

From stdpp Require Import base gmap list.
From Stdlib Require Import ZArith Lia.
From S2P Require Import Prelude.
From S2P Require Import Update.
From S2P Require Import Message.
From S2P Require Import Fsm.
From S2P Require Import Poller.
From S2P Require Import Usock.
From S2P Require ListHeap.
Import ListHeap (loc).
From S2P Require Chunk.
Import Chunk (read_at).

Open Scope Z_scope.

(** ** Receiving *)

(** The bytes of the batch buffer that are still to be received. *)
Definition left (u : nn_usock) : list Z :=
  match batch u with
  | Some data => take (Z.to_nat (batch_len u - batch_pos u)) (drop (Z.to_nat (batch_pos u)) data)
  | None => []
  end.

Definition batch_ok (u : nn_usock) : Prop :=
  0 <= batch_pos u <= batch_len u /\ match batch u with Some data => batch_len u <= size data | None => batch_len u = 0 end.

(** The request cannot be satisfied from the batch buffer. *)
Definition asks_kernel (u : nn_usock) (len : Z) : bool := batch_len u - batch_pos u <? len.

(** How many bytes [recvmsg] is asked for. *)
Definition room (u : nn_usock) (len : Z) : Z :=
  let length := len - (batch_len u - batch_pos u) in
  if length >? NN_USOCK_BATCH_SIZE then length else NN_USOCK_BATCH_SIZE.

(** Data, not more than there is room for, or that there is none yet. *)
Definition data_answer (u : nn_usock) (len : Z) (ans : recv_answer) : Prop :=
  match ans with
  | Got bytes _ => 0 < size bytes <= room u len
  | RecvErr errno => errno = EAGAIN
  end.

(** What the kernel hands over in answer to the request. *)
Definition from_kernel (u : nn_usock) (len : Z) (ans : recv_answer) : list Z :=
  if asks_kernel u len then match ans with Got bytes _ => bytes | RecvErr _ => [] end else [].

(** The sockets differ in the batch buffer at most. *)
Definition same_but_batch (u u' : nn_usock) : Prop :=
  u' = u ⦃ batch := batch u' ⦄ ⦃ batch_len := batch_len u' ⦄ ⦃ batch_pos := batch_pos u' ⦄.

Lemma left_size u : batch_ok u -> size (left u) = batch_len u - batch_pos u.
Proof.
  unfold batch_ok, left. destruct (batch u) as [data|]; intros [Hp Hd].
  - unfold size in *. rewrite length_take, length_drop. lia.
  - change (size []) with 0. lia.
Qed.

Lemma bytes_size_cons b l : size (b :: l) = 1 + size l.
Proof. unfold size. cbn [length]. lia. Qed.

Lemma size_0 l : size l = 0 -> l = [].
Proof. destruct l; [done|]. rewrite bytes_size_cons. assert (H := size_nonneg l). lia. Qed.

Lemma take_size l : take (Z.to_nat (size l)) l = l.
Proof. apply take_ge. unfold size. lia. Qed.

(** Data received into the batch buffer, of which [sz] bytes are passed on. *)
Lemma refilled u bytes sz : 0 <= sz <= size bytes ->
  let u' := u ⦃ batch := Some bytes ⦄ ⦃ batch_len := size bytes ⦄ ⦃ batch_pos := sz ⦄ in
  batch_ok u' /\ left u' = drop (Z.to_nat sz) bytes.
Proof.
  intros Hsz. split.
  - split; cbn; lia.
  - unfold left. cbn. apply take_ge. rewrite length_drop. unfold size in *. lia.
Qed.

Definition room_left (n : Z) : Z := if n >? NN_USOCK_BATCH_SIZE then n else NN_USOCK_BATCH_SIZE.

(** What happens when the batch buffer is used up: [buf] was stored before. *)
Lemma recv_rest u (n : Z) buf ans :
  0 < n -> batch_ok u -> left u = [] ->
  match ans with Got bytes _ => 0 < size bytes <= room_left n | RecvErr errno => errno = EAGAIN end ->
  let got := match ans with Got bytes _ => bytes | RecvErr _ => [] end in
  exists u' bytes fd,
    match ans with
    | Got [] _ => Ret (u, buf, - ECONNRESET, None)
    | RecvErr errno =>
        if negb (errno =? EAGAIN) then Ret (u, buf, - ECONNRESET, None)
        else if n >? NN_USOCK_BATCH_SIZE then Ret (u, buf, 0, None)
        else Ret (u ⦃ batch_len := 0 ⦄ ⦃ batch_pos := 0 ⦄, buf, 0, None)
    | Got bytes ctrl =>
        if n >? NN_USOCK_BATCH_SIZE then Ret (u, buf ++ bytes, 0, passed_fd ctrl) else
        let sz := if size bytes >? n then n else size bytes in
        Ret (u ⦃ batch := Some bytes ⦄ ⦃ batch_len := size bytes ⦄ ⦃ batch_pos := sz ⦄,
             buf ++ take (Z.to_nat sz) bytes, 0, passed_fd ctrl)
    end = Ret (u', buf ++ bytes, 0, fd) /\
    batch_ok u' /\ same_but_batch u u' /\ got = bytes ++ left u' /\ size bytes <= n /\
    (size bytes < n -> left u' = []).
Proof.
  intros Hn Ok L A got. destruct ans as [bytes ctrl | errno]; subst got; cbn.
  - destruct bytes as [|b bytes]; [change (size []) with 0 in A; lia|]. set (all := b :: bytes) in *. unfold room_left in A.
    destruct (n >? NN_USOCK_BATCH_SIZE) eqn:Eb.
    + exists u, all, (passed_fd ctrl). rewrite L, app_nil_r. destruct u. repeat split; try done; apply Ok || lia.
    + eexists _, _, _. split; [reflexivity|].
      destruct (refilled u all (if size all >? n then n else size all)) as [Ok' L'].
      { assert (H := size_nonneg all). destruct (size all >? n) eqn:E; lia. }
      split; [exact Ok'|]. split; [by destruct u|]. split; [by rewrite L', take_drop|].
      rewrite L'. assert (H := size_nonneg all). destruct (size all >? n) eqn:E.
      * destruct (size_take_drop all n) as [E1 _]; [lia|]. rewrite E1. lia.
      * rewrite take_size. split; [lia|]. intros _. rewrite drop_ge; [done|]. unfold size. lia.
  - subst errno. cbn. destruct (n >? NN_USOCK_BATCH_SIZE).
    + exists u, [], None. rewrite app_nil_r, L. destruct u. repeat split; try done; apply Ok || (change (size []) with 0; lia).
    + eexists _, [], None. rewrite app_nil_r. split; [reflexivity|]. unfold batch_ok, left. destruct u as [? ? ? ? ? ? [data|] ? ? ? ? ?]; cbn.
      * change (size []) with 0. repeat split; try done; try lia; assert (H := size_nonneg data); lia.
      * change (size []) with 0. repeat split; try done; lia.
Qed.

(** Whatever the kernel answers, the bytes that were left and those it hands over
    are passed on in order, and what is not passed on is kept. *)
Lemma recv_raw_ok u len ans : 0 < len -> batch_ok u -> data_answer u len ans ->
  exists u' bytes fd, nn_usock_recv_raw u len ans = Ret (u', bytes, 0, fd) /\
    batch_ok u' /\ same_but_batch u u' /\
    left u ++ from_kernel u len ans = bytes ++ left u' /\ size bytes <= len /\ (size bytes < len -> left u' = []).
Proof.
  intros Hlen Ok A. unfold nn_usock_recv_raw.
  set (v := match batch u with Some _ => u | None => u ⦃ batch := Some [] ⦄ end).
  assert (V : exists data, batch v = Some data /\ batch_ok v /\ left v = left u /\ batch_len v = batch_len u /\
    batch_pos v = batch_pos u /\ same_but_batch u v).
  { unfold v. destruct (batch u) as [data|] eqn:E; [exists data; by destruct u|]. exists [].
    destruct Ok as [Ok1 Ok2]. rewrite E in Ok2. split; [done|]. split; [split; cbn; [done|]; change (size []) with 0; lia|].
    split; [unfold left; cbn; by rewrite E, drop_nil, take_nil|]. by destruct u. }
  destruct V as (data & Ed & Okv & Lv & El & Ep & Sv). rewrite Ed. cbn [mbind outcome_bind]. rewrite El, Ep.
  set (avail := batch_len u - batch_pos u). assert (Hav : 0 <= avail) by (destruct Ok; unfold avail; lia).
  assert (Sl : size (left u) = avail) by by apply left_size.
  unfold from_kernel, asks_kernel. fold avail. unfold data_answer, room in A. fold avail in A. fold (room_left (len - avail)) in A.
  destruct (Z.eqb_spec avail 0) as [E0 | E0].
  { cbn [mbind outcome_bind negb andb]. rewrite E0 in *. rewrite Z.sub_0_r in A.
    assert (Lu : left u = []) by by apply size_0.
    destruct (recv_rest v len [] ans) as (u' & bytes & fd & E & Ok' & S' & G & Sz & Lz); [done | done | by rewrite Lv | done |].
    exists u', bytes, fd. rewrite (proj2 (Z.ltb_lt _ _)) by lia. split; [exact E|]. split; [done|].
    split; [by unfold same_but_batch in *; rewrite S', Sv; destruct u, u' |]. by rewrite Lu. }
  assert (Eq : left u = take (Z.to_nat avail) (drop (Z.to_nat (batch_pos u)) data)).
  { rewrite <-Lv. unfold left. by rewrite Ed, El, Ep. }
  assert (Read : forall n, 0 <= n <= avail -> read_at data (batch_pos u) n = Ret (take (Z.to_nat n) (left u))).
  { intros n Hn. destruct Okv as [Ok1 Ok2]. rewrite Ed, El, Ep in *. unfold read_at.
    rewrite (proj2 (Z.leb_le _ _)), (proj2 (Z.leb_le _ _)) by (unfold avail in *; lia). cbn. rewrite Eq, take_take.
    do 2 f_equal. lia. }
  assert (Eadv : forall n, 0 <= n <= avail -> let w := v ⦃ batch_pos := batch_pos u + n ⦄ in
    batch_ok w /\ left w = drop (Z.to_nat n) (left u) /\ same_but_batch u w).
  { intros n Hn w. unfold w. split; [|split].
    - destruct Okv as [Ok1 Ok2]. unfold batch_ok. cbn. rewrite Ed, El, Ep in *. unfold avail in *. split; lia || done.
    - unfold left at 1. cbn. rewrite Ed, El, Eq.
      replace (Z.to_nat (batch_pos u + n)) with (Z.to_nat (batch_pos u) + Z.to_nat n)%nat by (destruct Ok; lia).
      rewrite <-drop_drop, take_drop_commute. f_equal. f_equal. unfold avail in *. lia.
    - unfold same_but_batch in *. rewrite Sv. by destruct u. }
  destruct (Z.ltb_spec avail len) as [Hlt | Hge].
  - rewrite (Read (if avail >? len then len else avail)) by (destruct (avail >? len) eqn:E; lia).
    cbn [mbind outcome_bind negb andb].
    replace (if avail >? len then len else avail) with avail by (destruct (avail >? len) eqn:E; lia).
    rewrite (proj2 (Z.eqb_neq _ _)) by lia. rewrite <-Sl, take_size, Sl.
    destruct (Eadv avail) as (Ok2 & L2 & S2); [lia|]. set (w := v ⦃ batch_pos := batch_pos u + avail ⦄) in *.
    rewrite drop_ge in L2 by (unfold size in Sl; lia).
    destruct (recv_rest w (len - avail) (left u) ans) as (u' & bytes & fd & E & Ok' & S' & G & Sz & Lz); [lia | done.. |].
    exists u', (left u ++ bytes), fd. split; [exact E|]. split; [done|].
    split; [by unfold same_but_batch in *; rewrite S', S2; destruct u, u' |]. rewrite <-app_assoc, <-G, size_app, Sl.
    split; [done|]. split; [lia|]. intros. apply Lz. lia.
  - rewrite (Read (if avail >? len then len else avail)) by (destruct (avail >? len) eqn:E; lia).
    cbn [mbind outcome_bind negb andb].
    replace (if avail >? len then len else avail) with len by (destruct (avail >? len) eqn:E; lia).
    rewrite Z.sub_diag. cbn. destruct (Eadv len) as (Ok2 & L2 & S2); [lia|].
    eexists _, _, None. split; [reflexivity|]. split; [exact Ok2|]. split; [exact S2|].
    destruct (size_take_drop (left u) len) as [E1 _]; [lia|]. rewrite L2, app_nil_r, take_drop, E1. split; [done|]. split; lia.
Qed.

(** ** Sending *)

Definition solid (iov : list (list Z)) : Prop := Forall (fun b => b <> []) iov.

Lemma size_pos b : b <> [] -> 0 < size b.
Proof. destruct b; [done|]. intros _. rewrite bytes_size_cons. assert (H := size_nonneg b). lia. Qed.

(** The first [n] bytes are taken off the iovecs; the result tells whether that is all. *)
Lemma advance_ok iov : forall n, solid iov -> 0 <= n <= size (concat iov) ->
  exists iov', advance n iov = Ret (iov', if decide (iov' = []) then 0 else - EAGAIN) /\
    concat iov = take (Z.to_nat n) (concat iov) ++ concat iov' /\ solid iov'.
Proof.
  induction iov as [|b iov IH]; intros n So Hn; cbn.
  { exists []. change (size (concat [])) with 0 in Hn. rewrite (proj2 (Z.eqb_eq n 0)) by lia. by rewrite take_nil. }
  apply Forall_cons in So as [Hb So]. assert (Pb := size_pos b Hb). cbn in Hn. rewrite size_app in Hn.
  destruct (Z.eqb_spec n 0) as [-> | Hn0].
  { exists (b :: iov). rewrite decide_False by done. repeat split; try done. by constructor. }
  destruct (n >=? size b) eqn:E.
  - assert (Hge : size b <= n) by lia. destruct iov as [|b' iov].
    + change (size (concat [])) with 0 in Hn. exists []. rewrite (proj2 (Z.eqb_eq n (size b))) by lia. cbn.
      rewrite app_nil_r, take_ge, app_nil_r by (unfold size in *; lia). done.
    + destruct (IH (n - size b) So) as (iov' & E1 & E2 & E3); [lia|]. exists iov'. split; [exact E1|]. split; [|done].
      rewrite E2 at 1. rewrite app_assoc. f_equal. rewrite take_app_ge by (unfold size in *; lia). f_equal. f_equal.
      unfold size. lia.
  - assert (Hlt : n < size b) by lia. exists (drop (Z.to_nat n) b :: iov). rewrite decide_False by done.
    split; [done|]. split.
    + cbn. rewrite take_app_le by (unfold size in *; lia). by rewrite app_assoc, take_drop.
    + constructor; [|done]. intros E0. apply (f_equal size) in E0. change (size []) with 0 in E0.
      destruct (size_take_drop b n) as [_ E1]; lia.
Qed.

(** What [sendmsg] may return: how much it took, or that it takes nothing now. *)
Definition taken_answer (iov : list (list Z)) (nbytes : Z) : Prop :=
  nbytes = - EAGAIN \/ 0 <= nbytes <= size (concat iov).

(** The bytes the kernel took. *)
Definition to_kernel (iov : list (list Z)) (nbytes : Z) : list Z :=
  if nbytes <? 0 then [] else take (Z.to_nat nbytes) (concat iov).

Lemma send_raw_ok u nbytes : solid (out_iov u) -> taken_answer (out_iov u) nbytes ->
  exists iov, nn_usock_send_raw u nbytes = Ret (u ⦃ out_iov := iov ⦄, if decide (iov = []) then 0 else - EAGAIN) /\
    concat (out_iov u) = to_kernel (out_iov u) nbytes ++ concat iov /\ solid iov.
Proof.
  intros So A. unfold nn_usock_send_raw, to_kernel.
  assert (Hneg : (nbytes <? 0) && negb (nbytes =? - EAGAIN) = false).
  { destruct A as [-> | A]; [done|]. by rewrite (proj2 (Z.ltb_ge _ _)) by lia. }
  rewrite Hneg. destruct (advance_ok (out_iov u) (if nbytes <? 0 then 0 else nbytes) So) as (iov & E1 & E2 & E3).
  { destruct (Z.ltb_spec nbytes 0); [|destruct A; unfold EAGAIN in *; lia]. assert (Hsz := size_nonneg (concat (out_iov u))). lia. }
  rewrite E1. cbn. exists iov. split; [done|]. split; [|done].
  destruct (nbytes <? 0); [|done]. rewrite E2 at 1. done.
Qed.

(** ** The calls and events of a connected socket *)

Section world.
  Context {K : Type} `{Epoll K}.

Lemma get_ok (w : world K) p u : socks w !! p = Some u -> get w p = Ret u.
Proof. intros E. unfold get. by rewrite (deref_Some _ _ _ E). Qed.

Lemma put_get (w : world K) p u : socks (put w p u) !! p = Some u.
Proof. cbn. apply lookup_insert_eq. Qed.

(** The worlds have the same queues and handles. *)
Definition same_worker (w w' : world K) : Prop :=
  tasks w' = tasks w /\ running w' = running w /\ hndls (poller w') = hndls (poller w).

Lemma same_worker_trans (w1 w2 w3 : world K) : same_worker w1 w2 -> same_worker w2 w3 -> same_worker w1 w3.
Proof. unfold same_worker. intros (A1 & A2 & A3) (B1 & B2 & B3). by rewrite B1, B2, B3. Qed.

Lemma put_worker (w : world K) p u : same_worker w (put w p u).
Proof. done. Qed.

Lemma take_fd_ok (w : world K) p u fd : socks w !! p = Some u ->
  exists w' c, take_fd w p fd = Ret w' /\ socks w' !! p = Some (u ⦃ pfd := c ⦄) /\ same_worker w w'.
Proof.
  intros E. unfold take_fd. destruct fd as [fd|].
  - rewrite (get_ok _ _ _ E). cbn. destruct (pfd u) as [c|] eqn:Ec.
    + eexists _, None. split; [done|]. split; [apply put_get | done].
    + eexists _, None. split; [done|]. cbn. rewrite E. split; [|done]. destruct u; cbn in *. by subst.
  - exists w, (pfd u). split; [done|]. rewrite E. by destruct u.
Qed.

Lemma raise_ok (w : world K) p u ev ty : socks w !! p = Some u -> nn_fsm_event_active (ufsm u) ev = false ->
  raise w p ev ty = Ret (put w p (u ⦃ ufsm := Fsm (fsm_st (ufsm u)) (raised (ufsm u) ++ [(ev, ty)]) ⦄)).
Proof. intros E Ha. unfold raise, nn_fsm_raise. rewrite (get_ok _ _ _ E). cbn. by rewrite Ha. Qed.

Lemma execute_ok (w : world K) p t : queued w (Task p t) = false ->
  nn_worker_execute w p t = Ret (w ⦃ tasks := tasks w ++ [Task p t] ⦄ ⦃ efd := true ⦄).
Proof. intros E. unfold nn_worker_execute. by rewrite E. Qed.

Lemma reset_bit_total (po : nn_poller K) p bit : is_Some (hndls po !! p) ->
  exists po', reset_bit po p bit = Ret po' /\ is_Some (hndls po' !! p).
Proof.
  intros [h Eh]. unfold reset_bit. rewrite (deref_Some _ _ _ Eh). cbn. destruct (_ =? 0); (eexists; split; [done|]).
  - by exists h.
  - cbn. by rewrite lookup_insert_eq.
Qed.

(** A request for the next [len] bytes: the socket has them, and raises
    RECEIVED, or a beginning of them, and a task is queued. *)
Lemma usock_recv_ok (w : world K) p u len fd ans :
  socks w !! p = Some u -> state u = NN_USOCK_STATE_ACTIVE -> batch_ok u -> 0 < len -> data_answer u len ans ->
  in_len u = 0 -> nn_fsm_event_active (ufsm u) EV_RECEIVED = false -> queued w (Task p task_recv) = false ->
  exists w' u', nn_usock_recv w p len fd ans = Ret w' /\ socks w' !! p = Some u' /\
    state u' = NN_USOCK_STATE_ACTIVE /\ batch_ok u' /\ out_iov u' = out_iov u /\ asock u' = asock u /\
    left u ++ from_kernel u len ans = in_buf u' ++ left u' /\
    hndls (poller w') = hndls (poller w) /\ running w' = running w /\ fsm_st (ufsm u') = fsm_st (ufsm u) /\
    (size (in_buf u') = len /\ in_len u' = 0 /\ tasks w' = tasks w /\
       raised (ufsm u') = raised (ufsm u) ++ [(EV_RECEIVED, NN_USOCK_RECEIVED)] \/
     size (in_buf u') + in_len u' = len /\ 0 < in_len u' /\ left u' = [] /\ tasks w' = tasks w ++ [Task p task_recv] /\
       raised (ufsm u') = raised (ufsm u)).
Proof.
  intros Hp Hst Hb Hlen A Hin Hev Hq. unfold nn_usock_recv. rewrite (get_ok _ _ _ Hp). cbn [mbind outcome_bind].
  rewrite bool_decide_eq_true_2 by done. cbn [negb].
  destruct (recv_raw_ok (u ⦃ pfd := fd ⦄) len ans Hlen) as (u1 & bytes & pass & E1 & Ok1 & S1 & G1 & Z1 & L1); [by destruct u.. |].
  rewrite E1. cbn [mbind outcome_bind].
  destruct (take_fd_ok (put w p u1) p u1 pass) as (w2 & c & E2 & Hp2 & (T1 & T2 & T3)); [apply put_get|].
  rewrite E2. cbn [mbind outcome_bind]. change (0 <? 0) with false. cbn [negb]. rewrite (get_ok _ _ _ Hp2). cbn [mbind outcome_bind].
  assert (Gu : left u ++ from_kernel u len ans = bytes ++ left u1) by (rewrite <-G1; by destruct u).
  set (u2 := (u1 ⦃ pfd := c ⦄) ⦃ in_buf := bytes ⦄).
  assert (F : state u2 = state u /\ out_iov u2 = out_iov u /\ asock u2 = asock u /\ ufsm u2 = ufsm u /\ in_len u2 = in_len u /\
    batch_ok u2 /\ left u2 = left u1).
  { unfold u2. unfold same_but_batch in S1. rewrite S1. destruct u, u1. cbn in *. by repeat split; try apply Ok1. }
  destruct F as (F1 & F2 & F3 & F4 & F5 & F6 & F7). assert (Hb2 : in_buf u2 = bytes) by by unfold u2; destruct u1.
  clearbody u2. destruct (Z.eqb_spec (size bytes) len) as [Es | Es].
  - rewrite (raise_ok _ _ u2) by (apply put_get || by rewrite F4). eexists _, _. split; [reflexivity|].
    split; [apply put_get|]. cbn. rewrite F1, F2, F3, F4, F5, Hb2. split; [done|]. split; [done|]. do 2 (split; [done|]).
    split; [by rewrite Gu, <-F7|]. do 3 (split; [done|]). left. by rewrite T1.
  - rewrite (get_ok _ _ u2) by apply put_get. cbn [mbind outcome_bind].
    rewrite execute_ok. 2: { unfold queued in *. cbn. by rewrite T1, T2. }
    eexists _, _. split; [reflexivity|]. split; [apply lookup_insert_eq|]. cbn. rewrite F1, F2, F3, F4, Hb2.
    split; [done|]. split; [done|]. do 2 (split; [done|]). split; [by rewrite Gu, <-F7|]. do 3 (split; [done|]). right.
    split; [lia|]. split; [lia|]. split; [etransitivity; [exact F7 | apply L1; lia]|]. by rewrite T1.
Qed.

(** More bytes for a request that is waiting. *)
Lemma fd_in_ok (w : world K) k act p u :
  socks w !! p = Some u -> state u = NN_USOCK_STATE_ACTIVE -> batch_ok u -> 0 < in_len u ->
  data_answer u (in_len u) (a_recv k) -> is_Some (hndls (poller w) !! p) ->
  nn_fsm_event_active (ufsm u) EV_RECEIVED = false -> left u = [] ->
  exists w' u', nn_usock_handler act k w p NN_USOCK_SRC_FD NN_POLLER_IN = Ret w' /\ socks w' !! p = Some u' /\
    state u' = NN_USOCK_STATE_ACTIVE /\ batch_ok u' /\ out_iov u' = out_iov u /\ asock u' = asock u /\
    in_buf u ++ from_kernel u (in_len u) (a_recv k) = in_buf u' ++ left u' /\
    size (in_buf u') + in_len u' = size (in_buf u) + in_len u /\
    is_Some (hndls (poller w') !! p) /\ tasks w' = tasks w /\ running w' = running w /\ fsm_st (ufsm u') = fsm_st (ufsm u) /\
    (in_len u' = 0 /\ raised (ufsm u') = raised (ufsm u) ++ [(EV_RECEIVED, NN_USOCK_RECEIVED)] \/
     0 < in_len u' /\ left u' = [] /\ raised (ufsm u') = raised (ufsm u)).
Proof.
  intros Hp Hst Hb Hlen A Hh Hev HL. unfold nn_usock_handler. cbn [nn_internal_tasks task_src].
  change (nn_internal_tasks w p NN_USOCK_SRC_FD NN_POLLER_IN) with (@None (outcome (world K))). cbn match.
  rewrite (get_ok _ _ _ Hp). cbn [mbind outcome_bind]. rewrite Hst. cbn [Z.eqb NN_USOCK_SRC_FD NN_FSM_ACTION andb].
  change (NN_USOCK_SRC_FD =? NN_FSM_ACTION) with false. cbn [andb]. change (NN_USOCK_SRC_FD =? NN_USOCK_SRC_FD) with true.
  cbn match. unfold active_fd. rewrite (get_ok _ _ _ Hp). cbn [mbind outcome_bind]. change (NN_POLLER_IN =? NN_POLLER_IN) with true.
  cbn match. destruct (recv_raw_ok u (in_len u) (a_recv k) Hlen Hb A) as (u1 & bytes & pass & E1 & Ok1 & S1 & G1 & Z1 & L1).
  rewrite E1. cbn [mbind outcome_bind].
  destruct (take_fd_ok (put w p u1) p u1 pass) as (w2 & c & E2 & Hp2 & (T1 & T2 & T3)); [apply put_get|].
  rewrite E2. cbn [mbind outcome_bind]. change (0 =? 0) with true. cbn match. rewrite (get_ok _ _ _ Hp2). cbn [mbind outcome_bind].
  set (u2 := ((u1 ⦃ pfd := c ⦄) ⦃ in_buf := in_buf (u1 ⦃ pfd := c ⦄) ++ bytes ⦄) ⦃ in_len := in_len (u1 ⦃ pfd := c ⦄) - size bytes ⦄).
  assert (F : state u2 = state u /\ out_iov u2 = out_iov u /\ asock u2 = asock u /\ ufsm u2 = ufsm u /\
    in_len u2 = in_len u - size bytes /\ in_buf u2 = in_buf u ++ bytes /\ batch_ok u2 /\ left u2 = left u1).
  { unfold u2. unfold same_but_batch in S1. rewrite S1. destruct u, u1. cbn in *. by repeat split; try apply Ok1. }
  destruct F as (F1 & F2 & F3 & F4 & F5 & F6 & F7 & F8). clearbody u2.
  assert (Gu : in_buf u ++ from_kernel u (in_len u) (a_recv k) = in_buf u2 ++ left u2).
  { rewrite HL in G1. cbn in G1. by rewrite G1, F6, F8, app_assoc. }
  assert (Sz : size (in_buf u2) + in_len u2 = size (in_buf u) + in_len u) by (rewrite F5, F6, size_app; lia).
  destruct (Z.eqb_spec (in_len u2) 0) as [Es | Es].
  - unfold nn_worker_reset_in, nn_poller_reset_in.
    destruct (reset_bit_total (poller (put w2 p u2)) p EPOLLIN) as (po & -> & Hpo); [cbn; by rewrite T3|].
    cbn [mbind outcome_bind].
    rewrite (raise_ok _ _ u2) by (apply put_get || by rewrite F4). eexists _, _. split; [reflexivity|].
    split; [apply put_get|]. cbn. rewrite F1, F2, F3, F4. do 4 (split; [done|]). split; [exact Gu|]. split; [exact Sz|].
    split; [done|]. do 3 (split; [by try rewrite T1|]). by left.
  - exists (put w2 p u2), u2. split; [done|]. split; [apply put_get|]. rewrite F1, F2, F3, F4. do 4 (split; [done|]).
    split; [exact Gu|]. split; [exact Sz|]. split; [cbn; by rewrite T3|]. do 3 (split; [done|]). right.
    split; [lia|]. split; [|done]. rewrite F8. apply L1. lia.
Qed.

Lemma concat_solid iov : concat (filter (fun b : list Z => b <> []) iov) = concat iov.
Proof. induction iov as [|b iov IH]; [done|]. rewrite filter_cons. destruct (decide _) as [Hb | Hb]; cbn; rewrite IH; [done|].
  apply dec_stable in Hb. by subst.
Qed.

Lemma solid_filter iov : solid (filter (fun b : list Z => b <> []) iov).
Proof. apply Forall_forall. intros b Hb. by apply list_elem_of_filter in Hb as [Hb _]. Qed.

(** Data to be sent: the kernel takes it all, and the socket raises SENT, or a
    beginning of it, and a task is queued. *)
Lemma usock_send_ok (w : world K) p u iov nbytes :
  socks w !! p = Some u -> state u = NN_USOCK_STATE_ACTIVE -> Z.of_nat (length iov) <= NN_USOCK_MAX_IOVCNT ->
  taken_answer iov nbytes -> nn_fsm_event_active (ufsm u) EV_SENT = false -> queued w (Task p task_send) = false ->
  exists w' rest, nn_usock_send w p iov nbytes = Ret w' /\ solid rest /\
    concat iov = to_kernel iov nbytes ++ concat rest /\
    hndls (poller w') = hndls (poller w) /\ running w' = running w /\
    (rest = [] /\ tasks w' = tasks w /\ socks w' !! p = Some (u ⦃ out_iov := rest ⦄
         ⦃ ufsm := Fsm (fsm_st (ufsm u)) (raised (ufsm u) ++ [(EV_SENT, NN_USOCK_SENT)]) ⦄) \/
     rest <> [] /\ tasks w' = tasks w ++ [Task p task_send] /\ socks w' !! p = Some (u ⦃ out_iov := rest ⦄)).
Proof.
  intros Hp Hst Hlen A Hev Hq. unfold nn_usock_send. rewrite (get_ok _ _ _ Hp). cbn [mbind outcome_bind].
  rewrite bool_decide_eq_true_2 by done. cbn [negb]. rewrite (proj2 (Z.leb_le _ _) Hlen). cbn [check mbind outcome_bind].
  set (solid_iov := filter _ iov).
  destruct (send_raw_ok (u ⦃ out_iov := solid_iov ⦄) nbytes) as (rest & E & G & So).
  { apply solid_filter. }
  { unfold taken_answer in *. cbn. unfold solid_iov. by rewrite concat_solid. }
  rewrite E. cbn [mbind outcome_bind].
  assert (G' : concat iov = to_kernel iov nbytes ++ concat rest).
  { cbn in G. unfold solid_iov, to_kernel in *. by rewrite concat_solid in G. }
  assert (Eu : (u ⦃ out_iov := solid_iov ⦄) ⦃ out_iov := rest ⦄ = u ⦃ out_iov := rest ⦄) by by destruct u. rewrite Eu.
  destruct (decide (rest = [])) as [Er | Er].
  - change (0 =? 0) with true. cbn match. rewrite (raise_ok _ _ (u ⦃ out_iov := rest ⦄)) by (apply put_get || done).
    eexists _, rest. split; [reflexivity|]. split; [done|]. split; [exact G'|]. do 2 (split; [done|]). left.
    split; [done|]. split; [done|]. apply put_get.
  - change (- EAGAIN =? 0) with false. change (- EAGAIN =? - EAGAIN) with true. cbn match. cbn [negb].
    rewrite execute_ok by done. eexists _, rest. split; [reflexivity|]. split; [done|]. split; [exact G'|].
    do 2 (split; [done|]). right. split; [done|]. split; [done|]. apply (put_get w).
Qed.

(** The kernel takes more of the data. *)
Lemma fd_out_ok (w : world K) k act p u :
  socks w !! p = Some u -> state u = NN_USOCK_STATE_ACTIVE -> solid (out_iov u) -> taken_answer (out_iov u) (a_send k) ->
  is_Some (hndls (poller w) !! p) -> nn_fsm_event_active (ufsm u) EV_SENT = false ->
  exists w' rest, nn_usock_handler act k w p NN_USOCK_SRC_FD NN_POLLER_OUT = Ret w' /\ solid rest /\
    concat (out_iov u) = to_kernel (out_iov u) (a_send k) ++ concat rest /\
    is_Some (hndls (poller w') !! p) /\ tasks w' = tasks w /\ running w' = running w /\
    (rest = [] /\ socks w' !! p = Some (u ⦃ out_iov := rest ⦄
         ⦃ ufsm := Fsm (fsm_st (ufsm u)) (raised (ufsm u) ++ [(EV_SENT, NN_USOCK_SENT)]) ⦄) \/
     rest <> [] /\ socks w' !! p = Some (u ⦃ out_iov := rest ⦄)).
Proof.
  intros Hp Hst So A Hh Hev. unfold nn_usock_handler.
  change (nn_internal_tasks w p NN_USOCK_SRC_FD NN_POLLER_OUT) with (@None (outcome (world K))). cbn match.
  rewrite (get_ok _ _ _ Hp). cbn [mbind outcome_bind]. rewrite Hst.
  change (NN_USOCK_SRC_FD =? NN_FSM_ACTION) with false. cbn [andb]. change (NN_USOCK_SRC_FD =? NN_USOCK_SRC_FD) with true.
  cbn match. unfold active_fd. rewrite (get_ok _ _ _ Hp). cbn [mbind outcome_bind].
  change (NN_POLLER_OUT =? NN_POLLER_IN) with false. change (NN_POLLER_OUT =? NN_POLLER_OUT) with true. cbn match.
  destruct (send_raw_ok u (a_send k) So A) as (rest & E & G & So'). rewrite E. cbn [mbind outcome_bind].
  destruct (decide (rest = [])) as [Er | Er].
  - change (0 =? 0) with true. cbn match. unfold nn_worker_reset_out, nn_poller_reset_out.
    destruct (reset_bit_total (poller (put w p (u ⦃ out_iov := rest ⦄))) p EPOLLOUT) as (po & -> & Hpo); [done|].
    cbn [mbind outcome_bind]. rewrite (raise_ok _ _ (u ⦃ out_iov := rest ⦄)) by (apply put_get || done).
    eexists _, rest. split; [reflexivity|]. split; [done|]. split; [exact G|]. do 3 (split; [done|]). left.
    split; [done|]. apply put_get.
  - change (- EAGAIN =? 0) with false. change (- EAGAIN =? - EAGAIN) with true. cbn match.
    eexists _, rest. split; [reflexivity|]. split; [done|]. split; [exact G|]. do 3 (split; [done|]). right.
    split; [done|]. apply put_get.
Qed.
End world.
