(* ===== verification/Streamhdr.v ===== *)
(** * Streamhdr: the protocol headers of a stream (src/transports/utils/streamhdr.c)

    The first eight bytes on a TCP or IPC connection are a header that names the
    socket type: 0 "SP" 0, the protocol in two bytes, two reserved bytes.  Each
    side sends its own and receives the other's into the same buffer; a timer
    limits how long that takes.  While the exchange goes on the object owns the
    socket, and gives it back to its previous owner at the end.

    The socket below is the pair of requests [rx] and [tx] the object made of it;
    [io_swaps] counts how often its owner was exchanged. *)

From stdpp Require Import base list.
From Stdlib Require Import ZArith Lia.
From S2P Require Import Prelude.
From S2P Require Import Update.
From S2P Require Import Wire.
From S2P Require Import Message.
From S2P Require Import Fsm.
From S2P Require Timer.
From S2P Require Chunk.
From S2P Require Usock.
Import Timer (nn_timer, nn_timer_init, nn_timer_start, nn_timer_stop, nn_timer_isidle, nn_timer_term, NN_TIMER_TIMEOUT,
  NN_TIMER_STOPPED).
Import Chunk (read_at, write_at).
Import Usock (NN_USOCK_SENT, NN_USOCK_RECEIVED, NN_USOCK_ERROR, NN_USOCK_SHUTDOWN).

Open Scope Z_scope.

Inductive streamhdr_state : Type :=
| NN_STREAMHDR_STATE_IDLE | NN_STREAMHDR_STATE_SENDING | NN_STREAMHDR_STATE_RECEIVING
| NN_STREAMHDR_STATE_STOPPING_TIMER_ERROR | NN_STREAMHDR_STATE_STOPPING_TIMER_DONE
| NN_STREAMHDR_STATE_DONE | NN_STREAMHDR_STATE_STOPPING.

#[export] Instance streamhdr_state_eq_dec : EqDecision streamhdr_state.
Proof. solve_decision. Defined.

Definition NN_STREAMHDR_SRC_USOCK : Z := 1.
Definition NN_STREAMHDR_SRC_TIMER : Z := 2.

Definition NN_STREAMHDR_OK : Z := 1.
Definition NN_STREAMHDR_ERROR : Z := 2.
Definition NN_STREAMHDR_STOPPED : Z := 3.

(** The event [done]. *)
Definition EV_DONE : Z := 1.

(** [usock]: the object has a socket; [usock_owner]: it remembers an owner. *)
Record nn_streamhdr : Type := Streamhdr {
  hfsm : nn_fsm; state : streamhdr_state; timer : nn_timer; usock : bool; usock_owner : bool;
  protohdr : list Z; rx : option Z; tx : option (list Z); io_swaps : Z
}.

#[export] Instance nn_streamhdr_eta : Eta nn_streamhdr := fun r =>
  Streamhdr (hfsm r) (state r) (timer r) (usock r) (usock_owner r) (protohdr r) (rx r) (tx r) (io_swaps r).

Definition nn_streamhdr_init : nn_streamhdr :=
  Streamhdr nn_fsm_init NN_STREAMHDR_STATE_IDLE nn_timer_init false false (replicate 8 0) None None 0.

Definition nn_streamhdr_term (self : nn_streamhdr) : outcome unit :=
  _ ← check (bool_decide (state self = NN_STREAMHDR_STATE_IDLE));
  _ ← nn_timer_term (timer self);
  nn_fsm_term (hfsm self).

Definition nn_streamhdr_isidle (self : nn_streamhdr) : bool := nn_fsm_isidle (hfsm self).

(** [nn_usock_swap_owner (self->usock, &self->usock_owner)], and the socket
    forgotten; what it was asked for is no longer this object's affair. *)
Definition release (self : nn_streamhdr) : nn_streamhdr :=
  self ⦃ io_swaps := io_swaps self + 1 ⦄ ⦃ usock := false ⦄ ⦃ usock_owner := false ⦄ ⦃ rx := None ⦄ ⦃ tx := None ⦄.

Definition stop_timer (self : nn_streamhdr) (st : streamhdr_state) : outcome nn_streamhdr :=
  t ← nn_timer_stop (timer self); Ret (self ⦃ timer := t ⦄ ⦃ state := st ⦄).

(** "\0SP\0". *)
Definition signature : list Z := [0; 83; 80; 0].

Section streamhdr.
  (** The socket option [NN_PROTOCOL], and [nn_pipebase_ispeer]. *)
  Context (protocol : Z) (ispeer : Z -> bool).

Definition nn_streamhdr_shutdown (self : nn_streamhdr) (src type srcptr : Z) : outcome nn_streamhdr :=
  self ← (if (src =? NN_FSM_ACTION) && (type =? NN_FSM_STOP)
          then stop_timer self NN_STREAMHDR_STATE_STOPPING else Ret self);
  if decide (state self = NN_STREAMHDR_STATE_STOPPING) then
    if negb (nn_timer_isidle (timer self)) then Ret self else
    f ← nn_fsm_stopped (hfsm self) NN_STREAMHDR_STOPPED;
    Ret (self ⦃ state := NN_STREAMHDR_STATE_IDLE ⦄ ⦃ hfsm := f ⦄)
  else Abort.

(** The timer ran out: the same in both states that wait for the socket. *)
Definition handle_timeout (self : nn_streamhdr) (type : Z) : outcome nn_streamhdr :=
  if type =? NN_TIMER_TIMEOUT then stop_timer self NN_STREAMHDR_STATE_STOPPING_TIMER_ERROR else Abort.

(** What is checked of the peer's header. *)
Definition valid_header (hdr : list Z) : outcome bool :=
  if negb (bool_decide (take 4 hdr = signature)) then Ret false else
  peer ← nn_gets (drop 4 hdr);
  Ret (ispeer peer).

(** States STOPPING_TIMER_ERROR and STOPPING_TIMER_DONE. *)
Definition handle_stopping (self : nn_streamhdr) (result src type : Z) : outcome nn_streamhdr :=
  if src =? NN_STREAMHDR_SRC_USOCK then _ ← check (type =? NN_USOCK_ERROR); Ret self
  else if src =? NN_STREAMHDR_SRC_TIMER then
    if type =? NN_TIMER_STOPPED then
      let self := (release self) ⦃ state := NN_STREAMHDR_STATE_DONE ⦄ in
      f ← nn_fsm_raise (hfsm self) EV_DONE result;
      Ret (self ⦃ hfsm := f ⦄)
    else Abort
  else Abort.

Definition nn_streamhdr_handler (self : nn_streamhdr) (src type srcptr : Z) : outcome nn_streamhdr :=
  match state self with
  | NN_STREAMHDR_STATE_IDLE =>
      if (src =? NN_FSM_ACTION) && (type =? NN_FSM_START) then
        t ← nn_timer_start (timer self) 1000;
        Ret (self ⦃ timer := t ⦄ ⦃ tx := Some (protohdr self) ⦄ ⦃ state := NN_STREAMHDR_STATE_SENDING ⦄)
      else Abort
  | NN_STREAMHDR_STATE_SENDING =>
      if src =? NN_STREAMHDR_SRC_USOCK then
        if type =? NN_USOCK_SENT then
          Ret (self ⦃ rx := Some 8 ⦄ ⦃ state := NN_STREAMHDR_STATE_RECEIVING ⦄)
        else if type =? NN_USOCK_SHUTDOWN then Ret self
        else if type =? NN_USOCK_ERROR then stop_timer self NN_STREAMHDR_STATE_STOPPING_TIMER_ERROR
        else Abort
      else if src =? NN_STREAMHDR_SRC_TIMER then handle_timeout self type
      else Abort
  | NN_STREAMHDR_STATE_RECEIVING =>
      if src =? NN_STREAMHDR_SRC_USOCK then
        if type =? NN_USOCK_RECEIVED then
          valid ← valid_header (protohdr self);
          stop_timer self (if valid : bool then NN_STREAMHDR_STATE_STOPPING_TIMER_DONE
                           else NN_STREAMHDR_STATE_STOPPING_TIMER_ERROR)
        else if type =? NN_USOCK_SHUTDOWN then Ret self
        else if type =? NN_USOCK_ERROR then stop_timer self NN_STREAMHDR_STATE_STOPPING_TIMER_ERROR
        else Abort
      else if src =? NN_STREAMHDR_SRC_TIMER then handle_timeout self type
      else Abort
  | NN_STREAMHDR_STATE_STOPPING_TIMER_ERROR => handle_stopping self NN_STREAMHDR_ERROR src type
  | NN_STREAMHDR_STATE_STOPPING_TIMER_DONE => handle_stopping self NN_STREAMHDR_OK src type
  | NN_STREAMHDR_STATE_DONE | NN_STREAMHDR_STATE_STOPPING => Abort
  end.

#[export] Instance streamhdr_object : FsmObject nn_streamhdr := {|
  fsm := hfsm; with_fsm self f := self ⦃ hfsm := f ⦄; fn := nn_streamhdr_handler; shutdown_fn := nn_streamhdr_shutdown
|}.

Definition nn_streamhdr_start (self : nn_streamhdr) : outcome nn_streamhdr :=
  _ ← check (negb (usock self) && negb (usock_owner self));
  hdr ← write_at (protohdr self) 0 [0; 83; 80; 0; 0; 0; 0; 0];
  p ← nn_puts (drop 4 hdr) (u16 protocol);
  hdr ← write_at hdr 4 p;
  nn_fsm_start (self ⦃ io_swaps := io_swaps self + 1 ⦄ ⦃ usock := true ⦄ ⦃ usock_owner := true ⦄ ⦃ protohdr := hdr ⦄).

Definition nn_streamhdr_stop (self : nn_streamhdr) : outcome nn_streamhdr := nn_fsm_stop self.

(** ** Answers of the socket and the timer *)

Definition usock_sent (self : nn_streamhdr) : outcome nn_streamhdr :=
  nn_fsm_feed (self ⦃ tx := None ⦄) NN_STREAMHDR_SRC_USOCK NN_USOCK_SENT 0.

(** The bytes asked for are in the buffer. *)
Definition usock_received (self : nn_streamhdr) (data : list Z) : outcome nn_streamhdr :=
  hdr ← write_at (protohdr self) 0 data;
  nn_fsm_feed (self ⦃ rx := None ⦄ ⦃ protohdr := hdr ⦄) NN_STREAMHDR_SRC_USOCK NN_USOCK_RECEIVED 0.

Definition usock_event (self : nn_streamhdr) (type : Z) : outcome nn_streamhdr :=
  nn_fsm_feed self NN_STREAMHDR_SRC_USOCK type 0.

Definition timer_event (self : nn_streamhdr) (t : nn_timer) (type : Z) : outcome nn_streamhdr :=
  nn_fsm_feed (self ⦃ timer := t ⦄) NN_STREAMHDR_SRC_TIMER type 0.
End streamhdr.
