(* ===== verification/StreamhdrSpec.v ===== *)
(** * StreamhdrSpec: the exchange of protocol headers ends, and with the right result

    [exchange] is a header exchange with the worker that runs its timer; its
    steps are the owner's calls, the events of the socket, the worker's part of
    the timer and the deliveries of events, in any order.  No step fails, with
    one exception that is named: an event of the socket that arrives while the
    timer is being stopped. *)

From stdpp Require Import base list.
From Stdlib Require Import ZArith Lia.
From S2P Require Import Prelude.
From S2P Require Import Update.
From S2P Require Import Wire.
From S2P Require Import Message.
From S2P Require Import Fsm.
From S2P Require Timer.
From S2P Require Chunk.
From S2P Require Usock.
From S2P Require Import Streamhdr.
Import Timer (nn_timer, tfsm, looks, NN_TIMER_STOPPED, NN_TIMER_TIMEOUT).
Import Usock (NN_USOCK_SENT, NN_USOCK_RECEIVED, NN_USOCK_ERROR, NN_USOCK_SHUTDOWN).

Open Scope Z_scope.

Section exchange.
  Context (protocol : Z) (ispeer : Z -> bool).

Record exchange : Type := Exchange { hdr : nn_streamhdr; firing : bool }.

Inductive label : Type :=
| XStart | XStop                                   (* the owner *)
| XSent | XReceived (data : list Z) | XShutdown | XError   (* the socket *)
| XWorker (l : Timer.label)                        (* the worker *)
| XTimer | XOwner.                                 (* an event is delivered *)

Definition with_timer (x : exchange) (s : Timer.sys) : exchange :=
  Exchange ((hdr x) ⦃ timer := Timer.timer s ⦄) (Timer.firing s).

Definition step (x : exchange) (l : label) : outcome exchange :=
  let on_hdr o := h ← o; Ret (Exchange h (firing x)) in
  match l with
  | XStart => on_hdr (nn_streamhdr_start protocol ispeer (hdr x))
  | XStop => on_hdr (nn_streamhdr_stop ispeer (hdr x))
  | XSent => on_hdr (usock_sent ispeer (hdr x))
  | XReceived data => on_hdr (usock_received ispeer (hdr x) data)
  | XShutdown => on_hdr (usock_event ispeer (hdr x) NN_USOCK_SHUTDOWN)
  | XError => on_hdr (usock_event ispeer (hdr x) NN_USOCK_ERROR)
  | XWorker l => s ← Timer.step (Timer.Sys (timer (hdr x)) (firing x)) l; Ret (with_timer x s)
  | XTimer =>
      let t := timer (hdr x) in
      match raised (tfsm t) with
      | [] => Undef
      | (_, type) :: rest => on_hdr (timer_event ispeer (hdr x) (Timer.set_tfsm t (Fsm (fsm_st (tfsm t)) rest)) type)
      end
  | XOwner =>
      match raised (hfsm (hdr x)) with
      | [] => Undef
      | _ :: rest => Ret (Exchange ((hdr x) ⦃ hfsm := Fsm (fsm_st (hfsm (hdr x))) rest ⦄) (firing x))
      end
  end.

(** Events are delivered before anything else happens. *)
Definition settled (x : exchange) : Prop := raised (tfsm (timer (hdr x))) = [] /\ raised (hfsm (hdr x)) = [].

(** The object has the socket, and it is not idle. *)
Definition owns (x : exchange) : Prop := usock (hdr x) = true /\ fsm_st (hfsm (hdr x)) <> FSM_IDLE.

Definition enabled (x : exchange) (l : label) : Prop :=
  match l with
  | XTimer => raised (tfsm (timer (hdr x))) <> []
  | XOwner => raised (tfsm (timer (hdr x))) = [] /\ raised (hfsm (hdr x)) <> []
  | XStart => settled x /\ fsm_st (hfsm (hdr x)) = FSM_IDLE /\ usock (hdr x) = false /\ usock_owner (hdr x) = false
  | XStop => settled x
  | XSent => settled x /\ owns x /\ tx (hdr x) <> None
  | XReceived data => settled x /\ owns x /\ rx (hdr x) <> None /\ size data = 8
  | XShutdown | XError => settled x /\ owns x
  | XWorker l => settled x /\ Timer.enabled (Timer.Sys (timer (hdr x)) (firing x)) l = true /\
      (l = Timer.LTask \/ l = Timer.LExpire \/ l = Timer.LFeed)
  end.

Definition timer_stopping (x : exchange) : Prop :=
  state (hdr x) = NN_STREAMHDR_STATE_STOPPING_TIMER_ERROR \/ state (hdr x) = NN_STREAMHDR_STATE_STOPPING_TIMER_DONE.

(** The socket's part is still going on when the exchange is over. *)
Definition late (x : exchange) (l : label) : Prop :=
  timer_stopping x /\ match l with XSent | XReceived _ | XShutdown => True | _ => False end.

Inductive reach : exchange -> Prop :=
| reach_init : reach (Exchange nn_streamhdr_init false)
| reach_step x l x' : reach x -> enabled x l -> step x l = Ret x' -> reach x'.

(** ** The invariant *)

Definition stopping_timer (t : nn_timer) : Prop := looks t FSM_STOPPING [] \/ looks t FSM_IDLE [(0, NN_TIMER_STOPPED)].
Definition running_timer (t : nn_timer) : Prop := looks t FSM_ACTIVE [] \/ looks t FSM_ACTIVE [(Timer.EV_DONE, NN_TIMER_TIMEOUT)].

Definition clean (h : nn_streamhdr) : Prop := usock h = false -> rx h = None /\ tx h = None.

Inductive stage (h : nn_streamhdr) : Prop :=
| at_idle : hfsm h = Fsm FSM_IDLE [] \/ hfsm h = Fsm FSM_IDLE [(0, NN_STREAMHDR_STOPPED)] ->
    state h = NN_STREAMHDR_STATE_IDLE -> looks (timer h) FSM_IDLE [] -> clean h -> stage h
| at_sending : hfsm h = Fsm FSM_ACTIVE [] -> state h = NN_STREAMHDR_STATE_SENDING -> running_timer (timer h) ->
    usock h = true -> rx h = None -> stage h
| at_receiving : hfsm h = Fsm FSM_ACTIVE [] -> state h = NN_STREAMHDR_STATE_RECEIVING -> running_timer (timer h) ->
    usock h = true -> tx h = None -> stage h
| at_failed : hfsm h = Fsm FSM_ACTIVE [] -> state h = NN_STREAMHDR_STATE_STOPPING_TIMER_ERROR ->
    stopping_timer (timer h) -> clean h -> stage h
| at_agreed : hfsm h = Fsm FSM_ACTIVE [] -> state h = NN_STREAMHDR_STATE_STOPPING_TIMER_DONE ->
    stopping_timer (timer h) -> valid_header ispeer (protohdr h) = Ret true -> clean h -> stage h
| at_done : hfsm h = Fsm FSM_ACTIVE [] \/ hfsm h = Fsm FSM_ACTIVE [(EV_DONE, NN_STREAMHDR_ERROR)] \/
    hfsm h = Fsm FSM_ACTIVE [(EV_DONE, NN_STREAMHDR_OK)] /\ valid_header ispeer (protohdr h) = Ret true ->
    state h = NN_STREAMHDR_STATE_DONE -> looks (timer h) FSM_IDLE [] -> usock h = false -> clean h -> stage h
| at_stopping : hfsm h = Fsm FSM_STOPPING [] -> state h = NN_STREAMHDR_STATE_STOPPING -> stopping_timer (timer h) ->
    clean h -> stage h.

Definition inv (x : exchange) : Prop :=
  Timer.inv (Timer.Sys (timer (hdr x)) (firing x)) /\ size (protohdr (hdr x)) = 8 /\ stage (hdr x).

(** ** Headers *)

(** What a socket of protocol [q] sends. *)
Definition header_of (q : Z) : list Z := signature ++ be_digits 2 q ++ [0; 0].

Lemma list8 (l : list Z) : size l = 8 -> exists a b c d e f g i, l = [a; b; c; d; e; f; g; i].
Proof.
  intros H. do 8 (destruct l as [|? l]; [done|]). destruct l; [|unfold size in H; cbn [length] in H; lia]. by eexists _, _, _, _, _, _, _, _.
Qed.

Lemma valid_total data : size data = 8 -> exists b, valid_header ispeer data = Ret b.
Proof.
  intros Hs. destruct (list8 data Hs) as (a & b & c & d & e & f & g & i & ->). unfold valid_header.
  destruct (negb _); [by eexists|]. by eexists.
Qed.

(** The header of a peer is valid, that of another socket is not. *)
Lemma valid_header_of q : 0 <= q < 2 ^ 16 -> valid_header ispeer (header_of q) = Ret (ispeer q).
Proof.
  intros Hq. unfold valid_header, header_of. rewrite bool_decide_eq_true_2 by done. cbn [negb].
  assert (E : nn_gets (drop 4 (signature ++ be_digits 2 q ++ [0; 0])) = Ret q).
  { rewrite <-(be_of_digits 2 q) at 2 by (change (8 * Z.of_nat 2) with 16; lia). apply gets_be, (be_digits_bytes 2). }
  by rewrite E.
Qed.

(** ** Every step *)

(** A step that leaves the timer alone. *)
Definition keeps (x : exchange) (o : outcome nn_streamhdr) : Prop :=
  exists h, o = Ret h /\ size (protohdr h) = 8 /\ stage h /\ timer h = timer (hdr x).

Lemma stop_running t fi : Timer.inv (Timer.Sys t fi) -> running_timer t -> raised (tfsm t) = [] ->
  exists t', Timer.nn_timer_stop t = Ret t' /\ Timer.inv (Timer.Sys t' fi) /\ looks t' FSM_STOPPING [].
Proof. intros Hi [L | [_ E]] Hr; [by apply Timer.stop_active | by rewrite E in Hr]. Qed.

(** The timer is stopped on the way to another state. *)
Lemma hdr_stop_timer_ok h fi st : Timer.inv (Timer.Sys (timer h) fi) -> running_timer (timer h) -> raised (tfsm (timer h)) = [] ->
  exists t, stop_timer h st = Ret (h ⦃ timer := t ⦄ ⦃ state := st ⦄) /\ Timer.inv (Timer.Sys t fi) /\ looks t FSM_STOPPING [].
Proof.
  intros Hi Hr Hq. destruct (stop_running _ _ Hi Hr Hq) as (t & E & Hi' & L). exists t. unfold stop_timer. by rewrite E.
Qed.

Lemma start_ok x : inv x -> enabled x XStart -> exists x', step x XStart = Ret x' /\ inv x'.
Proof.
  intros (Hi & Hs & St) ((Q1 & Q2) & Hf & Hu & Ho). destruct x as [h fi]. cbn in *.
  destruct (list8 _ Hs) as (a & b & c & d & e & f & g & i & Eh).
  destruct St as [F E L C | F | F | F | F | F | F]; try (by rewrite F in Hf).
  2: { destruct F as [F | [F | [F _]]]; by rewrite F in Hf. }
  destruct (Timer.start_idle (timer h) fi 1000) as (t & Et & Hi' & L'); [done | done | lia |].
  unfold nn_streamhdr_start. rewrite Hu, Ho, Eh. cbn [negb andb check mbind outcome_bind].
  change (Chunk.write_at [a; b; c; d; e; f; g; i] 0 [0; 83; 80; 0; 0; 0; 0; 0]) with (Ret [0; 83; 80; 0; 0; 0; 0; 0]).
  cbn [mbind outcome_bind drop]. rewrite (puts_digits 0 0 [0; 0]). cbn [mbind outcome_bind].
  set (ph := be_digits 2 (u16 protocol) ++ [0; 0]). assert (Hph : size ph = 4) by done.
  assert (Ew : exists hd, Chunk.write_at [0; 83; 80; 0; 0; 0; 0; 0] 4 ph = Ret hd /\ size hd = 8).
  { unfold Chunk.write_at. rewrite Hph. eexists. split; [reflexivity|]. done. }
  destruct Ew as (hd & -> & Hhd). cbn [mbind outcome_bind].
  set (h1 := h ⦃ io_swaps := _ ⦄ ⦃ usock := true ⦄ ⦃ usock_owner := true ⦄ ⦃ protohdr := hd ⦄).
  unfold nn_fsm_start. cbn [fsm streamhdr_object fn].
  assert (E1 : hfsm h1 = hfsm h) by by destruct h. assert (E2 : state h1 = NN_STREAMHDR_STATE_IDLE) by by destruct h.
  assert (E3 : timer h1 = timer h) by by destruct h.
  assert (Eidle : nn_fsm_isidle (hfsm h1) = true).
  { rewrite E1. destruct F as [F | F]; [by rewrite F | by rewrite F in Q2]. }
  rewrite Eidle. cbn [check mbind outcome_bind]. unfold nn_streamhdr_handler. rewrite E2.
  change ((NN_FSM_ACTION =? NN_FSM_ACTION) && (NN_FSM_START =? NN_FSM_START)) with true. cbn match. rewrite E3, Et.
  cbn [mbind outcome_bind]. eexists. split; [reflexivity|]. destruct F as [F | F]; [|by rewrite F in Q2].
  destruct h as [fm st tm us uo ph0 r tx0 sw]. cbn in *. subst fm. split; [done|]. split; [done|].
  apply at_sending; cbn; try done; [by left | by apply C].
Qed.

(** A session may be told to stop at any time. *)
Lemma stop_ok x : inv x -> enabled x XStop -> exists x', step x XStop = Ret x' /\ inv x'.
Proof.
  intros (Hi & Hs & St) (Q1 & Q2). destruct x as [h fi]. cbn in *.
  assert (Noop : fsm_st (hfsm h) <> FSM_ACTIVE -> exists x', step (Exchange h fi) XStop = Ret x' /\ inv x').
  { intros Hf. cbn. unfold nn_streamhdr_stop, nn_fsm_stop. cbn [fsm streamhdr_object]. rewrite decide_True by done. by eexists. }
  assert (Run : forall t, hfsm h = Fsm FSM_ACTIVE [] -> Timer.nn_timer_stop (timer h) = Ret t ->
    Timer.inv (Timer.Sys t fi) -> (looks t FSM_STOPPING [] \/ looks t FSM_IDLE [(0, NN_TIMER_STOPPED)]) -> clean h ->
    exists x', step (Exchange h fi) XStop = Ret x' /\ inv x').
  { intros t F Et Hi' L C. cbn. unfold nn_streamhdr_stop, nn_fsm_stop. cbn [fsm streamhdr_object shutdown_fn].
    rewrite F, decide_False by (intros Hn; by apply Hn). unfold nn_streamhdr_shutdown, stop_timer, set_fsm_state. cbn [with_fsm streamhdr_object].
    change ((NN_FSM_ACTION =? NN_FSM_ACTION) && (NN_FSM_STOP =? NN_FSM_STOP)) with true. cbn match.
    set (h1 := h ⦃ hfsm := _ ⦄). assert (E : timer h1 = timer h) by by destruct h. rewrite E, Et. cbn [mbind outcome_bind].
    rewrite decide_True by done. assert (Ei : Timer.nn_timer_isidle t = false).
    { unfold Timer.nn_timer_isidle, nn_fsm_isidle. destruct L as [[L1 L2] | [L1 L2]]; [by rewrite L1|].
      unfold nn_fsm_event_active. by rewrite L1, L2. }
    cbn. rewrite Ei. cbn. eexists. split; [reflexivity|]. destruct h as [fm st tm us uo ph0 r tx0 sw]. cbn in *. subst fm.
    split; [done|]. split; [done|]. by apply at_stopping. }
  destruct St as [F E L C | F E L U R | F E L U R | F E L C | F E L V C | F E L U C | F E L C].
  - apply Noop. by destruct F as [-> | ->].
  - destruct (stop_running _ _ Hi L Q1) as (t & Et & Hi' & L'). apply (Run t); auto. by intros U'; rewrite U in U'.
  - destruct (stop_running _ _ Hi L Q1) as (t & Et & Hi' & L'). apply (Run t); auto. by intros U'; rewrite U in U'.
  - destruct L as [L | [_ L]]; [|by rewrite L in Q1].
    apply (Run (timer h)); auto. by apply (Timer.stop_inactive _ [] FSM_STOPPING).
  - destruct L as [L | [_ L]]; [|by rewrite L in Q1].
    apply (Run (timer h)); auto. by apply (Timer.stop_inactive _ [] FSM_STOPPING).
  - destruct F as [F | [F | [F _]]]; try by rewrite F in Q2.
    cbn. unfold nn_streamhdr_stop, nn_fsm_stop. cbn [fsm streamhdr_object shutdown_fn].
    rewrite F, decide_False by (intros Hn; by apply Hn). unfold nn_streamhdr_shutdown, stop_timer, set_fsm_state. cbn [with_fsm streamhdr_object].
    change ((NN_FSM_ACTION =? NN_FSM_ACTION) && (NN_FSM_STOP =? NN_FSM_STOP)) with true. cbn match.
    destruct h as [fm st tm us uo ph0 r tx0 sw]. cbn in *. subst fm.
    rewrite (Timer.stop_inactive _ [] FSM_IDLE) by done. cbn. destruct L as [L1 L2].
    unfold Timer.nn_timer_isidle, nn_fsm_isidle, nn_fsm_event_active. rewrite L1, L2. cbn.
    eexists. split; [reflexivity|]. split; [done|]. split; [done|]. apply at_idle; cbn; auto. done.
  - apply Noop. by rewrite F.
Qed.

Lemma feed_active h src type : fsm_st (hfsm h) = FSM_ACTIVE ->
  nn_fsm_feed (H := streamhdr_object ispeer) h src type 0 = nn_streamhdr_handler ispeer h src type 0.
Proof. intros E. unfold nn_fsm_feed. cbn [fsm streamhdr_object fn]. by rewrite E, decide_True. Qed.

(** While it is being stopped, nothing but the end of the timer matters. *)
Lemma hdr_feed_stopping h src type : hfsm h = Fsm FSM_STOPPING [] -> state h = NN_STREAMHDR_STATE_STOPPING ->
  looks (timer h) FSM_STOPPING [] -> src <> NN_FSM_ACTION ->
  nn_fsm_feed (H := streamhdr_object ispeer) h src type 0 = Ret h.
Proof.
  intros E Es [L1 L2] Hs. unfold nn_fsm_feed. cbn [fsm streamhdr_object shutdown_fn]. rewrite E, decide_False by (intros Hn; by apply Hn).
  unfold nn_streamhdr_shutdown. rewrite (proj2 (Z.eqb_neq _ _) Hs). cbn [andb mbind outcome_bind]. rewrite Es, decide_True by done.
  unfold Timer.nn_timer_isidle, nn_fsm_isidle. by rewrite L1.
Qed.

Lemma write_header h data : size (protohdr h) = 8 -> size data = 8 -> Chunk.write_at (protohdr h) 0 data = Ret data.
Proof.
  intros E1 E2. destruct (list8 _ E1) as (a & b & c & d & e & f & g & i & ->).
  by destruct (list8 _ E2) as (a' & b' & c' & d' & e' & f' & g' & i' & ->).
Qed.

(** The exchange fails. *)
Lemma failed_ok h fi : hfsm h = Fsm FSM_ACTIVE [] -> Timer.inv (Timer.Sys (timer h) fi) -> size (protohdr h) = 8 ->
  running_timer (timer h) -> raised (tfsm (timer h)) = [] -> usock h = true ->
  exists x', (h ← stop_timer h NN_STREAMHDR_STATE_STOPPING_TIMER_ERROR; Ret (Exchange h fi)) = Ret x' /\ inv x'.
Proof.
  intros F Hi Hs L Q U. destruct (hdr_stop_timer_ok h fi NN_STREAMHDR_STATE_STOPPING_TIMER_ERROR Hi L Q) as (t & E & Hi' & L').
  rewrite E. eexists. split; [reflexivity|]. destruct h as [fm st tm us uo ph0 r tx0 sw]. cbn in *. subst fm us.
  split; [done|]. split; [done|]. apply at_failed; cbn; try done. by left.
Qed.

Lemma socket_ok x l : inv x -> enabled x l -> ~ late x l ->
  (l = XSent \/ (exists d, l = XReceived d) \/ l = XShutdown \/ l = XError) -> exists x', step x l = Ret x' /\ inv x'.
Proof.
  intros (Hi & Hs & St) En Nl Hl. destruct x as [h fi]. unfold settled, owns, late, timer_stopping in *. cbn in Hi, Hs, St, En, Nl.
  assert (Q : raised (tfsm (timer h)) = [] /\ usock h = true /\ fsm_st (hfsm h) <> FSM_IDLE).
  { destruct Hl as [-> | [[d ->] | [-> | ->]]]; cbn in En; unfold settled, owns in En; cbn in En; tauto. }
  destruct Q as (Q & U & Nidle).
  destruct St as [F E L C | F E L _ R | F E L _ R | F E L C | F E L V C | F E L U' C | F E L C].
  - by destruct F as [F | F]; rewrite F in Nidle.
  - destruct Hl as [-> | [[d ->] | [-> | ->]]]; cbn in En; cbn [step hdr firing]; unfold usock_sent, usock_event; try tauto.
    + rewrite feed_active by (destruct h; cbn in *; by subst). destruct h as [fm st tm us uo ph0 r tx0 sw]. cbn in *. subst.
      eexists. split; [reflexivity|]. split; [done|]. split; [done|]. by apply at_receiving.
    + rewrite feed_active by (by rewrite F). unfold nn_streamhdr_handler. rewrite E. eexists. split; [reflexivity|].
      split; [done|]. split; [done|]. by apply at_sending.
    + rewrite feed_active by (by rewrite F). unfold nn_streamhdr_handler. rewrite E. by apply failed_ok.
  - destruct Hl as [-> | [[d ->] | [-> | ->]]]; cbn in En; cbn [step hdr firing]; unfold usock_received, usock_event; try tauto.
    + destruct En as (_ & _ & _ & Hd). rewrite write_header by done. cbn [mbind outcome_bind].
      rewrite feed_active by (destruct h; cbn in *; by subst). unfold nn_streamhdr_handler.
      set (h1 := h ⦃ rx := None ⦄ ⦃ protohdr := d ⦄). assert (E1 : state h1 = NN_STREAMHDR_STATE_RECEIVING) by by destruct h.
      rewrite E1. change (NN_STREAMHDR_SRC_USOCK =? NN_STREAMHDR_SRC_USOCK) with true.
      change (NN_USOCK_RECEIVED =? NN_USOCK_RECEIVED) with true. cbn match.
      assert (E2 : protohdr h1 = d) by by destruct h. rewrite E2.
      destruct (valid_total d Hd) as (b & Eb). rewrite Eb. cbn [mbind outcome_bind].
      assert (E3 : timer h1 = timer h) by by destruct h.
      destruct (hdr_stop_timer_ok h1 fi (if b then NN_STREAMHDR_STATE_STOPPING_TIMER_DONE else NN_STREAMHDR_STATE_STOPPING_TIMER_ERROR))
        as (t & Et & Hi' & L'); try by rewrite E3. rewrite Et. eexists. split; [reflexivity|].
      subst h1. destruct h as [fm st tm us uo ph0 r tx0 sw]. cbn in *. subst. split; [done|]. split; [done|].
      destruct b; [apply at_agreed | apply at_failed]; cbn; try done; by left.
    + rewrite feed_active by (by rewrite F). unfold nn_streamhdr_handler. rewrite E. eexists. split; [reflexivity|].
      split; [done|]. split; [done|]. by apply at_receiving.
    + rewrite feed_active by (by rewrite F). unfold nn_streamhdr_handler. rewrite E. by apply failed_ok.
  - destruct Hl as [-> | [[d ->] | [-> | ->]]]; try by destruct Nl; auto. cbn [step hdr firing]. unfold usock_event.
    rewrite feed_active by (by rewrite F). unfold nn_streamhdr_handler. rewrite E. eexists. split; [reflexivity|].
    split; [done|]. split; [done|]. by apply at_failed.
  - destruct Hl as [-> | [[d ->] | [-> | ->]]]; try by destruct Nl; auto. cbn [step hdr firing]. unfold usock_event.
    rewrite feed_active by (by rewrite F). unfold nn_streamhdr_handler. rewrite E. eexists. split; [reflexivity|].
    split; [done|]. split; [done|]. by apply at_agreed.
  - by rewrite U in U'.
  - destruct L as [L | [_ L]]; [|by rewrite L in Q].
    destruct Hl as [-> | [[d ->] | [-> | ->]]]; cbn [step hdr firing]; unfold usock_sent, usock_received, usock_event.
    + rewrite hdr_feed_stopping by (done || by destruct h). eexists. split; [reflexivity|]. destruct h. split; [done|]. split; [done|].
      apply at_stopping; try done. left. done. intros U2. cbn in *. by rewrite U in U2.
    + destruct En as (_ & _ & _ & Hd). rewrite write_header by done. cbn [mbind outcome_bind].
      rewrite hdr_feed_stopping by (done || by destruct h). eexists. split; [reflexivity|]. destruct h. split; [done|]. split; [done|].
      apply at_stopping; try done. left. done. intros U2. cbn in *. by rewrite U in U2.
    + rewrite hdr_feed_stopping by done. eexists. split; [reflexivity|]. split; [done|]. split; [done|]. apply at_stopping; try done. by left.
    + rewrite hdr_feed_stopping by done. eexists. split; [reflexivity|]. split; [done|]. split; [done|]. apply at_stopping; try done. by left.
Qed.

(** Only the timer of a header exchange changed. *)
Lemma stage_timer h t : stage h ->
  (running_timer (timer h) -> running_timer t) -> (stopping_timer (timer h) -> stopping_timer t) ->
  (looks (timer h) FSM_IDLE [] -> looks t FSM_IDLE []) -> stage (h ⦃ timer := t ⦄).
Proof.
  intros St H1 H2 H3. destruct h. destruct St; cbn in *;
    [by apply at_idle; auto | by apply at_sending; auto | by apply at_receiving; auto | by apply at_failed; auto
    | by apply at_agreed; auto | by apply at_done; auto | by apply at_stopping; auto].
Qed.

Lemma looks_once t st evs st' evs' : looks t st evs -> looks t st' evs' -> st = st' /\ evs = evs'.
Proof. intros [<- <-] [<- <-]. done. Qed.

Lemma worker_ok x l : inv x -> enabled x (XWorker l) -> exists x', step x (XWorker l) = Ret x' /\ inv x'.
Proof.
  intros (Hi & Hs & St) ((Q1 & _) & En & Hl). destruct x as [h fi]. cbn in *.
  destruct (Timer.worker_step (timer h) fi l (fsm_st (tfsm (timer h))) Hi) as (t' & fi' & Es & Hi' & L); [done | done | done |].
  rewrite Es. cbn. eexists. split; [reflexivity|]. unfold inv, with_timer. cbn [hdr firing Timer.timer Timer.firing].
  split; [by destruct h|]. split; [by destruct h|]. apply stage_timer; [done| | |].
  - intros [[E _] | [E _]]; rewrite E in L; exact L.
  - intros [[E _] | [_ E]]; [rewrite E in L; exact L | by rewrite E in Q1].
  - intros [E _]. by rewrite E in L.
Qed.

(** The timer's event reaches the exchange. *)
Lemma timer_ok x : inv x -> enabled x XTimer -> exists x', step x XTimer = Ret x' /\ inv x'.
Proof.
  intros (Hi & Hs & St) En. destruct x as [h fi]. cbn in *.
  destruct (raised (tfsm (timer h))) as [|[ev type] rest] eqn:Er; [done|].
  destruct (Timer.deliver_event (timer h) fi (fsm_st (tfsm (timer h))) (ev, type) rest Hi) as (-> & Hi' & Hty); [done|].
  set (t := Timer.set_tfsm (timer h) (Fsm (fsm_st (tfsm (timer h))) [])) in *. cbn in Hty.
  assert (Lt : forall st, fsm_st (tfsm (timer h)) = st -> looks t st []) by (by intros st <-).
  clearbody t.
  assert (Nl : forall st, ~ looks (timer h) st []) by (intros st [_ E]; by rewrite Er in E).
  assert (Stop : forall st, stopping_timer (timer h) -> looks t FSM_IDLE [] /\ type = NN_TIMER_STOPPED \/ st).
  { intros st [L | [E1 E2]]; [by apply Nl in L|]. left. rewrite Er in E2. injection E2 as _ ->. by split; [apply Lt|]. }
  assert (Run : running_timer (timer h) -> looks t FSM_ACTIVE [] /\ type = NN_TIMER_TIMEOUT).
  { intros [L | [E1 E2]]; [by apply Nl in L|]. rewrite Er in E2. injection E2 as _ ->. by split; [apply Lt|]. }
  unfold timer_event. set (h1 := h ⦃ timer := t ⦄).
  assert (Timeout : hfsm h = Fsm FSM_ACTIVE [] -> usock h = true -> running_timer (timer h) ->
    exists x', (h2 ← stop_timer h1 NN_STREAMHDR_STATE_STOPPING_TIMER_ERROR; Ret (Exchange h2 fi)) = Ret x' /\ inv x').
  { intros F U L. destruct (Run L) as [L' _]. apply failed_ok; try by destruct h.
    - destruct h. by left.
    - destruct h. apply L'. }
  assert (Finish : forall b, hfsm h = Fsm FSM_ACTIVE [] -> stopping_timer (timer h) -> clean h ->
    (b = NN_STREAMHDR_ERROR \/ b = NN_STREAMHDR_OK /\ valid_header ispeer (protohdr h) = Ret true) ->
    exists x', (h2 ← handle_stopping h1 b NN_STREAMHDR_SRC_TIMER type; Ret (Exchange h2 fi)) = Ret x' /\ inv x').
  { intros b F L C Hb. destruct (Stop False L) as [[L' ->] | []]. subst h1. destruct h as [fm st tm us uo ph0 r tx0 sw].
    cbn in *. subst fm. eexists. split; [reflexivity|]. split; [done|]. split; [done|].
    apply at_done; cbn; try done. destruct Hb as [-> | [-> V]]; auto. }
  destruct St as [F E L C | F E L U R | F E L U R | F E L C | F E L V C | F E L U' C | F E L C];
    try (by destruct (Nl FSM_IDLE)).
  all: assert (F1 : hfsm h1 = hfsm h) by by destruct h. all: assert (S1 : state h1 = state h) by by destruct h.
  5: { destruct (Stop False L) as [[[Lf Lr] ->] | []]. unfold nn_fsm_feed. cbn [fsm streamhdr_object shutdown_fn].
    rewrite F1, F, decide_False by (intros Hn; by apply Hn). unfold nn_streamhdr_shutdown.
    change ((NN_STREAMHDR_SRC_TIMER =? NN_FSM_ACTION) && (NN_TIMER_STOPPED =? NN_FSM_STOP)) with false. cbn [mbind outcome_bind].
    rewrite S1, E, decide_True by done. subst h1. destruct h as [fm st tm us uo ph0 r tx0 sw]. cbn [hfsm timer state] in *. subst fm.
    unfold Timer.nn_timer_isidle, nn_fsm_isidle, nn_fsm_event_active.
    eexists. split; [cbn; rewrite Lf, Lr; reflexivity|].
    split; [done|]. split; [done|]. by apply at_idle; [right | | split|]. }
  all: rewrite feed_active by (by rewrite F1, F); unfold nn_streamhdr_handler; rewrite S1, E.
  - destruct (Run L) as [_ ->]. by apply Timeout.
  - destruct (Run L) as [_ ->]. by apply Timeout.
  - apply Finish; auto.
  - apply Finish; auto.
Qed.

Lemma owner_ok x : inv x -> enabled x XOwner -> exists x', step x XOwner = Ret x' /\ inv x'.
Proof.
  intros (Hi & Hs & St) [_ En]. destruct x as [h fi]. cbn in *.
  destruct h as [fm st tm us uo ph0 r tx0 sw]. cbn in *.
  destruct St as [F E L C | F E L U R | F E L U R | F E L C | F E L V C | F E L U' C | F E L C]; cbn in *; subst;
    try (by destruct En).
  - destruct F as [-> | ->]; [done|]. eexists. split; [reflexivity|]. split; [done|]. split; [done|]. apply at_idle; cbn; auto.
  - destruct F as [-> | [-> | [-> V]]]; [done | |]; eexists; (split; [reflexivity|]); (split; [done|]); (split; [done|]);
      apply at_done; cbn; auto.
Qed.

(** Whatever happens next, it goes through. *)
Lemma exchange_step_ok x l : inv x -> enabled x l -> ~ late x l -> exists x', step x l = Ret x' /\ inv x'.
Proof.
  intros Hi En Nl. destruct l.
  - by apply start_ok.
  - by apply stop_ok.
  - apply socket_ok; auto.
  - apply socket_ok; eauto.
  - apply socket_ok; auto.
  - apply socket_ok; auto 6.
  - by apply worker_ok.
  - by apply timer_ok.
  - by apply owner_ok.
Qed.

(** An event of the socket that comes when the exchange is over. *)
Lemma late_aborts x l : inv x -> enabled x l -> late x l -> step x l = Abort.
Proof.
  intros (Hi & Hs & St) En (T & Hl). destruct x as [h fi]. unfold timer_stopping in T. cbn in *.
  assert (F : hfsm h = Fsm FSM_ACTIVE []).
  { destruct T as [T | T]; destruct St as [F E | F E | F E | F E | F E | F E | F E]; try done; by rewrite E in T. }
  assert (H : forall h' type, fsm_st (hfsm h') = FSM_ACTIVE -> state h' = state h -> type <> NN_USOCK_ERROR ->
    nn_fsm_feed (H := streamhdr_object ispeer) h' NN_STREAMHDR_SRC_USOCK type 0 = Abort).
  { intros h' type F' E' Hn. rewrite feed_active by done. unfold nn_streamhdr_handler. rewrite E'.
    destruct T as [-> | ->]; unfold handle_stopping; change (NN_STREAMHDR_SRC_USOCK =? NN_STREAMHDR_SRC_USOCK) with true;
      cbn match; by rewrite (proj2 (Z.eqb_neq _ _) Hn). }
  destruct l; try done; cbn [step hdr]; unfold usock_sent, usock_received, usock_event.
  - rewrite H by (done || (destruct h; cbn in *; by subst)). done.
  - destruct En as (_ & _ & _ & Hd). rewrite write_header by done. cbn [mbind outcome_bind].
    rewrite H by (done || (destruct h; cbn in *; by subst)). done.
  - rewrite H by (done || by rewrite F). done.
Qed.

Lemma reach_inv x : reach x -> inv x.
Proof.
  induction 1 as [|x l x' _ IH En E].
  - split; [apply Timer.inv_init|]. split; [done|]. by apply at_idle; [left | | |].
  - destruct (exchange_step_ok x l IH En) as (x2 & E2 & Hi); [|congruence].
    intros Hl. by rewrite (late_aborts x l) in E.
Qed.

(** What is left for the worker while the timer is stopped, and the delivery. *)
Definition drain (x : exchange) : list label :=
  (XWorker <$> Timer.drain (Timer.Sys (timer (hdr x)) (firing x))) ++ [XTimer].

Fixpoint steps (x : exchange) (ls : list label) : outcome exchange :=
  match ls with [] => Ret x | l :: ls => x ← step x l; steps x ls end.

Lemma steps_app x l1 l2 : steps x (l1 ++ l2) = (y ← steps x l1; steps y l2).
Proof. revert x. induction l1 as [|l l1 IH]; intros x; [done|]. cbn. destruct (step x l); cbn; auto. Qed.

Lemma worker_steps x ls s : Timer.steps (Timer.Sys (timer (hdr x)) (firing x)) ls = Ret s ->
  steps x (XWorker <$> ls) = Ret (with_timer x s).
Proof.
  revert x. induction ls as [|l ls IH]; intros x; cbn.
  - intros [= <-]. unfold with_timer. cbn. by destruct x as [[] ?].
  - destruct (Timer.enabled _ l); [|done]. destruct (Timer.step _ l) as [s1| | |] eqn:E; try done. cbn. intros Hs.
    rewrite (IH (with_timer x s1)); [by destruct x as [[] ?]|]. unfold with_timer. destruct x as [[] fi]. cbn. by destruct s1.
Qed.

(** The worker brings an exchange that is over to its end. *)
Lemma drains x : inv x -> timer_stopping x -> raised (tfsm (timer (hdr x))) = [] ->
  exists x', steps x (drain x) = Ret x' /\ state (hdr x') = NN_STREAMHDR_STATE_DONE /\ usock (hdr x') = false /\
    raised (hfsm (hdr x')) = [(EV_DONE, if decide (state (hdr x) = NN_STREAMHDR_STATE_STOPPING_TIMER_DONE)
      then NN_STREAMHDR_OK else NN_STREAMHDR_ERROR)].
Proof.
  intros (Hi & Hs & St) T Q. destruct x as [h fi]. unfold timer_stopping in T. cbn [hdr firing] in *.
  assert (F : hfsm h = Fsm FSM_ACTIVE [] /\ fsm_st (tfsm (timer h)) = FSM_STOPPING).
  { assert (X : stopping_timer (timer h) -> fsm_st (tfsm (timer h)) = FSM_STOPPING).
    { intros [[L _] | [_ L]]; [done | by rewrite L in Q]. }
    destruct T as [T | T]; destruct St as [F E | F E | F E | F E L | F E L | F E | F E]; try done;
      try (by rewrite E in T); auto. }
  destruct F as [F Ft]. unfold drain. rewrite steps_app. cbn [hdr firing].
  destruct (Timer.stop_drains (Timer.Sys (timer h) fi) Hi Ft) as ([t' fi'] & Es & [L1 L2] & _).
  rewrite (worker_steps (Exchange h fi) _ _ Es). cbn in L1, L2 |- *. destruct h as [fm st tm us uo ph0 r tx0 sw].
  cbn in *. subst fm. rewrite L2. unfold timer_event. rewrite feed_active by done. unfold nn_streamhdr_handler.
  cbn [state]. destruct T as [-> | ->]; cbn; by eexists.
Qed.

(** The peer's header decides. *)
Lemma received_decides x data : inv x -> enabled x (XReceived data) -> state (hdr x) = NN_STREAMHDR_STATE_RECEIVING ->
  exists x', step x (XReceived data) = Ret x' /\
    (state (hdr x') = NN_STREAMHDR_STATE_STOPPING_TIMER_DONE <-> valid_header ispeer data = Ret true).
Proof.
  intros (Hi & Hs & St) ((Q & _) & (U & _) & _ & Hd) E. destruct x as [h fi]. cbn [hdr firing] in *.
  assert (F : hfsm h = Fsm FSM_ACTIVE [] /\ running_timer (timer h)) by (by destruct St as [F E' | F E' | F E' | F E' | F E' | F E' | F E']; rewrite E in E').
  destruct F as [F L]. cbn [step hdr firing]. unfold usock_received. rewrite write_header by done. cbn [mbind outcome_bind].
  rewrite feed_active by (destruct h; cbn in *; by subst). unfold nn_streamhdr_handler.
  set (h1 := h ⦃ rx := None ⦄ ⦃ protohdr := data ⦄).
  assert (E1 : state h1 = NN_STREAMHDR_STATE_RECEIVING) by by destruct h. assert (E2 : protohdr h1 = data) by by destruct h.
  assert (E3 : timer h1 = timer h) by by destruct h. rewrite E1. cbn [Z.eqb]. cbn match. rewrite E2.
  change (NN_STREAMHDR_SRC_USOCK =? NN_STREAMHDR_SRC_USOCK) with true. change (NN_USOCK_RECEIVED =? NN_USOCK_RECEIVED) with true.
  destruct (valid_total data Hd) as (b & Eb). cbn match. rewrite Eb. cbn [mbind outcome_bind].
  destruct (hdr_stop_timer_ok h1 fi (if b then NN_STREAMHDR_STATE_STOPPING_TIMER_DONE else NN_STREAMHDR_STATE_STOPPING_TIMER_ERROR))
    as (t & -> & _ & _); try by rewrite E3. cbn [mbind outcome_bind]. eexists. split; [reflexivity|].
  destruct h. by destruct b.
Qed.

End exchange.

(** PAIR (protocol 16) meets PAIR. *)
Definition pair_exchange : exchange := Exchange nn_streamhdr_init false.

Definition pair_run : list label :=
  [XStart; XWorker Timer.LTask; XSent; XReceived (header_of 16)].

(** The exchange after the first [n] steps of it. *)
Definition pair_at (n : nat) : exchange :=
  match steps 16 (Z.eqb 16) pair_exchange (take n pair_run) with Ret x => x | _ => pair_exchange end.

Lemma pair_reach n l : reach 16 (Z.eqb 16) (pair_at n) -> enabled (pair_at n) l ->
  step 16 (Z.eqb 16) (pair_at n) l = Ret (pair_at (S n)) -> reach 16 (Z.eqb 16) (pair_at (S n)).
Proof. intros Hr En E. by eapply reach_step. Qed.

Lemma pair_received : reach 16 (Z.eqb 16) (pair_at 4).
Proof.
  assert (H0 : reach 16 (Z.eqb 16) (pair_at 0)) by apply reach_init.
  assert (H1 : reach 16 (Z.eqb 16) (pair_at 1)) by (by apply (pair_reach 0 XStart)).
  assert (H2 : reach 16 (Z.eqb 16) (pair_at 2)) by (apply (pair_reach 1 (XWorker Timer.LTask)); vm_compute; auto 10).
  assert (H3 : reach 16 (Z.eqb 16) (pair_at 3)) by (apply (pair_reach 2 XSent); [done | | by vm_compute]; repeat split; done).
  apply (pair_reach 3 (XReceived (header_of 16))); [done | | by vm_compute]. repeat split; done.
Qed.

