(* ===== verification/Stcp.v ===== *)
(** * Stcp: sessions over a stream (src/transports/tcp/stcp.c, src/transports/ipc/sipc.c)

    When the headers of streamhdr.c are exchanged, a session is a pipe: a message
    goes out as its length in eight bytes and its two parts, one behind the
    other.  Inbound, the length is read, then that many bytes.  The IPC session
    is the same program but for one byte in front of the length, which tells the
    type of the message, and for the limit [NN_RCVMAXSIZE], which only the TCP
    session looks at: [flavour] is the difference.  The functions below are those
    of stcp.c; Sipc.v gives them the names of sipc.c.

    The socket below is the pair of requests [rx] and [tx] the session made of it;
    [usock_received] and [usock_sent] are its answers.  Buffers are passed by
    value: a message being sent is not changed before it is sent. *)

From stdpp Require Import base list.
From Stdlib Require Import ZArith Lia.
From S2P Require Import Prelude.
From S2P Require Import Update.
From S2P Require Import Wire.
From S2P Require Import Message.
From S2P Require Import Fsm.
From S2P Require Streamhdr.
From S2P Require Chunk.
From S2P Require Usock.
From S2P Require Pipe.
Import Streamhdr (nn_streamhdr, nn_streamhdr_init, nn_streamhdr_term, nn_streamhdr_start, nn_streamhdr_stop,
  nn_streamhdr_isidle, NN_STREAMHDR_OK, NN_STREAMHDR_ERROR, NN_STREAMHDR_STOPPED).
Import Chunk (read_at, write_at).
Import Usock (NN_USOCK_SENT, NN_USOCK_RECEIVED, NN_USOCK_ERROR, NN_USOCK_SHUTDOWN).

Open Scope Z_scope.

#[local] Existing Instance Streamhdr.nn_streamhdr_eta.

Inductive flavour : Type := TCP | IPC.

#[export] Instance flavour_eq_dec : EqDecision flavour.
Proof. solve_decision. Defined.

Definition NN_SIPC_MSG_NORMAL : Z := 1.

Inductive stcp_state : Type :=
| NN_STCP_STATE_IDLE | NN_STCP_STATE_PROTOHDR | NN_STCP_STATE_STOPPING_STREAMHDR | NN_STCP_STATE_ACTIVE
| NN_STCP_STATE_SHUTTING_DOWN | NN_STCP_STATE_DONE | NN_STCP_STATE_STOPPING.

Inductive stcp_instate : Type :=
| NN_STCP_INSTATE_NONE | NN_STCP_INSTATE_HDR | NN_STCP_INSTATE_BODY | NN_STCP_INSTATE_HASMSG.

Inductive stcp_outstate : Type := NN_STCP_OUTSTATE_NONE | NN_STCP_OUTSTATE_IDLE | NN_STCP_OUTSTATE_SENDING.

#[export] Instance stcp_state_eq_dec : EqDecision stcp_state.
Proof. solve_decision. Defined.
#[export] Instance stcp_instate_eq_dec : EqDecision stcp_instate.
Proof. solve_decision. Defined.
#[export] Instance stcp_outstate_eq_dec : EqDecision stcp_outstate.
Proof. solve_decision. Defined.

Definition NN_STCP_SRC_USOCK : Z := 1.
Definition NN_STCP_SRC_STREAMHDR : Z := 2.
Definition NN_STCP_ERROR : Z := 1.
Definition NN_STCP_STOPPED : Z := 2.

(** The event [done]. *)
Definition EV_DONE : Z := 1.

(** Where [nn_usock_recv] stores: [inhdr], or the body of [inmsg]. *)
Inductive rx_dst : Type := RxHdr | RxBody.

(** [usock]: the session has a socket; [usock_owner]: it remembers an owner.  The
    body of [inmsg] has [insize] bytes, of which none are known before all are
    there. *)
Record nn_stcp : Type := Stcp {
  sfsm : nn_fsm; state : stcp_state; usock : bool; usock_owner : bool; streamhdr : nn_streamhdr;
  pipebase : Pipe.nn_pipebase;
  instate : stcp_instate; inhdr : list Z; inmsg : nn_msg; insize : Z;
  outstate : stcp_outstate; outhdr : list Z; outmsg : nn_msg;
  rx : option (rx_dst * Z); tx : option (list (list Z))
}.

#[export] Instance nn_stcp_eta : Eta nn_stcp := fun r =>
  Stcp (sfsm r) (state r) (usock r) (usock_owner r) (streamhdr r) (pipebase r) (instate r) (inhdr r) (inmsg r)
    (insize r) (outstate r) (outhdr r) (outmsg r) (rx r) (tx r).

Definition empty_msg : nn_msg := Msg [] [].

Section stcp.
  Context (fl : flavour).
  (** The protocol of the socket and whether another is its peer; the option
      [NN_RCVMAXSIZE]; whether the allocation of a body succeeds; what the core
      answers when it is offered the pipe. *)
  Context (protocol : Z) (ispeer : Z -> bool) (rcvmaxsize : Z) (alloc_ok : Z -> bool) (sock_add : Z).

(** [sizeof (inhdr)]. *)
Definition hdr_size : Z := match fl with TCP => 8 | IPC => 9 end.

Definition nn_stcp_init (opts : Pipe.nn_ep_options) : nn_stcp :=
  Stcp nn_fsm_init NN_STCP_STATE_IDLE false false nn_streamhdr_init (Pipe.nn_pipebase_init opts)
    NN_STCP_INSTATE_NONE (replicate (Z.to_nat hdr_size) 0) empty_msg 0
    NN_STCP_OUTSTATE_NONE (replicate (Z.to_nat hdr_size) 0) empty_msg None None.

Definition assert_state (self : nn_stcp) (st : stcp_state) : outcome unit := check (bool_decide (state self = st)).

Definition nn_stcp_term (self : nn_stcp) : outcome unit :=
  _ ← assert_state self NN_STCP_STATE_IDLE;
  _ ← Pipe.nn_pipebase_term (pipebase self);
  _ ← nn_streamhdr_term (streamhdr self);
  nn_fsm_term (sfsm self).

Definition nn_stcp_isidle (self : nn_stcp) : bool := nn_fsm_isidle (sfsm self).

Definition nn_usock_recv (self : nn_stcp) (dst : rx_dst) (len : Z) : nn_stcp := self ⦃ rx := Some (dst, len) ⦄.
Definition nn_usock_send (self : nn_stcp) (iov : list (list Z)) : nn_stcp := self ⦃ tx := Some iov ⦄.

Definition pipe_received (self : nn_stcp) : outcome nn_stcp :=
  '(p, _) ← Pipe.nn_pipebase_received (pipebase self); Ret (self ⦃ pipebase := p ⦄).
Definition pipe_sent (self : nn_stcp) : outcome nn_stcp :=
  '(p, _) ← Pipe.nn_pipebase_sent (pipebase self); Ret (self ⦃ pipebase := p ⦄).
Definition pipe_stop (self : nn_stcp) : outcome nn_stcp :=
  '(_, p) ← Pipe.nn_pipebase_stop (pipebase self) tt Ret; Ret (self ⦃ pipebase := p ⦄).

(** [state = DONE] and the error for the owner. *)
Definition fail (self : nn_stcp) : outcome nn_stcp :=
  f ← nn_fsm_raise (sfsm self) EV_DONE NN_STCP_ERROR;
  Ret (self ⦃ state := NN_STCP_STATE_DONE ⦄ ⦃ sfsm := f ⦄).

(** ** The pipe *)

(** The header of a message of that size. *)
Definition put_header (hdr : list Z) (size : Z) : outcome (list Z) :=
  match fl with
  | TCP => nn_putll hdr size
  | IPC =>
      hdr ← upd_c hdr 0 NN_SIPC_MSG_NORMAL;
      len ← nn_putll (drop 1 hdr) size;
      write_at hdr 1 len
  end.

Definition nn_stcp_send (self : nn_stcp) (msg : nn_msg) : outcome nn_stcp :=
  _ ← assert_state self NN_STCP_STATE_ACTIVE;
  _ ← check (bool_decide (outstate self = NN_STCP_OUTSTATE_IDLE));
  hdr ← put_header (outhdr self) (u64 (size (sphdr msg) + size (body msg)));
  let self := nn_usock_send (self ⦃ outmsg := msg ⦄ ⦃ outhdr := hdr ⦄) [hdr; sphdr msg; body msg] in
  Ret (self ⦃ outstate := NN_STCP_OUTSTATE_SENDING ⦄).

Definition nn_stcp_recv (self : nn_stcp) : outcome (nn_stcp * nn_msg) :=
  _ ← assert_state self NN_STCP_STATE_ACTIVE;
  _ ← check (bool_decide (instate self = NN_STCP_INSTATE_HASMSG));
  let msg := inmsg self in
  Ret (nn_usock_recv (self ⦃ inmsg := empty_msg ⦄ ⦃ instate := NN_STCP_INSTATE_HDR ⦄) RxHdr hdr_size, msg).

(** ** The state machine *)

Definition streamhdr_stop (self : nn_stcp) : outcome nn_stcp :=
  h ← nn_streamhdr_stop ispeer (streamhdr self); Ret (self ⦃ streamhdr := h ⦄).

Definition nn_stcp_shutdown (self : nn_stcp) (src type : Z) : outcome nn_stcp :=
  self ← (if (src =? NN_FSM_ACTION) && (type =? NN_FSM_STOP) then
            self ← pipe_stop self;
            self ← streamhdr_stop self;
            Ret (self ⦃ state := NN_STCP_STATE_STOPPING ⦄)
          else Ret self);
  if decide (state self = NN_STCP_STATE_STOPPING) then
    if nn_streamhdr_isidle (streamhdr self) then
      let self := self ⦃ usock := false ⦄ ⦃ usock_owner := false ⦄ ⦃ state := NN_STCP_STATE_IDLE ⦄ in
      f ← nn_fsm_stopped (sfsm self) NN_STCP_STOPPED;
      Ret (self ⦃ sfsm := f ⦄)
    else Ret self
  else Abort.

(** The size of the message that is announced; [None]: it is refused. *)
Definition get_header (hdr : list Z) : outcome (option Z) :=
  match fl with
  | TCP =>
      size ← nn_getll hdr;
      if (rcvmaxsize >=? 0) && (size >? rcvmaxsize) then Ret None else Ret (Some size)
  | IPC =>
      b ← nth_c hdr 0;
      _ ← check (b =? NN_SIPC_MSG_NORMAL);
      size ← nn_getll (drop 1 hdr);
      Ret (Some size)
  end.

(** A message's header was received. *)
Definition received_hdr (self : nn_stcp) : outcome nn_stcp :=
  h ← get_header (inhdr self);
  match h with
  | None => fail self
  | Some size =>
      _ ← check (alloc_ok size);
      let self := self ⦃ inmsg := empty_msg ⦄ ⦃ insize := size ⦄ in
      if size =? 0 then pipe_received (self ⦃ instate := NN_STCP_INSTATE_HASMSG ⦄)
      else Ret (nn_usock_recv (self ⦃ instate := NN_STCP_INSTATE_BODY ⦄) RxBody size)
  end.

Definition handle_active (self : nn_stcp) (src type : Z) : outcome nn_stcp :=
  if src =? NN_STCP_SRC_USOCK then
    if type =? NN_USOCK_SENT then
      _ ← check (bool_decide (outstate self = NN_STCP_OUTSTATE_SENDING));
      pipe_sent (self ⦃ outstate := NN_STCP_OUTSTATE_IDLE ⦄ ⦃ outmsg := empty_msg ⦄)
    else if type =? NN_USOCK_RECEIVED then
      match instate self with
      | NN_STCP_INSTATE_HDR => received_hdr self
      | NN_STCP_INSTATE_BODY => pipe_received (self ⦃ instate := NN_STCP_INSTATE_HASMSG ⦄)
      | _ => Abort
      end
    else if type =? NN_USOCK_SHUTDOWN then
      self ← pipe_stop self; Ret (self ⦃ state := NN_STCP_STATE_SHUTTING_DOWN ⦄)
    else if type =? NN_USOCK_ERROR then self ← pipe_stop self; fail self
    else Abort
  else Abort.

Definition nn_stcp_handler (self : nn_stcp) (src type : Z) : outcome nn_stcp :=
  match state self with
  | NN_STCP_STATE_IDLE =>
      if (src =? NN_FSM_ACTION) && (type =? NN_FSM_START) then
        h ← nn_streamhdr_start protocol ispeer (streamhdr self);
        Ret (self ⦃ streamhdr := h ⦄ ⦃ state := NN_STCP_STATE_PROTOHDR ⦄)
      else Abort
  | NN_STCP_STATE_PROTOHDR =>
      if src =? NN_STCP_SRC_STREAMHDR then
        if type =? NN_STREAMHDR_OK then
          self ← streamhdr_stop self;
          Ret (self ⦃ state := NN_STCP_STATE_STOPPING_STREAMHDR ⦄)
        else if type =? NN_STREAMHDR_ERROR then fail self
        else Abort
      else Abort
  | NN_STCP_STATE_STOPPING_STREAMHDR =>
      if (src =? NN_STCP_SRC_STREAMHDR) && (type =? NN_STREAMHDR_STOPPED) then
        '(_, p, rc, _) ← Pipe.nn_pipebase_start (pipebase self) (fun _ => Ret (tt, sock_add));
        let self := self ⦃ pipebase := p ⦄ in
        if rc <? 0 then fail self else
        let self := nn_usock_recv (self ⦃ instate := NN_STCP_INSTATE_HDR ⦄) RxHdr hdr_size in
        Ret (self ⦃ outstate := NN_STCP_OUTSTATE_IDLE ⦄ ⦃ state := NN_STCP_STATE_ACTIVE ⦄)
      else Abort
  | NN_STCP_STATE_ACTIVE => handle_active self src type
  | NN_STCP_STATE_SHUTTING_DOWN =>
      if (src =? NN_STCP_SRC_USOCK) && (type =? NN_USOCK_ERROR) then fail self else Abort
  | NN_STCP_STATE_DONE | NN_STCP_STATE_STOPPING => Abort
  end.

Definition stcp_object : FsmObject nn_stcp := {|
  fsm := sfsm; with_fsm self f := self ⦃ sfsm := f ⦄;
  fn self src type _ := nn_stcp_handler self src type;
  shutdown_fn self src type _ := nn_stcp_shutdown self src type
|}.

Definition nn_stcp_start (self : nn_stcp) : outcome nn_stcp :=
  _ ← check (negb (usock self) && negb (usock_owner self));
  nn_fsm_start (H := stcp_object) (self ⦃ usock_owner := true ⦄ ⦃ usock := true ⦄).

Definition nn_stcp_stop (self : nn_stcp) : outcome nn_stcp := nn_fsm_stop (H := stcp_object) self.

(** ** Events *)

(** The socket stores the bytes that were asked for and raises RECEIVED. *)
Definition usock_fill (self : nn_stcp) (data : list Z) : outcome nn_stcp :=
  match rx self with
  | Some (dst, len) =>
      if negb (size data =? len) then Undef else
      let self := self ⦃ rx := None ⦄ in
      match dst with
      | RxHdr => Ret (self ⦃ inhdr := data ⦄)
      | RxBody => Ret (self ⦃ inmsg := Msg [] data ⦄)
      end
  | None => Undef
  end.

Definition stcp_feed (self : nn_stcp) (src type : Z) : outcome nn_stcp := nn_fsm_feed (H := stcp_object) self src type 0.

Definition usock_received (self : nn_stcp) (data : list Z) : outcome nn_stcp :=
  self ← usock_fill self data;
  stcp_feed self NN_STCP_SRC_USOCK NN_USOCK_RECEIVED.

Definition usock_sent (self : nn_stcp) : outcome nn_stcp :=
  stcp_feed (self ⦃ tx := None ⦄) NN_STCP_SRC_USOCK NN_USOCK_SENT.

(** SHUTDOWN and ERROR. *)
Definition usock_event (self : nn_stcp) (type : Z) : outcome nn_stcp := stcp_feed self NN_STCP_SRC_USOCK type.

(** The events of the header exchange are the session's. *)
Definition streamhdr_event (self : nn_stcp) : outcome nn_stcp :=
  let f := Streamhdr.hfsm (streamhdr self) in
  match raised f with
  | [] => Ret self
  | (_, type) :: rest =>
      let h := (streamhdr self) ⦃ Streamhdr.hfsm := Fsm (fsm_st f) rest ⦄ in
      stcp_feed (self ⦃ streamhdr := h ⦄) NN_STCP_SRC_STREAMHDR type
  end.

(** [nn_pipe_send] and [nn_pipe_recv] of core/pipe.c over the session: nothing is
    ever done at once. *)
Definition pipe_send (self : nn_stcp) (msg : nn_msg) : outcome nn_stcp :=
  self ← nn_stcp_send self msg;
  '(p, _) ← Pipe.nn_pipe_send (pipebase self) (Pipe.Answer 0 false tt);
  Ret (self ⦃ pipebase := p ⦄).

Definition pipe_recv (self : nn_stcp) : outcome (nn_stcp * nn_msg) :=
  '(self, msg) ← nn_stcp_recv self;
  '(p, _, msg) ← Pipe.nn_pipe_recv (pipebase self) (Pipe.Answer 0 false msg);
  Ret (self ⦃ pipebase := p ⦄, msg).
End stcp.
