(* ===== verification/StcpTrip.v ===== *)
(** * StcpTrip: messages over TCP and IPC, from end to end

    A [node] is a session of Stcp.v over a socket of Usock.v: what the session
    asks of its socket is asked of it, and the events of the socket are handed to
    the session.  The steps of a node are what can happen while the connection
    lasts: the core sends or takes a message, an event is delivered, the
    descriptor can be read or written, anything that does not concern the socket.
    The kernel takes and gives as many bytes at a time as it likes; [kin] and
    [kout] are what it gave and took, [got] and [sent] the messages the core took
    and gave.

    The lemma [run_flows] says that no step fails and what the session has taken
    is a beginning of the messages that the peer put into the stream. *)

From stdpp Require Import base gmap list.
From Stdlib Require Import ZArith Lia.
From S2P Require Import Prelude.
From S2P Require Import Update.
From S2P Require Import Wire.
From S2P Require Import Message.
From S2P Require Import Fsm.
From S2P Require Import Poller.
From S2P Require Import Usock.
From S2P Require Import UsockData.
From S2P Require ListHeap.
Import ListHeap (loc).
From S2P Require Chunk.
From S2P Require Streamhdr.
From S2P Require Pipe.
From S2P Require Stcp.
Import Stcp (nn_stcp, flavour, TCP, IPC, sfsm, streamhdr, pipebase, instate, inhdr, inmsg, insize, outstate, outhdr, outmsg,
  rx, tx, RxHdr, RxBody, hdr_size, put_header, get_header, empty_msg, streamhdr_event, usock_received, usock_sent,
  usock_event, pipe_send, pipe_recv, NN_STCP_STATE_ACTIVE, NN_STCP_STATE_STOPPING_STREAMHDR, NN_STCP_INSTATE_HDR,
  NN_STCP_INSTATE_BODY, NN_STCP_INSTATE_HASMSG, NN_STCP_OUTSTATE_IDLE, NN_STCP_OUTSTATE_SENDING).

Open Scope Z_scope.

#[local] Existing Instance Stcp.nn_stcp_eta.
#[local] Existing Instance Streamhdr.nn_streamhdr_eta.

(** ** A session over a socket *)

Section node.
  Context {K : Type} `{Epoll K}.
  Context (fl : flavour) (ispeer : Z -> bool) (rcvmaxsize : Z) (alloc_ok : Z -> bool) (sock_add protocol : Z).
  Context (p : loc).

Record node : Type := Node {
  ses : nn_stcp; os : world K; kin : list Z; got : list nn_msg; kout : list Z; sent : list nn_msg
}.

Inductive label : Type :=
| LTake (ans : recv_answer)             (* the core takes a message *)
| LPut (msg : nn_msg) (nbytes : Z)      (* the core sends one *)
| LDeliver (ans : recv_answer)          (* the next event of the socket *)
| LIn (k : answers) | LOut (k : answers) (* the descriptor can be read or written *)
| LOther (w : world K).                 (* the rest of the world moves *)

(** The session's new request for bytes goes to the socket. *)
Definition request (n : node) (s : nn_stcp) (w : world K) (ans : recv_answer) : outcome node :=
  match rx s with
  | None => Ret (Node s w (kin n) (got n) (kout n) (sent n))
  | Some (_, len) =>
      u ← get w p;
      w ← nn_usock_recv w p len None ans;
      Ret (Node s w (kin n ++ from_kernel u len ans) (got n) (kout n) (sent n))
  end.

Definition step (n : node) (l : label) : outcome node :=
  match l with
  | LTake ans =>
      '(s, msg) ← pipe_recv fl (ses n);
      request (Node (ses n) (os n) (kin n) (got n ++ [msg]) (kout n) (sent n)) s (os n) ans
  | LPut msg nbytes =>
      s ← pipe_send fl (ses n) msg;
      match tx s with
      | None => Undef
      | Some iov =>
          w ← nn_usock_send (os n) p iov nbytes;
          Ret (Node s w (kin n) (got n) (kout n ++ to_kernel iov nbytes) (sent n ++ [msg]))
      end
  | LDeliver ans =>
      '(w, event) ← deliver (os n) p;
      match event with
      | None => Ret n
      | Some type =>
          if type =? NN_USOCK_RECEIVED then
            u ← get w p;
            s ← usock_received fl protocol ispeer rcvmaxsize alloc_ok sock_add (ses n) (in_buf u);
            request n s w ans
          else if type =? NN_USOCK_SENT then
            s ← usock_sent fl protocol ispeer rcvmaxsize alloc_ok sock_add (ses n);
            Ret (Node s w (kin n) (got n) (kout n) (sent n))
          else
            s ← usock_event fl protocol ispeer rcvmaxsize alloc_ok sock_add (ses n) type;
            Ret (Node s w (kin n) (got n) (kout n) (sent n))
      end
  | LIn k =>
      u ← get (os n) p;
      w ← feed k (os n) p NN_USOCK_SRC_FD NN_POLLER_IN;
      Ret (Node (ses n) w (kin n ++ from_kernel u (in_len u) (a_recv k)) (got n) (kout n) (sent n))
  | LOut k =>
      u ← get (os n) p;
      w ← feed k (os n) p NN_USOCK_SRC_FD NN_POLLER_OUT;
      Ret (Node (ses n) w (kin n) (got n) (kout n ++ to_kernel (out_iov u) (a_send k)) (sent n))
  | LOther w => Ret (Node (ses n) w (kin n) (got n) (kout n) (sent n))
  end.

(** The headers are exchanged, and the session is told so. *)
Definition open (s : nn_stcp) (w : world K) (ans : recv_answer) : outcome node :=
  u ← get w p;
  s ← streamhdr_event fl protocol ispeer rcvmaxsize alloc_ok sock_add s;
  request (Node s w (left u) [] [] []) s w ans.

Fixpoint run (n : node) (ls : list label) : outcome node :=
  match ls with
  | [] => Ret n
  | l :: ls => n ← step n l; run n ls
  end.

(** *** What may happen *)

Definition no_task (w : world K) (t : task) : Prop := queued w (Task p t) = false.

(** A socket is in the same state in both worlds, and no tasks of it were added. *)
Definition unconcerned (w w' : world K) : Prop :=
  socks w' !! p = socks w !! p /\ is_Some (hndls (poller w') !! p) /\ (forall t, no_task w t -> no_task w' t).

(** [stream] is what the peer sends.  The kernel gives the next bytes of it, as
    long as the connection lasts; it takes what it can. *)
Section legal.
  Context (stream : list Z).

Definition next_bytes (n : node) (u : nn_usock) (len : Z) (ans : recv_answer) : Prop :=
  data_answer u len ans /\ kin n ++ from_kernel u len ans `prefix_of` stream.

(** If the session, as it is then, asks for bytes, the answer is as it should be. *)
Definition good_answer (n : node) (s : outcome nn_stcp) (ans : recv_answer) : Prop :=
  forall s' dst len u, s = Ret s' -> rx s' = Some (dst, len) -> socks (os n) !! p = Some u -> next_bytes n u len ans.

(** A message the pipe is free for; the kernel takes no more than there is. *)
Definition legal (n : node) (l : label) : Prop :=
  match l with
  | LTake ans => Pipe.instate (pipebase (ses n)) = Pipe.IN_IDLE /\ good_answer n (fst <$> pipe_recv fl (ses n)) ans
  | LPut msg nbytes =>
      Pipe.outstate (pipebase (ses n)) = Pipe.OUT_IDLE /\ size (sphdr msg) + size (body msg) < 2 ^ 64 /\
      (nbytes = - EAGAIN \/ 0 <= nbytes <= hdr_size fl + size (sphdr msg) + size (body msg))
  | LDeliver ans => forall u, socks (os n) !! p = Some u ->
      good_answer n (usock_received fl protocol ispeer rcvmaxsize alloc_ok sock_add (ses n) (in_buf u)) ans
  | LIn k => no_task (os n) task_recv /\
      exists u, socks (os n) !! p = Some u /\ 0 < in_len u /\ next_bytes n u (in_len u) (a_recv k)
  | LOut k => no_task (os n) task_send /\
      exists u, socks (os n) !! p = Some u /\ out_iov u <> [] /\ taken_answer (out_iov u) (a_send k)
  | LOther w => unconcerned (os n) w
  end.

Inductive legal_run : node -> list label -> Prop :=
| run_end n : legal_run n []
| run_step n l ls : legal n l -> (forall n', step n l = Ret n' -> legal_run n' ls) -> legal_run n (l :: ls).
End legal.

(** ** The stream of messages *)

Definition msize (m : nn_msg) : Z := size (sphdr m) + size (body m).
Definition payload (m : nn_msg) : list Z := sphdr m ++ body m.

(** A message as it arrives. *)
Definition flat (m : nn_msg) : nn_msg := Msg [] (payload m).

(** The header of a message. *)
Definition header (len : Z) : list Z :=
  match fl with TCP => be_digits 8 len | IPC => Stcp.NN_SIPC_MSG_NORMAL :: be_digits 8 len end.

Definition frame (m : nn_msg) : list Z := header (msize m) ++ payload m.
Definition frames (ms : list nn_msg) : list Z := concat (frame <$> ms).

(** The receiver takes messages of that size. *)
Definition acceptable (m : nn_msg) : Prop :=
  msize m < 2 ^ 64 /\ alloc_ok (msize m) = true /\ (fl = TCP -> 0 <= rcvmaxsize -> msize m <= rcvmaxsize).

Lemma msize_nonneg m : 0 <= msize m.
Proof. unfold msize. assert (H1 := size_nonneg (sphdr m)). assert (H2 := size_nonneg (body m)). lia. Qed.

Lemma payload_size m : size (payload m) = msize m.
Proof. unfold payload. apply size_app. Qed.

Lemma header_size len : size (header len) = hdr_size fl.
Proof. unfold header, hdr_size. destruct fl; unfold size; done. Qed.

Lemma frame_size m : size (frame m) = hdr_size fl + msize m.
Proof. unfold frame. by rewrite size_app, header_size, payload_size. Qed.

Lemma hdr_size_pos : 0 < hdr_size fl.
Proof. unfold hdr_size. destruct fl; lia. Qed.

Lemma getll_digits len : 0 <= len < 2 ^ 64 -> nn_getll (be_digits 8 len) = Ret len.
Proof.
  intros Hl. assert (Hb := be_digits_bytes 8 len).
  rewrite <-(be_of_digits 8 len) at 2 by (change (8 * Z.of_nat 8) with 64; lia). apply (getll_be _ _ _ _ _ _ _ _ []), Hb.
Qed.

Lemma get_header_ok m : acceptable m -> get_header fl rcvmaxsize (header (msize m)) = Ret (Some (msize m)).
Proof.
  intros (Hs & _ & Hm). assert (H0 := msize_nonneg m). unfold get_header, header. destruct fl.
  - rewrite getll_digits by lia. cbn [mbind outcome_bind].
    destruct (rcvmaxsize >=? 0) eqn:E; [|done]. rewrite Z.gtb_ltb, (proj2 (Z.ltb_ge _ _)); [done|]. apply Hm; [done|lia].
  - cbn [nth_c]. change (nth_c (Stcp.NN_SIPC_MSG_NORMAL :: be_digits 8 (msize m)) 0) with (Ret Stcp.NN_SIPC_MSG_NORMAL).
    cbn [mbind outcome_bind check]. change (Stcp.NN_SIPC_MSG_NORMAL =? Stcp.NN_SIPC_MSG_NORMAL) with true.
    cbn [mbind outcome_bind check]. change (drop 1 (Stcp.NN_SIPC_MSG_NORMAL :: be_digits 8 (msize m))) with (be_digits 8 (msize m)).
    rewrite getll_digits by lia. done.
Qed.

Lemma put_header_ok hdr len : size hdr = hdr_size fl -> 0 <= len < 2 ^ 64 -> put_header fl hdr len = Ret (header len).
Proof.
  intros Hs Hl. unfold put_header, header, hdr_size in *. destruct fl.
  - do 8 (destruct hdr as [|? hdr]; [done|]). destruct hdr; [|unfold size in Hs; cbn [length] in Hs; lia].
    rewrite putll_digits. by rewrite app_nil_r.
  - do 9 (destruct hdr as [|? hdr]; [done|]). destruct hdr; [|unfold size in Hs; cbn [length] in Hs; lia].
    cbn [upd_c]. change (upd_c _ 0 _) with (Ret (Stcp.NN_SIPC_MSG_NORMAL :: [z0; z1; z2; z3; z4; z5; z6; z7])).
    cbn [mbind outcome_bind drop]. rewrite putll_digits, app_nil_r. done.
Qed.

Lemma frames_app ms1 ms2 : frames (ms1 ++ ms2) = frames ms1 ++ frames ms2.
Proof. unfold frames. by rewrite fmap_app, concat_app. Qed.

Lemma prefix_cut (a b c : list Z) : a ++ b `prefix_of` a ++ c -> b `prefix_of` c.
Proof. intros [x E]. rewrite <-app_assoc in E. apply app_inv_head in E. by exists x. Qed.

(** A beginning that is as long as a part is that part. *)
Lemma prefix_part (x a c : list Z) : x `prefix_of` a ++ c -> size x = size a -> x = a.
Proof.
  intros [y E] Hs. unfold size in Hs.
  assert (E' := f_equal (take (length x)) E). rewrite take_app_length in E'.
  rewrite take_app_le, take_ge in E' by lia. done.
Qed.

(** ** What holds while the connection lasts *)

Inductive rx_mode : Type := RxWaiting | RxReady | RxIdle.
Inductive tx_mode : Type := TxIdle | TxPending | TxDone.

Definition rx_events (m : rx_mode) : list (Z * Z) := match m with RxReady => [(EV_RECEIVED, NN_USOCK_RECEIVED)] | _ => [] end.
Definition tx_events (m : tx_mode) : list (Z * Z) := match m with TxDone => [(EV_SENT, NN_USOCK_SENT)] | _ => [] end.

(** Where in a message the session is: the bytes [cur] of it are there, and the
    request, if there is one, asks for [len] bytes of which [buf] is the
    beginning. *)
Inductive at_message (next : option nn_msg) (s : nn_stcp) (buf : list Z) : option (Stcp.rx_dst * Z) -> list Z -> Prop :=
| at_hdr : instate s = NN_STCP_INSTATE_HDR -> at_message next s buf (Some (RxHdr, hdr_size fl)) buf
| at_body m : next = Some m -> instate s = NN_STCP_INSTATE_BODY -> 0 < msize m ->
    at_message next s buf (Some (RxBody, msize m)) (header (msize m) ++ buf)
| at_end m : next = Some m -> instate s = NN_STCP_INSTATE_HASMSG -> inmsg s = flat m ->
    at_message next s buf None (frame m).

Record rx_ok (ms : list nn_msg) (n : node) (u : nn_usock) (mode : rx_mode) : Prop := {
  rx_batch : batch_ok u;
  rx_got : exists j cur, (j <= length ms)%nat /\ got n = flat <$> take j ms /\ at_message (ms !! j) (ses n) (in_buf u) (rx (ses n)) cur /\
    kin n = frames (take j ms) ++ cur ++ left u;
  rx_kin : kin n `prefix_of` frames ms;
  rx_mode_ok : match mode with
    | RxWaiting => exists dst len, rx (ses n) = Some (dst, len) /\ size (in_buf u) + in_len u = len /\ 0 < in_len u /\ left u = []
    | RxReady => exists dst len, rx (ses n) = Some (dst, len) /\ size (in_buf u) = len /\ in_len u = 0
    | RxIdle => rx (ses n) = None /\ in_len u = 0
    end;
  rx_pipe : Pipe.instate (pipebase (ses n)) = match mode with RxIdle => Pipe.IN_IDLE | _ => Pipe.IN_ASYNC end;
  rx_task : mode <> RxWaiting -> no_task (os n) task_recv
}.

Record tx_ok (n : node) (u : nn_usock) (mode : tx_mode) : Prop := {
  tx_solid : solid (out_iov u);
  tx_kout : kout n ++ concat (out_iov u) = frames (sent n);
  tx_hdr : size (outhdr (ses n)) = hdr_size fl;
  tx_mode_ok : match mode with TxPending => out_iov u <> [] | _ => out_iov u = [] end;
  tx_out : outstate (ses n) = match mode with TxIdle => NN_STCP_OUTSTATE_IDLE | _ => NN_STCP_OUTSTATE_SENDING end;
  tx_pipe : Pipe.outstate (pipebase (ses n)) = match mode with TxIdle => Pipe.OUT_IDLE | _ => Pipe.OUT_ASYNC end;
  tx_task : mode <> TxPending -> no_task (os n) task_send
}.

Record sock_ok (n : node) (u : nn_usock) : Prop := {
  so_at : socks (os n) !! p = Some u;
  so_state : Usock.state u = NN_USOCK_STATE_ACTIVE;
  so_fsm : fsm_st (ufsm u) = FSM_ACTIVE;
  so_hndl : is_Some (hndls (poller (os n)) !! p);
  so_ses : Stcp.state (ses n) = NN_STCP_STATE_ACTIVE;
  so_sfsm : fsm_st (sfsm (ses n)) = FSM_ACTIVE
}.

(** [ms] is what the peer sends. *)
Inductive flows (ms : list nn_msg) (n : node) : Prop :=
| flows_intro u r t : sock_ok n u -> rx_ok ms n u r -> tx_ok n u t ->
    raised (ufsm u) ≡ₚ rx_events r ++ tx_events t -> flows ms n.

(** *** Requests *)

Lemma not_active f ev : nn_fsm_event_active f ev = false <-> (forall e, e ∈ raised f -> fst e <> ev).
Proof.
  unfold nn_fsm_event_active. split.
  - intros E e He <-. apply not_true_iff_false in E. apply E. apply existsb_exists. exists e.
    split; [by apply list_elem_of_In | apply Z.eqb_refl].
  - intros Hn. apply not_true_iff_false. intros (e & He & Eq)%existsb_exists. apply list_elem_of_In in He.
    apply (Hn _ He). by apply Z.eqb_eq.
Qed.

(** What a request leaves as it was. *)
Record kept (w w' : world K) (u u' : nn_usock) : Prop := {
  k_at : socks w' !! p = Some u';
  k_state : Usock.state u' = Usock.state u;
  k_fsm : fsm_st (ufsm u') = fsm_st (ufsm u);
  k_out : out_iov u' = out_iov u;
  k_hndl : is_Some (hndls (poller w) !! p) -> is_Some (hndls (poller w') !! p);
  k_send : no_task w task_send -> no_task w' task_send
}.

(** The part of [rx_ok] that a request establishes. *)
Record asked (s : nn_stcp) (w : world K) (u : nn_usock) (len : Z) (mode : rx_mode) : Prop := {
  as_batch : batch_ok u;
  as_mode : match mode with
    | RxWaiting => size (in_buf u) + in_len u = len /\ 0 < in_len u /\ left u = []
    | RxReady => size (in_buf u) = len /\ in_len u = 0
    | RxIdle => False
    end;
  as_task : mode <> RxWaiting -> no_task w task_recv
}.

Lemma request_ok ms n s w u dst len ans :
  socks w !! p = Some u -> Usock.state u = NN_USOCK_STATE_ACTIVE -> batch_ok u -> in_len u = 0 ->
  nn_fsm_event_active (ufsm u) EV_RECEIVED = false -> no_task w task_recv ->
  rx s = Some (dst, len) -> 0 < len -> next_bytes ms n u len ans ->
  exists w' u' mode new, request n s w ans = Ret (Node s w' (kin n ++ new) (got n) (kout n) (sent n)) /\
    kept w w' u u' /\ asked s w' u' len mode /\ left u ++ new = in_buf u' ++ left u' /\
    raised (ufsm u') = raised (ufsm u) ++ rx_events mode /\ kin n ++ new `prefix_of` ms.
Proof.
  intros Hp Hst Hb Hin Hev Ht Hrx Hlen [A Pre].
  destruct (usock_recv_ok w p u len None ans) as
    (w' & u' & E & Hp' & St & Ok & Out & As & G & Hh & Hr & Hf & M); try done.
  unfold request. rewrite Hrx, (get_ok _ _ _ Hp). cbn [mbind outcome_bind]. rewrite E. cbn [mbind outcome_bind].
  destruct M as [(M1 & M2 & M3 & M4) | (M1 & M2 & M3 & M4 & M5)].
  - exists w', u', RxReady, (from_kernel u len ans). split; [done|]. split; [|split; [|done]].
    + constructor; [done | congruence | done | done | by rewrite Hh|]. unfold no_task, queued. by rewrite M3, Hr.
    + constructor; try done. intros _. unfold no_task, queued. by rewrite M3, Hr.
  - exists w', u', RxWaiting, (from_kernel u len ans). split; [done|]. split; [|split; [|split; [done|split; [by rewrite app_nil_r|done]]]].
    + constructor; [done | congruence | done | done | by rewrite Hh|]. unfold no_task, queued. rewrite M4, Hr.
      intros Hn%bool_decide_eq_false. apply bool_decide_eq_false. revert Hn.
      rewrite !elem_of_app. intros Hn [[Hi | Hi] | Hi]; [tauto | | tauto]. apply list_elem_of_singleton in Hi. done.
    + constructor; try done.
Qed.

(** *** Steps of the session *)

Definition live (s : nn_stcp) : Prop := Stcp.state s = NN_STCP_STATE_ACTIVE /\ fsm_st (sfsm s) = FSM_ACTIVE.

Lemma feed_live s src type : live s ->
  Stcp.stcp_feed fl protocol ispeer rcvmaxsize alloc_ok sock_add s src type =
  Stcp.handle_active fl rcvmaxsize alloc_ok s src type.
Proof.
  intros [Hs Hf]. unfold Stcp.stcp_feed, nn_fsm_feed. cbn [fsm Stcp.stcp_object fn]. rewrite Hf.
  rewrite decide_True by done. unfold Stcp.nn_stcp_handler. by rewrite Hs.
Qed.

(** The sessions differ in what concerns receiving only. *)
Record rx_only (s s' : nn_stcp) : Prop := {
  ro_live : live s -> live s';
  ro_outstate : outstate s' = outstate s;
  ro_outhdr : outhdr s' = outhdr s;
  ro_pipe : Pipe.outstate (pipebase s') = Pipe.outstate (pipebase s)
}.

(** The header of a message has been received. *)
Lemma received_header s m :
  live s -> rx s = Some (RxHdr, hdr_size fl) -> instate s = NN_STCP_INSTATE_HDR ->
  Pipe.instate (pipebase s) = Pipe.IN_ASYNC -> acceptable m ->
  exists s', usock_received fl protocol ispeer rcvmaxsize alloc_ok sock_add s (header (msize m)) = Ret s' /\ rx_only s s' /\
    (msize m = 0 /\ rx s' = None /\ instate s' = NN_STCP_INSTATE_HASMSG /\ inmsg s' = flat m /\
       Pipe.instate (pipebase s') = Pipe.IN_IDLE \/
     0 < msize m /\ rx s' = Some (RxBody, msize m) /\ instate s' = NN_STCP_INSTATE_BODY /\
       Pipe.instate (pipebase s') = Pipe.IN_ASYNC).
Proof.
  intros Hl Hrx Hin Hp Ha. unfold usock_received, Stcp.usock_fill. rewrite Hrx, header_size, Z.eqb_refl.
  cbn [negb mbind outcome_bind]. rewrite feed_live by (destruct s; exact Hl).
  unfold Stcp.handle_active. change (Stcp.NN_STCP_SRC_USOCK =? Stcp.NN_STCP_SRC_USOCK) with true.
  change (NN_USOCK_RECEIVED =? NN_USOCK_SENT) with false. change (NN_USOCK_RECEIVED =? NN_USOCK_RECEIVED) with true.
  cbn match. set (s1 := s ⦃ rx := None ⦄ ⦃ inhdr := header (msize m) ⦄).
  assert (E1 : instate s1 = NN_STCP_INSTATE_HDR) by by destruct s. rewrite E1. unfold Stcp.received_hdr.
  assert (E2 : inhdr s1 = header (msize m)) by by destruct s. rewrite E2, get_header_ok by done. cbn [mbind outcome_bind].
  rewrite (proj1 (proj2 Ha)). cbn [check mbind outcome_bind]. assert (H0 := msize_nonneg m).
  assert (Hlive : live s -> forall x, live ((s1 ⦃ inmsg := empty_msg ⦄ ⦃ insize := msize m ⦄) ⦃ instate := x ⦄)) by by destruct s.
  destruct (Z.eqb_spec (msize m) 0) as [E0 | E0].
  - unfold Stcp.pipe_received, Pipe.nn_pipebase_received.
    assert (Ep : pipebase ((s1 ⦃ inmsg := empty_msg ⦄ ⦃ insize := msize m ⦄) ⦃ instate := NN_STCP_INSTATE_HASMSG ⦄) = pipebase s)
      by by destruct s. rewrite Ep, Hp. rewrite decide_False by done. rewrite bool_decide_eq_true_2 by done.
    cbn [check mbind outcome_bind]. eexists. split; [reflexivity|]. split; [by constructor; destruct s|]. left.
    assert (Ef : flat m = empty_msg). { unfold flat, empty_msg. f_equal. apply size_0. by rewrite payload_size. }
    rewrite Ef. by destruct s.
  - eexists. split; [reflexivity|]. split; [by constructor; destruct s|]. right. split; [lia|]. by destruct s.
Qed.

(** The body of a message has been received. *)
Lemma received_body s m :
  live s -> rx s = Some (RxBody, msize m) -> instate s = NN_STCP_INSTATE_BODY ->
  Pipe.instate (pipebase s) = Pipe.IN_ASYNC ->
  exists s', usock_received fl protocol ispeer rcvmaxsize alloc_ok sock_add s (payload m) = Ret s' /\ rx_only s s' /\
    rx s' = None /\ instate s' = NN_STCP_INSTATE_HASMSG /\ inmsg s' = flat m /\ Pipe.instate (pipebase s') = Pipe.IN_IDLE.
Proof.
  intros Hl Hrx Hin Hp. unfold usock_received, Stcp.usock_fill. rewrite Hrx, payload_size, Z.eqb_refl.
  cbn [negb mbind outcome_bind]. rewrite feed_live by (destruct s; exact Hl).
  unfold Stcp.handle_active. change (Stcp.NN_STCP_SRC_USOCK =? Stcp.NN_STCP_SRC_USOCK) with true.
  change (NN_USOCK_RECEIVED =? NN_USOCK_SENT) with false. change (NN_USOCK_RECEIVED =? NN_USOCK_RECEIVED) with true.
  cbn match. set (s1 := s ⦃ rx := None ⦄ ⦃ inmsg := flat m ⦄).
  change (Msg [] (payload m)) with (flat m). fold s1.
  assert (E1 : instate s1 = NN_STCP_INSTATE_BODY) by by destruct s. rewrite E1.
  unfold Stcp.pipe_received, Pipe.nn_pipebase_received.
  assert (Ep : pipebase (s1 ⦃ instate := NN_STCP_INSTATE_HASMSG ⦄) = pipebase s) by by destruct s.
  rewrite Ep, Hp. rewrite decide_False by done. rewrite bool_decide_eq_true_2 by done.
  cbn [check mbind outcome_bind]. eexists. split; [reflexivity|]. split; [by constructor; destruct s|]. by destruct s.
Qed.

(** The core takes the message. *)
Lemma pipe_recv_ok s m :
  live s -> instate s = NN_STCP_INSTATE_HASMSG -> inmsg s = m -> Pipe.instate (pipebase s) = Pipe.IN_IDLE ->
  exists s', pipe_recv fl s = Ret (s', m) /\ rx_only s s' /\ rx s' = Some (RxHdr, hdr_size fl) /\
    instate s' = NN_STCP_INSTATE_HDR /\ Pipe.instate (pipebase s') = Pipe.IN_ASYNC.
Proof.
  intros Hl Hin Hm Hp. unfold pipe_recv, Stcp.nn_stcp_recv, Stcp.assert_state.
  rewrite (proj1 Hl), Hin, !bool_decide_eq_true_2 by done. cbn [check mbind outcome_bind].
  set (s1 := Stcp.nn_usock_recv _ _ _). assert (Ep : pipebase s1 = pipebase s) by by destruct s.
  rewrite Ep, Pipe.pipe_recv_idle by done. cbn [mbind outcome_bind]. rewrite Hm. eexists. split; [reflexivity|].
  split; [by constructor; destruct s|]. by destruct s.
Qed.

(** The core sends one. *)
Lemma pipe_send_ok s m :
  live s -> outstate s = NN_STCP_OUTSTATE_IDLE -> size (outhdr s) = hdr_size fl -> msize m < 2 ^ 64 ->
  Pipe.outstate (pipebase s) = Pipe.OUT_IDLE ->
  exists s', pipe_send fl s m = Ret s' /\ tx s' = Some [header (msize m); sphdr m; body m] /\ live s' /\
    outstate s' = NN_STCP_OUTSTATE_SENDING /\ size (outhdr s') = hdr_size fl /\
    Pipe.outstate (pipebase s') = Pipe.OUT_ASYNC /\
    instate s' = instate s /\ rx s' = rx s /\ inmsg s' = inmsg s /\ Pipe.instate (pipebase s') = Pipe.instate (pipebase s).
Proof.
  intros Hl Ho Hh Hm Hp. unfold pipe_send, Stcp.nn_stcp_send, Stcp.assert_state.
  rewrite (proj1 Hl), Ho, !bool_decide_eq_true_2 by done. cbn [check mbind outcome_bind].
  assert (H0 := msize_nonneg m). unfold u64. fold (msize m). rewrite (Z.mod_small (msize m)) by lia.
  rewrite put_header_ok by (done || lia). cbn [mbind outcome_bind].
  set (s1 := (Stcp.nn_usock_send _ _) ⦃ outstate := _ ⦄). assert (Ep : pipebase s1 = pipebase s) by by destruct s.
  rewrite Ep, Pipe.pipe_send_idle by done. cbn [mbind outcome_bind].
  eexists. split; [reflexivity|]. destruct s. cbn in *. rewrite header_size. by repeat split; try apply Hl.
Qed.

Lemma usock_sent_ok s :
  live s -> outstate s = NN_STCP_OUTSTATE_SENDING -> Pipe.outstate (pipebase s) = Pipe.OUT_ASYNC ->
  exists s', usock_sent fl protocol ispeer rcvmaxsize alloc_ok sock_add s = Ret s' /\ live s' /\
    outstate s' = NN_STCP_OUTSTATE_IDLE /\ outhdr s' = outhdr s /\ Pipe.outstate (pipebase s') = Pipe.OUT_IDLE /\
    instate s' = instate s /\ rx s' = rx s /\ inmsg s' = inmsg s /\ Pipe.instate (pipebase s') = Pipe.instate (pipebase s).
Proof.
  intros Hl Ho Hp. unfold usock_sent. rewrite feed_live by (destruct s; exact Hl). unfold Stcp.handle_active.
  change (Stcp.NN_STCP_SRC_USOCK =? Stcp.NN_STCP_SRC_USOCK) with true. change (NN_USOCK_SENT =? NN_USOCK_SENT) with true.
  cbn match. assert (E1 : outstate (s ⦃ tx := None ⦄) = NN_STCP_OUTSTATE_SENDING) by by destruct s.
  rewrite E1, bool_decide_eq_true_2 by done. cbn [check mbind outcome_bind]. unfold Stcp.pipe_sent.
  set (s1 := _ ⦃ outmsg := _ ⦄). assert (Ep : pipebase s1 = pipebase s) by by destruct s.
  rewrite Ep, Pipe.sent_async by done. cbn [mbind outcome_bind]. eexists. split; [reflexivity|].
  destruct s. cbn in *. by repeat split; try apply Hl.
Qed.

(** *** No step fails *)

(** A session that has just been told something: the bytes [base] of a message
    are there, and it asks for more, or the message is complete. *)
Inductive settled (next : option nn_msg) (s : nn_stcp) : list Z -> Prop :=
| settled_hdr : instate s = NN_STCP_INSTATE_HDR -> rx s = Some (RxHdr, hdr_size fl) ->
    Pipe.instate (pipebase s) = Pipe.IN_ASYNC -> settled next s []
| settled_body m : next = Some m -> instate s = NN_STCP_INSTATE_BODY -> 0 < msize m ->
    rx s = Some (RxBody, msize m) -> Pipe.instate (pipebase s) = Pipe.IN_ASYNC -> settled next s (header (msize m))
| settled_end m : next = Some m -> instate s = NN_STCP_INSTATE_HASMSG -> inmsg s = flat m ->
    rx s = None -> Pipe.instate (pipebase s) = Pipe.IN_IDLE -> settled next s (frame m).

Lemma tx_keep n u t s w u' ki go : tx_ok n u t -> ses n = s -> out_iov u' = out_iov u ->
  (no_task (os n) task_send -> no_task w task_send) -> tx_ok (Node s w ki go (kout n) (sent n)) u' t.
Proof.
  intros [T1 T2 T3 T4 T5 T6 T7] <- E Ht. constructor; cbn; rewrite ?E; auto.
Qed.

Lemma request_flows stream ms n s w u t j base ans :
  ses n = s -> os n = w -> sock_ok n u -> in_len u = 0 -> batch_ok u -> raised (ufsm u) ≡ₚ tx_events t ->
  no_task w task_recv -> tx_ok n u t -> (j <= length ms)%nat -> got n = flat <$> take j ms ->
  settled (ms !! j) s base -> kin n = frames (take j ms) ++ base ++ left u ->
  (forall dst len, rx s = Some (dst, len) -> next_bytes stream n u len ans) ->
  kin n `prefix_of` stream -> stream `prefix_of` frames ms ->
  exists n', request n s w ans = Ret n' /\ flows ms n' /\ got n' = got n /\ sent n' = sent n /\ kout n' = kout n /\
    kin n' `prefix_of` stream.
Proof.
  intros Es Ew So Hin Hb Hr Ht Tx Hj Hg Se Hk Hans Hpre Hms.
  assert (Hev : nn_fsm_event_active (ufsm u) EV_RECEIVED = false).
  { apply not_active. intros e He. rewrite Hr in He. destruct t; cbn in He; try by apply elem_of_nil in He.
    apply list_elem_of_singleton in He. by subst. }
  destruct So as [S1 S2 S3 S4 S5 S6]. rewrite Ew in S1. rewrite Ew in S4.
  assert (Ask : forall dst len cur0, rx s = Some (dst, len) -> 0 < len ->
    Pipe.instate (pipebase s) = Pipe.IN_ASYNC ->
    (forall buf, at_message (ms !! j) s buf (Some (dst, len)) (cur0 ++ buf)) -> base = cur0 ->
    exists n', request n s w ans = Ret n' /\ flows ms n' /\ got n' = got n /\ sent n' = sent n /\ kout n' = kout n /\
      kin n' `prefix_of` stream).
  { intros dst len cur0 Hrx Hlen Hp Hat ->.
    destruct (request_ok stream n s w u dst len ans) as (w' & u' & mode & new & E & Kp & As & G & R & Pre); try done.
    { by apply (Hans dst). }
    eexists. split; [exact E|]. split; [|done]. destruct Kp as [K1 K2 K3 K4 K5 K6]. destruct As as [A1 A2 A3].
    apply (flows_intro ms _ u' mode t).
    - constructor; cbn; [done | congruence | congruence | auto | by rewrite <-Es | by rewrite <-Es].
    - constructor; cbn; [done | | by etransitivity | | | done].
      + exists j, (cur0 ++ in_buf u'). rewrite Hrx, Hk, Hg. split; [done|]. split; [done|]. split; [apply Hat|].
        rewrite <-!app_assoc, G. done.
      + destruct mode; [exists dst, len; by rewrite Hrx | exists dst, len; by rewrite Hrx | done].
      + rewrite Hp. by destruct mode.
    - apply (tx_keep n u t); try done. by rewrite Ew.
    - rewrite R, Hr. apply Permutation_app_comm. }
  destruct Se as [B1 B2 B3 | m B0 B1 B2 B3 B4 | m B0 B1 B2 B3 B4].
  - apply (Ask RxHdr (hdr_size fl) []); [done | apply hdr_size_pos | done | | done]. intros buf. by constructor.
  - apply (Ask RxBody (msize m) (header (msize m))); [done | done | done | | done]. intros buf. by constructor.
  - unfold request. rewrite B3. eexists. split; [reflexivity|]. split; [|done]. apply (flows_intro ms _ u RxIdle t).
    + constructor; cbn; try done; by rewrite <-Es.
    + constructor; cbn; [done | | by etransitivity | done | done | done].
      exists j, (frame m). split; [done|]. split; [done|]. rewrite B3. split; [by constructor | done].
    + apply (tx_keep n u t); try done. by rewrite Ew.
    + by cbn.
Qed.

Section steps.
  Context (ms : list nn_msg) (stream : list Z).
  Context (Hms : stream `prefix_of` frames ms) (Hacc : Forall acceptable ms).

(** A step ends well. *)
Definition ends_well (o : outcome node) : Prop :=
  exists n', o = Ret n' /\ flows ms n' /\ kin n' `prefix_of` stream.

Lemma live_of n u : sock_ok n u -> live (ses n).
Proof. intros So. split; apply So. Qed.

Lemma get_at n u : sock_ok n u -> get (os n) p = Ret u.
Proof. intros So. apply get_ok, So. Qed.

Lemma feed_handler k (w : world K) u type : socks w !! p = Some u -> fsm_st (ufsm u) = FSM_ACTIVE ->
  feed k w p NN_USOCK_SRC_FD type = nn_usock_handler (usock_action 2 k) k w p NN_USOCK_SRC_FD type.
Proof.
  intros Hp Hf. unfold feed, nn_fsm_feed. cbn [fsm socket usock_object fn]. rewrite Hp, Hf. by rewrite decide_True.
Qed.

Lemma take_next j : (j <= length ms)%nat -> frames ms = frames (take j ms) ++ frames (drop j ms).
Proof. intros _. by rewrite <-frames_app, take_drop. Qed.

Lemma drop_next j m : ms !! j = Some m -> frames (drop j ms) = frame m ++ frames (drop (S j) ms).
Proof. intros E. unfold frames. by rewrite (drop_S _ _ _ E). Qed.

Lemma flow_take n ans : flows ms n -> kin n `prefix_of` stream -> legal stream n (LTake ans) -> ends_well (step n (LTake ans)).
Proof.
  intros [u r t So Rx Tx Hr] Hk [Hp Hans]. destruct Rx as [R1 (j & cur & Hj & Hg & At & Hkin) R3 R4 R5 R6].
  rewrite Hp in R5. destruct r; try done. destruct R4 as [Rn Rl]. rewrite Rn in At. inversion At as [ | | m Hm Hi Hmsg]; subst.
  assert (Hlive := live_of _ _ So).
  destruct (pipe_recv_ok (ses n) (flat m) Hlive Hi Hmsg Hp) as (s & E & [O1 O2 O3 O4] & E1 & E2 & E3).
  unfold step. rewrite E. cbn [mbind outcome_bind]. unfold good_answer in Hans. rewrite E in Hans. cbn in Hans.
  set (n1 := Node s (os n) (kin n) (got n ++ [flat m]) (kout n) (sent n)).
  destruct (request_flows stream ms n1 s (os n) u t (S j) [] ans) as (n' & En & F & Hg' & _ & _ & Pre);
    try done; try by apply So.
  - destruct So. constructor; try done; by apply O1.
  - by apply R6.
  - destruct Tx as [T1 T2 T3 T4 T5 T6 T7]. constructor; cbn; try done; by rewrite ?O3, ?O2, ?O4.
  - apply lookup_lt_Some in Hm. lia.
  - cbn. rewrite Hg. by rewrite (take_S_r _ _ _ Hm), fmap_app.
  - by constructor.
  - cbn. rewrite Hkin, (take_S_r _ _ _ Hm), frames_app. unfold frames at 3. cbn. by rewrite app_nil_r, <-!app_assoc.
  - intros dst len Hrx. apply (Hans s dst len u); try done. apply So.
  - exists n'. by split.
Qed.

Lemma flow_received n u r t rest ans :
  sock_ok n u -> rx_ok ms n u r -> tx_ok n u t -> r = RxReady -> rest ≡ₚ tx_events t -> kin n `prefix_of` stream ->
  good_answer stream n (usock_received fl protocol ispeer rcvmaxsize alloc_ok sock_add (ses n) (in_buf u)) ans ->
  let u1 := u ⦃ ufsm := Fsm (fsm_st (ufsm u)) rest ⦄ in
  ends_well (s ← usock_received fl protocol ispeer rcvmaxsize alloc_ok sock_add (ses n) (in_buf u);
             request n s (put (os n) p u1) ans).
Proof.
  intros So Rx Tx -> Hr Hk Hans u1. destruct Rx as [R1 (j & cur & Hj & Hg & At & Hkin) R3 (dst & len & Hrx & Hsz & Hil) R5 R6].
  assert (Hlive := live_of _ _ So).
  assert (Pre : cur ++ left u `prefix_of` frames (drop j ms)).
  { apply (prefix_cut (frames (take j ms))). rewrite <-take_next by done. by rewrite <-Hkin. }
  assert (So1 : forall s, rx_only (ses n) s -> sock_ok (Node s (put (os n) p u1) (kin n) (got n) (kout n) (sent n)) u1).
  { intros s [O1 _ _ _]. destruct So. destruct (O1 Hlive). constructor; try done. apply put_get. }
  assert (Tx1 : forall s, rx_only (ses n) s -> tx_ok (Node s (put (os n) p u1) (kin n) (got n) (kout n) (sent n)) u1 t).
  { intros s [O1 O2 O3 O4]. destruct Tx as [T1 T2 T3 T4 T5 T6 T7]. constructor; cbn; try done; by rewrite ?O3, ?O2, ?O4. }
  assert (Done : forall s base, usock_received fl protocol ispeer rcvmaxsize alloc_ok sock_add (ses n) (in_buf u) = Ret s ->
    rx_only (ses n) s -> settled (ms !! j) s base -> cur = base ->
    ends_well (request n s (put (os n) p u1) ans)).
  { intros s base E Ro Se ->.
    destruct (request_flows stream ms (Node s (put (os n) p u1) (kin n) (got n) (kout n) (sent n)) s (put (os n) p u1) u1 t j base ans)
      as (n' & En & F & _ & _ & _ & Pre'); try done; try by auto.
    - intros dst' len' Hrx'. apply (Hans s dst' len' u); try done. apply So.
    - exists n'. by split. }
  rewrite Hrx in At. inversion At as [Hi E1 E2 | m Hm Hi Hpos E1 E2 | ]; subst.
  - destruct (ms !! j) as [m|] eqn:Hm.
    2: { apply lookup_ge_None in Hm. rewrite drop_ge in Pre by lia. apply prefix_nil_inv in Pre. apply (f_equal size) in Pre.
         rewrite size_app in Pre. change (size []) with 0 in Pre. assert (H1 := size_nonneg (left u)). assert (H2 := hdr_size_pos). lia. }
    rewrite (drop_next _ _ Hm) in Pre. unfold frame in Pre.
    assert (Eh : in_buf u = header (msize m)).
    { apply (prefix_part _ _ (payload m ++ frames (drop (S j) ms))).
      - rewrite <-app_assoc in Pre. etransitivity; [|exact Pre]. by exists (left u).
      - by rewrite header_size. }
    assert (Ha : acceptable m) by (eapply Forall_lookup; eauto).
    rewrite Eh, ?header_size in *. destruct (received_header (ses n) m Hlive) as (s & E & Ro & C); try done.
    rewrite E. cbn [mbind outcome_bind].
    destruct C as [(C0 & C1 & C2 & C3 & C4) | (C0 & C1 & C2 & C3)].
    + apply (Done s (frame m)); [by rewrite E | done | by apply settled_end|].
      unfold frame. assert (Ep : payload m = []) by (apply size_0; by rewrite payload_size). by rewrite Ep, app_nil_r.
    + apply (Done s (header (msize m))); [by rewrite E | done | by apply settled_body | done].
  - rewrite (drop_next _ _ Hm) in Pre. unfold frame in Pre. rewrite <-!app_assoc in Pre. apply prefix_cut in Pre.
    assert (Eb : in_buf u = payload m).
    { apply (prefix_part _ _ (frames (drop (S j) ms))); [|by rewrite payload_size].
      etransitivity; [|exact Pre]. by exists (left u). }
    rewrite Eb, ?payload_size in *. destruct (received_body (ses n) m Hlive) as (s & E & Ro & C1 & C2 & C3 & C4); try done.
    rewrite E. cbn [mbind outcome_bind]. apply (Done s (frame m)); [by rewrite E | done | by apply settled_end | done].
Qed.

(** A session and a socket that differ in what concerns sending only keep [rx_ok]. *)
Lemma rx_keep n u r s w u' ko se :
  rx_ok ms n u r -> instate s = instate (ses n) -> rx s = rx (ses n) -> inmsg s = inmsg (ses n) ->
  Pipe.instate (pipebase s) = Pipe.instate (pipebase (ses n)) ->
  batch_ok u' -> in_buf u' = in_buf u -> in_len u' = in_len u -> left u' = left u ->
  (no_task (os n) task_recv -> no_task w task_recv) ->
  rx_ok ms (Node s w (kin n) (got n) ko se) u' r.
Proof.
  intros [R1 (j & cur & Hj & Hg & At & Hkin) R3 R4 R5 R6] E1 E2 E3 E4 Hb Eb El Ef Ht.
  constructor; cbn; rewrite ?E2, ?Eb, ?El, ?Ef, ?E4; auto.
  exists j, cur. split; [done|]. split; [done|]. split; [|done].
  inversion At as [Hi F1 F2 | m Hm Hi Hpos F1 F2 | m Hm Hi Hmsg F1 F2]; econstructor; eauto; congruence.
Qed.

Lemma flow_sent n u r t rest :
  sock_ok n u -> rx_ok ms n u r -> tx_ok n u t -> t = TxDone -> rest ≡ₚ rx_events r -> kin n `prefix_of` stream ->
  let u1 := u ⦃ ufsm := Fsm (fsm_st (ufsm u)) rest ⦄ in
  ends_well (s ← usock_sent fl protocol ispeer rcvmaxsize alloc_ok sock_add (ses n);
             Ret (Node s (put (os n) p u1) (kin n) (got n) (kout n) (sent n))).
Proof.
  intros So Rx Tx -> Hr Hk u1. destruct Tx as [T1 T2 T3 T4 T5 T6 T7].
  destruct (usock_sent_ok (ses n)) as (s & E & Hl & E1 & E2 & E3 & E4 & E5 & E6 & E7); [by apply (live_of _ _ So) | done | done |].
  rewrite E. cbn [mbind outcome_bind]. eexists. split; [reflexivity|]. split; [|done].
  apply (flows_intro ms _ u1 r TxIdle).
  - destruct So. destruct Hl. constructor; cbn; try done. apply lookup_insert_eq.
  - apply (rx_keep n u); try done. apply Rx.
  - constructor; cbn; try done; [by rewrite E2 | intros _; by apply T7].
  - cbn. by rewrite app_nil_r.
Qed.

Lemma flow_deliver n ans : flows ms n -> kin n `prefix_of` stream -> legal stream n (LDeliver ans) ->
  ends_well (step n (LDeliver ans)).
Proof.
  intros [u r t So Rx Tx Hr] Hk Hans. cbn in Hans. specialize (Hans u (so_at _ _ So)).
  unfold step, deliver. rewrite (get_at _ _ So). cbn [mbind outcome_bind].
  destruct (raised (ufsm u)) as [|[ev ty] rest] eqn:Er; cbn [mbind outcome_bind].
  { exists n. split; [done|]. split; [|done]. apply (flows_intro ms n u r t); try done. by rewrite Er. }
  set (u1 := u ⦃ ufsm := Fsm (fsm_st (ufsm u)) rest ⦄).
  assert (Gu : get (put (os n) p u1) p = Ret u1) by apply get_ok, put_get.
  assert (Hin : (ev, ty) ∈ rx_events r ++ tx_events t) by (rewrite <-Hr; constructor).
  apply elem_of_app in Hin as [Hin | Hin].
  - destruct r; cbn in Hin; try by apply elem_of_nil in Hin. apply list_elem_of_singleton in Hin. injection Hin as -> ->.
    change (NN_USOCK_RECEIVED =? NN_USOCK_RECEIVED) with true. cbn match. rewrite Gu. cbn [mbind outcome_bind].
    change (in_buf u1) with (in_buf u). apply (flow_received n u RxReady t rest); try done.
    by apply Permutation_cons_inv in Hr.
  - destruct t; cbn in Hin; try by apply elem_of_nil in Hin. apply list_elem_of_singleton in Hin. injection Hin as -> ->.
    change (NN_USOCK_SENT =? NN_USOCK_RECEIVED) with false. change (NN_USOCK_SENT =? NN_USOCK_SENT) with true. cbn match.
    apply (flow_sent n u r TxDone rest); try done.
    rewrite Permutation_app_comm in Hr. by apply Permutation_cons_inv in Hr.
Qed.

Lemma not_received r t u : raised (ufsm u) ≡ₚ rx_events r ++ tx_events t -> r <> RxReady ->
  nn_fsm_event_active (ufsm u) EV_RECEIVED = false.
Proof.
  intros Hr Hn. apply not_active. intros e He. rewrite Hr in He. destruct r, t; try done; cbn in He;
    apply list_elem_of_singleton in He || apply elem_of_nil in He; by subst.
Qed.

Lemma not_sent r t u : raised (ufsm u) ≡ₚ rx_events r ++ tx_events t -> t <> TxDone ->
  nn_fsm_event_active (ufsm u) EV_SENT = false.
Proof.
  intros Hr Hn. apply not_active. intros e He. rewrite Hr in He. destruct r, t; try done; cbn in He;
    apply list_elem_of_singleton in He || apply elem_of_nil in He; by subst.
Qed.

Lemma flow_in n k : flows ms n -> kin n `prefix_of` stream -> legal stream n (LIn k) -> ends_well (step n (LIn k)).
Proof.
  intros [u r t So Rx Tx Hr] Hk (Hnt & u' & Hu' & Hpos & Hans). rewrite (so_at _ _ So) in Hu'. injection Hu' as <-.
  destruct Hans as [A Pre]. destruct Rx as [R1 (j & cur & Hj & Hg & At & Hkin) R3 R4 R5 R6].
  destruct r; [| destruct R4 as (? & ? & _ & _ & ?); lia | destruct R4; lia].
  destruct R4 as (dst & len & Hrx & Hsz & _ & Hleft).
  assert (Hev := not_received _ _ _ Hr ltac:(done)).
  destruct So as [S1 S2 S3 S4 S5 S6].
  destruct (fd_in_ok (os n) k (usock_action 2 k) p u) as
    (w & u' & E & Hp & St & Ok & Out & As & G & Sz & Hh & Ht & Hrun & Hf & M); try done.
  unfold step. rewrite (get_ok _ _ _ S1). cbn [mbind outcome_bind]. rewrite (feed_handler k _ u), E by done.
  cbn [mbind outcome_bind]. eexists. split; [reflexivity|]. cbn. split; [|done].
  set (mode := if decide (in_len u' = 0) then RxReady else RxWaiting).
  apply (flows_intro ms _ u' mode t).
  - constructor; cbn; try done. by rewrite Hf.
  - constructor; cbn; [done | | by etransitivity | | | ].
    + exists j. rewrite Hrx in *. inversion At as [Hi F1 F2 | m Hm Hi Hpo F1 F2 | ]; subst.
      * exists (in_buf u'). do 2 (split; [done|]). split; [by apply at_hdr|]. by rewrite Hkin, Hleft, app_nil_r, <-app_assoc, G.
      * exists (header (msize m) ++ in_buf u'). do 2 (split; [done|]). split.
        -- by constructor.
        -- by rewrite Hkin, Hleft, app_nil_r, <-!app_assoc, G.
    + unfold mode. destruct (decide _) as [D | D]; destruct M as [(M1 & M2) | (M1 & M2 & M3)]; try lia;
        exists dst, len; (split; [exact Hrx|]); auto with lia.
    + unfold mode. by destruct (decide _).
    + intros _. unfold no_task, queued in *. by rewrite Ht, Hrun.
  - apply (tx_keep n u t); try done. unfold no_task, queued. by rewrite Ht, Hrun.
  - unfold mode. destruct (decide _) as [D | D]; destruct M as [(M1 & M2) | (M1 & M2 & M3)]; try lia.
    + rewrite M2, Hr. cbn. symmetry. apply Permutation_cons_append.
    + by rewrite M3, Hr.
Qed.

Lemma flow_out n k : flows ms n -> kin n `prefix_of` stream -> legal stream n (LOut k) -> ends_well (step n (LOut k)).
Proof.
  intros [u r t So Rx Tx Hr] Hk (Hnt & u' & Hu' & Hne & A). rewrite (so_at _ _ So) in Hu'. injection Hu' as <-.
  destruct Tx as [T1 T2 T3 T4 T5 T6 T7]. destruct t; [done | | done].
  assert (Hev := not_sent _ _ _ Hr ltac:(done)). destruct So as [S1 S2 S3 S4 S5 S6].
  destruct (fd_out_ok (os n) k (usock_action 2 k) p u) as (w & rest & E & So' & G & Hh & Ht & Hrun & M); try done.
  unfold step. rewrite (get_ok _ _ _ S1). cbn [mbind outcome_bind]. rewrite (feed_handler k _ u), E by done.
  cbn [mbind outcome_bind]. eexists. split; [reflexivity|]. split; [|done].
  assert (Tk : forall x, no_task (os n) x -> no_task w x) by (intros x; unfold no_task, queued; by rewrite Ht, Hrun).
  destruct M as [(M1 & M2) | (M1 & M2)].
  - apply (flows_intro ms _ (u ⦃ out_iov := rest ⦄ ⦃ ufsm := Fsm (fsm_st (ufsm u))
      (raised (ufsm u) ++ [(EV_SENT, NN_USOCK_SENT)]) ⦄) r TxDone).
    + constructor; [exact M2 | done..].
    + apply (rx_keep n u); try done; [apply Rx | apply Tk].
    + constructor; cbn; try done; [by rewrite <-app_assoc, <-G | by intros _; apply Tk].
    + cbn. rewrite Hr. cbn. by rewrite app_nil_r.
  - apply (flows_intro ms _ (u ⦃ out_iov := rest ⦄) r TxPending).
    + constructor; [exact M2 | done..].
    + apply (rx_keep n u); try done; [apply Rx | apply Tk].
    + constructor; cbn; try done. by rewrite <-app_assoc, <-G.
    + done.
Qed.

Lemma flow_put n msg nbytes : flows ms n -> kin n `prefix_of` stream -> legal stream n (LPut msg nbytes) ->
  ends_well (step n (LPut msg nbytes)).
Proof.
  intros [u r t So Rx Tx Hr] Hk (Hp & Hsz & A). destruct Tx as [T1 T2 T3 T4 T5 T6 T7].
  rewrite Hp in T6. destruct t; [|done..].
  destruct (pipe_send_ok (ses n) msg) as (s & E & E0 & Hl & E1 & E2 & E3 & E4 & E5 & E6 & E7); try done;
    [by apply (live_of _ _ So)|].
  unfold step. rewrite E. cbn [mbind outcome_bind]. rewrite E0.
  destruct So as [S1 S2 S3 S4 S5 S6].
  assert (Ec : concat [header (msize msg); sphdr msg; body msg] = frame msg) by (cbn; by rewrite app_nil_r).
  destruct (usock_send_ok (os n) p u [header (msize msg); sphdr msg; body msg] nbytes) as
    (w & rest & Ew & So' & G & Hh & Hrun & M); try done.
  { unfold taken_answer. rewrite Ec, frame_size. unfold msize. destruct A; [by left | right; lia]. }
  { by apply (not_sent _ _ _ Hr). }
  { by apply T7. }
  rewrite Ew. cbn [mbind outcome_bind]. eexists. split; [reflexivity|]. split; [|done].
  assert (Hk' : (kout n ++ to_kernel [header (msize msg); sphdr msg; body msg] nbytes) ++ concat rest = frames (sent n ++ [msg])).
  { rewrite <-app_assoc, <-G, Ec, frames_app. unfold frames at 2. cbn. rewrite app_nil_r. f_equal.
    rewrite T4 in T2. cbn in T2. by rewrite app_nil_r in T2. }
  destruct Hl as [L1 L2]. destruct M as [(M1 & M2 & M3) | (M1 & M2 & M3)].
  - apply (flows_intro ms _ (u ⦃ out_iov := rest ⦄ ⦃ ufsm := Fsm (fsm_st (ufsm u))
      (raised (ufsm u) ++ [(EV_SENT, NN_USOCK_SENT)]) ⦄) r TxDone).
    + constructor; [exact M3 | done | done | cbn; by rewrite Hh | done | done].
    + apply (rx_keep n u); try done; [apply Rx|]. unfold no_task, queued. by rewrite M2, Hrun.
    + constructor; cbn; try done. intros _. unfold no_task, queued. rewrite M2, Hrun. by apply T7.
    + cbn. rewrite Hr. cbn. by rewrite app_nil_r.
  - apply (flows_intro ms _ (u ⦃ out_iov := rest ⦄) r TxPending).
    + constructor; [exact M3 | done | done | cbn; by rewrite Hh | done | done].
    + apply (rx_keep n u); try done; [apply Rx|]. unfold no_task, queued. rewrite M2, Hrun.
      intros Hn%bool_decide_eq_false. apply bool_decide_eq_false. revert Hn. rewrite !elem_of_app.
      intros Hn [[Hi | Hi] | Hi]; [tauto | | tauto]. apply list_elem_of_singleton in Hi. done.
    + constructor; cbn; try done.
    + done.
Qed.

Lemma flow_other n w : flows ms n -> kin n `prefix_of` stream -> legal stream n (LOther w) -> ends_well (step n (LOther w)).
Proof.
  intros [u r t So Rx Tx Hr] Hk (Hs & Hh & Ht). eexists. split; [reflexivity|]. split; [|done].
  apply (flows_intro ms _ u r t); [| | |done].
  - destruct So. constructor; cbn; try done. by rewrite Hs.
  - apply (rx_keep n u); try done; [apply Rx | apply Ht].
  - apply (tx_keep n u t); try done. apply Ht.
Qed.

Lemma step_flows n l : flows ms n -> kin n `prefix_of` stream -> legal stream n l -> ends_well (step n l).
Proof.
  destruct l; [apply flow_take | apply flow_put | apply flow_deliver | apply flow_in | apply flow_out | apply flow_other].
Qed.

Lemma run_flows n ls : flows ms n -> kin n `prefix_of` stream -> legal_run stream n ls -> ends_well (run n ls).
Proof.
  intros F Hk L. revert F Hk. induction L as [n | n l ls Hl Hls IH]; intros F Hk; cbn.
  - by exists n.
  - destruct (step_flows n l F Hk Hl) as (n1 & E & F1 & Hk1). rewrite E. cbn [mbind outcome_bind].
    by apply IH.
Qed.

(** *** From the end of the header exchange on *)

(** The session waits to hear that its header exchange has stopped, and nothing
    is going on in the socket; some of the peer's bytes may be in its batch
    buffer already. *)
Record opening (s : nn_stcp) (w : world K) (u : nn_usock) : Prop := {
  op_state : Stcp.state s = NN_STCP_STATE_STOPPING_STREAMHDR;
  op_fsm : fsm_st (sfsm s) = FSM_ACTIVE;
  op_event : raised (Streamhdr.hfsm (streamhdr s)) = [(0, Streamhdr.NN_STREAMHDR_STOPPED)];
  op_pipe : Pipe.state (pipebase s) = Pipe.P_IDLE;
  op_core : 0 <= sock_add;
  op_hdr : size (outhdr s) = hdr_size fl;
  op_at : socks w !! p = Some u;
  op_active : Usock.state u = NN_USOCK_STATE_ACTIVE;
  op_ufsm : ufsm u = Fsm FSM_ACTIVE [];
  op_hndl : is_Some (hndls (poller w) !! p);
  op_batch : batch_ok u;
  op_in : in_len u = 0;
  op_out : out_iov u = [];
  op_tasks : no_task w task_recv /\ no_task w task_send
}.

Definition connection (s : nn_stcp) (w : world K) (ans : recv_answer) (ls : list label) : outcome node :=
  n ← open s w ans; run n ls.

(** What the kernel gives are the next bytes of [stream], from the start. *)
Record legal_connection (s : nn_stcp) (w : world K) (ans : recv_answer) (ls : list label) : Prop := {
  lc_opening : exists u, opening s w u /\ left u `prefix_of` stream /\
    next_bytes stream (Node s w (left u) [] [] []) u (hdr_size fl) ans;
  lc_run n : open s w ans = Ret n -> legal_run stream n ls
}.

Lemma open_flows s w u ans : opening s w u -> left u `prefix_of` stream ->
  next_bytes stream (Node s w (left u) [] [] []) u (hdr_size fl) ans -> ends_well (open s w ans).
Proof.
  intros [O1 O2 O3 O4 O5 O6 O7 O8 O9 O10 O11 O12 O13 [O14 O15]] Pre [A B].
  unfold open. rewrite (get_ok _ _ _ O7). cbn [mbind outcome_bind]. unfold streamhdr_event. rewrite O3.
  set (s1 := s ⦃ streamhdr := _ ⦄). unfold Stcp.stcp_feed, nn_fsm_feed. cbn [fsm Stcp.stcp_object fn].
  assert (F1 : sfsm s1 = sfsm s) by by destruct s. rewrite F1, O2, decide_True by done.
  unfold Stcp.nn_stcp_handler. assert (F2 : Stcp.state s1 = Stcp.state s) by by destruct s. rewrite F2, O1.
  change ((Stcp.NN_STCP_SRC_STREAMHDR =? Stcp.NN_STCP_SRC_STREAMHDR) &&
    (Streamhdr.NN_STREAMHDR_STOPPED =? Streamhdr.NN_STREAMHDR_STOPPED)) with true. cbn match.
  unfold Pipe.nn_pipebase_start. assert (F3 : pipebase s1 = pipebase s) by by destruct s. rewrite F3, O4.
  rewrite bool_decide_eq_true_2 by done. cbn [check mbind outcome_bind]. rewrite (proj2 (Z.ltb_ge _ _)) by done.
  cbn [mbind outcome_bind]. change (0 <? 0) with false. cbn match. cbn [mbind outcome_bind].
  set (s2 := _ ⦃ Stcp.state := _ ⦄). set (n := Node s2 w (left u) [] [] []).
  destruct (request_flows stream ms n s2 w u TxIdle 0 [] ans) as (n' & E & F & _ & _ & _ & Pre'); try done.
  - constructor; try done; [by rewrite O9 | by subst n s2 s1; destruct s..].
  - by rewrite O9.
  - constructor; try done; [rewrite O13; by apply Forall_nil | by rewrite O13].
  - lia.
  - by constructor; subst s2 s1; destruct s.
  - intros dst len Hrx. assert (rx s2 = Some (RxHdr, hdr_size fl)) as Hrx' by by subst s2 s1; destruct s.
    rewrite Hrx' in Hrx. by injection Hrx as <- <-.
  - exists n'. by split.
Qed.

Lemma connection_flows s w ans ls : legal_connection s w ans ls -> ends_well (connection s w ans ls).
Proof.
  intros [(u & Op & Pre & Nx) Lr]. destruct (open_flows s w u ans Op Pre Nx) as (n & E & F & Hk).
  unfold connection. rewrite E. cbn [mbind outcome_bind]. by apply run_flows, Lr.
Qed.

(** No event waits and no message does: the session waits for bytes. *)
Definition drained (n : node) : Prop :=
  Pipe.instate (pipebase (ses n)) = Pipe.IN_ASYNC /\
  forall u, socks (os n) !! p = Some u -> raised (ufsm u) = [].

Lemma flows_got n : flows ms n ->
  (exists j, got n = flat <$> take j ms) /\ (drained n -> kin n = frames ms -> got n = flat <$> ms).
Proof.
  intros [u r t So Rx Tx Hr]. destruct Rx as [R1 (j & cur & Hj & Hg & At & Hkin) R3 R4 R5 R6]. split; [by exists j|].
  intros [Di De] Hall. specialize (De u (so_at _ _ So)). rewrite De in Hr. symmetry in Hr. apply Permutation_nil_r in Hr.
  destruct r; [| by destruct t | by rewrite R5 in Di]. destruct R4 as (dst & len & Hrx & Hsz & Hil & Hleft).
  assert (Hrest : cur = frames (drop j ms)).
  { rewrite Hleft, app_nil_r, Hall, (take_next j) in Hkin by done. by apply app_inv_head in Hkin. }
  rewrite Hg. destruct (ms !! j) as [m|] eqn:Hm; [exfalso|].
  - rewrite (drop_next _ _ Hm) in Hrest. apply (f_equal size) in Hrest. rewrite size_app, frame_size in Hrest.
    assert (H1 := size_nonneg (frames (drop (S j) ms))). assert (H2 := msize_nonneg m).
    rewrite Hrx in At. inversion At as [Hi F1 F2 | m' Hm' Hi Hpo F1 F2 | ]; subst.
    + lia.
    + injection Hm' as <-. rewrite size_app, header_size in Hrest. lia.
  - apply lookup_ge_None in Hm. by rewrite take_ge.
Qed.

Lemma flows_sent n : flows ms n ->
  kout n `prefix_of` frames (sent n) /\
  (Pipe.outstate (pipebase (ses n)) = Pipe.OUT_IDLE -> kout n = frames (sent n)).
Proof.
  intros [u r t So Rx Tx Hr]. destruct Tx as [T1 T2 T3 T4 T5 T6 T7]. split; [by eexists|].
  intros Hp. rewrite Hp in T6. destruct t; [|done..]. by rewrite <-T2, T4, app_nil_r.
Qed.
End steps.
End node.

(** ** Two ends of a connection *)

(** C10.  Whatever one end of a TCP or IPC connection has been given to send, the
    other end hands over: no step of either end fails, in whatever pieces the
    kernels take and give the bytes and however the events of socket, worker and
    core follow on each other; what the second end has handed over are the first
    of the messages, in order, each with its two parts joined; and when the pipe
    of the first end is free again, all bytes it gave away have arrived, and the
    second end has nothing left to do, it is all of them. *)
Theorem stream_delivers {KA KB : Type} `{Epoll KA} `{Epoll KB} (fl : flavour)
    ispA rcvA allocA coreA protoA pA ispB rcvB allocB coreB protoB pB
    (msA : list nn_msg) (fromB : list Z) sA (wA : world KA) ansA lsA :
  fromB `prefix_of` frames fl msA -> Forall (acceptable fl rcvA allocA) msA ->
  legal_connection fl ispA rcvA allocA coreA protoA pA fromB sA wA ansA lsA ->
  exists nA, connection fl ispA rcvA allocA coreA protoA pA sA wA ansA lsA = Ret nA /\
    forall sB (wB : world KB) ansB lsB,
    Forall (acceptable fl rcvB allocB) (sent nA) ->
    legal_connection fl ispB rcvB allocB coreB protoB pB (kout nA) sB wB ansB lsB ->
    exists nB, connection fl ispB rcvB allocB coreB protoB pB sB wB ansB lsB = Ret nB /\
      (exists j, got nB = flat <$> take j (sent nA)) /\
      (Pipe.outstate (pipebase (ses nA)) = Pipe.OUT_IDLE -> drained pB nB -> kin nB = kout nA ->
       got nB = flat <$> sent nA).
Proof.
  intros PA AccA LA.
  destruct (connection_flows fl ispA rcvA allocA coreA protoA pA msA fromB PA AccA sA wA ansA lsA LA) as (nA & EA & FA & _).
  exists nA. split; [exact EA|]. intros sB wB ansB lsB AccB LB.
  destruct (flows_sent fl pA msA nA FA) as [PB Idle].
  destruct (connection_flows fl ispB rcvB allocB coreB protoB pB (sent nA) (kout nA) PB AccB sB wB ansB lsB LB) as (nB & EB & FB & _).
  exists nB. split; [exact EB|]. destruct (flows_got fl pB (sent nA) nB FB) as [G1 G2]. split; [exact G1|].
  intros Hi Hd Hk. apply G2; [exact Hd|]. by rewrite Hk, Idle.
Qed.

(** *** An example: one message, taken and given in pieces *)

Definition example_hdr : Streamhdr.nn_streamhdr :=
  Streamhdr.nn_streamhdr_init ⦃ Streamhdr.hfsm := Fsm FSM_IDLE [(0, Streamhdr.NN_STREAMHDR_STOPPED)] ⦄.
Definition example_session : nn_stcp :=
  (Stcp.nn_stcp_init TCP (Pipe.EpOptions 8 8 1)) ⦃ Stcp.sfsm := Fsm FSM_ACTIVE [] ⦄
    ⦃ Stcp.state := Stcp.NN_STCP_STATE_STOPPING_STREAMHDR ⦄ ⦃ Stcp.usock := true ⦄ ⦃ Stcp.usock_owner := true ⦄
    ⦃ Stcp.streamhdr := example_hdr ⦄.
Definition example_world : world (gmap Z epoll_event) :=
  World {[ 2%positive := (nn_usock_init ⦃ state := NN_USOCK_STATE_ACTIVE ⦄ ⦃ ufsm := Fsm FSM_ACTIVE [] ⦄ ⦃ s := 7 ⦄) ]}
    (Poller {[ 7 := Ev 0 2%positive ]} [] 0 {[ 2%positive := Hndl 7 0 ]}) [] [] false true ∅.


(** The worker does the tasks that are queued. *)
Definition worked (w : world (gmap Z epoll_event)) : world (gmap Z epoll_event) :=
  match (w ← worker_task (w ⦃ running := tasks w ⦄ ⦃ tasks := [] ⦄); worker_task w) with Ret w => w | _ => w end.
Definition io (got : recv_answer) (taken : Z) : answers := Answers 0 got taken 0 true.
Definition after (o : outcome (node (K := gmap Z epoll_event))) 
    : world (gmap Z epoll_event) := match o with Ret n => os n | _ => example_world end.
(** The session over a kernel that is a table, from the end of the header exchange on. *)
Abbreviation conn := (connection TCP (fun _ => true) 1024 (fun _ => true) 0 16 2%positive example_session example_world).
Abbreviation nothing := (RecvErr EAGAIN).
Definition msg1 : nn_msg := Msg [1; 2] [3; 4; 5].
Definition wire1 : list Z := [0; 0; 0; 0; 0; 0; 0; 5; 1; 2; 3; 4; 5].
Definition lsA1 : list (label (K := gmap Z epoll_event)) := [LPut msg1 4].
Definition lsA : list (label (K := gmap Z epoll_event)) :=
  lsA1 ++ [LOther (worked (after (conn nothing lsA1))); LOut (io nothing 9); LDeliver nothing].
Definition ansB : recv_answer := Got (take 5 wire1) [].
Definition lsB : list (label (K := gmap Z epoll_event)) :=
  [LOther (worked (after (conn ansB []))); LIn (io (Got (drop 5 wire1) []) 0); LDeliver nothing; LDeliver nothing; LTake nothing].

Ltac next_step := intros n' E; vm_compute in E; injection E as <-; constructor.

Lemma opening_ok : exists u, opening TCP 0 2%positive example_session example_world u /\ left u = [].
Proof.
  eexists. split; [|]. { constructor; try reflexivity; try (split; reflexivity); try (by vm_compute; eexists); try done. }
  reflexivity.
Qed.

Lemma legal_A : legal_connection TCP (fun _ => true) 1024 (fun _ => true) 0 16 2%positive [] example_session example_world nothing lsA.
Proof.
  split.
  - destruct opening_ok as (u & Op & L). exists u. split; [done|]. rewrite L. split; [done|]. split; [done|].
    unfold from_kernel. destruct (asks_kernel u _); done.
  - intros n E. vm_compute in E. injection E as <-.
    constructor. { split; [reflexivity|]. split; [reflexivity|]. right. split; [discriminate | discriminate]. }
    next_step.
    { split; [reflexivity|]. split; [vm_compute; eauto|]. intros t Ht. destruct t; vm_compute in *; done. }
    next_step.
    { split; [reflexivity|]. eexists. split; [reflexivity|]. split; [discriminate|]. right. split; discriminate. }
    next_step.
    { intros u Hu s' dst len u' E. vm_compute in Hu. injection Hu as <-. vm_compute in E. done. }
    intros n' E. constructor.
Qed.

Lemma legal_B : legal_connection TCP (fun _ => true) 1024 (fun _ => true) 0 16 2%positive wire1 example_session example_world ansB lsB.
Proof.
  split.
  - destruct opening_ok as (u & Op & L). exists u. split; [done|]. rewrite L. split; [by eexists|].
    pose proof (op_at _ _ _ _ _ _ Op) as Hu. vm_compute in Hu. injection Hu as <-. split; [split; reflexivity || discriminate |]. by eexists.
  - intros n E. vm_compute in E. injection E as <-.
    constructor. { split; [reflexivity|]. split; [vm_compute; eauto|]. intros t Ht. destruct t; vm_compute in *; done. }
    next_step.
    { split; [reflexivity|]. eexists. split; [reflexivity|]. split; [reflexivity|]. split; [split; reflexivity || discriminate|]. by eexists. }
    next_step.
    { intros u Hu s' dst len u' E. vm_compute in Hu. injection Hu as <-. vm_compute in E. injection E as <-. intros E Hu. vm_compute in E, Hu.
      injection E as <- <-. injection Hu as <-. split; [reflexivity|]. by eexists. }
    next_step.
    { intros u Hu s' dst len u' E. vm_compute in Hu. injection Hu as <-. vm_compute in E. injection E as <-. intros E Hu. vm_compute in E. done. }
    next_step.
    { split; [reflexivity|]. intros s' dst len u' E. vm_compute in E. injection E as <-. intros E Hu. vm_compute in E, Hu.
      injection E as <- <-. injection Hu as <-. split; [reflexivity|]. by eexists. }
    intros n' E. constructor.
Qed.

Lemma stream_delivers_witness : exists nA nB, conn nothing lsA = Ret nA /\ conn ansB lsB = Ret nB /\
  kout nA = wire1 /\ got nB = [Msg [] [1; 2; 3; 4; 5]].
Proof.
  destruct (stream_delivers TCP (fun _ => true) 1024 (fun _ => true) 0 16 2%positive (fun _ => true) 1024 (fun _ => true) 0 16
    2%positive [] [] example_session example_world nothing lsA) as (nA & EA & FB); [done | constructor | exact legal_A |].
  assert (EA' := EA). vm_compute in EA'. injection EA' as EA'.
  destruct (FB example_session example_world ansB lsB) as (nB & EB & _ & All).
  - rewrite <-EA'. constructor; [|constructor]. split; [reflexivity|]. split; [reflexivity|]. intros _ _. discriminate.
  - rewrite <-EA'. exact legal_B.
  - exists nA, nB. split; [exact EA|]. split; [exact EB|]. assert (EB' := EB). vm_compute in EB'. injection EB' as EB'.
    split; [by rewrite <-EA'|]. rewrite All; [by rewrite <-EA' | by rewrite <-EA' | | by rewrite <-EA', <-EB'].
    rewrite <-EB'. split; [reflexivity|]. intros u Hu. vm_compute in Hu. by injection Hu as <-.
Defined.
