(* ===== verification/Sipc.v ===== *)
(** * Sipc: the session of the IPC transport (src/transports/ipc/sipc.c)

    sipc.c is stcp.c with one byte more in the header of a message and without the
    look at [NN_RCVMAXSIZE]; its functions are those of Stcp.v for the flavour
    [IPC], named here.  What a peer may announce in the header of a message, and
    what comes of it, is where the two differ: [announced_size]. *)

From stdpp Require Import base list.
From Stdlib Require Import ZArith Lia.
From S2P Require Import Prelude.
From S2P Require Import Update.
From S2P Require Import Wire.
From S2P Require Import Message.
From S2P Require Import Fsm.
From S2P Require Pipe.
From S2P Require Import Stcp.
From S2P Require StcpTrip.

Open Scope Z_scope.

(** ** The functions *)

Definition nn_sipc_init (opts : Pipe.nn_ep_options) : nn_stcp := nn_stcp_init IPC opts.
Definition nn_sipc_term (self : nn_stcp) : outcome unit := nn_stcp_term self.
Definition nn_sipc_isidle (self : nn_stcp) : bool := nn_stcp_isidle self.

Section sipc.
  Context (protocol : Z) (ispeer : Z -> bool) (alloc_ok : Z -> bool) (sock_add : Z).

(** The option [NN_RCVMAXSIZE] has no place here: any value will do. *)
Definition nn_sipc_start (self : nn_stcp) : outcome nn_stcp := nn_stcp_start IPC protocol ispeer (-1) alloc_ok sock_add self.
Definition nn_sipc_stop (self : nn_stcp) : outcome nn_stcp := nn_stcp_stop IPC protocol ispeer (-1) alloc_ok sock_add self.
Definition nn_sipc_shutdown (self : nn_stcp) (src type : Z) : outcome nn_stcp := nn_stcp_shutdown ispeer self src type.
Definition nn_sipc_handler (self : nn_stcp) (src type : Z) : outcome nn_stcp :=
  nn_stcp_handler IPC protocol ispeer (-1) alloc_ok sock_add self src type.
End sipc.

Definition nn_sipc_send (self : nn_stcp) (msg : nn_msg) : outcome nn_stcp := nn_stcp_send IPC self msg.
Definition nn_sipc_recv (self : nn_stcp) : outcome (nn_stcp * nn_msg) := nn_stcp_recv IPC self.

(** ** What a peer announces *)

(** A session that waits for the header of the next message. *)
Record waiting (self : nn_stcp) : Prop := {
  waiting_state : state self = NN_STCP_STATE_ACTIVE;
  waiting_fsm : sfsm self = Fsm FSM_ACTIVE [];
  waiting_in : instate self = NN_STCP_INSTATE_HDR
}.

Section announced.
  Context (protocol : Z) (ispeer : Z -> bool) (alloc_ok : Z -> bool) (sock_add : Z).

(** The session gets these bytes as the header of a message. *)
Definition announce (fl : flavour) (rcvmaxsize : Z) (self : nn_stcp) (hdr : list Z) : outcome nn_stcp :=
  usock_received fl protocol ispeer rcvmaxsize alloc_ok sock_add (self ⦃ rx := Some (RxHdr, hdr_size fl) ⦄) hdr.

Lemma announce_eq fl rcvmaxsize self hdr : waiting self -> size hdr = hdr_size fl ->
  announce fl rcvmaxsize self hdr = received_hdr fl rcvmaxsize alloc_ok (self ⦃ rx := None ⦄ ⦃ inhdr := hdr ⦄).
Proof.
  intros [E1 E2 E3] Hs. unfold announce, usock_received, usock_fill. destruct self. cbn in *. subst.
  rewrite Hs, Z.eqb_refl. reflexivity.
Qed.

(** C40.  What a peer may announce.  A TCP session with a limit closes the
    connection with an error when a message longer than the limit is announced,
    and allocates nothing for it; any other message is allocated and its body
    asked for.  An IPC session allocates whatever the peer announces: the option
    [NN_RCVMAXSIZE] does not count, whatever its value.  Where the allocation
    fails the process is aborted, and an IPC peer aborts it with one byte: a
    header that does not begin with the type of a normal message. *)
Theorem announced_size (self : nn_stcp) (rcvmaxsize len : Z) (kind : Z) :
  waiting self -> 0 < len < 2 ^ 64 ->
  (0 <= rcvmaxsize < len -> exists s, announce TCP rcvmaxsize self (be_digits 8 len) = Ret s /\
    state s = NN_STCP_STATE_DONE /\ raised (sfsm s) = [(EV_DONE, NN_STCP_ERROR)] /\ rx s = None /\ insize s = insize self) /\
  (rcvmaxsize < 0 \/ len <= rcvmaxsize -> alloc_ok len = true -> exists s, announce TCP rcvmaxsize self (be_digits 8 len) = Ret s /\
    state s = NN_STCP_STATE_ACTIVE /\ rx s = Some (RxBody, len) /\ insize s = len) /\
  (kind = NN_SIPC_MSG_NORMAL -> alloc_ok len = true -> exists s, announce IPC rcvmaxsize self (kind :: be_digits 8 len) = Ret s /\
    state s = NN_STCP_STATE_ACTIVE /\ rx s = Some (RxBody, len) /\ insize s = len) /\
  (alloc_ok len = false -> announce IPC rcvmaxsize self (NN_SIPC_MSG_NORMAL :: be_digits 8 len) = Abort) /\
  (kind <> NN_SIPC_MSG_NORMAL -> announce IPC rcvmaxsize self (kind :: be_digits 8 len) = Abort).
Proof.
  intros W Hl. assert (S8 : forall k, size (k :: be_digits 8 len) = hdr_size IPC) by done.
  assert (G : nn_getll (be_digits 8 len) = Ret len) by (apply StcpTrip.getll_digits; lia).
  assert (N0 : (len =? 0) = false) by lia. assert (W' := W). destruct W' as [E1 E2 E3].
  assert (GI : get_header IPC rcvmaxsize (NN_SIPC_MSG_NORMAL :: be_digits 8 len) = Ret (Some len)).
  { unfold get_header. change (drop 1 (NN_SIPC_MSG_NORMAL :: be_digits 8 len)) with (be_digits 8 len). rewrite G. reflexivity. }
  assert (Eh : forall hdr, inhdr (self ⦃ rx := None ⦄ ⦃ inhdr := hdr ⦄) = hdr) by (intros; by destruct self).
  assert (Go : forall fl hdr, size hdr = hdr_size fl -> get_header fl rcvmaxsize hdr = Ret (Some len) -> alloc_ok len = true ->
    exists s, announce fl rcvmaxsize self hdr = Ret s /\
      state s = NN_STCP_STATE_ACTIVE /\ rx s = Some (RxBody, len) /\ insize s = len).
  { intros fl hdr Hs Hg Ha. rewrite announce_eq by done. unfold received_hdr. rewrite Eh, Hg. cbn [mbind outcome_bind].
    rewrite Ha. cbn [check mbind outcome_bind]. rewrite N0. destruct self. cbn in E1, E2, E3. subst. by eexists. }
  split; [|split; [|split; [|split]]].
  - intros Hr. rewrite announce_eq by done. unfold received_hdr. rewrite Eh. unfold get_header. rewrite G. cbn [mbind outcome_bind].
    rewrite (proj2 (Z.geb_le rcvmaxsize 0)), (proj2 (Z.gtb_lt len rcvmaxsize)) by lia. destruct self. cbn in E1, E2, E3. subst. by eexists.
  - intros Hr. apply Go; [done|]. unfold get_header. rewrite G. cbn [mbind outcome_bind].
    destruct (Z.geb_spec rcvmaxsize 0); [|done]. by assert ((len >? rcvmaxsize) = false) as -> by lia.
  - intros ->. apply Go; [done | exact GI].
  - intros Ha. rewrite announce_eq by done. unfold received_hdr. rewrite Eh, GI. cbn [mbind outcome_bind]. by rewrite Ha.
  - intros Hk. rewrite announce_eq by done. unfold received_hdr. rewrite Eh. unfold get_header.
    change (nth_c (kind :: be_digits 8 len) 0) with (Ret kind). cbn [mbind outcome_bind].
    by rewrite (proj2 (Z.eqb_neq _ _) Hk).
Qed.
End announced.

(** A session that waits for a message. *)
Definition waiting_session : nn_stcp :=
  let s := nn_sipc_init (Pipe.EpOptions 8 8 1) in
  s ⦃ state := NN_STCP_STATE_ACTIVE ⦄ ⦃ sfsm := Fsm FSM_ACTIVE [] ⦄ ⦃ instate := NN_STCP_INSTATE_HDR ⦄.

Lemma announced_size_witness :
  (exists s, announce 16 (Z.eqb 16) (fun _ => true) 0 TCP 1024 waiting_session (be_digits 8 1025) = Ret s /\
    state s = NN_STCP_STATE_DONE /\ raised (sfsm s) = [(EV_DONE, NN_STCP_ERROR)] /\ rx s = None /\
    insize s = insize waiting_session) /\
  announce 16 (Z.eqb 16) (fun _ => true) 0 IPC 1024 waiting_session (7 :: be_digits 8 1025) = Abort.
Proof.
  destruct (announced_size 16 (Z.eqb 16) (fun _ => true) 0 waiting_session 1024 1025 7) as (H1 & _ & _ & _ & H2);
    [by split | lia |].
  split; [by apply H1 | by apply H2].
Defined.
