(* ===== verification/Efd.v ===== *)
(** * Efd: signals that can be polled (src/utils/efd.c, src/utils/efd_eventfd.inc)

    An efd is a descriptor that is readable while it is signalled; over eventfd
    it is a counter in the kernel, [None] once the descriptor was closed.
    [nn_efd_wait] polls it in slices of 100 ms; a slice that passes is a [round]:
    whether the descriptor is still open, the time before the poll, what poll
    returned (a negated error when it failed) and the time behind it. *)

From stdpp Require Import base list.
From Stdlib Require Import ZArith Lia.
From S2P Require Import Prelude.

Open Scope Z_scope.

Definition EINTR : Z := 4.
Definition EBADF : Z := 9.
Definition ENFILE : Z := 23.
Definition EMFILE : Z := 24.
Definition ETIMEDOUT : Z := 110.

Record nn_efd : Type := Efd { efd : option Z }.

(** ** The signal *)

(** [fd] is what [eventfd] returned; the settings of the descriptor succeed. *)
Definition nn_efd_init (fd : Z) : outcome (nn_efd + Z) :=
  if (fd =? - EMFILE) || (fd =? - ENFILE) then Ret (inr (- EMFILE)) else
  _ ← check (fd >=? 0);
  Ret (inl (Efd (Some 0))).

Definition nn_efd_term (self : nn_efd) : nn_efd := Efd None.

(** The descriptor is not blocking: a write that would overflow the counter
    fails, as does a read of zero. *)
Definition nn_efd_signal (self : nn_efd) : outcome nn_efd :=
  match efd self with
  | None => Ret self
  | Some count => _ ← check (count + 1 <? 2 ^ 64 - 1); Ret (Efd (Some (count + 1)))
  end.

Definition nn_efd_stop (self : nn_efd) : outcome nn_efd := nn_efd_signal self.

Definition nn_efd_unsignal (self : nn_efd) : outcome nn_efd :=
  match efd self with
  | None => Ret self
  | Some count => _ ← check (count >? 0); Ret (Efd (Some 0))
  end.

(** What poll says of it. *)
Definition signalled (self : nn_efd) : bool := match efd self with Some count => count >? 0 | None => false end.

(** ** Waiting *)

Record round : Type := Round { r_open : bool; r_now : Z; r_poll : Z; r_later : Z }.

Inductive waiting : Type := Done (rc : Z) | Waiting.

(** [(int) x] of a 64-bit number. *)
Definition to_int (x : Z) : Z := s32 x.

Definition infinite : Z := u64 (-1).

(** The timeout of the next poll, or the time is up. *)
Definition slice (expire now : Z) : option Z :=
  if expire =? 0 then Some 0 else
  if expire =? infinite then Some 100 else
  let timeout := to_int (u64 (expire - now)) in
  if timeout <? 0 then None else Some (if timeout >? 100 then 100 else timeout).

(** The slices, and how long each was to last. *)
Fixpoint wait_rounds (expire : Z) (rs : list round) : outcome (waiting * list Z) :=
  match rs with
  | [] => Ret (Waiting, [])
  | r :: rs =>
      if negb (r_open r) then Ret (Done (- EBADF), []) else
      match slice expire (r_now r) with
      | None => Ret (Done (- ETIMEDOUT), [])
      | Some timeout =>
          if r_poll r =? - EINTR then Ret (Done (- EINTR), [timeout]) else
          _ ← check (r_poll r >=? 0);
          if r_poll r =? 0 then
            if expire =? 0 then Ret (Done (- ETIMEDOUT), [timeout]) else
            if negb (expire =? infinite) && (expire <? r_later r) then Ret (Done (- ETIMEDOUT), [timeout]) else
            '(w, ts) ← wait_rounds expire rs;
            Ret (w, timeout :: ts)
          else Ret (Done 0, [timeout])
      end
  end.

(** [now] is the time at the call. *)
Definition nn_efd_wait (timeout now : Z) (rs : list round) : outcome (waiting * list Z) :=
  wait_rounds (if timeout >? 0 then u64 (now + timeout) else u64 timeout) rs.

(** ** A bounded wait *)

(** Time goes on, and poll takes the time it was given when it returns nothing. *)
Fixpoint clock_ok (expire now : Z) (rs : list round) : Prop :=
  match rs with
  | [] => True
  | r :: rs =>
      now <= r_now r /\ r_now r <= r_later r /\ (r_poll r = - EINTR \/ 0 <= r_poll r) /\
      (r_poll r = 0 -> forall t, slice expire (r_now r) = Some t -> r_now r + t <= r_later r) /\
      clock_ok expire (r_later r) rs
  end.

Lemma to_int_small z : - 2 ^ 31 <= z < 2 ^ 31 -> to_int (u64 z) = z.
Proof.
  intros Hz. unfold to_int, s32, u32, u64. rewrite Z.mod_mod_divide by by exists (2 ^ 32).
  destruct (Z_lt_le_dec z 0).
  - rewrite <-(Z_mod_plus_full z 1), Z.mod_small by lia. rewrite decide_False by lia. lia.
  - rewrite Z.mod_small by lia. by rewrite decide_True by lia.
Qed.

Lemma slice_bounded expire now : 0 < expire < 2 ^ 63 -> expire - now < 2 ^ 31 -> now - expire <= 2 ^ 31 ->
  slice expire now = if expire <? now then None else Some (Z.min 100 (expire - now)).
Proof.
  intros He Hd Hl. unfold slice. rewrite (proj2 (Z.eqb_neq _ _)) by lia.
  rewrite (proj2 (Z.eqb_neq expire infinite)) by (change infinite with (2 ^ 64 - 1); lia).
  rewrite to_int_small by lia. destruct (Z.ltb_spec (expire - now) 0), (Z.ltb_spec expire now); try lia; [done|].
  f_equal. destruct (Z.gtb_spec (expire - now) 100); lia.
Qed.

(** A bounded wait polls for 100 ms at a time at most and never beyond its end;
    it gives up only when its time is over, and it is over by then. *)
Lemma bounded_rounds expire now rs : 0 < expire < 2 ^ 62 -> expire - now < 2 ^ 31 ->
  Forall (fun r => r_now r - expire <= 2 ^ 31) rs -> clock_ok expire now rs ->
  exists w ts, wait_rounds expire rs = Ret (w, ts) /\
    Forall (fun t => 0 <= t <= 100 /\ now + t <= expire) ts /\
    (w = Done (- ETIMEDOUT) -> exists r, r ∈ rs /\ expire < r_later r) /\
    (w = Waiting -> Forall (fun r => r_later r <= expire) rs).
Proof.
  intros He. revert now. induction rs as [|r rs IH]; intros now Hd Hb Hc.
  { by exists Waiting, []. }
  apply Forall_cons in Hb as [Hb Hbs]. destruct Hc as (C1 & C2 & C3 & C4 & C5). cbn [wait_rounds].
  destruct (r_open r); cbn [negb]; [|by exists (Done (- EBADF)), []].
  rewrite slice_bounded in * by lia. destruct (Z.ltb_spec expire (r_now r)).
  { exists (Done (- ETIMEDOUT)), []. split; [done|]. split; [done|]. split; [|done].
    intros _. exists r. split; [by left | lia]. }
  set (t := Z.min 100 (expire - r_now r)) in *. assert (Ht : 0 <= t <= 100 /\ now + t <= expire) by lia.
  destruct (Z.eqb_spec (r_poll r) (- EINTR)) as [Ei|Ei]; [by exists (Done (- EINTR)), [t]; rewrite Forall_singleton|].
  destruct C3 as [C3 | C3]; [done|]. rewrite (proj2 (Z.geb_le _ _) C3). cbn [check mbind outcome_bind].
  destruct (Z.eqb_spec (r_poll r) 0) as [E0|E0]; [|by exists (Done 0), [t]; rewrite Forall_singleton].
  rewrite (proj2 (Z.eqb_neq expire 0)), (proj2 (Z.eqb_neq expire infinite)) by (try change infinite with (2 ^ 64 - 1); lia).
  cbn [negb andb]. destruct (Z.ltb_spec expire (r_later r)).
  { exists (Done (- ETIMEDOUT)), [t]. rewrite Forall_singleton. split; [done|]. split; [done|]. split; [|done].
    intros _. exists r. split; [by left | done]. }
  destruct (IH (r_later r)) as (w & ts & -> & H1 & H2 & H3); [lia | done | done |].
  exists w, (t :: ts). split; [done|]. split; [|split].
  - apply Forall_cons. split; [done|]. eapply Forall_impl; [exact H1|]. cbn. lia.
  - intros Ew. destruct (H2 Ew) as (r' & Hr & Hl). exists r'. split; [by right | done].
  - intros Ew. apply Forall_cons. auto.
Qed.
