(* ===== verification/SockIo.v ===== *)
(** * SockIo: blocking calls on a socket (src/core/sock.c)

    A socket with its protocol, its options and the two event descriptors
    applications poll.  [nn_sock_send] and [nn_sock_recv] try until they succeed,
    fail, time out or the socket is closed; between two attempts other threads
    take any steps ([others]).  [istep] are the steps of a socket, each of which
    enters the context and leaves it: on leaving, the queued events are processed and
    [nn_sock_onleave] brings the descriptors up to date. *)

From stdpp Require Import base gmap list sets.
From Stdlib Require Import ZArith Lia.
From S2P Require Import Prelude ListHeap Pipe Lb Sock Message Inbox SockBase.
From S2P Require SockFsm Efd.
Import SockFsm (sock_state (..), sock_state_eq_dec).
Import Efd (nn_efd (..), efd, nn_efd_init, nn_efd_term, nn_efd_signal, nn_efd_stop, nn_efd_unsignal,
  nn_efd_wait, signalled, round (..), waiting (..), to_int, infinite, EINTR, EBADF, ETIMEDOUT).

Open Scope Z_scope.

#[local] Existing Instance sock_state_eq_dec.

Definition NN_DONTWAIT : Z := 1.
Definition NN_SOCK_FLAG_IN : Z := 1.
Definition NN_SOCK_FLAG_OUT : Z := 2.
Definition ENOTSUP : Z := 95.

(** The directions, where the code of both is the same. *)
Inductive dir : Type := In | Out.

Definition flag_of (d : dir) : Z := match d with In => NN_SOCK_FLAG_IN | Out => NN_SOCK_FLAG_OUT end.

Definition event_of (d : dir) : Z := match d with In => NN_SOCKBASE_EVENT_IN | Out => NN_SOCKBASE_EVENT_OUT end.

Section socket.
  Context {T : Type} `{SockBase T}.

(** [socktype->flags] forbids the direction. *)
Definition forbidden (d : dir) : bool := match d with In => sb_norecv (T := T) | Out => sb_nosend (T := T) end.

Record nn_sock : Type := Sock {
  sstate : sock_state; opts : sock_opts; flags : Z; rcvfd : nn_efd; sndfd : nn_efd; base : bsys (T := T)
}.

Definition with_base (self : nn_sock) (b : bsys) : nn_sock :=
  Sock (sstate self) (opts self) (flags self) (rcvfd self) (sndfd self) b.

Definition fd_of (d : dir) (self : nn_sock) : nn_efd := match d with In => rcvfd self | Out => sndfd self end.

Definition timeo_of (d : dir) (self : nn_sock) : Z := match d with In => rcvtimeo (opts self) | Out => sndtimeo (opts self) end.

Definition with_fd (d : dir) (self : nn_sock) (fl : Z) (e : nn_efd) : nn_sock :=
  match d with
  | In => Sock (sstate self) (opts self) fl e (sndfd self) (base self)
  | Out => Sock (sstate self) (opts self) fl (rcvfd self) e (base self)
  end.

(** ** Leaving the context *)

(** One of the two halves of [nn_sock_onleave]. *)
Definition onleave_dir (d : dir) (events : Z) (self : nn_sock) : outcome nn_sock :=
  if forbidden d then Ret self else
  if negb (Z.land events (event_of d) =? 0) then
    if Z.land (flags self) (flag_of d) =? 0 then
      e ← nn_efd_signal (fd_of d self);
      Ret (with_fd d self (Z.lor (flags self) (flag_of d)) e)
    else Ret self
  else
    if negb (Z.land (flags self) (flag_of d) =? 0) then
      e ← nn_efd_unsignal (fd_of d self);
      Ret (with_fd d self (Z.land (flags self) (Z.lnot (flag_of d))) e)
    else Ret self.

Definition nn_sock_onleave (self : nn_sock) : outcome nn_sock :=
  if negb (bool_decide (sstate self = SOCK_ACTIVE)) then Ret self else
  let events := sb_events (proto (base self)) in
  _ ← check (events >=? 0);
  self ← onleave_dir In events self;
  onleave_dir Out events self.

(** The loop of [nn_ctx_leave]; the functions of the protocol queue nothing. *)
Fixpoint drain (fuel : nat) (b : bsys (T := T)) : outcome bsys :=
  match events b, fuel with
  | [], _ => Ret b
  | _ :: _, O => NoFuel
  | _ :: _, S fuel => b ← bstep b BDeliver; drain fuel b
  end.

(** The events of pipes do not get to the protocol of a closing socket. *)
Definition nn_ctx_leave (self : nn_sock) : outcome nn_sock :=
  b ← (if bool_decide (sstate self = SOCK_ACTIVE) then drain (length (events (base self))) (base self)
       else Ret (base self));
  nn_sock_onleave (with_base self b).

(** ** Creation and closing *)

(** [rfd] and [sfd] are what [eventfd] returns; started and left. *)
Definition nn_sock_init (random : Z) (name : list Z) (rfd sfd : Z) : outcome (nn_sock + Z) :=
  _ ← check (negb (sb_nosend (T := T)) || negb (sb_norecv (T := T)));
  snd ← (if sb_nosend (T := T) then Ret (inl (Efd None)) else nn_efd_init sfd);
  match snd with
  | inr rc => Ret (inr rc)
  | inl snd =>
      rcv ← (if sb_norecv (T := T) then Ret (inl (Efd None)) else nn_efd_init rfd);
      match rcv with
      | inr rc => Ret (inr rc)
      | inl rcv =>
          let b := Bsys (sb_init random) init_stats ∅ [] ∅ in
          self ← nn_ctx_leave (Sock SOCK_ACTIVE (init_opts name) 0 rcv snd b);
          Ret (inl self)
      end
  end.

(** What closing does to the descriptors: [f] is [nn_efd_stop] in the first
    stage and [nn_efd_term] in the last. *)
Definition on_efds (f : nn_efd -> outcome nn_efd) (st : sock_state) (self : nn_sock) : outcome nn_sock :=
  r ← (if sb_norecv (T := T) then Ret (rcvfd self) else f (rcvfd self));
  s ← (if sb_nosend (T := T) then Ret (sndfd self) else f (sndfd self));
  Ret (Sock st (opts self) (flags self) r s (base self)).

Definition shutdown_stop (self : nn_sock) : outcome nn_sock :=
  _ ← check (bool_decide (sstate self = SOCK_ACTIVE));
  on_efds nn_efd_stop SOCK_STOPPING_EPS self.

Definition shutdown_finish (self : nn_sock) : outcome nn_sock :=
  on_efds (fun e => Ret (nn_efd_term e)) SOCK_FINI self.

(** ** One attempt *)

Definition send_now (m : nn_msg) (ans : loc -> answer unit) (self : nn_sock)
    : outcome (nn_sock * Z * list (loc * nn_msg)) :=
  let 'Bsys t st ps evs ib := base self in
  '(t, ps, rc, sent) ← sb_send t ps ans m;
  Ret (with_base self (Bsys t st ps evs ib), rc, sent).

Definition recv_now (self : nn_sock) : outcome (nn_sock * Z * received) :=
  let 'Bsys t st ps evs ib := base self in
  '(t, ps, ib, rc, got) ← sb_recv t (maxttl (opts self)) ps ib;
  Ret (with_base self (Bsys t st ps evs ib), rc, got).

(** The body of the loop up to the wait: [None] is to wait.  [attempt] is the
    function of the protocol. *)
Definition try {A} (attempt : nn_sock -> outcome (nn_sock * Z * A)) (fl : Z) (self : nn_sock)
    : outcome (nn_sock * option Z * option A) :=
  match sstate self with
  | SOCK_ACTIVE | SOCK_INIT =>
      '(self, rc, a) ← attempt self;
      if rc =? 0 then self ← nn_ctx_leave self; Ret (self, Some 0, Some a) else
      _ ← check (rc <? 0);
      if negb (rc =? - EAGAIN) then self ← nn_ctx_leave self; Ret (self, Some rc, Some a) else
      if negb (Z.land fl NN_DONTWAIT =? 0) then
        self ← nn_ctx_leave self; Ret (self, Some (- EAGAIN), Some a) else
      self ← nn_ctx_leave self; Ret (self, None, Some a)
  | _ => self ← nn_ctx_leave self; Ret (self, Some (- EBADF), None)
  end.

(** Behind the wait: poll the descriptor once. *)
Definition recheck (d : dir) (self : nn_sock) : outcome nn_sock :=
  let e := fd_of d self in
  '(w, _) ← nn_efd_wait 0 0 [Round (bool_decide (is_Some (efd e))) 0 (c_bool (signalled e)) 0];
  Ret (match w with Done 0 => with_fd d self (Z.lor (flags self) (flag_of d)) e | _ => self end).

(** ** The steps of all threads *)

Inductive ilabel : Type :=
| IWork (ls : list blabel)     (* the worker threads: pipes are made, closed and served *)
| ISetopt (opt : Z) (optval : list Z)
| ISend (again : bool) (fl : Z) (ans : loc -> answer unit) (m : nn_msg)
| IRecv (again : bool) (fl : Z)
| IClose | IStopping | IFini.

Definition rechecked (again : bool) (d : dir) (self : nn_sock) : outcome nn_sock :=
  if again then recheck d self else Ret self.

Definition istep (self : nn_sock) (l : ilabel) : outcome nn_sock :=
  match l with
  | IWork ls => b ← brun (base self) ls; nn_ctx_leave (with_base self b)
  | ISetopt opt optval =>
      let no _ _ _ := - ENOPROTOOPT in
      let '(o, _) := nn_sock_setopt_inner no no (opts self) NN_SOL_SOCKET opt optval in
      nn_ctx_leave (Sock (sstate self) o (flags self) (rcvfd self) (sndfd self) (base self))
  | ISend again fl ans m =>
      self ← rechecked again Out self;
      '(self, _, _) ← try (send_now m ans) fl self; Ret self
  | IRecv again fl =>
      self ← rechecked again In self;
      '(self, _, _) ← try recv_now fl self; Ret self
  | IClose => self ← shutdown_stop self; nn_ctx_leave self
  | IStopping => Ret (Sock SOCK_STOPPING (opts self) (flags self) (rcvfd self) (sndfd self) (base self))
  | IFini => self ← shutdown_finish self; nn_ctx_leave self
  end.

Fixpoint irun (self : nn_sock) (ls : list ilabel) : outcome nn_sock :=
  match ls with [] => Ret self | l :: ls => self ← istep self l; irun self ls end.

(** ** The calls *)

(** While the caller waits: the time it starts to wait and what polling the
    descriptor finds, what other threads do meanwhile, the time the caller
    is back, and the answers of the transports to its next attempt. *)
Record wake : Type := Wake {
  w_call : Z; w_rounds : list round; others : list ilabel; w_now : Z; w_ans : loc -> answer unit
}.

Inductive result : Type := Returned (rc : Z) | Blocked (timeout : Z).

Fixpoint io_loop {A} (d : dir) (attempt : (loc -> answer unit) -> nn_sock -> outcome (nn_sock * Z * A)) (fl : Z)
    (deadline timeout : Z) (ans : loc -> answer unit) (ws : list wake) (self : nn_sock)
    : outcome (nn_sock * result * option A) :=
  '(self, r, a) ← try (attempt ans) fl self;
  match r, ws with
  | Some rc, _ => Ret (self, Returned rc, a)
  | None, [] => Ret (self, Blocked timeout, a)
  | None, w :: ws =>
      '(r, _) ← nn_efd_wait timeout (w_call w) (w_rounds w);
      self ← irun self (others w);
      match r with
      | Waiting => Ret (self, Blocked timeout, a)
      | Done rc =>
          if rc =? - ETIMEDOUT then Ret (self, Returned (- ETIMEDOUT), a) else
          if rc =? - EINTR then Ret (self, Returned (- EINTR), a) else
          if rc =? - EBADF then Ret (self, Returned (- EBADF), a) else
          _ ← check (rc =? 0);
          self ← recheck d self;
          let timeout := if timeo_of d self >=? 0
                         then to_int (if w_now w >? deadline then 0 else deadline - w_now w)
                         else timeout in
          io_loop d attempt fl deadline timeout (w_ans w) ws self
      end
  end.

(** [now] is the time of the call. *)
Definition deadline_of (timeo now : Z) : Z := if timeo <? 0 then infinite else u64 (now + timeo).

Definition nn_sock_send (self : nn_sock) (m : nn_msg) (fl now : Z) (ans : loc -> answer unit) (ws : list wake)
    : outcome (nn_sock * result * option (list (loc * nn_msg))) :=
  if sb_nosend (T := T) then Ret (self, Returned (- ENOTSUP), None) else
  let timeo := sndtimeo (opts self) in
  io_loop Out (send_now m) fl (deadline_of timeo now) (if timeo <? 0 then -1 else timeo) ans ws self.

Definition nn_sock_recv (self : nn_sock) (fl now : Z) (ws : list wake)
    : outcome (nn_sock * result * option received) :=
  if sb_norecv (T := T) then Ret (self, Returned (- ENOTSUP), None) else
  let timeo := rcvtimeo (opts self) in
  io_loop In (fun _ => recv_now) fl (deadline_of timeo now) (if timeo <? 0 then -1 else timeo)
    (fun _ => Answer 0 true tt) ws self.
End socket.
Arguments nn_sock T : clear implicits.
