(* ===== verification/SockIoSpec.v ===== *)
(** * SockIoSpec: the descriptors of a socket say what it can do

    [SockBaseResults] is what the core expects of the results of a protocol's
    functions.  From it and the laws of SockBase.v follow, for all
    interleavings: the calls of sock.c never fail an assertion, and whenever
    the context of an active socket is free its descriptors are signalled exactly as
    the protocol says it can be sent to and received from ([idle]). *)

From stdpp Require Import base gmap list sets.
From Stdlib Require Import ZArith Lia.
From S2P Require Import Prelude ListHeap Pipe Lb Sock Message Inbox SockBase SockIo.
From S2P Require SockFsm Efd.
Import SockFsm (sock_state (..), sock_state_eq_dec).
Import Efd (nn_efd (..), efd, nn_efd_init, nn_efd_term, nn_efd_signal, nn_efd_stop, nn_efd_unsignal,
  nn_efd_wait, signalled, round (..), waiting (..), to_int, infinite, EINTR, EBADF, ETIMEDOUT).

Open Scope Z_scope.

#[local] Existing Instance sock_state_eq_dec.

(** A send of a transport returns zero. *)
Definition plain_answer {M} (a : answer M) : Prop := Pipe.rc a = 0.

Lemma plain_good {M} (a : answer M) : plain_answer a -> good_answer a.
Proof. unfold plain_answer, good_answer. intros ->. split; [lia | done]. Qed.

(** The results of the functions of a protocol. *)
Definition send_results : list Z := [0; - EAGAIN; - EINVAL; - EFSM].

Definition recv_results : list Z := [0; - EAGAIN].

(** Calls return zero or a negated error.  A send that fails has passed nothing
    to a pipe; if it would block it has changed nothing at all, and the protocol
    does not say it can be sent to.  A receive gets a message if and only if it
    succeeds. *)
Class SockBaseResults (T : Type) `{SockBaseLaws T} := {
  sb_events_ok s known oa ia : sb_inv s known oa ia -> 0 <= sb_events s;
  sb_send_rc s known oa ia ps ans m s' ps' rc sent :
    sb_nosend = false -> (sb_plain = true -> sphdr m = []) ->
    sb_inv s known oa ia -> writable ps oa -> (forall p, plain_answer (ans p)) ->
    sb_send s ps ans m = Ret (s', ps', rc, sent) ->
    (rc ∈ send_results) /\ (rc < 0 -> sent = []) /\
    (rc = - EAGAIN -> s' = s /\ ps' = ps /\ Z.land (sb_events s) NN_SOCKBASE_EVENT_OUT = 0);
  sb_recv_rc s known oa ia ttl ps ib s' ps' ib' rc got :
    sb_norecv = false -> sb_inv s known oa ia -> readable ps ia -> inbox_ok ps ib ->
    sb_recv s ttl ps ib = Ret (s', ps', ib', rc, got) ->
    (rc ∈ recv_results) /\ (rc = 0 <-> exists m, got = Received m)
}.

Section safety.
  Context {T : Type} `{SockBaseResults T}.

(** ** What may happen *)

Definition worker (l : blabel) : Prop :=
  match l with BStart _ _ | BStop _ | BSent _ | BArrive _ _ _ => True | _ => False end.

Definition ienabled (self : nn_sock T) (l : ilabel) : Prop :=
  match l with
  | IWork ls => sstate self = SOCK_ACTIVE /\ Forall worker ls /\ bpath (base self) ls
  | ISetopt _ _ => True
  | ISend _ _ ans m =>
      sb_nosend = false /\ (sb_plain = true -> sphdr m = []) /\ forall p, plain_answer (ans p)
  | IRecv _ _ => sb_norecv = false
  | IClose => sstate self = SOCK_ACTIVE
  | IStopping => sstate self = SOCK_STOPPING_EPS
  | IFini => sstate self = SOCK_STOPPING
  end.

Inductive ireach : nn_sock T -> Prop :=
| ireach_init random name rfd sfd self :
    nn_sock_init random name rfd sfd = Ret (inl self) -> ireach self
| ireach_step self l self' : ireach self -> ienabled self l -> istep self l = Ret self' -> ireach self'.

(** ** The invariant *)

(** The flags of the socket and its descriptors agree. *)
Definition lit (self : nn_sock T) (bi bo : bool) : Prop :=
  flags self = c_bool bi * NN_SOCK_FLAG_IN + c_bool bo * NN_SOCK_FLAG_OUT /\
  (forbidden (T := T) In = false /\ rcvfd self = Efd (Some (c_bool bi)) \/
   forbidden (T := T) In = true /\ rcvfd self = Efd None /\ bi = false) /\
  (forbidden (T := T) Out = false /\ sndfd self = Efd (Some (c_bool bo)) \/
   forbidden (T := T) Out = true /\ sndfd self = Efd None /\ bo = false).

(** What the protocol says of a direction. *)
Definition wanted (d : dir) (b : bsys (T := T)) : bool :=
  negb (forbidden (T := T) d) && negb (Z.land (sb_events (proto b)) (event_of d) =? 0).

(** Ready to be left: the events may be queued, the descriptors be behind. *)
Definition busy (self : nn_sock T) : Prop :=
  sstate self = SOCK_ACTIVE /\ binv (base self) /\ exists bi bo, lit self bi bo.

Definition idle (self : nn_sock T) : Prop :=
  sstate self = SOCK_ACTIVE /\ binv (base self) /\ events (base self) = [] /\
  lit self (wanted In (base self)) (wanted Out (base self)).

Definition iinv (self : nn_sock T) : Prop :=
  sstate self <> SOCK_INIT /\ (sstate self = SOCK_ACTIVE -> idle self).

Lemma idle_busy self : idle self -> busy self.
Proof. intros (? & ? & _ & ?). split; [done|]. split; [done|]. eauto. Qed.

(** One half of [nn_sock_onleave] sets its bit as the protocol says. *)
Lemma onleave_in self bi bo :
  lit self bi bo -> exists self', onleave_dir In (sb_events (proto (base self))) self = Ret self' /\
    lit self' (wanted In (base self)) bo /\ base self' = base self /\ sstate self' = sstate self /\ opts self' = opts self.
Proof.
  intros (Hf & Hr & Hs). unfold onleave_dir, wanted.
  destruct Hr as [[Hn Hr]|(Hn & Hr & ->)]; rewrite Hn; cbn [negb andb];
    [|exists self; split; [done|]; split; [|done]; split; [exact Hf|]; split; [right; auto | exact Hs]].
  destruct self as [st o f r s b]. cbn [flags rcvfd sndfd base sstate opts event_of flag_of fd_of with_fd] in *. subst f r.
  destruct (Z.land _ NN_SOCKBASE_EVENT_IN =? 0), bi, bo;
    (eexists; split; [reflexivity|]; split; [|done]; split; [reflexivity|]; split; [|auto]; left; auto).
Qed.

Lemma onleave_out self bi bo :
  lit self bi bo -> exists self', onleave_dir Out (sb_events (proto (base self))) self = Ret self' /\
    lit self' bi (wanted Out (base self)) /\ base self' = base self /\ sstate self' = sstate self /\ opts self' = opts self.
Proof.
  intros (Hf & Hr & Hs). unfold onleave_dir, wanted.
  destruct Hs as [[Hn Hs]|(Hn & Hs & ->)]; rewrite Hn; cbn [negb andb];
    [|exists self; split; [done|]; split; [|done]; split; [exact Hf|]; split; [exact Hr | right; auto]].
  destruct self as [st o f r s b]. cbn [flags rcvfd sndfd base sstate opts event_of flag_of fd_of with_fd] in *. subst f s.
  destruct (Z.land _ NN_SOCKBASE_EVENT_OUT =? 0), bi, bo;
    (eexists; split; [reflexivity|]; split; [|done]; split; [reflexivity|]; split; [auto|]; left; auto).
Qed.

(** All queued events are processed. *)
Lemma drain_ok n b : binv b -> length (events b) = n ->
  exists b', drain n b = Ret b' /\ binv b' /\ events b' = [] /\ (n = O -> b' = b).
Proof.
  revert b. induction n as [|n IH]; intros b Hb Hn.
  - apply nil_length_inv in Hn. exists b. unfold drain. by rewrite Hn.
  - destruct (events b) as [|e evs] eqn:E; [done|]. cbn [drain]. rewrite E.
    destruct (binv_step b BDeliver Hb) as (b1 & Hs & Hb1). { destruct b. cbn in *. by rewrite E. }
    rewrite Hs. cbn [mbind outcome_bind].
    destruct (IH b1 Hb1) as (b' & Hd & ? & ? & _); [|by exists b'].
    destruct b as [t st ps evs0 ib]. cbn [events] in E. subst evs0. cbn in Hn. injection Hn as Hn.
    destruct e as [p []]; cbn [bstep] in Hs;
      [apply bind_Ret in Hs as (t1 & _ & Hs) | apply bind_Ret in Hs as ([t1 st1] & _ & Hs)]; by injection Hs as <-.
Qed.

Lemma leave_ok self : busy self ->
  exists self', nn_ctx_leave self = Ret self' /\ idle self' /\ opts self' = opts self /\
    (events (base self) = [] -> base self' = base self).
Proof.
  intros (Ha & Hb & bi & bo & Hl). unfold nn_ctx_leave. rewrite bool_decide_eq_true_2 by done.
  destruct (drain_ok _ (base self) Hb eq_refl) as (b & -> & Hb' & He & Hsame). cbn [mbind outcome_bind].
  unfold nn_sock_onleave. rewrite (bool_decide_eq_true_2 (sstate (with_base self b) = SOCK_ACTIVE)) by done. cbn [negb].
  assert (Hev : 0 <= sb_events (proto b)).
  { destruct b as [t st ps evs ib]. destruct Hb' as (oa & ia & Hi & _). by eapply sb_events_ok. }
  rewrite (proj2 (Z.geb_le _ _)) by exact Hev. cbn [check mbind outcome_bind].
  assert (Hl' : lit (with_base self b) bi bo) by exact Hl.
  destruct (onleave_in _ bi bo Hl') as (s1 & -> & L1 & B1 & S1 & O1). cbn [mbind outcome_bind].
  destruct (onleave_out s1 _ bo L1) as (s2 & E2 & L2 & B2 & S2 & O2). cbn [with_base base] in *. rewrite B1 in E2, L2.
  rewrite E2. exists s2. split; [done|]. split; [|split].
  - split; [by rewrite S2, S1|]. rewrite B2, B1. done.
  - by rewrite O2, O1.
  - intros E. rewrite B2, B1. apply Hsame. by rewrite E.
Qed.

(** A closing socket is left as it is. *)
Lemma leave_closing self : sstate self <> SOCK_ACTIVE -> nn_ctx_leave self = Ret self.
Proof.
  intros Hn. unfold nn_ctx_leave, nn_sock_onleave. rewrite bool_decide_eq_false_2 by done. cbn [mbind outcome_bind].
  rewrite (bool_decide_eq_false_2 (sstate (with_base self (base self)) = SOCK_ACTIVE)) by done. by destruct self.
Qed.

(** ** Attempts *)

(** What an attempt does to a socket that is not closing. *)
Definition attempts {A} (d : dir) (attempt : nn_sock T -> outcome (nn_sock T * Z * A)) (won lost : A -> Prop) : Prop :=
  forall self, sstate self = SOCK_ACTIVE -> binv (base self) -> exists b rc a,
    attempt self = Ret (with_base self b, rc, a) /\ binv b /\ (rc ∈ send_results) /\ events b = events (base self) /\
    (rc = 0 -> won a) /\ (rc < 0 -> lost a) /\ (rc = - EAGAIN -> d = Out -> b = base self /\ wanted Out b = false).

Lemma send_attempts m ans :
  sb_nosend = false -> (sb_plain = true -> sphdr m = []) -> (forall p, plain_answer (ans p)) ->
  attempts Out (send_now m ans) (fun _ => True) (fun sent => sent = []).
Proof.
  intros Hn Hp Ha self _ Hb. unfold send_now. destruct (base self) as [t st ps evs ib] eqn:E.
  assert (Hans : forall p, good_answer (ans p)) by (intros p; by apply plain_good).
  destruct (binv_send _ ans m Hb) as (b' & Hs & Hb'); [done|]. cbn [bstep] in Hs.
  destruct Hb as (oa & ia & Hi & _ & _ & _ & Hps & _). destruct (sb_inv_sub _ _ _ _ Hi) as [Hoa _].
  destruct (sb_send t ps ans m) as [[[[t' ps'] rc] sent]| | |] eqn:Es; try done. injection Hs as <-.
  destruct (sb_send_rc t _ oa ia ps ans m t' ps' rc sent Hn Hp Hi) as (Hrc & Hf & Hag); [by eapply out_writable|done..|].
  eexists _, rc, sent. split; [reflexivity|]. split; [done|]. split; [done|]. split; [done|]. split; [done|]. split; [done|].
  intros Hr _. destruct (Hag Hr) as (-> & -> & He). split; [done|]. unfold wanted. cbn [proto event_of].
  by rewrite He, andb_false_r.
Qed.

Lemma recv_attempts :
  sb_norecv = false -> attempts In recv_now (fun got => exists m, got = Received m) (fun got => forall m, got <> Received m).
Proof.
  intros Hn self _ Hb. unfold recv_now. destruct (base self) as [t st ps evs ib] eqn:E.
  destruct (binv_recv _ (maxttl (opts self)) Hb Hn) as (b' & Hs & Hb'). cbn [bstep] in Hs.
  destruct Hb as (oa & ia & Hi & _ & _ & _ & Hps & Hib & _). destruct (sb_inv_sub _ _ _ _ Hi) as [_ Hia].
  destruct (sb_recv t _ ps ib) as [[[[[t' ps'] ib'] rc] got]| | |] eqn:Es; try done. injection Hs as <-.
  destruct (sb_recv_rc t _ oa ia (maxttl (opts self)) ps ib t' ps' ib' rc got Hn Hi) as (Hrc & Hok); [by eapply in_readable|done..|].
  eexists _, rc, got. split; [reflexivity|]. split; [done|].
  split; [unfold recv_results, send_results in *; set_solver|]. split; [done|]. split; [intros Hr; by apply Hok|]. split; [|done]. intros Hr m ->. assert (rc = 0) by (apply Hok; eauto). lia.
Qed.

Lemma send_results_neg rc : rc ∈ send_results -> rc <= 0.
Proof. unfold send_results. rewrite !elem_of_cons, elem_of_nil. intros [->|[->|[->|[->|[]]]]]; done. Qed.

(** An attempt at an idle or closing socket. *)
Lemma try_ok {A} d (attempt : nn_sock T -> outcome (nn_sock T * Z * A)) won lost fl self :
  attempts d attempt won lost -> iinv self ->
  exists self' r a, try attempt fl self = Ret (self', r, a) /\ iinv self' /\ opts self' = opts self /\
    sstate self' = sstate self /\
    match r with
    | Some rc => (rc ∈ (- EBADF) :: send_results) /\ (rc = 0 -> exists x, a = Some x /\ won x) /\ (rc < 0 -> forall x, a = Some x -> lost x) /\
        (rc = - EAGAIN -> Z.land fl NN_DONTWAIT <> 0 /\ (d = Out -> wanted Out (base self') = false))
    | None => sstate self = SOCK_ACTIVE /\ Z.land fl NN_DONTWAIT = 0 /\ (d = Out -> wanted Out (base self') = false) /\
        forall x, a = Some x -> lost x
    end.
Proof.
  intros Hat [Hni Hid]. unfold try. destruct (decide (sstate self = SOCK_ACTIVE)) as [Ha|Hna].
  - rewrite Ha. destruct (Hid Ha) as (_ & Hb & Hev & Hl).
    destruct (Hat self Ha Hb) as (b & rc & a & -> & Hb' & Hrc & He & Hg & Hlo & Hag). cbn [mbind outcome_bind].
    destruct (leave_ok (with_base self b)) as (s' & Hs & Hid' & Ho & Hsame).
    { split; [done|]. split; [done|]. eexists _, _. exact Hl. }
    assert (Hbase : base s' = b) by (apply Hsame; cbn; by rewrite He).
    assert (Hi' : iinv s') by (destruct Hid' as [Es ?]; split; [by rewrite Es|]; split; done).
    assert (Hst : sstate s' = SOCK_ACTIVE) by apply Hid'.
    destruct (Z.eqb_spec rc 0) as [->|Hne].
    { rewrite Hs. exists s', (Some 0), (Some a). split; [done|]. split; [done|]. split; [done|]. split; [done|].
      split; [set_solver|]. split; [intros _; exists a; auto | done]. }
    assert (Hneg : rc < 0) by (pose proof (send_results_neg rc Hrc); lia). rewrite (proj2 (Z.ltb_lt rc 0)) by done. cbn [check mbind outcome_bind].
    assert (Hx : forall x, Some a = Some x -> lost x) by (intros x Ex; injection Ex as <-; auto).
    destruct (Z.eqb_spec rc (- EAGAIN)) as [Er|Er]; cbn [negb].
    + assert (Hw : d = Out -> wanted Out (base s') = false) by (intros Hd; rewrite Hbase; by apply Hag).
      destruct (Z.eqb_spec (Z.land fl NN_DONTWAIT) 0) as [Ef|Ef]; cbn [negb]; rewrite Hs.
      * exists s', None, (Some a). auto 10.
      * exists s', (Some (- EAGAIN)), (Some a). split; [done|]. split; [done|]. split; [done|]. split; [done|].
        split; [apply elem_of_cons; right; by rewrite <-Er|]. split; [done|]. split; [done|]. auto.
    + rewrite Hs. exists s', (Some rc), (Some a). split; [done|]. split; [done|]. split; [done|]. split; [done|].
      split; [apply elem_of_cons; by right|]. split; [done|]. split; [done | done].
  - destruct (sstate self) eqn:Es; try done; rewrite leave_closing by (by rewrite Es);
      (exists self, (Some (- EBADF)), None; unfold iinv; rewrite Es; split; [done|]; split; [done|]; split; [done|]; split; [done|];
       split; [apply elem_of_cons; by left|]; split; done).
Qed.

(** Polling the descriptor again changes nothing: the flag said so. *)
Lemma recheck_ok d self : iinv self -> exists self', recheck d self = Ret self' /\ iinv self' /\
  opts self' = opts self /\ sstate self' = sstate self.
Proof.
  intros [Hni Hid]. unfold recheck, nn_efd_wait. change (0 >? 0) with false. cbv iota.
  cbn [Efd.wait_rounds Efd.r_open Efd.r_now Efd.r_poll Efd.r_later]. unfold Efd.slice. change (u64 0 =? 0) with true. cbv iota.
  set (e := fd_of d self).
  assert (Hkeep : forall fl, (sstate self = SOCK_ACTIVE -> fl = flags self) -> let s' := with_fd d self fl e in
    iinv s' /\ opts s' = opts self /\ sstate s' = sstate self).
  { intros fl Hfl. destruct (decide (sstate self = SOCK_ACTIVE)) as [Ha|Hna].
    - rewrite (Hfl Ha). replace (with_fd d self (flags self) e) with self by (subst e; by destruct d, self). done.
    - subst e. destruct d; (split; [split; [done|] | done]); cbn; done. }
  assert (Hsame : iinv self /\ opts self = opts self /\ sstate self = sstate self) by done.
  destruct (bool_decide (is_Some (efd e))) eqn:Eo; cbn [negb]; [|cbn [mbind outcome_bind]; eexists; split; [reflexivity | exact Hsame]].
  destruct (signalled e) eqn:Eg; cbn; eexists; (split; [reflexivity|]); [|exact Hsame].
  apply Hkeep. intros Ha. destruct (Hid Ha) as (_ & _ & _ & Hf & Hr & Hs). rewrite Hf. subst e.
  destruct d; cbn [fd_of flag_of] in *.
  - destruct Hr as [[_ Hr]|(_ & Hr & _)]; rewrite Hr in Eg; [|done]. destruct (wanted In _); [by destruct (wanted Out _) | done].
  - destruct Hs as [[_ Hs]|(_ & Hs & _)]; rewrite Hs in Eg; [|done]. destruct (wanted Out _); [by destruct (wanted In _) | done].
Qed.

(** ** Steps *)

Lemma brun_ok ls b : binv b -> bpath b ls -> exists b', brun b ls = Ret b' /\ binv b'.
Proof.
  revert b. induction ls as [|l ls IH]; intros b Hb Hp; [by exists b|]. destruct Hp as [He Hp]. cbn [brun].
  destruct (binv_step b l Hb He) as (b1 & Hs & Hb1). rewrite Hs in *. cbn [mbind outcome_bind]. auto.
Qed.

Lemma idle_iinv self : idle self -> iinv self.
Proof. intros Hi. split; [|done]. destruct Hi as [Ha _]. by rewrite Ha. Qed.

Lemma stop_lit b : nn_efd_stop (Efd (Some (c_bool b))) = Ret (Efd (Some (c_bool b + 1))).
Proof. by destruct b. Qed.

Lemma on_efds_stop self : idle self -> exists self', on_efds nn_efd_stop SOCK_STOPPING_EPS self = Ret self' /\
  sstate self' = SOCK_STOPPING_EPS /\ opts self' = opts self.
Proof.
  intros (_ & _ & _ & _ & Hr & Hs). unfold on_efds. unfold forbidden in Hr, Hs.
  assert (Hr' : exists r, (if sb_norecv (T := T) then Ret (rcvfd self) else nn_efd_stop (rcvfd self)) = Ret r).
  { destruct Hr as [[-> ->]|(-> & _)]; [rewrite stop_lit|]; eauto. }
  assert (Hs' : exists r, (if sb_nosend (T := T) then Ret (sndfd self) else nn_efd_stop (sndfd self)) = Ret r).
  { destruct Hs as [[-> ->]|(-> & _)]; [rewrite stop_lit|]; eauto. }
  destruct Hr' as [r ->], Hs' as [e ->]. cbn [mbind outcome_bind]. by eexists.
Qed.

Lemma on_efds_term self : exists self', shutdown_finish self = Ret self' /\ sstate self' = SOCK_FINI /\
  opts self' = opts self.
Proof. unfold shutdown_finish, on_efds. destruct (sb_norecv (T := T)), (sb_nosend (T := T)); by eexists. Qed.

Lemma rechecked_ok again d self : iinv self -> exists self', rechecked again d self = Ret self' /\ iinv self' /\
  opts self' = opts self /\ sstate self' = sstate self.
Proof. intros Hi. destruct again; [by apply recheck_ok | by exists self]. Qed.

(** Only [nn_setsockopt] changes the options. *)
Definition no_setopt (l : ilabel) : Prop := match l with ISetopt _ _ => False | _ => True end.

Lemma istep_ok self l : iinv self -> ienabled self l ->
  exists self', istep self l = Ret self' /\ iinv self' /\ (no_setopt l -> opts self' = opts self).
Proof.
  intros Hi He. destruct l as [ls|opt optval|again fl ans m|again fl| | |]; cbn [istep no_setopt].
  - destruct He as (Ha & _ & Hp). destruct (proj2 Hi Ha) as (_ & Hb & _ & Hl).
    destruct (brun_ok ls _ Hb Hp) as (b & -> & Hb'). cbn [mbind outcome_bind].
    destruct (leave_ok (with_base self b)) as (s' & -> & Hid & Ho & _); [|by eauto using idle_iinv].
    split; [done|]. split; [done|]. eexists _, _. exact Hl.
  - destruct (nn_sock_setopt_inner _ _ _ _ _ _) as [o rc]. destruct Hi as [Hn Hid].
    destruct (decide (sstate self = SOCK_ACTIVE)) as [Ha|Hna].
    + destruct (Hid Ha) as (_ & Hb & _ & Hl).
      destruct (leave_ok (Sock (sstate self) o (flags self) (rcvfd self) (sndfd self) (base self)))
        as (s' & -> & Hid' & _); [|exists s'; split; [done|]; split; [by apply idle_iinv | done]].
      split; [done|]. split; [done|]. eexists _, _. exact Hl.
    + rewrite leave_closing by done. eexists. split; [reflexivity|]. split; [by split | done].
  - destruct He as (Hn & Hp & Ha). destruct (rechecked_ok again Out self Hi) as (s1 & -> & Hi1 & O1 & _). cbn [mbind outcome_bind].
    destruct (try_ok _ _ _ _ fl s1 (send_attempts m ans Hn Hp Ha) Hi1) as (s2 & r & a & -> & Hi2 & O2 & _).
    exists s2. split; [done|]. split; [done|]. intros _. by rewrite O2.
  - destruct (rechecked_ok again In self Hi) as (s1 & -> & Hi1 & O1 & _). cbn [mbind outcome_bind].
    destruct (try_ok _ _ _ _ fl s1 (recv_attempts He) Hi1) as (s2 & r & a & -> & Hi2 & O2 & _).
    exists s2. split; [done|]. split; [done|]. intros _. by rewrite O2.
  - unfold shutdown_stop. rewrite bool_decide_eq_true_2 by done. cbn [check mbind outcome_bind].
    destruct (on_efds_stop self (proj2 Hi He)) as (s1 & -> & Hs & Ho). cbn [mbind outcome_bind].
    rewrite leave_closing by (by rewrite Hs). exists s1. split; [done|]. split; [|done]. unfold iinv. by rewrite Hs.
  - eexists. split; [reflexivity|]. split; [by split | done].
  - destruct (on_efds_term self) as (s1 & -> & Hs & Ho). cbn [mbind outcome_bind].
    rewrite leave_closing by (by rewrite Hs). exists s1. split; [done|]. split; [|done]. unfold iinv. by rewrite Hs.
Qed.

Lemma init_iinv random name rfd sfd self :
  nn_sock_init random name rfd sfd = Ret (inl self) -> iinv self.
Proof.
  unfold nn_sock_init. intros Hi. apply bind_Ret in Hi as ([] & _ & Hi). apply bind_Ret in Hi as (sn & Hs & Hi).
  destruct sn as [sn|]; [|done]. apply bind_Ret in Hi as (rc & Hr & Hi). destruct rc as [rc|]; [|done].
  apply bind_Ret in Hi as (s' & Hl & Hi). injection Hi as <-.
  assert (Hfd : forall fd e, nn_efd_init fd = Ret (inl e) -> e = Efd (Some 0)).
  { intros fd e. unfold nn_efd_init. destruct (_ || _); [done|]. destruct (fd >=? 0); [|done]. cbn. by intros [= <-]. }
  destruct (leave_ok (Sock SOCK_ACTIVE (init_opts name) 0 rc sn (Bsys (sb_init random) init_stats ∅ [] ∅)))
    as (s2 & E & Hid & _); [|rewrite E in Hl; injection Hl as <-; by apply idle_iinv].
  split; [done|]. split; [apply binv_init|]. exists false, false. split; [done|]. unfold forbidden. split.
  - destruct (sb_norecv (T := T)); [injection Hr as <-; by right | left]. by rewrite (Hfd _ _ Hr).
  - destruct (sb_nosend (T := T)); [injection Hs as <-; by right | left]. by rewrite (Hfd _ _ Hs).
Qed.

Lemma ireach_inv self : ireach self -> iinv self.
Proof.
  induction 1 as [random name rfd sfd self Hi|self l self' _ IH He Hs]; [by eapply init_iinv|].
  destruct (istep_ok self l IH He) as (s & Hs' & Hi & _). by rewrite Hs in Hs'; injection Hs' as <-.
Qed.

(** The descriptors of an active socket. *)
Lemma idle_signals self d : idle self -> signalled (fd_of d self) = wanted d (base self).
Proof.
  intros (_ & _ & _ & _ & Hr & Hs).
  destruct d; cbn [fd_of].
  - destruct Hr as [[_ ->]|(_ & -> & ->)]; [by destruct (wanted In _) | done].
  - destruct Hs as [[_ ->]|(_ & -> & ->)]; [by destruct (wanted Out _) | done].
Qed.

(** The safety of a socket, and that its descriptors tell what it can do. *)
Definition io_safe : Prop := forall self l, ireach self -> ienabled self l ->
  exists self', istep self l = Ret self' /\ ireach self' /\
    (sstate self' = SOCK_ACTIVE -> events (base self') = [] /\
     forall d, signalled (fd_of d self') = negb (forbidden (T := T) d) &&
       negb (Z.land (sb_events (proto (base self'))) (event_of d) =? 0)).

Lemma socket_io_safe : io_safe.
Proof.
  intros self l Hr He. destruct (istep_ok self l (ireach_inv self Hr) He) as (s' & Hs & Hi & _).
  exists s'. split; [done|]. split; [by eapply ireach_step|]. intros Ha. pose proof (proj2 Hi Ha) as Hid.
  split; [apply Hid|]. intros d. by apply idle_signals.
Qed.
End safety.
