(* ===== verification/SockCalls.v ===== *)
(** * SockCalls: what the blocking calls of a socket return

    [nn_sock_send] and [nn_sock_recv] (SockIo.v) run against any other threads
    and any passage of time ([wakes_ok]): they never fail an assertion, they
    report what happened, and they wait neither when they could go on nor
    shorter than they were told to. *)

From stdpp Require Import base gmap list sets.
From Stdlib Require Import ZArith Lia.
From S2P Require Import Prelude ListHeap Pipe Lb Sock Message Inbox SockBase SockIo SockIoSpec.
From S2P Require SockFsm Efd.
Import SockFsm (sock_state (..), sock_state_eq_dec).
Import Efd (nn_efd (..), efd, nn_efd_wait, wait_rounds, signalled, round (..), r_open, r_now, r_poll, r_later,
  waiting (..), to_int, infinite, EINTR, EBADF, ETIMEDOUT).

Open Scope Z_scope.

#[local] Existing Instance sock_state_eq_dec.

(** ** Waiting *)

Definition polls_ok (rs : list round) : Prop := Forall (fun r => r_poll r = - EINTR \/ 0 <= r_poll r) rs.

Definition wait_results : list Z := [0; - ETIMEDOUT; - EINTR; - EBADF].

Lemma wait_total timeout now rs : polls_ok rs ->
  exists w ts, nn_efd_wait timeout now rs = Ret (w, ts) /\ forall rc, w = Done rc -> rc ∈ wait_results.
Proof.
  unfold nn_efd_wait. set (expire := if timeout >? 0 then _ else _). clearbody expire. unfold wait_results.
  induction 1 as [|r rs Hp _ IH]; cbn [wait_rounds]; [by exists Waiting, []|].
  assert (Hin : forall rc', rc' ∈ wait_results -> forall rc, Done rc' = Done rc -> rc ∈ wait_results)
    by (intros rc' ? rc [= <-]; done). unfold wait_results in Hin.
  destruct (r_open r); cbn [negb]; [|eexists _, _; split; [reflexivity|]; apply Hin; set_solver].
  destruct (Efd.slice expire (r_now r)) as [t|]; [|eexists _, _; split; [reflexivity|]; apply Hin; set_solver].
  destruct (Z.eqb_spec (r_poll r) (- EINTR)); [eexists _, _; split; [reflexivity|]; apply Hin; set_solver|].
  destruct Hp as [?|Hp]; [done|]. rewrite (proj2 (Z.geb_le _ _) Hp). cbn [check mbind outcome_bind].
  destruct (r_poll r =? 0); [|eexists _, _; split; [reflexivity|]; apply Hin; set_solver].
  destruct (expire =? 0); [eexists _, _; split; [reflexivity|]; apply Hin; set_solver|].
  destruct (_ && _); [eexists _, _; split; [reflexivity|]; apply Hin; set_solver|].
  destruct IH as (w & ts & -> & Hw). cbn [mbind outcome_bind]. by exists w, (t :: ts).
Qed.

(** Time goes on while polling, and between two calls. *)
Fixpoint runs (now : Z) (rs : list round) : Prop :=
  match rs with [] => True | r :: rs => now <= r_now r /\ r_now r <= r_later r /\ runs (r_later r) rs end.

Fixpoint elapsed (now : Z) (rs : list round) : Z :=
  match rs with [] => now | r :: rs => elapsed (r_later r) rs end.

Definition last_time (w : wake) : Z := elapsed (w_call w) (w_rounds w).

Fixpoint chrono (now : Z) (ws : list wake) : Prop :=
  match ws with
  | [] => True
  | w :: ws => now <= w_call w /\ runs (w_call w) (w_rounds w) /\ last_time w <= w_now w /\ chrono (w_now w) ws
  end.

Lemma runs_elapsed rs : forall now, runs now rs -> now <= elapsed now rs.
Proof. induction rs as [|r rs IH]; intros now; cbn; [lia|]. intros (? & ? & Hr). specialize (IH _ Hr). lia. Qed.

Lemma slice_early expire now : 0 < expire < 2 ^ 63 -> expire - now < 2 ^ 31 -> Efd.slice expire now = None -> expire <= now.
Proof.
  intros He Hd. unfold Efd.slice. rewrite (proj2 (Z.eqb_neq _ _)) by lia.
  rewrite (proj2 (Z.eqb_neq expire infinite)) by (change infinite with (2 ^ 64 - 1); lia).
  destruct (Z_le_gt_dec expire now); [done|]. rewrite Efd.to_int_small by lia.
  by rewrite (proj2 (Z.ltb_ge _ 0)) by lia.
Qed.

(** A bounded wait does not give up early, an infinite one not at all. *)
Lemma rounds_late expire rs : forall now ts, 0 < expire < 2 ^ 63 -> expire - now < 2 ^ 31 -> runs now rs ->
  wait_rounds expire rs = Ret (Done (- ETIMEDOUT), ts) -> expire <= elapsed now rs.
Proof.
  induction rs as [|r rs IH]; intros now ts He Hd Hr Hw; [done|]. destruct Hr as (R1 & R2 & R3).
  cbn [wait_rounds elapsed] in *. pose proof (runs_elapsed _ _ R3) as Hel.
  destruct (r_open r); cbn [negb] in Hw; [|done].
  destruct (Efd.slice expire (r_now r)) as [t|] eqn:Es; [|apply slice_early in Es; lia].
  destruct (r_poll r =? - EINTR); [done|]. destruct (r_poll r >=? 0); [|done]. cbn [check mbind outcome_bind] in Hw.
  destruct (r_poll r =? 0); [|done]. rewrite (proj2 (Z.eqb_neq expire 0)) in Hw by lia.
  destruct (negb (expire =? infinite) && (expire <? r_later r)) eqn:El.
  - apply andb_prop in El as [_ El]. apply Z.ltb_lt in El. lia.
  - apply bind_Ret in Hw as ([w ts'] & Hw & E). injection E as -> _. eapply IH; [done| |done|exact Hw]. lia.
Qed.

Lemma rounds_infinite rs ts : wait_rounds infinite rs <> Ret (Done (- ETIMEDOUT), ts).
Proof.
  revert ts. induction rs as [|r rs IH]; intros ts Hw; [done|]. cbn [wait_rounds] in Hw.
  destruct (r_open r); cbn [negb] in Hw; [|done]. change (Efd.slice infinite (r_now r)) with (Some 100) in Hw.
  destruct (r_poll r =? - EINTR); [done|]. destruct (r_poll r >=? 0); [|done]. cbn [check mbind outcome_bind] in Hw.
  destruct (r_poll r =? 0); [|done]. change (infinite =? 0) with false in Hw. rewrite Z.eqb_refl in Hw. cbn [negb andb] in Hw.
  apply bind_Ret in Hw as ([w ts'] & Hw & E). injection E as -> _. by eapply IH.
Qed.

(** The timeout the loop passes at the time [now]. *)
Definition timeout_at (timeo deadline now timeout : Z) : Prop :=
  timeo < 0 /\ timeout = -1 \/ 0 <= timeo /\ 0 <= deadline < 2 ^ 62 /\ 0 <= now /\ deadline - now < 2 ^ 31 /\ timeout = Z.max 0 (deadline - now).

Lemma wait_late timeo deadline now timeout call rs ts :
  timeout_at timeo deadline now timeout -> now <= call < 2 ^ 62 -> runs call rs ->
  nn_efd_wait timeout call rs = Ret (Done (- ETIMEDOUT), ts) -> 0 <= timeo /\ deadline <= elapsed call rs.
Proof.
  unfold nn_efd_wait. intros [[_ ->]|(Ht & Hdl & Hn & Hd & ->)] Hc Hr Hw.
  - change (-1 >? 0) with false in Hw. cbv iota in Hw. by apply rounds_infinite in Hw.
  - split; [done|]. pose proof (runs_elapsed _ _ Hr) as Hel. destruct (Z.gtb_spec (Z.max 0 (deadline - now)) 0); [|lia].
    assert (Hx : Z.max 0 (deadline - now) = deadline - now) by lia. rewrite Hx in Hw.
    rewrite u64_small in Hw by lia. apply rounds_late with (now := call) in Hw; lia || done.
Qed.

Lemma timeout_next timeo deadline now timeout now' : timeout_at timeo deadline now timeout -> now <= now' ->
  timeout_at timeo deadline now'
    (if timeo >=? 0 then to_int (if now' >? deadline then 0 else deadline - now') else timeout).
Proof.
  intros [[Ht ->]|(Ht & Hdl & Hn & Hd & ->)] Hle.
  - left. destruct (Z.geb_spec timeo 0); [lia | done].
  - right. rewrite (proj2 (Z.geb_le _ _) Ht). split_and!; try lia.
    assert (Hs : forall z, 0 <= z < 2 ^ 31 -> to_int z = z).
    { intros z Hz. rewrite <-(u64_small z) at 1 by lia. apply Efd.to_int_small. lia. }
    destruct (Z.gtb_spec now' deadline); rewrite Hs by lia; lia.
Qed.

Section calls.
  Context {T : Type} `{SockBaseResults T}.

(** ** The environment of a call *)

Fixpoint ipath (self : nn_sock T) (ls : list ilabel) : Prop :=
  match ls with
  | [] => True
  | l :: ls => ienabled self l /\ match istep self l with Ret self => ipath self ls | _ => True end
  end.

Lemma irun_ok ls self : ireach self -> ipath self ls -> exists self', irun self ls = Ret self' /\ ireach self' /\
  (Forall no_setopt ls -> opts self' = opts self).
Proof.
  revert self. induction ls as [|l ls IH]; intros self Hr Hp; [by exists self|]. destruct Hp as [He Hp]. cbn [irun].
  destruct (istep_ok self l (ireach_inv self Hr) He) as (s1 & Hs & _ & Ho). rewrite Hs in *. cbn [mbind outcome_bind].
  destruct (IH s1) as (s2 & E & Hr2 & Ho2); [by eapply ireach_step | done |]. exists s2. split; [done|]. split; [done|].
  intros Hf. apply Forall_cons in Hf as [Hl Hf]. by rewrite Ho2, Ho.
Qed.

(** Along the run of the loop, polling does not fail, the transports answer the
    attempts, and the steps of the other threads are enabled. *)
Fixpoint wakes_ok {A} (d : dir) (attempt : (loc -> answer unit) -> nn_sock T -> outcome (nn_sock T * Z * A)) (fl : Z)
    (ans : loc -> answer unit) (ws : list wake) (self : nn_sock T) : Prop :=
  match ws with
  | [] => True
  | w :: ws =>
      polls_ok (w_rounds w) /\ (forall p, plain_answer (w_ans w p)) /\
      match try (attempt ans) fl self with
      | Ret (self, None, _) =>
          ipath self (others w) /\
          match irun self (others w) with
          | Ret self => match recheck d self with Ret self => wakes_ok d attempt fl (w_ans w) ws self | _ => True end
          | _ => True
          end
      | _ => True
      end
  end.

(** ** The loop *)

Section loop.
  Context {A : Type} (d : dir) (attempt : (loc -> answer unit) -> nn_sock T -> outcome (nn_sock T * Z * A)).
  Context (won lost : A -> Prop) (fl : Z) (step : bool -> (loc -> answer unit) -> ilabel).
  Context (Hat : forall ans, (forall p, plain_answer (ans p)) -> attempts d (attempt ans) won lost).
  Context (Hen : forall again ans self, (forall p, plain_answer (ans p)) -> ienabled self (step again ans)).
  Context (Hstep : forall again ans self, istep self (step again ans) =
    self ← rechecked again d self; '(self, _, _) ← try (attempt ans) fl self; Ret self).

(** A result, and the socket it leaves behind. *)
Definition returns (ws : list wake) (self : nn_sock T) (r : result) (a : option A) : Prop :=
  match r with
  | Returned rc =>
      (rc ∈ send_results ++ wait_results) /\ (rc = 0 -> exists x, a = Some x /\ won x) /\
      (rc < 0 -> forall x, a = Some x -> lost x) /\
      (rc = - EAGAIN -> Z.land fl NN_DONTWAIT <> 0 /\ (d = Out -> wanted Out (base self) = false))
  | Blocked timeout =>
      Z.land fl NN_DONTWAIT = 0 /\ (forall x, a = Some x -> lost x) /\
      ((exists w, w ∈ ws /\ exists ts, nn_efd_wait timeout (w_call w) (w_rounds w) = Ret (Waiting, ts)) \/
       sstate self = SOCK_ACTIVE /\ (d = Out -> wanted Out (base self) = false))
  end.

Lemma returns_cons w ws self r a : returns ws self r a -> returns (w :: ws) self r a.
Proof.
  destruct r as [rc|t]; [done|]. intros (? & ? & [(w' & Hw & Ht)|?]); (split; [done|]; split; [done|]); [left | by right].
  exists w'. split; [by right | done].
Qed.

(** [again]: the descriptor has been polled again. *)
Lemma loop_ok ws : forall again deadline timeout ans s0 self, ireach s0 -> rechecked again d s0 = Ret self ->
  (forall p, plain_answer (ans p)) -> wakes_ok d attempt fl ans ws self ->
  exists self' r a, io_loop d attempt fl deadline timeout ans ws self = Ret (self', r, a) /\ ireach self' /\
    returns ws self' r a.
Proof.
  induction ws as [|w ws IH]; intros again deadline timeout ans s0 self Hr0 Hre Ha Hw.
  all: destruct (rechecked_ok again d s0 (ireach_inv s0 Hr0)) as (s & Es & Hi & _); rewrite Hre in Es; injection Es as <-.
  all: destruct (try_ok d _ won lost fl self (Hat ans Ha) Hi) as (s1 & r & a & Ht & Hi1 & _ & Hst & Hres).
  all: assert (Hr1 : ireach s1) by (eapply ireach_step; [exact Hr0 | by apply (Hen again ans) | rewrite Hstep, Hre; cbn [mbind outcome_bind]; by rewrite Ht]).
  all: cbn [io_loop wakes_ok] in *; rewrite Ht in *; cbn [mbind outcome_bind].
  all: destruct r as [rc|]; [exists s1, (Returned rc), a; split; [done|]; split; [done|];
    destruct Hres as (Hrc & ? & ? & ?); split; [unfold wait_results; set_solver | done]|].
  - destruct Hres as (Hact & Hfl & Hwt & Hl). exists s1, (Blocked timeout), a.
    split; [done|]. split; [done|]. split; [done|]. split; [done|]. right. by rewrite Hst.
  - destruct Hres as (Hact & Hfl & Hwt & Hl). destruct Hw as (Hp & Ha' & Hpath & Hw).
    destruct (wait_total timeout (w_call w) (w_rounds w) Hp) as (wt & ts & Ewait & Hwr). rewrite Ewait. cbn [mbind outcome_bind].
    destruct (irun_ok _ s1 Hr1 Hpath) as (s2 & E2 & Hr2 & _). rewrite E2 in *. cbn [mbind outcome_bind].
    destruct wt as [rc|].
    2: { exists s2, (Blocked timeout), a. split; [done|]. split; [done|]. split; [done|]. split; [done|]. left.
      exists w. split; [by left | by exists ts]. }
    specialize (Hwr rc eq_refl).
    assert (Hout : forall rc, rc ∈ wait_results -> rc <> 0 -> rc <> - EAGAIN -> returns (w :: ws) s2 (Returned rc) a).
    { intros rc' Hin Hn0 Hna. split; [set_solver|]. split; [done|]. split; [done|]. done. }
    destruct (Z.eqb_spec rc (- ETIMEDOUT)) as [->|]; [eexists s2, _, a; split; [reflexivity|]; split; [done|]; by apply Hout|].
    destruct (Z.eqb_spec rc (- EINTR)) as [->|]; [eexists s2, _, a; split; [reflexivity|]; split; [done|]; by apply Hout|].
    destruct (Z.eqb_spec rc (- EBADF)) as [->|]; [eexists s2, _, a; split; [reflexivity|]; split; [done|]; by apply Hout|].
    assert (rc = 0) as -> by (unfold wait_results in Hwr; set_solver). change (0 =? 0) with true. cbn [check mbind outcome_bind].
    destruct (recheck_ok d s2 (ireach_inv s2 Hr2)) as (s3 & E3 & _). rewrite E3 in *. cbn [mbind outcome_bind].
    set (t' := if timeo_of d s3 >=? 0 then _ else _).
    destruct (IH true deadline t' (w_ans w) s2 s3 Hr2 E3 Ha' Hw) as (s4 & r4 & a4 & E4 & Hr4 & Hret).
    exists s4, r4, a4. split; [exact E4|]. split; [done|]. by apply returns_cons.
Qed.

(** A call that gives up because of its timeout has waited that long: the last
    wake is over no earlier than the deadline. *)
Lemma loop_late ws w : forall again deadline timeout ans s0 self now self' tb a0 self'' a,
  ireach s0 -> rechecked again d s0 = Ret self -> (forall p, plain_answer (ans p)) ->
  wakes_ok d attempt fl ans (ws ++ [w]) self -> Forall (fun w => Forall no_setopt (others w)) ws ->
  chrono now (ws ++ [w]) -> Forall (fun w => last_time w < 2 ^ 62) (ws ++ [w]) ->
  timeout_at (timeo_of d self) deadline now timeout ->
  io_loop d attempt fl deadline timeout ans ws self = Ret (self', Blocked tb, a0) ->
  io_loop d attempt fl deadline timeout ans (ws ++ [w]) self = Ret (self'', Returned (- ETIMEDOUT), a) ->
  0 <= timeo_of d self /\ deadline <= last_time w.
Proof.
  assert (Hnt : forall again s0 self ans, ireach s0 -> rechecked again d s0 = Ret self -> (forall p, plain_answer (ans p)) ->
    exists s1 r a, try (attempt ans) fl self = Ret (s1, r, a) /\ ireach s1 /\ opts s1 = opts self /\ r <> Some (- ETIMEDOUT)).
  { intros again s0 self ans Hr0 Hre Ha.
    destruct (rechecked_ok again d s0 (ireach_inv s0 Hr0)) as (s & Es & Hi & _). rewrite Hre in Es. injection Es as <-.
    destruct (try_ok d _ won lost fl self (Hat ans Ha) Hi) as (s1 & r & a & Ht & Hi1 & Ho & _ & Hres).
    exists s1, r, a. split; [done|]. split; [|split; [done|]].
    - eapply ireach_step; [exact Hr0 | by apply (Hen again ans) |]. rewrite Hstep, Hre. cbn [mbind outcome_bind]. by rewrite Ht.
    - intros ->. destruct Hres as (Hin & _). unfold send_results in Hin. rewrite !elem_of_cons, elem_of_nil in Hin. naive_solver. }
  induction ws as [|v ws IH]; intros again deadline timeout ans s0 self now self' tb a0 self'' a
    Hr0 Hre Ha Hw Hno Hch Hlt Hto Hb Hl; cbn [app io_loop wakes_ok chrono] in *.
  all: destruct (Hnt again s0 self ans Hr0 Hre Ha) as (s1 & r & x & Ht & Hr1 & Ho1 & Hnr); rewrite Ht in *.
  all: cbn [mbind outcome_bind] in *; destruct r as [rc|]; [by injection Hl as _ -> _|].
  all: destruct Hw as (Hp & Ha' & Hpath & Hw), Hch as (C1 & C2 & C3 & C4); apply Forall_cons in Hlt as [Hlt Hlts].
  - pose proof (runs_elapsed _ _ C2) as Hel. unfold last_time in *.
    destruct (wait_total timeout (w_call w) (w_rounds w) Hp) as (wt & ts & Ewait & _). rewrite Ewait in Hl. cbn [mbind outcome_bind] in Hl.
    destruct (irun_ok _ s1 Hr1 Hpath) as (s2 & E2 & Hr2 & _). rewrite E2 in *. cbn [mbind outcome_bind] in Hl.
    destruct wt as [rc|]; [|done]. destruct (Z.eqb_spec rc (- ETIMEDOUT)) as [->|].
    { eapply wait_late; [done | | done | exact Ewait]. lia. }
    destruct (rc =? - EINTR); [done|]. destruct (rc =? - EBADF); [done|]. destruct (rc =? 0); [|done].
    cbn [check mbind outcome_bind] in Hl. apply bind_Ret in Hl as (s3 & E3 & Hl).
    destruct (Hnt true s2 s3 (w_ans w) Hr2 E3 Ha') as (s4 & r4 & x4 & Ht4 & _ & _ & Hnr4). rewrite Ht4 in Hl.
    cbn [mbind outcome_bind] in Hl. destruct r4; [by injection Hl as _ -> _ | done].
  - apply Forall_cons in Hno as [Hnv Hno]. pose proof (runs_elapsed _ _ C2) as Hel. unfold last_time in C3.
    destruct (wait_total timeout (w_call v) (w_rounds v) Hp) as (wt & ts & Ewait & _). rewrite Ewait in *. cbn [mbind outcome_bind] in *.
    destruct (irun_ok _ s1 Hr1 Hpath) as (s2 & E2 & Hr2 & Ho2). rewrite E2 in *. cbn [mbind outcome_bind] in *.
    destruct wt as [rc|]; [|done]. destruct (rc =? - ETIMEDOUT); [done|].
    destruct (rc =? - EINTR); [done|]. destruct (rc =? - EBADF); [done|]. destruct (rc =? 0); [|done].
    cbn [check mbind outcome_bind] in *.
    destruct (recheck_ok d s2 (ireach_inv s2 Hr2)) as (s3 & E3 & _ & Ho3 & _). rewrite E3 in *. cbn [mbind outcome_bind] in *.
    assert (Eo : opts s3 = opts self) by (by rewrite Ho3, Ho2, Ho1).
    assert (Et : timeo_of d s3 = timeo_of d self) by (destruct d; unfold timeo_of; by rewrite Eo).
    rewrite Et in *. rewrite <-Et. eapply (IH true deadline _ (w_ans v) s2 s3 (w_now v)); try done.
    rewrite Et. eapply timeout_next; [exact Hto | lia].
Qed.
End loop.
End calls.

(** ** The two calls *)

Section api.
  Context {T : Type} `{SockBaseResults T}.

(** What [nn_sock_send] and [nn_sock_recv] leave behind. *)
Definition send_report (fl : Z) := returns (T := T) Out (fun _ : list (loc * nn_msg) => True) (fun sent => sent = []) fl.

Definition recv_report (fl : Z) :=
  returns (T := T) In (fun got => exists m, got = Received m) (fun got => forall m, got <> Received m) fl.

Definition send_steps (m : nn_msg) (fl : Z) (again : bool) (ans : loc -> answer unit) : ilabel := ISend again fl ans m.

Definition recv_steps (fl : Z) (again : bool) (ans : loc -> answer unit) : ilabel := IRecv again fl.

Lemma deadline_ok timeo now : int_range timeo -> 0 <= now < 2 ^ 61 ->
  timeout_at timeo (deadline_of timeo now) now (if timeo <? 0 then -1 else timeo) /\
  (0 <= timeo -> deadline_of timeo now = now + timeo).
Proof.
  unfold int_range, deadline_of, timeout_at. intros Ht Hn. destruct (Z.ltb_spec timeo 0).
  - split; [by left | lia].
  - rewrite u64_small by lia. split; [|done]. right. split_and!; lia.
Qed.

(** C3.  Blocking calls report what happened.  Whatever the other threads do and
    however time passes, [nn_sock_send] and [nn_sock_recv] of a reachable socket
    fail no assertion and leave a reachable socket; they return 0 or one of the
    errors -EAGAIN, -EINVAL, -EFSM, -EBADF, -EINTR, -ETIMEDOUT (-ENOTSUP, when the
    socket type forbids the call).  A receive that returns 0 has got a message;
    after an error a send has passed nothing to any pipe and a receive has got
    no message; -EAGAIN is returned only to a caller that does not want
    to block; and a sender goes to wait only when the protocol of the active
    socket is not ready to send. *)
Theorem calls_report (self : nn_sock T) (m : nn_msg) (fl now : Z) (ans : loc -> answer unit) (ws : list wake) :
  ireach self ->
  (if sb_nosend (T := T) then nn_sock_send self m fl now ans ws = Ret (self, Returned (- ENOTSUP), None) else
   (sb_plain (T := T) = true -> sphdr m = []) -> (forall p, plain_answer (ans p)) ->
   wakes_ok Out (send_now m) fl ans ws self ->
   exists self' r a, nn_sock_send self m fl now ans ws = Ret (self', r, a) /\ ireach self' /\ send_report fl ws self' r a) /\
  (if sb_norecv (T := T) then nn_sock_recv self fl now ws = Ret (self, Returned (- ENOTSUP), None) else
   wakes_ok In (fun _ => recv_now) fl (fun _ => Answer 0 true tt) ws self ->
   exists self' r a, nn_sock_recv self fl now ws = Ret (self', r, a) /\ ireach self' /\ recv_report fl ws self' r a).
Proof.
  intros Hr. unfold nn_sock_send, nn_sock_recv. split.
  - destruct (sb_nosend (T := T)) eqn:En; [done|]. intros Hp Ha Hw.
    apply (loop_ok Out (send_now m) _ _ fl (send_steps m fl)) with (again := false) (s0 := self); try done.
    by intros; apply send_attempts.
  - destruct (sb_norecv (T := T)) eqn:En; [done|]. intros Hw.
    apply (loop_ok In (fun _ => recv_now) _ _ fl (recv_steps fl)) with (again := false) (s0 := self); try done.
    by intros; apply recv_attempts.
Qed.

(** C32.  Timeouts: a blocking send or receive that would still block when [ws] has
    happened and that returns -ETIMEDOUT at the next wake [w] has a timeout, and that wake ends
    no earlier than the timeout after the call, however often the call was
    woken before, as long as nobody changes the options during the call; an
    infinite timeout never ends in -ETIMEDOUT. *)
Theorem calls_not_early (self : nn_sock T) (m : nn_msg) (fl now : Z) (ans : loc -> answer unit) (ws : list wake) (w : wake) :
  ireach self -> 0 <= now < 2 ^ 61 -> chrono now (ws ++ [w]) -> Forall (fun w => last_time w < 2 ^ 62) (ws ++ [w]) ->
  Forall (fun w => Forall no_setopt (others w)) ws ->
  (sb_nosend (T := T) = false -> (sb_plain (T := T) = true -> sphdr m = []) -> (forall p, plain_answer (ans p)) ->
   wakes_ok Out (send_now m) fl ans (ws ++ [w]) self -> int_range (sndtimeo (opts self)) ->
   (exists self' t a, nn_sock_send self m fl now ans ws = Ret (self', Blocked t, a)) ->
   (exists self' a, nn_sock_send self m fl now ans (ws ++ [w]) = Ret (self', Returned (- ETIMEDOUT), a)) ->
   0 <= sndtimeo (opts self) /\ now + sndtimeo (opts self) <= last_time w) /\
  (sb_norecv (T := T) = false ->
   wakes_ok In (fun _ => recv_now) fl (fun _ => Answer 0 true tt) (ws ++ [w]) self -> int_range (rcvtimeo (opts self)) ->
   (exists self' t a, nn_sock_recv self fl now ws = Ret (self', Blocked t, a)) ->
   (exists self' a, nn_sock_recv self fl now (ws ++ [w]) = Ret (self', Returned (- ETIMEDOUT), a)) ->
   0 <= rcvtimeo (opts self) /\ now + rcvtimeo (opts self) <= last_time w).
Proof.
  intros Hr Hn Hch Hlt Hno. unfold nn_sock_send, nn_sock_recv. split.
  - intros En Hp Ha Hw Ht (s1 & t & a1 & E1) (s2 & a2 & E2). rewrite En in E1, E2.
    destruct (deadline_ok _ _ Ht Hn) as [Hto Hd].
    assert (Hx : 0 <= timeo_of Out self /\ deadline_of (sndtimeo (opts self)) now <= last_time w).
    { eapply (loop_late Out (send_now m) (fun _ => True) (fun sent => sent = []) fl (send_steps m fl)
        ltac:(by intros; apply send_attempts) ltac:(done) ltac:(done) ws w false _ _ ans self self now); done. }
    destruct Hx as [H3 H4]. by rewrite Hd in H4.
  - intros En Hw Ht (s1 & t & a1 & E1) (s2 & a2 & E2). rewrite En in E1, E2.
    destruct (deadline_ok _ _ Ht Hn) as [Hto Hd].
    assert (Hx : 0 <= timeo_of In self /\ deadline_of (rcvtimeo (opts self)) now <= last_time w).
    { eapply (loop_late In (fun _ => recv_now (T := T)) (fun got => exists m, got = Received m) (fun got => forall m, got <> Received m)
        fl (recv_steps fl) ltac:(intros; exact (recv_attempts En)) ltac:(intros; exact En) ltac:(intros; reflexivity) ws w false _ _ (fun _ => Answer 0 true tt) self self now); done. }
    destruct Hx as [H3 H4]. by rewrite Hd in H4.
Qed.
End api.
