(* ===== verification/SockResults.v ===== *)
(** * SockResults: the protocols return what the core expects

    The instances of [SockBaseResults] (SockIoSpec.v) for the protocols of
    SockBase.v, and with them the safety of their sockets. *)

From stdpp Require Import base gmap list sets.
From Stdlib Require Import ZArith Lia.
From S2P Require Import Prelude ListHeap Priolist Sched Pipe Lb Sock Message Inbox SockBase FqInbox.
From S2P Require Import Excl Pipeline Dist Pubsub Bus Xrep Rep Xsurveyor SockIo SockIoSpec SockCalls.
From S2P Require SockFsm Efd.
Import Efd (round (..), ETIMEDOUT).

Open Scope Z_scope.

(** Results in the lists, by computation. *)
Ltac result := unfold send_results, recv_results; rewrite ?elem_of_cons; auto.

Lemma no_message rc (got : received) : rc = - EAGAIN -> (forall m, got <> Received m) ->
  (rc ∈ recv_results) /\ (rc = 0 <-> exists m, got = Received m).
Proof. intros -> Hn. split; [result|]. split; [done|]. intros [m Hm]. by destruct (Hn m). Qed.

Lemma a_message m : (0 ∈ recv_results) /\ (0 = 0 <-> exists m', Received m = Received m').
Proof. split; [result|]. split; [eauto | done]. Qed.

(** A send that succeeds meets its part of the interface. *)
Lemma sent_now {A B} (s s' : A) (ps ps' : B) {M} (sent : list M) (e : Z) :
  (0 ∈ send_results) /\ (0 < 0 -> sent = []) /\ (0 = - EAGAIN -> s' = s /\ ps' = ps /\ e = 0).
Proof. split; [result|]. split; [lia | done]. Qed.

(** The release bit of an answer of zero. *)
Lemma plain_rc {M} (a : answer M) : plain_answer a -> Z.land (send_rc a) (Z.lnot NN_PIPE_RELEASE) = 0.
Proof. intros Ha. destruct (send_rc_release a) as [_ ->]; unfold plain_answer in Ha; by rewrite Ha. Qed.

#[export] Program Instance xpair_results : SockBaseResults nn_xpair.
Next Obligation. intros [[e [i|] [o|]]] known oa ia _; done. Qed.
Next Obligation.
  intros [[e i o]] known oa ia ps ans m s' ps' rc sent _ _ (_ & Ho & _) Hw Ha Hs. cbn in Hs, Ho.
  unfold nn_xpair_send, nn_excl_send in Hs. cbn [excl outpipe] in Hs. destruct o as [p|].
  - destruct (Hw p) as (pb & Hpb & Hi); [set_solver|]. rewrite (deref_Some _ _ _ Hpb) in Hs. cbn [mbind outcome_bind] in Hs.
    rewrite pipe_send_idle in Hs by (done || by rewrite (Ha p)). cbn [mbind outcome_bind] in Hs.
    pose proof (send_rc_nonneg _ (plain_good _ (Ha p))) as Hnn. rewrite (proj2 (Z.geb_le _ _) Hnn) in Hs.
    cbn [check mbind outcome_bind] in Hs. rewrite plain_rc in Hs by done. injection Hs as <- <- <- <-. apply sent_now.
  - injection Hs as <- <- <- <-. split; [result|]. split; [done|]. intros _. destruct i; done.
Qed.
Next Obligation.
  intros [[e i o]] known oa ia ttl ps ib s' ps' ib' rc got _ (_ & _ & Hi & _) Hr Hib Hs. cbn in Hs, Hi.
  unfold nn_xpair_recv, nn_excl_recv in Hs. cbn [excl inpipe] in Hs. destruct i as [p|].
  - destruct (Hr p) as (pb & Hpb & Hidle); [set_solver|]. rewrite (deref_Some _ _ _ Hpb) in Hs. cbn [mbind outcome_bind] in Hs.
    assert (Hans : good_answer (receive ib p)) by by eapply receive_good.
    rewrite pipe_recv_idle in Hs by (done || apply Hans). cbn [mbind outcome_bind] in Hs.
    pose proof (send_rc_nonneg _ Hans) as Hnn. rewrite (proj2 (Z.geb_le _ _) Hnn) in Hs. cbn [check mbind outcome_bind] in Hs.
    rewrite (proj2 (Z.ltb_ge (Z.land _ _) 0)) in Hs by (apply Z.land_nonneg; by left).
    injection Hs as <- <- <- <- <-. apply a_message.
  - injection Hs as <- <- <- <- <-. by apply no_message.
Qed.

Section schedulers.
  Context {S : Type} `{SchedulerLaws S}.

Lemma active_nonneg (s : S) known active (x : Z) : s_inv s known active -> 0 <= x ->
  0 <= (if s_is_active s =? 0 then 0 else x).
Proof. intros Hi Hx. rewrite (s_is_active_ok _ _ _ Hi). by repeat case_match. Qed.

#[export] Program Instance xpush_results : SockBaseResults (nn_xpush S).
Next Obligation. intros s known oa ia [Hi _]. by eapply active_nonneg. Qed.
Next Obligation.
  intros [l] known oa ia ps ans m s' ps' rc sent _ _ [Hi _] Hw Ha Hs. cbn in Hs, Hi. unfold nn_xpush_send in Hs. cbn [lb] in Hs.
  destruct (lb_send_spec l ps known oa ans) as [[-> E]|(p & pb & l' & Hp & _ & _ & E & _)];
    [by split|by intros p _; apply plain_good|rewrite E in Hs..]; cbn [mbind outcome_bind] in Hs; injection Hs as <- <- <- <-.
  - split; [result|]. split; [done|]. intros _. split; [done|]. split; [done|]. cbn. unfold nn_xpush_events, nn_lb_can_send.
    cbn [lb]. by rewrite (s_is_active_ok _ _ _ Hi), decide_True.
  - rewrite (Ha p). apply sent_now.
Qed.
Next Obligation. done. Qed.

#[export] Program Instance xpull_results : SockBaseResults (nn_xpull S).
Next Obligation. intros s known oa ia [Hi _]. by eapply active_nonneg. Qed.
Next Obligation. done. Qed.
Next Obligation.
  intros [f] known oa ia ttl ps ib s' ps' ib' rc got _ [Hi _] Hr Hib Hs. cbn in Hs, Hi. unfold nn_xpull_recv in Hs. cbn [Pipeline.fq] in Hs.
  destruct (fq_take_spec f ps known ia ib Hi Hr Hib) as
    [[-> E] | (p & r & m & ms & f' & ps1 & ib1 & ia' & E & _ & _ & _ & Hg & _)]; rewrite E in Hs; cbn [mbind outcome_bind] in Hs.
  - injection Hs as <- <- <- <- <-. by apply no_message.
  - destruct Hg as [Hr0 _]. cbn [fst] in Hr0. rewrite (proj2 (Z.ltb_ge r 0)) in Hs by lia.
    injection Hs as <- <- <- <- <-. apply a_message.
Qed.

(** Messages the BUS socket skips are not returned. *)
Lemma next_plain_was fuel (f : S) ps ib was f' ps' ib' rc was' :
  (forall m, was <> Received m) -> next_plain fuel f ps ib was = Ret (f', ps', ib', rc, was', None) ->
  forall m, was' <> Received m.
Proof.
  revert f ps ib was. induction fuel as [|fuel IH]; [done|]. intros f ps ib was Hw. cbn [next_plain].
  destruct (fq_take f ps ib) as [[[[[f1 ps1] ib1] rc1] got1]| | |]; try done. cbn [mbind outcome_bind].
  destruct (rc1 <? 0); [intros Hn; by injection Hn as _ _ _ _ <-|]. destruct got1 as [[p m]|]; [|done].
  destruct (size (sphdr m) =? 0); [done|]. by apply IH.
Qed.

Lemma xbus_recv_result (s : nn_xbus S) known oa ia ps ib s' ps' ib' rc got :
  xbus_inv s known oa ia -> readable ps ia -> inbox_ok ps ib -> nn_xbus_recv s ps ib = Ret (s', ps', ib', rc, got) ->
  (rc ∈ recv_results) /\ (rc = 0 <-> exists m, got = Received m).
Proof.
  intros Hi Hr Hib Hs.
  destruct (xbus_recv_ok s known oa ia ps ib Hi Hr Hib) as (s1 & ps1 & ib1 & rc1 & got1 & ia1 & E & _ & _ & _ & Hcase).
  rewrite E in Hs. injection Hs as <- <- <- <- <-.
  destruct Hcase as [Hrc|(ib0 & p & r & m & ms & -> & _ & _ & _ & _ & _ & ->)]; [|apply a_message].
  apply no_message; [done|]. unfold nn_xbus_recv in E.
  destruct (next_plain _ _ _ _ _) as [[[[[[f2 ps2] ib2] rc2] w2] got2]| | |] eqn:En; try done. cbn [mbind outcome_bind] in E.
  destruct got2 as [[p m]|]; injection E as _ _ _ <- <-; [done|]. by eapply next_plain_was; [|exact En].
Qed.

#[export] Program Instance xbus_results : SockBaseResults (nn_xbus S).
Next Obligation. intros s known oa ia _. cbn. unfold nn_xbus_events. by case_match. Qed.
Next Obligation.
  intros s known oa ia ps ans m s' ps' rc sent _ _ Hi Hw Ha Hs.
  destruct (xbus_send_ok s known oa ia ps ans m Hi Hw (fun p => plain_good _ (Ha p)))
    as (s1 & ps1 & rc1 & to & oa' & E & _ & _ & _ & Hrc). cbn in Hs. rewrite E in Hs. injection Hs as <- <- <- <-.
  repeat case_decide; destruct Hrc as [-> Hto]; [apply sent_now..|]. subst to. split; [result|]. split; [done|done].
Qed.
Next Obligation.
  intros s known oa ia ttl ps ib s' ps' ib' rc got _ Hi Hr Hib Hs. cbn in Hs. by apply (xbus_recv_result _ _ _ _ _ _ _ _ _ _ _ Hi Hr Hib Hs).
Qed.

#[export] Program Instance bus_results : SockBaseResults (nn_bus S).
Next Obligation. intros s known oa ia _. cbn. unfold nn_xbus_events. by case_match. Qed.
Next Obligation.
  intros [s] known oa ia ps ans m s' ps' rc sent _ _ Hi Hw Ha Hs. cbn in Hs, Hi. unfold nn_bus_send in Hs. cbn [xbus] in Hs.
  destruct (Z.eqb_spec (size (sphdr m)) 0) as [E0|E0]; cbn [negb] in Hs.
  - destruct (xbus_send_ok s known oa ia ps ans m Hi Hw (fun p => plain_good _ (Ha p)))
      as (s1 & ps1 & rc1 & to & oa' & E & _ & _ & _ & Hrc). rewrite E in Hs. rewrite decide_True in Hrc by done.
    destruct Hrc as [-> _]. cbn in Hs. injection Hs as <- <- <- <-. apply sent_now.
  - injection Hs as <- <- <- <-. split; [result|]. by split.
Qed.
Next Obligation.
  intros [s] known oa ia ttl ps ib s' ps' ib' rc got _ Hi Hr Hib Hs. cbn [sb_recv bus_base] in Hs. cbn in Hi.
  unfold nn_bus_recv in Hs. cbn [xbus] in Hs.
  destruct (nn_xbus_recv s ps ib) as [[[[[s1 ps1] ib1] rc1] got1]| | |] eqn:E; try done. cbn [mbind outcome_bind] in Hs.
  destruct (xbus_recv_result s known oa ia ps ib s1 ps1 ib1 rc1 got1 Hi Hr Hib E) as [Hrc Hok].
  destruct (Z.eqb_spec rc1 (- EAGAIN)) as [->|].
  - injection Hs as <- <- <- <- <-. by split.
  - destruct (rc1 =? 0); [|done]. cbn [check mbind outcome_bind] in Hs. destruct got1; try done.
    destruct (_ =? 8); [|done]. injection Hs as <- <- <- <- <-. apply a_message.
Qed.

#[export] Program Instance xrep_results : SockBaseResults (nn_xrep S).
Next Obligation. intros s known oa ia _. cbn. unfold nn_xrep_events. by case_match. Qed.
Next Obligation.
  intros s known oa ia ps ans m s' ps' rc sent _ _ Hi Hw Ha Hs. cbn in Hs.
  destruct (xrep_send_ok s known oa ia ps ans m Hi Hw (fun p => plain_good _ (Ha p))) as (s1 & ps1 & sent1 & oa' & E & _).
  rewrite E in Hs. injection Hs as <- <- <- <-. apply sent_now.
Qed.
Next Obligation.
  intros s known oa ia ttl ps ib s' ps' ib' rc got _ Hi Hr Hib Hs. cbn in Hs.
  destruct (xrep_recv_ok s known oa ia ttl ps ib Hi Hr Hib) as (s1 & ps1 & ib1 & rc1 & got1 & ia1 & E & _ & _ & _ & _ & Hcase).
  rewrite E in Hs. injection Hs as <- <- <- <- <-.
  destruct Hcase as [[Hrc Hn]|(p & r & msg & ms & m & key & -> & _ & _ & _ & -> & _)]; [by apply no_message | apply a_message].
Qed.

#[export] Program Instance rep_results : SockBaseResults (nn_rep S).
Next Obligation.
  intros s known oa ia _. cbn. unfold nn_rep_events, nn_xrep_events. repeat case_match; done.
Qed.
Next Obligation.
  intros s known oa ia ps ans m s' ps' rc sent _ Hp Hi Hw Ha Hs. cbn in Hs.
  destruct (rep_send_ok s known oa ia ps ans m (Hp eq_refl) Hi Hw (fun p => plain_good _ (Ha p)))
    as (s1 & ps1 & rc1 & sent1 & oa' & E & _ & _ & _ & Hrc & _).
  rewrite E in Hs. injection Hs as <- <- <- <-. case_decide as Hf; [|subst rc1; apply sent_now].
  subst rc1. unfold nn_rep_send in E. rewrite Hf in E. injection E as <- <- <-. split; [result|]. by split.
Qed.
Next Obligation.
  intros s known oa ia ttl ps ib s' ps' ib' rc got _ Hi Hr Hib Hs. cbn in Hs.
  destruct (rep_recv_ok s known oa ia ttl ps ib Hi Hr Hib) as (s1 & ps1 & ib1 & rc1 & got1 & ia1 & E & _ & _ & _ & Hcase).
  rewrite E in Hs. injection Hs as <- <- <- <- <-.
  destruct Hcase as [(Hrc & _ & Hn)|(p & r & req & ms & hdr & bd & -> & _ & _ & -> & _)]; [by apply no_message | apply a_message].
Qed.

#[export] Program Instance xsurveyor_results : SockBaseResults (nn_xsurveyor S).
Next Obligation. intros s known oa ia _. cbn. unfold nn_xsurveyor_events. by case_match. Qed.
Next Obligation.
  intros s known oa ia ps ans m s' ps' rc sent _ _ Hi Hw Ha Hs. cbn in Hs.
  destruct (xsurveyor_send_ok s known oa ia ps ans m Hi Hw (fun p => plain_good _ (Ha p))) as (s1 & ps1 & to & oa' & E & _).
  rewrite E in Hs. injection Hs as <- <- <- <-. apply sent_now.
Qed.
Next Obligation.
  intros s known oa ia ttl ps ib s' ps' ib' rc got _ Hi Hr Hib Hs. cbn in Hs.
  destruct (xsurveyor_recv_ok s known oa ia ps ib Hi Hr Hib) as (s1 & ps1 & ib1 & rc1 & got1 & ia1 & E & _ & _ & _ & Hcase).
  rewrite E in Hs. injection Hs as <- <- <- <- <-.
  destruct Hcase as [[Hrc Hn]|(p & r & msg & ms & m & -> & -> & _)]; [by apply no_message | apply a_message].
Qed.
End schedulers.

#[export] Program Instance xpub_results : SockBaseResults nn_xpub.
Next Obligation. done. Qed.
Next Obligation.
  intros s known oa ia ps ans m s' ps' rc sent _ _ Hi Hw Ha Hs. cbn in Hs.
  destruct (xpub_send_ok s known oa ia ps ans m Hi Hw (fun p => plain_good _ (Ha p))) as (s1 & ps1 & to & oa' & E & _).
  rewrite E in Hs. injection Hs as <- <- <- <-. apply sent_now.
Qed.
Next Obligation. done. Qed.

(** C2.  The descriptors of a socket tell what it can do.  In every state a
    PAIR, PUSH, PULL, PUB, BUS, REP (RESPONDENT) or SURVEYOR socket can get into
    (raw, or cooked BUS and REP), whatever the worker threads, the applications and the
    closing thread do in which order, no assertion of core/sock.c, of the event
    descriptors or of the protocol fails; and whenever the context of an active
    socket is left, its events have been processed, and the descriptor of a direction the
    socket type allows is signalled exactly if the protocol says that the
    socket is ready in that direction. *)
Theorem descriptors_tell :
  io_safe (T := nn_xpair) /\ io_safe (T := nn_xpush priosched) /\ io_safe (T := nn_xpull priosched) /\
  io_safe (T := nn_xpub) /\ io_safe (T := nn_xbus priosched) /\ io_safe (T := nn_bus priosched) /\
  io_safe (T := nn_xrep priosched) /\ io_safe (T := nn_rep priosched) /\ io_safe (T := nn_xsurveyor priosched).
Proof. split_and!; apply socket_io_safe. Qed.

(** ** Two calls *)

(** A new PAIR socket, and one with a timeout of 50 ms for sending. *)
Definition pair_sock (timeo : Z) : nn_sock nn_xpair :=
  Sock SockFsm.SOCK_ACTIVE (set_int (init_opts [48; 0]) NN_SNDTIMEO timeo) 0 (Efd.Efd (Some 0)) (Efd.Efd (Some 0))
    (Bsys nn_xpair_init init_stats ∅ [] ∅).

Lemma pair_sock_reach : ireach (pair_sock (-1)) /\ ireach (pair_sock 50).
Proof.
  assert (H1 : ireach (pair_sock (-1))) by (by apply (ireach_init 0 [48; 0] 5 6)).
  split; [done|]. by apply (ireach_step _ (ISetopt NN_SNDTIMEO (int_bytes 50)) _ H1).
Qed.

Definition now_ok : loc -> answer unit := fun _ => Answer 0 true tt.

(** The sender is woken by a connection. *)
Definition connected : wake := Wake 100 [Round true 100 0 200; Round true 200 1 205] [IWork [BStart 1 (EpOptions 8 8 1)]] 210 now_ok.

(** The environment of a concrete call, evaluated. *)
Ltac solve_wakes :=
  split; [repeat (apply List.Forall_cons; [by right|]); apply List.Forall_nil | split; [done|]];
  vm_compute; repeat lazymatch goal with
    | |- _ /\ _ => split
    | |- Forall _ _ => repeat constructor
    | |- _ -> False => discriminate
    | |- _ => first [exact I | reflexivity]
    end.

Lemma calls_report_witness :
  exists self' a, nn_sock_send (pair_sock (-1)) (Msg [] [7]) 0 50 now_ok [connected] = Ret (self', Returned 0, a) /\ ireach self'.
Proof.
  destruct (proj1 (calls_report (pair_sock (-1)) (Msg [] [7]) 0 50 now_ok [connected] (proj1 pair_sock_reach)))
    as (s & r & a & E & Hr & _); [done | done | solve_wakes |].
  exists s, a. split; [|done]. rewrite E. assert (r = Returned 0) as -> by (vm_compute in E; congruence). done.
Defined.

(** Nothing happens for 50 ms. *)
Definition silence : wake := Wake 100 [Round true 100 0 149; Round true 149 0 151] [] 151 now_ok.

Lemma calls_not_early_witness : 0 <= 50 /\ 100 + 50 <= last_time silence.
Proof.
  refine (proj1 (calls_not_early (pair_sock 50) (Msg [] [7]) 0 100 now_ok [] silence (proj2 pair_sock_reach) _ _ _ _)
    _ _ _ _ _ _ _).
  1, 2: vm_compute; repeat split; discriminate.
  1, 2: by repeat constructor.
  all: try done.
  - solve_wakes.
  - by eexists _, _, _.
  - by eexists _, _.
Defined.
