(* ===== verification/Api.v ===== *)
(** * Api: sending and receiving through the public interface (src/core/global.c)

    [nn_sendmsg] builds a message out of the caller's buffers, or takes over a
    chunk of the caller, and finds the protocol header among the control
    messages; [nn_recvmsg] takes a message apart in the same ways; [nn_send] and
    [nn_recv] are the calls with one buffer; [nn_get_statistic] reads a counter.  The memory is that of Chunk.v.

    What a socket does with a message is [sock_send] and [sock_recv]: with a
    result that is no error it has moved the message to, or from, where
    the transport keeps it.  [malloc] is the allocator.  Results are those of the
    C functions, with [- errno] for a failure.  The theorems are in ApiSpec.v. *)

From stdpp Require Import base gmap list.
From Stdlib Require Import ZArith Lia.
From S2P Require Import Prelude ListHeap Message Cmsg Sock.
From S2P Require Import Chunk.

Open Scope Z_scope.

Definition NN_MSG : Z := 2 ^ 64 - 1.
Definition PROTO_SP : Z := 1.
Definition SP_HDR : Z := 1.
Definition EFAULT : Z := 14.
Definition EMSGSIZE : Z := 90.

(** What a pointer of the caller leads to: nothing, bytes, or a variable with
    the address of a chunk, here by its name, which may be null. *)
Inductive buffer : Type := Null | Bytes (bs : list Z) | ChunkVar (v : option loc).

#[export] Instance buffer_eq_dec : EqDecision buffer.
Proof. solve_decision. Defined.

Record nn_iovec : Type := Iovec { iov_base : buffer; iov_len : Z }.

Record nn_msghdr : Type := Msghdr {
  msg_iov : list nn_iovec; msg_iovlen : Z; msg_control : buffer; msg_controllen : Z
}.

(** The elements of the array the loops go over. *)
Definition iovs (hdr : nn_msghdr) : outcome (list nn_iovec) :=
  if msg_iovlen hdr <=? Z.of_nat (length (msg_iov hdr)) then Ret (take (Z.to_nat (msg_iovlen hdr)) (msg_iov hdr)) else Undef.

(** [memcpy] from and to a buffer of the caller; of no bytes, it takes any pointer. *)
Definition copy_in (b : buffer) (n : Z) : outcome (list Z) :=
  match b with Bytes bs => read_at bs 0 n | _ => if n =? 0 then Ret [] else Undef end.

Definition copy_out (b : buffer) (bs : list Z) : outcome buffer :=
  match b with
  | Bytes old => new ← write_at old 0 bs; Ret (Bytes new)
  | _ => if size bs =? 0 then Ret b else Undef
  end.

(** A message or chunk handed over as a whole. *)
Definition whole (l : list nn_iovec) : option buffer :=
  match l with [i] => if iov_len i =? NN_MSG then Some (iov_base i) else None | _ => None end.

Section api.
  Context (malloc : chunk_heap -> Z -> allocation).

Definition init (m : memory) (r : cref) (n : Z) : outcome memory := nn_chunkref_init m (malloc (chunks m) n) r n.

(** [nn_msg_init] and [nn_msg_init_chunk]; the two small references need no memory. *)
Definition msg_init (m : memory) (msg : loc) (n : Z) : outcome memory := nn_msg_init m (malloc (chunks m) n) msg n.

Definition msg_init_chunk (m : memory) (msg : loc) (p : ptr) : outcome memory :=
  nn_msg_init_chunk m (malloc (chunks m) 0) msg p.

(** [memcpy] to the data of a reference. *)
Definition store (m : memory) (r : cref) (o : Z) (bs : list Z) : outcome memory :=
  d ← nn_chunkref_data m r; store_data m d o bs.

Definition load (m : memory) (r : cref) (o n : Z) : outcome (list Z) :=
  d ← nn_chunkref_data m r; load_data m d o n.

(** ** Sending *)

(** The total size, or the error. *)
Fixpoint iov_total (sz : Z) (l : list nn_iovec) : Z + Z :=
  match l with
  | [] => inl sz
  | iov :: l =>
      if iov_len iov =? NN_MSG then inr (- EINVAL) else
      if (match iov_base iov with Null => true | _ => false end) && negb (iov_len iov =? 0) then inr (- EFAULT) else
      if u64 (sz + iov_len iov) <? sz then inr (- EINVAL) else
      iov_total (u64 (sz + iov_len iov)) l
  end.

Fixpoint fill_body (m : memory) (r : cref) (sz : Z) (l : list nn_iovec) : outcome memory :=
  match l with
  | [] => Ret m
  | iov :: l =>
      bs ← copy_in (iov_base iov) (iov_len iov);
      m ← store m r sz bs;
      fill_body m r (sz + iov_len iov) l
  end.

(** The message with its body: its size, and whether the body is a chunk of the
    caller. *)
Definition build_body (m : memory) (msg : loc) (hdr : nn_msghdr) : outcome ((memory * Z * bool) + Z) :=
  l ← iovs hdr;
  match whole l with
  | Some (ChunkVar None) => Ret (inr (- EFAULT))
  | Some (ChunkVar (Some v)) =>
      p ← (r ← ref_at m (v, Var); match r with Ref p => Ret p | Vsm _ => Undef end);
      sz ← nn_chunk_size (chunks m) p;
      m ← msg_init_chunk m msg p;
      Ret (inl (m, sz, true))
  | Some _ => Undef
  | None =>
      match iov_total 0 l with
      | inr rc => Ret (inr rc)
      | inl sz =>
          m ← msg_init m msg sz;
          m ← fill_body m (msg, Body) 0 l;
          Ret (inl (m, sz, false))
      end
  end.

(** The copy of the control messages, and what they are. *)
Definition copy_headers (m : memory) (msg : loc) (hdr : nn_msghdr) : outcome (memory * list Z) :=
  if msg_controllen hdr =? NN_MSG then
    match msg_control hdr with
    | ChunkVar (Some v) =>
        r ← ref_at m (v, Var);
        match r with
        | Ref p =>
            m ← nn_chunkref_term m (msg, Hdrs);
            let m := nn_chunkref_init_chunk m (msg, Hdrs) p in
            sz ← nn_chunk_size (chunks m) p;
            data ← load_data m (Heap p) 0 sz;
            Ret (m, data)
        | Vsm _ => Undef
        end
    | _ => Undef
    end
  else
    m ← nn_chunkref_term m (msg, Hdrs);
    m ← init m (msg, Hdrs) (msg_controllen hdr);
    bs ← copy_in (msg_control hdr) (msg_controllen hdr);
    m ← store m (msg, Hdrs) 0 bs;
    Ret (m, bs).

(** The copy of the SP_HDR property at the offset [c] of the control messages. *)
Definition take_sphdr (m : memory) (msg : loc) (data : list Z) (c : Z) : outcome memory :=
  len ← cmsg_len data c;
  let clen := u64 (len - NN_CMSG_SPACE 0) in
  if clen >? sizeof_size_t then
    spsz ← read_le data (NN_CMSG_DATA c) 8;
    if spsz <=? clen - sizeof_size_t then
      m ← nn_chunkref_term m (msg, Sphdr);
      m ← init m (msg, Sphdr) spsz;
      bs ← read_at data (NN_CMSG_DATA c + sizeof_size_t) spsz;
      store m (msg, Sphdr) 0 bs
    else Ret m
  else Ret m.

Definition add_control (m : memory) (msg : loc) (hdr : nn_msghdr) : outcome memory :=
  match msg_control hdr with
  | Null => Ret m
  | _ =>
      '(m, data) ← copy_headers m msg hdr;
      first ← NN_CMSG_FIRSTHDR data;
      c ← find_cmsg (S (length data)) PROTO_SP SP_HDR data first;
      match c with Some c => take_sphdr m msg data c | None => Ret m end
  end.

(** [nn_sock_send]: a message that is accepted is moved to [dst]. *)
Definition sock_send (m : memory) (msg dst : loc) (rc : Z) : outcome memory :=
  if rc <? 0 then Ret m else nn_msg_mv m dst msg.

(** [held] is the result of [nn_global_hold_socket]; [rc] of [nn_sock_send]. *)
Definition nn_sendmsg (m : memory) (st : statistics) (held : Z) (hdr : option nn_msghdr) (msg dst : loc) (rc : Z)
    : outcome (memory * statistics * Z) :=
  if held <? 0 then Ret (m, st, held) else
  match hdr with
  | None => Ret (m, st, - EINVAL)
  | Some hdr =>
      if msg_iovlen hdr <? 0 then Ret (m, st, - EMSGSIZE) else
      b ← build_body m msg hdr;
      match (b : memory * Z * bool + Z) with
      | inr rc => Ret (m, st, rc)
      | inl (m, sz, nnmsg) =>
          m ← add_control m msg hdr;
          m ← sock_send m msg dst rc;
          if rc <? 0 then
            m ← (if nnmsg then init m (msg, Body) 0 else Ret m);
            m ← nn_msg_term m msg;
            Ret (m, st, rc)
          else
            st ← nn_sock_stat_increment st NN_STAT_MESSAGES_SENT 1;
            st ← nn_sock_stat_increment st NN_STAT_BYTES_SENT sz;
            Ret (m, st, s32 sz)
      end
  end.

(** ** Receiving *)

(** [nn_sock_recv]: the message comes from [src]. *)
Definition sock_recv (m : memory) (msg src : loc) (rc : Z) : outcome memory :=
  if rc <? 0 then Ret m else nn_msg_mv m msg src.

(** The gather array: the buffers as they are left, or the error. *)
Fixpoint gather_iov (m : memory) (r : cref) (pos sz : Z) (l : list nn_iovec) : outcome (list buffer + Z) :=
  match l with
  | [] => Ret (inl [])
  | iov :: l =>
      if iov_len iov =? NN_MSG then Ret (inr (- EINVAL)) else
      if iov_len iov >? sz then
        bs ← load m r pos sz;
        b ← copy_out (iov_base iov) bs;
        Ret (inl (b :: map iov_base l))
      else
        bs ← load m r pos (iov_len iov);
        b ← copy_out (iov_base iov) bs;
        rest ← gather_iov m r (pos + iov_len iov) (sz - iov_len iov) l;
        Ret (match rest with inl bs => inl (b :: bs) | inr rc => inr rc end)
  end.

(** The size of the body, and the buffers. *)
Definition take_body (m : memory) (msg : loc) (hdr : nn_msghdr) : outcome (memory * ((Z * list buffer) + Z)) :=
  l ← iovs hdr;
  match whole l with
  | Some b =>
      n ← nn_chunkref_size m (msg, Body);
      '(m, p) ← nn_chunkref_getchunk m (malloc (chunks m) n) (msg, Body);
      match b with
      | ChunkVar (Some v) =>
          let m := set_ref m (v, Var) (Ref p) in
          sz ← nn_chunk_size (chunks m) p;
          Ret (m, inl (sz, [b]))
      | _ => Undef
      end
  | None =>
      sz ← nn_chunkref_size m (msg, Body);
      g ← gather_iov m (msg, Body) 0 sz l;
      match g with
      | inl bs => Ret (m, inl (sz, bs))
      | inr rc => m ← nn_msg_term m msg; Ret (m, inr rc)
      end
  end.

(** What is written in front of the property's value. *)
Definition sphdr_prefix (sptotalsz spsz : Z) : list Z :=
  le_digits 8 sptotalsz ++ le_digits 4 PROTO_SP ++ le_digits 4 SP_HDR ++ le_digits 8 spsz.

Definition put_control (m : memory) (msg : loc) (hdr : nn_msghdr) : outcome (memory * buffer) :=
  match msg_control hdr with
  | Null => Ret (m, Null)
  | ctl =>
      spsz ← nn_chunkref_size m (msg, Sphdr);
      let sptotalsz := NN_CMSG_SPACE (u64 (spsz + sizeof_size_t)) in
      hdrssz ← nn_chunkref_size m (msg, Hdrs);
      sphdr ← load m (msg, Sphdr) 0 spsz;
      if msg_controllen hdr =? NN_MSG then
        let ctrlsz := u64 (sptotalsz + hdrssz) in
        '(h, rc, p) ← nn_chunk_alloc (chunks m) (malloc (chunks m) ctrlsz) ctrlsz 0;
        _ ← check (rc =? 0);
        match ctl, p with
        | ChunkVar (Some v), Some p =>
            let m := set_ref (set_chunks m h) (v, Var) (Ref p) in
            if ctrlsz >=? sptotalsz then
              m ← store_data m (Heap p) 0 (sphdr_prefix sptotalsz spsz ++ sphdr);
              let n := if hdrssz >? ctrlsz - sptotalsz then ctrlsz - sptotalsz else hdrssz in
              hdrs ← load m (msg, Hdrs) 0 n;
              m ← store_data m (Heap p) sptotalsz hdrs;
              Ret (m, ctl)
            else Ret (m, ctl)
        | _, _ => Undef
        end
      else
        let ctrlsz := msg_controllen hdr in
        if ctrlsz >=? sptotalsz then
          match ctl with
          | Bytes old =>
              new ← write_at old 0 (sphdr_prefix sptotalsz spsz ++ sphdr);
              let n := if hdrssz >? ctrlsz - sptotalsz then ctrlsz - sptotalsz else hdrssz in
              hdrs ← load m (msg, Hdrs) 0 n;
              new ← write_at new sptotalsz hdrs;
              Ret (m, Bytes new)
          | _ => Undef
          end
        else Ret (m, ctl)
  end.

(** The buffers and the control buffer as the call leaves them. *)
Record filled : Type := Filled { f_iov : list buffer; f_control : buffer }.

Definition nn_recvmsg (m : memory) (st : statistics) (held : Z) (hdr : option nn_msghdr) (msg src : loc) (rc : Z)
    : outcome (memory * statistics * Z * option filled) :=
  if held <? 0 then Ret (m, st, held, None) else
  match hdr with
  | None => Ret (m, st, - EINVAL, None)
  | Some hdr =>
      if msg_iovlen hdr <? 0 then Ret (m, st, - EMSGSIZE, None) else
      m ← sock_recv m msg src rc;
      if rc <? 0 then Ret (m, st, rc, None) else
      '(m, b) ← take_body m msg hdr;
      match b with
      | inr rc => Ret (m, st, rc, None)
      | inl (sz, bs) =>
          '(m, ctl) ← put_control m msg hdr;
          m ← nn_msg_term m msg;
          st ← nn_sock_stat_increment st NN_STAT_MESSAGES_RECEIVED 1;
          st ← nn_sock_stat_increment st NN_STAT_BYTES_RECEIVED sz;
          Ret (m, st, s32 sz, Some (Filled bs ctl))
      end
  end.

(** ** One buffer *)

Definition one_buffer (buf : buffer) (len : Z) : nn_msghdr := Msghdr [Iovec buf len] 1 Null 0.

Definition nn_send (m : memory) (st : statistics) (held : Z) (buf : buffer) (len : Z) (msg dst : loc) (rc : Z) :=
  nn_sendmsg m st held (Some (one_buffer buf len)) msg dst rc.

Definition nn_recv (m : memory) (st : statistics) (held : Z) (buf : buffer) (len : Z) (msg src : loc) (rc : Z) :=
  nn_recvmsg m st held (Some (one_buffer buf len)) msg src rc.
End api.

(** ** Statistics *)

Definition nn_get_statistic (st : statistics) (held statistic : Z) : Z :=
  if held <? 0 then u64 (-1) else
  u64 (if statistic =? NN_STAT_ESTABLISHED_CONNECTIONS then established_connections st
  else if statistic =? NN_STAT_ACCEPTED_CONNECTIONS then accepted_connections st
  else if statistic =? NN_STAT_DROPPED_CONNECTIONS then dropped_connections st
  else if statistic =? NN_STAT_BROKEN_CONNECTIONS then broken_connections st
  else if statistic =? NN_STAT_CONNECT_ERRORS then connect_errors st
  else if statistic =? NN_STAT_BIND_ERRORS then bind_errors st
  else if statistic =? NN_STAT_ACCEPT_ERRORS then bind_errors st
  else if statistic =? NN_STAT_MESSAGES_SENT then messages_sent st
  else if statistic =? NN_STAT_MESSAGES_RECEIVED then messages_received st
  else if statistic =? NN_STAT_BYTES_SENT then bytes_sent st
  else if statistic =? NN_STAT_BYTES_RECEIVED then bytes_received st
  else if statistic =? NN_STAT_CURRENT_CONNECTIONS then current_connections st
  else if statistic =? NN_STAT_INPROGRESS_CONNECTIONS then inprogress_connections st
  else if statistic =? NN_STAT_CURRENT_SND_PRIORITY then current_snd_priority st
  else if statistic =? NN_STAT_CURRENT_EP_ERRORS then current_ep_errors st
  else -1).
