(* ===== verification/CmsgSpec.v ===== *)
(** * CmsgSpec: the walk over control messages finds the property it looks for

    [find_first]: over a well-formed sequence of properties the loop of
    Cmsg.v ends, at the first property of the level and type. *)

From stdpp Require Import base list.
From Stdlib Require Import ZArith Lia.
From S2P Require Import Prelude Message Cmsg.

Open Scope Z_scope.

(** ** Alignment *)

Lemma align_eq len : 0 <= len < 2 ^ 60 -> NN_CMSG_ALIGN_ len = 8 * ((len + 7) / 8).
Proof.
  intros Hl. unfold NN_CMSG_ALIGN_, sizeof_size_t. replace (len + 8 - 1) with (len + 7) by lia.
  rewrite u64_small by lia. change (u64 (Z.lnot (8 - 1))) with (Z.shiftl (Z.ones 61) 3).
  set (x := len + 7). assert (Hx : 0 <= x < 2 ^ 64) by (unfold x; lia). clearbody x.
  assert (E : 8 * (x / 8) = Z.shiftl (Z.shiftr x 3) 3).
  { rewrite Z.shiftl_mul_pow2, Z.shiftr_div_pow2 by lia. change (2 ^ 3) with 8. lia. }
  rewrite E. clear E.
  apply Z.bits_inj'. intros n Hn. rewrite Z.land_spec, !Z.shiftl_spec by done.
  destruct (Z_lt_le_dec n 3).
  - rewrite (Z.testbit_neg_r _ (n - 3)), (Z.testbit_neg_r (Z.shiftr x 3) (n - 3)) by lia. by rewrite andb_false_r.
  - rewrite Z.shiftr_spec by lia. replace (n - 3 + 3) with n by lia.
    destruct (Z_lt_le_dec n 64).
    + rewrite Z.ones_spec_low by lia. by rewrite andb_true_r.
    + rewrite Z.ones_spec_high by lia. rewrite andb_false_r. symmetry.
      destruct (decide (x = 0)) as [->|]; [apply Z.testbit_0_l|].
      apply Z.bits_above_log2; [lia|]. apply Z.log2_lt_pow2; [lia|]. eapply Z.lt_le_trans; [apply Hx|].
      apply Z.pow_le_mono_r; lia.
Qed.


Lemma space_eq len : 0 <= len < 2 ^ 59 -> NN_CMSG_SPACE len = 16 + 8 * ((len + 7) / 8).
Proof.
  intros Hl. unfold NN_CMSG_SPACE. rewrite !align_eq by (unfold sizeof_cmsghdr; lia). unfold sizeof_cmsghdr.
  change (8 * ((16 + 7) / 8)) with 16. rewrite u64_small; [lia|].
  pose proof (Z.div_mod (len + 7) 8). pose proof (Z.mod_pos_bound (len + 7) 8). lia.
Qed.

(** ** Numbers in memory *)

Lemma le_digits_length n v : length (le_digits n v) = n.
Proof. revert v. induction n; intros v; cbn; [done|]. by rewrite IHn. Qed.

Lemma le_digits_size n v : size (le_digits n v) = Z.of_nat n.
Proof. unfold size. by rewrite le_digits_length. Qed.

Lemma le_value_digits n v : le_value (le_digits n v) = v mod 256 ^ Z.of_nat n.
Proof.
  revert v. induction n as [|n IH]; intros v; cbn [le_digits le_value]; [by rewrite Z.mod_1_r|].
  rewrite IH. unfold u8. rewrite Nat2Z.inj_succ, Z.pow_succ_r by lia.
  rewrite Z.rem_mul_r by lia. lia.
Qed.

Lemma le_digits_bytes n v : bytes (le_digits n v).
Proof. revert v. induction n; intros v; constructor; [apply u8_range | done]. Qed.

Lemma le_value_range bs : bytes bs -> 0 <= le_value bs < 256 ^ size bs.
Proof.
  unfold size. induction 1 as [|b bs Hb _ IH]; cbn [le_value length]; [done|]. unfold is_byte in Hb.
  rewrite Nat2Z.inj_succ, Z.pow_succ_r by lia. lia.
Qed.

Lemma read_le_app a b c off n : off = size a -> n = size b -> read_le (a ++ b ++ c) off n = Ret (le_value b).
Proof.
  intros -> ->. unfold read_le. rewrite !size_app. pose proof (size_nonneg a). pose proof (size_nonneg b).
  pose proof (size_nonneg c). rewrite (proj2 (Z.leb_le _ _)), (proj2 (Z.leb_le _ _)) by lia. cbn [andb]. do 2 f_equal.
  unfold size. rewrite !Nat2Z.id, drop_app_length. apply take_app_length.
Qed.

(** ** One property *)

Definition prop_ok (p : property) : Prop :=
  - 2 ^ 31 <= level p < 2 ^ 31 /\ - 2 ^ 31 <= ptype p < 2 ^ 31 /\ bytes (take 8 (value p)).

(** The space a property takes. *)
Definition cmsg_space (p : property) : Z := 16 + 8 * ((size (value p) + 7) / 8).

Lemma cmsg_size p : size (cmsg p) = cmsg_space p.
Proof.
  unfold cmsg, cmsg_space, padding. rewrite !size_app, !le_digits_size. unfold size at 2. rewrite length_replicate.
  set (n := size (value p)). pose proof (Z.mod_pos_bound (- n) 8). pose proof (Z.div_mod (n + 7) 8).
  pose proof (Z.mod_pos_bound (n + 7) 8). pose proof (Z.div_mod (- n) 8). rewrite Z2Nat.id by lia. lia.
Qed.

Lemma cmsg_size_ge p : 16 <= size (cmsg p).
Proof.
  rewrite cmsg_size. unfold cmsg_space. pose proof (size_nonneg (value p)). pose proof (Z.div_pos (size (value p) + 7) 8). lia.
Qed.

Lemma s32_small v : - 2 ^ 31 <= v < 2 ^ 31 -> s32 (v mod 256 ^ Z.of_nat 4) = v.
Proof.
  intros Hv. change (256 ^ Z.of_nat 4) with (2 ^ 32). unfold s32, u32. rewrite Z.mod_mod by done.
  destruct (Z_lt_le_dec v 0).
  - rewrite <-(Z_mod_plus_full v 1), Z.mod_small by lia. rewrite decide_False by lia. lia.
  - rewrite Z.mod_small by lia. by rewrite decide_True by lia.
Qed.

Section at_property.
  Context (A B data : list Z) (p : property) (Hp : prop_ok p) (Hdata : data = A ++ cmsg p ++ B) (Hsz : size data < 2 ^ 59).

Lemma value_small : 16 + size (value p) < 2 ^ 59.
Proof.
  pose proof Hsz as Hz. rewrite Hdata, !size_app, cmsg_size in Hz. unfold cmsg_space in Hz.
  pose proof (size_nonneg A). pose proof (size_nonneg B).
  pose proof (Z.div_mod (size (value p) + 7) 8). pose proof (Z.mod_pos_bound (size (value p) + 7) 8). lia.
Qed.

Lemma len_at : cmsg_len data (size A) = Ret (16 + size (value p)).
Proof.
  pose proof value_small. rewrite Hdata. unfold cmsg_len, cmsg. rewrite <-!app_assoc, read_le_app by done. rewrite le_value_digits.
  pose proof (size_nonneg (value p)). unfold sizeof_cmsghdr. rewrite Z.mod_small; [done|].
  change (256 ^ Z.of_nat 8) with (2 ^ 64). lia.
Qed.

Lemma level_at : cmsg_level data (size A) = Ret (level p).
Proof.
  rewrite Hdata. unfold cmsg_level, cmsg. rewrite <-!app_assoc, (app_assoc A).
  rewrite read_le_app by (rewrite ?size_app, ?le_digits_size; done).
  change (Ret (s32 (le_value (le_digits 4 (level p)))) = Ret (level p)). rewrite le_value_digits. f_equal. apply s32_small. apply Hp.
Qed.

Lemma type_at : cmsg_type data (size A) = Ret (ptype p).
Proof.
  rewrite Hdata. unfold cmsg_type, cmsg. rewrite <-!app_assoc, (app_assoc (le_digits 8 _)), (app_assoc A).
  rewrite read_le_app by (rewrite ?size_app, ?le_digits_size; lia).
  change (Ret (s32 (le_value (le_digits 4 (ptype p)))) = Ret (ptype p)). rewrite le_value_digits. f_equal. apply s32_small. apply Hp.
Qed.

(** Where the next header would be. *)
Lemma step_at : u64 (size A + NN_CMSG_ALIGN_ (16 + size (value p))) = size (A ++ cmsg p).
Proof.
  pose proof value_small. pose proof (size_nonneg (value p)). rewrite align_eq by lia. rewrite size_app, cmsg_size. unfold cmsg_space.
  replace (16 + size (value p) + 7) with (size (value p) + 7 + 2 * 8) by lia. rewrite Z.div_add by lia.
  pose proof Hsz as Hz. rewrite Hdata, !size_app, cmsg_size in Hz. unfold cmsg_space in Hz. pose proof (size_nonneg A). pose proof (size_nonneg B).
  pose proof (Z.div_mod (size (value p) + 7) 8). pose proof (Z.mod_pos_bound (size (value p) + 7) 8). rewrite u64_small; lia.
Qed.
End at_property.

(** ** The walk *)

Definition is_prop (l t : Z) (p : property) : bool := (level p =? l) && (ptype p =? t).

(** The tests of [nn_cmsg_nxthdr_] at an offset. *)
Definition look (data : list Z) (next : Z) : outcome (option Z) :=
  if u64 (next + NN_CMSG_SPACE 0) >? size data then Ret None else
  len ← cmsg_len data next;
  if u64 (next + NN_CMSG_ALIGN_ len) >? size data then Ret None else Ret (Some next).

Lemma look_ok A ps rest data : data = A ++ cmsgs ps ++ rest -> Forall prop_ok ps -> size data < 2 ^ 59 ->
  (ps = [] -> rest = []) -> look data (size A) = Ret (match ps with [] => None | _ => Some (size A) end).
Proof.
  intros Hd Hps Hsz He. unfold look. change (NN_CMSG_SPACE 0) with 16. pose proof (size_nonneg A).
  destruct ps as [|p ps].
  - rewrite He in Hd by done. cbn in Hd. rewrite app_nil_r in Hd. subst data. rewrite u64_small by lia.
    by rewrite (proj2 (Z.gtb_lt _ _)) by lia.
  - apply Forall_cons in Hps as [Hp _]. unfold cmsgs in Hd. cbn [map concat] in Hd. rewrite <-app_assoc in Hd.
    set (B := concat (map cmsg ps) ++ rest) in *.
    rewrite (len_at A B data p Hd Hsz), bind_of_Ret, (step_at A B data p Hd Hsz).
    pose proof (size_nonneg B). subst data. rewrite !size_app in *.
    pose proof (cmsg_size_ge p).
    rewrite u64_small by lia. rewrite Z.gtb_ltb, (proj2 (Z.ltb_ge _ _)) by lia. cbn [mbind outcome_bind].
    by rewrite Z.gtb_ltb, (proj2 (Z.ltb_ge _ _)) by lia.
Qed.

(** The first property of the level and type, and its offset. *)
Fixpoint first_at (l t : Z) (o : Z) (ps : list property) : option (Z * property) :=
  match ps with
  | [] => None
  | p :: ps => if is_prop l t p then Some (o, p) else first_at l t (o + size (cmsg p)) ps
  end.

(** Behind the property looked for there may be anything. *)
Definition walkable (l t : Z) (ps : list property) (rest : list Z) : Prop :=
  Forall prop_ok ps /\ (rest = [] \/ Exists (fun p => is_prop l t p = true) ps).

Lemma find_from l t ps : forall fuel A rest data, data = A ++ cmsgs ps ++ rest -> walkable l t ps rest -> size data < 2 ^ 59 ->
  (length ps < fuel)%nat ->
  find_cmsg fuel l t data (match ps with [] => None | _ => Some (size A) end) = Ret (fst <$> first_at l t (size A) ps).
Proof.
  induction ps as [|p ps IH]; intros fuel A rest data Hd [Hps Hr] Hsz Hf; [by destruct fuel|].
  destruct fuel as [|fuel]; [cbn in Hf; lia|]. apply Forall_cons in Hps as [Hp Hps].
  assert (Hd' : data = A ++ cmsg p ++ (cmsgs ps ++ rest)) by (rewrite Hd; unfold cmsgs; cbn; by rewrite <-app_assoc).
  cbn [find_cmsg first_at]. rewrite (level_at A _ data p Hp Hd'), (type_at A _ data p Hp Hd'). cbn [mbind outcome_bind].
  unfold is_prop. destruct ((level p =? l) && (ptype p =? t)) eqn:E; [done|].
  assert (Hd2 : data = (A ++ cmsg p) ++ cmsgs ps ++ rest) by (by rewrite <-app_assoc).
  assert (Hr' : rest = [] \/ Exists (fun p => is_prop l t p = true) ps).
  { destruct Hr as [?|Hr]; [by left|]. apply Exists_cons in Hr as [Hr|Hr]; [|by right]. unfold is_prop in Hr. congruence. }
  assert (Hnext : NN_CMSG_NXTHDR data (size A) = Ret (match ps with [] => None | _ => Some (size (A ++ cmsg p)) end)).
  { unfold NN_CMSG_NXTHDR, nn_cmsg_nxthdr_. change (NN_CMSG_SPACE 0) with 16.
    assert (Hge : 16 <= size data).
    { rewrite Hd', !size_app. pose proof (cmsg_size_ge p). pose proof (size_nonneg A). pose proof (size_nonneg (cmsgs ps)).
      pose proof (size_nonneg rest). lia. }
    rewrite (proj2 (Z.ltb_ge _ _)) by lia. rewrite (len_at A _ data p Hd' Hsz). cbn [mbind outcome_bind].
    rewrite (step_at A _ data p Hd' Hsz). apply (look_ok _ ps rest); try done.
    intros ->. destruct Hr' as [?|Hr']; [done | by apply Exists_nil in Hr']. }
  rewrite Hnext. cbn [mbind outcome_bind]. rewrite <-size_app. eapply IH; [exact Hd2 | by split | done |]. cbn in Hf. lia.
Qed.

Lemma find_first l t ps rest data : data = cmsgs ps ++ rest -> walkable l t ps rest -> size data < 2 ^ 59 ->
  (first ← NN_CMSG_FIRSTHDR data; find_cmsg (S (length data)) l t data first) = Ret (fst <$> first_at l t 0 ps).
Proof.
  intros Hd Hw Hsz.
  assert (Hlen : (length ps <= length data)%nat).
  { rewrite Hd, length_app. transitivity (length (cmsgs ps)); [|lia]. clear. unfold cmsgs.
    induction ps as [|p ps IH]; cbn [map concat length]; [lia|]. rewrite length_app. pose proof (cmsg_size_ge p).
    unfold size in *. lia. }
  assert (Hfirst : NN_CMSG_FIRSTHDR data = Ret (match ps with [] => None | _ => Some (size []) end)).
  { unfold NN_CMSG_FIRSTHDR, nn_cmsg_nxthdr_. change (NN_CMSG_SPACE 0) with 16. destruct (Z.ltb_spec (size data) 16) as [Hs|Hs].
    - destruct ps as [|p ps]; [done|]. rewrite Hd in Hs. unfold cmsgs in Hs. cbn [map concat] in Hs.
      rewrite !size_app in Hs. pose proof (cmsg_size_ge p). pose proof (size_nonneg (concat (map cmsg ps))).
      pose proof (size_nonneg rest). lia.
    - cbn [mbind outcome_bind]. apply (look_ok [] ps rest); try done; [apply Hw|].
      intros ->. destruct Hw as [_ [?|Hr]]; [done | by apply Exists_nil in Hr]. }
  rewrite Hfirst. cbn [mbind outcome_bind]. apply (find_from l t ps _ [] rest); try done. lia.
Qed.

Lemma first_at_split l t ps : forall o o' p, first_at l t o ps = Some (o', p) ->
  exists pre post, ps = pre ++ p :: post /\ o' = o + size (cmsgs pre).
Proof.
  induction ps as [|q ps IH]; intros o o' p Hf; [done|]. cbn [first_at] in Hf. destruct (is_prop l t q).
  - injection Hf as <- <-. exists [], ps. split; [done|]. change (size (cmsgs [])) with 0. lia.
  - apply IH in Hf as (pre & post & -> & ->). exists (q :: pre), post. split; [done|].
    unfold cmsgs. cbn [map concat]. rewrite size_app. lia.
Qed.
