(* ===== verification/ApiSpec.v ===== *)
(** * ApiSpec: messages through the public interface

    [own_msg] is the ownership of a message with its three fields.  The lemmas
    follow the functions of Api.v; [sendmsg_accounts] says what becomes of the
    buffers, chunks and control messages of a sender, [device_forwards] that a
    message received and sent on as devices/device.c does it arrives as it was. *)

From stdpp Require Import base gmap list.
From Stdlib Require Import ZArith Lia.
From S2P Require Import Prelude ListHeap Message Cmsg Sock.
From S2P Require Import Chunk ChunkSpec Api.

Open Scope Z_scope.

(** ** Owning a message *)

Definition own_msg (g : owned) (x : loc) (h d b : list Z) : owned :=
  put_val (put_val (put_val g (x, Sphdr) h) (x, Hdrs) d) (x, Body) b.

(** The message [x] is not initialised. *)
Definition unowned (g : owned) (x : loc) : Prop := forall f, f <> Var -> vals g !! (x, f) = None.

Lemma own_sphdr g x h d b : vals (own_msg g x h d b) !! (x, Sphdr) = Some h.
Proof. cbn. by rewrite !lookup_insert_ne, lookup_insert_eq by done. Qed.

Lemma own_hdrs g x h d b : vals (own_msg g x h d b) !! (x, Hdrs) = Some d.
Proof. cbn. by rewrite lookup_insert_ne, lookup_insert_eq by done. Qed.

Lemma own_body g x h d b : vals (own_msg g x h d b) !! (x, Body) = Some b.
Proof. cbn. by rewrite lookup_insert_eq. Qed.

Lemma own_other g x h d b y f : y <> x \/ f = Var -> vals (own_msg g x h d b) !! (y, f) = vals g !! (y, f).
Proof. intros Ho. cbn. rewrite !lookup_insert_ne; [done|..]; intros [= <- <-]; naive_solver. Qed.

Lemma own_unowned g x h d b y : y <> x -> unowned g y -> unowned (own_msg g x h d b) y.
Proof. intros Hne Hu f Hf. rewrite own_other by by left. by apply Hu. Qed.

(** Two descriptions of what is owned, looked up at every reference. *)
Ltac own_eq :=
  split; [apply map_eq; intros ?r; unfold own_msg; cbn [vals put_val drop_val];
      rewrite ?lookup_insert, ?lookup_delete; repeat (case_decide || rewrite lookup_insert || rewrite lookup_delete);
      subst; try congruence
    | intros ?b0; unfold own_msg; autorewrite with owned; try done].

Lemma put_sphdr g x h d b h' : put_val (own_msg g x h d b) (x, Sphdr) h' ≡ own_msg g x h' d b.
Proof. own_eq. Qed.

Lemma put_hdrs g x h d b d' : put_val (own_msg g x h d b) (x, Hdrs) d' ≡ own_msg g x h d' b.
Proof. own_eq. Qed.

Lemma put_body g x h d b b' : put_val (own_msg g x h d b) (x, Body) b' ≡ own_msg g x h d b'.
Proof. own_eq. Qed.

(** What a call owns besides, a change of it. *)
Lemma own_put_var g x h d b v p : put_val (own_msg g x h d b) (v, Var) p ≡ own_msg (put_val g (v, Var) p) x h d b.
Proof. own_eq. Qed.

Lemma rep_equiv m g g' : g ≡ g' -> mem_rep m g -> mem_rep m g'.
Proof. intros He. by rewrite He. Qed.

(** ** Terminating and moving a message *)

Lemma own_term m g x h d b : mem_rep m (own_msg g x h d b) -> unowned g x ->
  exists m', nn_msg_term m x = Ret m' /\ mem_rep m' g.
Proof.
  intros Hm Hu. unfold nn_msg_term.
  destruct (term_ok _ _ (x, Sphdr) h Hm) as (m1 & -> & H1); [apply own_sphdr|]. rewrite bind_of_Ret.
  destruct (term_ok _ _ (x, Hdrs) d H1) as (m2 & -> & H2).
  { cbn. rewrite lookup_delete_ne by done. apply own_hdrs. }
  rewrite bind_of_Ret. destruct (term_ok _ _ (x, Body) b H2) as (m3 & -> & H3).
  { cbn. rewrite !lookup_delete_ne by done. apply own_body. }
  exists m3. split; [done|]. revert H3. apply rep_equiv. pose proof (Hu Sphdr) as U1. pose proof (Hu Hdrs) as U2.
  pose proof (Hu Body) as U3. own_eq; symmetry; auto.
Qed.

Lemma own_mv m g src dst h d b : mem_rep m (own_msg g src h d b) -> src <> dst -> unowned g src -> unowned g dst ->
  exists m', nn_msg_mv m dst src = Ret m' /\ mem_rep m' (own_msg g dst h d b).
Proof.
  intros Hm Hne Hs Hd. unfold nn_msg_mv.
  destruct (mv_ok _ _ (dst, Sphdr) (src, Sphdr) h Hm) as (m1 & -> & H1); [apply own_sphdr|by apply own_unowned|].
  rewrite bind_of_Ret. destruct (mv_ok _ _ (dst, Hdrs) (src, Hdrs) d H1) as (m2 & -> & H2).
  { cbn. rewrite lookup_insert_ne, lookup_delete_ne by congruence. apply own_hdrs. }
  { cbn. rewrite lookup_insert_ne, lookup_delete_ne by congruence. by apply own_unowned. }
  rewrite bind_of_Ret. destruct (mv_ok _ _ (dst, Body) (src, Body) b H2) as (m3 & -> & H3).
  { cbn. do 2 rewrite lookup_insert_ne, lookup_delete_ne by congruence. apply own_body. }
  { cbn. do 2 rewrite lookup_insert_ne, lookup_delete_ne by congruence. by apply own_unowned. }
  exists m3. split; [done|]. revert H3. apply rep_equiv. pose proof (Hs Sphdr) as U1. pose proof (Hs Hdrs) as U2.
  pose proof (Hs Body) as U3. own_eq; symmetry; auto.
Qed.

(** A message in memory with all three fields short. *)
Definition put_message (m : memory) (x : loc) (h d b : list Z) : memory :=
  set_ref (set_ref (set_ref m (x, Sphdr) (Vsm h)) (x, Hdrs) (Vsm d)) (x, Body) (Vsm b).

Lemma put_message_own m g x h d b : mem_rep m g -> unowned g x -> size h < 32 -> size d < 32 -> size b < 32 ->
  mem_rep (put_message m x h d b) (own_msg g x h d b).
Proof.
  intros Hm Hu Sh Sd Sb.
  assert (H1 : mem_rep (set_ref m (x, Sphdr) (Vsm h)) (put_val g (x, Sphdr) h))
    by (apply (rep_claim m g (x, Sphdr) (Vsm h) h); [done | by apply Hu | by split | done]).
  assert (H2 : mem_rep (set_ref (set_ref m (x, Sphdr) (Vsm h)) (x, Hdrs) (Vsm d)) (put_val (put_val g (x, Sphdr) h) (x, Hdrs) d)).
  { apply (rep_claim _ _ (x, Hdrs) (Vsm d) d H1); [| by split | done]. cbn. rewrite lookup_insert_ne by done. by apply Hu. }
  apply (rep_claim _ _ (x, Body) (Vsm b) b H2); [| by split | done]. cbn. rewrite !lookup_insert_ne by done. by apply Hu.
Qed.

Lemma unowned_nothing x : unowned nothing x.
Proof. intros f _. apply lookup_empty. Qed.

(** ** Which references a function writes *)

Definition frame (l : list cref) (m m' : memory) : Prop := forall r, r ∉ l -> refs m' !! r = refs m !! r.

Lemma refs_frame_trans l m1 m2 m3 : frame l m1 m2 -> frame l m2 m3 -> frame l m1 m3.
Proof. intros H1 H2 r Hr. by rewrite H2, H1. Qed.

Lemma refs_frame_mono l l' m m' : frame l m m' -> (forall r, r ∈ l -> r ∈ l') -> frame l' m m'.
Proof. intros Hf Hl r Hr. apply Hf. intros Hi. by apply Hr, Hl. Qed.

Lemma init_frame m a r n m' : nn_chunkref_init m a r n = Ret m' -> frame [r] m m'.
Proof.
  unfold nn_chunkref_init. intros Hi q Hq. assert (Hne : q <> r) by (intros ->; apply Hq; by left).
  destruct (n <? NN_CHUNKREF_MAX); [injection Hi as <-; cbn; by rewrite lookup_insert_ne|].
  apply bind_Ret in Hi as ([[h rc] p] & _ & Hi). apply bind_Ret in Hi as (u & _ & Hi). destruct p; [|done].
  injection Hi as <-. cbn. by rewrite lookup_insert_ne.
Qed.

Lemma store_frame m r o bs m' : store m r o bs = Ret m' -> frame [r] m m'.
Proof.
  unfold store, nn_chunkref_data. intros Hs q Hq. assert (Hne : q <> r) by (intros ->; apply Hq; by left).
  apply bind_Ret in Hs as (d & Hd & Hs). apply bind_Ret in Hd as (v & Hv & Hd). injection Hd as <-.
  destruct v as [x|p]; cbn [store_data] in Hs; inv_ret; [|done]. case_match; inv_ret. cbn. by rewrite lookup_insert_ne.
Qed.

Lemma term_frame m r m' : nn_chunkref_term m r = Ret m' -> frame [] m m'.
Proof. intros Ht q _. by rewrite (term_refs _ _ _ Ht). Qed.

Lemma fill_frame l : forall m r pos m', fill_body m r pos l = Ret m' -> frame [r] m m'.
Proof.
  induction l as [|i l IH]; intros m r pos m' Hf; cbn [fill_body] in Hf; [injection Hf as <-; done|].
  apply bind_Ret in Hf as (bs & _ & Hf). apply bind_Ret in Hf as (m1 & Hs & Hf).
  eapply refs_frame_trans; [by eapply store_frame | by eapply IH].
Qed.

(** ** Memory from the allocator *)

(** Memory is there for every size that is asked for. *)
Class Malloc (malloc : chunk_heap -> Z -> allocation) : Prop := {
  malloc_ok h n : 0 <= n < 2 ^ 40 -> alloc_ok h (malloc h n) n
}.

(** An allocator that always finds memory. *)
Definition plain_malloc (h : chunk_heap) (n : Z) : allocation :=
  Allocation (Some (fresh (dom h))) (replicate (Z.to_nat (8 + n)) 0).

#[export] Instance plain_malloc_ok : Malloc plain_malloc.
Proof.
  split. intros h n Hn. split; [unfold nn_chunk_hdrsize, sizeof_nn_chunk; lia|]. split.
  - unfold plain_malloc, size. cbn [junk]. rewrite length_replicate. lia.
  - eexists. split; [reflexivity|]. apply not_elem_of_dom, is_fresh.
Qed.

Lemma init_private m a r n m' : nn_chunkref_init m a r n = Ret m' -> alloc_ok (chunks m) a n -> private m' r.
Proof.
  unfold nn_chunkref_init. intros Hi Ha p c. destruct (n <? NN_CHUNKREF_MAX).
  - injection Hi as <-. cbn. by rewrite lookup_insert_eq.
  - destruct (alloc_spec _ _ _ Ha) as (b & c' & _ & E & Hc & _). rewrite E in Hi. cbn in Hi. injection Hi as <-. cbn.
    rewrite lookup_insert_eq. intros [= <-]. cbn. rewrite lookup_insert_eq. by intros [= <-].
Qed.

Section spec.
  Context (malloc : chunk_heap -> Z -> allocation) `{!Malloc malloc}.

Lemma init_own m g r n : mem_rep m g -> vals g !! r = None -> 0 <= n < 2 ^ 40 ->
  exists m' bs, init malloc m r n = Ret m' /\ mem_rep m' (put_val g r bs) /\ size bs = n /\ private m' r.
Proof.
  intros Hm Hr Hn. pose proof (malloc_ok (chunks m) n Hn) as Ha. unfold init.
  destruct (init_ok m g r n _ Hm Hr Ha) as (m' & E & Hm' & Hs). exists m', (init_bytes (malloc (chunks m) n) n).
  split; [done|]. split; [done|]. split; [done|]. by eapply init_private.
Qed.

Lemma small_init m g a x f : mem_rep m g -> vals g !! (x, f) = None ->
  nn_chunkref_init m a (x, f) 0 = Ret (set_ref m (x, f) (Vsm [])) /\
  mem_rep (set_ref m (x, f) (Vsm [])) (put_val g (x, f) []).
Proof. intros Hm Hv. split; [done|]. by apply (rep_claim m g (x, f) (Vsm [])). Qed.

Lemma msg_init_own m g x n : mem_rep m g -> unowned g x -> 0 <= n < 2 ^ 40 ->
  exists m' bs, msg_init malloc m x n = Ret m' /\ mem_rep m' (own_msg g x [] [] bs) /\ size bs = n /\ private m' (x, Body).
Proof.
  intros Hm Hu Hn. unfold msg_init, nn_msg_init. set (a := malloc (chunks m) n).
  assert (Ha : alloc_ok (chunks m) a n) by (by apply malloc_ok).
  destruct (small_init m g a x Sphdr Hm) as [-> H1]; [by apply Hu|]. rewrite bind_of_Ret.
  destruct (small_init _ _ a x Hdrs H1) as [-> H2]; [cbn; rewrite lookup_insert_ne by done; by apply Hu|]. rewrite bind_of_Ret.
  set (m2 := set_ref (set_ref m (x, Sphdr) (Vsm [])) (x, Hdrs) (Vsm [])) in *.
  destruct (init_ok m2 _ (x, Body) n a H2) as (m3 & E & H3 & Hs).
  { cbn. rewrite !lookup_insert_ne by done. by apply Hu. } { exact Ha. }
  exists m3, (init_bytes a n). split; [done|]. split; [done|]. split; [done|]. by eapply init_private.
Qed.

(** A chunk of the caller becomes the body. *)
Lemma msg_init_chunk_own m g x v p data :
  mem_rep m g -> unowned g x -> vals g !! (v, Var) = Some data -> refs m !! (v, Var) = Some (Ref p) ->
  exists m', msg_init_chunk malloc m x p = Ret m' /\ mem_rep m' (own_msg (drop_val g (v, Var)) x [] [] data) /\
    refs m' !! (v, Var) = Some (Ref p) /\ refs m' !! (x, Body) = Some (Ref p).
Proof.
  intros Hm Hu Hv Hp. unfold msg_init_chunk, nn_msg_init_chunk. set (a := malloc (chunks m) 0).
  destruct (small_init m g a x Sphdr Hm) as [-> H1]; [by apply Hu|]. rewrite bind_of_Ret.
  destruct (small_init _ _ a x Hdrs H1) as [-> H2]; [cbn; rewrite lookup_insert_ne by done; by apply Hu|]. rewrite bind_of_Ret.
  set (m2 := set_ref (set_ref m (x, Sphdr) (Vsm [])) (x, Hdrs) (Vsm [])) in *.
  assert (Hp2 : refs m2 !! (v, Var) = Some (Ref p)) by (cbn; by rewrite !lookup_insert_ne by done).
  rewrite (init_chunk_is_mv m2 (x, Body) v p Hp2).
  destruct (mv_ok m2 _ (x, Body) (v, Var) data H2) as (m3 & E & H3).
  { cbn. by rewrite !lookup_insert_ne by done. } { cbn. rewrite !lookup_insert_ne by done. by apply Hu. }
  exists m3. split; [done|]. split.
  - revert H3. apply rep_equiv. own_eq.
  - rewrite <-(init_chunk_is_mv m2 (x, Body) v p Hp2) in E. injection E as <-. cbn.
    rewrite lookup_insert_ne, lookup_insert_eq by done. done.
Qed.

(** ** The body *)

Definition iov_bytes (i : nn_iovec) : list Z :=
  match iov_base i with Bytes bs => take (Z.to_nat (iov_len i)) bs | _ => [] end.

Definition content (l : list nn_iovec) : list Z := concat (map iov_bytes l).

(** A buffer of the caller, with as many bytes as it says. *)
Definition iov_ok (i : nn_iovec) : Prop :=
  0 <= iov_len i < 2 ^ 40 /\ match iov_base i with Bytes bs => iov_len i <= size bs | _ => iov_len i = 0 end.

Lemma iov_size i : iov_ok i -> size (iov_bytes i) = iov_len i.
Proof.
  intros [Hl Hb]. unfold iov_bytes. destruct (iov_base i) as [|bs|v]; [by rewrite Hb| |by rewrite Hb].
  apply size_take_drop. lia.
Qed.

Lemma copy_in_ok i : iov_ok i -> copy_in (iov_base i) (iov_len i) = Ret (iov_bytes i).
Proof.
  intros [Hl Hb]. unfold copy_in, iov_bytes. destruct (iov_base i) as [|bs|v]; [by rewrite Hb| |by rewrite Hb].
  unfold read_at. rewrite (proj2 (Z.leb_le _ _)) by lia. by rewrite (proj2 (Z.leb_le _ _)) by lia.
Qed.

Lemma not_whole i : iov_ok i -> (iov_len i =? NN_MSG) = false.
Proof. intros [Hl _]. apply Z.eqb_neq. unfold NN_MSG. lia. Qed.

Lemma whole_none l : Forall iov_ok l -> whole l = None.
Proof. destruct 1 as [|i l Hi [|]]; cbn; [done| |done]. by rewrite not_whole. Qed.

Definition iov_sum (l : list nn_iovec) : Z := foldr Z.add 0 (map iov_len l).

(** The check for overflow: the sizes are added up as long as they fit. *)
Lemma iov_total_exact l : forall sz, Forall (fun i => 0 <= iov_len i < NN_MSG /\ (iov_base i = Null -> iov_len i = 0)) l ->
  0 <= sz < 2 ^ 64 -> iov_total sz l = if sz + iov_sum l <? 2 ^ 64 then inl (sz + iov_sum l) else inr (- EINVAL).
Proof.
  induction l as [|i l IH]; intros sz Hl Hs; cbn [iov_total iov_sum map foldr]; unfold iov_sum in *; cbn [map foldr].
  { rewrite Z.add_0_r. by rewrite (proj2 (Z.ltb_lt _ _)) by lia. }
  apply Forall_cons in Hl as [[Hi Hn] Hl]. rewrite (proj2 (Z.eqb_neq _ _)) by lia.
  assert (Hnull : (match iov_base i with Null => true | _ => false end) && negb (iov_len i =? 0) = false).
  { destruct (iov_base i); [by rewrite Hn|done..]. }
  assert (Hp : 0 <= foldr Z.add 0 (map iov_len l)).
  { clear -Hl. induction Hl as [|j l [Hj _] _ IH]; cbn; lia. }
  rewrite Hnull. unfold NN_MSG in *. destruct (Z_lt_le_dec (sz + iov_len i) (2 ^ 64)) as [Hlt|Hge].
  - rewrite u64_small by lia. rewrite (proj2 (Z.ltb_ge _ _)) by lia. rewrite IH by (done || lia). by rewrite Z.add_assoc.
  - assert (Hu : u64 (sz + iov_len i) = sz + iov_len i - 2 ^ 64).
    { unfold u64. symmetry. apply (Z.mod_unique _ _ 1); lia. }
    rewrite Hu, (proj2 (Z.ltb_lt _ _)) by lia. by rewrite (proj2 (Z.ltb_ge _ _)) by lia.
Qed.

Lemma content_size l : Forall iov_ok l -> size (content l) = iov_sum l.
Proof.
  unfold content, iov_sum. induction 1 as [|i l Hi Hl IH]; [done|]. cbn [map concat foldr]. by rewrite size_app, iov_size, IH.
Qed.

Lemma iov_total_ok l : Forall iov_ok l -> size (content l) < 2 ^ 40 -> iov_total 0 l = inl (size (content l)).
Proof.
  intros Hl Hs. rewrite content_size in * by done. rewrite iov_total_exact; [by rewrite (proj2 (Z.ltb_lt _ _)) by lia | | lia].
  eapply Forall_impl; [exact Hl|]. intros i [Hi Hb]. split; [unfold NN_MSG; lia|]. intros E. by rewrite E in Hb.
Qed.

Lemma overwrite_app d i a b : 0 <= i -> i + size a + size b <= size d ->
  overwrite (overwrite d i a) (i + size a) b = overwrite d i (a ++ b).
Proof.
  intros Hi Hs. pose proof (size_nonneg a). pose proof (size_nonneg b).
  destruct (cut d i) as (d1 & r & -> & H1); [lia|]. rewrite size_app in Hs.
  destruct (cut r (size a)) as (d2 & r2 & -> & H2); [lia|]. rewrite size_app in Hs.
  destruct (cut r2 (size b)) as (d3 & d4 & -> & H3); [lia|].
  assert (Hcut : forall x y z w n, n = size x -> size y = size z ->
    overwrite (x ++ y ++ w) n z = x ++ z ++ w).
  { intros x y z w n -> Hyz. unfold overwrite. rewrite take_app_length' by (unfold size; lia).
    rewrite (app_assoc x y), drop_app_length' by (rewrite length_app; unfold size in *; lia). done. }
  rewrite (Hcut d1 d2 a) by done. rewrite (app_assoc d1 a), (Hcut (d1 ++ a) d3 b) by (rewrite ?size_app; lia).
  rewrite <-app_assoc, (app_assoc a b), (app_assoc d2 d3), (Hcut d1 (d2 ++ d3) (a ++ b)); [by rewrite <-!app_assoc|lia|].
  rewrite !size_app. lia.
Qed.

Lemma overwrite_nil d i : 0 <= i <= size d -> overwrite d i [] = d.
Proof. intros Hi. unfold overwrite. change (size []) with 0. rewrite Z.add_0_r. cbn [app]. apply take_drop. Qed.

Lemma overwrite_all d bs : size bs = size d -> overwrite d 0 bs = bs.
Proof.
  intros Hs. unfold overwrite. cbn [Z.to_nat take app]. rewrite Z.add_0_l, drop_ge by (unfold size in *; lia). apply app_nil_r.
Qed.

Lemma store_own m g r data i bs : mem_rep m g -> vals g !! r = Some data -> private m r -> 0 <= i -> i + size bs <= size data ->
  exists m', store m r i bs = Ret m' /\ mem_rep m' (put_val g r (overwrite data i bs)) /\ private m' r.
Proof.
  intros Hm Hv Hp Hi Hs. destruct (store_ok m g r data i bs Hm Hv Hp Hi Hs) as (m' & E & Hm'). exists m'.
  split; [exact E|]. split; [done|]. apply bind_Ret in E as (d & _ & E). eapply keeps_private; [by eapply store_keeps | done].
Qed.

Lemma put_put g r a b : put_val (put_val g r a) r b ≡ put_val g r b.
Proof. own_eq. Qed.

Lemma fill_ok l : forall m g r data pos, Forall iov_ok l -> mem_rep m g -> vals g !! r = Some data -> private m r ->
  0 <= pos -> pos + size (content l) <= size data ->
  exists m', fill_body m r pos l = Ret m' /\ mem_rep m' (put_val g r (overwrite data pos (content l))).
Proof.
  induction l as [|i l IH]; intros m g r data pos Hl Hm Hv Hp Hpos Hs.
  { exists m. split; [done|]. change (content []) with (@nil Z) in *. change (size []) with 0 in Hs. rewrite overwrite_nil by lia.
    revert Hm. apply rep_equiv. split; [|done]. cbn. by rewrite insert_id. }
  apply Forall_cons in Hl as [Hi Hl]. unfold content in Hs. cbn [map concat] in Hs. fold (content l) in Hs.
  rewrite size_app in Hs. pose proof (size_nonneg (content l)). cbn [fill_body]. rewrite copy_in_ok, bind_of_Ret by done.
  destruct (store_own m g r data pos (iov_bytes i) Hm Hv Hp Hpos) as (m1 & -> & H1 & Hp1); [lia|]. rewrite bind_of_Ret.
  rewrite <-(iov_size i) by done.
  destruct (IH m1 _ r (overwrite data pos (iov_bytes i)) (pos + size (iov_bytes i)) Hl H1) as (m2 & E & H2);
    [cbn; apply lookup_insert_eq | done | pose proof (size_nonneg (iov_bytes i)); lia | rewrite overwrite_size by lia; lia |].
  exists m2. split; [exact E|]. rewrite overwrite_app in H2 by lia. by rewrite put_put in H2.
Qed.

(** The message out of the buffers. *)
Lemma build_ok m g x hdr l : mem_rep m g -> unowned g x -> iovs hdr = Ret l -> Forall iov_ok l -> size (content l) < 2 ^ 40 ->
  exists m', build_body malloc m x hdr = Ret (inl (m', size (content l), false)) /\ mem_rep m' (own_msg g x [] [] (content l)).
Proof.
  intros Hm Hu Hio Hl Hs. unfold build_body. rewrite Hio, bind_of_Ret, whole_none by done.
  pose proof (size_nonneg (content l)). rewrite iov_total_ok by done.
  destruct (msg_init_own m g x (size (content l)) Hm Hu) as (m1 & bs & -> & H1 & Hbs & Hp); [lia|]. rewrite bind_of_Ret.
  destruct (fill_ok l m1 _ (x, Body) bs 0 Hl H1) as (m2 & -> & H2); [apply own_body | done | lia | lia |]. rewrite bind_of_Ret.
  exists m2. split; [done|]. rewrite overwrite_all in H2 by done. by rewrite put_body in H2.
Qed.

Lemma build_chunk m g x hdr v data i : mem_rep m g -> unowned g x ->
  iovs hdr = Ret [i] -> iov_len i = NN_MSG -> iov_base i = ChunkVar (Some v) ->
  vals g !! (v, Var) = Some data -> is_var m v ->
  exists m', build_body malloc m x hdr = Ret (inl (m', size data, true)) /\
    mem_rep m' (own_msg (drop_val g (v, Var)) x [] [] data) /\
    exists p, refs m' !! (v, Var) = Some (Ref p) /\ refs m' !! (x, Body) = Some (Ref p).
Proof.
  intros Hm Hu Hio Hn Hb Hv [p Hp]. unfold build_body. rewrite Hio, bind_of_Ret. cbn [whole]. rewrite Hn, Z.eqb_refl, Hb.
  load_ref Hp. destruct (own_ref m g _ data Hm Hv) as (w & Hw & Hok). rewrite Hp in Hw. injection Hw as <-.
  destruct Hok as (c & Hc & Hok). rewrite (chunk_size_at _ _ _ _ Hc Hok), bind_of_Ret.
  destruct (msg_init_chunk_own m g x v p data Hm Hu Hv Hp) as (m1 & -> & H1 & Hp1). rewrite bind_of_Ret.
  exists m1. split; [done|]. split; [done|]. by exists p.
Qed.

Lemma build_frame m x hdr m' sz b : build_body malloc m x hdr = Ret (inl (m', sz, b)) ->
  frame [(x, Sphdr); (x, Hdrs); (x, Body)] m m'.
Proof.
  assert (Hsub : forall f m1 m2, frame [(x, f)] m1 m2 -> f <> Var -> frame [(x, Sphdr); (x, Hdrs); (x, Body)] m1 m2).
  { intros f m1 m2 Hf Hn. eapply refs_frame_mono; [exact Hf|]. intros r Hr. apply list_elem_of_singleton in Hr as ->.
    destruct f; set_solver. }
  unfold build_body. intros Hb. apply bind_Ret in Hb as (l & _ & Hb). destruct (whole l) as [[|bs|[v|]]|]; try done.
  - apply bind_Ret in Hb as (p & _ & Hb). apply bind_Ret in Hb as (n & _ & Hb). apply bind_Ret in Hb as (m1 & Hi & Hb).
    injection Hb as <- _ _. unfold msg_init_chunk, nn_msg_init_chunk in Hi. apply bind_Ret in Hi as (m2 & H1 & Hi).
    apply bind_Ret in Hi as (m3 & H2 & Hi). injection Hi as <-.
    eapply refs_frame_trans; [eapply Hsub; [by eapply init_frame | done]|].
    eapply refs_frame_trans; [eapply Hsub; [by eapply init_frame | done]|].
    intros r Hr. cbn. rewrite lookup_insert_ne; [done|]. intros <-. set_solver.
  - destruct (iov_total 0 l) as [n|]; [|done]. apply bind_Ret in Hb as (m1 & Hi & Hb). apply bind_Ret in Hb as (m2 & Hf & Hb).
    injection Hb as <- _ _. unfold msg_init, nn_msg_init in Hi. apply bind_Ret in Hi as (m3 & H1 & Hi).
    apply bind_Ret in Hi as (m4 & H2 & Hi).
    eapply refs_frame_trans; [eapply Hsub; [exact (init_frame _ _ _ _ _ H1) | done]|].
    eapply refs_frame_trans; [eapply Hsub; [exact (init_frame _ _ _ _ _ H2) | done]|].
    eapply refs_frame_trans; [eapply Hsub; [exact (init_frame _ _ _ _ _ Hi) | done]|].
    eapply Hsub; [exact (fill_frame _ _ _ _ _ Hf) | done].
Qed.
End spec.
