(* ===== verification/ApiSend.v ===== *)
(** * ApiSend: what becomes of a message that is sent (src/core/global.c)

    [takes_body] and [takes_control] say what the caller of [nn_sendmsg] may hand
    over, buffers or chunks, and what is left to it; [sp_header_of] is the protocol
    header among the control messages.  [sendmsg_accounts] follows the message
    through the call. *)

From stdpp Require Import base gmap list.
From Stdlib Require Import ZArith Lia.
From S2P Require Import Prelude Wire ListHeap Message Cmsg CmsgSpec Sock.
From S2P Require Import Chunk ChunkSpec Api ApiSpec.

Open Scope Z_scope.

(** ** The protocol header *)

(** The value of an SP_HDR property: a size and as many bytes. *)
Definition sp_value (v : list Z) : list Z :=
  if size v >? 8 then
    let n := le_value (take 8 v) in
    if n <=? size v - 8 then take (Z.to_nat n) (drop 8 v) else []
  else [].

Definition sp_header_of (ps : list property) : list Z :=
  match first_at PROTO_SP SP_HDR 0 ps with Some (_, p) => sp_value (value p) | None => [] end.

(** ** Reading and replacing what a reference owns *)

Lemma load_own m g r a bs c o : mem_rep m g -> vals g !! r = Some (a ++ bs ++ c) -> o = size a ->
  load m r o (size bs) = Ret bs.
Proof.
  intros Hm Hv ->. destruct (own_ref m g r _ Hm Hv) as (v & Hrf & Hok). unfold load, nn_chunkref_data.
  load_ref Hrf. destruct v as [d|p]; cbn [load_data].
  - load_ref Hrf. destruct Hok as [-> _]. by apply read_at_app.
  - destruct Hok as (ch & Hc & _ & Ho & _ & space & Hs & Hmem). load Hc. rewrite Hmem.
    replace (space ++ _ ++ _ ++ a ++ bs ++ c)
      with ((space ++ be_digits 4 (off p - 8) ++ be_digits 4 NN_CHUNK_TAG ++ a) ++ bs ++ c) by (by rewrite <-!app_assoc).
    apply read_at_app; [|done]. rewrite !size_app, !be_digits_size. lia.
Qed.

Lemma load_all m g r data : mem_rep m g -> vals g !! r = Some data -> load m r 0 (size data) = Ret data.
Proof. intros Hm Hv. apply (load_own m g r [] data []); [done | by rewrite app_nil_r | done]. Qed.

(** ** What the caller hands over *)

(** The bytes of the body, what the caller owns without it, and the chunk. *)
Inductive takes_body (m : memory) (g : owned) (hdr : nn_msghdr) : list Z -> owned -> option loc -> Prop :=
  | body_bytes l : iovs hdr = Ret l -> Forall iov_ok l -> takes_body m g hdr (content l) g None
  | body_chunk i v b : iovs hdr = Ret [i] -> iov_len i = NN_MSG -> iov_base i = ChunkVar (Some v) ->
      vals g !! (v, Var) = Some b -> is_var m v -> takes_body m g hdr b (drop_val g (v, Var)) (Some v).

(** The same for the control messages. *)
Inductive takes_control (m : memory) (g : owned) (hdr : nn_msghdr) : list Z -> owned -> Prop :=
  | control_none : msg_control hdr = Null -> takes_control m g hdr [] g
  | control_bytes bs : msg_control hdr = Bytes bs -> 0 <= msg_controllen hdr < 2 ^ 40 -> msg_controllen hdr <= size bs ->
      takes_control m g hdr (take (Z.to_nat (msg_controllen hdr)) bs) g
  | control_chunk v d : msg_control hdr = ChunkVar (Some v) -> msg_controllen hdr = NN_MSG ->
      vals g !! (v, Var) = Some d -> is_var m v -> takes_control m g hdr d (drop_val g (v, Var)).

(** Control messages that the walk of [nn_sendmsg] gets through. *)
Definition control_ok (d : list Z) (ps : list property) : Prop :=
  exists rest, d = cmsgs ps ++ rest /\ walkable PROTO_SP SP_HDR ps rest /\ size d < 2 ^ 40.

Lemma control_nil ps : control_ok [] ps -> ps = [].
Proof.
  intros (rest & Hd & _). destruct ps as [|p ps]; [done|]. apply (f_equal size) in Hd. unfold cmsgs in Hd.
  cbn [map concat] in Hd. rewrite !size_app in Hd. change (size []) with 0 in Hd. pose proof (cmsg_size_ge p).
  pose proof (size_nonneg (concat (map cmsg ps))). pose proof (size_nonneg rest). lia.
Qed.

Section spec.
  Context (malloc : chunk_heap -> Z -> allocation) `{!Malloc malloc}.

(** A reference to as many bytes as are then stored. *)
Lemma replace_own m g r data bs : mem_rep m g -> vals g !! r = Some data -> size bs < 2 ^ 40 ->
  exists m1 m2 m3, nn_chunkref_term m r = Ret m1 /\ init malloc m1 r (size bs) = Ret m2 /\ store m2 r 0 bs = Ret m3 /\
    mem_rep m3 (put_val g r bs) /\ frame [r] m m3.
Proof.
  intros Hm Hv Hs. pose proof (size_nonneg bs).
  destruct (term_ok m g r data Hm Hv) as (m1 & E1 & H1).
  destruct (init_own malloc m1 _ r (size bs) H1) as (m2 & old & E2 & H2 & Hold & Hp); [cbn; apply lookup_delete_eq | lia |].
  destruct (store_own m2 _ r old 0 bs H2) as (m3 & E3 & H3 & _); [cbn; apply lookup_insert_eq | done | lia | lia |].
  exists m1, m2, m3. split; [done|]. split; [done|]. split; [done|]. split.
  - rewrite overwrite_all in H3 by done. revert H3. apply rep_equiv. by rewrite put_put, put_drop.
  - eapply refs_frame_trans; [eapply refs_frame_mono; [by eapply term_frame | set_solver]|].
    eapply refs_frame_trans; [by eapply init_frame | by eapply store_frame].
Qed.

(** ** Taking the header out of the control messages *)

Lemma take_sphdr_ok m g x h d b A p B data : mem_rep m (own_msg g x [] d b) -> prop_ok p ->
  data = A ++ cmsg p ++ B -> size data < 2 ^ 40 -> h = sp_value (value p) ->
  exists m', take_sphdr malloc m x data (size A) = Ret m' /\ mem_rep m' (own_msg g x h d b) /\ frame [(x, Sphdr)] m m'.
Proof.
  intros Hm Hp Hd Hs ->. assert (Hs' : size data < 2 ^ 59) by lia.
  pose proof (value_small A B data p Hd Hs') as Hv. pose proof (size_nonneg (value p)).
  unfold take_sphdr. rewrite (len_at A B data p Hd Hs'), bind_of_Ret. change (NN_CMSG_SPACE 0) with 16.
  replace (16 + size (value p) - 16) with (size (value p)) by lia. rewrite u64_small by lia. unfold sp_value, sizeof_size_t.
  destruct (Z.gtb_spec (size (value p)) 8) as [H8|H8]; [|by exists m].
  destruct (cut (value p) 8) as (n8 & w & Ev & En); [lia|].
  assert (T8 : take 8 (value p) = n8) by (rewrite Ev; apply take_app_length'; unfold size in En; lia).
  assert (D8 : drop 8 (value p) = w) by (rewrite Ev; apply drop_app_length'; unfold size in En; lia).
  rewrite T8, D8. set (pre := le_digits 8 (sizeof_cmsghdr + size (value p)) ++ le_digits 4 (level p) ++ le_digits 4 (ptype p)).
  assert (Hpre : size pre = 16) by (unfold pre; rewrite !size_app, !le_digits_size; lia).
  set (B' := padding (size (value p)) ++ B).
  assert (Hd' : data = (A ++ pre) ++ n8 ++ w ++ B').
  { rewrite Hd. unfold cmsg, pre, B'. rewrite Ev at 2. by rewrite <-!app_assoc. }
  assert (E8 : read_le data (size A + 16) 8 = Ret (le_value n8))
    by (rewrite Hd'; apply read_le_app; rewrite ?size_app; lia).
  unfold NN_CMSG_DATA, sizeof_cmsghdr. rewrite E8, bind_of_Ret.
  destruct Hp as (_ & _ & Hb). rewrite T8 in Hb. pose proof (le_value_range n8 Hb) as Hn. set (n := le_value n8) in *.
  assert (Hsz : size (value p) = 8 + size w) by (rewrite Ev, size_app; lia).
  destruct (Z.leb_spec n (size (value p) - 8)) as [Hle|Hgt]; [|by exists m].
  destruct (size_take_drop w n) as [Ht _]; [lia|].
  assert (Hlt : size (take (Z.to_nat n) w) < 2 ^ 40).
  { rewrite Ht. rewrite Hd', !size_app in Hs. pose proof (size_nonneg A). pose proof (size_nonneg B'). lia. }
  destruct (replace_own m _ (x, Sphdr) [] _ Hm ltac:(apply own_sphdr) Hlt) as (m1 & m2 & m3 & -> & E2 & E3 & H3 & Hf).
  rewrite Ht in E2. rewrite bind_of_Ret, E2, bind_of_Ret.
  assert (Er : read_at data (size A + 16 + 8) n = Ret (take (Z.to_nat n) w)).
  { assert (Hd2 : data = ((A ++ pre) ++ n8) ++ take (Z.to_nat n) w ++ (drop (Z.to_nat n) w ++ B'))
      by (rewrite Hd', <-!app_assoc; do 3 f_equal; by rewrite app_assoc, take_drop).
    rewrite Hd2. apply read_at_app; rewrite ?size_app; lia. }
  rewrite Er, bind_of_Ret, E3. exists m3. split; [done|]. split; [by rewrite put_sphdr in H3 | done].
Qed.

Lemma copy_headers_ok m g x hdr b d g' : mem_rep m (own_msg g x [] [] b) -> takes_control m g hdr d g' ->
  msg_control hdr <> Null -> size d < 2 ^ 40 ->
  exists m', copy_headers malloc m x hdr = Ret (m', d) /\ mem_rep m' (own_msg g' x [] d b) /\ frame [(x, Hdrs)] m m'.
Proof.
  intros Hm Ht Hn Hs. unfold copy_headers. destruct Ht as [?|bs Hb Hl Hle|v d Hb Hl Hv [p Hp]]; [done| |].
  - rewrite (proj2 (Z.eqb_neq _ _)) by (unfold NN_MSG; lia). rewrite Hb. set (n := msg_controllen hdr) in *.
    destruct (size_take_drop bs n) as [Hsz _]; [lia|].
    destruct (replace_own m _ (x, Hdrs) [] _ Hm ltac:(apply own_hdrs) Hs) as (m1 & m2 & m3 & -> & E2 & E3 & H3 & Hf).
    rewrite Hsz in E2. rewrite bind_of_Ret, E2, bind_of_Ret. cbn [copy_in].
    assert (Er : read_at bs 0 n = Ret (take (Z.to_nat n) bs)).
    { unfold read_at. rewrite (proj2 (Z.leb_le _ _)) by lia. by rewrite (proj2 (Z.leb_le _ _)) by lia. }
    rewrite Er, bind_of_Ret, E3, bind_of_Ret. exists m3. split; [done|]. split; [by rewrite put_hdrs in H3 | done].
  - rewrite Hl, Z.eqb_refl, Hb. load_ref Hp.
    destruct (term_ok m _ (x, Hdrs) [] Hm) as (m1 & E1 & H1); [apply own_hdrs|]. rewrite E1, bind_of_Ret.
    pose proof (term_refs _ _ _ E1) as R1. assert (Hp1 : refs m1 !! (v, Var) = Some (Ref p)) by (by rewrite R1).
    destruct (mv_ok m1 _ (x, Hdrs) (v, Var) d H1) as (m2 & E2 & H2).
    { cbn [vals drop_val]. rewrite lookup_delete_ne by done. rewrite own_other by by right. done. }
    { cbn [vals drop_val]. by rewrite lookup_delete_eq. }
    rewrite <-(init_chunk_is_mv m1 (x, Hdrs) v p Hp1) in E2. injection E2 as E2. rewrite <-E2 in H2. clear E2 m2.
    set (m2 := nn_chunkref_init_chunk m1 (x, Hdrs) p) in *.
    assert (Hp2 : refs m2 !! (x, Hdrs) = Some (Ref p)) by (cbn; apply lookup_insert_eq).
    assert (Hv2 : vals (put_val (drop_val (drop_val (own_msg g x [] [] b) (x, Hdrs)) (v, Var)) (x, Hdrs) d) !! (x, Hdrs) = Some d)
      by (cbn; apply lookup_insert_eq).
    destruct (own_ref m2 _ _ d H2 Hv2) as (w & Hw & Hok). rewrite Hp2 in Hw. injection Hw as <-.
    destruct Hok as (c & Hc & Hok). rewrite (chunk_size_at _ _ _ _ Hc Hok), bind_of_Ret.
    pose proof (load_all m2 _ _ d H2 Hv2) as El. unfold load, nn_chunkref_data in El.
    rewrite (ref_at_Some _ _ _ Hp2) in El. cbn [mbind outcome_bind] in El. rewrite El, bind_of_Ret.
    exists m2. split; [done|]. split.
    + revert H2. apply rep_equiv. own_eq.
    + intros r Hr. cbn. rewrite lookup_insert_ne by (intros <-; apply Hr; by left). by rewrite R1.
Qed.

Lemma add_control_ok m g x hdr b d g' ps : mem_rep m (own_msg g x [] [] b) -> takes_control m g hdr d g' -> control_ok d ps ->
  exists m', add_control malloc m x hdr = Ret m' /\ mem_rep m' (own_msg g' x (sp_header_of ps) d b) /\
    frame [(x, Sphdr); (x, Hdrs)] m m'.
Proof.
  intros Hm Ht Hc. destruct (decide (msg_control hdr = Null)) as [Hn|Hn].
  - destruct Ht as [_| |]; [|congruence..]. apply control_nil in Hc as ->. unfold add_control. rewrite Hn. by exists m.
  - destruct Hc as (rest & Hd & Hw & Hs). destruct (copy_headers_ok m g x hdr b d g' Hm Ht Hn Hs) as (m1 & E1 & H1 & Hf1).
    assert (Ha : add_control malloc m x hdr = '(m, data) ← copy_headers malloc m x hdr;
      first ← NN_CMSG_FIRSTHDR data; c ← find_cmsg (S (length data)) PROTO_SP SP_HDR data first;
      match c with Some c => take_sphdr malloc m x data c | None => Ret m end).
    { unfold add_control. by destruct (msg_control hdr). }
    rewrite Ha, E1, bind_of_Ret. pose proof (find_first _ _ ps rest d Hd Hw ltac:(lia)) as Hfind.
    apply bind_Ret in Hfind as (first & -> & Hfind). rewrite bind_of_Ret, Hfind, bind_of_Ret. unfold sp_header_of.
    assert (Hf : frame [(x, Sphdr); (x, Hdrs)] m m1) by (eapply refs_frame_mono; [exact Hf1 | set_solver]).
    destruct (first_at PROTO_SP SP_HDR 0 ps) as [[o p]|] eqn:E; cbn [fmap option_fmap option_map fst]; [|by exists m1].
    apply first_at_split in E as (pre & post & -> & ->). rewrite Z.add_0_l.
    destruct Hw as [Hps _]. apply Forall_app in Hps as [_ Hps]. apply Forall_cons in Hps as [Hp _].
    destruct (take_sphdr_ok m1 g' x (sp_value (value p)) d b (cmsgs pre) p (cmsgs post ++ rest) d H1 Hp) as (m2 & E2 & H2 & Hf2); [|done..|].
    { rewrite Hd. unfold cmsgs. rewrite map_app, concat_app. cbn [map concat]. by rewrite <-!app_assoc. }
    exists m2. split; [exact E2|]. split; [done|]. eapply refs_frame_trans; [done|].
    eapply refs_frame_mono; [exact Hf2 | set_solver].
Qed.
(** ** The whole call *)

Lemma build_takes m g x hdr b g' ov : mem_rep m g -> unowned g x -> takes_body m g hdr b g' ov -> size b < 2 ^ 40 ->
  exists m', build_body malloc m x hdr = Ret (inl (m', size b, bool_decide (is_Some ov))) /\
    mem_rep m' (own_msg g' x [] [] b) /\ frame [(x, Sphdr); (x, Hdrs); (x, Body)] m m' /\
    forall v, ov = Some v -> exists p, refs m' !! (v, Var) = Some (Ref p) /\ refs m' !! (x, Body) = Some (Ref p).
Proof.
  intros Hm Hu Ht Hs. destruct Ht as [l Hio Hl|i v b Hio Hn Hb Hv Hvar].
  - destruct (build_ok malloc m g x hdr l Hm Hu Hio Hl Hs) as (m1 & E & H1). exists m1. split; [exact E|].
    split; [exact H1|]. split; [by eapply build_frame | done].
  - destruct (build_chunk malloc m g x hdr v b i Hm Hu Hio Hn Hb Hv Hvar) as (m1 & E & H1 & Hp). exists m1.
    split; [exact E|]. split; [exact H1|]. split; [by eapply build_frame|]. by intros ? [= <-].
Qed.

Lemma takes_control_frame m m' g hdr d g' l : takes_control m g hdr d g' -> frame l m m' -> (forall v, (v, Var) ∉ l) ->
  takes_control m' g hdr d g'.
Proof.
  intros Ht Hf Hl. destruct Ht as [?|bs ?|v d ?? Hv [p Hp]]; [by constructor | by eapply control_bytes |].
  eapply control_chunk; [done..|]. exists p. by rewrite Hf.
Qed.

Lemma set_ref_id m r v : refs m !! r = Some v -> set_ref m r v = m.
Proof. intros Hr. unfold set_ref. rewrite insert_id by done. by destruct m. Qed.

(** The body is detached from the message, which is terminated. *)
Lemma detach_ok m g x h d b v p : mem_rep m (own_msg g x h d b) -> unowned g x -> vals g !! (v, Var) = None ->
  refs m !! (v, Var) = Some (Ref p) -> refs m !! (x, Body) = Some (Ref p) ->
  exists m1 m2, init malloc m (x, Body) 0 = Ret m1 /\ nn_msg_term m1 x = Ret m2 /\ mem_rep m2 (put_val g (v, Var) b).
Proof.
  intros Hm Hu Hv Hpv Hpb.
  destruct (mv_ok m _ (v, Var) (x, Body) b Hm) as (m0 & E0 & H0).
  { apply own_body. } { rewrite own_other by by right. done. }
  unfold nn_chunkref_mv in E0. rewrite (ref_at_Some _ _ _ Hpb), bind_of_Ret, (set_ref_id _ _ _ Hpv) in E0. injection E0 as <-.
  destruct (small_init m _ (malloc (chunks m) 0) x Body H0) as [E1 H1].
  { cbn. rewrite lookup_insert_ne by done. apply lookup_delete_eq. }
  assert (H2 : mem_rep (set_ref m (x, Body) (Vsm [])) (own_msg (put_val g (v, Var) b) x h d [])).
  { revert H1. apply rep_equiv. own_eq. }
  destruct (own_term _ _ x h d [] H2) as (m2 & E2 & H3).
  { intros f Hf. cbn. rewrite lookup_insert_ne by congruence. by apply Hu. }
  exists (set_ref m (x, Body) (Vsm [])), m2. split; [exact E1 | done].
Qed.

(** What is counted for a message that was sent. *)
Definition sent (st : statistics) (n : Z) : statistics :=
  let 'Stats ec ac dc bc ce be ae ms mr bs br cc ic sp ee := st in
  Stats ec ac dc bc ce be ae (u64 (ms + 1)) mr (u64 (bs + n)) br cc ic sp ee.

Lemma sent_counted st n : 0 <= n ->
  (st ← nn_sock_stat_increment st NN_STAT_MESSAGES_SENT 1; nn_sock_stat_increment st NN_STAT_BYTES_SENT n) = Ret (sent st n).
Proof.
  intros Hn. destruct st. cbn. unfold byte_counter_add. rewrite Z.geb_leb, (proj2 (Z.leb_le _ _)) by lia. done.
Qed.

(** What the call has built when it gets to the socket. *)
Lemma prepared m g g1 g2 hdr x b d ps ov : mem_rep m g -> unowned g x ->
  takes_body m g hdr b g1 ov -> takes_control m g1 hdr d g2 -> control_ok d ps -> size b < 2 ^ 40 ->
  exists m1 m2, build_body malloc m x hdr = Ret (inl (m1, size b, bool_decide (is_Some ov))) /\
    add_control malloc m1 x hdr = Ret m2 /\ mem_rep m2 (own_msg g2 x (sp_header_of ps) d b) /\
    (forall y, unowned g y -> unowned g2 y) /\
    forall v, ov = Some v -> vals g2 !! (v, Var) = None /\
      exists p, refs m2 !! (v, Var) = Some (Ref p) /\ refs m2 !! (x, Body) = Some (Ref p).
Proof.
  intros Hm Hx Hb Hd Hps Hs.
  destruct (build_takes m g x hdr b g1 ov Hm Hx Hb Hs) as (m1 & E1 & H1 & Hf1 & Hv).
  assert (Hd1 : takes_control m1 g1 hdr d g2) by (eapply takes_control_frame; [exact Hd | exact Hf1 | set_solver]).
  destruct (add_control_ok m1 g1 x hdr b d g2 ps H1 Hd1 Hps) as (m2 & E2 & H2 & Hf2).
  exists m1, m2. do 3 (split; [done|]). split.
  - intros y Hy f Hf. assert (Hy1 : vals g1 !! (y, f) = None).
    { destruct Hb; [by apply Hy|]. cbn. rewrite lookup_delete_ne by congruence. by apply Hy. }
    destruct Hd; [done..|]. cbn. by rewrite lookup_delete_ne by congruence.
  - intros v ->. split.
    + assert (Hn : vals g1 !! (v, Var) = None) by (inversion Hb; cbn; apply lookup_delete_eq).
      destruct Hd; [done..|]. cbn. rewrite lookup_delete. by case_decide.
    + destruct (Hv v eq_refl) as (p & Hp1 & Hp2). exists p. split; (rewrite Hf2; [done | set_solver]).
Qed.

Section call.
  Context (m : memory) (g g1 g2 : owned) (hdr : nn_msghdr) (x dst : loc) (st : statistics) (held rc : Z)
    (b d : list Z) (ps : list property) (ov : option loc).
  Context (Hm : mem_rep m g) (Hx : unowned g x) (Hheld : 0 <= held) (Hlen : 0 <= msg_iovlen hdr)
    (Hb : takes_body m g hdr b g1 ov) (Hd : takes_control m g1 hdr d g2) (Hps : control_ok d ps) (Hs : size b < 2 ^ 40).

Lemma send_taken : unowned g dst -> x <> dst -> 0 <= rc ->
  exists m', nn_sendmsg malloc m st held (Some hdr) x dst rc = Ret (m', sent st (size b), s32 (size b)) /\
    mem_rep m' (own_msg g2 dst (sp_header_of ps) d b).
Proof.
  intros Hdst Hne Hrc. unfold nn_sendmsg. rewrite (proj2 (Z.ltb_ge _ _) Hheld), (proj2 (Z.ltb_ge _ _) Hlen).
  destruct (prepared m g g1 g2 hdr x b d ps ov Hm Hx Hb Hd Hps Hs) as (m1 & m2 & -> & E2 & H2 & Hu & _).
  rewrite bind_of_Ret, E2, bind_of_Ret. unfold sock_send. rewrite (proj2 (Z.ltb_ge _ _) Hrc).
  destruct (own_mv m2 g2 x dst _ d b H2 Hne) as (m3 & -> & H3); [by auto..|]. rewrite bind_of_Ret.
  pose proof (sent_counted st (size b) (size_nonneg b)) as E. apply bind_Ret in E as (st1 & -> & E).
  rewrite bind_of_Ret, E, bind_of_Ret. by exists m3.
Qed.

Lemma send_refused : rc < 0 ->
  exists m', nn_sendmsg malloc m st held (Some hdr) x dst rc = Ret (m', st, rc) /\
    mem_rep m' (match ov with Some v => put_val g2 (v, Var) b | None => g2 end).
Proof.
  intros Hrc. unfold nn_sendmsg. rewrite (proj2 (Z.ltb_ge _ _) Hheld), (proj2 (Z.ltb_ge _ _) Hlen).
  destruct (prepared m g g1 g2 hdr x b d ps ov Hm Hx Hb Hd Hps Hs) as (m1 & m2 & -> & E2 & H2 & Hu & Hv).
  rewrite bind_of_Ret, E2, bind_of_Ret. unfold sock_send. rewrite (proj2 (Z.ltb_lt _ _) Hrc), bind_of_Ret.
  destruct ov as [v|].
  - destruct (Hv v eq_refl) as (Hn & p & Hp1 & Hp2).
    destruct (detach_ok m2 g2 x _ d b v p H2) as (m3 & m4 & E3 & E4 & H4); [by auto | done..|].
    rewrite bool_decide_eq_true_2, E3, bind_of_Ret, E4, bind_of_Ret by done. by exists m4.
  - rewrite bool_decide_eq_false_2, bind_of_Ret by (by intros []).
    destruct (own_term m2 g2 x _ d b H2) as (m3 & -> & H3); [by auto|]. rewrite bind_of_Ret. by exists m3.
Qed.
End call.

(** C9.  [nn_sendmsg] accounts for everything it is given.  If the socket takes the
    message, the message that leaves has the body of the caller, its control
    messages and the header among them, what was handed over as a chunk is the
    caller's no more, the statistics count the message, and the result is its size as
    an [int].  If the socket refuses it, nothing is left behind, a body that
    was a chunk is the caller's as before and the error is reported; a chunk of
    control messages is gone in both cases. *)
Theorem sendmsg_accounts (m : memory) (g g1 g2 : owned) (hdr : nn_msghdr) (x dst : loc) (st : statistics) (held rc : Z)
    (b d : list Z) (ps : list property) (ov : option loc) :
  mem_rep m g -> unowned g x -> unowned g dst -> x <> dst -> 0 <= held -> 0 <= msg_iovlen hdr ->
  takes_body m g hdr b g1 ov -> takes_control m g1 hdr d g2 -> control_ok d ps -> size b < 2 ^ 40 ->
  exists m', mem_rep m'
      (if rc <? 0 then match ov with Some v => put_val g2 (v, Var) b | None => g2 end
       else own_msg g2 dst (sp_header_of ps) d b) /\
    nn_sendmsg malloc m st held (Some hdr) x dst rc =
      Ret (if rc <? 0 then (m', st, rc) else (m', sent st (size b), s32 (size b))).
Proof.
  intros Hm Hx Hdst Hne Hh Hl Hb Hd Hps Hs. destruct (Z.ltb_spec rc 0).
  - destruct (send_refused m g g1 g2 hdr x dst st held rc b d ps ov) as (m' & E & H'); [done..|]. by exists m'.
  - destruct (send_taken m g g1 g2 hdr x dst st held rc b d ps ov) as (m' & E & H'); [done..|]. by exists m'.
Qed.
End spec.

(** ** Reading the statistics *)

Definition counters : list Z :=
  [NN_STAT_ESTABLISHED_CONNECTIONS; NN_STAT_ACCEPTED_CONNECTIONS; NN_STAT_DROPPED_CONNECTIONS; NN_STAT_BROKEN_CONNECTIONS;
   NN_STAT_CONNECT_ERRORS; NN_STAT_BIND_ERRORS; NN_STAT_MESSAGES_SENT; NN_STAT_MESSAGES_RECEIVED].

(** Every counter but one is read as it was counted; the errors of accepting
    connections are counted but those of binding are read. *)
Lemma statistic_reads st held name : name ∈ counters -> 0 <= held ->
  exists st', nn_sock_stat_increment st name 1 = Ret st' /\
    nn_get_statistic st' held name = u64 (nn_get_statistic st held name + 1).
Proof.
  intros Hn Hh. unfold nn_get_statistic. rewrite (proj2 (Z.ltb_ge _ _) Hh). destruct st.
  assert (Hu : forall x, u64 (u64 (x + 1)) = u64 (u64 x + 1)).
  { intros x. unfold u64. by rewrite Z.mod_mod, Zplus_mod_idemp_l by done. }
  unfold counters in Hn.
  repeat (apply elem_of_cons in Hn as [->|Hn]; [eexists; split; [reflexivity | apply Hu]|]). by apply not_elem_of_nil in Hn.
Qed.

Lemma accept_errors_unread st held : exists st', nn_sock_stat_increment st NN_STAT_ACCEPT_ERRORS 1 = Ret st' /\
  nn_get_statistic st' held NN_STAT_ACCEPT_ERRORS = nn_get_statistic st held NN_STAT_ACCEPT_ERRORS.
Proof. destruct st. eexists. by split. Qed.

(** ** An example: three bytes in two buffers, and an SP_HDR property *)

Definition example_control : list Z := cmsg (Property PROTO_SP SP_HDR (le_digits 8 2 ++ [7; 8])).

Definition example_send : nn_msghdr :=
  Msghdr [Iovec (Bytes [1; 2]) 2; Iovec (Bytes [3; 4]) 1] 2 (Bytes example_control) 32.

Lemma example_body : takes_body no_memory nothing example_send [1; 2; 3] nothing None.
Proof. by apply (body_bytes _ _ example_send _ eq_refl); repeat constructor. Qed.

Lemma example_takes : takes_control no_memory nothing example_send example_control nothing.
Proof. by apply (control_bytes _ _ example_send example_control). Qed.

Lemma example_control_ok : control_ok example_control [Property PROTO_SP SP_HDR (le_digits 8 2 ++ [7; 8])].
Proof.
  exists []. split; [done|]. split; [|done]. split; [|by left]. repeat constructor; done.
Qed.

Lemma sendmsg_accounts_witness :
  exists m', mem_rep m' (own_msg nothing 2%positive [7; 8] example_control [1; 2; 3]) /\
    nn_sendmsg plain_malloc no_memory init_stats 0 (Some example_send) 1%positive 2%positive 0 =
      Ret (m', sent init_stats 3, 3).
Proof.
  apply (sendmsg_accounts plain_malloc no_memory nothing nothing nothing example_send 1%positive 2%positive init_stats 0 0
    [1; 2; 3] example_control [Property PROTO_SP SP_HDR (le_digits 8 2 ++ [7; 8])] None);
    [apply rep_nothing | apply unowned_nothing | apply unowned_nothing | done | done | done | apply example_body
    | apply example_takes | apply example_control_ok | done].
Defined.
