(* ===== verification/ApiRecv.v ===== *)
(** * ApiRecv: what a receiver gets (src/core/global.c)

    [gets_body] and [gets_control] say where [nn_recvmsg] puts the body, the
    protocol header and the control messages: in buffers, as far as they reach, or in chunks
    that are the caller's from then on.  [recvmsg_delivers] is the whole call. *)

From stdpp Require Import base gmap list.
From Stdlib Require Import ZArith Lia.
From S2P Require Import Prelude ListHeap Message Cmsg CmsgSpec Sock.
From S2P Require Import Chunk ChunkSpec Api ApiSpec ApiSend.

Open Scope Z_scope.

(** ** The body in buffers *)

Definition put_bytes (b : buffer) (bs : list Z) : buffer :=
  match b with Bytes old => Bytes (overwrite old 0 bs) | _ => b end.

(** Each buffer takes what it has room for of what is left. *)
Fixpoint spread (b : list Z) (l : list nn_iovec) : list buffer :=
  match l with
  | [] => []
  | i :: l => put_bytes (iov_base i) (take (Z.to_nat (iov_len i)) b) :: spread (drop (Z.to_nat (iov_len i)) b) l
  end.

Lemma put_nothing b : put_bytes b [] = b.
Proof. destruct b as [|old|v]; [done| |done]. cbn. rewrite overwrite_nil; [done|]. pose proof (size_nonneg old). lia. Qed.

Lemma spread_nil l : spread [] l = map iov_base l.
Proof. induction l as [|i l IH]; [done|]. cbn [spread map]. by rewrite take_nil, drop_nil, put_nothing, IH. Qed.

Lemma copy_out_ok i bs : iov_ok i -> size bs <= iov_len i -> copy_out (iov_base i) bs = Ret (put_bytes (iov_base i) bs).
Proof.
  intros [Hl Hb] Hs. pose proof (size_nonneg bs). unfold copy_out. destruct (iov_base i) as [|old|v].
  - rewrite (proj2 (Z.eqb_eq _ _)) by lia. done.
  - unfold write_at. rewrite (proj2 (Z.leb_le _ _)) by lia. rewrite (proj2 (Z.leb_le _ _)) by lia. done.
  - rewrite (proj2 (Z.eqb_eq _ _)) by lia. done.
Qed.

Lemma gather_ok l : forall m g r A b, Forall iov_ok l -> mem_rep m g -> vals g !! r = Some (A ++ b) ->
  gather_iov m r (size A) (size b) l = Ret (inl (spread b l)).
Proof.
  induction l as [|i l IH]; intros m g r A b Hl Hm Hv; [done|]. apply Forall_cons in Hl as [Hi Hl]. cbn [gather_iov spread].
  rewrite not_whole by done. destruct Hi as [Hr Hb]. assert (Hi : iov_ok i) by done. destruct (Z.gtb_spec (iov_len i) (size b)).
  - rewrite (load_own m g r A b []) by (rewrite ?app_nil_r; done). rewrite bind_of_Ret, copy_out_ok, bind_of_Ret by (done || lia).
    rewrite take_ge, drop_ge by (unfold size in *; lia). by rewrite spread_nil.
  - destruct (cut b (iov_len i)) as (b1 & b2 & -> & H1); [lia|].
    rewrite <-H1, (load_own m g r A b1 b2) by done. rewrite bind_of_Ret, copy_out_ok, bind_of_Ret by (done || lia).
    rewrite size_app, (app_assoc A) in *. replace (size b1 + size b2 - size b1) with (size b2) by lia. rewrite <-size_app.
    rewrite (IH m g r (A ++ b1) b2) by done. rewrite bind_of_Ret.
    by rewrite take_app_length', drop_app_length' by (unfold size; lia).
Qed.

(** ** The control messages *)

(** The property with the header; [junk] fills it up. *)
Definition sp_property (h junk : list Z) : property := Property PROTO_SP SP_HDR (le_digits 8 (size h) ++ h ++ junk).

Definition sp_total (h : list Z) : Z := NN_CMSG_SPACE (size h + 8).

(** What a buffer of [n] bytes gets. *)
Definition received_control (h d : list Z) (n : Z) (old : list Z) : list Z :=
  if n <? sp_total h then old else
  overwrite (overwrite old 0 (sphdr_prefix (sp_total h) (size h) ++ h)) (sp_total h) (take (Z.to_nat (n - sp_total h)) d).

Lemma sp_total_eq h : size h < 2 ^ 40 -> sp_total h = 16 + 8 * ((size h + 15) / 8).
Proof. intros Hh. pose proof (size_nonneg h). unfold sp_total. rewrite space_eq by lia. by replace (size h + 8 + 7) with (size h + 15) by lia. Qed.

Lemma sp_total_bounds h : size h < 2 ^ 40 -> 24 + size h <= sp_total h < 24 + size h + 8.
Proof.
  intros Hh. rewrite sp_total_eq by done. pose proof (Z.div_mod (size h + 15) 8). pose proof (Z.mod_pos_bound (size h + 15) 8). lia.
Qed.

Lemma prefix_size a b : size (sphdr_prefix a b) = 24.
Proof. unfold sphdr_prefix. by rewrite !size_app, !le_digits_size. Qed.

Lemma received_size h d n old : n <= size old -> size h < 2 ^ 40 -> size (received_control h d n old) = size old.
Proof.
  intros Hn Hh. pose proof (sp_total_bounds h Hh). pose proof (size_nonneg h). unfold received_control.
  destruct (Z.ltb_spec n (sp_total h)); [done|].
  assert (Ht : size (take (Z.to_nat (n - sp_total h)) d) <= n - sp_total h) by (unfold size; rewrite length_take; lia).
  assert (E : size (overwrite old 0 (sphdr_prefix (sp_total h) (size h) ++ h)) = size old)
    by (apply overwrite_size; rewrite ?size_app, ?prefix_size; lia).
  rewrite overwrite_size; lia.
Qed.

(** A buffer with room for everything gets the property with the header in front of the
    control messages. *)
Lemma received_all h d old : size h < 2 ^ 40 -> size old = sp_total h + size d ->
  exists junk, received_control h d (size old) old = cmsg (sp_property h junk) ++ d /\
    prop_ok (sp_property h junk) /\ sp_value (value (sp_property h junk)) = h.
Proof.
  intros Hh Hs. pose proof (sp_total_bounds h Hh) as Hb. pose proof (size_nonneg d). pose proof (size_nonneg h).
  unfold received_control. rewrite (proj2 (Z.ltb_ge _ _)) by lia. rewrite Hs. replace (_ + size d - _) with (size d) by lia.
  set (P := sphdr_prefix (sp_total h) (size h)). assert (HP : size P = 24) by apply prefix_size.
  destruct (cut old (sp_total h)) as (front & back & -> & Hf); [lia|]. rewrite size_app in Hs.
  destruct (cut front (24 + size h)) as (front1 & junk & -> & Hf1); [lia|]. rewrite size_app in Hf.
  exists junk.
  assert (Hv : size (value (sp_property h junk)) = 8 + size h + size junk)
    by (unfold sp_property; cbn [value]; rewrite !size_app, le_digits_size; lia).
  assert (Hmod : (- size (value (sp_property h junk))) mod 8 = 0).
  { rewrite Hv. replace (- (8 + size h + size junk)) with (16 - sp_total h) by lia. rewrite sp_total_eq by done.
    replace (16 - (16 + 8 * ((size h + 15) / 8))) with (- ((size h + 15) / 8) * 8) by lia. by apply Z.mod_mul. }
  split; [|split].
  - assert (E1 : overwrite ((front1 ++ junk) ++ back) 0 (P ++ h) = (P ++ h ++ junk) ++ back).
    { unfold overwrite. cbn [Z.to_nat take app]. rewrite Z.add_0_l, <-(app_assoc front1), drop_app_length'
        by (rewrite size_app in *; unfold size in *; rewrite ?length_app; lia). by rewrite <-!app_assoc. }
    rewrite E1. assert (E2 : overwrite ((P ++ h ++ junk) ++ back) (sp_total h) (take (Z.to_nat (size d)) d) = (P ++ h ++ junk) ++ d).
    { rewrite take_ge by (unfold size; lia). unfold overwrite.
      rewrite take_app_length', drop_ge, app_nil_r; [done|..]; rewrite ?length_app; unfold size in *; rewrite ?length_app in *; lia. }
    rewrite E2. f_equal. unfold cmsg. rewrite Hv. unfold padding. rewrite Hv in Hmod. rewrite Hmod. cbn [Z.to_nat replicate].
    unfold P, sphdr_prefix, sp_property, sizeof_cmsghdr. cbn [level ptype value]. rewrite app_nil_r.
    replace (16 + (8 + size h + size junk)) with (sp_total h) by lia. by rewrite <-!app_assoc.
  - unfold prop_ok, sp_property. cbn [level ptype value]. unfold PROTO_SP, SP_HDR. split; [lia|]. split; [lia|].
    rewrite take_app_length' by (by rewrite le_digits_length). apply le_digits_bytes.
  - unfold sp_value. rewrite Hv. unfold sp_property. cbn [value].
    rewrite take_app_length', drop_app_length' by (by rewrite le_digits_length).
    rewrite le_value_digits. change (256 ^ Z.of_nat 8) with (2 ^ 64). rewrite Z.mod_small by lia. pose proof (size_nonneg junk).
    destruct (Z.gtb_spec (8 + size h + size junk) 8).
    + rewrite (proj2 (Z.leb_le _ _)) by lia. apply take_app_length'. unfold size. lia.
    + destruct h; [done|]. rewrite size_cons in *. pose proof (size_nonneg h). lia.
Qed.

(** ** Where everything goes *)

Inductive gets_body (g : owned) (hdr : nn_msghdr) (b : list Z) : list buffer -> owned -> Prop :=
  | into_bytes l : iovs hdr = Ret l -> Forall iov_ok l -> gets_body g hdr b (spread b l) g
  | into_chunk i v : iovs hdr = Ret [i] -> iov_len i = NN_MSG -> iov_base i = ChunkVar (Some v) ->
      vals g !! (v, Var) = None -> gets_body g hdr b [ChunkVar (Some v)] (put_val g (v, Var) b).

(** What the caller has for the control messages. *)
Inductive control_room (g : owned) (hdr : nn_msghdr) : Prop :=
  | room_none : msg_control hdr = Null -> control_room g hdr
  | room_bytes old : msg_control hdr = Bytes old -> 0 <= msg_controllen hdr < 2 ^ 40 -> msg_controllen hdr <= size old ->
      control_room g hdr
  | room_chunk v : msg_control hdr = ChunkVar (Some v) -> msg_controllen hdr = NN_MSG -> vals g !! (v, Var) = None ->
      control_room g hdr.

Inductive gets_control (g : owned) (hdr : nn_msghdr) (h d : list Z) : buffer -> owned -> Prop :=
  | control_ignored : msg_control hdr = Null -> gets_control g hdr h d Null g
  | into_buffer old : msg_control hdr = Bytes old ->
      gets_control g hdr h d (Bytes (received_control h d (msg_controllen hdr) old)) g
  | into_new v old : msg_control hdr = ChunkVar (Some v) -> vals g !! (v, Var) = None -> size old = sp_total h + size d ->
      gets_control g hdr h d (ChunkVar (Some v)) (put_val g (v, Var) (received_control h d (size old) old)).

(** The caller's variables refer to chunks. *)
Definition chunks_there (m : memory) (hdr : nn_msghdr) : Prop :=
  (forall i v, iovs hdr = Ret [i] -> iov_len i = NN_MSG -> iov_base i = ChunkVar (Some v) -> is_var m v) /\
  forall v, msg_control hdr = ChunkVar (Some v) -> is_var m v.

(** What is counted for a message that was received. *)
Definition received (st : statistics) (n : Z) : statistics :=
  let 'Stats ec ac dc bc ce be ae ms mr bs br cc ic sp ee := st in
  Stats ec ac dc bc ce be ae ms (u64 (mr + 1)) bs (u64 (br + n)) cc ic sp ee.

Lemma received_counted st n : 0 <= n ->
  (st ← nn_sock_stat_increment st NN_STAT_MESSAGES_RECEIVED 1; nn_sock_stat_increment st NN_STAT_BYTES_RECEIVED n) =
  Ret (received st n).
Proof.
  intros Hn. destruct st. cbn. unfold byte_counter_add. rewrite Z.geb_leb, (proj2 (Z.leb_le _ _)) by lia. done.
Qed.

Lemma msg_term_refs m x m' : nn_msg_term m x = Ret m' -> refs m' = refs m.
Proof.
  unfold nn_msg_term. intros Ht. apply bind_Ret in Ht as (m1 & E1 & Ht). apply bind_Ret in Ht as (m2 & E2 & E3).
  by rewrite (term_refs _ _ _ E3), (term_refs _ _ _ E2), (term_refs _ _ _ E1).
Qed.

Lemma sp_header_size d ps : control_ok d ps -> size (sp_header_of ps) <= size d.
Proof.
  intros (rest & -> & _ & _). unfold sp_header_of. destruct (first_at PROTO_SP SP_HDR 0 ps) as [[o p]|] eqn:E.
  - apply first_at_split in E as (pre & post & -> & _). unfold cmsgs. rewrite map_app, concat_app. cbn [map concat].
    rewrite !size_app. unfold cmsg at 2. rewrite !size_app. unfold sp_value.
    assert (Hs : forall l : list Z, 0 <= size l) by apply size_nonneg.
    assert (Ht : size (take (Z.to_nat (le_value (take 8 (value p)))) (drop 8 (value p))) <= size (value p))
      by (unfold size; rewrite length_take, length_drop; lia).
    pose proof (Hs (concat (map cmsg pre))). pose proof (Hs (concat (map cmsg post))). pose proof (Hs rest).
    pose proof (Hs (le_digits 8 (sizeof_cmsghdr + size (value p)))). pose proof (Hs (le_digits 4 (level p))).
    pose proof (Hs (le_digits 4 (ptype p))). pose proof (Hs (padding (size (value p)))). pose proof (Hs (value p)).
    repeat case_match; change (size []) with 0; lia.
  - change (size []) with 0. apply size_nonneg.
Qed.

Lemma s32_id n : 0 <= n < 2 ^ 31 -> s32 n = n.
Proof. intros Hn. unfold s32, u32. rewrite Z.mod_small by lia. by rewrite decide_True by lia. Qed.

Section spec.
  Context (malloc : chunk_heap -> Z -> allocation) `{!Malloc malloc}.

Lemma take_min (d : list Z) n : 0 <= n -> take (Z.to_nat (if size d >? n then n else size d)) d = take (Z.to_nat n) d.
Proof.
  intros Hn. destruct (Z.gtb_spec (size d) n); [done|]. by rewrite !take_ge by (unfold size in *; lia).
Qed.

Lemma load_prefix m g r data n : mem_rep m g -> vals g !! r = Some data -> 0 <= n <= size data ->
  load m r 0 n = Ret (take (Z.to_nat n) data).
Proof.
  intros Hm Hv Hn. destruct (size_take_drop data n Hn) as [Ht _]. rewrite <-Ht at 1.
  apply (load_own m g r [] _ (drop (Z.to_nat n) data)); [done | | done]. cbn [app]. by rewrite take_drop.
Qed.

(** The caller's buffer is written. *)
Lemma control_written h d n old : 0 <= n <= size old -> size h < 2 ^ 40 -> sp_total h <= n ->
  (new ← write_at old 0 (sphdr_prefix (sp_total h) (size h) ++ h); write_at new (sp_total h) (take (Z.to_nat (n - sp_total h)) d)) =
  Ret (received_control h d n old).
Proof.
  intros Hn Hh Hle. pose proof (sp_total_bounds h Hh). pose proof (size_nonneg h).
  assert (Hs : size (sphdr_prefix (sp_total h) (size h) ++ h) = 24 + size h) by (rewrite size_app, prefix_size; lia).
  unfold write_at. rewrite (proj2 (Z.leb_le 0 0)) by lia. rewrite (proj2 (Z.leb_le (0 + _) _)) by lia. cbn [andb].
  rewrite bind_of_Ret. fold (overwrite old 0 (sphdr_prefix (sp_total h) (size h) ++ h)).
  assert (Ht : size (take (Z.to_nat (n - sp_total h)) d) <= n - sp_total h)
    by (unfold size; rewrite length_take; lia).
  rewrite overwrite_size by lia. rewrite (proj2 (Z.leb_le 0 _)), (proj2 (Z.leb_le (_ + _) _)) by lia. cbn [andb].
  unfold received_control. by rewrite (proj2 (Z.ltb_ge _ _)) by lia.
Qed.

Lemma take_body_ok m g x hdr h d b bs g' : mem_rep m (own_msg g x h d b) -> gets_body g hdr b bs g' -> size b < 2 ^ 40 ->
  exists m' b', take_body malloc m x hdr = Ret (m', inl (size b, bs)) /\ mem_rep m' (own_msg g' x h d b') /\
    forall i v, iovs hdr = Ret [i] -> iov_len i = NN_MSG -> iov_base i = ChunkVar (Some v) -> is_var m' v.
Proof.
  intros Hm Hg Hs. unfold take_body. pose proof (own_body g x h d b) as Hv. pose proof (size_nonneg b).
  destruct Hg as [l Hio Hl|i v Hio Hn Hb Hvar]; rewrite Hio, bind_of_Ret.
  - rewrite whole_none by done. rewrite (size_ok m _ _ b Hm Hv), bind_of_Ret.
    pose proof (gather_ok l m _ (x, Body) [] b Hl Hm Hv) as Eg. change (size []) with 0 in Eg. rewrite Eg, bind_of_Ret. exists m, b. split; [done|]. split; [done|].
    intros i v E Hn _. injection E as ->. apply Forall_cons in Hl as [Hi _]. apply not_whole in Hi. by rewrite Hn in Hi.
  - cbn [whole]. rewrite Hn, Z.eqb_refl, Hb. rewrite (size_ok m _ _ b Hm Hv), bind_of_Ret.
    assert (Ha : alloc_ok (chunks m) (malloc (chunks m) (size b)) (size b)) by (apply malloc_ok; lia).
    destruct (getchunk_ok m _ (x, Body) v (malloc (chunks m) (size b)) b Hm Hv) as (m1 & p & E & H1); [rewrite own_other by (by right); done | done |].
    rewrite E, bind_of_Ret. set (m2 := set_ref m1 (v, Var) (Ref p)) in *.
    assert (Hp : refs m2 !! (v, Var) = Some (Ref p)) by (cbn; apply lookup_insert_eq).
    destruct (own_ref m2 _ (v, Var) b H1) as (w & Hw & Hok); [cbn; apply lookup_insert_eq|].
    rewrite Hp in Hw. injection Hw as <-. destruct Hok as (c & Hc & Hok). rewrite (chunk_size_at _ _ _ _ Hc Hok), bind_of_Ret.
    exists m2, []. split; [done|]. split.
    + revert H1. apply rep_equiv. own_eq.
    + intros i' v' E' _ Hb'. injection E' as <-. rewrite Hb in Hb'. injection Hb' as <-. by exists p.
Qed.

(** A new chunk in a variable of the caller, and the stores to it. *)
Lemma new_chunk_ok m g v n : mem_rep m g -> vals g !! (v, Var) = None -> 0 <= n < 2 ^ 40 ->
  exists h p old, nn_chunk_alloc (chunks m) (malloc (chunks m) n) n 0 = Ret (h, 0, Some p) /\ size old = n /\
    mem_rep (set_ref (set_chunks m h) (v, Var) (Ref p)) (put_val g (v, Var) old) /\
    private (set_ref (set_chunks m h) (v, Var) (Ref p)) (v, Var).
Proof.
  intros Hm Hv Hn. destruct (alloc_spec (chunks m) (malloc (chunks m) n) n) as (k & c & Hk & E & Hrc & Hs & Hok); [by apply malloc_ok|].
  eexists _, _, _. split; [exact E|]. split; [exact Hs|]. split; [by apply rep_fresh|].
  intros p c'. cbn. rewrite lookup_insert_eq. intros [= <-]. cbn. rewrite lookup_insert_eq. by intros [= <-].
Qed.

Lemma store_chunk_ok m g v p data i bs : mem_rep m g -> vals g !! (v, Var) = Some data -> refs m !! (v, Var) = Some (Ref p) ->
  private m (v, Var) -> 0 <= i -> i + size bs <= size data ->
  exists m', store_data m (Heap p) i bs = Ret m' /\ mem_rep m' (put_val g (v, Var) (overwrite data i bs)) /\
    private m' (v, Var) /\ refs m' = refs m.
Proof.
  intros Hm Hv Hp Hpr Hi Hs. destruct (store_own m g (v, Var) data i bs Hm Hv Hpr Hi Hs) as (m' & E & H').
  unfold store, nn_chunkref_data in E. rewrite (ref_at_Some _ _ _ Hp) in E. cbn [mbind outcome_bind] in E.
  exists m'. split; [exact E|]. split; [apply H'|]. split; [apply H'|].
  cbn [store_data] in E. inv_ret. done.
Qed.

Lemma put_control_ok m g x hdr h d b : mem_rep m (own_msg g x h d b) -> control_room g hdr ->
  size h < 2 ^ 38 -> size d < 2 ^ 38 ->
  exists m' ctl g', put_control malloc m x hdr = Ret (m', ctl) /\ gets_control g hdr h d ctl g' /\
    mem_rep m' (own_msg g' x h d b) /\ (forall v, vals g !! (v, Var) <> None -> is_var m v -> is_var m' v) /\
    forall v, msg_control hdr = ChunkVar (Some v) -> is_var m' v.
Proof.
  intros Hm Hr Hh Hd. pose proof (sp_total_bounds h ltac:(lia)) as Hb. pose proof (size_nonneg h). pose proof (size_nonneg d).
  pose proof (own_sphdr g x h d b) as Vh. pose proof (own_hdrs g x h d b) as Vd. unfold put_control.
  destruct Hr as [Hc|old Hc Hn Hle|v Hc Hn Hv]; rewrite Hc.
  { exists m, Null, g. split; [done|]. split; [by constructor|]. split; [done|]. split; [done | congruence]. }
  all: rewrite (size_ok m _ _ h Hm Vh), bind_of_Ret, (size_ok m _ _ d Hm Vd), bind_of_Ret, (load_all m _ _ h Hm Vh), bind_of_Ret.
  all: unfold sizeof_size_t; rewrite (u64_small (size h + 8)) by lia; fold (sp_total h).
  - rewrite (proj2 (Z.eqb_neq _ _)) by (unfold NN_MSG; lia). set (n := msg_controllen hdr) in *.
    assert (Hg : gets_control g hdr h d (Bytes (received_control h d n old)) g) by (by constructor).
    rewrite Z.geb_leb. destruct (Z.leb_spec (sp_total h) n) as [Hge|Hlt].
    + pose proof (control_written h d n old ltac:(lia) ltac:(lia) Hge) as E. apply bind_Ret in E as (new & -> & E).
      rewrite bind_of_Ret, (load_prefix m _ _ d _ Hm Vd) by (destruct (Z.gtb_spec (size d) (n - sp_total h)); lia).
      rewrite bind_of_Ret, take_min, E, bind_of_Ret by lia.
      eexists m, _, g. split; [reflexivity|]. split; [exact Hg|]. split; [done|]. split; [done | congruence].
    + unfold received_control in Hg. rewrite (proj2 (Z.ltb_lt _ _)) in Hg by lia.
      eexists m, _, g. split; [reflexivity|]. split; [exact Hg|]. split; [done|]. split; [done | congruence].
  - rewrite Hn, Z.eqb_refl. rewrite u64_small by lia. set (n := sp_total h + size d).
    destruct (new_chunk_ok m _ v n Hm) as (hp & p & old & E & Hs & H1 & P1); [by rewrite own_other by (by right) | unfold n; lia |].
    rewrite E. cbn [mbind outcome_bind Z.eqb check]. set (m1 := set_ref (set_chunks m hp) (v, Var) (Ref p)) in *.
    rewrite Z.geb_leb, (proj2 (Z.leb_le _ _)) by (unfold n; lia).
    assert (Hp1 : refs m1 !! (v, Var) = Some (Ref p)) by (cbn; apply lookup_insert_eq).
    assert (Hpre : size (sphdr_prefix (sp_total h) (size h) ++ h) = 24 + size h) by (rewrite size_app, prefix_size; lia).
    set (g1 := put_val (own_msg g x h d b) (v, Var) old) in *.
    destruct (store_chunk_ok m1 g1 v p old 0 (sphdr_prefix (sp_total h) (size h) ++ h) H1) as (m2 & -> & H2 & P2 & R2);
      [apply lookup_insert_eq | done | done | lia | unfold n in Hs; lia |]. rewrite bind_of_Ret.
    assert (V2 : forall bs, vals (put_val g1 (v, Var) bs) !! (x, Hdrs) = Some d).
    { intros bs. unfold g1, put_val. cbn [vals]. do 2 rewrite lookup_insert_ne by done. exact Vd. }
    rewrite (load_prefix m2 _ (x, Hdrs) d _ H2 (V2 _))
      by (unfold n; destruct (Z.gtb_spec (size d) (sp_total h + size d - sp_total h)); lia).
    rewrite bind_of_Ret, take_min by (unfold n; lia).
    assert (Ht : size (take (Z.to_nat (n - sp_total h)) d) <= size d) by (unfold size; rewrite length_take; lia).
    destruct (store_chunk_ok m2 _ v p (overwrite old 0 (sphdr_prefix (sp_total h) (size h) ++ h)) (sp_total h) (take (Z.to_nat (n - sp_total h)) d) H2) as (m3 & -> & H3 & _ & R3);
      [apply lookup_insert_eq | by rewrite R2 | done | lia | rewrite overwrite_size; unfold n in *; lia |]. rewrite bind_of_Ret.
    assert (Hrc : received_control h d (size old) old = overwrite (overwrite old 0 (sphdr_prefix (sp_total h) (size h) ++ h))
      (sp_total h) (take (Z.to_nat (n - sp_total h)) d)).
    { unfold received_control. by rewrite Hs, (proj2 (Z.ltb_ge _ _)) by (unfold n; lia). }
    rewrite <-Hrc in H3. eexists m3, _, _. split; [reflexivity|]. split; [by apply (into_new _ _ _ _ v old)|].
    split; [|split].
    + revert H3. apply rep_equiv. unfold g1. by rewrite !put_put, own_put_var.
    + intros w Hw [q Hq]. exists q. rewrite R3, R2. cbn. rewrite lookup_insert_ne; [done|]. congruence.
    + intros w [= <-]. exists p. by rewrite R3, R2.
Qed.

(** The message after [nn_sock_recv], up to the end. *)
Lemma receive_rest m g x hdr h d b bs g1 : mem_rep m (own_msg g x h d b) -> unowned g x -> gets_body g hdr b bs g1 ->
  control_room g1 hdr -> size b < 2 ^ 40 -> size h < 2 ^ 38 -> size d < 2 ^ 38 ->
  exists m1 m2 m3 ctl g2, take_body malloc m x hdr = Ret (m1, inl (size b, bs)) /\ put_control malloc m1 x hdr = Ret (m2, ctl) /\
    nn_msg_term m2 x = Ret m3 /\ gets_control g1 hdr h d ctl g2 /\ mem_rep m3 g2 /\ chunks_there m3 hdr.
Proof.
  intros Hm Hx Hb Hr Sb Sh Sd. destruct (take_body_ok m g x hdr h d b bs g1 Hm Hb Sb) as (m1 & b' & E1 & H1 & Hv).
  destruct (put_control_ok m1 g1 x hdr h d b' H1 Hr Sh Sd) as (m2 & ctl & g2 & E2 & Hc & H2 & Hk & Hw).
  destruct (own_term m2 g2 x h d b' H2) as (m3 & E3 & H3).
  { intros f Hf. assert (Hx1 : vals g1 !! (x, f) = None).
    { destruct Hb; [by apply Hx|]. cbn. rewrite lookup_insert_ne by congruence. by apply Hx. }
    destruct Hc; [done..|]. cbn. by rewrite lookup_insert_ne by congruence. }
  exists m1, m2, m3, ctl, g2. do 5 (split; [done|]). unfold chunks_there, is_var. rewrite (msg_term_refs _ _ _ E3). split; [|done].
  intros i v Hio Hn Hi. apply Hk; [|by eapply Hv]. destruct Hb as [l Hio' Hl|i' v' Hio' _ Hi' _].
  - rewrite Hio' in Hio. injection Hio as ->. apply Forall_cons in Hl as [Hi' _]. apply not_whole in Hi'. by rewrite Hn in Hi'.
  - rewrite Hio' in Hio. injection Hio as ->. rewrite Hi' in Hi. injection Hi as ->. cbn. by rewrite lookup_insert_eq.
Qed.

(** The whole call: the message reaches the caller and nothing else of it is left. *)
Lemma receive_ok (m : memory) (g g1 : owned) (hdr : nn_msghdr) (x src : loc) (st : statistics) (held rc : Z)
    (h d b : list Z) (bs : list buffer) :
  mem_rep m (own_msg g src h d b) -> unowned g src -> unowned g x -> src <> x -> 0 <= held -> 0 <= msg_iovlen hdr -> 0 <= rc ->
  gets_body g hdr b bs g1 -> control_room g1 hdr -> size b < 2 ^ 40 -> size h < 2 ^ 38 -> size d < 2 ^ 38 ->
  exists m' ctl g2, nn_recvmsg malloc m st held (Some hdr) x src rc =
      Ret (m', received st (size b), s32 (size b), Some (Filled bs ctl)) /\
    gets_control g1 hdr h d ctl g2 /\ mem_rep m' g2 /\ chunks_there m' hdr.
Proof.
  intros Hm Hs Hx Hne Hh Hl Hrc Hb Hr Sb Sh Sd. unfold nn_recvmsg, sock_recv.
  rewrite (proj2 (Z.ltb_ge _ _) Hh), (proj2 (Z.ltb_ge _ _) Hl), (proj2 (Z.ltb_ge _ _) Hrc).
  destruct (own_mv m g src x h d b Hm Hne Hs Hx) as (m0 & -> & H0). rewrite bind_of_Ret.
  destruct (receive_rest m0 g x hdr h d b bs g1 H0 Hx Hb Hr Sb Sh Sd) as (m1 & m2 & m3 & ctl & g2 & E1 & E2 & E3 & Hc & H3 & Hv).
  rewrite E1, bind_of_Ret, E2, bind_of_Ret, E3, bind_of_Ret.
  pose proof (received_counted st (size b) (size_nonneg b)) as E. apply bind_Ret in E as (st1 & -> & E).
  rewrite bind_of_Ret, E, bind_of_Ret. by exists m3, ctl, g2.
Qed.

End spec.

(** The message of the example in ApiSend.v arrives in a chunk and a buffer. *)
Definition example_receive : nn_msghdr :=
  Msghdr [Iovec (ChunkVar (Some 5%positive)) NN_MSG] 1 (Bytes (replicate 64 0)) 64.

