(* ===== verification/Device.v ===== *)
(** * Device: forwarding between two sockets (src/devices/device.c)

    [nn_device_entry] checks the two sockets of a device and decides how it runs;
    [nn_device_mvmsg] moves one message, with the calls of Api.v and two
    variables on its stack for the body and the control messages.  Options
    are those of Sock.v; [sockets] is the table of global.c, where a socket is
    its type and its options.

    The function pointers of a recipe are those of [nn_ordinary_device], apart from
    [nn_device_rewritemsg], whose result is an argument: it says what a custom device does
    with the message, when it leaves the message itself as it is.  The loops
    [for (;;)] around [nn_device_mvmsg] run until it reports an error. *)

From stdpp Require Import base gmap list functions.
From Stdlib Require Import ZArith Lia.
From S2P Require Import Prelude ListHeap Message Cmsg Sock.
From S2P Require Import Chunk Api.
From S2P Require Efd.
Import Efd (EBADF).

Open Scope Z_scope.

Definition NN_HAUSNUMERO : Z := 156384712.
Definition ETERM : Z := NN_HAUSNUMERO + 53.
Definition AF_SP_RAW : Z := 2.

Definition NN_CHECK_AT_LEAST_ONE_SOCKET : Z := Z.shiftl 1 0.
Definition NN_CHECK_ALLOW_LOOPBACK : Z := Z.shiftl 1 1.
Definition NN_CHECK_ALLOW_BIDIRECTIONAL : Z := Z.shiftl 1 2.
Definition NN_CHECK_ALLOW_UNIDIRECTIONAL : Z := Z.shiftl 1 3.
Definition NN_CHECK_REQUIRE_RAW_SOCKETS : Z := Z.shiftl 1 4.
Definition NN_CHECK_SAME_PROTOCOL_FAMILY : Z := Z.shiftl 1 5.
Definition NN_CHECK_SOCKET_DIRECTIONALITY : Z := Z.shiftl 1 6.

(** [required_checks] of [nn_ordinary_device]. *)
Definition nn_ordinary_device : Z :=
  foldr Z.lor 0 [NN_CHECK_AT_LEAST_ONE_SOCKET; NN_CHECK_ALLOW_LOOPBACK; NN_CHECK_ALLOW_BIDIRECTIONAL;
    NN_CHECK_REQUIRE_RAW_SOCKETS; NN_CHECK_SAME_PROTOCOL_FAMILY; NN_CHECK_SOCKET_DIRECTIONALITY;
    NN_CHECK_ALLOW_UNIDIRECTIONAL].

Abbreviation sockets := (Z -> option (sock_type * sock_opts)).

(** How a device runs. *)
Inductive device_run : Type := Loopback (s : Z) | Twoway (s1 s2 : Z) | Oneway (from to : Z).

(** ** Starting a device *)

(** [nn_getsockopt] for an option of the socket that is an [int]: its value, or
    the error; the callers assert the size. *)
Definition get_opt (socks : sockets) (s opt : Z) : outcome (Z + Z) :=
  match socks s with
  | None => Ret (inr EBADF)
  | Some (ty, opts) =>
      let no _ _ n := (- ENOPROTOOPT, [], Z.of_nat n) in
      let '(rc, v, len) := nn_sock_getopt_inner no no ty opts NN_SOL_SOCKET opt 4 in
      if rc <? 0 then Ret (inr (- rc)) else
      _ ← check (rc =? 0);
      _ ← check (len =? 4);
      Ret (inl (bytes_int v))
  end.

(** The descriptor for polling, -1 if there is none, or the error. *)
Definition get_fd (socks : sockets) (s opt : Z) : outcome (Z + Z) :=
  r ← get_opt socks s opt;
  match r with
  | inr e => Ret (if negb (e =? ENOPROTOOPT) then inr e else inl (-1))
  | inl fd => _ ← check (fd >=? 0); Ret (inl fd)
  end.

Definition nn_device_loopback (socks : sockets) (s : Z) : outcome (device_run + Z) :=
  op ← get_opt socks s NN_DOMAIN;
  match op with
  | inr e => Ret (inr e)
  | inl op => Ret (if negb (op =? AF_SP_RAW) then inr EINVAL else inl (Loopback s))
  end.

(** Both sockets are raw; [None] if they pass. *)
Definition raw_check (socks : sockets) (s1 s2 : Z) : outcome (option Z) :=
  op1 ← get_opt socks s1 NN_DOMAIN;
  match op1 with
  | inr e => Ret (Some e)
  | inl op1 =>
      op2 ← get_opt socks s2 NN_DOMAIN;
      match op2 with
      | inr e => Ret (Some e)
      | inl op2 => Ret (if negb (op1 =? AF_SP_RAW) || negb (op2 =? AF_SP_RAW) then Some EINVAL else None)
      end
  end.

(** Both sockets are of one protocol family. *)
Definition family_check (socks : sockets) (s1 s2 : Z) : outcome (option Z) :=
  op1 ← get_opt socks s1 NN_PROTOCOL;
  match op1 with
  | inr e => Ret (Some e)
  | inl op1 =>
      op2 ← get_opt socks s2 NN_PROTOCOL;
      match op2 with
      | inr e => Ret (Some e)
      | inl op2 => Ret (if negb (op1 ÷ 16 =? op2 ÷ 16) then Some EINVAL else None)
      end
  end.

(** What the descriptors admit: the way to run, or the error. *)
Definition choose_run (checks s1 s2 s1rcv s1snd s2rcv s2snd : Z) : outcome (device_run + Z) :=
  let on c := negb (Z.land checks c =? 0) in
  let has fd := negb (fd =? -1) in
  if on NN_CHECK_SOCKET_DIRECTIONALITY && (has s1rcv && negb (has s2snd) || has s1snd && negb (has s2rcv) ||
       has s2rcv && negb (has s1snd) || has s2snd && negb (has s1rcv))
  then Ret (inr EINVAL) else
  if on NN_CHECK_ALLOW_BIDIRECTIONAL && (has s1rcv && has s1snd && has s2rcv && has s2snd)
  then Ret (inl (Twoway s1 s2)) else
  if on NN_CHECK_ALLOW_UNIDIRECTIONAL && (has s1rcv && negb (has s1snd) && negb (has s2rcv) && has s2snd)
  then Ret (inl (Oneway s1 s2)) else
  if on NN_CHECK_ALLOW_UNIDIRECTIONAL && (negb (has s1rcv) && has s1snd && has s2rcv && negb (has s2snd))
  then Ret (inl (Oneway s2 s1)) else
  Abort.

Definition nn_device_entry (socks : sockets) (checks s1 s2 : Z) : outcome (device_run + Z) :=
  let on c := negb (Z.land checks c =? 0) in
  if on NN_CHECK_AT_LEAST_ONE_SOCKET && ((s1 <? 0) && (s2 <? 0)) then Ret (inr EBADF) else
  if on NN_CHECK_ALLOW_LOOPBACK && (s2 <? 0) then nn_device_loopback socks s1 else
  if on NN_CHECK_ALLOW_LOOPBACK && (s1 <? 0) then nn_device_loopback socks s2 else
  r ← (if on NN_CHECK_REQUIRE_RAW_SOCKETS then raw_check socks s1 s2 else Ret None);
  match r with Some e => Ret (inr e) | None =>
  r ← (if on NN_CHECK_SAME_PROTOCOL_FAMILY then family_check socks s1 s2 else Ret None);
  match r with Some e => Ret (inr e) | None =>
  s1rcv ← get_fd socks s1 NN_RCVFD;
  match s1rcv with inr e => Ret (inr e) | inl s1rcv =>
  s1snd ← get_fd socks s1 NN_SNDFD;
  match s1snd with inr e => Ret (inr e) | inl s1snd =>
  s2rcv ← get_fd socks s2 NN_RCVFD;
  match s2rcv with inr e => Ret (inr e) | inl s2rcv =>
  s2snd ← get_fd socks s2 NN_SNDFD;
  match s2snd with inr e => Ret (inr e) | inl s2snd =>
  choose_run checks s1 s2 s1rcv s1snd s2rcv s2snd
  end end end end end end.

Definition nn_device (socks : sockets) (s1 s2 : Z) : outcome (device_run + Z) :=
  nn_device_entry socks nn_ordinary_device s1 s2.

(** ** One message *)

Definition nn_device_rewritemsg : Z := 1.

(** What the calls find: the sockets, whether they have or take the message, and
    the result of [nn_device_rewritemsg]; where the message comes from and goes to. *)
Record hop : Type := Hop { held_from : Z; rc_from : Z; rewritten : Z; held_to : Z; rc_to : Z; src : loc; dst : loc }.

(** The header that both calls use. *)
Definition device_hdr (body control : loc) : nn_msghdr :=
  Msghdr [Iovec (ChunkVar (Some body)) NN_MSG] 1 (ChunkVar (Some control)) NN_MSG.

Section device.
  Context (malloc : chunk_heap -> Z -> allocation).

(** [body] and [control] are its variables, [rmsg] and [smsg] those of the two
    calls.  The result is 0 or [- errno]. *)
Definition nn_device_mvmsg (m : memory) (sts : Z -> statistics) (from to : Z) (body control rmsg smsg : loc) (e : hop)
    : outcome (memory * (Z -> statistics) * Z) :=
  let hdr := device_hdr body control in
  '(m, st, rc, _) ← nn_recvmsg malloc m (sts from) (held_from e) (Some hdr) rmsg (src e) (rc_from e);
  let sts := <[from := st]> sts in
  if (rc <? 0) && ((rc =? - ETERM) || (rc =? - EBADF)) then Ret (m, sts, rc) else
  _ ← check (rc >=? 0);
  if rewritten e =? -1 then Ret (m, sts, -1) else
  if rewritten e =? 0 then Ret (m, sts, 0) else
  _ ← check (rewritten e =? 1);
  '(m, st, rc) ← nn_sendmsg malloc m (sts to) (held_to e) (Some hdr) smsg (dst e) (rc_to e);
  let sts := <[to := st]> sts in
  if (rc <? 0) && ((rc =? - ETERM) || (rc =? - EBADF)) then Ret (m, sts, rc) else
  _ ← check (rc >=? 0);
  Ret (m, sts, 0).

(** The loops of [nn_device_loopback], [nn_device_oneway] and [nn_device_forwarder],
    over as many messages as there are hops; [Some rc] when one ends them. *)
Fixpoint device_loop (m : memory) (sts : Z -> statistics) (from to : Z) (body control rmsg smsg : loc) (es : list hop)
    : outcome (memory * (Z -> statistics) * option Z) :=
  match es with
  | [] => Ret (m, sts, None)
  | e :: es =>
      '(m, sts, rc) ← nn_device_mvmsg m sts from to body control rmsg smsg e;
      if rc <? 0 then Ret (m, sts, Some rc) else device_loop m sts from to body control rmsg smsg es
  end.
End device.
