(* ===== verification/DeviceSpec.v ===== *)
(** * DeviceSpec: what a device promises (src/devices/device.c)

    [device_runs]: a device that starts forwards only from a socket that receives to one
    that sends, both raw and of one protocol family, and the assertion behind
    the choice holds.  [device_forwards]: a message arrives on the other side
    with its header and its body as they were. *)

From stdpp Require Import base gmap list functions.
From Stdlib Require Import ZArith Lia.
From S2P Require Import Prelude ListHeap Message Cmsg CmsgSpec Sock.
From S2P Require Import Chunk ChunkSpec Api ApiSpec ApiSend ApiRecv Device.
From S2P Require Efd.
Import Efd (EBADF).

Open Scope Z_scope.

(** ** One message *)

Section forward.
  Context (malloc : chunk_heap -> Z -> allocation) `{!Malloc malloc}.

(** The control messages the device has received, sent again. *)
Lemma again_ok h d junk d' : d' = cmsg (sp_property h junk) ++ d -> prop_ok (sp_property h junk) ->
  sp_value (value (sp_property h junk)) = h -> size d' < 2 ^ 40 ->
  control_ok d' [sp_property h junk] /\ sp_header_of [sp_property h junk] = h.
Proof.
  intros Hd Hp Hv Hs. split; [|exact Hv]. exists d. split; [by rewrite Hd; unfold cmsgs; cbn [map concat]; rewrite app_nil_r|].
  split; [|done]. split; [by constructor|]. right. by constructor.
Qed.

Section hop.
  Context (m : memory) (g : owned) (sts : Z -> statistics) (from to : Z) (body control rmsg smsg : loc) (e : hop)
    (h d b : list Z).
  Context (Hm : mem_rep m (own_msg g (src e) h d b)) (Hsrc : unowned g (src e)) (Hdst : unowned g (dst e))
    (Hr : unowned g rmsg) (Hs : unowned g smsg) (Hsr : src e <> rmsg) (Hsd : smsg <> dst e)
    (Hbody : vals g !! (body, Var) = None) (Hcontrol : vals g !! (control, Var) = None) (Hbc : body <> control)
    (Sb : size b < 2 ^ 31) (Sh : size h < 2 ^ 38) (Sd : size d < 2 ^ 38).

(** The two chunks between the calls. *)
Lemma between : 0 <= held_from e -> 0 <= rc_from e ->
  exists m' f junk d', nn_recvmsg malloc m (sts from) (held_from e) (Some (device_hdr body control)) rmsg (src e) (rc_from e) =
      Ret (m', received (sts from) (size b), size b, Some f) /\
    d' = cmsg (sp_property h junk) ++ d /\ control_ok d' [sp_property h junk] /\ sp_header_of [sp_property h junk] = h /\
    mem_rep m' (put_val (put_val g (body, Var) b) (control, Var) d') /\ is_var m' body /\ is_var m' control.
Proof.
  intros Hh Hrc. set (hdr := device_hdr body control). pose proof (size_nonneg b). pose proof (size_nonneg d).
  set (g1 := put_val g (body, Var) b).
  assert (Hg : gets_body g hdr b [ChunkVar (Some body)] g1) by (by eapply into_chunk).
  assert (Hroom : control_room g1 hdr) by (eapply room_chunk; [done..|]; cbn; by rewrite lookup_insert_ne by congruence).
  destruct (receive_ok malloc m g g1 hdr rmsg (src e) (sts from) (held_from e) (rc_from e) h d b [ChunkVar (Some body)] Hm) as
    (m' & ctl & g2 & E & Hc & H2 & Hv1 & Hv2); try (done || lia).
  rewrite s32_id in E by lia. inversion Hc as [? | ? ? | v old Ev Hvn Hold]; [done..|]. subst ctl g2. injection Ev as <-.
  destruct (received_all h d old) as (junk & Er & Hp & Hval); [lia | done |]. rewrite Er in H2.
  pose proof (sp_total_bounds h ltac:(lia)).
  destruct (again_ok h d junk _ eq_refl Hp Hval) as [Hok Hhd].
  { rewrite <-Er, received_size by lia. lia. }
  eexists m', _, junk, _. split; [exact E|]. split; [reflexivity|]. split; [done|]. split; [done|]. split; [done|].
  split; [by eapply Hv1 | by apply Hv2].
Qed.
End hop.

(** The variables of the device when the sending call has taken both chunks. *)
Lemma both_gone g x h d b body control bb cc : vals g !! (body, Var) = None -> vals g !! (control, Var) = None ->
  own_msg (drop_val (drop_val (put_val (put_val g (body, Var) bb) (control, Var) cc) (body, Var)) (control, Var)) x h d b ≡
  own_msg g x h d b.
Proof. intros Hb Hc. own_eq. Qed.

Lemma body_back g body control bb cc : vals g !! (body, Var) = None -> vals g !! (control, Var) = None ->
  put_val (drop_val (drop_val (put_val (put_val g (body, Var) bb) (control, Var) cc) (body, Var)) (control, Var)) (body, Var) bb ≡
  put_val g (body, Var) bb.
Proof. intros Hb Hc. own_eq. Qed.

(** C16.  A device passes messages on.  A message of the one socket leaves through the
    other with the same header and the same body, and of the
    two chunks between the calls nothing is left; behind it come the control
    messages it had and the SP_HDR property in front of them, one more for every device on the
    way.  If the other socket is closed meanwhile, the device ends with that error
    and the chunk with the body stays allocated. *)
Theorem device_forwards (m : memory) (g : owned) (sts : Z -> statistics) (from to : Z) (body control rmsg smsg : loc)
    (e : hop) (h d b : list Z) :
  mem_rep m (own_msg g (src e) h d b) -> unowned g (src e) -> unowned g (dst e) -> unowned g rmsg -> unowned g smsg ->
  src e <> rmsg -> smsg <> dst e -> vals g !! (body, Var) = None -> vals g !! (control, Var) = None -> body <> control ->
  size b < 2 ^ 31 -> size h < 2 ^ 38 -> size d < 2 ^ 38 ->
  0 <= held_from e -> 0 <= rc_from e -> rewritten e = nn_device_rewritemsg -> 0 <= held_to e ->
  0 <= rc_to e \/ rc_to e = - ETERM \/ rc_to e = - EBADF ->
  let sts1 := <[from := received (sts from) (size b)]> sts in
  exists m' junk,
    nn_device_mvmsg malloc m sts from to body control rmsg smsg e =
      Ret (if rc_to e <? 0 then (m', <[to := sts1 to]> sts1, rc_to e) else (m', <[to := sent (sts1 to) (size b)]> sts1, 0)) /\
    mem_rep m' (if rc_to e <? 0 then put_val g (body, Var) b
                else own_msg g (dst e) h (cmsg (sp_property h junk) ++ d) b).
Proof.
  intros Hm Hsrc Hdst Hr Hs Hsr Hsd Hbody Hcontrol Hbc Sb Sh Sd Hf Hrf Hw Hh Hrc sts1. pose proof (size_nonneg b).
  destruct (between m g sts from body control rmsg smsg e h d b) as (m1 & f & junk & d' & E1 & Hd' & Hok & Hhd & H1 & Vb & Vc);
    [done..|]. set (g1 := put_val (put_val g (body, Var) b) (control, Var) d') in *.
  assert (Hu : forall y, unowned g y -> unowned g1 y).
  { intros y Hy t Ht. cbn. rewrite !lookup_insert_ne by congruence. by apply Hy. }
  assert (Tb : takes_body m1 g1 (device_hdr body control) b (drop_val g1 (body, Var)) (Some body)).
  { eapply body_chunk; [done..| |done]. cbn. by rewrite lookup_insert_ne, lookup_insert_eq by congruence. }
  assert (Tc : takes_control m1 (drop_val g1 (body, Var)) (device_hdr body control) d'
    (drop_val (drop_val g1 (body, Var)) (control, Var))).
  { eapply control_chunk; [done..| |done]. cbn. by rewrite lookup_delete_ne, lookup_insert_eq by congruence. }
  unfold nn_device_mvmsg. rewrite E1, bind_of_Ret, (proj2 (Z.ltb_ge (size b) 0)) by lia. cbn [andb].
  rewrite Z.geb_leb, (proj2 (Z.leb_le 0 (size b))) by lia. cbn [check]. rewrite bind_of_Ret, Hw.
  change (nn_device_rewritemsg =? -1) with false. change (nn_device_rewritemsg =? 0) with false.
  change (check (nn_device_rewritemsg =? 1)) with (Ret tt). cbn beta iota zeta. rewrite bind_of_Ret. fold sts1.
  destruct (Z.ltb_spec (rc_to e) 0) as [Hlt|Hge].
  - destruct (send_refused malloc m1 g1 _ _ (device_hdr body control) smsg (dst e) (sts1 to) (held_to e) (rc_to e) b d'
      _ _ H1 (Hu _ Hs) Hh ltac:(done) Tb Tc Hok ltac:(lia) Hlt) as (m2 & E2 & H2).
    rewrite E2, bind_of_Ret, (proj2 (Z.ltb_lt _ _) Hlt). exists m2, junk.
    split; [destruct Hrc as [?|[->| ->]]; [lia | done..]|]. revert H2. apply rep_equiv. by apply body_back.
  - destruct (send_taken malloc m1 g1 _ _ (device_hdr body control) smsg (dst e) (sts1 to) (held_to e) (rc_to e) b d'
      _ _ H1 (Hu _ Hs) Hh ltac:(done) Tb Tc Hok ltac:(lia) (Hu _ Hdst) Hsd Hge) as (m2 & E2 & H2).
    rewrite E2, bind_of_Ret, s32_id, (proj2 (Z.ltb_ge (size b) 0)) by lia. cbn [andb].
    rewrite Z.geb_leb, (proj2 (Z.leb_le 0 (size b))) by lia. cbn [check]. rewrite bind_of_Ret. exists m2, junk. split; [done|].
    rewrite Hhd, Hd' in H2. revert H2. apply rep_equiv. by apply both_gone.
Qed.
End forward.

(** ** Starting a device *)

(** The sockets of the table: options and descriptors are of type [int], the
    descriptors valid, and every socket sends or receives. *)
Definition type_ok (ty : sock_type) : Prop :=
  int_range (domain ty) /\ int_range (protocol ty) /\ 0 <= sndfd ty < 2 ^ 31 /\ 0 <= rcvfd ty < 2 ^ 31 /\
  (nosend ty = false \/ norecv ty = false).

Definition sockets_ok (socks : sockets) : Prop := forall s ty opts, socks s = Some (ty, opts) -> 0 <= s /\ type_ok ty.

(** Each socket takes what the other one gives. *)
Definition compatible (ty1 ty2 : sock_type) : bool :=
  (domain ty1 =? AF_SP_RAW) && (domain ty2 =? AF_SP_RAW) && (protocol ty1 ÷ 16 =? protocol ty2 ÷ 16) &&
  eqb (norecv ty1) (nosend ty2) && eqb (nosend ty1) (norecv ty2).

Definition loop_spec (socks : sockets) (s : Z) : device_run + Z :=
  match socks s with
  | Some (ty, _) => if domain ty =? AF_SP_RAW then inl (Loopback s) else inr EINVAL
  | None => inr EBADF
  end.

(** How a device of two sockets runs. *)
Definition device_spec (socks : sockets) (s1 s2 : Z) : device_run + Z :=
  if s2 <? 0 then loop_spec socks s1 else
  if s1 <? 0 then loop_spec socks s2 else
  match socks s1, socks s2 with
  | Some (ty1, _), Some (ty2, _) =>
      if compatible ty1 ty2 then
        inl (if negb (norecv ty1) && negb (nosend ty1) then Twoway s1 s2 else if norecv ty1 then Oneway s2 s1 else Oneway s1 s2)
      else inr EINVAL
  | _, _ => inr EBADF
  end.

Section entry.
  Context (socks : sockets) (Hok : sockets_ok socks).

Lemma get_none s opt : socks s = None -> get_opt socks s opt = Ret (inr EBADF).
Proof. intros Hs. unfold get_opt. by rewrite Hs. Qed.

Lemma get_int_opt s ty opts opt v : socks s = Some (ty, opts) -> get_int (domain ty) (protocol ty) opts opt = Some v ->
  int_range v -> get_opt socks s opt = Ret (inl v).
Proof.
  intros Hs Hv Hr. unfold get_opt. rewrite Hs. cbn [nn_sock_getopt_inner]. unfold nn_sock_getopt_inner.
  change (NN_SOL_SOCKET >? NN_SOL_SOCKET) with false. change (NN_SOL_SOCKET <? NN_SOL_SOCKET) with false.
  cbn iota. rewrite Hv. change (take 4 (int_bytes v)) with (int_bytes v). cbn iota zeta.
  rewrite int_round_trip by done. done.
Qed.

Lemma get_domain s ty opts : socks s = Some (ty, opts) -> get_opt socks s NN_DOMAIN = Ret (inl (domain ty)).
Proof. intros Hs. destruct (Hok _ _ _ Hs) as (_ & Hd & _). by apply (get_int_opt s ty opts). Qed.

Lemma get_protocol s ty opts : socks s = Some (ty, opts) -> get_opt socks s NN_PROTOCOL = Ret (inl (protocol ty)).
Proof. intros Hs. destruct (Hok _ _ _ Hs) as (_ & _ & Hp & _). by apply (get_int_opt s ty opts). Qed.

Lemma get_rcvfd s ty opts : socks s = Some (ty, opts) ->
  get_fd socks s NN_RCVFD = Ret (inl (if norecv ty then -1 else rcvfd ty)).
Proof.
  intros Hs. destruct (Hok _ _ _ Hs) as (_ & _ & _ & _ & Hf & _). unfold get_fd, get_opt. rewrite Hs.
  unfold nn_sock_getopt_inner. cbn -[int_bytes bytes_int take]. destruct (norecv ty); [done|].
  change (take 4 (int_bytes (rcvfd ty))) with (int_bytes (rcvfd ty)). cbn -[int_bytes bytes_int].
  rewrite int_round_trip by (unfold int_range; lia). rewrite Z.geb_leb, (proj2 (Z.leb_le _ _)) by lia. done.
Qed.

Lemma get_sndfd s ty opts : socks s = Some (ty, opts) ->
  get_fd socks s NN_SNDFD = Ret (inl (if nosend ty then -1 else sndfd ty)).
Proof.
  intros Hs. destruct (Hok _ _ _ Hs) as (_ & _ & _ & Hf & _ & _). unfold get_fd, get_opt. rewrite Hs.
  unfold nn_sock_getopt_inner. cbn -[int_bytes bytes_int take]. destruct (nosend ty); [done|].
  change (take 4 (int_bytes (sndfd ty))) with (int_bytes (sndfd ty)). cbn -[int_bytes bytes_int].
  rewrite int_round_trip by (unfold int_range; lia). rewrite Z.geb_leb, (proj2 (Z.leb_le _ _)) by lia. done.
Qed.

Lemma loopback_ok s : nn_device_loopback socks s = Ret (loop_spec socks s).
Proof.
  unfold nn_device_loopback, loop_spec. destruct (socks s) as [[ty opts]|] eqn:Hs.
  - rewrite (get_domain s ty opts Hs), bind_of_Ret. by destruct (domain ty =? AF_SP_RAW).
  - by rewrite (get_none s _ Hs), bind_of_Ret.
Qed.

(** The descriptors of two sockets that each send or receive. *)
Lemma choose_ok s1 s2 (r1 t1 r2 t2 : bool) fr1 ft1 fr2 ft2 :
  0 <= fr1 -> 0 <= ft1 -> 0 <= fr2 -> 0 <= ft2 -> t1 = false \/ r1 = false -> t2 = false \/ r2 = false ->
  choose_run nn_ordinary_device s1 s2 (if r1 then -1 else fr1) (if t1 then -1 else ft1)
    (if r2 then -1 else fr2) (if t2 then -1 else ft2) =
  Ret (if eqb r1 t2 && eqb t1 r2 then
    inl (if negb r1 && negb t1 then Twoway s1 s2 else if r1 then Oneway s2 s1 else Oneway s1 s2) else inr EINVAL).
Proof.
  intros H1 H2 H3 H4 Hs1 Hs2.
  assert (Hfd : forall (no : bool) fd, 0 <= fd -> ((if no then -1 else fd) =? -1) = no).
  { intros [|] fd Hfd; [done|]. apply Z.eqb_neq. lia. }
  unfold choose_run. rewrite !Hfd by done. destruct r1, t1, r2, t2; destruct Hs1, Hs2; done.
Qed.

(** C21.  [nn_device] starts a device exactly as [device_spec] says, for any two
    sockets: with one socket it loops messages back, if the socket is raw; with two
    it wants them raw, of one protocol family, and each to receive
    exactly if the other one sends; it runs in the directions in which messages can pass, the
    errors are EBADF for a socket that is not there and EINVAL, and the assertion that
    no other case is left never fails. *)
Theorem device_runs (s1 s2 : Z) : nn_device socks s1 s2 = Ret (device_spec socks s1 s2).
Proof.
  unfold nn_device, nn_device_entry, device_spec.
  change (negb (Z.land nn_ordinary_device ?c =? 0)) with true. cbn [andb].
  destruct (Z.ltb_spec s1 0) as [H1|H1], (Z.ltb_spec s2 0) as [H2|H2]; cbn [andb].
  - unfold loop_spec. destruct (socks s1) as [[ty opts]|] eqn:Hs; [|done]. apply Hok in Hs. lia.
  - apply loopback_ok.
  - apply loopback_ok.
  - unfold raw_check, family_check. destruct (socks s1) as [[ty1 o1]|] eqn:E1; [|by rewrite (get_none s1 NN_DOMAIN E1)].
    rewrite (get_domain _ _ _ E1), bind_of_Ret. destruct (socks s2) as [[ty2 o2]|] eqn:E2; [|by rewrite (get_none s2 NN_DOMAIN E2)].
    rewrite (get_domain _ _ _ E2), bind_of_Ret. unfold compatible.
    destruct (domain ty1 =? AF_SP_RAW); [|done]. destruct (domain ty2 =? AF_SP_RAW); [|done]. cbn [negb orb andb].
    rewrite bind_of_Ret, (get_protocol _ _ _ E1), bind_of_Ret, (get_protocol _ _ _ E2), bind_of_Ret.
    destruct (protocol ty1 ÷ 16 =? protocol ty2 ÷ 16); [|done]. cbn [negb andb]. rewrite bind_of_Ret.
    rewrite (get_rcvfd _ _ _ E1), bind_of_Ret, (get_sndfd _ _ _ E1), bind_of_Ret.
    rewrite (get_rcvfd _ _ _ E2), bind_of_Ret, (get_sndfd _ _ _ E2), bind_of_Ret.
    destruct (Hok _ _ _ E1) as (_ & _ & _ & S1 & R1 & D1). destruct (Hok _ _ _ E2) as (_ & _ & _ & S2 & R2 & D2).
    rewrite choose_ok by (done || lia). done.
Qed.
End entry.

(** ** Examples *)

Definition example_hop : hop := Hop 0 0 1 0 0 1%positive 2%positive.

Lemma device_forwards_witness :
  exists m' sts' junk,
    nn_device_mvmsg plain_malloc (put_message no_memory 1%positive [7; 8] [] [1; 2; 3]) (fun _ => init_stats) 0 1
      5%positive 6%positive 3%positive 4%positive example_hop = Ret (m', sts', 0) /\
    mem_rep m' (own_msg nothing 2%positive [7; 8] (cmsg (sp_property [7; 8] junk) ++ []) [1; 2; 3]).
Proof.
  destruct (device_forwards plain_malloc (put_message no_memory 1%positive [7; 8] [] [1; 2; 3]) nothing (fun _ => init_stats) 0 1
    5%positive 6%positive 3%positive 4%positive example_hop [7; 8] [] [1; 2; 3]) as (m' & junk & E & H');
    [apply put_message_own; [apply rep_nothing | apply unowned_nothing | done | done | done]
    | apply unowned_nothing | apply unowned_nothing | apply unowned_nothing | apply unowned_nothing | done | done | done | done | done
    | done | done | done | done | done | done | done | by left |].
  exists m'. eexists. exists junk. split; [exact E | exact H'].
Defined.

(** A raw push and a raw pull socket, with descriptors 4 and 5. *)
Definition example_sockets : sockets := fun s =>
  if s =? 0 then Some (SockType AF_SP_RAW 80 false true 4 0, init_opts [])
  else if s =? 1 then Some (SockType AF_SP_RAW 81 true false 0 5, init_opts []) else None.

Lemma device_runs_witness : nn_device example_sockets 0 1 = Ret (inl (Oneway 1 0)).
Proof.
  apply (device_runs example_sockets). intros s ty opts. unfold example_sockets.
  destruct (Z.eqb_spec s 0) as [->|]; [|destruct (Z.eqb_spec s 1) as [->|]; [|done]]; intros [= <- <-];
    (split; [lia|]); unfold type_ok, int_range, AF_SP_RAW; cbn [domain protocol sndfd rcvfd nosend norecv]; split_and!; try lia; first [by left | by right].
Defined.
